(* ===== verification/_CoqProject ===== *)
-Q . S2P
Prelude.v
Arith.v
Bits.v
Div64.v
Crc.v
Crc32.v
Sort.v
ListSort.v
Range.v
Memblock.v
CString.v
Kmp.v
Uaccess.v
Kfifo.v
Kstrtox.v
VsprintfNum.v
VsprintfPtr.v
Vsprintf.v
PrintParse.v
Bprintf.v
Sscanf.v
RbTree.v
RbInsert.v
RbErase.v
RbWalk.v
Skb.v
Bpf.v
BpfRun.v
Buddy.v
BuddyAlloc.v
Pcp.v
Rtime.v
Rubin.v
Cipher.v
Semaphore.v
Rwsem.v
NandEcc.v
UbootNandEcc.v
Calendar.v
UbootDate.v
