(* ===== verification/Prelude.v ===== *)
(** * Verification of library code of the Toradex Linux and U-Boot trees

    The repository holds two programs for Toradex computer modules: the Linux
    3.1 kernel (src/linux-toradex) and the U-Boot boot loader
    (src/u-boot-toradex).  This development models parts of both whose
    behaviour is determined by their sources, function by function, and proves
    that they do what they are for.  File names below are relative to
    src/linux-toradex unless they begin with U-Boot's name.

    ** How the code is modelled

    A function of the source is a function here, with its name.  An integer is
    a [Z]; every operation whose C result is reduced to a width applies the
    reduction ([u8] ... [ulong], [s8] ... [s64]), with the widths of the 32-bit ARM target.
    Memory that a function reads or writes is an argument and, when written, a result.
    [None] is what the code must not do: an access outside an object, a
    division by zero, BUG(), or a loop that does not end; a theorem that
    an operation returns is a theorem that its result is [Some].

    A loop is a named body over its state, run by [loop body bound]: the body
    returns [Next] or [Done], and a loop that has not left after [bound]
    iterations is [None].  The bounds are larger than the number of
    iterations of every run, which is what the theorems show: they are proved with
    [loop_total], by an invariant and a measure below the bound, so a
    result never depends on a bound being reached.  Tasks that interleave are a
    step relation over the state of the system, and their theorems hold in every reachable state.

    ** The files

    - Prelude.v (this file): machine integers, arrays with bounds, loops and
      their rules, the lemmas and tactics that the other files share.
    - Arith.v: lib/gcd.c, lcm.c, int_sqrt.c, bcd.c, reciprocal_div.c and
      rational.c.
    - Bits.v: include/asm-generic/bitops, lib/hweight.c and bitrev.c.  Population counts
      count, searches find the first or last bit.
    - Div64.v: lib/div64.c, include/linux/math64.h, asm-generic/div64.h.
      Which divisions of 64-bit numbers are exact.
    - Crc.v, Crc32.v: lib/crc16.c, crc-ccitt.c, crc-itu-t.c, crc-t10dif.c,
      crc7.c, crc8.c; lib/crc32.c and gen_crc32table.c.  Table-driven and
      word-wise loops equal the register shifted bit by bit.
    - Sort.v: lib/sort.c and bsearch.c over raw bytes.  What the sort asks of
      its callbacks are the classes [Comparator] and [SwapFunc]; the default exchange
      functions are instances.
    - ListSort.v: lib/list_sort.c on a memory of linked nodes.  The sort is stable and restores the links; what it asks of the
      comparison is the class [ListOrder].
    - Range.v: kernel/range.c, on top of Sort.v.
    - Memblock.v: mm/memblock.c, the boot memory map.  Its operations refine
      union and difference of sets of addresses; an allocation is aligned,
      free and then reserved.
    - Buddy.v: the buddy allocator of mm/page_alloc.c.  Freeing and splitting keep the lists,
      the marks of the pages and the counters of a zone consistent and leave no two buddies free, and change no page that
      is in use.
    - BuddyAlloc.v: the rest of its allocation: the bitmap of migration types and the fallback to the
      lists of other types.
    - Pcp.v: the lists of pages of a processor in the same file, filled and emptied in bulk.
    - CString.v: lib/string.c, lib/ctype.c.  Copies, comparisons, searches and edits of
      strings, and memmove() on overlapping areas.
    - Kmp.v: lib/ts_kmp.c and the part of lib/textsearch.c around it.  A search finds the first occurrence of a pattern in
      a text that comes in blocks (class [TextSource]).
    - Uaccess.v: what copies from and to user memory promise (classes [CopyFromUser] and
      [CopyToUser]), which Kfifo.v and Kstrtox.v rely on.
    - Kfifo.v: kernel/kfifo.c, on top of CString.v and Bits.v.  The ring refines a queue of
      bytes, and of records; user copies that fault; the scatter lists of DMA transfers.
    - Kstrtox.v: lib/kstrtox.c.  A string is converted exactly when it is a number in range.
    - VsprintfNum.v, VsprintfPtr.v, Vsprintf.v: lib/vsprintf.c, the numbers, the extensions of %p
      and the loop over the format.  The output is the text that the format and its arguments denote, cut off at the buffer.
    - PrintParse.v: a number that is printed is parsed again by Kstrtox.v.
    - Bprintf.v: the binary variant in lib/vsprintf.c, which agrees with printing directly.
    - Sscanf.v: vsscanf() of lib/vsprintf.c, which reads back what snprintf() prints.
    - RbTree.v, RbInsert.v, RbErase.v, RbWalk.v: lib/rbtree.c on a memory of linked nodes.  RbTree.v relates the memory to trees; the
      others show that insertion and removal keep the order of the nodes and the red-black rules, that
      the walks visit the nodes in order, and that a node can be replaced in place.
    - Skb.v: reading a packet that is spread over fragments, in net/core/skbuff.c and
      include/linux/skbuff.h.
    - Bpf.v, BpfRun.v: net/core/filter.c, the checker and the interpreter of socket filters.  A filter
      that the checker accepts runs to its end, reads no scratch word before it is written and depends on nothing else.
    - Rtime.v: fs/jffs2/compr_rtime.c.  Decompression inverts compression.
    - Rubin.v: fs/jffs2/compr_rubin.c, an arithmetic coder.  All the intervals of the
      coder contain the number that is written in the end, so the decompressor takes the same decisions.
    - Cipher.v: crypto/tea.c and arc4.c.  Decryption inverts encryption.
    - Semaphore.v: kernel/semaphore.c.  Tasks, signals and timeouts interleave;
      the count is exact, nobody waits for a free semaphore, and waiters are served in order.
    - Rwsem.v: lib/rwsem-spinlock.c.  Writers exclude everybody, and nobody
      waits for a free lock.
    - NandEcc.v: drivers/mtd/nand/nand_ecc.c.  The code of a flash block
      corrects one and recognises two wrong bits.
    - UbootNandEcc.v: U-Boot's drivers/mtd/nand/nand_ecc.c, which agrees with
      the kernel's.
    - Calendar.v: drivers/rtc/rtc-lib.c, kernel/time/timeconv.c and parts of
      kernel/time.c, on top of Div64.v.  Times and dates convert into each other.
    - UbootDate.v: U-Boot's drivers/rtc/date.c, which agrees with the kernel's.

    ** What the theorems show

    Functional and equivalence theorems compare an optimised routine with what
    it computes (parities, quotients, CRCs, sorted arrays and lists, occurrences of patterns, printed text, calendar dates, the other program's
    version).  Refinement theorems relate a data structure to an abstract
    one: the memory map to sets of addresses, the fifo to queues, the linked nodes to search trees, the fragments of a packet to its bytes.
    Invariants and the liveness theorem are about every reachable state of the
    semaphores, the stream cipher's table, the fifo's indices and the free lists of a zone.  Round trips cover the
    ciphers, the calendar, printing and parsing, the compression and the migration types.  Safety theorems say which memory accepted
    filters and packet accesses read.  Error theorems say what happens
    on each failing branch.  Where the code does not do what it means to, a lemma
    evaluates it on an input that shows so: among them memblock_free_adjacent_corrupts,
    memblock_enforce_memory_limit_diverges, kfifo_in_r_long_record,
    div64_u64_inexact, lcm_overflow, cmp_range_truncates, to_tm_negative, sk_filter_overreads, rubin_decompress_overreads,
    rtime_decompress_overruns and look_ahead_misses_upper_half.

    ** Bounds of loops

    Most bounds are the length of the array or string that a loop walks over, plus one.  The others are: the range of a 16-bit
    counter plus one for loops that such a counter controls; twice the length of the format plus two for the loop of vsnprintf(), in which every
    round consumes a character or ends a conversion (the measure is [potential]); the size of the memory plus one for walks in a
    red-black tree and in the lists that are sorted, whose paths do not repeat a node; the number of instructions plus one for filters, which only jump
    forward; 257 for a run of the rtime compressor, whose length is a byte; 18 for moving the 16-bit register of the rubin coder, whose interval doubles each time; MAX_ORDER for merging and splitting blocks; and the number of
    pages to free plus one for the bulk operations.

    ** Parameters

    What modelled code calls outside the sources, or
    in parts that are not modelled, is an argument of the functions that use it: allocators (whether they succeed), user memory (classes of Uaccess.v), physical addresses, the comparison and exchange functions
    of callers (classes of Sort.v and ListSort.v), the blocks of a text that is searched ([TextSource]), the symbols and resources that %p prints ([ptr_env]), the callback of augmented trees, signals, and
    the processor's number and its shifts by more than the width of a word ([machine] in Bpf.v).

    ** What is not modelled

    Code whose effect is that of hardware registers (drivers, arch/arm, most of
    U-Boot), code whose correctness depends on interrupts and memory
    ordering (the scheduler, timers, the slab allocator, per-cpu statistics), and the large
    subsystems (virtual memory, the page cache and on-disk formats of file systems, network protocols, sound).  Of the modelled files, output to
    the log, debugfs files, trace points, module registration and lock annotations
    are left out, and configuration that does not apply to the target: big-endian
    variants, 64-bit words, debugging checks of the page allocator and holes in zones. *)

From stdpp Require Export base numbers list option decidable tactics.
From Stdlib Require Export ZArith Lia Btauto.

#[global] Open Scope Z_scope.
Set Default Goal Selector "!".

(** ** Machine integers

    A C integer is a [Z]; an operation whose C result is reduced to its width
    applies the reduction explicitly.  The target is the 32-bit ARM (Tegra)
    kernel the tree is configured for, so [unsigned long] and [size_t] are 32
    bits wide. *)

Definition BITS_PER_LONG : Z := 32.
Definition PAGE_SIZE : Z := 4096.

Definition u8 (x : Z) : Z := x mod 2 ^ 8.
Definition u16 (x : Z) : Z := x mod 2 ^ 16.
Definition u32 (x : Z) : Z := x mod 2 ^ 32.
Definition u64 (x : Z) : Z := x mod 2 ^ 64.
Definition ulong (x : Z) : Z := x mod 2 ^ BITS_PER_LONG.

(** Two's complement reduction: what a conversion to a signed type keeps. *)
Definition s8 (x : Z) : Z := (x + 2 ^ 7) mod 2 ^ 8 - 2 ^ 7.
Definition s16 (x : Z) : Z := (x + 2 ^ 15) mod 2 ^ 16 - 2 ^ 15.
Definition s32 (x : Z) : Z := (x + 2 ^ 31) mod 2 ^ 32 - 2 ^ 31.
Definition s64 (x : Z) : Z := (x + 2 ^ 63) mod 2 ^ 64 - 2 ^ 63.

(** [a op b] on truth values, as C has them. *)
Definition b2z (b : bool) : Z := if b then 1 else 0.
Definition truth (x : Z) : bool := negb (x =? 0).

(** Error numbers (include/asm-generic/errno-base.h and errno.h). *)
Definition EPERM : Z := 1.
Definition ENOENT : Z := 2.
Definition EINTR : Z := 4.
Definition E2BIG : Z := 7.
Definition EAGAIN : Z := 11.
Definition ENOMEM : Z := 12.
Definition EFAULT : Z := 14.
Definition EBUSY : Z := 16.
Definition EINVAL : Z := 22.
Definition ENOSPC : Z := 28.
Definition ERANGE : Z := 34.
Definition ETIME : Z := 62.

(** ** Arrays

    An access outside an array has no result: [None] is the state in which
    the C program has no defined behaviour, and a theorem that a function
    returns [Some _] includes that it never gets there. *)

Definition arr_get {A} (l : list A) (i : Z) : option A :=
  if i <? 0 then None else l !! Z.to_nat i.

Definition arr_set {A} (l : list A) (i : Z) (x : A) : option (list A) :=
  if (0 <=? i) && (i <? Z.of_nat (length l)) then Some (<[Z.to_nat i := x]> l) else None.

(** The number of elements of an array, as C counts it. *)
Definition zlen {A} (l : list A) : Z := Z.of_nat (length l).

Declare Scope kernel_scope.
Delimit Scope kernel_scope with kernel.
Notation "l .[ i ]" := (arr_get l i) (at level 1, left associativity, format "l .[ i ]") : kernel_scope.
Notation "l .[ i <- x ]" := (arr_set l i x) (at level 1, left associativity, format "l .[ i  <-  x ]") : kernel_scope.
#[global] Open Scope kernel_scope.

(** ** Loops

    A loop body maps a state to the next state, or to the value the loop is
    left with ([break], [return], or a false condition), or to no result when
    the body itself has none.  The bound on the number of iterations is
    binary, so that evaluating a loop costs the iterations it makes and not
    its bound.  [loop] has no result when the bound is exhausted: a loop that
    returns is a loop that terminated within it. *)

Inductive step (S R : Type) : Type :=
| Next (s : S)
| Done (r : R).
Arguments Next {S R} s.
Arguments Done {S R} r.

Section Loop.
Context {S R : Type} (body : S -> option (step S R)).

Fixpoint run (p : positive) (s : S) : option (step S R) :=
  match p with
  | xH => body s
  | xO q =>
      st ← run q s;
      match st with Next s' => run q s' | Done r => Some (Done r) end
  | xI q =>
      st ← body s;
      match st with
      | Done r => Some (Done r)
      | Next s1 =>
          st' ← run q s1;
          match st' with Next s' => run q s' | Done r => Some (Done r) end
      end
  end.

Definition loop (bound : Z) (s : S) : option R :=
  st ← run (Z.to_pos bound) s;
  match st with Next _ => None | Done r => Some r end.

(** Total correctness of a loop: an invariant, a measure that is not
    negative under it, and a postcondition for the values the loop is left
    with. *)
Section Rule.
Context (I : S -> Prop) (m : S -> Z) (Q : R -> Prop).

Definition body_ok (s : S) : Prop :=
  0 <= m s /\
  match body s with
  | Some (Next s') => I s' /\ m s' < m s
  | Some (Done r) => Q r
  | None => False
  end.

Hypothesis body_spec : forall s, I s -> body_ok s.

Lemma run_spec p : forall s, I s ->
  match run p s with
  | Some (Next s') => I s' /\ m s' + Z.pos p <= m s
  | Some (Done r) => Q r
  | None => False
  end.
Proof.
  induction p as [q IH|q IH|]; intros s Hs; simpl.
  - destruct (body_spec s Hs) as [_ H].
    destruct (body s) as [[s1|r]|]; simpl in *; [|done..].
    destruct H as [H1 Hm]. specialize (IH s1 H1) as IH1.
    destruct (run q s1) as [[s2|r]|]; simpl in *; [|done..].
    destruct IH1 as [H2 Hm2]. specialize (IH s2 H2) as IH2.
    destruct (run q s2) as [[s3|r]|]; simpl in *; [|done..].
    split; [tauto|lia].
  - specialize (IH s Hs) as IH1.
    destruct (run q s) as [[s2|r]|]; simpl in *; [|done..].
    destruct IH1 as [H2 Hm2]. specialize (IH s2 H2) as IH2.
    destruct (run q s2) as [[s3|r]|]; simpl in *; [|done..].
    split; [tauto|lia].
  - destruct (body_spec s Hs) as [_ H].
    destruct (body s) as [[s1|r]|]; simpl in *; [|done..].
    split; [tauto|lia].
Qed.

Lemma loop_total bound s : I s -> m s < bound ->
  exists r, loop bound s = Some r /\ Q r.
Proof.
  intros Hs Hm. destruct (body_spec s Hs) as [Hpos _].
  specialize (run_spec (Z.to_pos bound) s Hs) as H. unfold loop.
  destruct (run (Z.to_pos bound) s) as [[s'|r]|]; simpl; [|eauto|done].
  destruct H as [H Hle]. destruct (body_spec s' H) as [Hpos' _]. lia.
Qed.
End Rule.

(** [n] iterations that do not leave the loop. *)
Fixpoint steps (n : nat) (s : S) : option S :=
  match n with
  | O => Some s
  | Datatypes.S n' =>
      st ← body s;
      match st with Next s' => steps n' s' | Done _ => None end
  end.

Lemma steps_add n k s : steps (n + k) s = (t ← steps n s; steps k t).
Proof.
  revert s. induction n as [|n IH]; intros s; [done|]. cbn [steps Nat.add].
  destruct (body s) as [[s'|r]|]; cbn [mbind option_bind]; [apply IH|done..].
Qed.

Lemma run_steps p : forall s n t r, steps n s = Some t -> body t = Some (Done r) ->
  ((Pos.to_nat p <= n)%nat -> exists u, run p s = Some (Next u) /\ steps (n - Pos.to_nat p) u = Some t) /\
  ((n < Pos.to_nat p)%nat -> run p s = Some (Done r)).
Proof.
  induction p as [q IH|q IH|]; intros s n t r Hs Hd.
  - cbn [run]. rewrite Pos2Nat.inj_xI. destruct n as [|n]; cbn [steps] in Hs.
    { injection Hs as ->. rewrite Hd. cbn [mbind option_bind]. split; [lia|done]. }
    destruct (body s) as [[s1|?]|]; cbn [mbind option_bind] in *; [|done..].
    destruct (IH s1 n t r Hs Hd) as [Hlo Hhi]. destruct (decide (Pos.to_nat q <= n)%nat) as [Hq|Hq].
    + destruct (Hlo Hq) as (u & -> & Hu). cbn [mbind option_bind]. destruct (IH u _ t r Hu Hd) as [Hlo2 Hhi2].
      split; intros H; [|apply Hhi2; lia]. destruct Hlo2 as (v & Hv & Hv2); [lia|]. exists v. split; [done|].
      rewrite <-Hv2. f_equal. lia.
    + rewrite Hhi by lia. split; [lia|done].
  - cbn [run]. rewrite Pos2Nat.inj_xO. destruct (IH s n t r Hs Hd) as [Hlo Hhi].
    destruct (decide (Pos.to_nat q <= n)%nat) as [Hq|Hq].
    + destruct (Hlo Hq) as (u & -> & Hu). cbn [mbind option_bind]. destruct (IH u _ t r Hu Hd) as [Hlo2 Hhi2].
      split; intros H; [|apply Hhi2; lia]. destruct Hlo2 as (v & Hv & Hv2); [lia|]. exists v. split; [done|].
      rewrite <-Hv2. f_equal. lia.
    + rewrite Hhi by lia. split; [lia|done].
  - cbn [run]. change (Pos.to_nat 1) with 1%nat. destruct n as [|n]; cbn [steps] in Hs.
    + injection Hs as ->. split; [lia|done].
    + destruct (body s) as [[s1|?]|]; cbn [mbind option_bind] in *; [|done..]. split; [|lia]. intros _. exists s1.
      split; [done|]. by replace (Datatypes.S n - 1)%nat with n by lia.
Qed.

(** A loop that is left after [n] iterations returns what it is left with. *)
Lemma loop_steps n bound s t r : steps n s = Some t -> body t = Some (Done r) -> Z.of_nat n < bound ->
  loop bound s = Some r.
Proof.
  intros Hs Hd Hn. unfold loop. destruct (run_steps (Z.to_pos bound) s n t r Hs Hd) as [_ H]. rewrite H; [done|lia].
Qed.

(** Partial correctness: what a loop that returns gives. *)
Lemma loop_partial (I : S -> Prop) (Q : R -> Prop) :
  (forall s, I s -> match body s with Some (Next s') => I s' | Some (Done r) => Q r | None => True end) ->
  forall bound s r, I s -> loop bound s = Some r -> Q r.
Proof.
  intros Hb. assert (Hrun : forall p s, I s -> match run p s with Some (Next s') => I s' | Some (Done r) => Q r | None => True end).
  { induction p as [q IH|q IH|]; intros s Hs; cbn [run]; [| |by apply Hb].
    - specialize (Hb s Hs). destruct (body s) as [[s1|r1]|]; cbn; [|done..]. specialize (IH s1 Hb) as H1. destruct (run q s1) as [[s2|r2]|]; cbn; [by apply IH|done..].
    - specialize (IH s Hs) as H1. destruct (run q s) as [[s2|r2]|]; cbn; [by apply IH|done..]. }
  intros bound s r Hs. unfold loop. specialize (Hrun (Z.to_pos bound) s Hs). destruct (run _ s) as [[s'|r']|]; cbn; [done| |done]. by intros [= <-].
Qed.

(** A loop whose body never leaves an invariant has no result, whatever the
    bound. *)
Lemma loop_diverges (I : S -> Prop) :
  (forall s, I s -> exists s', body s = Some (Next s') /\ I s') ->
  forall bound s, I s -> loop bound s = None.
Proof.
  intros H. assert (Hrun : forall p s, I s -> exists s', run p s = Some (Next s') /\ I s').
  { induction p as [q IH|q IH|]; intros s Hs; simpl; [| |by apply H].
    - destruct (H s Hs) as (s1 & -> & H1). simpl. destruct (IH s1 H1) as (s2 & -> & H2). simpl. by apply IH.
    - destruct (IH s Hs) as (s2 & -> & H2). simpl. by apply IH. }
  intros bound s Hs. unfold loop. by destruct (Hrun (Z.to_pos bound) s Hs) as (s' & -> & _).
Qed.
End Loop.
Arguments body_ok : simpl never.

(** Loops with the same body. *)
Lemma loop_ext {S R} (body body' : S -> option (step S R)) bound s : (forall s, body s = body' s) -> loop body bound s = loop body' bound s.
Proof.
  intros H. unfold loop. assert (Hrun : forall p s, run body p s = run body' p s); [|by rewrite Hrun].
  induction p as [q IH|q IH|]; intros u; cbn [run]; [rewrite H|rewrite IH|apply H].
  - destruct (body' u) as [[u'|]|]; [|done..]. cbn. rewrite IH. by destruct (run body' q u') as [[]|]; cbn.
  - destruct (run body' q u) as [[u'|]|]; cbn; [apply IH|done..].
Qed.

(** One step of a sequence of fallible operations, as an equation: unlike a
    reduction it leaves the kernel nothing to search for. *)
Lemma bind_Some {A B} (f : A -> option B) (x : A) : (Some x ≫= f) = f x.
Proof. done. Qed.

(** ** Shared lemmas: reductions *)

Lemma u8_small x : 0 <= x < 2 ^ 8 -> u8 x = x.
Proof. apply Z.mod_small. Qed.
Lemma u16_small x : 0 <= x < 2 ^ 16 -> u16 x = x.
Proof. apply Z.mod_small. Qed.
Lemma u32_small x : 0 <= x < 2 ^ 32 -> u32 x = x.
Proof. apply Z.mod_small. Qed.
Lemma u64_small x : 0 <= x < 2 ^ 64 -> u64 x = x.
Proof. apply Z.mod_small. Qed.
Lemma ulong_small x : 0 <= x < 2 ^ 32 -> ulong x = x.
Proof. apply Z.mod_small. Qed.
Lemma u8_range x : 0 <= u8 x < 2 ^ 8.
Proof. by apply Z.mod_pos_bound. Qed.
Lemma u16_range x : 0 <= u16 x < 2 ^ 16.
Proof. by apply Z.mod_pos_bound. Qed.
Lemma u32_range x : 0 <= u32 x < 2 ^ 32.
Proof. by apply Z.mod_pos_bound. Qed.
Lemma u64_range x : 0 <= u64 x < 2 ^ 64.
Proof. by apply Z.mod_pos_bound. Qed.
Lemma ulong_range x : 0 <= ulong x < 2 ^ 32.
Proof. by apply Z.mod_pos_bound. Qed.
Lemma s32_small x : - 2 ^ 31 <= x < 2 ^ 31 -> s32 x = x.
Proof. intros. unfold s32. rewrite Z.mod_small; lia. Qed.
Lemma s64_small x : - 2 ^ 63 <= x < 2 ^ 63 -> s64 x = x.
Proof. intros. unfold s64. rewrite Z.mod_small; lia. Qed.

(** [lia] after replacing quotients and remainders by their equations. *)
Ltac zlia := Z.div_mod_to_equations; lia.
Ltac znia := Z.div_mod_to_equations; nia.

(** Removes the reductions that [lia] sees to be the identity. *)
Ltac unwrap :=
  repeat match goal with
  | |- context [u8 ?x] => rewrite (u8_small x) by lia
  | |- context [u16 ?x] => rewrite (u16_small x) by lia
  | |- context [u32 ?x] => rewrite (u32_small x) by lia
  | |- context [u64 ?x] => rewrite (u64_small x) by lia
  | |- context [ulong ?x] => rewrite (ulong_small x) by lia
  | |- context [s32 ?x] => rewrite (s32_small x) by lia
  | |- context [s64 ?x] => rewrite (s64_small x) by lia
  end.

(** Case analysis on the boolean comparisons of the source's conditions. *)
Ltac bcase :=
  match goal with
  | |- context [?x <? ?y] => destruct (Z.ltb_spec x y)
  | |- context [?x <=? ?y] => destruct (Z.leb_spec x y)
  | |- context [?x =? ?y] => destruct (Z.eqb_spec x y)
  | |- context [?x >? ?y] => rewrite (Z.gtb_ltb x y)
  | |- context [?x >=? ?y] => rewrite (Z.geb_leb x y)
  end.
Ltac bcases := repeat (bcase; simpl; try lia).

(** ** Shared lemmas: arrays *)

Section Arrays.
Context {A : Type}.
Implicit Types (l : list A) (x : A).

Lemma arr_get_nat l i : 0 <= i -> l.[i] = l !! Z.to_nat i.
Proof. intros. unfold arr_get. bcases. done. Qed.

Lemma arr_get_Some l i x : l.[i] = Some x <-> 0 <= i /\ l !! Z.to_nat i = Some x.
Proof. unfold arr_get. bcases; split; [done|lia|auto|by intros [_ ?]]. Qed.

Lemma arr_get_range l i x : l.[i] = Some x -> 0 <= i < zlen l.
Proof.
  intros [? H]%arr_get_Some. apply lookup_lt_Some in H. unfold zlen. lia.
Qed.

Lemma arr_get_is_Some l i : 0 <= i < zlen l -> exists x, l.[i] = Some x.
Proof.
  unfold zlen. intros. destruct (lookup_lt_is_Some_2 l (Z.to_nat i)) as [x Hx]; [lia|].
  exists x. apply arr_get_Some. split; [lia|done].
Qed.

Lemma arr_get_None l i : l.[i] = None <-> i < 0 \/ zlen l <= i.
Proof.
  unfold arr_get, zlen. bcases; [by split; [lia|]|].
  rewrite lookup_ge_None. lia.
Qed.

Lemma arr_set_Some l i x : 0 <= i < zlen l -> l.[i <- x] = Some (<[Z.to_nat i := x]> l).
Proof. unfold arr_set, zlen. intros. bcases. done. Qed.

Lemma arr_set_inv l i x l' :
  l.[i <- x] = Some l' -> 0 <= i < zlen l /\ l' = <[Z.to_nat i := x]> l.
Proof. unfold arr_set, zlen. bcases; naive_solver lia. Qed.

Lemma arr_get_insert l i j x : 0 <= i < zlen l ->
  (<[Z.to_nat i := x]> l).[j] = if decide (i = j) then Some x else l.[j].
Proof.
  unfold zlen, arr_get. intros Hi. case_decide as Hij.
  - subst. bcases. apply list_lookup_insert_eq. lia.
  - bcases; [done|]. apply list_lookup_insert_ne. lia.
Qed.

Lemma zlen_insert l i x : zlen (<[i := x]> l) = zlen l.
Proof. unfold zlen. by rewrite length_insert. Qed.

Lemma zlen_nonneg l : 0 <= zlen l.
Proof. unfold zlen. lia. Qed.

Lemma zlen_app l k : zlen (l ++ k) = zlen l + zlen k.
Proof. unfold zlen. rewrite length_app. lia. Qed.

Lemma zlen_nil_inv l : zlen l <= 0 -> l = [].
Proof. unfold zlen. destruct l; [done|]. simpl. lia. Qed.

Lemma zlen_cons x l : zlen (x :: l) = zlen l + 1.
Proof. unfold zlen. simpl. lia. Qed.

Lemma arr_get_0 x l : (x :: l).[0] = Some x.
Proof. done. Qed.

Lemma arr_get_cons x l i : 0 < i -> (x :: l).[i] = l.[i - 1].
Proof.
  intros. rewrite !arr_get_nat by lia.
  replace (Z.to_nat i) with (S (Z.to_nat (i - 1))) by lia. done.
Qed.

Lemma arr_get_app_l l k i : i < zlen l -> (l ++ k).[i] = l.[i].
Proof. unfold zlen, arr_get. intros. bcases; [done|]. apply lookup_app_l. lia. Qed.

Lemma arr_get_app_r l k i : zlen l <= i -> (l ++ k).[i] = k.[i - zlen l].
Proof.
  unfold zlen, arr_get. intros. bcases. rewrite lookup_app_r by lia. f_equal. lia.
Qed.

Lemma arr_get_drop l n i : 0 <= n -> 0 <= i -> (drop (Z.to_nat n) l).[i] = l.[n + i].
Proof. intros. rewrite !arr_get_nat by lia. rewrite lookup_drop. f_equal. lia. Qed.

Lemma arr_get_take l n i : i < n -> (take (Z.to_nat n) l).[i] = l.[i].
Proof. intros. unfold arr_get. bcases; [done|]. apply lookup_take_lt. lia. Qed.

Lemma zlen_take l n : 0 <= n <= zlen l -> zlen (take (Z.to_nat n) l) = n.
Proof. unfold zlen. rewrite length_take. lia. Qed.

Lemma zlen_drop l n : 0 <= n <= zlen l -> zlen (drop (Z.to_nat n) l) = zlen l - n.
Proof. unfold zlen. rewrite length_drop. lia. Qed.

Lemma arr_ext l k : zlen l = zlen k -> (forall i, 0 <= i < zlen l -> l.[i] = k.[i]) -> l = k.
Proof.
  unfold zlen. intros Hlen H. apply list_eq. intros i.
  destruct (decide (i < length l)%nat) as [Hi|Hi].
  - specialize (H (Z.of_nat i) ltac:(lia)).
    rewrite !arr_get_nat, Nat2Z.id in H by lia. done.
  - rewrite !lookup_ge_None_2 by lia. done.
Qed.
End Arrays.

(** The first [n] bytes of two lists are the same. *)
Definition same_upto (l k : list Z) (n : Z) : Prop := forall i, 0 <= i < n -> l.[i] = k.[i].

Lemma arr_set_range {A} (l : list A) i x : 0 <= i < zlen l ->
  exists l', l.[i <- x] = Some l' /\ zlen l' = zlen l /\ l'.[i] = Some x /\ (forall j, j <> i -> l'.[j] = l.[j]).
Proof.
  intros Hi. exists (<[Z.to_nat i := x]> l). unfold arr_set. rewrite (proj2 (Z.leb_le 0 i)), (proj2 (Z.ltb_lt i _)) by (unfold zlen in *; lia).
  split_and!; [done|apply zlen_insert|by rewrite arr_get_insert, decide_True|]. intros j Hj. by rewrite arr_get_insert, decide_False.
Qed.

(** Replacing an element, up to the order of the elements. *)
Lemma insert_cons_Permutation {A} (l : list A) k x y : l !! k = Some y -> y :: <[k := x]> l ≡ₚ x :: l.
Proof.
  intros Hk. rewrite insert_take_drop by by eapply lookup_lt_Some.
  rewrite <-(take_drop_middle l k y Hk) at 3. rewrite <-!Permutation_middle. apply Permutation_swap.
Qed.

(** A property of bytes or of table indices checked by evaluation. *)
Lemma forallb_seq_lt f n : forallb f (seq 0 n) = true -> forall i, 0 <= i < Z.of_nat n -> f (Z.to_nat i) = true.
Proof. rewrite forallb_forall. intros H i Hi. apply H. apply in_seq. lia. Qed.

(** The arguments of a table of 256 entries. *)
Definition range256 : list Z := Z.of_nat <$> seq 0 256.

Lemma range256_get (f : Z -> Z) i : 0 <= i < 256 -> (f <$> range256).[i] = Some (f i).
Proof.
  intros Hi. rewrite arr_get_nat by lia. unfold range256.
  rewrite !list_lookup_fmap, lookup_seq_lt by lia. simpl. by rewrite Z2Nat.id by lia.
Qed.

(** ** Shared lemmas: truth values and bits *)

Lemma truth_true x : truth x = true <-> x <> 0.
Proof. unfold truth. bcases; naive_solver. Qed.

Lemma truth_0 : truth 0 = false.
Proof. done. Qed.

Lemma truth_nz x : x <> 0 -> truth x = true.
Proof. by rewrite truth_true. Qed.

Lemma pow2_double k : 0 <= k -> 2 ^ (k + 1) = 2 * 2 ^ k.
Proof. intros. rewrite Z.pow_add_r by lia. lia. Qed.

Lemma land_ones_mod x n : 0 <= n -> Z.land x (2 ^ n - 1) = x mod 2 ^ n.
Proof. intros. rewrite <-Z.land_ones, Z.ones_equiv by lia. f_equal. Qed.

Lemma truth_false x : truth x = false <-> x = 0.
Proof. unfold truth. bcases; naive_solver. Qed.

Lemma truth_testbit x n : 0 <= n -> truth (Z.land x (2 ^ n)) = Z.testbit x n.
Proof.
  intros Hn. destruct (Z.testbit x n) eqn:E.
  - apply truth_nz. intros H. apply (f_equal (fun z => Z.testbit z n)) in H.
    rewrite Z.land_spec, Z.pow2_bits_true, E, Z.bits_0 in H by lia. done.
  - apply truth_false. apply Z.bits_inj'. intros i Hi. rewrite Z.land_spec, Z.bits_0.
    destruct (decide (i = n)) as [->|]; [by rewrite E|].
    rewrite Z.pow2_bits_false by lia. by rewrite andb_false_r.
Qed.

Lemma testbit_above p x i : 0 <= x < 2 ^ p -> p <= i -> Z.testbit x i = false.
Proof.
  intros Hx Hi. destruct (Z.leb_spec 0 p).
  - rewrite <-(Z.mod_small x (2 ^ p)) by done. by apply Z.mod_pow2_bits_high.
  - rewrite Z.pow_neg_r in Hx by lia. lia.
Qed.

Lemma testbit_mod_pow2 x n i : 0 <= n ->
  Z.testbit (x mod 2 ^ n) i = (i <? n) && Z.testbit x i.
Proof.
  intros Hn. destruct (Z.ltb_spec i n); simpl.
  - by apply Z.mod_pow2_bits_low.
  - by apply Z.mod_pow2_bits_high.
Qed.

Lemma testbit_u8 x i : Z.testbit (u8 x) i = (i <? 8) && Z.testbit x i.
Proof. by apply testbit_mod_pow2. Qed.
Lemma testbit_u16 x i : Z.testbit (u16 x) i = (i <? 16) && Z.testbit x i.
Proof. by apply testbit_mod_pow2. Qed.
Lemma testbit_u32 x i : Z.testbit (u32 x) i = (i <? 32) && Z.testbit x i.
Proof. by apply testbit_mod_pow2. Qed.
Lemma testbit_u64 x i : Z.testbit (u64 x) i = (i <? 64) && Z.testbit x i.
Proof. by apply testbit_mod_pow2. Qed.

Lemma testbit_ones k i : 0 <= k -> Z.testbit (2 ^ k - 1) i = (0 <=? i) && (i <? k).
Proof.
  intros Hk. replace (2 ^ k - 1) with (Z.ones k) by (rewrite Z.ones_equiv; lia).
  destruct (Z.leb_spec 0 i), (Z.ltb_spec i k); simpl.
  - by apply Z.ones_spec_low.
  - by apply Z.ones_spec_high.
  - by apply Z.testbit_neg_r.
  - by apply Z.testbit_neg_r.
Qed.

(** A word whose bits at and above [p] are clear is below [2 ^ p]. *)
Lemma bits_bound p x : 0 <= p -> 0 <= x ->
  (forall i, p <= i -> Z.testbit x i = false) -> x < 2 ^ p.
Proof.
  intros Hp Hx H. replace x with (x mod 2 ^ p); [apply Z.mod_pos_bound; lia|].
  apply Z.bits_inj'. intros i Hi. rewrite testbit_mod_pow2 by done.
  destruct (Z.ltb_spec i p); simpl; [done|]. symmetry. by apply H.
Qed.

Lemma testbit_exists x : x <> 0 -> 0 <= x -> exists i, 0 <= i /\ Z.testbit x i = true.
Proof.
  intros Hx Hpos. exists (Z.log2 x). split; [apply Z.log2_nonneg|].
  apply Z.bit_log2. lia.
Qed.

Create Rewrite HintDb testbit.

(** Rewrites a [Z.testbit] of a compound word into the bits of its parts. *)
#[export] Hint Rewrite Z.land_spec Z.lor_spec Z.lxor_spec Z.ldiff_spec Z.bits_0
  testbit_u8 testbit_u16 testbit_u32 testbit_u64 : testbit.
#[export] Hint Rewrite Z.shiftr_spec Z.shiftl_spec Z.lnot_spec testbit_ones using lia : testbit.
Ltac testbits := autorewrite with testbit.
