(* ===== verification/Arith.v ===== *)
(** Arithmetic helpers of lib/: greatest common divisor, square root, weights,
    reversals, reciprocals, continued fractions and 64-bit division.  Each
    function is translated with its C integer widths and loops; each theorem
    compares it with the mathematical operation it is meant to compute. *)
From S2P Require Import Prelude.

(** lib/gcd.c.  [a % 0] has no result. *)
Definition gcd_body : Z * Z -> option (step (Z * Z) Z) := fun '(a, b) =>
  if b =? 0 then None else
  let r := a mod b in
  if truth r then Some (Next (b, r)) else Some (Done b).

Definition gcd (a b : Z) : option Z :=
  if a <? b then loop gcd_body (a + 1) (b, a) else loop gcd_body (b + 1) (a, b).

(** lib/lcm.c *)
Definition lcm (a b : Z) : option Z :=
  if truth a && truth b then
    g ← gcd a b;
    if g =? 0 then None else Some (ulong (a * b) / g)
  else if truth b then Some b
  else Some a.

(** lib/int_sqrt.c *)
Definition int_sqrt_scale (op : Z) : Z -> option (step Z Z) := fun one =>
  if op <? one then Some (Next (Z.shiftr one 2)) else Some (Done one).

Definition int_sqrt_body : Z * Z * Z -> option (step (Z * Z * Z) Z) := fun '(op, res, one) =>
  if truth one then
    let '(op, res) :=
      if ulong (res + one) <=? op
      then (ulong (op - ulong (res + one)), ulong (res + ulong (2 * one)))
      else (op, res) in
    Some (Next (op, res / 2, one / 4))
  else Some (Done res).

Definition int_sqrt (x : Z) : option Z :=
  let one := ulong (Z.shiftl 1 (BITS_PER_LONG - 2)) in
  one ← loop (int_sqrt_scale x) (2 ^ 31) one;
  loop int_sqrt_body (2 ^ 31) (x, 0, one).

(** lib/bcd.c *)
Definition bcd2bin (val : Z) : Z := Z.land val 0x0f + Z.shiftr val 4 * 10.
Definition bin2bcd (val : Z) : Z := u8 (u32 (Z.shiftl (val / 10) 4) + val mod 10).

(** lib/reciprocal_div.c and include/linux/reciprocal_div.h *)
Definition reciprocal_value (k : Z) : option Z :=
  let val := u64 (Z.shiftl 1 32 + u32 (k - 1)) in
  if k =? 0 then None else Some (u32 (val / k)).
Definition reciprocal_divide (A R : Z) : Z := u32 (Z.shiftr (u64 (A * R)) 32).

(** lib/rational.c: the state is (n, d, n0, d0, n1, d1). *)
Definition rational_body (max_numerator max_denominator : Z) :
    Z * Z * Z * Z * Z * Z -> option (step (Z * Z * Z * Z * Z * Z) (Z * Z)) :=
  fun '(n, d, n0, d0, n1, d1) =>
    if (max_numerator <? n1) || (max_denominator <? d1) then Some (Done (n0, d0))
    else if d =? 0 then Some (Done (n1, d1))
    else
      let a := n / d in
      Some (Next (d, n mod d, n1, d1,
                  ulong (n0 + ulong (a * n1)), ulong (d0 + ulong (a * d1)))).

Definition rational_best_approximation
    (given_numerator given_denominator max_numerator max_denominator : Z) : option (Z * Z) :=
  loop (rational_body max_numerator max_denominator)
       (given_denominator + 2) (given_numerator, given_denominator, 0, 1, 1, 0).

(** ** Proofs: divisors *)

Lemma gcd_loop_ok a b g : 0 < b -> Z.gcd a b = g ->
  loop gcd_body (b + 1) (a, b) = Some g.
Proof.
  intros Hb Hg.
  destruct (loop_total gcd_body (fun '(x, y) => 0 < y /\ Z.gcd x y = g)
              (fun '(x, y) => y) (fun r => r = g)) with (bound := b + 1) (s := (a, b))
    as (r & -> & ->); [|done|lia|done].
  intros [x y] [Hy Hxy]. split; [lia|]. simpl.
  destruct (Z.eqb_spec y 0) as [|_]; [lia|].
  pose proof (Z.mod_pos_bound x y Hy). unfold truth.
  rewrite Z.gcd_comm, <-Z.gcd_mod, Z.gcd_comm in Hxy by lia.
  destruct (Z.eqb_spec (x mod y) 0) as [He|]; simpl.
  - rewrite He, Z.gcd_0_r, Z.abs_eq in Hxy by lia. done.
  - split; [split; [lia|done]|lia].
Qed.

Lemma gcd_pos a b : 0 < a -> 0 < b -> gcd a b = Some (Z.gcd a b).
Proof.
  intros Ha Hb. unfold gcd. bcases; apply gcd_loop_ok; auto using Z.gcd_comm.
Qed.

Lemma gcd_zero_faults a : 0 <= a -> gcd a 0 = None.
Proof. intros. unfold gcd. bcases. done. Qed.

Lemma lcm_pos a b : 0 < a < 2 ^ 32 -> 0 < b < 2 ^ 32 ->
  lcm a b = Some (ulong (a * b) / Z.gcd a b).
Proof.
  intros Ha Hb. unfold lcm. rewrite !truth_nz by lia. simpl.
  rewrite gcd_pos by lia. simpl.
  destruct (Z.eqb_spec (Z.gcd a b) 0) as [H|]; [|done].
  apply Z.gcd_eq_0 in H. lia.
Qed.

Lemma lcm_exact a b : 0 < a < 2 ^ 32 -> 0 < b < 2 ^ 32 -> a * b < 2 ^ 32 ->
  lcm a b = Some (Z.lcm a b).
Proof.
  intros Ha Hb Hab. rewrite lcm_pos, ulong_small by nia. f_equal.
  unfold Z.lcm. assert (Hg : 0 < Z.gcd a b).
  { pose proof (Z.gcd_nonneg a b). destruct (decide (Z.gcd a b = 0)) as [H0|]; [|lia].
    apply Z.gcd_eq_0 in H0. lia. }
  destruct (Z.gcd_divide_r a b) as [k Hk].
  rewrite Hk at 1. rewrite (Z.mul_assoc a k), Z.div_mul by lia.
  replace (b / Z.gcd a b) with k; [|rewrite Hk at 1; rewrite Z.div_mul; lia].
  rewrite Z.abs_eq; nia.
Qed.

Lemma lcm_overflow : lcm 65536 65536 = Some 0 /\ Z.lcm 65536 65536 = 65536.
Proof. done. Qed.

(** ** Proofs: square root *)

Lemma int_sqrt_scale_ok x : 0 <= x < 2 ^ 32 ->
  exists one, loop (int_sqrt_scale x) (2 ^ 31) (ulong (Z.shiftl 1 (BITS_PER_LONG - 2))) = Some one /\
    ((exists k, 0 <= k <= 15 /\ one = 2 ^ k * 2 ^ k /\ x < 4 * one) \/ (one = 0 /\ x = 0)).
Proof.
  intros Hx. change (ulong (Z.shiftl 1 (BITS_PER_LONG - 2))) with (2 ^ 30).
  apply loop_total with (m := fun one => one)
    (I := fun one => (exists k, 0 <= k <= 15 /\ one = 2 ^ k * 2 ^ k /\ x < 4 * one) \/ (one = 0 /\ x = 0)).
  - intros one [(k & Hk & -> & Hlt)|[-> ->]].
    + assert (0 < 2 ^ k) by lia. split; [nia|]. unfold int_sqrt_scale.
      bcases; [|eauto 10]. rewrite Z.shiftr_div_pow2 by lia.
      destruct (decide (k = 0)) as [->|].
      { change (2 ^ 0 * 2 ^ 0) with 1 in *. split; [right; split; [done|lia]|done]. }
      assert (Hd : 2 ^ k = 2 * 2 ^ (k - 1)) by (rewrite <-pow2_double by lia; f_equal; lia).
      assert (Hq : 2 ^ k * 2 ^ k / 2 ^ 2 = 2 ^ (k - 1) * 2 ^ (k - 1))
        by (rewrite Hd; zlia). rewrite Hq.
      split; [left; exists (k - 1); split; [lia|split; [done|]]|]; nia.
    + split; [lia|]. simpl. eauto.
  - left. exists 15. simpl. lia.
  - lia.
Qed.

Definition sqrt_inv (x : Z) : Z * Z * Z -> Prop := fun '(op, res, one) =>
  (exists k p, 0 <= k <= 15 /\ 0 <= p /\ one = 2 ^ k * 2 ^ k /\ op = x - p * p /\ 0 <= op /\
     res = 2 * p * 2 ^ k /\ p + 2 * 2 ^ k <= 2 ^ 16 /\ x < (p + 2 * 2 ^ k) * (p + 2 * 2 ^ k))
  \/ (one = 0 /\ res = Z.sqrt x).

Lemma sqrt_next x k p : 0 <= k <= 15 -> 0 <= p -> 0 <= x - p * p ->
  p + 2 ^ k <= 2 ^ 16 -> x < (p + 2 ^ k) * (p + 2 ^ k) ->
  sqrt_inv x (x - p * p, p * 2 ^ k, (2 ^ k * 2 ^ k) / 4).
Proof.
  intros Hk Hp Hop Hb Hx. unfold sqrt_inv. destruct (decide (k = 0)) as [->|].
  - right. split; [done|]. rewrite Z.mul_1_r. symmetry. apply Z.sqrt_unique.
    change (2 ^ 0) with 1 in *. nia.
  - left. exists (k - 1), p.
    assert (Hd : 2 ^ k = 2 * 2 ^ (k - 1)) by (rewrite <-pow2_double by lia; f_equal; lia).
    assert (0 < 2 ^ (k - 1)) by lia. rewrite Hd in *.
    repeat split; try lia. zlia.
Qed.

Lemma int_sqrt_step x op res one : 0 <= x < 2 ^ 32 -> sqrt_inv x (op, res, one) ->
  body_ok int_sqrt_body (sqrt_inv x) (fun '(_, _, one) => one) (fun r => r = Z.sqrt x) (op, res, one).
Proof.
  intros Hx [(k & p & Hk & Hp & -> & -> & Hop & -> & Hb & Hlt)|[-> ->]].
  2:{ split; [lia|]. simpl. done. }
  assert (0 < 2 ^ k) by lia. set (h := 2 ^ k) in *.
  assert (Hfit : (p + h) * (p + h) - p * p < 2 ^ 32) by nia.
  split; [nia|]. unfold int_sqrt_body. rewrite truth_nz by nia.
  assert (h <= 2 ^ 15) by (apply Z.pow_le_mono_r; lia).
  assert (Hsum : 0 <= 2 * p * h + h * h < 2 ^ 32) by nia.
  rewrite (ulong_small (2 * p * h + h * h)) by done.
  destruct (Z.leb_spec (2 * p * h + h * h) (x - p * p)).
  - rewrite (ulong_small (2 * (h * h))), (ulong_small (x - p * p - _)) by nia.
    rewrite ulong_small by nia.
    replace (x - p * p - (2 * p * h + h * h)) with (x - (p + h) * (p + h)) by ring.
    replace ((2 * p * h + 2 * (h * h)) / 2) with ((p + h) * h)
      by (replace (2 * p * h + 2 * (h * h)) with ((p + h) * h * 2) by ring; by rewrite Z.div_mul).
    split; [apply sqrt_next; lia|]. apply Z.div_lt; nia.
  - replace (2 * p * h / 2) with (p * h)
      by (replace (2 * p * h) with (p * h * 2) by ring; by rewrite Z.div_mul).
    split; [apply sqrt_next; nia|]. apply Z.div_lt; nia.
Qed.

Lemma int_sqrt_exact x : 0 <= x < 2 ^ 32 -> int_sqrt x = Some (Z.sqrt x).
Proof.
  intros Hx. unfold int_sqrt.
  destruct (int_sqrt_scale_ok x Hx) as (one & -> & Hone). simpl.
  destruct (loop_total int_sqrt_body (sqrt_inv x) (fun '(_, _, one) => one)
              (fun r => r = Z.sqrt x)) with (bound := 2 ^ 31) (s := (x, 0, one))
    as (r & -> & ->); [| | |done].
  - intros [[op res] o]. by apply int_sqrt_step.
  - destruct Hone as [(k & Hk & -> & Hlt)|[-> ->]]; [left|by right].
    exists k, 0. assert (2 ^ k <= 2 ^ 15) by (apply Z.pow_le_mono_r; lia).
    assert (0 < 2 ^ k) by lia. repeat split; try lia; nia.
  - destruct Hone as [(k & Hk & -> & Hlt)|[-> ->]]; [|lia].
    assert (2 ^ k <= 2 ^ 15) by (apply Z.pow_le_mono_r; lia). nia.
Qed.

(** ** Proofs: packed decimals and reciprocals *)

Lemma bcd_roundtrip v : 0 <= v < 100 -> bcd2bin (bin2bcd v) = v.
Proof.
  intros Hv. unfold bcd2bin, bin2bcd.
  rewrite Z.shiftl_mul_pow2, Z.shiftr_div_pow2 by lia.
  rewrite u32_small, u8_small by zlia.
  change 0x0f with (2 ^ 4 - 1). rewrite land_ones_mod by lia. zlia.
Qed.

Lemma reciprocal_value_ceil k : 2 <= k < 2 ^ 32 ->
  exists R e, reciprocal_value k = Some R /\ R * k = 2 ^ 32 + e /\ 0 <= e < k /\ 0 <= R < 2 ^ 32.
Proof.
  intros Hk. unfold reciprocal_value. destruct (Z.eqb_spec k 0); [lia|].
  change (Z.shiftl 1 32) with (2 ^ 32). unwrap.
  pose proof (Z.div_mod (2 ^ 32 + (k - 1)) k ltac:(lia)) as Hdm.
  pose proof (Z.mod_pos_bound (2 ^ 32 + (k - 1)) k ltac:(lia)) as Hm.
  set (R := (2 ^ 32 + (k - 1)) / k) in *.
  assert (HR : 0 <= R < 2 ^ 32).
  { split; [apply Z.div_pos; lia|]. apply Z.div_lt_upper_bound; lia. }
  exists R, (R * k - 2 ^ 32). rewrite u32_small by done. split; [done|]. lia.
Qed.

Lemma scaled_quotient A k R e : 0 <= A -> 0 < k -> 0 <= e < k -> A < 2 ^ 32 ->
  R * k = 2 ^ 32 + e ->
  A / k * 2 ^ 32 <= A * R < (A / k + 2) * 2 ^ 32 /\
  (A * (k - 1) < 2 ^ 32 -> A * R < (A / k + 1) * 2 ^ 32).
Proof.
  intros HA Hk He HAb HR.
  pose proof (Z.div_mod A k ltac:(lia)) as Hdm. pose proof (Z.mod_pos_bound A k Hk) as Hm.
  set (q := A / k) in *. set (r := A mod k) in *.
  assert (E : A * R * k = (q * k + r) * 2 ^ 32 + A * e) by nia.
  assert (A * e <= A * (k - 1)) by nia. assert (A * e < k * 2 ^ 32) by nia.
  split; [split|intros Hs]; apply (Z.mul_lt_mono_pos_r k) || apply (Z.mul_le_mono_pos_r _ _ k);
    try lia; rewrite E; nia.
Qed.

Lemma reciprocal_divide_bounds A k : 0 <= A < 2 ^ 32 -> 2 <= k < 2 ^ 32 ->
  exists R, reciprocal_value k = Some R /\
    A / k <= reciprocal_divide A R <= A / k + 1 /\
    (A * (k - 1) < 2 ^ 32 -> reciprocal_divide A R = A / k).
Proof.
  intros HA Hk. destruct (reciprocal_value_ceil k Hk) as (R & e & HR & HRk & He & Hb).
  exists R. split; [done|]. unfold reciprocal_divide.
  rewrite u64_small, Z.shiftr_div_pow2 by nia.
  destruct (scaled_quotient A k R e) as [[Hlo Hhi] Hex]; [lia..|].
  assert (Hle : A / k <= A * R / 2 ^ 32) by (apply Z.div_le_lower_bound; lia).
  assert (Hq : 0 <= A * R / 2 ^ 32 < 2 ^ 32).
  { split; [apply Z.div_pos; nia|]. apply Z.div_lt_upper_bound; nia. }
  rewrite u32_small by done. split.
  - split; [done|]. apply Z.lt_succ_r, Z.div_lt_upper_bound; lia.
  - intros Hs. apply Z.le_antisymm; [|done].
    apply Z.lt_succ_r, Z.div_lt_upper_bound; [lia|]. specialize (Hex Hs). lia.
Qed.

Lemma reciprocal_of_one A : exists R, reciprocal_value 1 = Some R /\ reciprocal_divide A R = 0.
Proof. exists 0. split; [done|]. unfold reciprocal_divide. by rewrite Z.mul_0_r. Qed.

(** ** Proofs: continued fractions *)

Definition rat_inv (G D maxn maxd : Z) : Z * Z * Z * Z * Z * Z -> Prop :=
  fun '(n, d, n0, d0, n1, d1) =>
    0 <= d /\ (n = 0 -> n0 = 0 /\ G = 0) /\ 0 <= n /\
    0 <= n0 /\ 0 <= d0 /\ 0 <= n1 /\ 0 <= d1 /\
    n1 * n + n0 * d = G /\ d1 * n + d0 * d = D /\
    (n1 * d0 - n0 * d1 = 1 \/ n1 * d0 - n0 * d1 = -1) /\
    n0 <= maxn /\ d0 <= maxd /\ Z.gcd n d = Z.gcd G D.

Definition rat_post (G D maxn maxd : Z) : Z * Z -> Prop := fun '(p, q) =>
  Z.gcd p q = 1 /\ 0 <= p <= maxn /\ 0 <= q <= maxd /\
  (G / Z.gcd G D <= maxn -> D / Z.gcd G D <= maxd -> p * D = q * G).

Lemma det_coprime n0 d0 n1 d1 : n1 * d0 - n0 * d1 = 1 \/ n1 * d0 - n0 * d1 = -1 ->
  Z.gcd n0 d0 = 1 /\ Z.gcd n1 d1 = 1.
Proof.
  intros H. split; apply Z.bezout_1_gcd; destruct H.
  - exists (- d1), n1. lia.
  - exists d1, (- n1). lia.
  - exists d0, (- n0). lia.
  - exists (- d0), n0. lia.
Qed.

(** The quotients of the given fraction by its divisor, in terms of the
    convergents and the remainders of Euclid's algorithm. *)
Lemma rat_reduced g n d n1 n0 G : 0 < g -> Z.gcd n d = g -> n1 * n + n0 * d = G ->
  exists n' d', n = n' * g /\ d = d' * g /\ G / g = n1 * n' + n0 * d'.
Proof.
  intros Hg Hnd HG. destruct (Z.gcd_divide_l n d) as [n' Hn'].
  destruct (Z.gcd_divide_r n d) as [d' Hd']. rewrite Hnd in *.
  exists n', d'. split; [done|]. split; [done|].
  replace G with ((n1 * n' + n0 * d') * g) by (rewrite <-HG, Hn', Hd'; ring).
  apply Z.div_mul. lia.
Qed.

Lemma rational_exceeded G D maxn maxd n d n0 d0 n1 d1 :
  0 < D -> rat_inv G D maxn maxd (n, d, n0, d0, n1, d1) -> maxn < n1 \/ maxd < d1 ->
  rat_post G D maxn maxd (n0, d0).
Proof.
  intros HD (Hd & Hn0' & Hn & Hn0 & Hd0 & Hn1 & Hd1 & EG & ED & Hdet & Bn & Bd & Hg) Hmax.
  destruct (det_coprime _ _ _ _ Hdet) as [C0 _].
  split; [done|]. split; [lia|]. split; [lia|]. intros Fn Fd.
  destruct (decide (n = 0)) as [E|Hnz]; [destruct (Hn0' E); nia|]. exfalso.
  assert (Hgpos : 0 < Z.gcd G D).
  { pose proof (Z.gcd_nonneg G D). destruct (decide (Z.gcd G D = 0)) as [E|]; [|lia].
    apply Z.gcd_eq_0 in E. lia. }
  destruct (rat_reduced _ n d n1 n0 G Hgpos Hg EG) as (n' & d' & En & Ed & EGg).
  destruct (rat_reduced _ n d d1 d0 D Hgpos Hg ED) as (n'' & d'' & En' & Ed' & EDg).
  assert (n'' = n') as -> by nia. assert (d'' = d') as -> by nia.
  assert (0 < n') by nia. assert (0 <= d') by nia. destruct Hmax; nia.
Qed.

Lemma rational_advance G D maxn maxd n d n0 d0 n1 d1 :
  0 <= G < 2 ^ 32 -> 0 < D < 2 ^ 32 -> 0 < d ->
  rat_inv G D maxn maxd (n, d, n0, d0, n1, d1) -> n1 <= maxn -> d1 <= maxd ->
  rat_inv G D maxn maxd (d, n mod d, n1, d1,
    ulong (n0 + ulong (n / d * n1)), ulong (d0 + ulong (n / d * d1))).
Proof.
  intros HG HD Hd (_ & _ & Hn & Hn0 & Hd0 & Hn1 & Hd1 & EG & ED & Hdet & Bn & Bd & Hg) Mn Md.
  pose proof (Z.div_mod n d ltac:(lia)) as Hdm. pose proof (Z.mod_pos_bound n d Hd) as Hm.
  assert (0 <= n / d) by (apply Z.div_pos; lia).
  rewrite Z.gcd_comm, <-Z.gcd_mod, Z.gcd_comm in Hg by lia.
  set (a := n / d) in *. set (r := n mod d) in *.
  assert (EG' : (n0 + a * n1) * d + n1 * r = G) by nia.
  assert (ED' : (d0 + a * d1) * d + d1 * r = D) by nia.
  assert (0 <= a * n1) by nia. assert (0 <= a * d1) by nia.
  assert (n0 + a * n1 <= G) by (clear -Hn0 Hd Hn1 Hm EG' H0; nia).
  assert (d0 + a * d1 <= D) by (clear -Hd0 Hd Hd1 Hm ED' H1; nia).
  rewrite !(ulong_small (a * _)), !ulong_small by lia.
  repeat split; try lia; try done.
Qed.

Lemma rational_step G D maxn maxd s : 0 <= G < 2 ^ 32 -> 0 < D < 2 ^ 32 ->
  rat_inv G D maxn maxd s ->
  body_ok (rational_body maxn maxd) (rat_inv G D maxn maxd) (fun '(_, d, _, _, _, _) => d)
    (rat_post G D maxn maxd) s.
Proof.
  intros HG HD. destruct s as [[[[[n d] n0] d0] n1] d1]. intros Hinv.
  pose proof Hinv as (Hd & _ & Hn & _ & _ & Hn1 & Hd1 & EG & ED & Hdet & _ & _ & Hg).
  split; [done|]. unfold rational_body. destruct (orb _ _) eqn:Hmax.
  - rewrite orb_true_iff, !Z.ltb_lt in Hmax. eapply rational_exceeded; [lia|exact Hinv|exact Hmax].
  - rewrite orb_false_iff, !Z.ltb_ge in Hmax. destruct Hmax as [Mn Md].
    destruct (Z.eqb_spec d 0) as [->|Hdz].
    + destruct (det_coprime _ _ _ _ Hdet) as [_ C1].
      split; [done|]. split; [lia|]. split; [lia|]. intros _ _. nia.
    + split; [apply rational_advance; auto; lia|].
      apply Z.mod_pos_bound. lia.
Qed.

Lemma rational_total G D maxn maxd : 0 <= G < 2 ^ 32 -> 0 < D < 2 ^ 32 ->
  0 <= maxn -> 1 <= maxd ->
  exists p q, rational_best_approximation G D maxn maxd = Some (p, q) /\
    rat_post G D maxn maxd (p, q).
Proof.
  intros HG HD Hmn Hmd. unfold rational_best_approximation.
  destruct (loop_total (rational_body maxn maxd) (rat_inv G D maxn maxd)
              (fun '(_, d, _, _, _, _) => d) (rat_post G D maxn maxd))
    with (bound := D + 2) (s := (G, D, 0, 1, 1, 0)) as ([p q] & -> & H).
  - intros s. by apply rational_step.
  - repeat split; try lia.
  - lia.
  - eauto.
Qed.

(** ** The properties of the component *)

(** on positive numbers [gcd] returns the greatest common divisor, and
    [lcm] the least common multiple as long as the product fits a word. *)
Theorem gcd_lcm_correct a b : 0 < a < 2 ^ 32 -> 0 < b < 2 ^ 32 ->
  gcd a b = Some (Z.gcd a b) /\ (a * b < 2 ^ 32 -> lcm a b = Some (Z.lcm a b)).
Proof. intros. split; [apply gcd_pos; lia|]. intros. by apply lcm_exact. Qed.

Lemma gcd_lcm_correct_witness :
  gcd 84 36 = Some (Z.gcd 84 36) /\ (84 * 36 < 2 ^ 32 -> lcm 84 36 = Some (Z.lcm 84 36)).
Proof. apply (gcd_lcm_correct 84 36); lia. Defined.

(** [int_sqrt] returns the integer square root of every word, rounded
    down: its loops end and nothing overflows. *)
Theorem int_sqrt_floor x : 0 <= x < 2 ^ 32 ->
  exists r, int_sqrt x = Some r /\ r * r <= x < (r + 1) * (r + 1).
Proof.
  intros Hx. exists (Z.sqrt x). split; [by apply int_sqrt_exact|]. apply (Z.sqrt_spec x). lia.
Qed.

Lemma int_sqrt_floor_witness : exists r, int_sqrt 4294967295 = Some r /\ r * r <= 4294967295 < (r + 1) * (r + 1).
Proof. apply (int_sqrt_floor 4294967295). lia. Defined.

(** [rational_best_approximation] terminates and returns a fraction in
    lowest terms within the given limits, which is the given number itself
    whenever its reduced form is within them. *)
Theorem rational_best_approximation_within G D maxn maxd :
  0 <= G < 2 ^ 32 -> 0 < D < 2 ^ 32 -> 0 <= maxn -> 1 <= maxd ->
  exists p q, rational_best_approximation G D maxn maxd = Some (p, q) /\
    Z.gcd p q = 1 /\ 0 <= p <= maxn /\ 0 <= q <= maxd /\
    (G / Z.gcd G D <= maxn -> D / Z.gcd G D <= maxd -> p * D = q * G).
Proof.
  intros HG HD Hn Hd. destruct (rational_total G D maxn maxd HG HD Hn Hd) as (p & q & E & H). by exists p, q.
Qed.

Lemma rational_best_approximation_within_witness :
  exists p q, rational_best_approximation 31415 10000 255 31 = Some (p, q) /\
    Z.gcd p q = 1 /\ 0 <= p <= 255 /\ 0 <= q <= 31 /\
    (31415 / Z.gcd 31415 10000 <= 255 -> 10000 / Z.gcd 31415 10000 <= 31 -> p * 10000 = q * 31415).
Proof. apply (rational_best_approximation_within 31415 10000 255 31); lia. Defined.

(** It need not be the closest fraction within the limits: for 3/5 with
    denominators up to 4 it returns 1/2, and 2/3 is closer. *)
Example rational_not_best : rational_best_approximation 3 5 10 4 = Some (1, 2).
Proof. vm_compute. reflexivity. Qed.
