(* ===== verification/Bits.v ===== *)
(** Bit operations on single words: the scans of
    include/asm-generic/bitops/, the Hamming weights of lib/hweight.c and the
    reversals of lib/bitrev.c.  The scans are specified by the bits below and
    above the position they return, the weights by the number of set bits, the
    reversals by where each bit goes. *)
From S2P Require Import Prelude.

(** All ones, [~0UL]. *)
Definition ULONG_MAX : Z := 2 ^ 32 - 1.

(** Complement of an [unsigned long], [~x]. *)
Definition lnot32 (x : Z) : Z := u32 (Z.lnot x).

(** ** Scans *)

(** One test of [__ffs]: when the low [k] bits are clear, drop them. *)
Definition ffs_step (k : Z) : Z * Z -> Z * Z := fun '(num, word) =>
  if Z.land word (2 ^ k - 1) =? 0 then (num + k, Z.shiftr word k) else (num, word).

(** include/asm-generic/bitops/__ffs.h *)
Definition __ffs (word : Z) : Z :=
  let '(num, word) := ffs_step 2 (ffs_step 4 (ffs_step 8 (ffs_step 16 (0, word)))) in
  if Z.land word 0x1 =? 0 then num + 1 else num.

(** include/asm-generic/bitops/ffz.h *)
Definition ffz (x : Z) : Z := __ffs (lnot32 x).

(** include/asm-generic/bitops/ffs.h *)
Definition ffs (x : Z) : Z :=
  if negb (truth x) then 0 else
  fst (ffs_step 1 (ffs_step 2 (ffs_step 4 (ffs_step 8 (ffs_step 16 (1, x)))))).

(** One test of [__fls]: when the high [k] bits are clear, shift them out. *)
Definition fls_step (k : Z) : Z * Z -> Z * Z := fun '(num, word) =>
  if Z.land word (u32 (Z.shiftl ULONG_MAX (BITS_PER_LONG - k))) =? 0
  then (num - k, u32 (Z.shiftl word k)) else (num, word).

(** include/asm-generic/bitops/__fls.h *)
Definition __fls (word : Z) : Z :=
  let '(num, word) := fls_step 2 (fls_step 4 (fls_step 8 (fls_step 16 (BITS_PER_LONG - 1, word)))) in
  if Z.land word (u32 (Z.shiftl ULONG_MAX (BITS_PER_LONG - 1))) =? 0 then num - 1 else num.

(** include/asm-generic/bitops/fls.h, on the bit pattern of the [int]. *)
Definition fls (x : Z) : Z :=
  if negb (truth x) then 0 else
  fst (fls_step 1 (fls_step 2 (fls_step 4 (fls_step 8 (fls_step 16 (32, x)))))).

(** include/asm-generic/bitops/fls64.h, the 32-bit version *)
Definition fls64 (x : Z) : Z :=
  let h := u32 (Z.shiftr x 32) in
  if truth h then fls h + 32 else fls (u32 x).

(** ** Weights (lib/hweight.c) *)

Definition __sw_hweight32 (ARCH_HAS_FAST_MULTIPLIER : bool) (w : Z) : Z :=
  if ARCH_HAS_FAST_MULTIPLIER then
    let w := u32 (w - Z.land (Z.shiftr w 1) 0x55555555) in
    let w := u32 (Z.land w 0x33333333 + Z.land (Z.shiftr w 2) 0x33333333) in
    let w := Z.land (u32 (w + Z.shiftr w 4)) 0x0f0f0f0f in
    Z.shiftr (u32 (w * 0x01010101)) 24
  else
    let res := u32 (w - Z.land (Z.shiftr w 1) 0x55555555) in
    let res := u32 (Z.land res 0x33333333 + Z.land (Z.shiftr res 2) 0x33333333) in
    let res := Z.land (u32 (res + Z.shiftr res 4)) 0x0F0F0F0F in
    let res := u32 (res + Z.shiftr res 8) in
    Z.land (u32 (res + Z.shiftr res 16)) 0x000000FF.

Definition __sw_hweight16 (w : Z) : Z :=
  let res := u32 (w - Z.land (Z.shiftr w 1) 0x5555) in
  let res := u32 (Z.land res 0x3333 + Z.land (Z.shiftr res 2) 0x3333) in
  let res := Z.land (u32 (res + Z.shiftr res 4)) 0x0F0F in
  Z.land (u32 (res + Z.shiftr res 8)) 0x00FF.

Definition __sw_hweight8 (w : Z) : Z :=
  let res := u32 (w - Z.land (Z.shiftr w 1) 0x55) in
  let res := u32 (Z.land res 0x33 + Z.land (Z.shiftr res 2) 0x33) in
  Z.land (u32 (res + Z.shiftr res 4)) 0x0F.

(** The [BITS_PER_LONG == 32] version. *)
Definition __sw_hweight64 (ARCH_HAS_FAST_MULTIPLIER : bool) (w : Z) : Z :=
  u32 (__sw_hweight32 ARCH_HAS_FAST_MULTIPLIER (u32 (Z.shiftr w 32)) +
       __sw_hweight32 ARCH_HAS_FAST_MULTIPLIER (u32 w)).

(** ** Reversals (lib/bitrev.c) *)

Definition byte_rev_table : list Z := [
  0x00; 0x80; 0x40; 0xc0; 0x20; 0xa0; 0x60; 0xe0;
  0x10; 0x90; 0x50; 0xd0; 0x30; 0xb0; 0x70; 0xf0;
  0x08; 0x88; 0x48; 0xc8; 0x28; 0xa8; 0x68; 0xe8;
  0x18; 0x98; 0x58; 0xd8; 0x38; 0xb8; 0x78; 0xf8;
  0x04; 0x84; 0x44; 0xc4; 0x24; 0xa4; 0x64; 0xe4;
  0x14; 0x94; 0x54; 0xd4; 0x34; 0xb4; 0x74; 0xf4;
  0x0c; 0x8c; 0x4c; 0xcc; 0x2c; 0xac; 0x6c; 0xec;
  0x1c; 0x9c; 0x5c; 0xdc; 0x3c; 0xbc; 0x7c; 0xfc;
  0x02; 0x82; 0x42; 0xc2; 0x22; 0xa2; 0x62; 0xe2;
  0x12; 0x92; 0x52; 0xd2; 0x32; 0xb2; 0x72; 0xf2;
  0x0a; 0x8a; 0x4a; 0xca; 0x2a; 0xaa; 0x6a; 0xea;
  0x1a; 0x9a; 0x5a; 0xda; 0x3a; 0xba; 0x7a; 0xfa;
  0x06; 0x86; 0x46; 0xc6; 0x26; 0xa6; 0x66; 0xe6;
  0x16; 0x96; 0x56; 0xd6; 0x36; 0xb6; 0x76; 0xf6;
  0x0e; 0x8e; 0x4e; 0xce; 0x2e; 0xae; 0x6e; 0xee;
  0x1e; 0x9e; 0x5e; 0xde; 0x3e; 0xbe; 0x7e; 0xfe;
  0x01; 0x81; 0x41; 0xc1; 0x21; 0xa1; 0x61; 0xe1;
  0x11; 0x91; 0x51; 0xd1; 0x31; 0xb1; 0x71; 0xf1;
  0x09; 0x89; 0x49; 0xc9; 0x29; 0xa9; 0x69; 0xe9;
  0x19; 0x99; 0x59; 0xd9; 0x39; 0xb9; 0x79; 0xf9;
  0x05; 0x85; 0x45; 0xc5; 0x25; 0xa5; 0x65; 0xe5;
  0x15; 0x95; 0x55; 0xd5; 0x35; 0xb5; 0x75; 0xf5;
  0x0d; 0x8d; 0x4d; 0xcd; 0x2d; 0xad; 0x6d; 0xed;
  0x1d; 0x9d; 0x5d; 0xdd; 0x3d; 0xbd; 0x7d; 0xfd;
  0x03; 0x83; 0x43; 0xc3; 0x23; 0xa3; 0x63; 0xe3;
  0x13; 0x93; 0x53; 0xd3; 0x33; 0xb3; 0x73; 0xf3;
  0x0b; 0x8b; 0x4b; 0xcb; 0x2b; 0xab; 0x6b; 0xeb;
  0x1b; 0x9b; 0x5b; 0xdb; 0x3b; 0xbb; 0x7b; 0xfb;
  0x07; 0x87; 0x47; 0xc7; 0x27; 0xa7; 0x67; 0xe7;
  0x17; 0x97; 0x57; 0xd7; 0x37; 0xb7; 0x77; 0xf7;
  0x0f; 0x8f; 0x4f; 0xcf; 0x2f; 0xaf; 0x6f; 0xef;
  0x1f; 0x9f; 0x5f; 0xdf; 0x3f; 0xbf; 0x7f; 0xff
].

(** include/linux/bitrev.h: the table is indexed by a byte. *)
Definition bitrev8 (byte : Z) : option Z := byte_rev_table.[byte].

Definition bitrev16 (x : Z) : option Z :=
  lo ← bitrev8 (Z.land x 0xff);
  hi ← bitrev8 (Z.shiftr x 8);
  Some (u16 (Z.lor (Z.shiftl lo 8) hi)).

Definition bitrev32 (x : Z) : option Z :=
  lo ← bitrev16 (Z.land x 0xffff);
  hi ← bitrev16 (Z.shiftr x 16);
  Some (u32 (Z.lor (Z.shiftl lo 16) hi)).

(** ** Proofs: scans *)

(** [word] is [w] without its low [num] bits, all clear, and has a bit set
    among its low [W]. *)
Definition ffs_inv (w W : Z) : Z * Z -> Prop := fun '(num, word) =>
  0 <= num /\ word = Z.shiftr w num /\ (forall i, i < num -> Z.testbit w i = false) /\
  exists i, 0 <= i < W /\ Z.testbit word i = true.

Lemma land_low_zero x k : 0 <= k ->
  Z.land x (2 ^ k - 1) = 0 <-> forall i, 0 <= i < k -> Z.testbit x i = false.
Proof.
  intros Hk. split.
  - intros H i Hi. apply (f_equal (fun z => Z.testbit z i)) in H. revert H. testbits.
    bcases. by rewrite andb_true_r.
  - intros H. apply Z.bits_inj'. intros i Hi. testbits. bcases. by rewrite H.
Qed.

Lemma land_low_nonzero x k : 0 <= k -> Z.land x (2 ^ k - 1) <> 0 ->
  exists i, 0 <= i < k /\ Z.testbit x i = true.
Proof.
  intros Hk H. destruct (testbit_exists _ H) as (i & Hi & Hb).
  - rewrite land_ones_mod by done. apply Z.mod_pos_bound. lia.
  - revert Hb. testbits. rewrite !andb_true_iff, Z.ltb_lt.
    intros (? & _ & ?). by exists i.
Qed.

Lemma ffs_step_inv w k s : 0 <= k -> ffs_inv w (2 * k) s -> ffs_inv w k (ffs_step k s).
Proof.
  intros Hk. destruct s as [num word]. intros (Hn & -> & Hlow & i & Hi & Hb). unfold ffs_step.
  destruct (Z.eqb_spec (Z.land (Z.shiftr w num) (2 ^ k - 1)) 0) as [E|E];
    [rewrite land_low_zero in E by done|apply land_low_nonzero in E; [|done]].
  - split; [lia|]. split; [by rewrite Z.shiftr_shiftr|]. split.
    + intros j Hj. destruct (decide (j < num)); [by apply Hlow|].
      specialize (E (j - num) ltac:(lia)). rewrite Z.shiftr_spec in E by lia.
      by rewrite Z.sub_add in E.
    + exists (i - k). destruct (decide (i < k)).
      * rewrite E in Hb by lia. done.
      * split; [lia|]. testbits. rewrite Z.shiftr_spec in Hb by lia. rewrite <-Hb. f_equal. lia.
  - done.
Qed.

Lemma ffs_inv_start w : 0 < w < 2 ^ 32 -> ffs_inv w 32 (0, w).
Proof.
  intros Hw. split; [lia|]. split; [by rewrite Z.shiftr_0_r|].
  split; [intros; by apply Z.testbit_neg_r|].
  exists (Z.log2 w). split; [|apply Z.bit_log2; lia].
  split; [apply Z.log2_nonneg|]. apply Z.log2_lt_pow2; lia.
Qed.

Lemma ffs_inv_end w num word : ffs_inv w 1 (num, word) ->
  0 <= num /\ Z.testbit w num = true /\ forall i, i < num -> Z.testbit w i = false.
Proof.
  intros (Hn & -> & Hlow & i & Hi & Hb). assert (i = 0) as -> by lia.
  rewrite Z.shiftr_spec in Hb by lia. by rewrite Z.add_0_l in Hb.
Qed.

(** [n] is the position of the lowest set bit of [w]. *)
Definition lowest_bit (w n : Z) : Prop :=
  0 <= n < 32 /\ Z.testbit w n = true /\ forall i, i < n -> Z.testbit w i = false.

Lemma lowest_bit_unique w n m : lowest_bit w n -> lowest_bit w m -> n = m.
Proof.
  intros (Hn & Hbn & Hln) (Hm & Hbm & Hlm).
  destruct (Z.lt_trichotomy n m) as [H|[->|H]]; [|done|].
  - rewrite Hlm in Hbn by done. done.
  - rewrite Hln in Hbm by done. done.
Qed.

Lemma ffs_step_offset off k s :
  ffs_step k (off + s.1, s.2) = (off + (ffs_step k s).1, (ffs_step k s).2).
Proof.
  destruct s as [n x]. unfold ffs_step. simpl.
  destruct (_ =? _); simpl; f_equal; lia.
Qed.

Lemma ffs_chain w : 0 < w < 2 ^ 32 -> forall off,
  exists num word, ffs_step 1 (ffs_step 2 (ffs_step 4 (ffs_step 8 (ffs_step 16 (off, w))))) = (off + num, word) /\
    lowest_bit w num.
Proof.
  intros Hw off.
  pose proof (ffs_inv_start w Hw) as H.
  apply (ffs_step_inv w 16) in H; [|lia]. apply (ffs_step_inv w 8) in H; [|lia].
  apply (ffs_step_inv w 4) in H; [|lia]. apply (ffs_step_inv w 2) in H; [|lia].
  apply (ffs_step_inv w 1) in H; [|lia].
  destruct (ffs_step 1 _) as [num word] eqn:E. apply ffs_inv_end in H.
  exists num, word. split.
  - replace (off, w) with (off + (0, w).1, (0, w).2) by (simpl; f_equal; lia).
    rewrite !ffs_step_offset, E. done.
  - destruct H as (Hn & Hb & Hl). split; [|done]. split; [done|].
    destruct (Z.lt_ge_cases num 32); [done|].
    rewrite (testbit_above 32) in Hb by lia. done.
Qed.

Lemma ffs_lowest w : 0 < w < 2 ^ 32 -> lowest_bit w (__ffs w).
Proof.
  intros Hw. destruct (ffs_chain w Hw 0) as (num & word & E & H).
  unfold __ffs. destruct (ffs_step 2 _) as [n x]. unfold ffs_step in E.
  change (2 ^ 1 - 1) with 0x1 in E. destruct (_ =? _); injection E as E _.
  - replace (n + 1) with num by lia. done.
  - replace n with num by lia. done.
Qed.

Lemma ffz_lowest w : 0 <= w < 2 ^ 32 - 1 ->
  0 <= ffz w < 32 /\ Z.testbit w (ffz w) = false /\
  forall i, 0 <= i < ffz w -> Z.testbit w i = true.
Proof.
  intros Hw. assert (Hl : 0 < lnot32 w < 2 ^ 32).
  { unfold lnot32, u32, Z.lnot. zlia. }
  destruct (ffs_lowest _ Hl) as (Hr & Hb & Hlow). fold (ffz w) in *.
  unfold lnot32 in *. split; [done|]. split.
  - rewrite testbit_u32, Z.lnot_spec in Hb by lia. revert Hb. bcases.
    by destruct (Z.testbit w (ffz w)).
  - intros i Hi. specialize (Hlow i ltac:(lia)).
    rewrite testbit_u32, Z.lnot_spec in Hlow by lia. revert Hlow. bcases.
    by destruct (Z.testbit w i).
Qed.

Lemma ffs_spec x : 0 < x < 2 ^ 32 -> lowest_bit x (ffs x - 1).
Proof.
  intros Hx. unfold ffs. rewrite truth_nz by lia. cbn [negb].
  destruct (ffs_chain x Hx 1) as (num & word & -> & H). cbn [fst].
  replace (1 + num - 1) with num by lia. done.
Qed.

(** [word] is [w] shifted so that bit [num] is bit 31, and has a bit set among
    its high [W]. *)
Definition fls_inv (w W : Z) : Z * Z -> Prop := fun '(num, word) =>
  num <= 31 /\ word = w * 2 ^ (31 - num) /\ 2 ^ (32 - W) <= word < 2 ^ 32.

Lemma land_high_zero x k : 0 <= k <= 32 -> 0 <= x < 2 ^ 32 ->
  Z.land x (u32 (Z.shiftl ULONG_MAX k)) = 0 <-> x < 2 ^ k.
Proof.
  intros Hk Hx. split.
  - intros H. apply bits_bound; [lia..|]. intros i Hi.
    destruct (Z.lt_ge_cases i 32); [|by apply (testbit_above 32)].
    apply (f_equal (fun z => Z.testbit z i)) in H. revert H.
    unfold ULONG_MAX. testbits. bcases. by rewrite andb_true_r.
  - intros H. apply Z.bits_inj'. intros i Hi. unfold ULONG_MAX. testbits.
    destruct (Z.lt_ge_cases i k).
    + bcases.
    + rewrite (testbit_above k x) by lia. done.
Qed.

Lemma fls_step_inv w k s : 0 < k -> 2 * k <= 32 -> fls_inv w (2 * k) s -> fls_inv w k (fls_step k s).
Proof.
  intros Hk Hk'. destruct s as [num word]. intros (Hn & Hw & Hb). unfold fls_step.
  assert (0 < 2 ^ (32 - 2 * k)) by lia. unfold BITS_PER_LONG.
  destruct (Z.eqb_spec (Z.land word (u32 (Z.shiftl ULONG_MAX (32 - k)))) 0) as [E|E];
    rewrite land_high_zero in E by lia.
  - assert (Hp : 2 ^ (32 - k) * 2 ^ k = 2 ^ 32) by (rewrite <-Z.pow_add_r by lia; f_equal; lia).
    assert (Hq : 2 ^ (32 - 2 * k) * 2 ^ k = 2 ^ (32 - k)) by (rewrite <-Z.pow_add_r by lia; f_equal; lia).
    assert (0 < 2 ^ k) by lia.
    rewrite Z.shiftl_mul_pow2, u32_small by nia.
    split; [lia|]. split; [|nia].
    rewrite Hw, <-Z.mul_assoc, <-Z.pow_add_r by lia. do 2 f_equal. lia.
  - split; [done|]. split; [done|]. lia.
Qed.

Lemma fls_inv_end w num word : 0 < w -> fls_inv w 1 (num, word) -> num = Z.log2 w.
Proof.
  intros Hpos (Hn & -> & Hb). symmetry.
  assert (Hle : num < 0 -> False).
  { intros Hneg. assert (2 ^ 32 <= 2 ^ (31 - num)) by (apply Z.pow_le_mono_r; lia). nia. }
  destruct (Z.lt_ge_cases num 0); [tauto|].
  apply Z.log2_unique; [done|].
  assert (H1 : 2 ^ 31 = 2 ^ num * 2 ^ (31 - num)) by (rewrite <-Z.pow_add_r by lia; f_equal; lia).
  assert (H2 : 2 ^ 32 = 2 ^ Z.succ num * 2 ^ (31 - num)) by (rewrite <-Z.pow_add_r by lia; f_equal; lia).
  change (32 - 1) with 31 in Hb. assert (0 < 2 ^ (31 - num)) by lia. nia.
Qed.

Lemma fls_step_offset off k s :
  fls_step k (off + s.1, s.2) = (off + (fls_step k s).1, (fls_step k s).2).
Proof.
  destruct s as [n x]. unfold fls_step. simpl.
  destruct (_ =? _); simpl; f_equal; lia.
Qed.

Lemma fls_chain w : 0 < w < 2 ^ 32 -> forall off, exists word,
  fls_step 1 (fls_step 2 (fls_step 4 (fls_step 8 (fls_step 16 (off + 31, w))))) = (off + Z.log2 w, word).
Proof.
  intros Hw off.
  assert (H : fls_inv w 32 (31, w)).
  { split; [lia|]. split; [|simpl; lia]. by rewrite Z.sub_diag, Z.mul_1_r. }
  apply (fls_step_inv w 16) in H; [|lia..]. apply (fls_step_inv w 8) in H; [|lia..].
  apply (fls_step_inv w 4) in H; [|lia..]. apply (fls_step_inv w 2) in H; [|lia..].
  apply (fls_step_inv w 1) in H; [|lia..].
  destruct (fls_step 1 _) as [num word] eqn:E. apply fls_inv_end in H; [|lia].
  exists word. change (off + 31, w) with (off + (31, w).1, (31, w).2).
  rewrite !fls_step_offset, E. simpl. by rewrite H.
Qed.

Lemma __fls_log2 w : 0 < w < 2 ^ 32 -> __fls w = Z.log2 w.
Proof.
  intros Hw. destruct (fls_chain w Hw 0) as (word & E). unfold __fls.
  change (BITS_PER_LONG - 1) with (0 + 31). destruct (fls_step 2 _) as [n x].
  unfold fls_step in E. change (BITS_PER_LONG - 1) with (0 + 31) in E.
  destruct (_ =? _); injection E; lia.
Qed.

Lemma fls_log2 x : 0 < x < 2 ^ 32 -> fls x = Z.log2 x + 1.
Proof.
  intros Hx. unfold fls. rewrite truth_nz by lia. cbn [negb].
  destruct (fls_chain x Hx 1) as (word & E). change (1 + 31) with 32 in E.
  rewrite E. simpl. lia.
Qed.

Lemma fls64_log2 x : 0 < x < 2 ^ 64 -> fls64 x = Z.log2 x + 1.
Proof.
  intros Hx. unfold fls64.
  assert (Hh : 0 <= Z.shiftr x 32 < 2 ^ 32)
    by (rewrite Z.shiftr_div_pow2 by lia; split; [apply Z.div_pos; lia|apply Z.div_lt_upper_bound; lia]).
  rewrite u32_small by done. destruct (truth (Z.shiftr x 32)) eqn:Ht.
  - rewrite truth_true in Ht. rewrite fls_log2 by lia.
    rewrite Z.log2_shiftr by lia. assert (32 <= Z.log2 x); [|lia].
    apply Z.log2_le_pow2; [lia|]. rewrite Z.shiftr_div_pow2 in * by lia.
    destruct (Z.lt_ge_cases x (2 ^ 32)); [|done]. rewrite Z.div_small in Ht by lia. done.
  - rewrite truth_false, Z.shiftr_div_pow2 in Ht by lia.
    assert (x < 2 ^ 32) by (apply Z.div_small_iff in Ht; lia).
    rewrite u32_small, fls_log2; lia.
Qed.

(** ** Proofs: weights

    A word is read as a list of [k]-bit digits, lowest first.  Each step of
    [__sw_hweight32] adds neighbouring digits into digits twice as wide, so
    the sum of the digits never changes. *)

Fixpoint dig (k : Z) (l : list Z) : Z :=
  match l with [] => 0 | a :: t => a + 2 ^ k * dig k t end.

Fixpoint bits (n : nat) (w : Z) : list Z :=
  match n with O => [] | S n => w mod 2 :: bits n (w / 2) end.

Definition zsum (l : list Z) : Z := foldr Z.add 0 l.

(** The number of set bits among the low [n]. *)
Definition popcount (n : nat) (w : Z) : Z :=
  zsum ((fun i => b2z (Z.testbit w (Z.of_nat i))) <$> seq 0 n).

(** [a0; 0; a2; 0; ...] *)
Fixpoint evens (l : list Z) : list Z :=
  match l with a :: _ :: t => a :: 0 :: evens t | _ => l end.

(** [a0 + a1; a2 + a3; ...] *)
Fixpoint pairsum (l : list Z) : list Z :=
  match l with a :: b :: t => a + b :: pairsum t | _ => l end.

(** [m; 0; m; 0; ...], [n] pairs *)
Fixpoint altmask (m : Z) (n : nat) : list Z :=
  match n with O => [] | S n => m :: 0 :: altmask m n end.

Lemma list_pair_ind (P : list Z -> Prop) :
  P [] -> (forall a, P [a]) -> (forall a b t, P t -> P (a :: b :: t)) -> forall l, P l.
Proof.
  intros H0 H1 H2 l. enough (P l /\ forall a, P (a :: l)) by tauto.
  induction l as [|b t [IH1 IH2]]; auto.
Qed.

Lemma pairsum_sum l : zsum (pairsum l) = zsum l.
Proof. induction l as [|a|a b t IH] using list_pair_ind; simpl in *; lia. Qed.

Definition digits (B : Z) (l : list Z) : Prop := Forall (fun a => 0 <= a <= B) l.

Lemma digits_pairsum B l : 0 <= B -> digits B l -> digits (2 * B) (pairsum l).
Proof.
  unfold digits. intros HB. induction l as [|a|a b t IH] using list_pair_ind; intros H; simpl; auto.
  - inversion H; subst. constructor; [lia|constructor].
  - inversion H as [|? ? ? H']; subst. inversion H'; subst. constructor; [lia|auto].
Qed.

Lemma dig_bounds k B l : 0 <= k -> 0 <= B < 2 ^ k -> digits B l ->
  0 <= dig k l < 2 ^ (k * zlen l).
Proof.
  intros Hk HB H. unfold digits in H. induction H as [|a l Ha _ IH]; simpl.
  - unfold zlen. simpl. rewrite Z.mul_0_r. lia.
  - rewrite zlen_cons, Z.mul_add_distr_l, Z.mul_1_r, Z.pow_add_r by (unfold zlen; lia).
    nia.
Qed.

Lemma dig_land k a b x y : 0 <= k -> 0 <= a < 2 ^ k -> 0 <= b < 2 ^ k ->
  Z.land (a + 2 ^ k * x) (b + 2 ^ k * y) = Z.land a b + 2 ^ k * Z.land x y.
Proof.
  intros Hk Ha Hb.
  assert (Hd : forall u v, 0 <= u < 2 ^ k -> forall i, 0 <= i ->
    Z.testbit (u + 2 ^ k * v) i = if i <? k then Z.testbit u i else Z.testbit v (i - k)).
  { intros u v Hu i Hi. destruct (Z.ltb_spec i k).
    - rewrite <-(Z.mod_pow2_bits_low _ k) by done.
      rewrite Z.mul_comm, Z.mod_add, Z.mod_small by lia. done.
    - replace i with (i - k + k) at 1 by lia. rewrite <-Z.div_pow2_bits by lia.
      rewrite Z.mul_comm, Z.div_add, Z.div_small by lia. by rewrite Z.add_0_l. }
  assert (Hl : 0 <= Z.land a b < 2 ^ k).
  { split; [apply Z.land_nonneg; lia|]. apply bits_bound; [done|apply Z.land_nonneg; lia|].
    intros i Hi. rewrite Z.land_spec, (testbit_above k a) by lia. done. }
  apply Z.bits_inj'. intros i Hi. rewrite Z.land_spec, !Hd by done.
  bcases; by rewrite Z.land_spec.
Qed.

Lemma dig_evens k B m l : 0 <= k -> 0 <= B < 2 ^ k -> m = 2 ^ k - 1 ->
  digits B l -> Nat.Even (length l) ->
  Z.land (dig k l) (dig k (altmask m (Nat.div2 (length l)))) = dig k (evens l).
Proof.
  intros Hk HB -> H He. unfold digits in H.
  induction l as [|a|a b t IH] using list_pair_ind.
  - done.
  - destruct He as [n Hn]. simpl in Hn. lia.
  - inversion H as [|? ? Ha H']; subst. inversion H' as [|? ? Hb H'']; subst.
    cbn [dig altmask evens length Nat.div2].
    rewrite !dig_land, IH by (done || lia || (destruct He as [n Hn]; exists (n - 1)%nat; simpl in Hn; lia)).
    rewrite land_ones_mod, Z.land_0_r, Z.mod_small by lia. done.
Qed.

(** The digits one place down, with a zero entering at the top. *)
Definition down (l : list Z) : list Z := tail l ++ [0].

Lemma dig_snoc0 k l : dig k (l ++ [0]) = dig k l.
Proof. induction l as [|a l IH]; simpl; [lia|]. by rewrite IH. Qed.

Lemma dig_down k B l : 0 <= k -> 0 <= B < 2 ^ k -> digits B l ->
  Z.shiftr (dig k l) k = dig k (down l).
Proof.
  intros Hk HB H. unfold down. rewrite dig_snoc0. destruct H as [|a l Ha _]; simpl.
  - by rewrite Z.shiftr_0_l.
  - rewrite Z.shiftr_div_pow2, Z.mul_comm, Z.div_add, Z.div_small by lia. lia.
Qed.

Lemma down_digits B l : 0 <= B -> digits B l -> digits B (down l).
Proof.
  intros HB H. apply Forall_app. split; [|repeat constructor; lia].
  destruct H; [constructor|done].
Qed.

Lemma down_length l : l <> [] -> length (down l) = length l.
Proof. destruct l; [done|]. intros _. unfold down. rewrite length_app. simpl. lia. Qed.

Lemma even_pair {A} (a b : A) t : Nat.Even (length (a :: b :: t)) -> Nat.Even (length t).
Proof. intros [n Hn]. exists (n - 1)%nat. simpl in Hn. lia. Qed.

Lemma even_one {A} (a : A) : ~ Nat.Even (length [a]).
Proof. intros [n Hn]. simpl in Hn. lia. Qed.

Lemma dig_pairsum k l : 0 <= k -> Nat.Even (length l) ->
  dig k (evens l) + dig k (evens (down l)) = dig (2 * k) (pairsum l) /\
  dig k l = dig k (evens l) + 2 ^ k * dig k (evens (down l)).
Proof.
  intros Hk. induction l as [|a|a b t IH] using list_pair_ind; intros He.
  - simpl. lia.
  - by destruct (even_one a).
  - specialize (IH (even_pair _ _ _ He)) as [IH1 IH2].
    assert (Hdown : evens (down (a :: b :: t)) = b :: 0 :: evens (down t)
                    \/ (t = [] /\ evens (down (a :: b :: t)) = [b; 0])).
    { destruct t as [|c t]; [right; done|left; done]. }
    assert (Hdig : dig k (evens (down (a :: b :: t))) = b + 2 ^ k * (0 + 2 ^ k * dig k (evens (down t)))).
    { destruct Hdown as [->|[-> ->]]; simpl; lia. }
    rewrite Hdig. cbn [dig evens pairsum].
    replace (2 * k) with (k + k) by lia. rewrite Z.pow_add_r by lia.
    rewrite <-Z.add_diag in IH1. rewrite IH2 at 1. rewrite <-IH1. lia.
Qed.

Lemma dig_zip k x y : length x = length y -> dig k (zip_with Z.add x y) = dig k x + dig k y.
Proof.
  revert y. induction x as [|a x IH]; intros [|b y] Hlen; simpl in *; [done..|].
  rewrite IH by lia. lia.
Qed.

Lemma evens_zip x y : length x = length y -> Nat.Even (length x) ->
  evens (zip_with Z.add x y) = zip_with Z.add (evens x) (evens y) /\ length (evens x) = length x.
Proof.
  revert y. induction x as [|a|a b x IH] using list_pair_ind; intros y Hlen He.
  - by destruct y.
  - by destruct (even_one a).
  - destruct y as [|c [|d y]]; [done..|]. simpl in Hlen.
    destruct (IH y) as [E1 E2]; [lia|by eapply even_pair|]. simpl. by rewrite E1, E2.
Qed.

Lemma digits_zip B x y : digits B x -> digits B y -> digits (2 * B) (zip_with Z.add x y).
Proof.
  intros Hx. revert y. induction Hx as [|a x Ha _ IH]; intros y Hy; [constructor|].
  destruct Hy as [|b y Hb Hy]; [constructor|]. constructor; [simpl; lia|by apply IH].
Qed.

Lemma pairsum_length l : Nat.Even (length l) -> length l = (2 * length (pairsum l))%nat.
Proof.
  induction l as [|a|a b t IH] using list_pair_ind; intros He; [done|by destruct (even_one a)|].
  simpl in *. rewrite IH by (by eapply (even_pair a b)). lia.
Qed.

Section Fold.
Context (k B : Z) (l : list Z) (mask : Z).
Hypothesis Hk : 0 <= k.
Hypothesis HB : 0 <= B < 2 ^ k.
Hypothesis Hl : digits B l.
Hypothesis He : Nat.Even (length l).
Hypothesis Hm : mask = dig k (altmask (2 ^ k - 1) (Nat.div2 (length l))).

Lemma fold_low : Z.land (dig k l) mask = dig k (evens l).
Proof using Hk HB Hl He Hm. rewrite Hm. by apply (dig_evens k B). Qed.

Lemma fold_high : Z.land (Z.shiftr (dig k l) k) mask = dig k (evens (down l)).
Proof using Hk HB Hl He Hm.
  rewrite (dig_down k B) by done.
  destruct l as [|a t] eqn:E; [rewrite Hm; cbn; rewrite Z.land_0_r; lia|].
  rewrite Hm, <-(down_length (a :: t)) by done.
  apply (dig_evens k B); auto; [apply down_digits; [lia|done]|by rewrite down_length].
Qed.

Lemma fold_mask :
  Z.land (dig k l) mask + Z.land (Z.shiftr (dig k l) k) mask = dig (2 * k) (pairsum l).
Proof using Hk HB Hl He Hm. rewrite fold_low, fold_high. by apply dig_pairsum. Qed.

Lemma fold_sub : k = 1 -> dig k l - Z.land (Z.shiftr (dig k l) k) mask = dig (2 * k) (pairsum l).
Proof using Hk HB Hl He Hm.
  intros E. rewrite fold_high. destruct (dig_pairsum k l Hk He) as [<- ->].
  rewrite E. lia.
Qed.

Lemma fold_add : 2 * B < 2 ^ k ->
  Z.land (dig k l + Z.shiftr (dig k l) k) mask = dig (2 * k) (pairsum l).
Proof using Hk HB Hl He Hm.
  intros HB2. rewrite (dig_down k B) by done.
  destruct (decide (l = [])) as [E|E]; [by rewrite Hm, E, Z.land_0_r|].
  pose proof (down_length l E) as Hlen.
  rewrite <-dig_zip by done. destruct (evens_zip l (down l)) as [E1 E2]; [done..|].
  destruct (evens_zip (down l) l) as [_ E3]; [done|by rewrite Hlen|].
  rewrite Hm. replace (length l) with (length (zip_with Z.add l (down l)))
    by (rewrite length_zip_with; lia).
  rewrite (dig_evens k (2 * B)); [|done|lia|done| |].
  - rewrite E1, dig_zip by congruence. by apply dig_pairsum.
  - apply digits_zip; [done|]. apply down_digits; [lia|done].
  - rewrite length_zip_with, Hlen, Nat.min_id. done.
Qed.
End Fold.

Lemma bits_dig n w : 0 <= w < 2 ^ Z.of_nat n -> dig 1 (bits n w) = w.
Proof.
  revert w. induction n as [|n IH]; intros w Hw.
  - simpl. change (2 ^ Z.of_nat 0) with 1 in Hw. lia.
  - cbn [bits dig]. rewrite Nat2Z.inj_succ, Z.pow_succ_r in Hw by lia.
    rewrite IH by zlia. zlia.
Qed.

Lemma bits_digits n w : digits 1 (bits n w).
Proof. revert w. induction n as [|n IH]; intros w; constructor; [zlia|apply IH]. Qed.

Lemma bits_length n w : length (bits n w) = n.
Proof. revert w. induction n as [|n IH]; intros w; simpl; auto. Qed.

Lemma popcount_bits n w : popcount n w = zsum (bits n w).
Proof.
  unfold popcount. revert w. induction n as [|n IH]; intros w; [done|].
  cbn [bits seq fmap list_fmap zsum foldr]. fold (zsum (bits n (w / 2))).
  rewrite <-IH. f_equal.
  - rewrite Z.bit0_odd. pose proof (Zmod_odd w) as ->. by destruct (Z.odd w).
  - rewrite <-seq_shift, <-list_fmap_compose. unfold zsum. f_equal.
    apply list_fmap_ext. intros i j _. unfold compose. cbv beta. f_equal.
    rewrite Nat2Z.inj_succ, <-Z.add_1_r, <-Z.div_pow2_bits by lia. done.
Qed.

(** The first three steps, on [8 * n] bits. *)
Lemma weight_bytes n w : 0 <= w < 2 ^ (8 * Z.of_nat n) -> (n <= 4)%nat ->
  let w1 := u32 (w - Z.land (Z.shiftr w 1) (dig 1 (altmask 1 (4 * n)))) in
  let w2 := u32 (Z.land w1 (dig 2 (altmask 3 (2 * n))) + Z.land (Z.shiftr w1 2) (dig 2 (altmask 3 (2 * n)))) in
  exists l, Z.land (u32 (w2 + Z.shiftr w2 4)) (dig 4 (altmask 15 n)) = dig 8 l /\
    length l = n /\ digits 8 l /\ zsum l = popcount (8 * n) w.
Proof.
  intros Hw Hn. set (l0 := bits (8 * n) w).
  assert (Hlen0 : length l0 = (8 * n)%nat) by apply bits_length.
  assert (E0 : Nat.Even (length l0)) by (exists (4 * n)%nat; lia).
  set (l1 := pairsum l0). pose proof (pairsum_length l0 E0) as Hlen1. fold l1 in Hlen1.
  assert (E1 : Nat.Even (length l1)) by (exists (2 * n)%nat; lia).
  set (l2 := pairsum l1). pose proof (pairsum_length l1 E1) as Hlen2. fold l2 in Hlen2.
  assert (E2 : Nat.Even (length l2)) by (exists n; lia).
  set (l3 := pairsum l2). pose proof (pairsum_length l2 E2) as Hlen3. fold l3 in Hlen3.
  assert (D0 : digits 1 l0) by apply bits_digits.
  assert (D1 : digits 2 l1) by (apply (digits_pairsum 1); [lia|done]).
  assert (D2 : digits 4 l2) by (apply (digits_pairsum 2); [lia|done]).
  assert (D3 : digits 8 l3) by (apply (digits_pairsum 4); [lia|done]).
  assert (Hw0 : w = dig 1 l0).
  { symmetry. apply bits_dig. by rewrite Nat2Z.inj_mul. }
  assert (B32 : forall k B l, 0 <= k -> 0 <= B < 2 ^ k -> digits B l -> k * zlen l <= 32 -> 0 <= dig k l < 2 ^ 32).
  { intros k B l Hk HB Hd Hle. pose proof (dig_bounds k B l Hk HB Hd).
    assert (2 ^ (k * zlen l) <= 2 ^ 32) by (apply Z.pow_le_mono_r; lia). lia. }
  assert (F1 : w - Z.land (Z.shiftr w 1) (dig 1 (altmask 1 (4 * n))) = dig 2 l1).
  { rewrite Hw0. apply (fold_sub 1 1 l0); try done. rewrite Hlen0. do 2 f_equal.
    replace (8 * n)%nat with (2 * (4 * n))%nat by lia. by rewrite Nat.div2_double. }
  rewrite F1, u32_small by (apply (B32 2 2); unfold zlen; try done; lia). cbv zeta.
  rewrite (fold_mask 2 2 l1); try done.
  2:{ replace (length l1) with (2 * (2 * n))%nat by lia. by rewrite Nat.div2_double. }
  change (dig (2 * 2) (pairsum l1)) with (dig 4 l2).
  rewrite (u32_small (dig 4 l2)) by (apply (B32 4 4); unfold zlen; try done; lia).
  assert (F2 : 0 <= dig 4 l2 + Z.shiftr (dig 4 l2) 4 < 2 ^ 32).
  { rewrite (dig_down 4 4) by (done || lia).
    destruct (decide (l2 = [])) as [->|Hne]; [done|].
    pose proof (down_length l2 Hne). rewrite <-dig_zip by done.
    apply (B32 4 8); [lia..| |].
    - apply (digits_zip 4); [done|]. by apply down_digits; [lia|].
    - unfold zlen. rewrite length_zip_with. lia. }
  rewrite u32_small by done.
  rewrite (fold_add 4 4 l2); try done.
  2:{ replace (length l2) with (2 * n)%nat by lia. by rewrite Nat.div2_double. }
  exists l3. split; [done|]. split; [lia|]. split; [done|].
  unfold l3, l2, l1. by rewrite !pairsum_sum, popcount_bits.
Qed.

Lemma zsum_bounds B l : digits B l -> 0 <= zsum l <= B * zlen l.
Proof.
  induction 1 as [|a l Ha _ IH]; [unfold zlen; simpl; lia|].
  rewrite zlen_cons. simpl. lia.
Qed.

Lemma div_base a q b : 0 <= a < b -> (a + b * q) / b = q.
Proof. intros. symmetry. apply (Z.div_unique _ _ _ a); lia. Qed.

Lemma mod_base a q b : 0 <= a < b -> (a + b * q) mod b = a.
Proof. intros. symmetry. apply (Z.mod_unique _ _ q); lia. Qed.

(** The last steps, on the four byte sums. *)
Lemma weight_sum4 e0 e1 e2 e3 : digits 8 [e0; e1; e2; e3] ->
  let res := dig 8 [e0; e1; e2; e3] in
  let res' := u32 (res + Z.shiftr res 8) in
  Z.land (u32 (res' + Z.shiftr res' 16)) 0xFF = e0 + (e1 + (e2 + (e3 + 0))) /\
  Z.shiftr (u32 (res * 0x01010101)) 24 = e0 + (e1 + (e2 + (e3 + 0))).
Proof.
  intros H. unfold digits in H. decompose_Forall_hyps.
  set (S := e0 + (e1 + (e2 + (e3 + 0)))). assert (HS : S = e0 + e1 + e2 + e3) by (unfold S; lia).
  change (dig 8 [e0; e1; e2; e3]) with (e0 + 256 * (e1 + 256 * (e2 + 256 * (e3 + 256 * 0)))). cbv zeta.
  change 0xFF with (2 ^ 8 - 1). rewrite land_ones_mod by lia. rewrite !Z.shiftr_div_pow2 by lia.
  change (2 ^ 8) with 256. change (2 ^ 16) with 65536. change (2 ^ 24) with 16777216. split.
  - rewrite (div_base e0) by lia. rewrite (u32_small (_ + (e1 + _))) by lia.
    replace (e0 + 256 * (e1 + 256 * (e2 + 256 * (e3 + 256 * 0))) + (e1 + 256 * (e2 + 256 * (e3 + 256 * 0))))
      with ((e0 + e1 + 256 * (e1 + e2)) + 65536 * (e2 + e3 + 256 * e3)) by lia.
    rewrite div_base, u32_small by lia.
    replace (_ + (e2 + e3 + 256 * e3)) with (S + 256 * (e1 + e2 + e3 + 256 * (e2 + e3 + 256 * e3))) by lia.
    apply mod_base. lia.
  - replace ((e0 + 256 * (e1 + 256 * (e2 + 256 * (e3 + 256 * 0)))) * 0x01010101)
      with ((e0 + 256 * (e0 + e1) + 65536 * (e0 + e1 + e2) + 16777216 * S) +
            2 ^ 32 * (e1 + e2 + e3 + 256 * (e2 + e3) + 65536 * e3)) by lia.
    unfold u32. rewrite mod_base by lia. apply div_base. lia.
Qed.

Lemma hweight32_ok fast w : 0 <= w < 2 ^ 32 -> __sw_hweight32 fast w = popcount 32 w.
Proof.
  intros Hw. change 32%nat with (8 * 4)%nat. destruct (weight_bytes 4 w Hw ltac:(lia)) as (l & El & Hlen & Hd & Hs).
  rewrite <-Hs. destruct l as [|e0 [|e1 [|e2 [|e3 [|]]]]]; try done.
  destruct (weight_sum4 e0 e1 e2 e3 Hd) as [S1 S2].
  unfold __sw_hweight32. cbv zeta in *.
  change 0x55555555 with (dig 1 (altmask 1 (4 * 4))).
  change 0x33333333 with (dig 2 (altmask 3 (2 * 4))).
  change 0x0f0f0f0f with (dig 4 (altmask 15 4)).
  rewrite El, S1, S2. by destruct fast.
Qed.

Lemma hweight16_ok w : 0 <= w < 2 ^ 16 -> __sw_hweight16 w = popcount 16 w.
Proof.
  intros Hw. change 16%nat with (8 * 2)%nat. destruct (weight_bytes 2 w Hw ltac:(lia)) as (l & El & Hlen & Hd & Hs).
  rewrite <-Hs. destruct l as [|e0 [|e1 [|]]]; try done.
  unfold __sw_hweight16. cbv zeta in *.
  change 0x5555 with (dig 1 (altmask 1 (4 * 2))).
  change 0x3333 with (dig 2 (altmask 3 (2 * 2))).
  change 0x0f0f with (dig 4 (altmask 15 2)). rewrite El.
  unfold digits in Hd. decompose_Forall_hyps.
  change 0xFF with (2 ^ 8 - 1). rewrite land_ones_mod by lia.
  cbv [dig zsum foldr]. rewrite Z.shiftr_div_pow2 by lia. unfold u32. zlia.
Qed.

Lemma hweight8_ok w : 0 <= w < 2 ^ 8 -> __sw_hweight8 w = popcount 8 w.
Proof.
  intros Hw. change 8%nat with (8 * 1)%nat. destruct (weight_bytes 1 w Hw ltac:(lia)) as (l & El & Hlen & Hd & Hs).
  rewrite <-Hs. destruct l as [|e0 [|]]; try done.
Qed.

Lemma popcount_add n m w : popcount (n + m) w = popcount n w + popcount m (Z.shiftr w (Z.of_nat n)).
Proof.
  unfold popcount. rewrite seq_app, fmap_app. unfold zsum. rewrite foldr_app.
  assert (Hacc : forall l c, foldr Z.add c l = foldr Z.add 0 l + c).
  { induction l as [|a l IH]; intros c; simpl; [lia|]. rewrite IH. lia. }
  rewrite Hacc. f_equal. f_equal.
  rewrite Nat.add_0_l. replace (seq n m) with (Nat.add n <$> seq 0 m).
  2:{ by rewrite fmap_add_seq, Nat.add_0_r. }
  rewrite <-list_fmap_compose. apply list_fmap_ext. intros _ j _. unfold compose. cbv beta.
  rewrite Z.shiftr_spec by lia. do 2 f_equal. lia.
Qed.

Lemma popcount_mod n w k : (Z.of_nat n <= k) -> popcount n (w mod 2 ^ k) = popcount n w.
Proof.
  intros Hk. unfold popcount. f_equal. apply list_fmap_ext. intros i j Hj.
  apply lookup_seq in Hj. rewrite testbit_mod_pow2 by lia. bcases.
Qed.

Lemma popcount_bounds n w : 0 <= popcount n w <= Z.of_nat n.
Proof.
  rewrite popcount_bits. pose proof (zsum_bounds 1 _ (bits_digits n w)) as H.
  unfold zlen in H. rewrite bits_length in H. lia.
Qed.

Lemma hweight64_ok fast w : 0 <= w < 2 ^ 64 -> __sw_hweight64 fast w = popcount 64 w.
Proof.
  intros Hw. unfold __sw_hweight64.
  rewrite !hweight32_ok by apply u32_range. unfold u32 at 2 3. rewrite !popcount_mod by lia.
  pose proof (popcount_bounds 32 w). pose proof (popcount_bounds 32 (Z.shiftr w 32)).
  rewrite u32_small by lia. change 64%nat with (32 + 32)%nat. rewrite popcount_add.
  change (Z.of_nat 32) with 32. lia.
Qed.

(** ** Proofs: reversals *)

Lemma bitrev8_table : forallb (fun b => forallb (fun i =>
    match bitrev8 (Z.of_nat b) with
    | Some r => eqb (Z.testbit r (Z.of_nat i)) (Z.testbit (Z.of_nat b) (7 - Z.of_nat i)) && (0 <=? r) && (r <? 256)
    | None => false
    end) (seq 0 8)) (seq 0 256) = true.
Proof. vm_compute. reflexivity. Qed.

Lemma forallb_seq f n : forallb f (seq 0 n) = true -> forall i, (i < n)%nat -> f i = true.
Proof. rewrite forallb_forall. intros H i Hi. apply H. apply in_seq. lia. Qed.

Lemma bitrev8_ok b : 0 <= b < 2 ^ 8 ->
  exists r, bitrev8 b = Some r /\ 0 <= r < 2 ^ 8 /\
    forall i, 0 <= i < 8 -> Z.testbit r i = Z.testbit b (7 - i).
Proof.
  intros Hb. pose proof (forallb_seq _ _ bitrev8_table (Z.to_nat b) ltac:(lia)) as H.
  cbv beta in H. rewrite Z2Nat.id in H by lia.
  assert (Hi : forall i, 0 <= i < 8 -> match bitrev8 b with
    | Some r => Z.testbit r i = Z.testbit b (7 - i) /\ 0 <= r < 256 | None => False end).
  { intros i Hi. pose proof (forallb_seq _ _ H (Z.to_nat i) ltac:(lia)) as Hr.
    cbv beta in Hr. rewrite Z2Nat.id in Hr by lia. destruct (bitrev8 b) as [r|]; [|done].
    rewrite !andb_true_iff, eqb_true_iff, Z.leb_le, Z.ltb_lt in Hr. tauto. }
  destruct (bitrev8 b) as [r|]; [|by destruct (Hi 0)].
  exists r. split; [done|]. split; [apply (Hi 0); lia|]. intros i Hr. by apply Hi.
Qed.

Lemma rev_join n x lo hi : 0 <= n -> 0 <= lo < 2 ^ n -> 0 <= hi < 2 ^ n ->
  (forall i, 0 <= i < n -> Z.testbit lo i = Z.testbit x (n - 1 - i)) ->
  (forall i, 0 <= i < n -> Z.testbit hi i = Z.testbit x (2 * n - 1 - i)) ->
  let r := Z.lor (Z.shiftl lo n) hi in
  0 <= r < 2 ^ (2 * n) /\ forall i, 0 <= i < 2 * n -> Z.testbit r i = Z.testbit x (2 * n - 1 - i).
Proof.
  intros Hn Hlo Hhi Elo Ehi r.
  assert (H0 : 0 <= r) by (apply Z.lor_nonneg; split; [apply Z.shiftl_nonneg|]; lia).
  split; [split; [done|]|].
  - apply bits_bound; [lia|done|]. intros i Hi. unfold r. testbits.
    rewrite (testbit_above n lo), (testbit_above n hi) by lia. done.
  - intros i Hi. unfold r. testbits. destruct (Z.lt_ge_cases i n).
    + rewrite Z.testbit_neg_r by lia. simpl. rewrite Ehi by lia. done.
    + rewrite (testbit_above n hi), orb_false_r, Elo by lia. f_equal. lia.
Qed.

Lemma bitrev16_ok x : 0 <= x < 2 ^ 16 ->
  exists r, bitrev16 x = Some r /\ 0 <= r < 2 ^ 16 /\
    forall i, 0 <= i < 16 -> Z.testbit r i = Z.testbit x (15 - i).
Proof.
  intros Hx. unfold bitrev16. change 0xff with (2 ^ 8 - 1).
  rewrite land_ones_mod, Z.shiftr_div_pow2 by lia.
  destruct (bitrev8_ok (x mod 2 ^ 8)) as (lo & -> & Hlo & Elo); [zlia|].
  destruct (bitrev8_ok (x / 2 ^ 8)) as (hi & -> & Hhi & Ehi); [zlia|]. simpl.
  destruct (rev_join 8 x lo hi) as [Hr Er]; try lia.
  - intros i Hi. rewrite Elo, testbit_mod_pow2 by lia. bcases. done.
  - intros i Hi. rewrite Ehi, Z.div_pow2_bits by lia. f_equal. lia.
  - rewrite u16_small by done. eauto.
Qed.

Lemma bitrev32_ok x : 0 <= x < 2 ^ 32 ->
  exists r, bitrev32 x = Some r /\ 0 <= r < 2 ^ 32 /\
    forall i, 0 <= i < 32 -> Z.testbit r i = Z.testbit x (31 - i).
Proof.
  intros Hx. unfold bitrev32. change 0xffff with (2 ^ 16 - 1).
  rewrite land_ones_mod, Z.shiftr_div_pow2 by lia.
  destruct (bitrev16_ok (x mod 2 ^ 16)) as (lo & -> & Hlo & Elo); [zlia|].
  destruct (bitrev16_ok (x / 2 ^ 16)) as (hi & -> & Hhi & Ehi); [zlia|]. simpl.
  destruct (rev_join 16 x lo hi) as [Hr Er]; try lia.
  - intros i Hi. rewrite Elo, testbit_mod_pow2 by lia. bcases. done.
  - intros i Hi. rewrite Ehi, Z.div_pow2_bits by lia. f_equal. lia.
  - rewrite u32_small by done. eauto.
Qed.

(** ** The properties of the component *)

(** the population counts without branches, of all four widths and with
    or without a fast multiplier, return the number of set bits. *)
Theorem hweight_counts fast w :
  (0 <= w < 2 ^ 8 -> __sw_hweight8 w = popcount 8 w) /\
  (0 <= w < 2 ^ 16 -> __sw_hweight16 w = popcount 16 w) /\
  (0 <= w < 2 ^ 32 -> __sw_hweight32 fast w = popcount 32 w) /\
  (0 <= w < 2 ^ 64 -> __sw_hweight64 fast w = popcount 64 w).
Proof.
  split; [apply hweight8_ok|]. split; [apply hweight16_ok|]. split; [apply hweight32_ok|apply hweight64_ok].
Qed.

Lemma hweight_counts_witness : __sw_hweight32 true 0xf00f0001 = popcount 32 0xf00f0001.
Proof. apply (hweight_counts true 0xf00f0001). lia. Defined.

(** the binary searches for a bit: [__ffs] and [ffs] find the lowest set
    bit of a word, [ffz] the lowest clear one, [__fls], [fls] and [fls64] the
    highest set one. *)
Theorem bit_searches_correct w : 0 < w < 2 ^ 32 - 1 ->
  lowest_bit w (__ffs w) /\ ffs w = __ffs w + 1 /\
  (0 <= ffz w < 32 /\ Z.testbit w (ffz w) = false /\ forall i, 0 <= i < ffz w -> Z.testbit w i = true) /\
  __fls w = Z.log2 w /\ fls w = Z.log2 w + 1 /\ fls64 w = Z.log2 w + 1.
Proof.
  intros Hw. pose proof (ffs_lowest w ltac:(lia)) as H1. pose proof (ffs_spec w ltac:(lia)) as H2.
  split; [done|]. split; [pose proof (lowest_bit_unique w _ _ H1 H2); lia|].
  split; [apply ffz_lowest; lia|]. split; [apply __fls_log2; lia|].
  split; [apply fls_log2; lia|apply fls64_log2; lia].
Qed.

Lemma bit_searches_correct_witness :
  lowest_bit 0x00f0 (__ffs 0x00f0) /\ ffs 0x00f0 = __ffs 0x00f0 + 1 /\
  (0 <= ffz 0x00f0 < 32 /\ Z.testbit 0x00f0 (ffz 0x00f0) = false /\
   forall i, 0 <= i < ffz 0x00f0 -> Z.testbit 0x00f0 i = true) /\
  __fls 0x00f0 = Z.log2 0x00f0 /\ fls 0x00f0 = Z.log2 0x00f0 + 1 /\ fls64 0x00f0 = Z.log2 0x00f0 + 1.
Proof. apply (bit_searches_correct 0x00f0). lia. Defined.

(** [bitrev32], composed of table lookups, reverses the bits of a word. *)
Theorem bitrev32_reverses x : 0 <= x < 2 ^ 32 ->
  exists r, bitrev32 x = Some r /\ 0 <= r < 2 ^ 32 /\
    forall i, 0 <= i < 32 -> Z.testbit r i = Z.testbit x (31 - i).
Proof. apply bitrev32_ok. Qed.

Lemma bitrev32_reverses_witness :
  exists r, bitrev32 0x12345678 = Some r /\ 0 <= r < 2 ^ 32 /\
    forall i, 0 <= i < 32 -> Z.testbit r i = Z.testbit 0x12345678 (31 - i).
Proof. apply (bitrev32_reverses 0x12345678). lia. Defined.
