(* ===== verification/Div64.v ===== *)
(** 64-bit division on a 32-bit machine: lib/div64.c with the wrappers of
    include/linux/math64.h and include/asm-generic/div64.h.  Division by zero
    has no result. *)
From S2P Require Import Prelude Bits.

(** [while ((int64_t)b > 0 && b < rem)] *)
Definition div64_scale (rem : Z) : Z * Z -> option (step (Z * Z) (Z * Z)) := fun '(b, d) =>
  if (0 <? s64 b) && (b <? rem) then Some (Next (u64 (b + b), u64 (d + d)))
  else Some (Done (b, d)).

(** The [do ... while (d)] loop; the state is (rem, res, b, d). *)
Definition div64_subtract : Z * Z * Z * Z -> option (step (Z * Z * Z * Z) (Z * Z)) :=
  fun '(rem, res, b, d) =>
    let '(rem, res) := if b <=? rem then (u64 (rem - b), u64 (res + d)) else (rem, res) in
    let b := Z.shiftr b 1 in
    let d := Z.shiftr d 1 in
    if truth d then Some (Next (rem, res, b, d)) else Some (Done (rem, res)).

(** "Reduce the thing a bit first": the new (rem, res). *)
Definition div64_reduce (rem base : Z) : option (Z * Z) :=
  let high := u32 (Z.shiftr rem 32) in
  if base <=? high then
    if base =? 0 then None else
    let high := high / base in
    Some (u64 (rem - u64 (Z.shiftl (u32 (high * base)) 32)), u64 (Z.shiftl high 32))
  else Some (rem, 0).

(** [__div64_32(&n, base)]: the new [*n] and the returned remainder. *)
Definition __div64_32 (n base : Z) : option (Z * Z) :=
  '(rem, res) ← div64_reduce n base;
  '(b, d) ← loop (div64_scale rem) (2 ^ 64 + 1) (base, 1);
  '(rem, res) ← loop div64_subtract (2 ^ 64 + 1) (rem, res, b, d);
  Some (res, u32 rem).

(** The [BITS_PER_LONG == 32] version of [do_div]. *)
Definition do_div (n base : Z) : option (Z * Z) :=
  if Z.shiftr n 32 =? 0 then
    if base =? 0 then None else Some (u32 n / base, u32 n mod base)
  else __div64_32 n base.

Definition div_u64_rem (dividend divisor : Z) : option (Z * Z) := do_div dividend divisor.

Definition div_u64 (dividend divisor : Z) : option Z :=
  '(quot, _) ← div_u64_rem dividend divisor;
  Some quot.

(** [abs] of an [int], as the [long] the macro returns. *)
Definition abs32 (x : Z) : Z := if x <? 0 then s32 (- x) else x.
Definition abs64 (x : Z) : Z := if x <? 0 then s64 (- x) else x.

Definition div_s64_rem (dividend divisor : Z) : option (Z * Z) :=
  if dividend <? 0 then
    '(quotient, remainder) ← div_u64_rem (u64 (s64 (- dividend))) (u32 (abs32 divisor));
    let remainder := s32 (- s32 remainder) in
    let quotient := if 0 <? divisor then u64 (- quotient) else quotient in
    Some (s64 quotient, remainder)
  else
    '(quotient, remainder) ← div_u64_rem (u64 dividend) (u32 (abs32 divisor));
    let quotient := if divisor <? 0 then u64 (- quotient) else quotient in
    Some (s64 quotient, s32 remainder).

Definition div64_u64 (dividend divisor : Z) : option Z :=
  let high := u32 (Z.shiftr divisor 32) in
  if high =? 0 then div_u64 dividend (u32 divisor)
  else
    let n := 1 + fls high in
    quot ← div_u64 (Z.shiftr dividend n) (u32 (Z.shiftr divisor n));
    let quot := if truth quot then u64 (quot - 1) else quot in
    let quot := if divisor <=? u64 (dividend - u64 (quot * divisor)) then u64 (quot + 1) else quot in
    Some quot.

Definition div64_s64 (dividend divisor : Z) : option Z :=
  quot ← div64_u64 (u64 (abs64 dividend)) (u64 (abs64 divisor));
  let quot := s64 quot in
  let t := Z.shiftr (Z.lxor dividend divisor) 63 in
  Some (s64 (Z.lxor quot t - t)).

(** [__iter_div_u64_rem]: the returned [ret] and [*remainder]. *)
Definition iter_div_body (divisor : Z) : Z * Z -> option (step (Z * Z) (Z * Z)) :=
  fun '(dividend, ret) =>
    if divisor <=? dividend then Some (Next (u64 (dividend - divisor), u32 (ret + 1)))
    else Some (Done (ret, dividend)).

Definition __iter_div_u64_rem (dividend divisor : Z) : option (Z * Z) :=
  loop (iter_div_body divisor) (2 ^ 64 + 1) (dividend, 0).

Definition iter_div_u64_rem (dividend divisor : Z) : option (Z * Z) :=
  __iter_div_u64_rem dividend divisor.

Example div64_u64_run : div64_u64 (2 ^ 64 - 1) (2 ^ 32 + 3) = Some (2 ^ 32 - 1).
Proof. vm_compute. reflexivity. Qed.

Example div64_s64_run : div64_s64 (-1000000000000) 7 = Some (-142857142857).
Proof. vm_compute. reflexivity. Qed.

(** ** Proofs: 64 by 32 bits *)

Lemma div64_scale_ok rem base : 0 <= rem < 2 ^ 64 -> 0 < base < 2 ^ 32 ->
  exists k, 0 <= k <= 63 /\
    loop (div64_scale rem) (2 ^ 64 + 1) (base, 1) = Some (base * 2 ^ k, 2 ^ k) /\
    base * 2 ^ k < 2 ^ 64 /\ rem < 2 * (base * 2 ^ k).
Proof.
  intros Hr Hb.
  destruct (loop_total (div64_scale rem)
    (fun '(b, d) => exists k, 0 <= k /\ b = base * 2 ^ k /\ d = 2 ^ k /\ b < 2 ^ 64)
    (fun '(b, d) => 2 ^ 64 - b)
    (fun '(b, d) => exists k, 0 <= k /\ b = base * 2 ^ k /\ d = 2 ^ k /\ b < 2 ^ 64 /\ rem < 2 * b))
    with (bound := 2 ^ 64 + 1) (s := (base, 1)) as ([b d] & E & k & Hk & -> & -> & Hlt & Hrem).
  - intros [b d] (k & Hk & -> & -> & Hlt). assert (0 < 2 ^ k) by lia.
    split; [lia|]. unfold div64_scale.
    destruct (_ && _) eqn:Hc.
    + rewrite andb_true_iff, !Z.ltb_lt in Hc. destruct Hc as [Hs Hc].
      assert (base * 2 ^ k < 2 ^ 63) by (unfold s64 in Hs; zlia).
      rewrite !u64_small by nia. split; [|nia].
      exists (k + 1). rewrite pow2_double by lia. repeat split; lia.
    + exists k. repeat split; try lia.
      rewrite andb_false_iff, !Z.ltb_ge in Hc. destruct Hc as [Hs|]; [|lia].
      unfold s64 in Hs. zlia.
  - exists 0. repeat split; lia.
  - lia.
  - exists k. split; [|done]. split; [done|].
    destruct (Z.lt_ge_cases 63 k); [|done].
    assert (2 ^ 64 <= 2 ^ k) by (apply Z.pow_le_mono_r; lia). nia.
Qed.

Definition div64_inv (n base : Z) : Z * Z * Z * Z -> Prop := fun '(rem, res, b, d) =>
  exists k, 0 <= k /\ b = base * 2 ^ k /\ d = 2 ^ k /\ b < 2 ^ 64 /\
    0 <= rem < 2 * b /\ 0 <= res /\ n = rem + res * base.

(** Halving [b] and [d] after the comparison with [b]. *)
Lemma div64_halve n base rem res k : 0 < base -> 0 <= k -> base * 2 ^ k < 2 ^ 64 ->
  0 <= rem < base * 2 ^ k -> 0 <= res -> n = rem + res * base ->
  let b := Z.shiftr (base * 2 ^ k) 1 in
  let d := Z.shiftr (2 ^ k) 1 in
  if truth d then div64_inv n base (rem, res, b, d) /\ d < 2 ^ k
  else 0 <= rem < base /\ n = rem + res * base.
Proof.
  intros Hb Hk Hlt Hrem Hres E b d. unfold b, d. rewrite !Z.shiftr_div_pow2 by lia.
  change (2 ^ 1) with 2. destruct (decide (k = 0)) as [->|Hk0].
  - rewrite Z.pow_0_r, Z.mul_1_r in *. done.
  - assert (Hd : 2 ^ k = 2 ^ (k - 1) * 2) by (rewrite Z.mul_comm, <-pow2_double by lia; f_equal; lia).
    assert (0 < 2 ^ (k - 1)) by lia. rewrite Hd, Z.mul_assoc, !Z.div_mul by lia.
    rewrite truth_nz by lia. split; [|lia]. exists (k - 1). repeat split; lia.
Qed.

Lemma div64_subtract_step n base s : 0 < base -> 0 <= n < 2 ^ 64 -> div64_inv n base s ->
  body_ok div64_subtract (div64_inv n base) (fun '(_, _, _, d) => d)
    (fun '(rem, res) => 0 <= rem < base /\ n = rem + res * base) s.
Proof.
  intros Hb Hn. destruct s as [[[rem res] b] d].
  intros (k & Hk & -> & -> & Hlt & Hrem & Hres & E).
  assert (Hp : 0 < 2 ^ k) by lia. split; [lia|]. unfold div64_subtract.
  destruct (Z.leb_spec (base * 2 ^ k) rem).
  - rewrite !u64_small by nia.
    pose proof (div64_halve n base (rem - base * 2 ^ k) (res + 2 ^ k) k Hb Hk Hlt) as H'.
    cbv zeta in H'. destruct (truth _); apply H'; lia.
  - pose proof (div64_halve n base rem res k Hb Hk Hlt) as H'.
    cbv zeta in H'. destruct (truth _); apply H'; lia.
Qed.

Lemma div64_subtract_ok base n rem res k : 0 < base < 2 ^ 32 -> 0 <= n < 2 ^ 64 ->
  0 <= k <= 63 -> 0 <= rem < 2 * (base * 2 ^ k) -> 0 <= res -> n = rem + res * base ->
  base * 2 ^ k < 2 ^ 64 ->
  loop div64_subtract (2 ^ 64 + 1) (rem, res, base * 2 ^ k, 2 ^ k) = Some (n mod base, n / base).
Proof.
  intros Hb Hn Hk Hrem Hres E Hlt.
  destruct (loop_total div64_subtract (div64_inv n base) (fun '(_, _, _, d) => d)
    (fun '(rem, res) => 0 <= rem < base /\ n = rem + res * base))
    with (bound := 2 ^ 64 + 1) (s := (rem, res, base * 2 ^ k, 2 ^ k)) as ([r q] & -> & Hr & Hq).
  - intros s. apply div64_subtract_step; lia.
  - exists k. repeat split; lia.
  - nia.
  - do 2 f_equal; [apply (Z.mod_unique n base q r)|apply (Z.div_unique n base q r)]; lia.
Qed.

Lemma div64_reduce_ok n base : 0 <= n < 2 ^ 64 -> 0 < base < 2 ^ 32 ->
  exists rem res, div64_reduce n base = Some (rem, res) /\
    0 <= rem < 2 ^ 64 /\ 0 <= res /\ n = rem + res * base.
Proof.
  intros Hn Hb. unfold div64_reduce. assert (Hh : 0 <= n / 2 ^ 32 < 2 ^ 32) by zlia.
  rewrite Z.shiftr_div_pow2, u32_small by lia.
  destruct (Z.leb_spec base (n / 2 ^ 32)); [|exists n, 0; repeat split; lia].
  destruct (Z.eqb_spec base 0); [lia|]. cbv zeta.
  set (h := n / 2 ^ 32) in *. set (q := h / base).
  assert (Hq : 0 <= q /\ q * base <= h) by (unfold q; zlia).
  assert (Hh2 : h * 2 ^ 32 <= n) by (unfold h; zlia).
  rewrite !Z.shiftl_mul_pow2 by lia. rewrite (u32_small (q * base)) by nia.
  rewrite (u64_small (q * base * _)) by nia. rewrite !u64_small by nia.
  exists (n - q * base * 2 ^ 32), (q * 2 ^ 32). repeat split; nia.
Qed.

Lemma div64_32_ok n base : 0 <= n < 2 ^ 64 -> 0 < base < 2 ^ 32 ->
  __div64_32 n base = Some (n / base, n mod base).
Proof.
  intros Hn Hb. unfold __div64_32.
  destruct (div64_reduce_ok n base Hn Hb) as (rem & res & -> & Hrem & Hres & Hn'). simpl.
  destruct (div64_scale_ok rem base Hrem Hb) as (k & Hk & -> & Hlt & Hr). simpl.
  rewrite (div64_subtract_ok base n) by lia. simpl.
  pose proof (Z.mod_pos_bound n base ltac:(lia)). by rewrite u32_small by lia.
Qed.

Lemma do_div_ok n base : 0 <= n < 2 ^ 64 -> 0 < base < 2 ^ 32 ->
  do_div n base = Some (n / base, n mod base).
Proof.
  intros Hn Hb. unfold do_div. rewrite Z.shiftr_div_pow2 by lia.
  destruct (Z.eqb_spec (n / 2 ^ 32) 0) as [E|E]; [|by apply div64_32_ok].
  destruct (Z.eqb_spec base 0); [lia|]. rewrite u32_small by zlia. done.
Qed.

Lemma div_u64_ok n base : 0 <= n < 2 ^ 64 -> 0 < base < 2 ^ 32 -> div_u64 n base = Some (n / base).
Proof. intros. unfold div_u64, div_u64_rem. by rewrite do_div_ok. Qed.

(** ** Proofs: signed 64 by 32 bits *)

Lemma quot_sign a b : b <> 0 ->
  Z.quot a b = Z.sgn a * Z.sgn b * (Z.abs a / Z.abs b) /\ Z.rem a b = Z.sgn a * (Z.abs a mod Z.abs b).
Proof.
  intros Hb. destruct (Z.eqb_spec a 0) as [->|Ha].
  { rewrite Z.quot_0_l, Z.rem_0_l by done. simpl. lia. }
  split; [by apply Z.quot_div|by apply Z.rem_mod].
Qed.

Lemma abs32_u32 x : - 2 ^ 31 <= x < 2 ^ 31 -> u32 (abs32 x) = Z.abs x.
Proof. intros. unfold abs32, s32, u32. bcases; zlia. Qed.

Lemma abs64_u64 x : - 2 ^ 63 <= x < 2 ^ 63 -> u64 (abs64 x) = Z.abs x.
Proof. intros. unfold abs64, s64, u64. bcases; zlia. Qed.

Lemma s64_u64 x : s64 (u64 x) = s64 x.
Proof. unfold s64, u64. by rewrite Zplus_mod_idemp_l. Qed.

Lemma div_s64_rem_ok a b : - 2 ^ 63 <= a < 2 ^ 63 -> - 2 ^ 31 <= b < 2 ^ 31 -> b <> 0 ->
  div_s64_rem a b = Some (s64 (Z.quot a b), Z.rem a b).
Proof.
  intros Ha Hb Hb0. unfold div_s64_rem, div_u64_rem.
  destruct (quot_sign a b Hb0) as [-> ->]. rewrite abs32_u32 by done.
  pose proof (Z.mod_pos_bound (Z.abs a) (Z.abs b) ltac:(lia)) as Hm.
  destruct (Z.ltb_spec a 0).
  - assert (E : u64 (s64 (- a)) = Z.abs a) by (unfold u64, s64; zlia).
    rewrite E, do_div_ok by lia. simpl. rewrite !s32_small by (rewrite ?s32_small by lia; lia).
    replace (Z.sgn a) with (-1) by lia. f_equal. apply (f_equal2 pair); [|lia].
    destruct (Z.ltb_spec 0 b).
    + rewrite s64_u64. f_equal. replace (Z.sgn b) with 1 by lia. lia.
    + f_equal. replace (Z.sgn b) with (-1) by lia. lia.
  - rewrite u64_small by lia. replace a with (Z.abs a) at 1 by lia.
    rewrite do_div_ok by lia. simpl. rewrite !s32_small by lia.
    f_equal. apply (f_equal2 pair).
    + destruct (Z.eqb_spec a 0) as [->|].
      { rewrite Z.div_0_l by lia. bcases; done. }
      replace (Z.sgn a) with 1 by lia. destruct (Z.ltb_spec b 0).
      * rewrite s64_u64. f_equal. replace (Z.sgn b) with (-1) by lia. lia.
      * f_equal. replace (Z.sgn b) with 1 by lia. lia.
    + destruct (Z.eqb_spec a 0) as [->|]; [by rewrite Z.mod_0_l by lia|].
      replace (Z.sgn a) with 1 by lia. lia.
Qed.

(** ** Proofs: 64 by 64 bits *)

(** Dropping the low [n] bits of both operands gives a quotient that is right
    or one too large, as long as the bits dropped from the divisor weigh less
    than the divisor itself. *)
Lemma scaled_div u v s : 0 <= u -> 0 < s -> 0 < v / s ->
  let q0 := u / s / (v / s) in
  (q0 - 1) * (v mod s) <= v / s * s ->
  u / v <= q0 <= u / v + 1.
Proof.
  intros Hu Hs Hv' q0 Hrho.
  pose proof (Z.div_mod u s ltac:(lia)) as Du. pose proof (Z.mod_pos_bound u s Hs) as Mu.
  pose proof (Z.div_mod v s ltac:(lia)) as Dv. pose proof (Z.mod_pos_bound v s Hs) as Mv.
  pose proof (Z.div_mod (u / s) (v / s) ltac:(lia)) as Dq. fold q0 in Dq.
  pose proof (Z.mod_pos_bound (u / s) (v / s) Hv') as Mq.
  assert (Hv : 0 < v) by nia.
  split.
  - unfold q0. apply Z.div_le_lower_bound; [lia|].
    apply Z.div_le_lower_bound; [lia|].
    pose proof (Z.mul_div_le u v Hv). pose proof (Z.div_pos u v Hu Hv). nia.
  - enough (q0 - 1 <= u / v) by lia. apply Z.div_le_lower_bound; [lia|].
    set (u' := u / s) in *. set (v' := v / s) in *. set (rho := v mod s) in *.
    assert (q0 * v' * s <= u) by nia. nia.
Qed.

Lemma div64_u64_adjust u v q0 : 0 <= u < 2 ^ 64 -> 2 ^ 32 <= v < 2 ^ 64 ->
  u / v <= q0 <= u / v + 1 ->
  let q1 := if truth q0 then u64 (q0 - 1) else q0 in
  (if v <=? u64 (u - u64 (q1 * v)) then u64 (q1 + 1) else q1) = u / v.
Proof.
  intros Hu Hv Hq q1.
  pose proof (Z.div_mod u v ltac:(lia)) as D. pose proof (Z.mod_pos_bound u v ltac:(lia)) as M.
  pose proof (Z.div_pos u v ltac:(lia) ltac:(lia)) as Hpos.
  assert (Hsmall : u / v < 2 ^ 32) by (apply Z.div_lt_upper_bound; nia).
  set (q := u / v) in *. assert (Hq1 : q1 = q \/ (q1 = q - 1 /\ 1 <= q)).
  { unfold q1. destruct (truth q0) eqn:Et; [rewrite u64_small; apply truth_true in Et; lia|].
    apply truth_false in Et. lia. }
  destruct Hq1 as [->|[-> Hge]].
  - rewrite (u64_small (q * v)), u64_small by nia.
    destruct (Z.leb_spec v (u - q * v)); [nia|done].
  - rewrite (u64_small ((q - 1) * v)), (u64_small (u - _)) by nia.
    destruct (Z.leb_spec v (u - (q - 1) * v)); [rewrite u64_small by lia; lia|nia].
Qed.

Lemma div64_u64_ok u v : 0 <= u < 2 ^ 64 -> 0 < v < 2 ^ 64 ->
  v < 2 ^ 32 \/ 2 ^ 34 <= v \/ u < 2 ^ 62 ->
  div64_u64 u v = Some (u / v).
Proof.
  intros Hu Hv Hcase. unfold div64_u64.
  assert (Hh : 0 <= v / 2 ^ 32 < 2 ^ 32) by zlia.
  rewrite !Z.shiftr_div_pow2, u32_small by lia.
  destruct (Z.eqb_spec (v / 2 ^ 32) 0) as [E|E].
  { rewrite u32_small by zlia. apply div_u64_ok; [done|zlia]. }
  assert (Hv32 : 2 ^ 32 <= v) by zlia.
  rewrite fls_log2 by lia. set (f := Z.log2 (v / 2 ^ 32)).
  assert (Hf : 2 ^ f <= v / 2 ^ 32 < 2 ^ (f + 1)) by (apply Z.log2_spec; lia).
  assert (Hf0 : 0 <= f < 32).
  { split; [apply Z.log2_nonneg|]. apply Z.log2_lt_pow2; lia. }
  replace (1 + (f + 1)) with (f + 2) by lia.
  rewrite !Z.shiftr_div_pow2 by lia.
  assert (Hs : 2 ^ (f + 2) = 4 * 2 ^ f) by (rewrite Z.pow_add_r by lia; lia).
  assert (Hs' : 2 ^ (f + 1) = 2 * 2 ^ f) by (rewrite Z.pow_add_r by lia; lia).
  rewrite Hs, Hs' in *. set (h := 2 ^ f) in *. assert (Hh0 : 0 < h) by (unfold h; lia).
  assert (Hvb : h * 2 ^ 32 <= v < 2 * h * 2 ^ 32) by zlia.
  assert (Hv' : 2 ^ 30 <= v / (4 * h) < 2 ^ 31).
  { split; [apply Z.div_le_lower_bound; lia|apply Z.div_lt_upper_bound; lia]. }
  assert (Hu' : 0 <= u / (4 * h) < 2 ^ 64).
  { split; [apply Z.div_pos; lia|apply Z.div_lt_upper_bound; nia]. }
  rewrite (u32_small (v / (4 * h))), div_u64_ok by lia. cbn [mbind option_bind].
  f_equal. apply div64_u64_adjust; [lia..|]. apply scaled_div; [lia..|].
  pose proof (Z.mod_pos_bound v (4 * h) ltac:(lia)) as Mv.
  set (q0 := u / (4 * h) / (v / (4 * h))).
  assert (Hq0 : q0 <= 2 ^ 30).
  { unfold q0. apply Z.div_le_upper_bound; [lia|]. apply Z.div_le_upper_bound; [lia|].
    destruct Hcase as [|[Hbig|Hsm]]; [lia| |nia].
    assert (4 <= h); [|nia].
    assert (2 <= f); [|change 4 with (2 ^ 2); apply Z.pow_le_mono_r; lia].
    apply Z.log2_le_pow2; [lia|]. apply Z.div_le_lower_bound; lia. }
  assert (0 <= q0) by (unfold q0; apply Z.div_pos; [lia|lia]). nia.
Qed.

Lemma div64_u64_wrong : div64_u64 (2 ^ 64 - 1) (2 ^ 32 + 3) = Some (2 ^ 32 - 1) /\
  (2 ^ 64 - 1) / (2 ^ 32 + 3) = 2 ^ 32 - 3.
Proof. vm_compute. done. Qed.

Lemma lxor_sign a b : - 2 ^ 63 <= a < 2 ^ 63 -> - 2 ^ 63 <= b < 2 ^ 63 ->
  Z.shiftr (Z.lxor a b) 63 = if Bool.eqb (a <? 0) (b <? 0) then 0 else -1.
Proof.
  intros Ha Hb. rewrite Z.shiftr_lxor.
  assert (H : forall x, - 2 ^ 63 <= x < 2 ^ 63 -> Z.shiftr x 63 = if x <? 0 then -1 else 0).
  { intros x Hx. rewrite Z.shiftr_div_pow2 by lia. bcases; zlia. }
  rewrite !H by done. by destruct (a <? 0), (b <? 0).
Qed.

Lemma div64_s64_ok a b : - 2 ^ 62 < a < 2 ^ 62 -> - 2 ^ 63 <= b < 2 ^ 63 -> b <> 0 ->
  div64_s64 a b = Some (Z.quot a b).
Proof.
  intros Ha Hb Hb0. unfold div64_s64.
  rewrite !abs64_u64, div64_u64_ok by lia. cbn [mbind option_bind].
  destruct (quot_sign a b Hb0) as [-> _]. rewrite lxor_sign by lia. f_equal.
  pose proof (Z.div_pos (Z.abs a) (Z.abs b) ltac:(lia) ltac:(lia)).
  assert (Z.abs a / Z.abs b <= Z.abs a) by (apply Z.div_le_upper_bound; nia).
  rewrite (s64_small (Z.abs a / Z.abs b)) by lia. set (q := Z.abs a / Z.abs b) in *.
  destruct (Z.ltb_spec a 0), (Z.ltb_spec b 0); cbn [Bool.eqb];
    rewrite ?Z.lxor_0_r, ?Z.lxor_m1_r; unfold Z.lnot;
    rewrite s64_small by lia; try lia.
Qed.

Lemma iter_div_ok dividend divisor : 0 <= dividend < 2 ^ 64 -> 0 < divisor < 2 ^ 32 ->
  __iter_div_u64_rem dividend divisor = Some (u32 (dividend / divisor), dividend mod divisor).
Proof.
  intros Hd Hb. unfold __iter_div_u64_rem.
  destruct (loop_total (iter_div_body divisor)
    (fun '(n, ret) => exists q, 0 <= n < 2 ^ 64 /\ 0 <= q /\ dividend = n + q * divisor /\ ret = u32 q)
    (fun '(n, _) => n)
    (fun '(ret, n) => exists q, 0 <= n < divisor /\ dividend = n + q * divisor /\ ret = u32 q))
    with (bound := 2 ^ 64 + 1) (s := (dividend, 0)) as ([ret n] & -> & q & Hn & E & ->).
  - intros [n ret] (q & Hn & Hq & E & ->). split; [lia|]. unfold iter_div_body.
    destruct (Z.leb_spec divisor n).
    + rewrite u64_small by lia. split; [|lia]. exists (q + 1).
      repeat split; try lia. unfold u32. by rewrite Zplus_mod_idemp_l.
    + exists q. repeat split; lia.
  - exists 0. repeat split; lia.
  - lia.
  - rewrite (Z.div_unique dividend divisor q n), (Z.mod_unique dividend divisor q n) by lia. done.
Qed.

(** ** The properties of the component *)

(** the shift-and-subtract division of a 64-bit by a 32-bit number, and
    [do_div] on top of it, leave the quotient and return the remainder. *)
Theorem do_div_correct n base : 0 <= n < 2 ^ 64 -> 0 < base < 2 ^ 32 ->
  __div64_32 n base = Some (n / base, n mod base) /\ do_div n base = Some (n / base, n mod base).
Proof. intros. split; [by apply div64_32_ok|by apply do_div_ok]. Qed.

Lemma do_div_correct_witness :
  __div64_32 (2 ^ 64 - 1) 1000000007 = Some ((2 ^ 64 - 1) / 1000000007, (2 ^ 64 - 1) mod 1000000007) /\
  do_div (2 ^ 64 - 1) 1000000007 = Some ((2 ^ 64 - 1) / 1000000007, (2 ^ 64 - 1) mod 1000000007).
Proof. apply (do_div_correct (2 ^ 64 - 1) 1000000007); lia. Defined.

(** [div_s64_rem] truncates towards zero and its remainder has the sign
    of the dividend, as C division does. *)
Theorem div_s64_rem_truncates a b : - 2 ^ 63 <= a < 2 ^ 63 -> - 2 ^ 31 <= b < 2 ^ 31 -> b <> 0 ->
  div_s64_rem a b = Some (s64 (Z.quot a b), Z.rem a b).
Proof. apply div_s64_rem_ok. Qed.

Lemma div_s64_rem_truncates_witness : div_s64_rem (-7) 2 = Some (s64 (Z.quot (-7) 2), Z.rem (-7) 2).
Proof. apply (div_s64_rem_truncates (-7) 2); lia. Defined.

(** the scaled division [div64_u64] of two 64-bit numbers is exact when
    the divisor fits 32 bits, or is at least 2^34, or the dividend is below
    2^62. *)
Theorem div64_u64_exact u v : 0 <= u < 2 ^ 64 -> 0 < v < 2 ^ 64 ->
  v < 2 ^ 32 \/ 2 ^ 34 <= v \/ u < 2 ^ 62 -> div64_u64 u v = Some (u / v).
Proof. apply div64_u64_ok. Qed.

Lemma div64_u64_exact_witness : div64_u64 (2 ^ 64 - 1) (2 ^ 40 + 1) = Some ((2 ^ 64 - 1) / (2 ^ 40 + 1)).
Proof. apply (div64_u64_exact (2 ^ 64 - 1) (2 ^ 40 + 1)); lia. Defined.

(** outside those bounds [div64_u64] can be wrong by more than one: for
    2^64 - 1 over 2^32 + 3 it is two too large. *)
Theorem div64_u64_inexact : div64_u64 (2 ^ 64 - 1) (2 ^ 32 + 3) = Some ((2 ^ 64 - 1) / (2 ^ 32 + 3) + 2).
Proof. vm_compute. reflexivity. Qed.
