(* ===== verification/Crc.v ===== *)
(** Cyclic redundancy checks: the table-driven CRCs of lib/ and the tables
    themselves.  The reference for each is the register shifted one bit at a
    time ([lsb_step], [msb_step]); the theorems say that every table holds
    eight such steps of each byte and that every byte- or word-at-a-time loop
    computes the same value as the bit-at-a-time one. *)
From S2P Require Import Prelude.

(** [while (len--) crc = f(crc, *buffer++);] *)
Fixpoint over_buffer (f : Z -> Z -> option Z) (crc : Z) (buffer : list Z) (len : nat) {struct len} : option Z :=
  match len with
  | O => Some crc
  | S len =>
      match buffer with
      | [] => None
      | b :: rest => crc' ← f crc b; over_buffer f crc' rest len
      end
  end.

(** ** lib/crc16.c, include/linux/crc16.h *)

Definition crc16_table : list Z := [
  0x0000; 0xC0C1; 0xC181; 0x0140; 0xC301; 0x03C0; 0x0280; 0xC241;
  0xC601; 0x06C0; 0x0780; 0xC741; 0x0500; 0xC5C1; 0xC481; 0x0440;
  0xCC01; 0x0CC0; 0x0D80; 0xCD41; 0x0F00; 0xCFC1; 0xCE81; 0x0E40;
  0x0A00; 0xCAC1; 0xCB81; 0x0B40; 0xC901; 0x09C0; 0x0880; 0xC841;
  0xD801; 0x18C0; 0x1980; 0xD941; 0x1B00; 0xDBC1; 0xDA81; 0x1A40;
  0x1E00; 0xDEC1; 0xDF81; 0x1F40; 0xDD01; 0x1DC0; 0x1C80; 0xDC41;
  0x1400; 0xD4C1; 0xD581; 0x1540; 0xD701; 0x17C0; 0x1680; 0xD641;
  0xD201; 0x12C0; 0x1380; 0xD341; 0x1100; 0xD1C1; 0xD081; 0x1040;
  0xF001; 0x30C0; 0x3180; 0xF141; 0x3300; 0xF3C1; 0xF281; 0x3240;
  0x3600; 0xF6C1; 0xF781; 0x3740; 0xF501; 0x35C0; 0x3480; 0xF441;
  0x3C00; 0xFCC1; 0xFD81; 0x3D40; 0xFF01; 0x3FC0; 0x3E80; 0xFE41;
  0xFA01; 0x3AC0; 0x3B80; 0xFB41; 0x3900; 0xF9C1; 0xF881; 0x3840;
  0x2800; 0xE8C1; 0xE981; 0x2940; 0xEB01; 0x2BC0; 0x2A80; 0xEA41;
  0xEE01; 0x2EC0; 0x2F80; 0xEF41; 0x2D00; 0xEDC1; 0xEC81; 0x2C40;
  0xE401; 0x24C0; 0x2580; 0xE541; 0x2700; 0xE7C1; 0xE681; 0x2640;
  0x2200; 0xE2C1; 0xE381; 0x2340; 0xE101; 0x21C0; 0x2080; 0xE041;
  0xA001; 0x60C0; 0x6180; 0xA141; 0x6300; 0xA3C1; 0xA281; 0x6240;
  0x6600; 0xA6C1; 0xA781; 0x6740; 0xA501; 0x65C0; 0x6480; 0xA441;
  0x6C00; 0xACC1; 0xAD81; 0x6D40; 0xAF01; 0x6FC0; 0x6E80; 0xAE41;
  0xAA01; 0x6AC0; 0x6B80; 0xAB41; 0x6900; 0xA9C1; 0xA881; 0x6840;
  0x7800; 0xB8C1; 0xB981; 0x7940; 0xBB01; 0x7BC0; 0x7A80; 0xBA41;
  0xBE01; 0x7EC0; 0x7F80; 0xBF41; 0x7D00; 0xBDC1; 0xBC81; 0x7C40;
  0xB401; 0x74C0; 0x7580; 0xB541; 0x7700; 0xB7C1; 0xB681; 0x7640;
  0x7200; 0xB2C1; 0xB381; 0x7340; 0xB101; 0x71C0; 0x7080; 0xB041;
  0x5000; 0x90C1; 0x9181; 0x5140; 0x9301; 0x53C0; 0x5280; 0x9241;
  0x9601; 0x56C0; 0x5780; 0x9741; 0x5500; 0x95C1; 0x9481; 0x5440;
  0x9C01; 0x5CC0; 0x5D80; 0x9D41; 0x5F00; 0x9FC1; 0x9E81; 0x5E40;
  0x5A00; 0x9AC1; 0x9B81; 0x5B40; 0x9901; 0x59C0; 0x5880; 0x9841;
  0x8801; 0x48C0; 0x4980; 0x8941; 0x4B00; 0x8BC1; 0x8A81; 0x4A40;
  0x4E00; 0x8EC1; 0x8F81; 0x4F40; 0x8D01; 0x4DC0; 0x4C80; 0x8C41;
  0x4400; 0x84C1; 0x8581; 0x4540; 0x8701; 0x47C0; 0x4680; 0x8641;
  0x8201; 0x42C0; 0x4380; 0x8341; 0x4100; 0x81C1; 0x8081; 0x4040
].

Definition crc16_byte (crc data : Z) : option Z :=
  t ← crc16_table.[Z.land (Z.lxor crc data) 0xff];
  Some (u16 (Z.lxor (Z.shiftr crc 8) t)).

Definition crc16 (crc : Z) (buffer : list Z) (len : nat) : option Z :=
  over_buffer crc16_byte crc buffer len.

(** ** lib/crc-ccitt.c, include/linux/crc-ccitt.h *)

Definition crc_ccitt_table : list Z := [
  0x0000; 0x1189; 0x2312; 0x329b; 0x4624; 0x57ad; 0x6536; 0x74bf;
  0x8c48; 0x9dc1; 0xaf5a; 0xbed3; 0xca6c; 0xdbe5; 0xe97e; 0xf8f7;
  0x1081; 0x0108; 0x3393; 0x221a; 0x56a5; 0x472c; 0x75b7; 0x643e;
  0x9cc9; 0x8d40; 0xbfdb; 0xae52; 0xdaed; 0xcb64; 0xf9ff; 0xe876;
  0x2102; 0x308b; 0x0210; 0x1399; 0x6726; 0x76af; 0x4434; 0x55bd;
  0xad4a; 0xbcc3; 0x8e58; 0x9fd1; 0xeb6e; 0xfae7; 0xc87c; 0xd9f5;
  0x3183; 0x200a; 0x1291; 0x0318; 0x77a7; 0x662e; 0x54b5; 0x453c;
  0xbdcb; 0xac42; 0x9ed9; 0x8f50; 0xfbef; 0xea66; 0xd8fd; 0xc974;
  0x4204; 0x538d; 0x6116; 0x709f; 0x0420; 0x15a9; 0x2732; 0x36bb;
  0xce4c; 0xdfc5; 0xed5e; 0xfcd7; 0x8868; 0x99e1; 0xab7a; 0xbaf3;
  0x5285; 0x430c; 0x7197; 0x601e; 0x14a1; 0x0528; 0x37b3; 0x263a;
  0xdecd; 0xcf44; 0xfddf; 0xec56; 0x98e9; 0x8960; 0xbbfb; 0xaa72;
  0x6306; 0x728f; 0x4014; 0x519d; 0x2522; 0x34ab; 0x0630; 0x17b9;
  0xef4e; 0xfec7; 0xcc5c; 0xddd5; 0xa96a; 0xb8e3; 0x8a78; 0x9bf1;
  0x7387; 0x620e; 0x5095; 0x411c; 0x35a3; 0x242a; 0x16b1; 0x0738;
  0xffcf; 0xee46; 0xdcdd; 0xcd54; 0xb9eb; 0xa862; 0x9af9; 0x8b70;
  0x8408; 0x9581; 0xa71a; 0xb693; 0xc22c; 0xd3a5; 0xe13e; 0xf0b7;
  0x0840; 0x19c9; 0x2b52; 0x3adb; 0x4e64; 0x5fed; 0x6d76; 0x7cff;
  0x9489; 0x8500; 0xb79b; 0xa612; 0xd2ad; 0xc324; 0xf1bf; 0xe036;
  0x18c1; 0x0948; 0x3bd3; 0x2a5a; 0x5ee5; 0x4f6c; 0x7df7; 0x6c7e;
  0xa50a; 0xb483; 0x8618; 0x9791; 0xe32e; 0xf2a7; 0xc03c; 0xd1b5;
  0x2942; 0x38cb; 0x0a50; 0x1bd9; 0x6f66; 0x7eef; 0x4c74; 0x5dfd;
  0xb58b; 0xa402; 0x9699; 0x8710; 0xf3af; 0xe226; 0xd0bd; 0xc134;
  0x39c3; 0x284a; 0x1ad1; 0x0b58; 0x7fe7; 0x6e6e; 0x5cf5; 0x4d7c;
  0xc60c; 0xd785; 0xe51e; 0xf497; 0x8028; 0x91a1; 0xa33a; 0xb2b3;
  0x4a44; 0x5bcd; 0x6956; 0x78df; 0x0c60; 0x1de9; 0x2f72; 0x3efb;
  0xd68d; 0xc704; 0xf59f; 0xe416; 0x90a9; 0x8120; 0xb3bb; 0xa232;
  0x5ac5; 0x4b4c; 0x79d7; 0x685e; 0x1ce1; 0x0d68; 0x3ff3; 0x2e7a;
  0xe70e; 0xf687; 0xc41c; 0xd595; 0xa12a; 0xb0a3; 0x8238; 0x93b1;
  0x6b46; 0x7acf; 0x4854; 0x59dd; 0x2d62; 0x3ceb; 0x0e70; 0x1ff9;
  0xf78f; 0xe606; 0xd49d; 0xc514; 0xb1ab; 0xa022; 0x92b9; 0x8330;
  0x7bc7; 0x6a4e; 0x58d5; 0x495c; 0x3de3; 0x2c6a; 0x1ef1; 0x0f78
].

Definition crc_ccitt_byte (crc c : Z) : option Z :=
  t ← crc_ccitt_table.[Z.land (Z.lxor crc c) 0xff];
  Some (u16 (Z.lxor (Z.shiftr crc 8) t)).

Definition crc_ccitt (crc : Z) (buffer : list Z) (len : nat) : option Z :=
  over_buffer crc_ccitt_byte crc buffer len.

(** ** lib/crc-itu-t.c, include/linux/crc-itu-t.h *)

Definition crc_itu_t_table : list Z := [
  0x0000; 0x1021; 0x2042; 0x3063; 0x4084; 0x50a5; 0x60c6; 0x70e7;
  0x8108; 0x9129; 0xa14a; 0xb16b; 0xc18c; 0xd1ad; 0xe1ce; 0xf1ef;
  0x1231; 0x0210; 0x3273; 0x2252; 0x52b5; 0x4294; 0x72f7; 0x62d6;
  0x9339; 0x8318; 0xb37b; 0xa35a; 0xd3bd; 0xc39c; 0xf3ff; 0xe3de;
  0x2462; 0x3443; 0x0420; 0x1401; 0x64e6; 0x74c7; 0x44a4; 0x5485;
  0xa56a; 0xb54b; 0x8528; 0x9509; 0xe5ee; 0xf5cf; 0xc5ac; 0xd58d;
  0x3653; 0x2672; 0x1611; 0x0630; 0x76d7; 0x66f6; 0x5695; 0x46b4;
  0xb75b; 0xa77a; 0x9719; 0x8738; 0xf7df; 0xe7fe; 0xd79d; 0xc7bc;
  0x48c4; 0x58e5; 0x6886; 0x78a7; 0x0840; 0x1861; 0x2802; 0x3823;
  0xc9cc; 0xd9ed; 0xe98e; 0xf9af; 0x8948; 0x9969; 0xa90a; 0xb92b;
  0x5af5; 0x4ad4; 0x7ab7; 0x6a96; 0x1a71; 0x0a50; 0x3a33; 0x2a12;
  0xdbfd; 0xcbdc; 0xfbbf; 0xeb9e; 0x9b79; 0x8b58; 0xbb3b; 0xab1a;
  0x6ca6; 0x7c87; 0x4ce4; 0x5cc5; 0x2c22; 0x3c03; 0x0c60; 0x1c41;
  0xedae; 0xfd8f; 0xcdec; 0xddcd; 0xad2a; 0xbd0b; 0x8d68; 0x9d49;
  0x7e97; 0x6eb6; 0x5ed5; 0x4ef4; 0x3e13; 0x2e32; 0x1e51; 0x0e70;
  0xff9f; 0xefbe; 0xdfdd; 0xcffc; 0xbf1b; 0xaf3a; 0x9f59; 0x8f78;
  0x9188; 0x81a9; 0xb1ca; 0xa1eb; 0xd10c; 0xc12d; 0xf14e; 0xe16f;
  0x1080; 0x00a1; 0x30c2; 0x20e3; 0x5004; 0x4025; 0x7046; 0x6067;
  0x83b9; 0x9398; 0xa3fb; 0xb3da; 0xc33d; 0xd31c; 0xe37f; 0xf35e;
  0x02b1; 0x1290; 0x22f3; 0x32d2; 0x4235; 0x5214; 0x6277; 0x7256;
  0xb5ea; 0xa5cb; 0x95a8; 0x8589; 0xf56e; 0xe54f; 0xd52c; 0xc50d;
  0x34e2; 0x24c3; 0x14a0; 0x0481; 0x7466; 0x6447; 0x5424; 0x4405;
  0xa7db; 0xb7fa; 0x8799; 0x97b8; 0xe75f; 0xf77e; 0xc71d; 0xd73c;
  0x26d3; 0x36f2; 0x0691; 0x16b0; 0x6657; 0x7676; 0x4615; 0x5634;
  0xd94c; 0xc96d; 0xf90e; 0xe92f; 0x99c8; 0x89e9; 0xb98a; 0xa9ab;
  0x5844; 0x4865; 0x7806; 0x6827; 0x18c0; 0x08e1; 0x3882; 0x28a3;
  0xcb7d; 0xdb5c; 0xeb3f; 0xfb1e; 0x8bf9; 0x9bd8; 0xabbb; 0xbb9a;
  0x4a75; 0x5a54; 0x6a37; 0x7a16; 0x0af1; 0x1ad0; 0x2ab3; 0x3a92;
  0xfd2e; 0xed0f; 0xdd6c; 0xcd4d; 0xbdaa; 0xad8b; 0x9de8; 0x8dc9;
  0x7c26; 0x6c07; 0x5c64; 0x4c45; 0x3ca2; 0x2c83; 0x1ce0; 0x0cc1;
  0xef1f; 0xff3e; 0xcf5d; 0xdf7c; 0xaf9b; 0xbfba; 0x8fd9; 0x9ff8;
  0x6e17; 0x7e36; 0x4e55; 0x5e74; 0x2e93; 0x3eb2; 0x0ed1; 0x1ef0
].

Definition crc_itu_t_byte (crc data : Z) : option Z :=
  t ← crc_itu_t_table.[Z.land (Z.lxor (Z.shiftr crc 8) data) 0xff];
  Some (u16 (Z.lxor (Z.shiftl crc 8) t)).

Definition crc_itu_t (crc : Z) (buffer : list Z) (len : nat) : option Z :=
  over_buffer crc_itu_t_byte crc buffer len.

(** ** lib/crc-t10dif.c *)

Definition t10_dif_crc_table : list Z := [
  0x0000; 0x8BB7; 0x9CD9; 0x176E; 0xB205; 0x39B2; 0x2EDC; 0xA56B;
  0xEFBD; 0x640A; 0x7364; 0xF8D3; 0x5DB8; 0xD60F; 0xC161; 0x4AD6;
  0x54CD; 0xDF7A; 0xC814; 0x43A3; 0xE6C8; 0x6D7F; 0x7A11; 0xF1A6;
  0xBB70; 0x30C7; 0x27A9; 0xAC1E; 0x0975; 0x82C2; 0x95AC; 0x1E1B;
  0xA99A; 0x222D; 0x3543; 0xBEF4; 0x1B9F; 0x9028; 0x8746; 0x0CF1;
  0x4627; 0xCD90; 0xDAFE; 0x5149; 0xF422; 0x7F95; 0x68FB; 0xE34C;
  0xFD57; 0x76E0; 0x618E; 0xEA39; 0x4F52; 0xC4E5; 0xD38B; 0x583C;
  0x12EA; 0x995D; 0x8E33; 0x0584; 0xA0EF; 0x2B58; 0x3C36; 0xB781;
  0xD883; 0x5334; 0x445A; 0xCFED; 0x6A86; 0xE131; 0xF65F; 0x7DE8;
  0x373E; 0xBC89; 0xABE7; 0x2050; 0x853B; 0x0E8C; 0x19E2; 0x9255;
  0x8C4E; 0x07F9; 0x1097; 0x9B20; 0x3E4B; 0xB5FC; 0xA292; 0x2925;
  0x63F3; 0xE844; 0xFF2A; 0x749D; 0xD1F6; 0x5A41; 0x4D2F; 0xC698;
  0x7119; 0xFAAE; 0xEDC0; 0x6677; 0xC31C; 0x48AB; 0x5FC5; 0xD472;
  0x9EA4; 0x1513; 0x027D; 0x89CA; 0x2CA1; 0xA716; 0xB078; 0x3BCF;
  0x25D4; 0xAE63; 0xB90D; 0x32BA; 0x97D1; 0x1C66; 0x0B08; 0x80BF;
  0xCA69; 0x41DE; 0x56B0; 0xDD07; 0x786C; 0xF3DB; 0xE4B5; 0x6F02;
  0x3AB1; 0xB106; 0xA668; 0x2DDF; 0x88B4; 0x0303; 0x146D; 0x9FDA;
  0xD50C; 0x5EBB; 0x49D5; 0xC262; 0x6709; 0xECBE; 0xFBD0; 0x7067;
  0x6E7C; 0xE5CB; 0xF2A5; 0x7912; 0xDC79; 0x57CE; 0x40A0; 0xCB17;
  0x81C1; 0x0A76; 0x1D18; 0x96AF; 0x33C4; 0xB873; 0xAF1D; 0x24AA;
  0x932B; 0x189C; 0x0FF2; 0x8445; 0x212E; 0xAA99; 0xBDF7; 0x3640;
  0x7C96; 0xF721; 0xE04F; 0x6BF8; 0xCE93; 0x4524; 0x524A; 0xD9FD;
  0xC7E6; 0x4C51; 0x5B3F; 0xD088; 0x75E3; 0xFE54; 0xE93A; 0x628D;
  0x285B; 0xA3EC; 0xB482; 0x3F35; 0x9A5E; 0x11E9; 0x0687; 0x8D30;
  0xE232; 0x6985; 0x7EEB; 0xF55C; 0x5037; 0xDB80; 0xCCEE; 0x4759;
  0x0D8F; 0x8638; 0x9156; 0x1AE1; 0xBF8A; 0x343D; 0x2353; 0xA8E4;
  0xB6FF; 0x3D48; 0x2A26; 0xA191; 0x04FA; 0x8F4D; 0x9823; 0x1394;
  0x5942; 0xD2F5; 0xC59B; 0x4E2C; 0xEB47; 0x60F0; 0x779E; 0xFC29;
  0x4BA8; 0xC01F; 0xD771; 0x5CC6; 0xF9AD; 0x721A; 0x6574; 0xEEC3;
  0xA415; 0x2FA2; 0x38CC; 0xB37B; 0x1610; 0x9DA7; 0x8AC9; 0x017E;
  0x1F65; 0x94D2; 0x83BC; 0x080B; 0xAD60; 0x26D7; 0x31B9; 0xBA0E;
  0xF0D8; 0x7B6F; 0x6C01; 0xE7B6; 0x42DD; 0xC96A; 0xDE04; 0x55B3
].

Definition crc_t10dif_byte (crc b : Z) : option Z :=
  t ← t10_dif_crc_table.[Z.land (Z.lxor (Z.shiftr crc 8) b) 0xff];
  Some (u16 (Z.lxor (Z.shiftl crc 8) t)).

Definition crc_t10dif (buffer : list Z) (len : nat) : option Z :=
  over_buffer crc_t10dif_byte 0 buffer len.

(** ** lib/crc7.c, include/linux/crc7.h *)

Definition crc7_syndrome_table : list Z := [
  0x00; 0x09; 0x12; 0x1b; 0x24; 0x2d; 0x36; 0x3f;
  0x48; 0x41; 0x5a; 0x53; 0x6c; 0x65; 0x7e; 0x77;
  0x19; 0x10; 0x0b; 0x02; 0x3d; 0x34; 0x2f; 0x26;
  0x51; 0x58; 0x43; 0x4a; 0x75; 0x7c; 0x67; 0x6e;
  0x32; 0x3b; 0x20; 0x29; 0x16; 0x1f; 0x04; 0x0d;
  0x7a; 0x73; 0x68; 0x61; 0x5e; 0x57; 0x4c; 0x45;
  0x2b; 0x22; 0x39; 0x30; 0x0f; 0x06; 0x1d; 0x14;
  0x63; 0x6a; 0x71; 0x78; 0x47; 0x4e; 0x55; 0x5c;
  0x64; 0x6d; 0x76; 0x7f; 0x40; 0x49; 0x52; 0x5b;
  0x2c; 0x25; 0x3e; 0x37; 0x08; 0x01; 0x1a; 0x13;
  0x7d; 0x74; 0x6f; 0x66; 0x59; 0x50; 0x4b; 0x42;
  0x35; 0x3c; 0x27; 0x2e; 0x11; 0x18; 0x03; 0x0a;
  0x56; 0x5f; 0x44; 0x4d; 0x72; 0x7b; 0x60; 0x69;
  0x1e; 0x17; 0x0c; 0x05; 0x3a; 0x33; 0x28; 0x21;
  0x4f; 0x46; 0x5d; 0x54; 0x6b; 0x62; 0x79; 0x70;
  0x07; 0x0e; 0x15; 0x1c; 0x23; 0x2a; 0x31; 0x38;
  0x41; 0x48; 0x53; 0x5a; 0x65; 0x6c; 0x77; 0x7e;
  0x09; 0x00; 0x1b; 0x12; 0x2d; 0x24; 0x3f; 0x36;
  0x58; 0x51; 0x4a; 0x43; 0x7c; 0x75; 0x6e; 0x67;
  0x10; 0x19; 0x02; 0x0b; 0x34; 0x3d; 0x26; 0x2f;
  0x73; 0x7a; 0x61; 0x68; 0x57; 0x5e; 0x45; 0x4c;
  0x3b; 0x32; 0x29; 0x20; 0x1f; 0x16; 0x0d; 0x04;
  0x6a; 0x63; 0x78; 0x71; 0x4e; 0x47; 0x5c; 0x55;
  0x22; 0x2b; 0x30; 0x39; 0x06; 0x0f; 0x14; 0x1d;
  0x25; 0x2c; 0x37; 0x3e; 0x01; 0x08; 0x13; 0x1a;
  0x6d; 0x64; 0x7f; 0x76; 0x49; 0x40; 0x5b; 0x52;
  0x3c; 0x35; 0x2e; 0x27; 0x18; 0x11; 0x0a; 0x03;
  0x74; 0x7d; 0x66; 0x6f; 0x50; 0x59; 0x42; 0x4b;
  0x17; 0x1e; 0x05; 0x0c; 0x33; 0x3a; 0x21; 0x28;
  0x5f; 0x56; 0x4d; 0x44; 0x7b; 0x72; 0x69; 0x60;
  0x0e; 0x07; 0x1c; 0x15; 0x2a; 0x23; 0x38; 0x31;
  0x46; 0x4f; 0x54; 0x5d; 0x62; 0x6b; 0x70; 0x79
].

Definition crc7_byte (crc data : Z) : option Z :=
  crc7_syndrome_table.[Z.lxor (Z.shiftl crc 1) data].

Definition crc7 (crc : Z) (buffer : list Z) (len : nat) : option Z :=
  over_buffer crc7_byte crc buffer len.

(** ** lib/crc8.c *)

Definition CRC8_TABLE_SIZE : Z := 256.

(** The inner loops [for (j = from; j < to; j += inc) table[i+j] = table[j] ^ t;] *)
Definition crc8_fill_body (i to inc t : Z) : list Z * Z -> option (step (list Z * Z) (list Z)) :=
  fun '(table, j) =>
    if j <? to then
      x ← table.[j];
      table ← table.[i + j <- Z.lxor x t];
      Some (Next (table, j + inc))
    else Some (Done table).

Definition crc8_msb_body (polynomial : Z) : list Z * Z * Z -> option (step (list Z * Z * Z) (list Z)) :=
  fun '(table, i, t) =>
    if i <? CRC8_TABLE_SIZE then
      let t := u8 (Z.lxor (Z.shiftl t 1) (if truth (Z.land t 0x80) then polynomial else 0)) in
      table ← loop (crc8_fill_body i i 1 t) (CRC8_TABLE_SIZE + 1) (table, 0);
      Some (Next (table, i * 2, t))
    else Some (Done table).

Definition crc8_populate_msb (table : list Z) (polynomial : Z) : option (list Z) :=
  table ← table.[0 <- 0];
  loop (crc8_msb_body polynomial) (CRC8_TABLE_SIZE + 1) (table, 1, 0x80).

Definition crc8_lsb_body (polynomial : Z) : list Z * Z * Z -> option (step (list Z * Z * Z) (list Z)) :=
  fun '(table, i, t) =>
    if truth i then
      let t := u8 (Z.lxor (Z.shiftr t 1) (if truth (Z.land t 1) then polynomial else 0)) in
      table ← loop (crc8_fill_body i CRC8_TABLE_SIZE (2 * i) t) (CRC8_TABLE_SIZE + 1) (table, 0);
      Some (Next (table, Z.shiftr i 1, t))
    else Some (Done table).

Definition crc8_populate_lsb (table : list Z) (polynomial : Z) : option (list Z) :=
  table ← table.[0 <- 0];
  loop (crc8_lsb_body polynomial) (CRC8_TABLE_SIZE + 1) (table, Z.shiftr CRC8_TABLE_SIZE 1, 1).

Definition crc8 (table pdata : list Z) (nbytes : nat) (crc : Z) : option Z :=
  over_buffer (fun crc b => table.[Z.land (Z.lxor crc b) 0xff]) crc pdata nbytes.

(** ** Reference: one bit at a time *)

(** Least significant bit first. *)
Definition lsb_step (poly crc : Z) : Z :=
  Z.lxor (Z.shiftr crc 1) (if Z.testbit crc 0 then poly else 0).

(** Most significant bit first, in a register of [w] bits. *)
Definition msb_step (w poly crc : Z) : Z :=
  Z.lxor ((Z.shiftl crc 1) mod 2 ^ w) (if Z.testbit crc (w - 1) then poly else 0).

Definition lsb8 (poly crc : Z) : Z := Nat.iter 8 (lsb_step poly) crc.
Definition msb8 (w poly crc : Z) : Z := Nat.iter 8 (msb_step w poly) crc.

(** A whole buffer, one bit at a time. *)
Definition crc_lsb (poly crc : Z) (buffer : list Z) : Z :=
  foldl (fun crc b => lsb8 poly (Z.lxor crc b)) crc buffer.
Definition crc_msb (w poly crc : Z) (buffer : list Z) : Z :=
  foldl (fun crc b => msb8 w poly (Z.lxor crc (Z.shiftl b (w - 8)))) crc buffer.

(** ** Proofs: the tables *)

Lemma crc16_table_ok : crc16_table = lsb8 0xa001 <$> range256.
Proof. vm_compute. reflexivity. Qed.
Lemma crc_ccitt_table_ok : crc_ccitt_table = lsb8 0x8408 <$> range256.
Proof. vm_compute. reflexivity. Qed.
Lemma crc_itu_t_table_ok : crc_itu_t_table = (fun i => msb8 16 0x1021 (Z.shiftl i 8)) <$> range256.
Proof. vm_compute. reflexivity. Qed.
Lemma t10_dif_crc_table_ok : t10_dif_crc_table = (fun i => msb8 16 0x8bb7 (Z.shiftl i 8)) <$> range256.
Proof. vm_compute. reflexivity. Qed.
(** A seven-bit register kept in the high bits of a byte. *)
Lemma crc7_table_ok : crc7_syndrome_table = (fun i => Z.shiftr (msb8 8 0x12 i) 1) <$> range256.
Proof. vm_compute. reflexivity. Qed.

(** ** Proofs: the register is linear *)

Lemma lxor_range w a b : 0 <= w -> 0 <= a < 2 ^ w -> 0 <= b < 2 ^ w -> 0 <= Z.lxor a b < 2 ^ w.
Proof.
  intros Hw Ha Hb. assert (0 <= Z.lxor a b) by (apply Z.lxor_nonneg; lia).
  split; [done|]. apply bits_bound; [done..|]. intros i Hi.
  rewrite Z.lxor_spec, !(testbit_above w) by done. done.
Qed.

Lemma lxor_swap a b c d : Z.lxor (Z.lxor a b) (Z.lxor c d) = Z.lxor (Z.lxor a c) (Z.lxor b d).
Proof.
  apply Z.bits_inj'. intros i Hi. testbits.
  by destruct (Z.testbit a i), (Z.testbit b i), (Z.testbit c i), (Z.testbit d i).
Qed.

Lemma choose_lxor (b c : bool) p :
  (if xorb b c then p else 0) = Z.lxor (if b then p else 0) (if c then p else 0).
Proof. destruct b, c; simpl; by rewrite ?Z.lxor_nilpotent, ?Z.lxor_0_r. Qed.

Lemma lsb_step_lxor p a b : lsb_step p (Z.lxor a b) = Z.lxor (lsb_step p a) (lsb_step p b).
Proof.
  unfold lsb_step. rewrite Z.shiftr_lxor, Z.lxor_spec, choose_lxor. apply lxor_swap.
Qed.

Lemma mod_lxor w a b : 0 <= w -> Z.lxor a b mod 2 ^ w = Z.lxor (a mod 2 ^ w) (b mod 2 ^ w).
Proof.
  intros Hw. apply Z.bits_inj'. intros i Hi.
  rewrite Z.lxor_spec, !testbit_mod_pow2, Z.lxor_spec by done. by destruct (i <? w).
Qed.

Lemma msb_step_lxor w p a b : 0 <= w ->
  msb_step w p (Z.lxor a b) = Z.lxor (msb_step w p a) (msb_step w p b).
Proof.
  intros Hw. unfold msb_step. rewrite Z.shiftl_lxor, mod_lxor, Z.lxor_spec, choose_lxor by done.
  apply lxor_swap.
Qed.

Lemma iter_lxor (f : Z -> Z) n : (forall a b, f (Z.lxor a b) = Z.lxor (f a) (f b)) ->
  forall a b, Nat.iter n f (Z.lxor a b) = Z.lxor (Nat.iter n f a) (Nat.iter n f b).
Proof. intros Hf a b. induction n as [|n IH]; simpl; [done|]. by rewrite IH, Hf. Qed.

Lemma lsb_step_even p x : lsb_step p (2 * x) = x.
Proof.
  unfold lsb_step. rewrite Z.testbit_even_0, Z.lxor_0_r, Z.shiftr_div_pow2 by lia.
  change (2 ^ 1) with 2. by rewrite Z.mul_comm, Z.div_mul.
Qed.

Lemma lsb_iter_shift p n x : Nat.iter n (lsb_step p) (x * 2 ^ Z.of_nat n) = x.
Proof.
  revert x. induction n as [|n IH]; intros x; [simpl; lia|].
  rewrite Nat.iter_succ_r, Nat2Z.inj_succ, Z.pow_succ_r by lia.
  replace (x * (2 * 2 ^ Z.of_nat n)) with (2 * (x * 2 ^ Z.of_nat n)) by ring.
  by rewrite lsb_step_even, IH.
Qed.

(** [n] steps at once: the high bits move down, the low [n] bits decide what
    is added. *)
Lemma lsb_iter_split p n x :
  Nat.iter n (lsb_step p) x =
  Z.lxor (Z.shiftr x (Z.of_nat n)) (Nat.iter n (lsb_step p) (x mod 2 ^ Z.of_nat n)).
Proof.
  assert (E : x = Z.lxor (Z.shiftr x (Z.of_nat n) * 2 ^ Z.of_nat n) (x mod 2 ^ Z.of_nat n)).
  { apply Z.bits_inj'. intros i Hi.
    rewrite <-Z.shiftl_mul_pow2, Z.lxor_spec, Z.shiftl_spec, testbit_mod_pow2 by lia.
    destruct (Z.ltb_spec i (Z.of_nat n)).
    - rewrite (Z.testbit_neg_r _ (i - Z.of_nat n)) by lia. simpl. by destruct (Z.testbit x i).
    - rewrite Z.shiftr_spec by lia. replace (i - Z.of_nat n + Z.of_nat n) with i by lia.
      by destruct (Z.testbit x i). }
  rewrite E at 1. rewrite iter_lxor by apply lsb_step_lxor. by rewrite lsb_iter_shift.
Qed.

Lemma lsb_step_range w p x : 1 <= w -> 0 <= p < 2 ^ w -> 0 <= x < 2 ^ w -> 0 <= lsb_step p x < 2 ^ w.
Proof.
  intros Hw Hp Hx. unfold lsb_step. apply lxor_range; [lia| |by destruct (Z.testbit x 0); lia].
  rewrite Z.shiftr_div_pow2 by lia. zlia.
Qed.

Lemma lsb_iter_range w p n x : 1 <= w -> 0 <= p < 2 ^ w -> 0 <= x < 2 ^ w ->
  0 <= Nat.iter n (lsb_step p) x < 2 ^ w.
Proof. intros Hw Hp Hx. induction n as [|n IH]; simpl; [done|]. by apply lsb_step_range. Qed.

Lemma msb_iter_shift w p n x : Z.of_nat n <= w -> 0 <= x < 2 ^ (w - Z.of_nat n) ->
  Nat.iter n (msb_step w p) x = x * 2 ^ Z.of_nat n.
Proof.
  revert x. induction n as [|n IH]; intros x Hn Hx; [simpl; lia|].
  rewrite Nat.iter_succ_r, Nat2Z.inj_succ, Z.pow_succ_r by lia.
  assert (Hd : 2 ^ (w - Z.of_nat n) = 2 * 2 ^ (w - Z.of_nat (S n))).
  { rewrite <-Z.pow_succ_r by lia. f_equal. lia. }
  assert (Hle : 2 ^ (w - Z.of_nat n) <= 2 ^ w) by (apply Z.pow_le_mono_r; lia).
  unfold msb_step at 2. rewrite (testbit_above (w - Z.of_nat (S n)) x) by lia.
  rewrite Z.lxor_0_r, Z.shiftl_mul_pow2, Z.mod_small by lia.
  rewrite IH by lia. ring.
Qed.

Lemma msb_iter_split w p n x : Z.of_nat n <= w -> 0 <= x < 2 ^ w ->
  Nat.iter n (msb_step w p) x =
  Z.lxor (Z.shiftl x (Z.of_nat n) mod 2 ^ w)
         (Nat.iter n (msb_step w p) (Z.shiftl (Z.shiftr x (w - Z.of_nat n)) (w - Z.of_nat n))).
Proof.
  intros Hn Hx. set (k := w - Z.of_nat n).
  assert (E : x = Z.lxor (x mod 2 ^ k) (Z.shiftl (Z.shiftr x k) k)).
  { apply Z.bits_inj'. intros i Hi.
    rewrite Z.lxor_spec, Z.shiftl_spec, testbit_mod_pow2 by lia.
    destruct (Z.ltb_spec i k).
    - rewrite (Z.testbit_neg_r _ (i - k)) by lia. simpl. by destruct (Z.testbit x i).
    - rewrite Z.shiftr_spec by lia. replace (i - k + k) with i by lia.
      by destruct (Z.testbit x i). }
  rewrite E at 1. rewrite iter_lxor by (intros; apply msb_step_lxor; lia). f_equal.
  assert (0 <= x mod 2 ^ k < 2 ^ k) by (apply Z.mod_pos_bound; lia).
  rewrite msb_iter_shift by (fold k; lia). rewrite Z.shiftl_mul_pow2 by lia.
  replace (2 ^ w) with (2 ^ k * 2 ^ Z.of_nat n) by (rewrite <-Z.pow_add_r by lia; f_equal; lia).
  rewrite Z.mul_mod_distr_r by lia. done.
Qed.

Lemma msb_step_range w p x : 0 <= w -> 0 <= p < 2 ^ w -> 0 <= msb_step w p x < 2 ^ w.
Proof.
  intros Hw Hp. unfold msb_step. apply lxor_range; [done|apply Z.mod_pos_bound; lia|].
  by destruct (Z.testbit x (w - 1)); lia.
Qed.

Lemma msb_iter_range w p n x : 0 <= w -> 0 <= p < 2 ^ w ->
  0 <= Nat.iter (S n) (msb_step w p) x < 2 ^ w.
Proof. intros Hw Hp. rewrite Nat.iter_succ. by apply msb_step_range. Qed.

Lemma lsb8_split p x : lsb8 p x = Z.lxor (Z.shiftr x 8) (lsb8 p (x mod 2 ^ 8)).
Proof. exact (lsb_iter_split p 8 x). Qed.

Lemma msb8_split w p x : 8 <= w -> 0 <= x < 2 ^ w ->
  msb8 w p x = Z.lxor (Z.shiftl x 8 mod 2 ^ w) (msb8 w p (Z.shiftl (Z.shiftr x (w - 8)) (w - 8))).
Proof. intros Hw Hx. exact (msb_iter_split w p 8 x Hw Hx). Qed.

Lemma lsb8_range w p x : 1 <= w -> 0 <= p < 2 ^ w -> 0 <= x < 2 ^ w -> 0 <= lsb8 p x < 2 ^ w.
Proof. apply lsb_iter_range. Qed.

Lemma msb8_range w p x : 0 <= w -> 0 <= p < 2 ^ w -> 0 <= msb8 w p x < 2 ^ w.
Proof. intros Hw Hp. exact (msb_iter_range w p 7 x Hw Hp). Qed.

(** ** Proofs: a byte at a time *)

Lemma land_ff x : Z.land x 0xff = x mod 2 ^ 8.
Proof. by apply (land_ones_mod x 8). Qed.

Lemma lsb_byte w p table crc b : 8 <= w -> 0 <= p < 2 ^ w ->
  table = lsb8 p <$> range256 -> 0 <= crc < 2 ^ w -> 0 <= b < 2 ^ 8 ->
  exists t, table.[Z.land (Z.lxor crc b) 0xff] = Some t /\
    Z.lxor (Z.shiftr crc 8) t = lsb8 p (Z.lxor crc b) /\
    0 <= lsb8 p (Z.lxor crc b) < 2 ^ w.
Proof.
  intros Hw Hp -> Hc Hb. rewrite land_ff, range256_get by (apply Z.mod_pos_bound; lia).
  eexists. split; [done|].
  assert (2 ^ 8 <= 2 ^ w) by (apply Z.pow_le_mono_r; lia).
  split; [|apply lsb8_range; [lia..|apply lxor_range; lia]].
  rewrite (lsb8_split p (Z.lxor crc b)), Z.shiftr_lxor.
  rewrite (Z.shiftr_div_pow2 b), (Z.div_small b), Z.lxor_0_r by lia. reflexivity.
Qed.

Lemma msb_byte w p table crc b : 8 <= w -> 0 <= p < 2 ^ w ->
  table = (fun i => msb8 w p (Z.shiftl i (w - 8))) <$> range256 ->
  0 <= crc < 2 ^ w -> 0 <= b < 2 ^ 8 ->
  exists t, table.[Z.land (Z.lxor (Z.shiftr crc (w - 8)) b) 0xff] = Some t /\
    (Z.lxor (Z.shiftl crc 8) t) mod 2 ^ w = msb8 w p (Z.lxor crc (Z.shiftl b (w - 8))) /\
    0 <= msb8 w p (Z.lxor crc (Z.shiftl b (w - 8))) < 2 ^ w.
Proof.
  intros Hw Hp -> Hc Hb. rewrite land_ff, range256_get by (apply Z.mod_pos_bound; lia).
  eexists. split; [done|].
  assert (Hp2 : 2 ^ w = 2 ^ (w - 8) * 2 ^ 8) by (rewrite <-Z.pow_add_r by lia; f_equal; lia).
  assert (Hs : 0 <= Z.shiftl b (w - 8) < 2 ^ w).
  { rewrite Z.shiftl_mul_pow2 by lia. nia. }
  assert (Hh : 0 <= Z.shiftr crc (w - 8) < 2 ^ 8).
  { rewrite Z.shiftr_div_pow2 by lia. split; [apply Z.div_pos; lia|].
    apply Z.div_lt_upper_bound; lia. }
  split; [|apply msb8_range; lia].
  rewrite mod_lxor, (Z.mod_small (msb8 _ _ _)) by (lia || apply msb8_range; lia).
  rewrite (msb8_split w p (Z.lxor crc _)); [|lia|apply lxor_range; lia].
  rewrite (Z.shiftl_lxor crc _ 8), (mod_lxor w (Z.shiftl crc 8)), (Z.shiftr_lxor crc) by lia.
  assert (E1 : Z.shiftl (Z.shiftl b (w - 8)) 8 mod 2 ^ w = 0).
  { rewrite Z.shiftl_shiftl, Z.shiftl_mul_pow2 by lia. replace (w - 8 + 8) with w by lia.
    apply Z.mod_mul. lia. }
  assert (E2 : Z.shiftr (Z.shiftl b (w - 8)) (w - 8) = b).
  { rewrite Z.shiftl_mul_pow2, Z.shiftr_div_pow2, Z.div_mul by lia. done. }
  rewrite E1, E2, Z.lxor_0_r. rewrite (Z.mod_small (Z.lxor _ b)) by (apply lxor_range; lia).
  reflexivity.
Qed.

(** ** Proofs: whole buffers *)

Definition bytes (l : list Z) : Prop := Forall (fun b => 0 <= b < 2 ^ 8) l.

(** A byte step that agrees with a reference step, over a buffer. *)
Lemma over_buffer_ok (P : Z -> Prop) (f : Z -> Z -> option Z) (g : Z -> Z -> Z) :
  (forall crc b, P crc -> 0 <= b < 2 ^ 8 -> f crc b = Some (g crc b) /\ P (g crc b)) ->
  forall buffer rest crc, bytes buffer -> P crc ->
  over_buffer f crc (buffer ++ rest) (length buffer) = Some (foldl g crc buffer).
Proof.
  intros Hfg buffer rest. induction buffer as [|b buffer IH]; intros crc Hb Hc; [reflexivity|].
  apply Forall_cons_iff in Hb as [Hb0 Hb]. simpl.
  destruct (Hfg crc b Hc Hb0) as [-> HP]. simpl. by apply IH.
Qed.

Lemma crc16_ok crc buffer rest : 0 <= crc < 2 ^ 16 -> bytes buffer ->
  crc16 crc (buffer ++ rest) (length buffer) = Some (crc_lsb 0xa001 crc buffer).
Proof.
  intros Hc Hb. apply (over_buffer_ok (fun c => 0 <= c < 2 ^ 16)); [|done..].
  intros c b Hc' Hb'. unfold crc16_byte.
  destruct (lsb_byte 16 0xa001 crc16_table c b) as (t & -> & E & R);
    [lia|lia|apply crc16_table_ok|done|done|].
  simpl. rewrite E, u16_small by done. done.
Qed.

Lemma crc_ccitt_ok crc buffer rest : 0 <= crc < 2 ^ 16 -> bytes buffer ->
  crc_ccitt crc (buffer ++ rest) (length buffer) = Some (crc_lsb 0x8408 crc buffer).
Proof.
  intros Hc Hb. apply (over_buffer_ok (fun c => 0 <= c < 2 ^ 16)); [|done..].
  intros c b Hc' Hb'. unfold crc_ccitt_byte.
  destruct (lsb_byte 16 0x8408 crc_ccitt_table c b) as (t & -> & E & R);
    [lia|lia|apply crc_ccitt_table_ok|done|done|].
  simpl. rewrite E, u16_small by done. done.
Qed.

Lemma crc_itu_t_ok crc buffer rest : 0 <= crc < 2 ^ 16 -> bytes buffer ->
  crc_itu_t crc (buffer ++ rest) (length buffer) = Some (crc_msb 16 0x1021 crc buffer).
Proof.
  intros Hc Hb. apply (over_buffer_ok (fun c => 0 <= c < 2 ^ 16)); [|done..].
  intros c b Hc' Hb'. unfold crc_itu_t_byte.
  destruct (msb_byte 16 0x1021 crc_itu_t_table c b) as (t & Et & E & R);
    [lia|lia|apply crc_itu_t_table_ok|done|done|].
  change (16 - 8) with 8 in *. rewrite Et. simpl. unfold u16. by rewrite E.
Qed.

Lemma crc_t10dif_ok buffer rest : bytes buffer ->
  crc_t10dif (buffer ++ rest) (length buffer) = Some (crc_msb 16 0x8bb7 0 buffer).
Proof.
  intros Hb. apply (over_buffer_ok (fun c => 0 <= c < 2 ^ 16)); [|done|lia].
  intros c b Hc' Hb'. unfold crc_t10dif_byte.
  destruct (msb_byte 16 0x8bb7 t10_dif_crc_table c b) as (t & Et & E & R);
    [lia|lia|apply t10_dif_crc_table_ok|done|done|].
  change (16 - 8) with 8 in *. rewrite Et. simpl. unfold u16. by rewrite E.
Qed.

(** ** Proofs: the seven-bit CRC *)

(** One bit into a register of seven, polynomial x^7 + x^3 + 1. *)
Definition crc7_bit (crc : Z) (bit : bool) : Z :=
  Z.lxor ((Z.shiftl crc 1) mod 2 ^ 7) (if xorb (Z.testbit crc 6) bit then 0x09 else 0).

(** The bits of a byte, most significant first. *)
Definition msb_bits (b : Z) : list bool := (fun i => Z.testbit b (7 - Z.of_nat i)) <$> seq 0 8.

Definition crc7_ref (crc b : Z) : Z := foldl crc7_bit crc (msb_bits b).

Lemma crc7_bit_lxor c d x y : crc7_bit (Z.lxor c d) (xorb x y) = Z.lxor (crc7_bit c x) (crc7_bit d y).
Proof.
  unfold crc7_bit. rewrite Z.shiftl_lxor, mod_lxor, Z.lxor_spec by lia.
  replace (xorb (xorb (Z.testbit c 6) (Z.testbit d 6)) (xorb x y))
    with (xorb (xorb (Z.testbit c 6) x) (xorb (Z.testbit d 6) y))
    by (destruct (Z.testbit c 6), (Z.testbit d 6), x, y; done).
  rewrite choose_lxor. apply lxor_swap.
Qed.

(** The register is linear in the seed and the data together. *)
Lemma crc7_ref_lxor c d a b : crc7_ref (Z.lxor c d) (Z.lxor a b) = Z.lxor (crc7_ref c a) (crc7_ref d b).
Proof.
  unfold crc7_ref, msb_bits. revert c d. induction (seq 0 8) as [|i l IH]; intros c d; [done|].
  rewrite !fmap_cons. cbn [foldl]. by rewrite Z.lxor_spec, crc7_bit_lxor, IH.
Qed.

Lemma crc7_shift_exhaustive :
  forallb (fun c => crc7_ref (Z.of_nat c) 0 =? crc7_ref 0 (2 * Z.of_nat c)) (seq 0 128) = true.
Proof. vm_compute. reflexivity. Qed.

Lemma crc7_table_exhaustive :
  forallb (fun i => match crc7_syndrome_table.[Z.of_nat i] with
                    | Some r => (r =? crc7_ref 0 (Z.of_nat i)) && (0 <=? r) && (r <? 128)
                    | None => false
                    end) (seq 0 256) = true.
Proof. vm_compute. reflexivity. Qed.

Lemma crc7_byte_ok crc b : 0 <= crc < 2 ^ 7 -> 0 <= b < 2 ^ 8 ->
  crc7_byte crc b = Some (crc7_ref crc b) /\ 0 <= crc7_ref crc b < 2 ^ 7.
Proof.
  intros Hc Hb. unfold crc7_byte. rewrite Z.shiftl_mul_pow2 by lia. change (2 ^ 1) with 2.
  assert (Hx : 0 <= Z.lxor (crc * 2) b < 2 ^ 8) by (apply lxor_range; lia).
  pose proof (forallb_seq_lt _ _ crc7_table_exhaustive _ Hx) as H. cbv beta in H. rewrite Z2Nat.id in H by lia.
  destruct (crc7_syndrome_table.[_]) as [r|]; [|done].
  rewrite !andb_true_iff, Z.eqb_eq, Z.leb_le, Z.ltb_lt in H. destruct H as [[-> ?] ?].
  pose proof (forallb_seq_lt _ _ crc7_shift_exhaustive crc ltac:(lia)) as Hs. cbv beta in Hs.
  rewrite Z2Nat.id, Z.eqb_eq in Hs by lia.
  assert (E : crc7_ref 0 (Z.lxor (crc * 2) b) = crc7_ref crc b).
  { rewrite <-(Z.lxor_0_l 0) at 1. rewrite crc7_ref_lxor, (Z.mul_comm crc), <-Hs, <-crc7_ref_lxor.
    by rewrite Z.lxor_0_r, Z.lxor_0_l. }
  rewrite E in *. split; [done|lia].
Qed.

Lemma crc7_ok crc buffer rest : 0 <= crc < 2 ^ 7 -> bytes buffer ->
  crc7 crc (buffer ++ rest) (length buffer) = Some (foldl crc7_ref crc buffer).
Proof.
  intros Hc Hb. apply (over_buffer_ok (fun c => 0 <= c < 2 ^ 7)); [|done..].
  intros c b Hc' Hb'. by apply crc7_byte_ok.
Qed.

(** ** Proofs: filling a table from its powers of two *)

(** The inner loop: every visited [j] gets its image at [i + j].  [good] says
    which entries already hold their final value. *)
Section Fill.
Context (F : Z -> Z) (good : Z -> Prop) (i to inc t : Z).
Hypothesis Hinc : 0 < inc.
Hypothesis Hi : 0 < i.
Hypothesis Hto : to <= CRC8_TABLE_SIZE.
Hypothesis HF : forall j, 0 <= j < to -> (inc | j) -> F (i + j) = Z.lxor (F j) t.
Hypothesis Hgood : forall j, 0 <= j < to -> (inc | j) ->
  good j /\ ~ good (i + j) /\ i + j < CRC8_TABLE_SIZE.

Definition fill_inv : list Z * Z -> Prop := fun '(table, j) =>
  zlen table = CRC8_TABLE_SIZE /\ 0 <= j /\ (inc | j) /\
  (forall k, 0 <= k < CRC8_TABLE_SIZE -> good k -> table.[k] = Some (F k)) /\
  (forall k, 0 <= k < j -> k < to -> (inc | k) -> table.[i + k] = Some (F (i + k))).

Definition fill_post (table : list Z) : Prop :=
  zlen table = CRC8_TABLE_SIZE /\
  (forall k, 0 <= k < CRC8_TABLE_SIZE -> good k -> table.[k] = Some (F k)) /\
  (forall k, 0 <= k < to -> (inc | k) -> table.[i + k] = Some (F (i + k))).

Lemma crc8_fill_step s : fill_inv s ->
  body_ok (crc8_fill_body i to inc t) fill_inv (fun '(_, j) => Z.max 0 (to - j)) fill_post s.
Proof using All.
  destruct s as [table j]. intros (Hlen & Hj & Hdiv & Hold & Hnew).
  split; [lia|]. unfold crc8_fill_body. destruct (Z.ltb_spec j to).
  2:{ split; [done|]. split; [done|]. intros k Hk. apply Hnew; lia. }
  destruct (Hgood j) as (Hgj & Hngj & Hlt); [lia|done|].
  rewrite Hold by (done || lia). cbn [mbind option_bind].
  rewrite arr_set_Some by lia. cbn [mbind option_bind].
  split; [|lia]. split; [by rewrite zlen_insert|]. split; [lia|].
  split; [by apply Z.divide_add_r; [|apply Z.divide_refl]|].
  split; intros k Hk Hk'; rewrite arr_get_insert by lia; case_decide as Heq.
  - subst k. done.
  - by apply Hold.
  - intros Hd. assert (k = j) as -> by lia. f_equal. symmetry. apply HF; [lia|done].
  - intros Hd. apply Hnew; [|done..].
    destruct (Z.lt_ge_cases k j); [lia|]. exfalso.
    destruct Hd as [a ->], Hdiv as [b ->]. assert (b < a) by nia. nia.
Qed.

Lemma crc8_fill_ok table : zlen table = CRC8_TABLE_SIZE ->
  (forall k, 0 <= k < CRC8_TABLE_SIZE -> good k -> table.[k] = Some (F k)) ->
  exists table', loop (crc8_fill_body i to inc t) (CRC8_TABLE_SIZE + 1) (table, 0) = Some table' /\
    fill_post table'.
Proof using All.
  intros Hlen Htab.
  apply loop_total with (I := fill_inv) (m := fun '(_, j) => Z.max 0 (to - j)).
  - apply crc8_fill_step.
  - split; [done|]. split; [lia|]. split; [apply Z.divide_0_r|]. split; [done|]. lia.
  - unfold CRC8_TABLE_SIZE in *. lia.
Qed.
End Fill.

Lemma iter_add {A} n m (f : A -> A) x : Nat.iter (n + m) f x = Nat.iter n f (Nat.iter m f x).
Proof. induction n as [|n IH]; simpl; [done|]. by rewrite IH. Qed.

(** Disjoint words add up to their exclusive or. *)
Lemma add_pow2_lxor n j : 0 <= n -> Z.testbit j n = false -> 2 ^ n + j = Z.lxor (2 ^ n) j.
Proof.
  intros Hn Hj. apply Z.add_nocarry_lxor. apply Z.bits_inj'. intros i Hi.
  rewrite Z.land_spec, Z.bits_0. destruct (decide (i = n)) as [->|].
  - rewrite Hj. apply andb_false_r.
  - by rewrite Z.pow2_bits_false by lia.
Qed.

Lemma msb8_pow2 p k : (k <= 7)%nat ->
  msb8 8 p (2 ^ Z.of_nat k) = Nat.iter (S k) (msb_step 8 p) 0x80.
Proof.
  intros Hk. unfold msb8. replace 8%nat with (S k + (7 - k))%nat by lia.
  rewrite iter_add. f_equal.
  rewrite msb_iter_shift; [| lia|split; [lia|]; apply Z.pow_lt_mono_r; lia].
  rewrite <-Z.pow_add_r by lia. replace (Z.of_nat k + Z.of_nat (7 - k)) with 7 by lia. done.
Qed.

Lemma lsb8_pow2 p m : (m <= 7)%nat ->
  lsb8 p (2 ^ Z.of_nat (7 - m)) = Nat.iter (S m) (lsb_step p) 1.
Proof.
  intros Hm. unfold lsb8. replace 8%nat with (S m + (7 - m))%nat by lia.
  rewrite iter_add. f_equal.
  rewrite <-(Z.mul_1_l (2 ^ _)). apply lsb_iter_shift.
Qed.

Section Crc8.
Context (p : Z).
Hypothesis Hp : 0 <= p < 2 ^ 8.

Definition msb_inv : list Z * Z * Z -> Prop := fun '(table, i, t) => exists k : nat,
  (k <= 8)%nat /\ i = 2 ^ Z.of_nat k /\ t = Nat.iter k (msb_step 8 p) 0x80 /\
  zlen table = CRC8_TABLE_SIZE /\
  forall j, 0 <= j < CRC8_TABLE_SIZE -> j < i -> table.[j] = Some (msb8 8 p j).

Definition table_is (F : Z -> Z) (table : list Z) : Prop :=
  zlen table = CRC8_TABLE_SIZE /\ forall j, 0 <= j < CRC8_TABLE_SIZE -> table.[j] = Some (F j).

Lemma crc8_msb_t t : u8 (Z.lxor (Z.shiftl t 1) (if truth (Z.land t 0x80) then p else 0)) = msb_step 8 p t.
Proof using Hp.
  change 0x80 with (2 ^ 7). rewrite truth_testbit by lia. unfold u8, msb_step.
  rewrite mod_lxor by lia. f_equal. apply Z.mod_small. case_match; lia.
Qed.

Lemma crc8_msb_step s : msb_inv s ->
  body_ok (crc8_msb_body p) msb_inv (fun '(_, i, _) => CRC8_TABLE_SIZE - i) (table_is (msb8 8 p)) s.
Proof using Hp.
  destruct s as [[table i] t]. intros (k & Hk & -> & -> & Hlen & Htab).
  assert (Hb : 1 <= 2 ^ Z.of_nat k <= 2 ^ 8).
  { split; [lia|]. apply Z.pow_le_mono_r; lia. }
  split; [unfold CRC8_TABLE_SIZE; lia|]. unfold crc8_msb_body.
  destruct (Z.ltb_spec (2 ^ Z.of_nat k) CRC8_TABLE_SIZE) as [Hlt|Hge].
  2:{ split; [done|]. intros j Hj. apply Htab; lia. }
  assert (Hk7 : (k <= 7)%nat).
  { destruct (decide (k = 8)%nat) as [->|]; [unfold CRC8_TABLE_SIZE in Hlt; lia|lia]. }
  assert (H7 : 2 ^ Z.of_nat k <= 2 ^ 7) by (apply Z.pow_le_mono_r; lia).
  cbv zeta. rewrite crc8_msb_t, <-Nat.iter_succ, <-msb8_pow2 by done.
  destruct (crc8_fill_ok (msb8 8 p) (fun j => j < 2 ^ Z.of_nat k) (2 ^ Z.of_nat k)
              (2 ^ Z.of_nat k) 1 (msb8 8 p (2 ^ Z.of_nat k))) with (table := table)
    as (table' & -> & Hlen' & Hold & Hnew); try lia; try done.
  - intros j Hj _. rewrite add_pow2_lxor by (lia || apply (testbit_above (Z.of_nat k)); lia).
    unfold msb8. rewrite iter_lxor by (intros; apply msb_step_lxor; lia). apply Z.lxor_comm.
  - intros j Hj _. split; [lia|]. split; [lia|]. unfold CRC8_TABLE_SIZE. lia.
  - cbn [mbind option_bind]. split; [|lia]. exists (S k).
    rewrite Nat2Z.inj_succ, Z.pow_succ_r by lia. split; [lia|]. split; [lia|].
    split; [by rewrite msb8_pow2|]. split; [done|]. intros j Hj Hj'.
    destruct (Z.lt_ge_cases j (2 ^ Z.of_nat k)); [by apply Hold|].
    replace j with (2 ^ Z.of_nat k + (j - 2 ^ Z.of_nat k)) by lia.
    apply Hnew; [lia|apply Z.divide_1_l].
Qed.

Lemma populate_msb_ok table : zlen table = CRC8_TABLE_SIZE ->
  exists table', crc8_populate_msb table p = Some table' /\ table_is (msb8 8 p) table'.
Proof using Hp.
  intros Hlen. unfold crc8_populate_msb.
  rewrite arr_set_Some by (rewrite Hlen; unfold CRC8_TABLE_SIZE; lia). cbn [mbind option_bind].
  apply loop_total with (I := msb_inv) (m := fun '(_, i, _) => CRC8_TABLE_SIZE - i).
  - apply crc8_msb_step.
  - exists 0%nat. split; [lia|]. split; [done|]. split; [done|].
    split; [by rewrite zlen_insert|]. intros j Hj Hj1. assert (j = 0) as -> by lia.
    rewrite arr_get_insert by (rewrite Hlen; unfold CRC8_TABLE_SIZE; lia).
    rewrite decide_True by done. vm_compute. reflexivity.
  - unfold CRC8_TABLE_SIZE. lia.
Qed.

(** Entries at the multiples of [2 ^ (8 - m)] are in place. *)
Definition lsb_inv : list Z * Z * Z -> Prop := fun '(table, i, t) => exists m : nat,
  (m <= 8)%nat /\ i = Z.shiftr (2 ^ Z.of_nat (8 - m)) 1 /\ t = Nat.iter m (lsb_step p) 1 /\
  zlen table = CRC8_TABLE_SIZE /\
  forall j, 0 <= j < CRC8_TABLE_SIZE -> (2 ^ Z.of_nat (8 - m) | j) -> table.[j] = Some (lsb8 p j).

Lemma crc8_lsb_t t : 0 <= t < 2 ^ 8 ->
  u8 (Z.lxor (Z.shiftr t 1) (if truth (Z.land t 1) then p else 0)) = lsb_step p t.
Proof using Hp.
  intros Ht. change (Z.land t 1) with (Z.land t (2 ^ 0)). rewrite truth_testbit by lia.
  apply u8_small. apply (lsb_step_range 8); lia.
Qed.

Lemma divide_testbit n j : 0 <= n -> (2 ^ (n + 1) | j) -> Z.testbit j n = false.
Proof using.
  intros Hn [q ->]. rewrite <-Z.shiftl_mul_pow2 by lia.
  rewrite Z.shiftl_spec by lia. apply Z.testbit_neg_r. lia.
Qed.

Lemma crc8_lsb_step s : lsb_inv s ->
  body_ok (crc8_lsb_body p) lsb_inv (fun '(_, i, _) => i) (table_is (lsb8 p)) s.
Proof using Hp.
  destruct s as [[table i] t]. intros (m & Hm & -> & -> & Hlen & Htab).
  split; [apply Z.shiftr_nonneg; lia|]. unfold crc8_lsb_body.
  destruct (decide (m = 8)%nat) as [->|Hm8].
  { split; [done|]. intros j Hj. apply Htab; [done|]. apply Z.divide_1_l. }
  set (n := Z.of_nat (7 - m)). assert (Hn : 0 <= n <= 7) by lia.
  assert (E8 : Z.of_nat (8 - m) = n + 1) by lia. rewrite E8 in *.
  assert (Ei : Z.shiftr (2 ^ (n + 1)) 1 = 2 ^ n).
  { rewrite Z.shiftr_div_pow2, Z.pow_add_r by lia. apply Z.div_mul. lia. }
  rewrite Ei, truth_nz by lia. cbv zeta.
  rewrite crc8_lsb_t by (apply lsb_iter_range; lia).
  rewrite <-Nat.iter_succ, <-lsb8_pow2 by lia. fold n.
  assert (E2 : 2 * 2 ^ n = 2 ^ (n + 1)) by (rewrite pow2_double; lia). rewrite E2.
  assert (H7 : 2 ^ (n + 1) <= 2 ^ 8) by (apply Z.pow_le_mono_r; lia).
  assert (H8 : 2 ^ 8 = 2 ^ (7 - n) * 2 ^ (n + 1)) by (rewrite <-Z.pow_add_r by lia; f_equal; lia).
  destruct (crc8_fill_ok (lsb8 p) (fun j => (2 ^ (n + 1) | j)) (2 ^ n)
              CRC8_TABLE_SIZE (2 ^ (n + 1)) (lsb8 p (2 ^ n))) with (table := table)
    as (table' & -> & Hlen' & Hold & Hnew); try lia; try done.
  - intros j Hj Hd. rewrite add_pow2_lxor by (lia || (apply divide_testbit; [lia|done])).
    unfold lsb8. rewrite iter_lxor by apply lsb_step_lxor. apply Z.lxor_comm.
  - intros j Hj Hd. split; [done|]. split.
    + intros [b Hb]. destruct Hd as [a ->]. assert (0 < 2 ^ n) by lia. rewrite <-E2 in Hb.
      assert (1 + 2 * a = 2 * b) by nia. lia.
    + destruct Hd as [a ->]. unfold CRC8_TABLE_SIZE in *. change 256 with (2 ^ 8) in *.
      assert (0 < 2 ^ n) by lia. assert (a < 2 ^ (7 - n)) by nia. rewrite <-E2 in *. nia.
  - cbn [mbind option_bind]. split; [|rewrite Z.shiftr_div_pow2 by lia; apply Z.div_lt; lia].
    exists (S m). replace (8 - S m)%nat with (7 - m)%nat by lia. fold n.
    split; [lia|]. split; [done|]. split; [by unfold n; rewrite lsb8_pow2 by lia|].
    split; [done|]. intros j Hj [a ->].
    destruct (Z.Even_or_Odd a) as [[b ->]|[b ->]].
    + apply Hold; [done|]. exists b. lia.
    + replace ((2 * b + 1) * 2 ^ n) with (2 ^ n + b * 2 ^ (n + 1)) in * by lia.
      assert (0 < 2 ^ n) by lia. assert (0 <= b) by (rewrite <-E2 in Hj; nia).
      apply Hnew; [nia|]. apply Z.divide_factor_r.
Qed.

Lemma populate_lsb_ok table : zlen table = CRC8_TABLE_SIZE ->
  exists table', crc8_populate_lsb table p = Some table' /\ table_is (lsb8 p) table'.
Proof using Hp.
  intros Hlen. unfold crc8_populate_lsb.
  rewrite arr_set_Some by (rewrite Hlen; unfold CRC8_TABLE_SIZE; lia). cbn [mbind option_bind].
  apply loop_total with (I := lsb_inv) (m := fun '(_, i, _) => i).
  - apply crc8_lsb_step.
  - exists 0%nat. split; [lia|]. split; [done|]. split; [done|].
    split; [by rewrite zlen_insert|]. intros j Hj [q ->].
    change (2 ^ Z.of_nat (8 - 0)) with 256 in *.
    assert (q = 0) as -> by (unfold CRC8_TABLE_SIZE in Hj; lia).
    rewrite arr_get_insert by (rewrite Hlen; unfold CRC8_TABLE_SIZE; lia).
    rewrite decide_True by done. vm_compute. reflexivity.
  - done.
Qed.

Lemma crc8_lsb_ok table crc buffer rest : table_is (lsb8 p) table ->
  0 <= crc < 2 ^ 8 -> bytes buffer ->
  crc8 table (buffer ++ rest) (length buffer) crc = Some (crc_lsb p crc buffer).
Proof using Hp.
  intros [_ Ht] Hc Hb. apply (over_buffer_ok (fun c => 0 <= c < 2 ^ 8)); [|done..].
  intros c b Hc' Hb'. pose proof (lxor_range 8 c b ltac:(lia) Hc' Hb') as Hx.
  rewrite land_ff, Z.mod_small, Ht by done. split; [done|]. apply lsb8_range; lia.
Qed.

Lemma crc8_msb_ok table crc buffer rest : table_is (msb8 8 p) table ->
  0 <= crc < 2 ^ 8 -> bytes buffer ->
  crc8 table (buffer ++ rest) (length buffer) crc = Some (crc_msb 8 p crc buffer).
Proof using Hp.
  intros [_ Ht] Hc Hb. apply (over_buffer_ok (fun c => 0 <= c < 2 ^ 8)); [|done..].
  intros c b Hc' Hb'. pose proof (lxor_range 8 c b ltac:(lia) Hc' Hb') as Hx.
  change (8 - 8) with 0. rewrite Z.shiftl_0_r, land_ff, Z.mod_small, Ht by done.
  split; [done|]. apply msb8_range; lia.
Qed.
End Crc8.

(** ** The properties of the component *)

(** the byte-at-a-time loops with their tables ([crc16], [crc_ccitt],
    [crc_itu_t], [crc_t10dif], [crc7]) compute, for every seed and buffer, the
    value of the register of their polynomial shifted one bit at a time. *)
Theorem table_crcs_correct crc buffer rest : bytes buffer ->
  (0 <= crc < 2 ^ 16 ->
     crc16 crc (buffer ++ rest) (length buffer) = Some (crc_lsb 0xa001 crc buffer) /\
     crc_ccitt crc (buffer ++ rest) (length buffer) = Some (crc_lsb 0x8408 crc buffer) /\
     crc_itu_t crc (buffer ++ rest) (length buffer) = Some (crc_msb 16 0x1021 crc buffer)) /\
  crc_t10dif (buffer ++ rest) (length buffer) = Some (crc_msb 16 0x8bb7 0 buffer) /\
  (0 <= crc < 2 ^ 7 -> crc7 crc (buffer ++ rest) (length buffer) = Some (foldl crc7_ref crc buffer)).
Proof.
  intros Hb. split; [intros Hc; split; [by apply crc16_ok|split; [by apply crc_ccitt_ok|by apply crc_itu_t_ok]]|].
  split; [by apply crc_t10dif_ok|]. intros Hc. by apply crc7_ok.
Qed.

Lemma table_crcs_correct_witness :
  crc16 0xffff ([0x31; 0x32; 0x33] ++ []) 3 = Some (crc_lsb 0xa001 0xffff [0x31; 0x32; 0x33]).
Proof.
  apply (table_crcs_correct 0xffff [0x31; 0x32; 0x33] []); [repeat constructor; lia|lia].
Defined.

(** for every polynomial, [crc8_populate_msb] and [crc8_populate_lsb] fill
    any 256-entry table so that [crc8] with it computes the bit-at-a-time
    CRC of that polynomial and bit order. *)
Theorem crc8_correct p table crc buffer rest :
  0 <= p < 2 ^ 8 -> zlen table = CRC8_TABLE_SIZE -> 0 <= crc < 2 ^ 8 -> bytes buffer ->
  (exists t, crc8_populate_msb table p = Some t /\
     crc8 t (buffer ++ rest) (length buffer) crc = Some (crc_msb 8 p crc buffer)) /\
  (exists t, crc8_populate_lsb table p = Some t /\
     crc8 t (buffer ++ rest) (length buffer) crc = Some (crc_lsb p crc buffer)).
Proof.
  intros Hp Ht Hc Hb. split.
  - destruct (populate_msb_ok p Hp table Ht) as (t & E & H). exists t. split; [done|]. by apply crc8_msb_ok.
  - destruct (populate_lsb_ok p Hp table Ht) as (t & E & H). exists t. split; [done|]. by apply crc8_lsb_ok.
Qed.

Lemma crc8_correct_witness :
  (exists t, crc8_populate_msb (replicate 256 0) 0x07 = Some t /\
     crc8 t ([1; 2] ++ []) 2 0xff = Some (crc_msb 8 0x07 0xff [1; 2])) /\
  (exists t, crc8_populate_lsb (replicate 256 0) 0x07 = Some t /\
     crc8 t ([1; 2] ++ []) 2 0xff = Some (crc_lsb 0x07 0xff [1; 2])).
Proof.
  apply (crc8_correct 0x07 (replicate 256 0) 0xff [1; 2] []); [lia|reflexivity|lia|repeat constructor; lia].
Defined.
