(* ===== verification/Crc32.v ===== *)
(** The Ethernet CRC: the table generator lib/gen_crc32table.c, and
    lib/crc32.c, whose byte-at-a-time prologue and epilogue surround a loop
    over aligned 32-bit words with four tables.  The theorems say that the
    generated tables and the mixed loop compute, for every alignment of the
    buffer, the value of the bit-at-a-time variant the same file holds. *)
From S2P Require Import Prelude Crc.

(** ** Byte order (include/linux/swab.h, little-endian CPU) *)

Definition swab32 (x : Z) : Z :=
  Z.lor (Z.lor (Z.lor (u32 (Z.shiftl (Z.land x 0x000000ff) 24))
                      (Z.shiftl (Z.land x 0x0000ff00) 8))
               (Z.shiftr (Z.land x 0x00ff0000) 8))
        (Z.shiftr (Z.land x 0xff000000) 24).

Definition cpu_to_le32 (x : Z) : Z := x.
Definition le32_to_cpu (x : Z) : Z := x.
Definition cpu_to_be32 (x : Z) : Z := swab32 x.
Definition be32_to_cpu (x : Z) : Z := swab32 x.

(** ** lib/crc32defs.h, lib/gen_crc32table.c *)

Definition CRCPOLY_LE : Z := 0xedb88320.
Definition CRCPOLY_BE : Z := 0x04c11db7.
Definition LE_TABLE_SIZE : Z := 256.
Definition BE_TABLE_SIZE : Z := 256.

(** [static uint32_t table[4][256]], which starts out zero. *)
Definition crc_tables : list (list Z) := replicate 4 (replicate 256 0).

Definition tab_get (tab : list (list Z)) (j i : Z) : option Z :=
  row ← tab.[j]; row.[i].
Definition tab_set (tab : list (list Z)) (j i x : Z) : option (list (list Z)) :=
  row ← tab.[j]; row ← row.[i <- x]; tab.[j <- row].

(** [for (j = 0; j < limit; j += inc) table[0][i + j] = crc ^ table[0][j];] *)
Definition crc32_fill_body (i limit inc crc : Z) : list (list Z) * Z -> option (step (list (list Z) * Z) (list (list Z))) :=
  fun '(tab, j) =>
    if j <? limit then
      x ← tab_get tab 0 j;
      tab ← tab_set tab 0 (i + j) (Z.lxor crc x);
      Some (Next (tab, j + inc))
    else Some (Done tab).

Definition crc32init_le_row0 : list (list Z) * Z * Z -> option (step (list (list Z) * Z * Z) (list (list Z))) :=
  fun '(tab, i, crc) =>
    if truth i then
      let crc := Z.lxor (Z.shiftr crc 1) (if truth (Z.land crc 1) then CRCPOLY_LE else 0) in
      tab ← loop (crc32_fill_body i LE_TABLE_SIZE (2 * i) crc) (LE_TABLE_SIZE + 1) (tab, 0);
      Some (Next (tab, Z.shiftr i 1, crc))
    else Some (Done tab).

(** [for (j = 1; j < 4; j++) { crc = next(crc); table[j][i] = crc; }] *)
Definition crc32init_column (next : list (list Z) -> Z -> option Z) (i : Z) : list (list Z) * Z * Z -> option (step (list (list Z) * Z * Z) (list (list Z))) :=
  fun '(tab, j, crc) =>
    if j <? 4 then
      crc ← next tab crc;
      tab ← tab_set tab j i crc;
      Some (Next (tab, j + 1, crc))
    else Some (Done tab).

Definition crc32init_rest (next : list (list Z) -> Z -> option Z) (size : Z) : list (list Z) * Z -> option (step (list (list Z) * Z) (list (list Z))) :=
  fun '(tab, i) =>
    if i <? size then
      crc ← tab_get tab 0 i;
      tab ← loop (crc32init_column next i) 5 (tab, 1, crc);
      Some (Next (tab, i + 1))
    else Some (Done tab).

Definition crc32init_le_next (tab : list (list Z)) (crc : Z) : option Z :=
  x ← tab_get tab 0 (Z.land crc 0xff);
  Some (Z.lxor x (Z.shiftr crc 8)).

Definition crc32init_le : option (list (list Z)) :=
  tab ← tab_set crc_tables 0 0 0;
  tab ← loop crc32init_le_row0 (LE_TABLE_SIZE + 1) (tab, Z.shiftl 1 (8 - 1), 1);
  loop (crc32init_rest crc32init_le_next LE_TABLE_SIZE) (LE_TABLE_SIZE + 1) (tab, 0).

Definition crc32init_be_row0 : list (list Z) * Z * Z -> option (step (list (list Z) * Z * Z) (list (list Z))) :=
  fun '(tab, i, crc) =>
    if i <? BE_TABLE_SIZE then
      let crc := Z.lxor (u32 (Z.shiftl crc 1)) (if truth (Z.land crc 0x80000000) then CRCPOLY_BE else 0) in
      tab ← loop (crc32_fill_body i i 1 crc) (BE_TABLE_SIZE + 1) (tab, 0);
      Some (Next (tab, Z.shiftl i 1, crc))
    else Some (Done tab).

Definition crc32init_be_next (tab : list (list Z)) (crc : Z) : option Z :=
  x ← tab_get tab 0 (Z.land (Z.shiftr crc 24) 0xff);
  Some (Z.lxor x (u32 (Z.shiftl crc 8))).

Definition crc32init_be : option (list (list Z)) :=
  tab ← tab_set crc_tables 0 0 0;
  tab ← loop crc32init_be_row0 (BE_TABLE_SIZE + 1) (tab, 1, 0x80000000);
  loop (crc32init_rest crc32init_be_next BE_TABLE_SIZE) (BE_TABLE_SIZE + 1) (tab, 0).

(** crc32table.h as the generator prints it: each entry under [tole] or
    [tobe]. *)
Definition output_table (trans : Z -> Z) (tab : list (list Z)) : list (list Z) :=
  fmap (M := list) (fmap (M := list) trans) tab.

Definition crc32table_le : option (list (list Z)) :=
  output_table cpu_to_le32 <$> crc32init_le.
Definition crc32table_be : option (list (list Z)) :=
  output_table cpu_to_be32 <$> crc32init_be.

(** ** lib/crc32.c *)

Section Body.
Context (tab : list (list Z)).

Definition DO_CRC (crc x : Z) : option Z :=
  t ← tab_get tab 0 (Z.land (Z.lxor crc x) 255);
  Some (Z.lxor t (Z.shiftr crc 8)).

Definition DO_CRC4 (crc : Z) : option Z :=
  t3 ← tab_get tab 3 (Z.land crc 255);
  t2 ← tab_get tab 2 (Z.land (Z.shiftr crc 8) 255);
  t1 ← tab_get tab 1 (Z.land (Z.shiftr crc 16) 255);
  t0 ← tab_get tab 0 (Z.land (Z.shiftr crc 24) 255);
  Some (Z.lxor (Z.lxor (Z.lxor t3 t2) t1) t0).

(** A pointer into the buffer: its address, and the bytes from it on. *)
Definition cursor : Type := Z * list Z.

(** [*buf++] *)
Definition next_byte (p : cursor) : option (Z * cursor) :=
  match p with
  | (addr, x :: rest) => Some (x, (addr + 1, rest))
  | (_, []) => None
  end.

(** [*b++] for a [u32] pointer: defined at aligned addresses only. *)
Definition next_word (p : cursor) : option (Z * cursor) :=
  match p with
  | (addr, x0 :: x1 :: x2 :: x3 :: rest) =>
      if addr mod 4 =? 0 then
        Some (x0 + Z.shiftl x1 8 + Z.shiftl x2 16 + Z.shiftl x3 24, (addr + 4, rest))
      else None
  | _ => None
  end.

(** [do DO_CRC( *buf++); while ((--len) && ((long)buf)&3);] *)
Definition crc32_align_body : Z * cursor * Z -> option (step (Z * cursor * Z) (Z * cursor * Z)) :=
  fun '(crc, buf, len) =>
    '(x, buf) ← next_byte buf;
    crc ← DO_CRC crc x;
    let len := len - 1 in
    Some (if truth len && truth (Z.land (fst buf) 3) then Next (crc, buf, len) else Done (crc, buf, len)).

(** [for (--b; len; --len) { crc ^= *++b; DO_CRC4; }] *)
Definition crc32_word_body : Z * cursor * Z -> option (step (Z * cursor * Z) (Z * cursor)) :=
  fun '(crc, b, len) =>
    if truth len then
      '(w, b) ← next_word b;
      crc ← DO_CRC4 (Z.lxor crc w);
      Some (Next (crc, b, len - 1))
    else Some (Done (crc, b)).

(** [do DO_CRC( *++p); while (--len);] *)
Definition crc32_tail_body : Z * cursor * Z -> option (step (Z * cursor * Z) Z) :=
  fun '(crc, p, len) =>
    '(x, p) ← next_byte p;
    crc ← DO_CRC crc x;
    let len := len - 1 in
    Some (if truth len then Next (crc, p, len) else Done crc).

(** [if ((long)buf & 3 && len) do ... while] *)
Definition crc32_align (crc : Z) (buf : cursor) (len : Z) : option (Z * cursor * Z) :=
  if truth (Z.land (fst buf) 3) && truth len
  then loop crc32_align_body (len + 1) (crc, buf, len)
  else Some (crc, buf, len).

Definition crc32_body (crc : Z) (buf : cursor) (len : Z) : option Z :=
  '(crc, buf, len) ← crc32_align crc buf len;
  let rem_len := Z.land len 3 in
  let len := Z.shiftr len 2 in
  '(crc, b) ← loop crc32_word_body (len + 1) (crc, buf, len);
  let len := rem_len in
  if truth len then loop crc32_tail_body (len + 1) (crc, b, len) else Some crc.
End Body.

(** [CRC_LE_BITS == 8] and [CRC_BE_BITS == 8], the configured variants. *)
Definition crc32_le (crc : Z) (p : cursor) (len : Z) : option Z :=
  tab ← crc32table_le;
  crc ← crc32_body tab (cpu_to_le32 crc) p len;
  Some (le32_to_cpu crc).

Definition crc32_be (crc : Z) (p : cursor) (len : Z) : option Z :=
  tab ← crc32table_be;
  crc ← crc32_body tab (cpu_to_be32 crc) p len;
  Some (be32_to_cpu crc).

(** [CRC_LE_BITS == 1] and [CRC_BE_BITS == 1]. *)
Definition crc32_le_1bit (crc : Z) : Z :=
  Z.lxor (Z.shiftr crc 1) (if truth (Z.land crc 1) then CRCPOLY_LE else 0).

Definition crc32_le_1 (crc : Z) (p : list Z) (len : nat) : option Z :=
  over_buffer (fun crc b => Some (Nat.iter 8 crc32_le_1bit (Z.lxor crc b))) crc p len.

Definition crc32_be_1bit (crc : Z) : Z :=
  Z.lxor (u32 (Z.shiftl crc 1)) (if truth (Z.land crc 0x80000000) then CRCPOLY_BE else 0).

Definition crc32_be_1 (crc : Z) (p : list Z) (len : nat) : option Z :=
  over_buffer (fun crc b => Some (Nat.iter 8 crc32_be_1bit (Z.lxor crc (Z.shiftl b 24)))) crc p len.

(** ** Proofs: the generated tables *)

Lemma crc32init_le_ok :
  crc32init_le = Some ((fun k => Nat.iter (S k) (lsb8 CRCPOLY_LE) <$> range256) <$> seq 0 4).
Proof. vm_compute. reflexivity. Qed.

Lemma crc32init_be_ok :
  crc32init_be =
    Some ((fun k => (fun i => Nat.iter (S k) (msb8 32 CRCPOLY_BE) (Z.shiftl i 24)) <$> range256) <$> seq 0 4).
Proof. vm_compute. reflexivity. Qed.

(** ** Proofs: the body, for any byte-wise linear register

    [B] advances the register by one byte of input.  It is linear, it moves
    the three high bytes down, and row [k] of the tables holds [k + 1]
    applications of it to a byte. *)

Section Register.
Context (B : Z -> Z) (tab : list (list Z)).
Context (B_range : forall x, 0 <= x < 2 ^ 32 -> 0 <= B x < 2 ^ 32).
Context (B_lxor : forall x y, 0 <= x < 2 ^ 32 -> 0 <= y < 2 ^ 32 -> B (Z.lxor x y) = Z.lxor (B x) (B y)).
Context (B_shift : forall y, 0 <= y < 2 ^ 24 -> B (Z.shiftl y 8) = y).
Context (tab_ok : forall k i, (k < 4)%nat -> 0 <= i < 256 ->
  tab_get tab (Z.of_nat k) i = Some (Nat.iter (S k) B i)).

Definition feed (crc : Z) (buffer : list Z) : Z := foldl (fun crc b => B (Z.lxor crc b)) crc buffer.

Lemma split_byte x : 0 <= x -> x = Z.lxor (x mod 2 ^ 8) (Z.shiftl (Z.shiftr x 8) 8).
Proof using.
  intros Hx. apply Z.bits_inj'. intros i Hi. rewrite Z.lxor_spec, testbit_mod_pow2 by lia.
  rewrite Z.shiftl_spec by lia. bcases.
  - rewrite (Z.testbit_neg_r _ (i - 8)) by lia. by rewrite xorb_false_r.
  - rewrite Z.shiftr_spec by lia. by replace (i - 8 + 8) with i by lia.
Qed.

(** One byte of input moves the register down by a byte. *)
Lemma B_step x : 0 <= x < 2 ^ 32 -> B x = Z.lxor (B (x mod 2 ^ 8)) (Z.shiftr x 8).
Proof using B_lxor B_shift.
  intros Hx. assert (Hs : 0 <= Z.shiftr x 8 < 2 ^ 24).
  { rewrite Z.shiftr_div_pow2 by lia. zlia. }
  assert (Hm : 0 <= x mod 2 ^ 8 < 2 ^ 32) by zlia.
  rewrite (split_byte x) at 1 by lia. rewrite B_lxor; [by rewrite B_shift|done|].
  rewrite Z.shiftl_mul_pow2 by lia. lia.
Qed.

Lemma DO_CRC_ok crc x : 0 <= crc < 2 ^ 32 -> 0 <= x < 2 ^ 8 ->
  DO_CRC tab crc x = Some (B (Z.lxor crc x)).
Proof using B_lxor B_shift tab_ok.
  intros Hc Hx. unfold DO_CRC. rewrite land_ff.
  rewrite (tab_ok 0) by (apply Z.mod_pos_bound || lia; lia). cbn [mbind option_bind Nat.iter].
  rewrite (B_step (Z.lxor crc x)) by (apply lxor_range; lia).
  do 2 f_equal. rewrite Z.shiftr_lxor, (Z.shiftr_div_pow2 x), (Z.div_small x) by lia.
  by rewrite Z.lxor_0_r.
Qed.

Lemma B_iter_range n x : 0 <= x < 2 ^ 32 -> 0 <= Nat.iter n B x < 2 ^ 32.
Proof using B_range. intros Hx. induction n as [|n IH]; simpl; auto. Qed.

Lemma B_iter_step n x : 0 <= x < 2 ^ 32 ->
  Nat.iter (S n) B x = Z.lxor (Nat.iter (S n) B (x mod 2 ^ 8)) (Nat.iter n B (Z.shiftr x 8)).
Proof using B_range B_lxor B_shift.
  intros Hx. assert (Hs : 0 <= Z.shiftr x 8 < 2 ^ 32).
  { rewrite Z.shiftr_div_pow2 by lia. zlia. }
  assert (Hm : 0 <= x mod 2 ^ 8 < 2 ^ 32) by zlia.
  rewrite !Nat.iter_succ_r, (B_step x) by done.
  induction n as [|n IH]; [done|]. rewrite !Nat.iter_succ, IH.
  apply B_lxor; by apply B_iter_range; auto.
Qed.

(** Four bytes at once. *)
Lemma DO_CRC4_ok crc : 0 <= crc < 2 ^ 32 -> DO_CRC4 tab crc = Some (Nat.iter 4 B crc).
Proof using B_range B_lxor B_shift tab_ok.
  intros Hc. unfold DO_CRC4. rewrite !land_ff.
  rewrite (tab_ok 3), (tab_ok 2), (tab_ok 1), (tab_ok 0) by (apply Z.mod_pos_bound || lia; lia).
  cbn [mbind option_bind]. f_equal.
  assert (Hr : forall k, 0 <= k -> 0 <= Z.shiftr crc k < 2 ^ 32).
  { intros k Hk. rewrite Z.shiftr_div_pow2 by lia. split; [apply Z.div_pos; lia|].
    apply Z.div_lt_upper_bound; [lia|]. assert (0 < 2 ^ k) by lia. nia. }
  rewrite (B_iter_step 3 crc), (B_iter_step 2 (Z.shiftr crc 8)) by (done || apply Hr; lia).
  rewrite Z.shiftr_shiftr by lia. change (8 + 8) with 16.
  rewrite (B_iter_step 1 (Z.shiftr crc 16)) by (apply Hr; lia).
  rewrite Z.shiftr_shiftr by lia. change (16 + 8) with 24.
  rewrite (Z.mod_small (Z.shiftr crc 24)) by (rewrite Z.shiftr_div_pow2 by lia; zlia).
  by rewrite !Z.lxor_assoc.
Qed.

Lemma feed_range crc buffer : 0 <= crc < 2 ^ 32 -> bytes buffer -> 0 <= feed crc buffer < 2 ^ 32.
Proof using B_range.
  intros Hc Hb. unfold feed. revert crc Hc. induction Hb as [|b buffer Hb' Hb IH]; intros crc Hc; [done|].
  simpl. apply IH, B_range, lxor_range; lia.
Qed.

Lemma B_word z y : 0 <= z < 2 ^ 32 -> 0 <= y < 2 ^ 24 -> B (Z.lxor z (Z.shiftl y 8)) = Z.lxor (B z) y.
Proof using B_lxor B_shift.
  intros Hz Hy. rewrite B_lxor, B_shift; [done..|]. rewrite Z.shiftl_mul_pow2 by lia. lia.
Qed.

Lemma add_byte_lxor x r : 0 <= x < 2 ^ 8 -> 0 <= r -> x + Z.shiftl r 8 = Z.lxor x (Z.shiftl r 8).
Proof using.
  intros Hx Hr. rewrite Z.shiftl_mul_pow2 by lia. rewrite (split_byte (x + r * 2 ^ 8)) by lia.
  rewrite Z.mod_add, Z.mod_small, Z.shiftr_div_pow2, Z.div_add, Z.div_small by lia.
  by rewrite Z.shiftl_mul_pow2.
Qed.

Lemma feed_word crc x0 x1 x2 x3 : 0 <= crc < 2 ^ 32 -> bytes [x0; x1; x2; x3] ->
  Nat.iter 4 B (Z.lxor crc (x0 + Z.shiftl x1 8 + Z.shiftl x2 16 + Z.shiftl x3 24)) =
  feed crc [x0; x1; x2; x3].
Proof using B_range B_lxor B_shift.
  intros Hc Hb. repeat (apply Forall_cons_iff in Hb as [? Hb]). clear Hb.
  assert (E : x0 + Z.shiftl x1 8 + Z.shiftl x2 16 + Z.shiftl x3 24 =
    Z.lxor x0 (Z.shiftl (Z.lxor x1 (Z.shiftl (Z.lxor x2 (Z.shiftl x3 8)) 8)) 8)).
  { rewrite <-(add_byte_lxor x2), <-(add_byte_lxor x1), <-(add_byte_lxor x0);
      rewrite ?Z.shiftl_mul_pow2; lia. }
  assert (HA : 0 <= Z.lxor x2 (Z.shiftl x3 8) < 2 ^ 16).
  { rewrite <-add_byte_lxor by lia. rewrite Z.shiftl_mul_pow2; lia. }
  assert (HB : 0 <= Z.lxor x1 (Z.shiftl (Z.lxor x2 (Z.shiftl x3 8)) 8) < 2 ^ 24).
  { rewrite <-add_byte_lxor by lia. rewrite Z.shiftl_mul_pow2; lia. }
  assert (HC : forall a x, 0 <= a < 2 ^ 32 -> 0 <= x < 2 ^ 8 -> 0 <= B (Z.lxor a x) < 2 ^ 32).
  { intros a x Ha Hx. apply B_range, lxor_range; lia. }
  rewrite E, <-Z.lxor_assoc. change 4%nat with (S (S (S (S O)))). rewrite !Nat.iter_succ_r.
  rewrite B_word by (try done; apply lxor_range; lia).
  rewrite <-Z.lxor_assoc, B_word by (try lia; apply lxor_range; try lia; by apply HC).
  rewrite <-Z.lxor_assoc, B_word by (try lia; apply lxor_range; try lia; auto).
  done.
Qed.

(** What is left to feed: the first [len] bytes at the cursor. *)
Definition pending (total crc : Z) (p : cursor) (len : Z) : Prop :=
  0 <= crc < 2 ^ 32 /\ bytes p.2 /\ 0 <= len <= zlen p.2 /\
  feed crc (take (Z.to_nat len) p.2) = total.

Lemma pending_byte total crc p len : pending total crc p len -> 0 < len ->
  exists x p', next_byte p = Some (x, p') /\ fst p' = fst p + 1 /\
    DO_CRC tab crc x = Some (B (Z.lxor crc x)) /\ pending total (B (Z.lxor crc x)) p' (len - 1).
Proof using B_range B_lxor B_shift tab_ok.
  destruct p as [addr [|x rest]]; intros (Hc & Hb & Hl & Ht) Hpos; cbn [fst snd] in *.
  { change (zlen []) with 0 in Hl. lia. }
  apply Forall_cons_iff in Hb as [Hx Hb]. rewrite zlen_cons in Hl.
  exists x, (addr + 1, rest). split; [done|]. split; [done|]. split; [by apply DO_CRC_ok|].
  split; [apply B_range, lxor_range; lia|]. split; [done|]. split; [cbn [snd]; lia|].
  rewrite <-Ht. replace (Z.to_nat len) with (S (Z.to_nat (len - 1))) by lia. done.
Qed.

Lemma pending_word total crc p len : pending total crc p len -> 4 <= len -> fst p mod 4 = 0 ->
  exists w p', next_word p = Some (w, p') /\ fst p' = fst p + 4 /\
    DO_CRC4 tab (Z.lxor crc w) = Some (Nat.iter 4 B (Z.lxor crc w)) /\
    pending total (Nat.iter 4 B (Z.lxor crc w)) p' (len - 4).
Proof using B_range B_lxor B_shift tab_ok.
  destruct p as [addr rest]; intros (Hc & Hb & Hl & Ht) Hpos Ha; cbn [fst snd] in *.
  unfold zlen in Hl. destruct rest as [|x0 [|x1 [|x2 [|x3 rest]]]]; cbn [length] in Hl; [lia..|].
  assert (Hr : bytes [x0; x1; x2; x3] /\ bytes rest).
  { by apply Forall_app. }
  destruct Hr as [Hx Hr]. pose proof Hx as Hx'. repeat (apply Forall_cons_iff in Hx' as [? Hx']).
  exists (x0 + Z.shiftl x1 8 + Z.shiftl x2 16 + Z.shiftl x3 24), (addr + 4, rest).
  assert (Hw : 0 <= x0 + Z.shiftl x1 8 + Z.shiftl x2 16 + Z.shiftl x3 24 < 2 ^ 32).
  { rewrite !Z.shiftl_mul_pow2; lia. }
  split; [cbn [next_word]; by rewrite Ha|]. split; [done|].
  split; [by apply DO_CRC4_ok, lxor_range|]. rewrite feed_word by done.
  split; [by apply feed_range|]. split; [done|]. split; [cbn [snd]; unfold zlen; lia|].
  rewrite <-Ht. replace (Z.to_nat len) with (S (S (S (S (Z.to_nat (len - 4)))))) by lia. done.
Qed.

Lemma align_ok total crc buf len : pending total crc buf len ->
  exists crc' buf' len', crc32_align tab crc buf len = Some (crc', buf', len') /\
    pending total crc' buf' len' /\ (len' = 0 \/ fst buf' mod 4 = 0).
Proof using B_range B_lxor B_shift tab_ok.
  intros Hp. unfold crc32_align. change 3 with (2 ^ 2 - 1). rewrite land_ones_mod by lia.
  change (2 ^ 2) with 4. unfold truth.
  destruct (Z.eqb_spec (fst buf mod 4) 0); cbn [negb andb]; [by eauto 10|].
  destruct (Z.eqb_spec len 0); cbn [negb]; [by eauto 10|].
  assert (Hlen : 0 < len) by (destruct Hp; lia).
  destruct (loop_total (crc32_align_body tab)
    (fun '(crc, buf, len) => pending total crc buf len /\ 0 < len) (fun '(_, _, len) => len)
    (fun '(crc, buf, len) => pending total crc buf len /\ (len = 0 \/ fst buf mod 4 = 0)))
    with (bound := len + 1) (s := (crc, buf, len)) as ([[crc' buf'] len'] & E & H); [|done|lia|eauto 10].
  intros [[c p] l] [H Hl]. split; [lia|]. unfold crc32_align_body.
  destruct (pending_byte _ _ _ _ H Hl) as (x & p' & -> & Hp' & E & H'). cbn [mbind option_bind].
  rewrite E. cbn [mbind option_bind]. change 3 with (2 ^ 2 - 1). rewrite land_ones_mod by lia.
  change (2 ^ 2) with 4. unfold truth.
  bcases; [by split; [|lia]|by split; [|right]|split; [split; [done|lia]|lia]].
Qed.

Lemma words_ok total crc b len rem : pending total crc b (4 * len + rem) -> 0 <= len -> 0 <= rem ->
  len = 0 \/ fst b mod 4 = 0 ->
  exists crc' b', loop (crc32_word_body tab) (len + 1) (crc, b, len) = Some (crc', b') /\
    pending total crc' b' rem.
Proof using B_range B_lxor B_shift tab_ok.
  intros Hp Hlen Hrem Ha.
  destruct (loop_total (crc32_word_body tab)
    (fun '(crc, b, len) => pending total crc b (4 * len + rem) /\ 0 <= len /\ (len = 0 \/ fst b mod 4 = 0))
    (fun '(_, _, len) => len) (fun '(crc, b) => pending total crc b rem))
    with (bound := len + 1) (s := (crc, b, len)) as ([crc' b'] & E & H); [|done|lia|eauto 10].
  intros [[c p] l] (H & Hl & Ha'). split; [lia|]. unfold crc32_word_body.
  destruct (Z.eqb_spec l 0) as [->|Hl0]; [done|]. rewrite truth_nz by done.
  destruct (pending_word _ _ _ _ H) as (w & p' & -> & Hp' & E & H'); [lia..|].
  cbn [mbind option_bind]. rewrite E. cbn [mbind option_bind].
  replace (4 * l + rem - 4) with (4 * (l - 1) + rem) in H' by lia.
  split; [|lia]. split; [done|]. split; [lia|]. right. rewrite Hp'. zlia.
Qed.

Lemma tail_ok total crc p len : pending total crc p len -> 0 < len ->
  loop (crc32_tail_body tab) (len + 1) (crc, p, len) = Some total.
Proof using B_range B_lxor B_shift tab_ok.
  intros Hp Hlen.
  destruct (loop_total (crc32_tail_body tab)
    (fun '(crc, p, len) => pending total crc p len /\ 0 < len) (fun '(_, _, len) => len)
    (fun crc => crc = total))
    with (bound := len + 1) (s := (crc, p, len)) as (crc' & E & ->); [|done|lia|done].
  intros [[c q] l] [H Hl]. split; [lia|]. unfold crc32_tail_body.
  destruct (pending_byte _ _ _ _ H Hl) as (x & p' & -> & Hp' & E & H'). cbn [mbind option_bind].
  rewrite E. cbn [mbind option_bind]. unfold truth. bcases; [|split; [split; [done|lia]|lia]].
  destruct H' as (_ & _ & _ & H'). replace (l - 1) with 0 in H' by lia. done.
Qed.

Lemma crc32_body_ok crc addr buffer rest :
  0 <= crc < 2 ^ 32 -> bytes (buffer ++ rest) ->
  crc32_body tab crc (addr, buffer ++ rest) (zlen buffer) = Some (feed crc buffer).
Proof using B_range B_lxor B_shift tab_ok.
  intros Hc Hb. set (total := feed crc buffer).
  assert (H : pending total crc (addr, buffer ++ rest) (zlen buffer)).
  { split; [done|]. split; [done|]. split; [cbn [snd]; rewrite zlen_app; unfold zlen; lia|].
    cbn [snd]. unfold zlen. by rewrite Nat2Z.id, take_app_length. }
  unfold crc32_body.
  destruct (align_ok _ _ _ _ H) as (crc' & buf' & len' & -> & H' & Ha').
  cbn [mbind option_bind]. clear H Hb Hc. change 3 with (2 ^ 2 - 1).
  rewrite land_ones_mod, Z.shiftr_div_pow2 by lia. change (2 ^ 2) with 4.
  destruct H' as (Hc & Hb & Hl & Ht).
  destruct (words_ok total crc' buf' (len' / 4) (len' mod 4)) as (c & b & -> & H); [|zlia..|].
  { rewrite <-Z.div_mod by lia. done. }
  cbn [mbind option_bind]. unfold truth.
  destruct (Z.eqb_spec (len' mod 4) 0) as [E|E]; cbn [negb]; [|by apply tail_ok; [|zlia]].
  destruct H as (_ & _ & _ & H). rewrite E in H. by f_equal.
Qed.
End Register.

(** ** Proofs: little endian *)

Lemma tab_get_rows (f : nat -> Z -> Z) k i : (k < 4)%nat -> 0 <= i < 256 ->
  tab_get ((fun k => f k <$> range256) <$> seq 0 4) (Z.of_nat k) i = Some (f k i).
Proof.
  intros Hk Hi. unfold tab_get. rewrite arr_get_nat, Nat2Z.id, list_lookup_fmap, lookup_seq_lt by lia.
  cbn [fmap option_fmap option_map mbind option_bind]. by apply range256_get.
Qed.

Lemma lsb8_shift p y : lsb8 p (Z.shiftl y 8) = y.
Proof. rewrite Z.shiftl_mul_pow2 by lia. apply (lsb_iter_shift p 8). Qed.

Lemma lsb8_lxor p x y : lsb8 p (Z.lxor x y) = Z.lxor (lsb8 p x) (lsb8 p y).
Proof. apply (iter_lxor (lsb_step p) 8), lsb_step_lxor. Qed.

Lemma output_rows (t : Z -> Z) (f : nat -> Z -> Z) rows :
  output_table t ((fun k => f k <$> range256) <$> rows) = (fun k => (fun i => t (f k i)) <$> range256) <$> rows.
Proof.
  unfold output_table. rewrite <-list_fmap_compose. apply list_fmap_ext. intros _ k _.
  unfold compose. by rewrite <-list_fmap_compose.
Qed.

Lemma crc32_le_spec crc addr buffer rest : 0 <= crc < 2 ^ 32 -> bytes (buffer ++ rest) ->
  crc32_le crc (addr, buffer ++ rest) (zlen buffer) = Some (crc_lsb CRCPOLY_LE crc buffer).
Proof.
  intros Hc Hb. unfold crc32_le, crc32table_le. rewrite crc32init_le_ok.
  cbn [fmap option_fmap option_map mbind option_bind].
  rewrite (output_rows cpu_to_le32 (fun k => Nat.iter (S k) (lsb8 CRCPOLY_LE))).
  rewrite (crc32_body_ok (lsb8 CRCPOLY_LE)); [done|..].
  - intros x Hx. by apply (lsb8_range 32).
  - intros x y _ _. apply lsb8_lxor.
  - intros y _. apply lsb8_shift.
  - intros k i Hk Hi. by apply (tab_get_rows (fun k => Nat.iter (S k) (lsb8 CRCPOLY_LE))).
  - done.
  - done.
Qed.

(** ** Proofs: big endian, the same register with its bytes exchanged *)

Lemma bits32 (P : Z -> Prop) : Forall (fun n => P (Z.of_nat n)) (seq 0 32) -> forall i, 0 <= i < 32 -> P i.
Proof.
  intros H i Hi. rewrite <-(Z2Nat.id i) by lia. rewrite Forall_forall in H. apply H.
  apply in_seq. lia.
Qed.

Lemma bits32_eq x y : 0 <= x < 2 ^ 32 -> 0 <= y < 2 ^ 32 ->
  (forall i, 0 <= i < 32 -> Z.testbit x i = Z.testbit y i) -> x = y.
Proof.
  intros Hx Hy H. apply Z.bits_inj'. intros i Hi. destruct (Z.ltb_spec i 32); [by apply H|].
  by rewrite !(testbit_above 32).
Qed.

Lemma swab32_bit x : forall i, 0 <= i < 32 -> Z.testbit (swab32 x) i = Z.testbit x (8 * (3 - i / 8) + i mod 8).
Proof.
  apply bits32. cbn [seq]. unfold swab32.
  repeat (constructor; [testbits; cbn; by rewrite ?andb_true_r, ?andb_false_r, ?orb_false_r|]). constructor.
Qed.

Lemma swab32_range x : 0 <= swab32 x < 2 ^ 32.
Proof.
  assert (H0 : 0 <= swab32 x).
  { unfold swab32. rewrite !Z.lor_nonneg, !Z.shiftr_nonneg, Z.shiftl_nonneg, !Z.land_nonneg.
    pose proof (u32_range (Z.shiftl (Z.land x 255) 24)). lia. }
  split; [done|]. apply bits_bound; [lia|done|]. intros i Hi. unfold swab32. testbits.
  rewrite (proj2 (Z.ltb_ge i 32) Hi).
  assert (Hc : forall c, 0 <= c < 2 ^ 32 -> Z.testbit c i = false).
  { intros c Hc. by apply (testbit_above 32). }
  rewrite (testbit_above 16 0xff00 (i - 8)), (testbit_above 24 0xff0000 (i + 8)),
    (testbit_above 32 0xff000000 (i + 24)) by lia.
  by rewrite !andb_false_r.
Qed.

Lemma swab32_lxor x y : swab32 (Z.lxor x y) = Z.lxor (swab32 x) (swab32 y).
Proof.
  apply bits32_eq; [apply swab32_range|apply lxor_range; [lia|apply swab32_range..]|].
  intros i Hi. rewrite Z.lxor_spec, !swab32_bit, Z.lxor_spec by done. done.
Qed.

Lemma swab32_invol x : 0 <= x < 2 ^ 32 -> swab32 (swab32 x) = x.
Proof.
  intros Hx. apply bits32_eq; [apply swab32_range|done|]. intros i Hi.
  rewrite !swab32_bit by zlia. f_equal. zlia.
Qed.

Lemma swab32_byte b : 0 <= b < 2 ^ 8 -> swab32 b = Z.shiftl b 24.
Proof.
  intros Hb. apply bits32_eq; [apply swab32_range|rewrite Z.shiftl_mul_pow2; lia|].
  intros i Hi. rewrite swab32_bit, Z.shiftl_spec by lia. destruct (Z.ltb_spec i 24).
  - rewrite (testbit_above 8 b) by zlia. by rewrite Z.testbit_neg_r by lia.
  - f_equal. zlia.
Qed.

Lemma swab32_up y : 0 <= y < 2 ^ 24 ->
  swab32 (Z.shiftl y 8) = Z.shiftr (swab32 y) 8 /\ Z.shiftl (Z.shiftr (swab32 y) 8) 8 = swab32 y.
Proof.
  intros Hy. pose proof (swab32_range y) as Hs.
  assert (Hr : 0 <= Z.shiftr (swab32 y) 8 < 2 ^ 24) by (rewrite Z.shiftr_div_pow2 by lia; zlia).
  split; (apply bits32_eq; [try apply swab32_range; try (rewrite Z.shiftl_mul_pow2; lia)|lia|]); intros i Hi.
  - rewrite swab32_bit, Z.shiftr_spec, Z.shiftl_spec by zlia. destruct (Z.ltb_spec i 24).
    + rewrite swab32_bit by lia. f_equal. zlia.
    + rewrite (testbit_above 32 (swab32 y)) by lia. apply Z.testbit_neg_r. zlia.
  - rewrite Z.shiftl_spec by lia. destruct (Z.ltb_spec i 8).
    + rewrite Z.testbit_neg_r, swab32_bit, (testbit_above 24 y) by zlia. done.
    + rewrite Z.shiftr_spec by lia. f_equal. lia.
Qed.

Definition be_register (x : Z) : Z := swab32 (msb8 32 CRCPOLY_BE (swab32 x)).

Lemma msb8_lxor x y : msb8 32 CRCPOLY_BE (Z.lxor x y) = Z.lxor (msb8 32 CRCPOLY_BE x) (msb8 32 CRCPOLY_BE y).
Proof. apply (iter_lxor (msb_step 32 CRCPOLY_BE) 8). intros. by apply msb_step_lxor. Qed.

Lemma be_register_shift y : 0 <= y < 2 ^ 24 -> be_register (Z.shiftl y 8) = y.
Proof.
  intros Hy. unfold be_register. destruct (swab32_up y Hy) as [-> H2].
  assert (Hr : 0 <= Z.shiftr (swab32 y) 8 < 2 ^ 24).
  { pose proof (swab32_range y). rewrite Z.shiftr_div_pow2 by lia. zlia. }
  replace (msb8 32 CRCPOLY_BE (Z.shiftr (swab32 y) 8)) with (Z.shiftl (Z.shiftr (swab32 y) 8) 8).
  - rewrite H2. apply swab32_invol. lia.
  - rewrite Z.shiftl_mul_pow2 by lia. symmetry. by apply (msb_iter_shift 32 CRCPOLY_BE 8).
Qed.

Lemma be_register_iter k i : 0 <= i < 256 ->
  swab32 (Nat.iter k (msb8 32 CRCPOLY_BE) (Z.shiftl i 24)) = Nat.iter k be_register i.
Proof.
  intros Hi. induction k as [|k IH].
  - cbn [Nat.iter nat_rect]. rewrite <-swab32_byte by lia. apply swab32_invol. lia.
  - rewrite !Nat.iter_succ, <-IH. unfold be_register. rewrite swab32_invol; [done|].
    destruct k as [|k]; [cbn [Nat.iter nat_rect]; rewrite Z.shiftl_mul_pow2; lia|].
    rewrite Nat.iter_succ. by apply msb8_range.
Qed.

Lemma feed_be crc buffer : 0 <= crc < 2 ^ 32 -> bytes buffer ->
  feed be_register (swab32 crc) buffer = swab32 (crc_msb 32 CRCPOLY_BE crc buffer).
Proof.
  intros Hc Hb. unfold feed, crc_msb. revert crc Hc.
  induction Hb as [|b buffer Hb' Hb IH]; intros crc Hc; [done|]. cbn [foldl].
  rewrite <-IH by by apply msb8_range. f_equal. unfold be_register.
  rewrite swab32_lxor, swab32_invol, (swab32_byte b) by done. done.
Qed.

Lemma crc_msb_range crc buffer : 0 <= crc < 2 ^ 32 -> 0 <= crc_msb 32 CRCPOLY_BE crc buffer < 2 ^ 32.
Proof.
  unfold crc_msb. revert crc. induction buffer as [|b buffer IH]; intros crc Hc; [done|]. cbn [foldl].
  by apply IH, msb8_range.
Qed.

Lemma crc32_be_spec crc addr buffer rest : 0 <= crc < 2 ^ 32 -> bytes (buffer ++ rest) ->
  crc32_be crc (addr, buffer ++ rest) (zlen buffer) = Some (crc_msb 32 CRCPOLY_BE crc buffer).
Proof.
  intros Hc Hb. unfold crc32_be, crc32table_be. rewrite crc32init_be_ok.
  cbn [fmap option_fmap option_map mbind option_bind].
  rewrite (output_rows cpu_to_be32 (fun k i => Nat.iter (S k) (msb8 32 CRCPOLY_BE) (Z.shiftl i 24))).
  unfold cpu_to_be32, be32_to_cpu.
  rewrite (crc32_body_ok be_register).
  - cbn [mbind option_bind]. rewrite feed_be, swab32_invol; [done|by apply crc_msb_range|done|].
    by apply Forall_app in Hb as [? _].
  - intros x _. apply swab32_range.
  - intros x y _ _. unfold be_register. by rewrite swab32_lxor, msb8_lxor, swab32_lxor.
  - apply be_register_shift.
  - intros k i Hk Hi. rewrite (tab_get_rows (fun k i => swab32 (Nat.iter (S k) (msb8 32 CRCPOLY_BE) (Z.shiftl i 24)))) by done.
    by rewrite be_register_iter.
  - apply swab32_range.
  - done.
Qed.

(** ** Proofs: the bit-at-a-time variants *)

Lemma crc32_le_1bit_ok crc : crc32_le_1bit crc = lsb_step CRCPOLY_LE crc.
Proof.
  unfold crc32_le_1bit, lsb_step. change (Z.land crc 1) with (Z.land crc (2 ^ 0)).
  by rewrite truth_testbit.
Qed.

Lemma crc32_be_1bit_ok crc : crc32_be_1bit crc = msb_step 32 CRCPOLY_BE crc.
Proof.
  unfold crc32_be_1bit, msb_step. change 0x80000000 with (2 ^ 31). by rewrite truth_testbit.
Qed.

Lemma iter_ext {A} (f g : A -> A) n x : (forall y, f y = g y) -> Nat.iter n f x = Nat.iter n g x.
Proof. intros H. induction n as [|n IH]; simpl; [done|]. by rewrite IH, H. Qed.

Lemma crc32_le_1_spec crc buffer rest : bytes buffer ->
  crc32_le_1 crc (buffer ++ rest) (length buffer) = Some (crc_lsb CRCPOLY_LE crc buffer).
Proof.
  intros Hb. apply (over_buffer_ok (fun _ => True)); [|done..]. intros c b _ _. split; [|done].
  f_equal. apply iter_ext, crc32_le_1bit_ok.
Qed.

Lemma crc32_be_1_spec crc buffer rest : bytes buffer ->
  crc32_be_1 crc (buffer ++ rest) (length buffer) = Some (crc_msb 32 CRCPOLY_BE crc buffer).
Proof.
  intros Hb. apply (over_buffer_ok (fun _ => True)); [|done..]. intros c b _ _. split; [|done].
  f_equal. apply iter_ext, crc32_be_1bit_ok.
Qed.

(** ** The properties of the component *)

(** C35: the configured [crc32_le], which aligns the buffer and then takes a
    word at a time through four generated tables, and [crc32_be], which runs the same
    loop over byte-exchanged tables and a byte-exchanged register, return what their
    bit-at-a-time variants of the same file return, at every address and for
    every buffer, and read no byte outside it. *)
Theorem crc32_equiv crc addr buffer rest : 0 <= crc < 2 ^ 32 -> bytes (buffer ++ rest) ->
  crc32_le crc (addr, buffer ++ rest) (zlen buffer) = crc32_le_1 crc (buffer ++ rest) (length buffer) /\
  is_Some (crc32_le crc (addr, buffer ++ rest) (zlen buffer)) /\
  crc32_be crc (addr, buffer ++ rest) (zlen buffer) = crc32_be_1 crc (buffer ++ rest) (length buffer) /\
  is_Some (crc32_be crc (addr, buffer ++ rest) (zlen buffer)).
Proof.
  intros Hc Hb. assert (bytes buffer) by by apply Forall_app in Hb as [? _].
  rewrite crc32_le_spec, crc32_be_spec, crc32_le_1_spec, crc32_be_1_spec by done. by eauto.
Qed.

Lemma crc32_equiv_witness :
  crc32_le 0xffffffff (3, [1; 2; 3; 4; 5; 6; 7; 8] ++ []) 8 = crc32_le_1 0xffffffff ([1; 2; 3; 4; 5; 6; 7; 8] ++ []) 8 /\
  is_Some (crc32_be 0xffffffff (3, [1; 2; 3; 4; 5; 6; 7; 8] ++ []) 8).
Proof.
  destruct (crc32_equiv 0xffffffff 3 [1; 2; 3; 4; 5; 6; 7; 8] []) as (H1 & _ & _ & H2); [lia|repeat constructor; lia|].
  exact (conj H1 H2).
Defined.
