(* ===== verification/Sort.v ===== *)
(** Sorting and searching arrays: the heap sort lib/sort.c, over raw bytes
    with a comparison and an exchange function, and lib/bsearch.c.  The
    component's contract with its clients is [Comparator] (what the
    comparison has to be) and [SwapFunc] (what the exchange has to do); the
    default exchange functions of the file are instances of it.  The theorems
    say that [sort] terminates, touches only the array, permutes its elements
    and leaves them ascending, and that [bsearch] finds a matching element of
    an ascending array exactly when there is one. *)
From S2P Require Import Prelude.
From Stdlib Require Import Sorting.Sorted.

(** ** Memory: the array as bytes *)

(** The element of [size] bytes at [base + o], as a callback sees it. *)
Definition chunk (mem : list Z) (o size : Z) : option (list Z) :=
  if (0 <=? o) && (o + size <=? zlen mem)
  then Some (take (Z.to_nat size) (drop (Z.to_nat o) mem)) else None.

(** Writes the bytes [bs] at [base + o]. *)
Definition store (mem : list Z) (o : Z) (bs : list Z) : option (list Z) :=
  if (0 <=? o) && (o + zlen bs <=? zlen mem)
  then Some (take (Z.to_nat o) mem ++ bs ++ drop (Z.to_nat o + length bs) mem) else None.

(** ** lib/sort.c *)

(** [swap_func (base + a, base + b, size)] *)
Definition swap_fn : Type := list Z -> Z -> Z -> Z -> option (list Z).

Definition u32_swap : swap_fn := fun mem a b size =>
  t ← chunk mem a 4;
  x ← chunk mem b 4;
  mem ← store mem a x;
  store mem b t.

Definition generic_swap_body : list Z * Z * Z * Z -> option (step (list Z * Z * Z * Z) (list Z)) :=
  fun '(mem, a, b, size) =>
    t ← mem.[a];
    x ← mem.[b];
    mem ← mem.[a <- x];
    mem ← mem.[b <- t];
    let size := size - 1 in
    Some (if 0 <? size then Next (mem, a + 1, b + 1, size) else Done mem).

Definition generic_swap : swap_fn := fun mem a b size =>
  loop generic_swap_body (size + 1) (mem, a, b, size).

Section Heapsort.
Context (cmp_func : list Z -> list Z -> Z) (swap_func : swap_fn) (size : Z).

(** [if (c < n - size && cmp_func(base + c, base + c + size) < 0) c += size;] *)
Definition sift_child (mem : list Z) (n c : Z) : option Z :=
  if u32 c <? u32 (n - size) then
    x ← chunk mem c size;
    y ← chunk mem (c + size) size;
    Some (if cmp_func x y <? 0 then s32 (c + size) else c)
  else Some c.

(** The inner loop of both phases, down from [r] in the heap below [n]. *)
Definition sift_body (n : Z) : list Z * Z -> option (step (list Z * Z) (list Z)) :=
  fun '(mem, r) =>
    if u32 (s32 (r * 2) + size) <? u32 n then
      let c := s32 (u32 (s32 (r * 2) + size)) in
      c ← sift_child mem n c;
      x ← chunk mem r size;
      y ← chunk mem c size;
      if 0 <=? cmp_func x y then Some (Done mem)
      else mem ← swap_func mem r c size; Some (Next (mem, c))
    else Some (Done mem).

Definition heapify_body (n : Z) : list Z * Z -> option (step (list Z * Z) (list Z)) :=
  fun '(mem, i) =>
    if 0 <=? i then
      mem ← loop (sift_body n) (n + 1) (mem, i);
      Some (Next (mem, s32 (i - size)))
    else Some (Done mem).

Definition sort_body : list Z * Z -> option (step (list Z * Z) (list Z)) :=
  fun '(mem, i) =>
    if 0 <? i then
      mem ← swap_func mem 0 i size;
      mem ← loop (sift_body i) (i + 1) (mem, 0);
      Some (Next (mem, s32 (i - size)))
    else Some (Done mem).

Definition heapsort (mem : list Z) (num : Z) : option (list Z) :=
  let i := s32 (u32 (num / 2 - 1) * size) in
  let n := s32 (num * size) in
  mem ← loop (heapify_body n) (num + 1) (mem, i);
  let i := s32 (n - size) in
  loop sort_body (num + 1) (mem, i).
End Heapsort.

Definition sort (mem : list Z) (num size : Z) (cmp_func : list Z -> list Z -> Z) (swap_func : option swap_fn) : option (list Z) :=
  let swap_func := match swap_func with
                   | Some f => f
                   | None => if size =? 4 then u32_swap else generic_swap
                   end in
  heapsort cmp_func swap_func size mem num.

(** ** lib/bsearch.c *)

Section Bsearch.
Context {K : Type} (key : K) (mem : list Z) (size : Z) (cmp : K -> list Z -> Z).

(** The result is the offset of the element, or none for [NULL]. *)
Definition bsearch_body : Z * Z -> option (step (Z * Z) (option Z)) :=
  fun '(start, end_) =>
    if start <? end_ then
      let mid := ulong (start + (end_ - start) / 2) in
      elt ← chunk mem (ulong (mid * size)) size;
      let result := cmp key elt in
      if result <? 0 then Some (Next (start, mid))
      else if 0 <? result then Some (Next (ulong (mid + 1), end_))
      else Some (Done (Some (ulong (mid * size))))
    else Some (Done None).

Definition bsearch (num : Z) : option (option Z) :=
  loop bsearch_body (num + 1) (0, num).
End Bsearch.

(** ** The contracts *)

(** A three-way comparison of the elements in [P]. *)
Class Comparator {E : Type} (P : E -> Prop) (cmp : E -> E -> Z) : Prop := {
  cmp_swap : forall a b, P a -> P b -> cmp a b < 0 <-> 0 < cmp b a;
  cmp_trans : forall a b c, P a -> P b -> P c -> cmp a b <= 0 -> cmp b c <= 0 -> cmp a c <= 0
}.

(** The elements at two places of an array, exchanged. *)
Definition exchange {E} (es : list E) (i j : nat) : list E :=
  match es !! i, es !! j with
  | Some a, Some b => <[i := b]> (<[j := a]> es)
  | _, _ => es
  end.

(** The bytes of an array of elements of [size] bytes each. *)
Definition elements (size : Z) (es : list (list Z)) : Prop := Forall (fun e => zlen e = size) es.

Class SwapFunc (swap : swap_fn) (size : Z) : Prop :=
  swap_spec : forall es i j, elements size es -> (i < length es)%nat -> (j < length es)%nat -> i <> j ->
    swap (concat es) (Z.of_nat i * size) (Z.of_nat j * size) size = Some (concat (exchange es i j)).

Definition ascending {E} (cmp : E -> E -> Z) : list E -> Prop := StronglySorted (fun a b => cmp a b <= 0).

(** ** Proofs: arrays of elements *)

Lemma elements_insert size es k e : elements size es -> zlen e = size -> elements size (<[k := e]> es).
Proof. intros. by apply Forall_insert. Qed.

Lemma elements_lookup size es k e : elements size es -> es !! k = Some e -> zlen e = size.
Proof. intros Hes He. by eapply Forall_lookup_1 in Hes. Qed.

Lemma zlen_concat size es : elements size es -> zlen (concat es) = zlen es * size.
Proof.
  induction 1 as [|e es He Hes IH]; [done|]. cbn [concat]. rewrite zlen_app, zlen_cons, IH. lia.
Qed.

(** The bytes before an element, the element, and the bytes after it. *)
Lemma concat_split size es k e : elements size es -> es !! k = Some e ->
  concat es = concat (take k es) ++ e ++ concat (drop (S k) es) /\
  zlen (concat (take k es)) = Z.of_nat k * size /\ zlen e = size.
Proof.
  intros Hes Hk. split; [|split].
  - rewrite <-(take_drop_middle es k e Hk) at 1. by rewrite concat_app.
  - rewrite (zlen_concat size) by by apply Forall_take.
    unfold zlen. rewrite length_take_le; [done|]. apply lookup_lt_Some in Hk. lia.
  - by eapply elements_lookup.
Qed.

Lemma chunk_mid size (u v w : list Z) : zlen v = size -> chunk (u ++ v ++ w) (zlen u) size = Some v.
Proof.
  intros <-. unfold chunk. rewrite !zlen_app. pose proof (zlen_nonneg u). pose proof (zlen_nonneg w).
  bcases. unfold zlen. rewrite !Nat2Z.id, drop_app_length, take_app_length. done.
Qed.

Lemma chunk_concat size es k e : elements size es -> es !! k = Some e ->
  chunk (concat es) (Z.of_nat k * size) size = Some e.
Proof.
  intros Hes Hk. destruct (concat_split size es k e Hes Hk) as (-> & <- & He). by apply chunk_mid.
Qed.

Lemma concat_insert (es : list (list Z)) k e e' : es !! k = Some e ->
  concat (<[k := e']> es) = concat (take k es) ++ e' ++ concat (drop (S k) es).
Proof.
  intros Hk. rewrite insert_take_drop by by eapply lookup_lt_Some. by rewrite concat_app.
Qed.

Lemma store_concat size es k bs : elements size es -> (k < length es)%nat -> zlen bs = size ->
  store (concat es) (Z.of_nat k * size) bs = Some (concat (<[k := bs]> es)).
Proof.
  intros Hes Hk Hbs. apply lookup_lt_is_Some in Hk as [e Hk].
  rewrite (concat_insert es k e) by done.
  destruct (concat_split size es k e Hes Hk) as (-> & <- & He). unfold store.
  rewrite !zlen_app. pose proof (zlen_nonneg (concat (take k es))).
  pose proof (zlen_nonneg (concat (drop (S k) es))). bcases. unfold zlen in *.
  rewrite !Nat2Z.id, take_app_length, drop_app_add, drop_app_length' by lia. done.
Qed.

Lemma concat_get size es k e d : elements size es -> es !! k = Some e -> 0 <= d < size ->
  (concat es).[Z.of_nat k * size + d] = e.[d].
Proof.
  intros Hes Hk Hd. destruct (concat_split size es k e Hes Hk) as (-> & <- & He).
  rewrite arr_get_app_r by lia. rewrite arr_get_app_l by lia. f_equal. lia.
Qed.

Lemma concat_set size es k e d x : elements size es -> es !! k = Some e -> 0 <= d < size ->
  (concat es).[Z.of_nat k * size + d <- x] = Some (concat (<[k := <[Z.to_nat d := x]> e]> es)).
Proof.
  intros Hes Hk Hd. rewrite (concat_insert es k e) by done.
  destruct (concat_split size es k e Hes Hk) as (-> & <- & He).
  rewrite arr_set_Some by (rewrite !zlen_app; pose proof (zlen_nonneg (concat (take k es)));
    pose proof (zlen_nonneg (concat (drop (S k) es))); lia).
  unfold zlen in *. replace (Z.to_nat (_ + d)) with (length (concat (take k es)) + Z.to_nat d)%nat by lia.
  rewrite insert_app_r, insert_app_l by lia. done.
Qed.

(** ** Proofs: the default exchange functions keep the contract *)

Lemma exchange_Some {E} (es : list E) i j a b : es !! i = Some a -> es !! j = Some b ->
  exchange es i j = <[i := b]> (<[j := a]> es).
Proof. intros Ha Hb. unfold exchange. by rewrite Ha, Hb. Qed.

#[export] Instance u32_swap_ok : SwapFunc u32_swap 4.
Proof.
  intros es i j Hes [a Ha]%lookup_lt_is_Some [b Hb]%lookup_lt_is_Some Hij. unfold u32_swap.
  pose proof (elements_lookup _ _ _ _ Hes Ha). pose proof (elements_lookup _ _ _ _ Hes Hb).
  rewrite (chunk_concat _ _ _ _ Hes Ha), (chunk_concat _ _ _ _ Hes Hb). cbn [mbind option_bind].
  rewrite store_concat by eauto using lookup_lt_Some. cbn [mbind option_bind].
  rewrite store_concat; [|by apply elements_insert|rewrite length_insert; eauto using lookup_lt_Some|done].
  by rewrite (exchange_Some _ _ _ _ _ Ha Hb), list_insert_insert_ne.
Qed.

(** An element of which the first [t] bytes are replaced by those of [b]. *)
Definition blend (t : nat) (b a : list Z) : list Z := take t b ++ drop t a.

Lemma zlen_blend t b a : zlen a = zlen b -> Z.of_nat t <= zlen b -> zlen (blend t b a) = zlen b.
Proof. unfold zlen, blend. rewrite length_app, length_take, length_drop. lia. Qed.

Lemma blend_get t b a : zlen a = zlen b -> Z.of_nat t < zlen b -> (blend t b a).[Z.of_nat t] = a.[Z.of_nat t].
Proof.
  unfold zlen, blend. intros Hl Ht. rewrite !arr_get_nat, Nat2Z.id by lia.
  rewrite lookup_app_r; rewrite length_take; [|lia]. rewrite lookup_drop. f_equal. lia.
Qed.

Lemma blend_set t b a x : zlen a = zlen b -> b.[Z.of_nat t] = Some x ->
  <[t := x]> (blend t b a) = blend (S t) b a.
Proof.
  intros Hl Hx. pose proof (arr_get_range _ _ _ Hx) as Hr. rewrite arr_get_nat, Nat2Z.id in Hx by lia.
  unfold blend, zlen in *. rewrite (take_S_r b t x Hx), <-app_assoc.
  destruct (lookup_lt_is_Some_2 a t) as [y Hy]; [lia|]. rewrite (drop_S a y t Hy).
  replace t with (length (take t b) + 0)%nat at 1 by (rewrite length_take; lia).
  rewrite insert_app_r. done.
Qed.

Section Generic.
Context (es : list (list Z)) (size : Z) (i j : nat) (a b : list Z).
Context (Hes : elements size es) (Ha : es !! i = Some a) (Hb : es !! j = Some b) (Hij : i <> j).

Definition swapped (t : nat) : list (list Z) := <[i := blend t b a]> (<[j := blend t a b]> es).

Definition swap_inv : list Z * Z * Z * Z -> Prop := fun '(mem, p, q, todo) =>
  exists t, (Z.of_nat t < size) /\ mem = concat (swapped t) /\
    p = Z.of_nat i * size + Z.of_nat t /\ q = Z.of_nat j * size + Z.of_nat t /\ todo = size - Z.of_nat t.

Lemma generic_swap_step s : swap_inv s ->
  body_ok generic_swap_body swap_inv (fun '(_, _, _, todo) => todo)
    (fun mem => mem = concat (exchange es i j)) s.
Proof using All.
  destruct s as [[[mem p] q] todo]. intros (t & Ht & -> & -> & -> & ->). split; [lia|].
  pose proof (elements_lookup _ _ _ _ Hes Ha) as La. pose proof (elements_lookup _ _ _ _ Hes Hb) as Lb.
  pose proof (lookup_lt_Some _ _ _ Ha) as Li. pose proof (lookup_lt_Some _ _ _ Hb) as Lj.
  assert (Ea : zlen (blend t b a) = size) by (rewrite zlen_blend; lia).
  assert (Eb : zlen (blend t a b) = size) by (rewrite zlen_blend; lia).
  assert (Hsw : elements size (swapped t)) by by do 2 (apply elements_insert; [|done]).
  assert (Hi : swapped t !! i = Some (blend t b a)).
  { apply list_lookup_insert_eq. by rewrite length_insert. }
  assert (Hj : swapped t !! j = Some (blend t a b)).
  { unfold swapped. rewrite list_lookup_insert_ne by done. by apply list_lookup_insert_eq. }
  destruct (arr_get_is_Some a (Z.of_nat t)) as [x Hx]; [lia|].
  destruct (arr_get_is_Some b (Z.of_nat t)) as [y Hy]; [lia|].
  unfold generic_swap_body.
  rewrite (concat_get size _ _ _ _ Hsw Hi), (blend_get t b a), Hx by lia. cbn [mbind option_bind].
  rewrite (concat_get size _ _ _ _ Hsw Hj), (blend_get t a b), Hy by lia. cbn [mbind option_bind].
  rewrite (concat_set size _ _ _ _ _ Hsw Hi), Nat2Z.id, blend_set by (try lia; done). cbn [mbind option_bind].
  assert (Ea' : zlen (blend (S t) b a) = size) by (rewrite zlen_blend; lia).
  erewrite (concat_set size _ j); [|by apply elements_insert|by rewrite list_lookup_insert_ne|lia].
  rewrite Nat2Z.id, blend_set by (try lia; done). cbn [mbind option_bind].
  replace (<[j := _]> _) with (swapped (S t)).
  2:{ unfold swapped. rewrite list_insert_insert_eq, (list_insert_insert_ne (<[j := blend t a b]> es) j i) by done.
      by rewrite list_insert_insert_eq. }
  bcases; [split; [|lia]; exists (S t); repeat split; try done; lia|].
  rewrite (exchange_Some _ _ _ _ _ Ha Hb). unfold swapped, blend, zlen in *.
  by rewrite !take_ge, !drop_ge, !app_nil_r by lia.
Qed.
End Generic.

Lemma generic_swap_ok size : 0 < size -> SwapFunc generic_swap size.
Proof.
  intros Hs es i j Hes [a Ha]%lookup_lt_is_Some [b Hb]%lookup_lt_is_Some Hij. unfold generic_swap.
  destruct (loop_total generic_swap_body (swap_inv es size i j a b) (fun '(_, _, _, todo) => todo)
    (fun mem => mem = concat (exchange es i j)))
    with (bound := size + 1) (s := (concat es, Z.of_nat i * size, Z.of_nat j * size, size))
    as (mem & -> & ->); [| |lia|done].
  - intros s. by apply generic_swap_step.
  - exists 0%nat. unfold swapped, blend. rewrite !take_0, !drop_0. cbn [app].
    rewrite (list_insert_id es j) by done. rewrite list_insert_id by done. repeat split; lia.
Qed.

(** ** Proofs: heaps *)

Lemma exchange_lookup {E} (es : list E) i j a b k : es !! i = Some a -> es !! j = Some b ->
  exchange es i j !! k = if decide (k = i) then Some b else if decide (k = j) then Some a else es !! k.
Proof.
  intros Ha Hb. rewrite (exchange_Some _ _ _ _ _ Ha Hb).
  pose proof (lookup_lt_Some _ _ _ Ha). pose proof (lookup_lt_Some _ _ _ Hb).
  rewrite !list_lookup_insert, length_insert. repeat case_decide; destruct_and?; subst; try congruence; exfalso; tauto.
Qed.

Lemma exchange_app {E} (pre suf : list E) i j : (i < length pre)%nat -> (j < length pre)%nat ->
  exchange (pre ++ suf) i j = exchange pre i j ++ suf.
Proof.
  intros Hi Hj. unfold exchange. rewrite !lookup_app_l by done.
  destruct (lookup_lt_is_Some_2 pre i Hi) as [a ->], (lookup_lt_is_Some_2 pre j Hj) as [b ->].
  by rewrite !insert_app_l by (rewrite ?length_insert; done).
Qed.

Lemma exchange_length {E} (es : list E) i j : length (exchange es i j) = length es.
Proof. unfold exchange. by repeat case_match; rewrite ?length_insert. Qed.

Lemma exchange_Permutation {E} (es : list E) i j : i <> j -> exchange es i j ≡ₚ es.
Proof.
  intros Hij. destruct (es !! i) as [a|] eqn:Ha; [|by unfold exchange; rewrite Ha].
  destruct (es !! j) as [b|] eqn:Hb; [|by unfold exchange; rewrite Ha, Hb].
  rewrite (exchange_Some _ _ _ _ _ Ha Hb).
  pose proof (lookup_lt_Some _ _ _ Ha). pose proof (lookup_lt_Some _ _ _ Hb).
  assert (Hi : (<[j := a]> es) !! i = Some a) by by rewrite list_lookup_insert_ne.
  apply (Permutation_cons_inv (a := a)). etrans; [by apply insert_cons_Permutation|by apply insert_cons_Permutation].
Qed.

Definition child (p c : nat) : Prop := c = (2 * p + 1)%nat \/ c = (2 * p + 2)%nat.

Section Heap.
Context {E : Type} (cmp : E -> E -> Z) (P : E -> Prop) {Hcmp : Comparator P cmp}.
Implicit Types es : list E.

(** The element at [p] is not below the one at [c]. *)
Definition dom es (p c : nat) : Prop :=
  forall a b, es !! p = Some a -> es !! c = Some b -> cmp b a <= 0.

Definition heap_from es (s : nat) : Prop := forall p c, (s <= p)%nat -> child p c -> dom es p c.

(** A heap but for the place [r], whose children are below its parent. *)
Definition heap_but es (s r : nat) : Prop :=
  (forall p c, (s <= p)%nat -> child p c -> p <> r -> dom es p c) /\
  (forall p c, (s <= p)%nat -> child p r -> child r c -> dom es p c).

Lemma cmp_le a b : P a -> P b -> 0 <= cmp a b <-> cmp b a <= 0.
Proof using Hcmp. intros Ha Hb. pose proof (cmp_swap a b Ha Hb). lia. Qed.

Lemma cmp_refl a : P a -> cmp a a <= 0.
Proof using Hcmp. intros Ha. pose proof (cmp_swap a a Ha Ha). lia. Qed.

Lemma heap_start es s : heap_from es (S s) -> heap_but es s s.
Proof using.
  intros H. split.
  - intros p c Hp Hc Hne. apply H; [lia|done].
  - intros p c Hp Hs _. unfold child in Hs. lia.
Qed.

(** The larger of the children of [r]. *)
Definition larger_child es (r c : nat) : Prop :=
  child r c /\ (c < length es)%nat /\ (forall k, child r k -> dom es c k).

Lemma heap_stop es s r c x y : Forall P es -> heap_but es s r -> larger_child es r c ->
  es !! r = Some x -> es !! c = Some y -> 0 <= cmp x y -> heap_from es s.
Proof using Hcmp.
  intros HP [Hh _] (Hc & Hcl & Hdom) Hx Hy Hle p k Hp Hk.
  destruct (decide (p = r)) as [->|Hne]; [|by apply Hh].
  intros a b Ha Hb. assert (a = x) as -> by congruence.
  pose proof (Forall_lookup_1 _ _ _ _ HP Hx) as Px. pose proof (Forall_lookup_1 _ _ _ _ HP Hy) as Py.
  pose proof (Forall_lookup_1 _ _ _ _ HP Hb) as Pb.
  apply (cmp_trans b y x); [done..|by eapply Hdom|]. by apply cmp_le.
Qed.

Lemma heap_down es s r c x y : Forall P es -> (s <= r)%nat -> heap_but es s r -> larger_child es r c ->
  es !! r = Some x -> es !! c = Some y -> cmp x y < 0 -> heap_but (exchange es r c) s c.
Proof using Hcmp.
  intros HP Hs [Hh Hg] (Hc & Hcl & Hdom) Hx Hy Hlt.
  assert (Hrc : (r < c)%nat) by (unfold child in Hc; lia).
  assert (HL : forall k, exchange es r c !! k =
    if decide (k = r) then Some y else if decide (k = c) then Some x else es !! k).
  { intros k. by apply exchange_lookup. }
  split.
  - intros p k Hp Hk Hne a b. rewrite !HL. repeat case_decide; intros Ha Hb; simplify_eq.
    + unfold child in Hk. lia.
    + lia.
    + by eapply Hdom.
    + by eapply (Hg p c).
    + unfold child in *. lia.
    + by eapply (Hh p k).
  - intros p k Hp Hpc Hk a b. assert (p = r) as -> by (unfold child in *; lia).
    rewrite !HL. repeat case_decide; intros Ha Hb; simplify_eq; try (unfold child in *; lia).
    by eapply (Hh c k); [lia| |lia|..].
Qed.

(** A place without children is in order. *)
Lemma heap_leaf es s r : heap_but es s r -> (length es <= 2 * r + 1)%nat -> heap_from es s.
Proof using.
  intros [Hh _] Hlen p c Hp Hc. destruct (decide (p = r)) as [->|Hne]; [|by apply Hh].
  intros a b _ Hb. apply lookup_lt_Some in Hb. unfold child in Hc. lia.
Qed.

(** The root of a heap is a maximum. *)
Lemma heap_max es x : Forall P es -> heap_from es 0 -> es !! 0%nat = Some x ->
  forall k b, es !! k = Some b -> cmp b x <= 0.
Proof using Hcmp.
  intros HP Hh Hx k. induction (lt_wf k) as [k _ IH]. intros b Hb.
  pose proof (Forall_lookup_1 _ _ _ _ HP Hx) as Px. pose proof (Forall_lookup_1 _ _ _ _ HP Hb) as Pb.
  destruct (decide (k = 0)%nat) as [->|Hk]; [assert (b = x) as -> by congruence; by apply cmp_refl|].
  assert (exists p, child p k) as [p Hp].
  { exists ((k - 1) / 2)%nat. unfold child. pose proof (Nat.div_mod_eq (k - 1) 2).
    pose proof (Nat.mod_upper_bound (k - 1) 2). lia. }
  assert (p < k)%nat by (unfold child in Hp; lia).
  destruct (lookup_lt_is_Some_2 es p) as [a Ha]; [apply lookup_lt_Some in Hb; lia|].
  pose proof (Forall_lookup_1 _ _ _ _ HP Ha) as Pa.
  apply (cmp_trans b a x); [done..| |by eapply IH]. eapply (Hh p k); [lia|done..].
Qed.
End Heap.

(** ** Proofs: the loops of the sort *)

Lemma u32_s32_add x y : u32 (s32 x + y) = u32 (x + y).
Proof. unfold u32, s32. zlia. Qed.

Lemma Forall_perm {A} (Q : A -> Prop) l k : l ≡ₚ k -> Forall Q k -> Forall Q l.
Proof. intros ->. done. Qed.

Section Heapsort_ok.
Context (cmp : list Z -> list Z -> Z) (P : list Z -> Prop) {Hcmp : Comparator P cmp}.
Context (swap : swap_fn) (size : Z) {Hswap : SwapFunc swap size} (Hsize : 0 < size).
Implicit Types pre suf : list (list Z).

Lemma scale_ltb a b : (a * size <? b * size) = (a <? b).
Proof using Hsize. bcases; nia. Qed.

Lemma chunk_pre pre suf k e : elements size (pre ++ suf) -> pre !! k = Some e ->
  chunk (concat (pre ++ suf)) (Z.of_nat k * size) size = Some e.
Proof using. intros Hes Hk. apply chunk_concat; [done|]. by apply lookup_app_l_Some. Qed.

Lemma sift_child_ok pre suf R : elements size (pre ++ suf) -> Forall P pre ->
  zlen pre * size < 2 ^ 31 -> (2 * R + 1 < length pre)%nat ->
  exists C, larger_child cmp pre R C /\
    sift_child cmp size (concat (pre ++ suf)) (zlen pre * size) (Z.of_nat (2 * R + 1) * size) =
      Some (Z.of_nat C * size).
Proof using Hcmp Hsize.
  intros Hes HP Hn HR. unfold sift_child, zlen in *.
  assert (Hb : 0 <= Z.of_nat (2 * R + 1) * size < Z.of_nat (length pre) * size) by nia.
  assert (Hn' : 0 <= Z.of_nat (length pre) * size - size) by nia.
  rewrite !u32_small by lia.
  replace (Z.of_nat (length pre) * size - size) with ((Z.of_nat (length pre) - 1) * size) by lia.
  rewrite scale_ltb. replace (Z.of_nat (2 * R + 1) * size + size) with (Z.of_nat (2 * R + 2) * size) by lia.
  destruct (lookup_lt_is_Some_2 pre (2 * R + 1)) as [x Hx]; [done|].
  pose proof (Forall_lookup_1 _ _ _ _ HP Hx) as Px.
  destruct (Z.ltb_spec (Z.of_nat (2 * R + 1)) (Z.of_nat (length pre) - 1)).
  - destruct (lookup_lt_is_Some_2 pre (2 * R + 2)) as [y Hy]; [lia|].
    pose proof (Forall_lookup_1 _ _ _ _ HP Hy) as Py.
    rewrite (chunk_pre _ _ _ _ Hes Hx), (chunk_pre _ _ _ _ Hes Hy). cbn [mbind option_bind].
    rewrite s32_small by nia. destruct (Z.ltb_spec (cmp x y) 0).
    + exists (2 * R + 2)%nat. split; [|done]. split; [by right|]. split; [lia|].
      intros k [-> | ->] a b Ha Hb'; simplify_eq; [lia|by apply (cmp_refl cmp P)].
    + exists (2 * R + 1)%nat. split; [|done]. split; [by left|]. split; [lia|].
      intros k [-> | ->] a b Ha Hb'; simplify_eq; [by apply (cmp_refl cmp P)|].
      by apply (cmp_le cmp P).
  - exists (2 * R + 1)%nat. split; [|done]. split; [by left|]. split; [lia|].
    intros k [-> | ->] a b Ha Hb'; simplify_eq; [by apply (cmp_refl cmp P)|].
    apply lookup_lt_Some in Hb'. lia.
Qed.

(** Sifting the element at [R] down makes the heap above [s] whole. *)
Definition sift_post pre suf s (mem : list Z) : Prop :=
  exists pre', mem = concat (pre' ++ suf) /\ pre' ≡ₚ pre /\ heap_from cmp pre' s.

Definition sift_inv pre suf s : list Z * Z -> Prop := fun '(mem, r) =>
  exists pre' R, mem = concat (pre' ++ suf) /\ pre' ≡ₚ pre /\ r = Z.of_nat R * size /\
    (s <= R < length pre)%nat /\ heap_but cmp pre' s R.

Lemma sift_step pre suf s st : elements size (pre ++ suf) -> Forall P pre -> zlen pre * size < 2 ^ 31 ->
  sift_inv pre suf s st ->
  body_ok (sift_body cmp swap size (zlen pre * size)) (sift_inv pre suf s)
    (fun '(_, r) => zlen pre * size - r) (sift_post pre suf s) st.
Proof using Hcmp Hswap Hsize.
  destruct st as [mem r]. intros Hes HP Hn (pre' & R & -> & Hp & -> & HR & Hh).
  assert (Hlen : length pre' = length pre) by by rewrite Hp.
  assert (Hes' : elements size (pre' ++ suf)) by (eapply Forall_perm; [by rewrite Hp|done]).
  assert (HP' : Forall P pre') by by eapply Forall_perm.
  assert (Hb : 0 <= Z.of_nat R * size <= zlen pre * size - size) by (unfold zlen; nia).
  split; [lia|]. unfold sift_body. rewrite u32_s32_add.
  rewrite !u32_small by lia.
  replace (Z.of_nat R * size * 2 + size) with (Z.of_nat (2 * R + 1) * size) by lia.
  rewrite scale_ltb. unfold zlen in Hb, Hn |- *. rewrite <-Hlen in *.
  destruct (Z.ltb_spec (Z.of_nat (2 * R + 1)) (Z.of_nat (length pre'))) as [Hc|Hc].
  2:{ exists pre'. split; [done|]. split; [done|]. eapply heap_leaf; [done|lia]. }
  rewrite s32_small by nia.
  destruct (sift_child_ok pre' suf R) as (C & HC & E); [done..|lia|]. unfold zlen in E. rewrite E.
  cbn [mbind option_bind]. pose proof HC as (HCc & HCl & _).
  destruct (lookup_lt_is_Some_2 pre' R) as [x Hx]; [lia|].
  destruct (lookup_lt_is_Some_2 pre' C) as [y Hy]; [lia|].
  rewrite (chunk_pre _ _ _ _ Hes' Hx), (chunk_pre _ _ _ _ Hes' Hy). cbn [mbind option_bind].
  destruct (Z.leb_spec 0 (cmp x y)).
  - exists pre'. split; [done|]. split; [done|]. by eapply (heap_stop cmp P).
  - assert (HRC : (R < C)%nat) by (unfold child in HCc; lia).
    rewrite swap_spec by (try rewrite length_app; done || lia). cbn [mbind option_bind].
    split; [|nia]. exists (exchange pre' R C), C. rewrite exchange_app by lia. split; [done|].
    split; [by rewrite exchange_Permutation by lia|]. split; [done|]. split; [lia|].
    eapply (heap_down cmp P); eauto; lia.
Qed.

Lemma sift_ok pre suf s R : elements size (pre ++ suf) -> Forall P pre -> zlen pre * size < 2 ^ 31 ->
  (s <= R < length pre)%nat -> heap_but cmp pre s R ->
  exists mem, loop (sift_body cmp swap size (zlen pre * size)) (zlen pre * size + 1)
                (concat (pre ++ suf), Z.of_nat R * size) = Some mem /\ sift_post pre suf s mem.
Proof using Hcmp Hswap Hsize.
  intros Hes HP Hn HR Hh.
  apply loop_total with (I := sift_inv pre suf s) (m := fun '(_, r) => zlen pre * size - r); [| |lia].
  - intros st. by apply sift_step.
  - by exists pre, R.
Qed.

Lemma s32_u32_mul a b : s32 (u32 a * b) = s32 (a * b).
Proof using.
  unfold s32, u32. f_equal.
  rewrite <-(Z.add_mod_idemp_l (a mod 2 ^ 32 * b)), <-(Z.add_mod_idemp_l (a * b)) by lia.
  by rewrite Z.mul_mod_idemp_l.
Qed.

Section Phases.
Context (es rest : list (list Z)) (Hes : elements size (es ++ rest)) (HP : Forall P es).
Context (Hn : zlen es * size < 2 ^ 31) (Hs : size < 2 ^ 31).

Definition heapify_inv : list Z * Z -> Prop := fun '(mem, i) =>
  exists es' k, mem = concat (es' ++ rest) /\ es' ≡ₚ es /\ i = k * size /\ -1 <= k < Z.max 1 (zlen es) /\
    (0 <= k -> k < zlen es) /\ heap_from cmp es' (Z.to_nat (k + 1)).

Lemma heapify_step st : heapify_inv st ->
  body_ok (heapify_body cmp swap size (zlen es * size)) heapify_inv (fun '(_, i) => i / size + 1)
    (fun mem => exists es', mem = concat (es' ++ rest) /\ es' ≡ₚ es /\ heap_from cmp es' 0) st.
Proof using All.
  destruct st as [mem i]. intros (es' & k & -> & Hp & -> & Hk & Hkl & Hh).
  split; [rewrite Z.div_mul; lia|]. unfold heapify_body.
  assert (Hlen : zlen es' = zlen es) by (unfold zlen; by rewrite Hp).
  destruct (Z.leb_spec 0 (k * size)) as [Hk0|Hk0].
  2:{ exists es'. split; [done|]. split; [done|]. by replace (Z.to_nat (k + 1)) with 0%nat in Hh by nia. }
  assert (0 <= k) by nia. rewrite <-Hlen, <-(Z2Nat.id k) by lia.
  destruct (sift_ok es' rest (Z.to_nat k) (Z.to_nat k)) as (mem & -> & pre & -> & Hp' & Hh').
  - eapply Forall_perm; [by rewrite Hp|done].
  - by eapply Forall_perm.
  - by rewrite Hlen.
  - unfold zlen in *. lia.
  - apply heap_start. by replace (S (Z.to_nat k)) with (Z.to_nat (k + 1)) by lia.
  - cbn [mbind option_bind]. rewrite Z2Nat.id in * by lia.
    replace (k * size - size) with ((k - 1) * size) by lia. rewrite s32_small by nia.
    split; [|rewrite !Z.div_mul by lia; lia].
    exists pre, (k - 1). split; [done|]. split; [by rewrite Hp'|].
    split; [done|]. split; [lia|]. split; [lia|]. by replace (k - 1 + 1) with k by lia.
Qed.

Lemma heapify_ok : exists es', es' ≡ₚ es /\ heap_from cmp es' 0 /\
  loop (heapify_body cmp swap size (zlen es * size)) (zlen es + 1)
    (concat (es ++ rest), s32 (u32 (zlen es / 2 - 1) * size)) = Some (concat (es' ++ rest)).
Proof using All.
  pose proof (zlen_nonneg es) as Hnn.
  assert (Hi : s32 (u32 (zlen es / 2 - 1) * size) = (zlen es / 2 - 1) * size).
  { rewrite s32_u32_mul. apply s32_small.
    assert (-1 <= zlen es / 2 - 1 < Z.max 1 (zlen es)) by zlia. nia. }
  rewrite Hi.
  destruct (loop_total (heapify_body cmp swap size (zlen es * size)) heapify_inv (fun '(_, i) => i / size + 1)
    (fun mem => exists es', mem = concat (es' ++ rest) /\ es' ≡ₚ es /\ heap_from cmp es' 0))
    with (bound := zlen es + 1) (s := (concat (es ++ rest), (zlen es / 2 - 1) * size))
    as (mem & -> & es' & -> & Hp & Hh); [apply heapify_step| | |by eauto].
  - exists es, (zlen es / 2 - 1). split; [done|]. split; [done|]. split; [done|].
    split; [zlia|]. split; [zlia|]. intros p c Hc Hch a b _ Hb. apply lookup_lt_Some in Hb.
    unfold child, zlen in *. zlia.
  - rewrite Z.div_mul by lia. zlia.
Qed.

Definition sort_inv : list Z * Z -> Prop := fun '(mem, i) =>
  exists pre suf, mem = concat (pre ++ suf ++ rest) /\ pre ++ suf ≡ₚ es /\ i = (zlen pre - 1) * size /\
    heap_from cmp pre 0 /\ ascending cmp suf /\
    Forall (fun b => Forall (fun a => cmp a b <= 0) pre) suf.

Definition sorted_result (mem : list Z) : Prop :=
  exists es', mem = concat (es' ++ rest) /\ es' ≡ₚ es /\ ascending cmp es'.

Lemma exchange_ends {E} (x y : E) mid : exchange (x :: mid ++ [y]) 0 (S (length mid)) = y :: mid ++ [x].
Proof using.
  rewrite (exchange_Some _ _ _ x y); [|done|by cbn; apply list_lookup_middle].
  pose proof (insert_app_r mid [y] 0 x) as H. rewrite Nat.add_0_r in H. exact (f_equal (cons y) H).
Qed.

Lemma sort_swap x mid y suf : elements size (x :: mid ++ y :: suf) ->
  swap (concat (x :: mid ++ y :: suf)) 0 (Z.of_nat (S (length mid)) * size) size =
  Some (concat ((y :: mid) ++ x :: suf)).
Proof using All.
  intros Hel. change 0 with (Z.of_nat 0 * size).
  assert (E : x :: mid ++ y :: suf = (x :: mid ++ [y]) ++ suf) by by cbn; rewrite <-app_assoc.
  rewrite swap_spec; [|done|cbn; rewrite ?length_app; cbn; lia..].
  rewrite E, exchange_app by (cbn; rewrite ?length_app; cbn; lia). rewrite exchange_ends. cbn.
  by rewrite <-app_assoc.
Qed.

Lemma heap_drop_root x y mid : heap_from cmp (x :: mid ++ [y]) 0 -> heap_but cmp (y :: mid) 0 0.
Proof using.
  intros Hh. apply heap_start. intros [|p] [|c] Hp Hc a b; [lia..|unfold child in Hc; lia|].
  cbn. intros Ha Hb. apply (Hh (S p) (S c)); [lia|done|..]; cbn; by apply lookup_app_l_Some.
Qed.

Lemma sort_phase_step st : sort_inv st ->
  body_ok (sort_body cmp swap size) sort_inv (fun '(_, i) => i / size + 1) sorted_result st.
Proof using All.
  destruct st as [mem i]. intros (pre & suf & -> & Hp & -> & Hh & Hsuf & Hle).
  pose proof (zlen_nonneg pre) as Hnn. assert (Hl : zlen pre + zlen suf = zlen es).
  { rewrite <-zlen_app. unfold zlen. by rewrite Hp. }
  pose proof (zlen_nonneg suf) as Hnn'. split; [rewrite Z.div_mul; lia|]. unfold sort_body.
  destruct (Z.ltb_spec 0 ((zlen pre - 1) * size)) as [Hi|Hi].
  2:{ exists (pre ++ suf). split; [by rewrite <-app_assoc|]. split; [done|].
      destruct pre as [|a [|a' pre]]; [done| |unfold zlen in Hi; cbn in Hi; nia].
      constructor; [done|]. eapply Forall_impl; [|exact Hle]. intros b Hb. by decompose_Forall_hyps. }
  assert (1 < zlen pre) by nia. destruct pre as [|x pre]; [unfold zlen in *; cbn in *; lia|].
  destruct (exists_last (l := pre)) as (mid & y & ->); [intros ->; unfold zlen in *; cbn in *; lia|].
  assert (Hz : (zlen (x :: mid ++ [y]) - 1) * size = zlen (y :: mid) * size).
  { rewrite !zlen_cons, zlen_app. change (zlen [y]) with 1. lia. }
  rewrite Hz in *. assert (Ez : zlen (y :: mid) * size = Z.of_nat (S (length mid)) * size) by done.
  cbn [app] in *. rewrite <-!app_assoc in *. cbn [app] in *.
  assert (Hel : elements size ((x :: mid ++ y :: suf) ++ rest)) by (eapply Forall_perm; [by rewrite Hp|done]).
  cbn [app] in Hel. rewrite <-app_assoc in Hel. cbn [app] in Hel. rewrite Ez, sort_swap, <-Ez by done.
  cbn [mbind option_bind].
  assert (Hperm : (y :: mid) ++ x :: suf ≡ₚ es).
  { rewrite <-Hp. cbn. by rewrite <-!Permutation_middle, Permutation_swap. }
  assert (HPy : Forall P ((y :: mid) ++ x :: suf)) by by eapply Forall_perm.
  apply Forall_app in HPy as [HPy HPx].
  change 0 with (Z.of_nat 0 * size).
  destruct (sift_ok (y :: mid) (x :: suf ++ rest) 0 0) as (mem & -> & pre' & -> & Hp' & Hh');
    [|done|nia|cbn; lia|by eapply heap_drop_root|].
  { change (elements size ((y :: mid) ++ (x :: suf) ++ rest)). rewrite app_assoc.
    eapply Forall_perm; [by rewrite Hperm|done]. }
  cbn [mbind option_bind].
  rewrite s32_small by nia.
  assert (Hmax : Forall (fun a => cmp a x <= 0) (y :: mid)).
  { apply Forall_lookup. intros k a Ha.
    assert (Hin : a ∈ x :: mid ++ [y]).
    { rewrite elem_of_cons, elem_of_app. right.
      apply list_elem_of_lookup_2, elem_of_cons in Ha as [->|Ha]; [right; by apply list_elem_of_singleton|by left]. }
    apply list_elem_of_lookup in Hin as [k' Hk']. eapply (heap_max cmp P (x :: mid ++ [y])); [|done..].
    eapply Forall_perm; [|apply Forall_app; split; [exact HPy|apply Forall_cons_iff in HPx as [Hx _]; by apply Forall_singleton]].
    cbn. by rewrite <-!Permutation_cons_append, Permutation_swap. }
  replace (zlen (y :: mid) * size - size) with ((zlen (y :: mid) - 1) * size) by lia.
  split; [|rewrite !Z.div_mul by lia; lia].
  exists pre', (x :: suf). split; [done|]. split; [by rewrite Hp'|].
  split; [unfold zlen; rewrite Hp'; lia|]. split; [done|]. split.
  - constructor; [done|]. eapply Forall_impl; [|exact Hle]. intros b Hb. by decompose_Forall_hyps.
  - constructor; [by eapply Forall_perm|]. eapply Forall_impl; [|exact Hle]. intros b Hb.
    eapply Forall_perm; [exact Hp'|]. decompose_Forall_hyps. by constructor.
Qed.
End Phases.

Lemma heapsort_ok es rest : elements size (es ++ rest) -> Forall P es -> zlen es * size < 2 ^ 31 -> size < 2 ^ 31 ->
  exists es', heapsort cmp swap size (concat (es ++ rest)) (zlen es) = Some (concat (es' ++ rest)) /\
    es' ≡ₚ es /\ ascending cmp es'.
Proof using Hcmp Hswap Hsize.
  intros Hes HP Hn Hs. unfold heapsort. pose proof (zlen_nonneg es).
  rewrite (s32_small (zlen es * size)) by nia.
  destruct (heapify_ok es rest) as (h & Hp & Hh & ->); [done..|]. cbn [mbind option_bind].
  replace (zlen es * size - size) with ((zlen es - 1) * size) by lia. rewrite s32_small by nia.
  destruct (loop_total (sort_body cmp swap size) (sort_inv es rest) (fun '(_, i) => i / size + 1) (sorted_result es rest))
    with (bound := zlen es + 1) (s := (concat (h ++ rest), (zlen es - 1) * size))
    as (mem & -> & es' & -> & Hp' & Ha); [by apply sort_phase_step| | |by eauto].
  - exists h, []. rewrite app_nil_r. split; [done|]. split; [done|].
    split; [unfold zlen; by rewrite Hp|]. split; [done|]. split; constructor.
  - rewrite Z.div_mul by lia. lia.
Qed.
End Heapsort_ok.

(** ** Proofs: binary search *)

(** The elements below [key], then those that match it, then those above. *)
Definition partitioned {K} (key : K) (cmp : K -> list Z -> Z) (es : list (list Z)) : Prop :=
  forall i j a b, (i < j)%nat -> es !! i = Some a -> es !! j = Some b ->
    (cmp key a < 0 -> cmp key b < 0) /\ (0 < cmp key b -> 0 < cmp key a).

Section Bsearch_ok.
Context {K : Type} (key : K) (cmp : K -> list Z -> Z) (size : Z) (es : list (list Z)).
Context (Hes : elements size es) (Hsize : 0 < size) (Hlen : zlen es * size < 2 ^ 32).
Context (Hpart : partitioned key cmp es).

Definition bsearch_post (r : option Z) : Prop :=
  match r with
  | Some o => exists k e, o = Z.of_nat k * size /\ es !! k = Some e /\ cmp key e = 0
  | None => forall k e, es !! k = Some e -> cmp key e <> 0
  end.

Definition bsearch_inv : Z * Z -> Prop := fun '(start, end_) =>
  0 <= start <= end_ /\ end_ <= zlen es /\
  (forall k e, es !! k = Some e -> Z.of_nat k < start -> 0 < cmp key e) /\
  (forall k e, es !! k = Some e -> end_ <= Z.of_nat k -> cmp key e < 0).

Lemma bsearch_step s : bsearch_inv s ->
  body_ok (bsearch_body key (concat es) size cmp) bsearch_inv (fun '(start, end_) => end_ - start) bsearch_post s.
Proof using Hes Hsize Hlen Hpart.
  destruct s as [start end_]. intros (Hs & He & Hlo & Hhi). split; [lia|]. unfold bsearch_body.
  destruct (Z.ltb_spec start end_) as [Hlt|Hge].
  2:{ intros k e Hk. destruct (Z.ltb_spec (Z.of_nat k) start) as [H|H].
      - specialize (Hlo k e Hk H). lia.
      - specialize (Hhi k e Hk ltac:(lia)). lia. }
  assert (Hm : start <= start + (end_ - start) / 2 < end_) by zlia.
  assert (Hlen' : zlen es < 2 ^ 32) by nia.
  rewrite (ulong_small (start + _)) by lia. set (mid := start + (end_ - start) / 2) in *. cbv zeta.
  rewrite !(ulong_small (mid * size)) by nia. rewrite (ulong_small (mid + 1)) by lia.
  destruct (lookup_lt_is_Some_2 es (Z.to_nat mid)) as [e Hk]; [unfold zlen in *; lia|].
  pose proof (chunk_concat size es _ e Hes Hk) as Hch. rewrite Z2Nat.id in Hch by lia.
  rewrite Hch. cbn [mbind option_bind].
  destruct (Z.ltb_spec (cmp key e) 0) as [Hn|Hn]; [|destruct (Z.ltb_spec 0 (cmp key e)) as [Hp|Hp]].
  - split; [|lia]. split; [lia|]. split; [lia|]. split; [done|]. intros k e' Hk' Hge.
    destruct (decide (k = Z.to_nat mid)) as [->|Hne]; [by simplify_eq|].
    eapply (Hpart (Z.to_nat mid) k); [lia|done..].
  - split; [|lia]. split; [lia|]. split; [lia|]. split; [|done]. intros k e' Hk' Hge.
    destruct (decide (k = Z.to_nat mid)) as [->|Hne]; [by simplify_eq|].
    eapply (Hpart k (Z.to_nat mid)); [lia|done..].
  - exists (Z.to_nat mid), e. split; [lia|]. split; [done|lia].
Qed.

Lemma bsearch_ok : exists r, bsearch key (concat es) size cmp (zlen es) = Some r /\ bsearch_post r.
Proof using Hes Hsize Hlen Hpart.
  pose proof (zlen_nonneg es).
  apply loop_total with (I := bsearch_inv) (m := fun '(start, end_) => end_ - start);
    [apply bsearch_step| |lia].
  split; [lia|]. split; [lia|]. split; [intros; lia|]. intros k e Hk. apply lookup_lt_Some in Hk.
  unfold zlen. lia.
Qed.
End Bsearch_ok.

(** ** The properties of the component *)

(** Little-endian words as elements, and their comparison. *)
Definition word_of (e : list Z) : Z := foldr (fun b acc => b + 256 * acc) 0 e.
Definition cmp_words (a b : list Z) : Z := word_of a - word_of b.

#[export] Instance cmp_words_ok : Comparator (fun _ => True) cmp_words.
Proof. split; unfold cmp_words; lia. Qed.

Lemma sort_ok cmp P (Hcmp : Comparator P cmp) swap_func size es rest :
  match swap_func with Some f => SwapFunc f size | None => True end ->
  0 < size < 2 ^ 31 -> zlen es * size < 2 ^ 31 -> elements size (es ++ rest) -> Forall P es ->
  exists es', sort (concat (es ++ rest)) (zlen es) size cmp swap_func = Some (concat (es' ++ rest)) /\
    elements size es' /\ es' ≡ₚ es /\ ascending cmp es'.
Proof.
  intros Hf Hsize Hn Hes HP.
  assert (HF : SwapFunc (match swap_func with Some f => f | None => if size =? 4 then u32_swap else generic_swap end) size).
  { destruct swap_func; [done|]. destruct (Z.eqb_spec size 4) as [->|]; [apply u32_swap_ok|apply generic_swap_ok; lia]. }
  destruct (heapsort_ok cmp P (Hcmp := Hcmp) _ size (Hswap := HF)) with (es := es) (rest := rest) as (es' & E & Hp & Ha); try done; try lia.
  exists es'. split; [exact E|]. split; [|done].
  apply Forall_app in Hes as [Hes _]. by eapply Forall_perm.
Qed.

(** C18: [sort] returns for every array, comparison and exchange function that
    keep their contracts, also without an exchange function; the result is a
    permutation of the elements in ascending order.  The elements after the
    [num] first stay as they are, and no byte outside the memory is touched
    (an access there has no result). *)
Theorem sort_sorts cmp P (Hcmp : Comparator P cmp) swap_func size es rest :
  match swap_func with Some f => SwapFunc f size | None => True end ->
  0 < size < 2 ^ 31 -> zlen es * size < 2 ^ 31 -> elements size (es ++ rest) -> Forall P es ->
  exists es', sort (concat (es ++ rest)) (zlen es) size cmp swap_func = Some (concat (es' ++ rest)) /\
    elements size es' /\ es' ≡ₚ es /\ ascending cmp es'.
Proof. by apply sort_ok. Qed.

Lemma sort_sorts_witness :
  exists es', sort (concat ([[3; 1]; [2; 0]; [3; 0]; [1; 0]] ++ [[0; 0]])) 4 2 cmp_words None =
      Some (concat (es' ++ [[0; 0]])) /\
    elements 2 es' /\ es' ≡ₚ [[3; 1]; [2; 0]; [3; 0]; [1; 0]] /\ ascending cmp_words es'.
Proof.
  apply (sort_sorts cmp_words (fun _ => True) cmp_words_ok None 2 [[3; 1]; [2; 0]; [3; 0]; [1; 0]] [[0; 0]]);
    [done|lia|vm_compute; reflexivity|repeat constructor|repeat constructor].
Defined.

(** [bsearch] returns an element that matches the key if the array, in
    ascending order, holds one, and [NULL] exactly if it holds none. *)
Theorem bsearch_finds {K} (key : K) cmp size es :
  elements size es -> 0 < size -> zlen es * size < 2 ^ 32 -> partitioned key cmp es ->
  exists r, bsearch key (concat es) size cmp (zlen es) = Some r /\
    match r with
    | Some o => exists k e, o = Z.of_nat k * size /\ es !! k = Some e /\ cmp key e = 0
    | None => forall k e, es !! k = Some e -> cmp key e <> 0
    end.
Proof. intros. by apply bsearch_ok. Qed.

Lemma bsearch_finds_witness :
  exists r, bsearch 7 (concat [[3]; [5]; [7]; [9]]) 1 (fun k e => k - word_of e) 4 = Some r /\
    match r with
    | Some o => exists k e, o = Z.of_nat k * 1 /\ [[3]; [5]; [7]; [9]] !! k = Some e /\ 7 - word_of e = 0
    | None => forall k e, [[3]; [5]; [7]; [9]] !! k = Some e -> 7 - word_of e <> 0
    end.
Proof.
  apply (bsearch_finds 7 (fun k e => k - word_of e) 1 [[3]; [5]; [7]; [9]]);
    [repeat constructor|lia|vm_compute; reflexivity|].
  intros i j a b Hij Hi Hj.
  do 4 (destruct i as [|i]; [do 4 (destruct j as [|j]; [cbn in *; simplify_eq; cbn; lia|]); done|]). done.
Defined.
