(* ===== verification/ListSort.v ===== *)
(** * Sorting linked lists: lib/list_sort.c

    list_sort() sorts a doubly linked list by merging.  While it works the lists are singly linked and end with NULL;
    the last merge restores the links back.  The theorem is that the result is a well-formed doubly linked list of the same nodes, sorted, in
    which equal elements keep their order. *)

From stdpp Require Import list gmap sorting.
From S2P Require Import Prelude.

(** ** Definitions *)

(** A pointer is the address of a node, and NULL is 0. *)
Record list_head := { next : Z; prev : Z }.
Abbreviation memory := (gmap Z list_head).

Definition set_next (m : memory) (p v : Z) : option memory := n ← m !! p; Some (<[p := {| next := v; prev := prev n |}]> m).
Definition set_prev (m : memory) (p v : Z) : option memory := n ← m !! p; Some (<[p := {| next := next n; prev := v |}]> m).
Definition get_next (m : memory) (p : Z) : option Z := next <$> m !! p.

Definition MAX_LIST_LENGTH_BITS : Z := 20.

Section ListSort.
(** [cmp] is the caller's comparison, with [priv] bound; [local] is the address of the local variable [head] of merge(). *)
Context (cmp : Z -> Z -> Z) (local : Z).

(** (memory, a, b, tail) *)
Definition merge_lists_body (st : memory * Z * Z * Z) : option (step (memory * Z * Z * Z) (memory * Z * Z * Z)) :=
  let '(m, a, b, tail) := st in
  if truth a && truth b then
    if cmp a b <=? 0 then
      m ← set_next m tail a;
      a' ← get_next m a;
      tail ← get_next m tail;
      Some (Next (m, a', b, tail))
    else
      m ← set_next m tail b;
      b' ← get_next m b;
      tail ← get_next m tail;
      Some (Next (m, a, b', tail))
  else Some (Done st).
Definition merge (m : memory) (a b : Z) : option (memory * Z) :=
  r ← loop merge_lists_body (Z.of_nat (size m) + 1) (m, a, b, local);
  let '(m, a, b, tail) := r in
  m ← set_next m tail (if truth a then a else b);
  h ← get_next m local;
  Some (m, h).

(** The same with the links back. *)
Definition merge_back_body (st : memory * Z * Z * Z) : option (step (memory * Z * Z * Z) (memory * Z * Z * Z)) :=
  let '(m, a, b, tail) := st in
  if truth a && truth b then
    if cmp a b <=? 0 then
      m ← set_next m tail a;
      m ← set_prev m a tail;
      a' ← get_next m a;
      tail ← get_next m tail;
      Some (Next (m, a', b, tail))
    else
      m ← set_next m tail b;
      m ← set_prev m b tail;
      b' ← get_next m b;
      tail ← get_next m tail;
      Some (Next (m, a, b', tail))
  else Some (Done st).
(** The do loop over the rest: (memory, tail).  The comparison it calls, whose result is not used, is left out. *)
Definition back_links_body (st : memory * Z) : option (step (memory * Z) (memory * Z)) :=
  let '(m, tail) := st in
  t ← get_next m tail;
  m ← set_prev m t tail;
  tail ← get_next m tail;
  t ← get_next m tail;
  if truth t then Some (Next (m, tail)) else Some (Done (m, tail)).
Definition merge_and_restore_back_links (m : memory) (head a b : Z) : option memory :=
  r ← loop merge_back_body (Z.of_nat (size m) + 1) (m, a, b, head);
  let '(m, a, b, tail) := r in
  m ← set_next m tail (if truth a then a else b);
  r ← loop back_links_body (Z.of_nat (size m) + 1) (m, tail);
  let '(m, tail) := r in
  m ← set_next m tail head;
  set_prev m head tail.

(** (memory, part, cur, lev) *)
Definition levels_body (st : memory * list Z * Z * Z) : option (step (memory * list Z * Z * Z) (memory * list Z * Z * Z)) :=
  let '(m, part, cur, lev) := st in
  p ← part.[lev];
  if truth p then
    r ← merge m p cur;
    let '(m, cur) := r in
    part ← part.[lev <- 0];
    Some (Next (m, part, cur, lev + 1))
  else Some (Done st).

(** (memory, part, max_lev, list) *)
Definition distribute_body (st : memory * list Z * Z * Z) : option (step (memory * list Z * Z * Z) (memory * list Z * Z)) :=
  let '(m, part, max_lev, list) := st in
  if truth list then
    let cur := list in
    list ← get_next m list;
    m ← set_next m cur 0;
    r ← loop levels_body (MAX_LIST_LENGTH_BITS + 2) (m, part, cur, 0);
    let '(m, part, cur, lev) := r in
    let '(lev, max_lev) := if max_lev <? lev then
                             let lev := if MAX_LIST_LENGTH_BITS <=? lev then lev - 1 else lev in (lev, lev)
                           else (lev, max_lev) in
    part ← part.[lev <- cur];
    Some (Next (m, part, max_lev, list))
  else Some (Done (m, part, max_lev)).

(** (memory, lev, list) *)
Definition collect_body (part : list Z) (max_lev : Z) (st : memory * Z * Z) : option (step (memory * Z * Z) (memory * Z)) :=
  let '(m, lev, list) := st in
  if lev <? max_lev then
    p ← part.[lev];
    if truth p then
      r ← merge m p list;
      let '(m, list) := r in
      Some (Next (m, lev + 1, list))
    else Some (Next (m, lev + 1, list))
  else Some (Done (m, list)).

Definition list_sort (m : memory) (head : Z) : option memory :=
  h ← m !! head;
  if next h =? head then Some m
  else
    let part := replicate (Z.to_nat (MAX_LIST_LENGTH_BITS + 1)) 0 in
    m ← set_next m (prev h) 0;
    list ← get_next m head;
    r ← loop distribute_body (Z.of_nat (size m) + 1) (m, part, 0, list);
    let '(m, part, max_lev) := r in
    r ← loop (collect_body part max_lev) (MAX_LIST_LENGTH_BITS + 2) (m, 0, 0);
    let '(m, list) := r in
    a ← part.[max_lev];
    merge_and_restore_back_links m head a list.
End ListSort.

(** ** Chains of nodes *)

Definition get_prev (m : memory) (p : Z) : option Z := prev <$> m !! p.

(** The nodes [l], in order, end with NULL and begin at [p]. *)
Fixpoint chain (m : memory) (p : Z) (l : list Z) : Prop :=
  match l with
  | [] => p = 0
  | x :: l => p = x /\ x <> 0 /\ exists v, get_next m x = Some v /\ chain m v l
  end.

(** The nodes [l] follow [p]. *)
Fixpoint linked (m : memory) (p : Z) (l : list Z) : Prop :=
  match l with [] => True | x :: l => get_next m p = Some x /\ linked m x l end.
Fixpoint back_linked (m : memory) (p : Z) (l : list Z) : Prop :=
  match l with [] => True | x :: l => get_prev m x = Some p /\ back_linked m x l end.

Fixpoint end_of (p : Z) (l : list Z) : Z := match l with [] => p | x :: l => end_of x l end.

Lemma end_of_snoc p l x : end_of p (l ++ [x]) = x.
Proof. revert p. induction l as [|y l IH]; intros p; [done|]. apply IH. Qed.

Lemma end_of_in p l : end_of p l ∈ (p :: l).
Proof. revert p. induction l as [|y l IH]; intros p; simpl; [left|right; apply IH]. Qed.

Lemma end_of_app p l x k : end_of p (l ++ x :: k) = end_of x k.
Proof. revert p. induction l as [|y l IH]; intros p; [done|]. apply IH. Qed.

Lemma chain_frame m m' p l : (forall x, x ∈ l -> get_next m' x = get_next m x) -> chain m p l -> chain m' p l.
Proof.
  revert p. induction l as [|x l IH]; intros p Hf; [done|]. intros (-> & H0 & v & Hv & Hc). split; [done|]. split; [done|].
  exists v. rewrite Hf by left. split; [done|]. apply IH; [|done]. intros y Hy. apply Hf. by right.
Qed.

Lemma linked_frame m m' p l : (forall x, x ∈ (p :: l) -> get_next m' x = get_next m x) -> linked m p l -> linked m' p l.
Proof.
  revert p. induction l as [|x l IH]; intros p Hf; [done|]. intros [Hp Hl]. split; [rewrite Hf; [done|left]|].
  apply IH; [|done]. intros y Hy. apply Hf. by right.
Qed.

Lemma back_linked_frame m m' p l : (forall x, x ∈ l -> get_prev m' x = get_prev m x) -> back_linked m p l -> back_linked m' p l.
Proof.
  revert p. induction l as [|x l IH]; intros p Hf; [done|]. intros [Hp Hl]. split; [rewrite Hf; [done|left]|].
  apply IH; [|done]. intros y Hy. apply Hf. by right.
Qed.

Lemma linked_snoc m p l x : linked m p (l ++ [x]) <-> linked m p l /\ get_next m (end_of p l) = Some x.
Proof.
  revert p. induction l as [|y l IH]; intros p; simpl; [tauto|]. rewrite IH. tauto.
Qed.

Lemma back_linked_snoc m p l x : back_linked m p (l ++ [x]) <-> back_linked m p l /\ get_prev m x = Some (end_of p l).
Proof.
  revert p. induction l as [|y l IH]; intros p; simpl; [tauto|]. rewrite IH. tauto.
Qed.

Lemma linked_app m p l k : linked m p (l ++ k) <-> linked m p l /\ linked m (end_of p l) k.
Proof.
  revert p. induction l as [|y l IH]; intros p; simpl; [tauto|]. rewrite IH. tauto.
Qed.

Lemma back_linked_app m p l k : back_linked m p (l ++ k) <-> back_linked m p l /\ back_linked m (end_of p l) k.
Proof.
  revert p. induction l as [|y l IH]; intros p; simpl; [tauto|]. rewrite IH. tauto.
Qed.

Lemma chain_linked m p l q : linked m p l -> Forall (fun x => x <> 0) l -> forall v, get_next m (end_of p l) = Some v -> chain m v q ->
  exists h, get_next m p = Some h /\ chain m h (l ++ q).
Proof.
  revert p. induction l as [|x l IH]; intros p Hl Hn v Hv Hc; [by exists v|]. destruct Hl as [Hp Hl]. apply list.Forall_cons in Hn as [Hx Hn].
  destruct (IH x Hl Hn v Hv Hc) as (h & Hh & Hch). exists x. split; [done|]. split; [done|]. split; [done|]. by exists h.
Qed.

(** Stores. *)
Lemma set_next_Some m p v n : m !! p = Some n -> exists m', set_next m p v = Some m' /\ get_next m' p = Some v /\
  (forall x, x <> p -> m' !! x = m !! x) /\ (forall x, is_Some (m' !! x) <-> is_Some (m !! x)) /\ (forall x, get_prev m' x = get_prev m x).
Proof.
  intros Hn. unfold set_next, get_next, get_prev. rewrite Hn, bind_Some. eexists. split; [done|]. split; [by rewrite lookup_insert_eq|].
  split; [intros x Hx; by rewrite lookup_insert_ne by congruence|]. split; intros x; destruct (decide (x = p)) as [->|Hx].
  - rewrite lookup_insert_eq, Hn. split; eauto.
  - by rewrite lookup_insert_ne by congruence.
  - by rewrite lookup_insert_eq, Hn.
  - by rewrite lookup_insert_ne by congruence.
Qed.

Lemma set_prev_Some m p v n : m !! p = Some n -> exists m', set_prev m p v = Some m' /\ get_prev m' p = Some v /\
  (forall x, x <> p -> m' !! x = m !! x) /\ (forall x, is_Some (m' !! x) <-> is_Some (m !! x)) /\ (forall x, get_next m' x = get_next m x).
Proof.
  intros Hn. unfold set_prev, get_next, get_prev. rewrite Hn, bind_Some. eexists. split; [done|]. split; [by rewrite lookup_insert_eq|].
  split; [intros x Hx; by rewrite lookup_insert_ne by congruence|]. split; intros x; destruct (decide (x = p)) as [->|Hx].
  - rewrite lookup_insert_eq, Hn. split; eauto.
  - by rewrite lookup_insert_ne by congruence.
  - by rewrite lookup_insert_eq, Hn.
  - by rewrite lookup_insert_ne by congruence.
Qed.

Lemma nodes_size (m : memory) (l : list Z) : NoDup l -> (forall x, x ∈ l -> is_Some (m !! x)) -> zlen l <= Z.of_nat (size m).
Proof.
  intros Hn Hl. unfold zlen. rewrite <- size_dom. rewrite <- (size_list_to_set (C := gset Z) l Hn). apply inj_le, subseteq_size.
  intros x Hx. apply elem_of_dom, Hl. by apply elem_of_list_to_set in Hx.
Qed.

(** ** Merging *)

(** Both merges, with and without the links back. *)
Definition merge_gen_body (cmp : Z -> Z -> Z) (back : bool) (st : memory * Z * Z * Z) : option (step (memory * Z * Z * Z) (memory * Z * Z * Z)) :=
  let '(m, a, b, tail) := st in
  if truth a && truth b then
    let x := if cmp a b <=? 0 then a else b in
    m ← set_next m tail x;
    m ← (if back then set_prev m x tail else Some m);
    x' ← get_next m x;
    tail ← get_next m tail;
    Some (Next (if cmp a b <=? 0 then (m, x', b, tail) else (m, a, x', tail)))
  else Some (Done st).

Lemma merge_gen_false cmp st : merge_lists_body cmp st = merge_gen_body cmp false st.
Proof. destruct st as [[[m a] b] tail]. unfold merge_lists_body, merge_gen_body. destruct (_ && _); [|done]. by destruct (_ <=? _). Qed.

Lemma merge_gen_true cmp st : merge_back_body cmp st = merge_gen_body cmp true st.
Proof. destruct st as [[[m a] b] tail]. unfold merge_back_body, merge_gen_body. destruct (_ && _); [|done]. by destruct (_ <=? _). Qed.

Lemma NoDup_ends (p : Z) dn x l : NoDup (p :: dn ++ x :: l) -> end_of p dn <> x /\ (end_of p dn ∉ l) /\ (x ∉ l) /\ (x ∉ (p :: dn)).
Proof.
  intros Hn. change (NoDup ((p :: dn) ++ x :: l)) in Hn. apply list.NoDup_app in Hn as (_ & Hd & Hn). apply list.NoDup_cons in Hn as [Hx _].
  pose proof (end_of_in p dn) as He. split_and!.
  - intros E. apply (Hd _ He). rewrite E. left.
  - intros E. apply (Hd _ He). by right.
  - done.
  - intros E. apply (Hd _ E). left.
Qed.

Lemma linked_prefix_frame m m' p l : NoDup (p :: l) -> (forall x, x <> end_of p l -> get_next m' x = get_next m x) -> linked m p l -> linked m' p l.
Proof.
  revert p. induction l as [|x l IH]; intros p Hn Hf; [done|]. intros [Hp Hl]. apply list.NoDup_cons in Hn as [Hp' Hn]. split.
  - rewrite Hf; [done|]. intros E. simpl in E. apply Hp'. rewrite E. apply end_of_in.
  - by apply IH.
Qed.

(** One node is linked to the end of the result. *)
Lemma append_node_ok m p dn x v lc o lo back : linked m p dn -> (back = true -> back_linked m p dn) -> NoDup (p :: dn ++ x :: lc ++ lo) ->
  is_Some (m !! end_of p dn) -> get_next m x = Some v -> chain m v lc -> chain m o lo ->
  exists m1 m', set_next m (end_of p dn) x = Some m1 /\ (if back then set_prev m1 x (end_of p dn) else Some m1) = Some m' /\
    get_next m' x = Some v /\ get_next m' (end_of p dn) = Some x /\ chain m' v lc /\ chain m' o lo /\
    linked m' p (dn ++ [x]) /\ (back = true -> back_linked m' p (dn ++ [x])) /\
    (forall y, y ∉ (p :: dn ++ [x]) -> m' !! y = m !! y) /\ (forall y, is_Some (m' !! y) <-> is_Some (m !! y)).
Proof.
  intros Hl Hb Hn [n Ht] Hx Hc Ho. destruct (NoDup_ends _ _ _ _ Hn) as (Hne & Hel & Hxl & Hxd). set (t := end_of p dn) in *.
  destruct (set_next_Some m t x n Ht) as (m1 & E1 & Hn1 & Hk1 & Hd1 & Hp1). assert (is_Some (m !! x)) as [nx Hnx].
  { unfold get_next in Hx. destruct (m !! x); [eauto|done]. }
  assert (exists m', (if back then set_prev m1 x t else Some m1) = Some m' /\ (forall y, get_next m' y = get_next m1 y) /\
    (back = true -> get_prev m' x = Some t) /\ (forall y, y <> x -> m' !! y = m1 !! y) /\ (forall y, is_Some (m' !! y) <-> is_Some (m1 !! y)))
    as (m' & E2 & Hn2 & Hp2 & Hk2 & Hd2).
  { destruct back; [|exists m1; by split_and!]. destruct (set_prev_Some m1 x t nx) as (m' & E & Hp & Hk & Hd & Hg); [by rewrite Hk1 by congruence|].
    exists m'. by split_and!. }
  assert (Hnext : forall y, y <> t -> get_next m' y = get_next m y) by (intros y Hy; rewrite Hn2; unfold get_next; by rewrite Hk1).
  exists m1, m'. split; [done|]. split; [done|]. split; [by rewrite Hnext by congruence|]. split; [by rewrite Hn2|].
  split; [apply (chain_frame m); [|done]; intros y Hy; apply Hnext; intros ->; apply Hel, elem_of_app; by left|].
  split; [apply (chain_frame m); [|done]; intros y Hy; apply Hnext; intros ->; apply Hel, elem_of_app; by right|].
  assert (Hnd : NoDup (p :: dn)) by (change (NoDup ((p :: dn) ++ x :: lc ++ lo)) in Hn; by apply list.NoDup_app in Hn as (? & _)).
  split; [apply linked_snoc; split; [by apply (linked_prefix_frame m)|by rewrite Hn2]|]. split; [|split].
  - intros Hbk. apply back_linked_snoc. split; [|by apply Hp2]. apply (back_linked_frame m); [|by apply Hb].
    intros y Hy. unfold get_prev at 1. rewrite Hk2; [apply Hp1|]. intros ->. apply Hxd. by right.
  - intros y Hy. rewrite Hk2, Hk1; [done| |].
    + intros ->. apply Hy. pose proof (end_of_in p dn) as He. fold t in He. apply elem_of_cons in He as [He|He]; [rewrite He; left|right; apply elem_of_app; by left].
    + intros ->. apply Hy. right. apply elem_of_app. right. left.
  - intros y. by rewrite Hd2, Hd1.
Qed.

Definition ordered (cmp : Z -> Z -> Z) (x y : Z) : Prop := cmp x y <= 0.
#[export] Instance ordered_dec cmp : RelDecision (ordered cmp) := fun x y => Z_le_dec (cmp x y) 0.

Lemma chain_in m q l x : chain m q l -> x ∈ l -> is_Some (m !! x) /\ x <> 0.
Proof.
  revert q. induction l as [|y l IH]; intros q Hc Hx; [by apply not_elem_of_nil in Hx|]. destruct Hc as (-> & H0 & v & Hv & Hc).
  apply elem_of_cons in Hx as [->|Hx]; [|by apply (IH v)]. split; [|done]. unfold get_next in Hv. destruct (m !! y); [eauto|done].
Qed.

Section Merge.
Context (cmp : Z -> Z -> Z) (m0 : memory) (p : Z) (la0 lb0 : list Z) (back : bool).
Context (Hn0 : NoDup (p :: la0 ++ lb0)) (Hin0 : forall x, x ∈ (p :: la0 ++ lb0) -> is_Some (m0 !! x)).

(** What a merge has done so far: [dn] are the nodes of the result that are linked. *)
Definition merging_lists (st : memory * Z * Z * Z) (dn la lb : list Z) : Prop :=
  let '(m, a, b, tail) := st in
  chain m a la /\ chain m b lb /\ linked m p dn /\ (back = true -> back_linked m p dn) /\ tail = end_of p dn /\
  list_merge (ordered cmp) la0 lb0 = dn ++ list_merge (ordered cmp) la lb /\ dn ++ la ++ lb ≡ₚ la0 ++ lb0 /\
  (forall x, x ∉ (p :: la0 ++ lb0) -> m !! x = m0 !! x) /\ (forall x, is_Some (m !! x) <-> is_Some (m0 !! x)).

Lemma merged_end (m : memory) dn l : dn ++ l ≡ₚ la0 ++ lb0 -> (forall x, is_Some (m !! x) <-> is_Some (m0 !! x)) -> is_Some (m !! end_of p dn).
Proof.
  intros Hp Hd. apply Hd, Hin0. pose proof (end_of_in p dn) as [->|He]%elem_of_cons; [left|]. right. rewrite <- Hp. apply elem_of_app. by left.
Qed.

Lemma link_frame (m m' : memory) dn x l : dn ++ x :: l ≡ₚ la0 ++ lb0 ->
  (forall y, y ∉ (p :: la0 ++ lb0) -> m !! y = m0 !! y) -> (forall y, y ∉ (p :: dn ++ [x]) -> m' !! y = m !! y) ->
  forall y, y ∉ (p :: la0 ++ lb0) -> m' !! y = m0 !! y.
Proof.
  intros Hp Hf Hf' y Hy. rewrite Hf'; [by apply Hf|]. intros [->|Hin]%elem_of_cons; [apply Hy; left|]. apply Hy. right. rewrite <- Hp.
  rewrite elem_of_app, elem_of_cons. apply elem_of_app in Hin as [?| ->%list_elem_of_singleton]; tauto.
Qed.

Lemma merge_gen_step st dn la lb : merging_lists st dn la lb ->
  match la, lb with
  | x :: la', y :: lb' => exists st', merge_gen_body cmp back st = Some (Next st') /\
      if decide (ordered cmp x y) then merging_lists st' (dn ++ [x]) la' lb else merging_lists st' (dn ++ [y]) la lb'
  | _, _ => merge_gen_body cmp back st = Some (Done st)
  end.
Proof.
  destruct st as [[[m a] b] tail]. intros (Ha & Hb & Hl & Hbk & -> & Hm & Hp & Hf & Hd). pose proof (merged_end m dn _ Hp Hd) as He.
  unfold merge_gen_body. destruct la as [|x la]; [by simpl in Ha; subst a|]. destruct lb as [|y lb]; [simpl in Hb; subst b; by rewrite andb_false_r|].
  assert (Hnd : NoDup (p :: dn ++ x :: la ++ y :: lb)) by (by rewrite Hp).
  pose proof Ha as (-> & Hx0 & v & Hv & Hca). pose proof Hb as (-> & Hy0 & w & Hw & Hcb).
  rewrite (truth_nz x), (truth_nz y) by done. cbn [andb]. rewrite list_merge_cons in Hm.
  destruct (Z.leb_spec (cmp x y) 0) as [Hle|Hgt], (decide (ordered cmp x y)) as [Hd'|Hd']; unfold ordered in Hd'; try lia.
  - destruct (append_node_ok m p dn x v la y (y :: lb) back Hl Hbk Hnd He Hv Hca Hb) as (m1 & m' & -> & E2 & Hv' & Ht & Hca' & Hcb' & Hl' & Hbk' & Hf' & Hdm).
    rewrite bind_Some, E2, bind_Some, Hv', bind_Some, Ht, bind_Some. eexists. split; [done|].
    do 4 (split; [done|]). split; [by rewrite end_of_snoc|]. split; [by rewrite Hm, <- app_assoc|]. split; [by rewrite <- app_assoc|].
    split; [by apply (link_frame m m' dn x (la ++ y :: lb))|]. intros z. by rewrite Hdm.
  - assert (Hpy : dn ++ y :: (lb ++ x :: la) ≡ₚ la0 ++ lb0).
    { rewrite <- Hp. apply Permutation_app_head. change (y :: lb ++ x :: la) with ((y :: lb) ++ x :: la). apply Permutation_app_comm. }
    destruct (append_node_ok m p dn y w lb x (x :: la) back Hl Hbk) as (m1 & m' & -> & E2 & Hv' & Ht & Hcb' & Hca' & Hl' & Hbk' & Hf' & Hdm); try done; [by rewrite Hpy|].
    rewrite bind_Some, E2, bind_Some, Hv', bind_Some, Ht, bind_Some. eexists. split; [done|].
    do 4 (split; [done|]). split; [by rewrite end_of_snoc|]. split; [by rewrite Hm, <- app_assoc|].
    split; [rewrite <- Hpy, <- app_assoc; apply Permutation_app_head; simpl; f_equiv; change (x :: la ++ lb) with ((x :: la) ++ lb); apply Permutation_app_comm|].
    split; [by apply (link_frame m m' dn y (lb ++ x :: la))|]. intros z. by rewrite Hdm.
Qed.

Lemma merge_gen_steps n : forall st dn la lb, merging_lists st dn la lb -> (length la + length lb <= n)%nat ->
  exists k st' dn' la' lb', steps (merge_gen_body cmp back) k st = Some st' /\ (k <= n)%nat /\
    merge_gen_body cmp back st' = Some (Done st') /\ merging_lists st' dn' la' lb' /\ (la' = [] \/ lb' = []) /\ (la ++ lb <> [] -> la' ++ lb' <> []).
Proof.
  induction n as [|n IH]; intros st dn la lb HI Hlen; pose proof (merge_gen_step st dn la lb HI) as Hs.
  - destruct la, lb; simpl in Hlen; try lia. exists 0%nat, st, dn, [], []. do 4 (split; [done|]). split; [by left|done].
  - destruct la as [|x la]; [exists 0%nat, st, dn, [], lb; split; [done|]; split; [lia|]; split; [done|]; split; [done|split; [by left|done]]|].
    destruct lb as [|y lb]; [exists 0%nat, st, dn, (x :: la), []; split; [done|]; split; [lia|]; split; [done|]; split; [done|split; [by right|done]]|].
    destruct Hs as (st' & E & HI'). simpl in Hlen. case_decide as Hcase.
    + destruct (IH st' _ _ _ HI') as (k & st2 & dn2 & la2 & lb2 & Hk & Hle & H); [simpl; lia|]. exists (S k), st2, dn2, la2, lb2. cbn [steps]. rewrite E, bind_Some.
      split; [done|]. split; [lia|]. split_and!; [apply H..|]. intros _. apply H. by destruct la.
    + destruct (IH st' _ _ _ HI') as (k & st2 & dn2 & la2 & lb2 & Hk & Hle & H); [simpl; lia|]. exists (S k), st2, dn2, la2, lb2. cbn [steps]. rewrite E, bind_Some.
      split; [done|]. split; [lia|]. split_and!; [apply H..|]. intros _. by apply H.
Qed.

(** The loop leaves a part of one list, which is linked behind the others. *)
Lemma merge_gen_loop a b : chain m0 a la0 -> chain m0 b lb0 ->
  exists m a' b' dn rest m', loop (merge_gen_body cmp back) (Z.of_nat (size m0) + 1) (m0, a, b, p) = Some (m, a', b', end_of p dn) /\
    set_next m (end_of p dn) (if truth a' then a' else b') = Some m' /\
    get_next m' (end_of p dn) = Some (if truth a' then a' else b') /\ chain m' (if truth a' then a' else b') rest /\
    linked m' p dn /\ (back = true -> back_linked m' p dn) /\ dn ++ rest = list_merge (ordered cmp) la0 lb0 /\ (la0 ++ lb0 <> [] -> rest <> []) /\
    (forall x, x ∉ (p :: la0 ++ lb0) -> m' !! x = m0 !! x) /\ (forall x, is_Some (m' !! x) <-> is_Some (m0 !! x)).
Proof.
  intros Ha Hb. assert (HI : merging_lists (m0, a, b, p) [] la0 lb0) by (by split_and!).
  destruct (merge_gen_steps _ _ _ _ _ HI (Nat.le_refl _)) as (k & [[[m a'] b'] tail] & dn & la & lb & Hk & Hle & Hdone & HI' & Hend & Hne).
  assert (Hsz : Z.of_nat k < Z.of_nat (size m0) + 1).
  { pose proof (nodes_size m0 _ Hn0 Hin0) as H. rewrite zlen_cons, zlen_app in H. unfold zlen in H. lia. }
  rewrite (loop_steps _ _ _ _ _ _ Hk Hdone Hsz). destruct HI' as (Hca & Hcb & Hl & Hbk & -> & Hm & Hp & Hf & Hd).
  destruct (merged_end m dn _ Hp Hd) as [n Hend']. set (r := if truth a' then a' else b').
  destruct (set_next_Some m (end_of p dn) r n Hend') as (m' & E & Hn1 & Hk1 & Hd1 & Hp1).
  assert (Hr : exists rest, chain m r rest /\ list_merge (ordered cmp) la lb = rest /\ rest ≡ₚ la ++ lb).
  { unfold r. destruct Hend as [->| ->].
    - simpl in Hca. subst a'. exists lb. split; [done|]. by rewrite list_merge_nil_l.
    - rewrite list_merge_nil_r, app_nil_r. simpl in Hcb. subst b'. exists la. split; [|done]. destruct la as [|x la]; [simpl in Hca; by subst a'|].
      destruct Hca as (-> & H0 & Hca). rewrite truth_nz by done. done. }
  destruct Hr as (rest & Hr & Hmr & Hpr). rewrite Hmr in Hm. rewrite <- Hpr in Hp. assert (Hnd : NoDup ((p :: dn) ++ rest)) by (simpl; by rewrite Hp).
  apply list.NoDup_app in Hnd as (Hnd & Hdis & _).
  assert (Hnext : forall y, y <> end_of p dn -> get_next m' y = get_next m y) by (intros y Hy; unfold get_next; by rewrite Hk1).
  exists m, a', b', dn, rest, m'. split; [done|]. split; [done|]. split; [done|].
  split; [apply (chain_frame m); [|done]; intros y Hy; apply Hnext; intros ->; by apply (Hdis _ (end_of_in p dn))|].
  split; [by apply (linked_prefix_frame m)|]. split; [intros Hbt; apply (back_linked_frame m); [intros; apply Hp1|by apply Hbk]|].
  split; [done|]. split; [intros H ->; apply (Hne H), Permutation_nil; done|]. split; [|intros x; by rewrite Hd1].
  intros x Hx. rewrite Hk1; [by apply Hf|]. intros ->. apply Hx. pose proof (end_of_in p dn) as [->|He]%elem_of_cons; [left|].
  right. rewrite <- Hp. apply elem_of_app. by left.
Qed.
End Merge.

Lemma merge_chains_ok cmp local m a b la lb : chain m a la -> chain m b lb -> NoDup (local :: la ++ lb) -> is_Some (m !! local) ->
  exists m' h, merge cmp local m a b = Some (m', h) /\ chain m' h (list_merge (ordered cmp) la lb) /\
    (forall x, x ∉ (local :: la ++ lb) -> m' !! x = m !! x) /\ (forall x, is_Some (m' !! x) <-> is_Some (m !! x)).
Proof.
  intros Ha Hb Hn Hl. assert (Hin : forall x, x ∈ (local :: la ++ lb) -> is_Some (m !! x)).
  { intros x [->|[Hx|Hx]%elem_of_app]%elem_of_cons; [done|by apply (chain_in m a la)|by apply (chain_in m b lb)]. }
  destruct (merge_gen_loop cmp m local la lb false Hn Hin a b Ha Hb) as (m1 & a' & b' & dn & rest & m' & E & E' & Hnx & Hr & Hlk & _ & Hm & _ & Hf & Hd).
  assert (Hnz : Forall (fun x => x <> 0) dn).
  { apply list.Forall_forall. intros x Hx. assert (x ∈ la ++ lb) as [Hx'|Hx']%elem_of_app; [|by apply (chain_in m a la)|by apply (chain_in m b lb)].
    rewrite <- (merge_Permutation (ordered cmp)), <- Hm. apply elem_of_app. by left. }
  destruct (chain_linked m' local dn rest Hlk Hnz _ Hnx Hr) as (h & Hh & Hc). rewrite Hm in Hc.
  unfold merge. rewrite (loop_ext _ _ _ _ (merge_gen_false cmp)), E, bind_Some, E', bind_Some, Hh, bind_Some. by exists m', h.
Qed.

(** The rest of the list gets its links back. *)
Lemma back_links_ok l : forall m tail x, chain m x (x :: l) -> get_next m tail = Some x -> NoDup (tail :: x :: l) ->
  exists s m', steps back_links_body (length l) (m, tail) = Some s /\ back_links_body s = Some (Done (m', end_of x l)) /\
    linked m' x l /\ back_linked m' tail (x :: l) /\ (forall y, get_next m' y = get_next m y) /\
    (forall y, y ∉ (x :: l) -> m' !! y = m !! y) /\ (forall y, is_Some (m' !! y) <-> is_Some (m !! y)).
Proof.
  induction l as [|y l IH]; intros m tail x (_ & H0 & v & Hv & Hc) Ht Hnd.
  all: assert (is_Some (m !! x)) as [nx Hnx] by (unfold get_next in Hv; destruct (m !! x); [eauto|done]).
  all: destruct (set_prev_Some m x tail nx Hnx) as (m1 & E1 & Hp1 & Hk1 & Hd1 & Hn1).
  all: assert (Eb : back_links_body (m, tail) = if truth v then Some (Next (m1, x)) else Some (Done (m1, x)))
    by (unfold back_links_body; rewrite Ht, bind_Some, E1, bind_Some, Hn1, Ht, bind_Some, Hn1, Hv, bind_Some; done).
  - simpl in Hc. subst v. exists (m, tail), m1. split; [done|]. split; [done|]. split; [done|]. split; [done|]. split; [done|].
    split; [|done]. intros y Hy. apply Hk1. intros ->. apply Hy. left.
  - pose proof Hc as (-> & Hy0 & w & Hw & Hcl). rewrite truth_nz in Eb by done. apply list.NoDup_cons in Hnd as [Htl Hnd].
    destruct (IH m1 x y) as (s & m' & Hs & Hdone & Hl & Hb & Hnx' & Hf & Hd); [apply (chain_frame m); [intros; apply Hn1|done]|by rewrite Hn1|done|].
    exists s, m'. cbn [steps length]. rewrite Eb, bind_Some. split; [done|]. split; [done|]. split; [split; [by rewrite Hnx', Hn1|done]|].
    apply list.NoDup_cons in Hnd as [Hx Hnd]. split; [|split; [intros z; by rewrite Hnx', Hn1|split; [|intros z; by rewrite Hd, Hd1]]].
    + split; [|done]. unfold get_prev. rewrite Hf by done. done.
    + intros z Hz. apply not_elem_of_cons in Hz as [Hzx Hz]. rewrite Hf, Hk1 by done. done.
Qed.

(** The circular list of the nodes [l] with the anchor [head]. *)
Definition circular (m : memory) (head : Z) (l : list Z) : Prop := linked m head (l ++ [head]) /\ back_linked m head (l ++ [head]).

Lemma restore_ok cmp m head a b la lb : chain m a la -> chain m b lb -> NoDup (head :: la ++ lb) -> is_Some (m !! head) -> la ++ lb <> [] ->
  exists m', merge_and_restore_back_links cmp m head a b = Some m' /\ circular m' head (list_merge (ordered cmp) la lb) /\
    (forall x, x ∉ (head :: la ++ lb) -> m' !! x = m !! x).
Proof.
  intros Ha Hb Hn Hl Hne. assert (Hin : forall x, x ∈ (head :: la ++ lb) -> is_Some (m !! x)).
  { intros x [->|[Hx|Hx]%elem_of_app]%elem_of_cons; [done|by apply (chain_in m a la)|by apply (chain_in m b lb)]. }
  destruct (merge_gen_loop cmp m head la lb true Hn Hin a b Ha Hb) as (m1 & a' & b' & dn & rest & m2 & E & E' & Hnx & Hr & Hlk & Hbk & Hm & Hrest & Hf & Hd).
  unfold merge_and_restore_back_links. rewrite (loop_ext _ _ _ _ (merge_gen_true cmp)), E, bind_Some, E', bind_Some.
  destruct rest as [|x l]; [by destruct (Hrest Hne)|]. set (t := end_of head dn) in *. set (r := if truth a' then a' else b') in *.
  assert (r = x) as Hrx by (apply Hr). rewrite Hrx in *. clear r Hrx.
  assert (Hnd : NoDup ((head :: dn) ++ x :: l)) by (simpl; by rewrite Hm, merge_Permutation).
  assert (Hin2 : forall y, y ∈ (head :: dn) ++ x :: l -> is_Some (m2 !! y)).
  { intros y Hy. apply Hd, Hin. simpl in Hy. by rewrite Hm, merge_Permutation in Hy. }
  pose proof Hnd as (Hnd1 & Hdis & Hnd2)%list.NoDup_app. pose proof (end_of_in head dn) as Het. fold t in Het.
  destruct (back_links_ok l m2 t x Hr Hnx) as (s & m3 & Hs & Hdone & Hlk3 & Hbk3 & Hn3 & Hf3 & Hd3).
  { constructor; [by apply Hdis|done]. }
  rewrite (loop_steps _ _ _ _ _ _ Hs Hdone).
  2: { pose proof (nodes_size m2 _ Hnd Hin2) as H. rewrite zlen_app, zlen_cons, zlen_cons in H. unfold zlen in H. lia. }
  rewrite bind_Some. set (e := end_of x l) in *. assert (He : e ∈ (x :: l)) by apply end_of_in.
  destruct (Hin2 e) as [ne Hne2]; [apply elem_of_app; by right|]. destruct (proj2 (Hd3 e) (mk_is_Some _ _ Hne2)) as [ne3 Hne3].
  destruct (set_next_Some m3 e head ne3 Hne3) as (m4 & -> & Hn4 & Hf4 & Hd4 & Hp4). rewrite bind_Some.
  assert (is_Some (m4 !! head)) as [nh Hnh] by (apply Hd4, Hd3, Hin2; left).
  destruct (set_prev_Some m4 head e nh Hnh) as (m5 & -> & Hp5 & Hf5 & Hd5 & Hn5). exists m5. split; [done|].
  assert (Hhead : head ∉ dn ++ x :: l) by (by apply list.NoDup_cons in Hnd as [? _]).
  assert (Hnext : forall y, y <> e -> get_next m5 y = get_next m3 y) by (intros y Hy; rewrite Hn5; unfold get_next; by rewrite Hf4).
  assert (Hprev : forall y, y <> head -> get_prev m5 y = get_prev m3 y) by (intros y Hy; rewrite <- Hp4; unfold get_prev; by rewrite Hf5).
  rewrite <- Hm. split; [split|].
  - apply linked_snoc. rewrite linked_app, end_of_app. split; [|by rewrite Hn5]. split.
    + apply (linked_frame m2); [|done]. intros y Hy. rewrite Hnext, Hn3; [done|]. intros ->. by apply (Hdis e).
    + fold t. split; [rewrite Hnext, Hn3; [done|]; intros Heq; apply (Hdis t Het); by rewrite Heq|].
      by apply (linked_prefix_frame m3).
  - apply back_linked_snoc. rewrite back_linked_app, end_of_app. split; [|done]. split.
    + apply (back_linked_frame m2); [|by apply Hbk]. intros y Hy. rewrite Hprev by (intros ->; apply Hhead, elem_of_app; by left).
      unfold get_prev. rewrite Hf3; [done|]. apply Hdis. by right.
    + apply (back_linked_frame m3); [|done]. intros y Hy. apply Hprev. intros ->. apply Hhead, elem_of_app. by right.
  - intros y Hy. assert (y ∉ (head :: dn ++ x :: l)) as Hy' by (by rewrite Hm, merge_Permutation). apply not_elem_of_cons in Hy' as [Hyh Hyl].
    apply not_elem_of_app in Hyl as [Hyd Hyx]. rewrite Hf5, Hf4, Hf3 by (done || intros ->; done). by apply Hf.
Qed.

(** ** Orders and stability *)

(** What list_sort() asks of the comparison: it orders the elements, which may be equivalent. *)
Class ListOrder (cmp : Z -> Z -> Z) := {
  order_total : forall x y, ordered cmp x y \/ ordered cmp y x;
  order_trans : forall x y z, ordered cmp x y -> ordered cmp y z -> ordered cmp x z
}.

Section Stable.
Context (cmp : Z -> Z -> Z) `{!ListOrder cmp}.

Definition equivalent (x y : Z) : Prop := ordered cmp x y /\ ordered cmp y x.
#[local] Instance equivalent_dec x y : Decision (equivalent x y) := and_dec _ _.

(** The same elements, those that are equivalent in the same order. *)
Definition similar (l k : list Z) : Prop := l ≡ₚ k /\ forall x, filter (equivalent x) l = filter (equivalent x) k.

Lemma filter_none x l : (forall w, w ∈ l -> ~ equivalent x w) -> filter (equivalent x) l = [].
Proof.
  induction l as [|w l IH]; intros H; [done|]. rewrite list.filter_cons. rewrite decide_False by (apply H; left). apply IH. intros v Hv. apply H. by right.
Qed.

Lemma similar_refl l : similar l l.
Proof. done. Qed.
Lemma similar_trans l k q : similar l k -> similar k q -> similar l q.
Proof. intros [P1 F1] [P2 F2]. split; [by rewrite P1|]. intros x. by rewrite F1. Qed.
Lemma similar_app l l' k k' : similar l l' -> similar k k' -> similar (l ++ k) (l' ++ k').
Proof. intros [P1 F1] [P2 F2]. split; [by rewrite P1, P2|]. intros x. by rewrite !list.filter_app, F1, F2. Qed.

#[local] Instance ordered_transitive : Transitive (ordered cmp).
Proof. intros x y z. apply order_trans. Qed.
#[local] Instance ordered_total : Total (ordered cmp).
Proof. intros x y. apply order_total. Qed.

Lemma sorted_head_smallest x l y : Sorted (ordered cmp) (x :: l) -> y ∈ (x :: l) -> ordered cmp x y.
Proof.
  intros Hs Hy. apply (Sorted_StronglySorted _) in Hs. apply StronglySorted_inv in Hs as [_ Hall].
  apply elem_of_cons in Hy as [->|Hy]; [destruct (order_total x x); done|]. by apply (list.Forall_forall _ l).
Qed.

(** Merging sorted lists keeps the order of equivalent elements, those of the first list first. *)
Lemma merge_filter x a b : Sorted (ordered cmp) a -> Sorted (ordered cmp) b ->
  filter (equivalent x) (list_merge (ordered cmp) a b) = filter (equivalent x) a ++ filter (equivalent x) b.
Proof.
  revert b. induction a as [|y a IHa]; intros b Ha; [by rewrite list_merge_nil_l|].
  induction b as [|z b IHb]; intros Hb; [by rewrite list_merge_nil_r, app_nil_r|]. rewrite list_merge_cons. case_decide as Hyz.
  - rewrite !(list.filter_cons _ y). rewrite IHa by (done || by inversion Ha). by case_decide.
  - rewrite (list.filter_cons _ z), IHb by (by inversion Hb). rewrite (list.filter_cons _ z). case_decide as Hxz; [|done].
    assert (E : filter (equivalent x) (y :: a) = []).
    { apply filter_none. intros w Hw Hxw. apply Hyz.
      apply (order_trans y w z); [by apply (sorted_head_smallest y a)|]. apply (order_trans w x z); [apply Hxw|apply Hxz]. }
    by rewrite E.
Qed.

Lemma merge_similar a b : Sorted (ordered cmp) a -> Sorted (ordered cmp) b -> similar (list_merge (ordered cmp) a b) (a ++ b).
Proof. intros Ha Hb. split; [apply merge_Permutation|]. intros x. rewrite list.filter_app. by apply merge_filter. Qed.

Lemma merge_sorted a b : Sorted (ordered cmp) a -> Sorted (ordered cmp) b -> Sorted (ordered cmp) (list_merge (ordered cmp) a b).
Proof. apply Sorted_list_merge, _. Qed.
End Stable.

(** ** The partial lists *)

Lemma concat_empty (ls : list (list Z)) : Forall (fun l => l = []) ls -> concat (reverse ls) = [].
Proof.
  intros Hf. assert (Forall (fun l : list Z => l = []) (reverse ls)) as Hr by (by apply Forall_reverse). induction Hr as [|l k -> _ IH]; [done|]. by simpl.
Qed.

(** A list that is put behind empty ones is the last of the elements. *)
Lemma concat_parts_insert (PL : list (list Z)) i c : 0 <= i < zlen PL -> (forall j, 0 <= j < i -> PL.[j] = Some []) ->
  concat (reverse (<[Z.to_nat i := c]> PL)) = concat (reverse (<[Z.to_nat i := []]> PL)) ++ c.
Proof.
  intros Hi He. unfold zlen in Hi. rewrite !insert_take_drop by lia. rewrite !reverse_app, !reverse_cons, !concat_app.
  rewrite (concat_empty (take (Z.to_nat i) PL)).
  - simpl. by rewrite !app_nil_r.
  - apply list.Forall_lookup. intros k l Hk. apply lookup_take_Some in Hk as [Hk Hlt].
    specialize (He (Z.of_nat k) ltac:(lia)). apply arr_get_Some in He as [_ He]. rewrite Nat2Z.id in He. congruence.
Qed.

Section Parts.
Context (cmp : Z -> Z -> Z) `{!ListOrder cmp} (local : Z).
#[local] Abbreviation Sorted' := (Sorted (ordered cmp)).

(** [PL] are the elements of the partial lists [part]. *)
Definition parts (m : memory) (part : list Z) (PL : list (list Z)) : Prop :=
  zlen PL = MAX_LIST_LENGTH_BITS + 1 /\ Forall2 (chain m) part PL /\ Forall Sorted' PL.

Lemma parts_get m part PL i l : parts m part PL -> PL.[i] = Some l -> exists p, part.[i] = Some p /\ chain m p l /\ Sorted' l.
Proof.
  intros (_ & Hc & Hs) [Hi Hl]%arr_get_Some. destruct (Forall2_lookup_r _ _ _ _ _ Hc Hl) as (p & Hp & Hch). exists p.
  split; [by apply arr_get_Some|]. split; [done|]. exact (list.Forall_lookup_1 _ _ _ _ Hs Hl).
Qed.

Lemma parts_frame m m' part PL : parts m part PL -> (forall x, x ∈ concat PL -> get_next m' x = get_next m x) -> parts m' part PL.
Proof.
  intros (Hlen & Hc & Hs) Hf. split; [done|]. split; [|done]. clear Hlen Hs. induction Hc as [|p l part PL Hp Hc IH]; [constructor|]. constructor.
  - apply (chain_frame m); [|done]. intros x Hx. apply Hf. simpl. apply elem_of_app. by left.
  - apply IH. intros x Hx. apply Hf. simpl. apply elem_of_app. by right.
Qed.

Lemma parts_set m part PL i p l : parts m part PL -> 0 <= i < zlen PL -> chain m p l -> Sorted' l ->
  exists part', part.[i <- p] = Some part' /\ parts m part' (<[Z.to_nat i := l]> PL).
Proof.
  intros (Hlen & Hc & Hs) Hi Hp Hl. pose proof Hc as Hll%Forall2_length. rewrite arr_set_Some by (unfold zlen in *; lia). eexists. split; [done|].
  split; [by rewrite zlen_insert|]. split; [by apply Forall2_insert|]. by apply list.Forall_insert.
Qed.

Lemma concat_reverse_perm (PL : list (list Z)) : concat (reverse PL) ≡ₚ concat PL.
Proof. induction PL as [|l PL IH]; [done|]. rewrite reverse_cons, concat_app. simpl. rewrite app_nil_r, IH. apply Permutation_app_comm. Qed.

(** A carry: the lists of the levels below [lev] have been merged into [lc]. *)
Definition carrying (m0 : memory) (PL0 : list (list Z)) (L : list Z) (st : memory * list Z * Z * Z) (PL : list (list Z)) (lc : list Z) : Prop :=
  let '(m, part, cur, lev) := st in
  parts m part PL /\ chain m cur lc /\ Sorted' lc /\ 0 <= lev <= MAX_LIST_LENGTH_BITS /\
  (forall j, 0 <= j < lev -> PL.[j] = Some []) /\ (forall j, lev <= j -> PL.[j] = PL0.[j]) /\
  similar cmp (concat (reverse PL) ++ lc) L /\
  (forall x, x ∉ (local :: L) -> m !! x = m0 !! x) /\ (forall x, is_Some (m !! x) <-> is_Some (m0 !! x)).

Lemma carry_step m0 PL0 L st PL lc : NoDup (local :: L) -> is_Some (m0 !! local) -> PL0.[MAX_LIST_LENGTH_BITS] = Some [] -> carrying m0 PL0 L st PL lc ->
  (levels_body cmp local st = Some (Done st) /\ PL.[st.2] = Some []) \/
  (exists st' PL' lc', levels_body cmp local st = Some (Next st') /\ carrying m0 PL0 L st' PL' lc' /\ st'.2 = st.2 + 1 /\ st.2 < MAX_LIST_LENGTH_BITS).
Proof.
  destruct st as [[[m part] cur] lev]. intros Hn Hloc H20 (HP & Hc & Hsc & Hlev & Hlow & Hhigh & Hsim & Hf & Hd). cbn [snd].
  pose proof HP as (Hlen & _). destruct (arr_get_is_Some PL lev) as [l Hl]; [unfold MAX_LIST_LENGTH_BITS in *; lia|].
  destruct (parts_get _ _ _ _ _ HP Hl) as (p & Hp & Hcp & Hsl). unfold levels_body. rewrite Hp, bind_Some. destruct l as [|x l].
  { left. simpl in Hcp. subst p. done. }
  right. assert (Hlt : lev < MAX_LIST_LENGTH_BITS).
  { destruct (decide (lev = MAX_LIST_LENGTH_BITS)) as [->|]; [|lia]. rewrite Hhigh in Hl by lia. congruence. }
  pose proof Hcp as (-> & Hx0 & _). rewrite truth_nz by done. set (lp := x :: l) in *. set (PL' := <[Z.to_nat lev := []]> PL).
  assert (Hcat : concat (reverse PL) = concat (reverse PL') ++ lp).
  { unfold PL'. rewrite <- (concat_parts_insert PL lev lp) by (done || lia). apply arr_get_Some in Hl as [_ Hl]. by rewrite list_insert_id. }
  assert (HL : concat (reverse PL') ++ lp ++ lc ≡ₚ L) by (rewrite app_assoc, <- Hcat; apply Hsim).
  assert (Hnd : NoDup (local :: lp ++ lc) /\ forall y, y ∈ concat PL' -> y ∉ (local :: lp ++ lc)).
  { assert (NoDup (concat (reverse PL') ++ local :: lp ++ lc)) as Hnd by (rewrite <- Permutation_middle, HL; done).
    apply list.NoDup_app in Hnd as (_ & Hdis & Hnd). split; [done|]. intros y Hy. apply Hdis. by rewrite concat_reverse_perm. }
  destruct Hnd as [Hnd Hdis]. assert (Hloc' : is_Some (m !! local)) by (by apply Hd).
  destruct (merge_chains_ok cmp local m x cur lp lc Hcp Hc Hnd Hloc') as (m' & h & -> & Hch & Hf' & Hd'). rewrite bind_Some.
  destruct (parts_set m part PL lev 0 [] HP) as (part' & -> & HP'); [lia|done|constructor|]. rewrite bind_Some. fold PL' in HP'.
  eexists _, PL', (list_merge (ordered cmp) lp lc). split; [done|]. cbn [snd]. split; [|done].
  split; [apply (parts_frame m); [done|]; intros y Hy; unfold get_next; rewrite Hf' by (by apply Hdis); done|].
  split; [done|]. split; [by apply merge_sorted|]. split; [lia|]. split; [|split; [|split; [|split]]].
  - intros j Hj. unfold PL'. rewrite arr_get_insert by (unfold MAX_LIST_LENGTH_BITS in *; lia). case_decide; [done|]. apply Hlow. lia.
  - intros j Hj. unfold PL'. rewrite arr_get_insert by (unfold MAX_LIST_LENGTH_BITS in *; lia). case_decide; [lia|]. apply Hhigh. lia.
  - apply (similar_trans _ _ (concat (reverse PL') ++ lp ++ lc)); [apply similar_app; [apply similar_refl|by apply merge_similar]|].
    rewrite app_assoc, <- Hcat. done.
  - intros y Hy. apply not_elem_of_cons in Hy as [Hyl Hy]. rewrite Hf'; [apply Hf; apply not_elem_of_cons; done|].
    intros [->|Hy']%elem_of_cons; [done|]. apply Hy. rewrite <- HL. apply elem_of_app. by right.
  - intros y. by rewrite Hd', Hd.
Qed.

Lemma carry_steps m0 PL0 L : NoDup (local :: L) -> is_Some (m0 !! local) -> PL0.[MAX_LIST_LENGTH_BITS] = Some [] ->
  forall n st PL lc, carrying m0 PL0 L st PL lc -> MAX_LIST_LENGTH_BITS - st.2 <= Z.of_nat n ->
  exists k st' PL' lc', steps (levels_body cmp local) k st = Some st' /\ (k <= n)%nat /\ levels_body cmp local st' = Some (Done st') /\
    carrying m0 PL0 L st' PL' lc' /\ PL'.[st'.2] = Some [].
Proof.
  intros Hn Hloc H20. induction n as [|n IH]; intros st PL lc HI Hle; (destruct (carry_step _ _ _ _ _ _ Hn Hloc H20 HI) as [[E Hl]|(st' & PL' & lc' & E & HI' & Hs & Hlt)];
    [exists 0%nat, st, PL, lc; split; [done|]; split; [lia|]; done|]); [lia|].
  destruct (IH st' PL' lc' HI' ltac:(lia)) as (k & st2 & PL2 & lc2 & Hk & Hkn & H). exists (S k), st2, PL2, lc2. cbn [steps]. rewrite E, bind_Some.
  split; [done|]. split; [lia|done].
Qed.

Lemma levels_ok m part cur PL0 lc0 : parts m part PL0 -> chain m cur lc0 -> Sorted' lc0 -> NoDup (local :: concat (reverse PL0) ++ lc0) ->
  is_Some (m !! local) -> PL0.[MAX_LIST_LENGTH_BITS] = Some [] ->
  exists st PL lc, loop (levels_body cmp local) (MAX_LIST_LENGTH_BITS + 2) (m, part, cur, 0) = Some st /\
    carrying m PL0 (concat (reverse PL0) ++ lc0) st PL lc /\ PL.[st.2] = Some [].
Proof.
  intros HP Hc Hs Hn Hloc H20. set (L := concat (reverse PL0) ++ lc0) in *.
  assert (HI : carrying m PL0 L (m, part, cur, 0) PL0 lc0) by (do 3 (split; [done|]); split; [done|]; split; [intros j Hj; lia|]; split; [done|]; by split_and!).
  destruct (carry_steps m PL0 L Hn Hloc H20 20 _ _ _ HI) as (k & st & PL & lc & Hk & Hkn & Hd & HI' & Hl); [done|].
  rewrite (loop_steps _ _ _ _ _ _ Hk Hd); [|unfold MAX_LIST_LENGTH_BITS; lia]. by exists st, PL, lc.
Qed.

(** Where the result of a carry is put. *)
Definition slot (max_lev lev : Z) : Z * Z :=
  if max_lev <? lev then let lev := if MAX_LIST_LENGTH_BITS <=? lev then lev - 1 else lev in (lev, lev) else (lev, max_lev).

Definition distributing (m0 : memory) (L : list Z) (st : memory * list Z * Z * Z) (PL : list (list Z)) (rest : list Z) : Prop :=
  let '(m, part, max_lev, list) := st in
  parts m part PL /\ chain m list rest /\ 0 <= max_lev < MAX_LIST_LENGTH_BITS /\
  (forall j, max_lev < j <= MAX_LIST_LENGTH_BITS -> PL.[j] = Some []) /\ similar cmp (concat (reverse PL) ++ rest) L /\
  (forall x, x ∉ (local :: L) -> m !! x = m0 !! x) /\ (forall x, is_Some (m !! x) <-> is_Some (m0 !! x)).

(** A node is put alone into the lists, with all carries. *)
Lemma insert_ok m part max_lev x PL : parts m part PL -> chain m x [x] -> NoDup (local :: concat (reverse PL) ++ [x]) -> is_Some (m !! local) ->
  0 <= max_lev < MAX_LIST_LENGTH_BITS -> (forall j, max_lev < j <= MAX_LIST_LENGTH_BITS -> PL.[j] = Some []) ->
  exists m' part1 cur lev lev' max_lev' part' PL', loop (levels_body cmp local) (MAX_LIST_LENGTH_BITS + 2) (m, part, x, 0) = Some (m', part1, cur, lev) /\
    slot max_lev lev = (lev', max_lev') /\ part1.[lev' <- cur] = Some part' /\ parts m' part' PL' /\
    0 <= max_lev' < MAX_LIST_LENGTH_BITS /\ (forall j, max_lev' < j <= MAX_LIST_LENGTH_BITS -> PL'.[j] = Some []) /\
    similar cmp (concat (reverse PL')) (concat (reverse PL) ++ [x]) /\
    (forall y, y ∉ (local :: concat (reverse PL) ++ [x]) -> m' !! y = m !! y) /\ (forall y, is_Some (m' !! y) <-> is_Some (m !! y)).
Proof.
  intros HP Hc Hn Hloc Hmax Hhigh.
  destruct (levels_ok m part x PL [x] HP Hc) as ([[[m' part1] cur] lev] & PL1 & lc & E & (HP1 & Hcc & Hsc & Hlev & Hlow1 & Hhigh1 & Hsim & Hf & Hd) & Hslot);
    [repeat constructor|done|done|apply Hhigh; lia|]. cbn [snd] in Hslot.
  assert (Hs : exists lev' max_lev', slot max_lev lev = (lev', max_lev') /\ PL1.[lev'] = Some [] /\ 0 <= lev' <= max_lev' /\ max_lev' < MAX_LIST_LENGTH_BITS /\
    (forall j, 0 <= j < lev' -> PL1.[j] = Some []) /\ (forall j, max_lev' < j <= MAX_LIST_LENGTH_BITS -> PL1.[j] = Some [])).
  { unfold slot. destruct (Z.ltb_spec max_lev lev) as [Hl|Hl].
    - destruct (Z.leb_spec MAX_LIST_LENGTH_BITS lev) as [Hl2|Hl2].
      + assert (lev = MAX_LIST_LENGTH_BITS) as -> by lia. eexists _, _. split; [done|]. split; [apply Hlow1; unfold MAX_LIST_LENGTH_BITS in *; lia|].
        split; [unfold MAX_LIST_LENGTH_BITS; lia|]. split; [lia|]. split; [intros j Hj; apply Hlow1; lia|].
        intros j Hj. replace j with MAX_LIST_LENGTH_BITS by lia. done.
      + exists lev, lev. split; [done|]. split; [done|]. split; [lia|]. split; [lia|]. split; [done|]. intros j Hj. rewrite Hhigh1 by lia. apply Hhigh. lia.
    - exists lev, max_lev. split; [done|]. split; [done|]. split; [lia|]. split; [lia|]. split; [done|]. intros j Hj. rewrite Hhigh1 by lia. apply Hhigh. lia. }
  destruct Hs as (lev' & max_lev' & Es & Hsl & Hle & Hmax' & Hlow' & Hhigh'). pose proof HP1 as (Hlen & _).
  destruct (parts_set m' part1 PL1 lev' cur lc HP1) as (part' & Ep & HP'); [unfold MAX_LIST_LENGTH_BITS in *; lia|done|done|].
  eexists m', part1, cur, lev, lev', max_lev', part', _. split; [done|]. split; [done|]. split; [done|]. split; [done|]. split; [lia|]. split; [|split; [|done]].
  - intros j Hj. rewrite arr_get_insert by (unfold MAX_LIST_LENGTH_BITS in *; lia). case_decide; [lia|]. by apply Hhigh'.
  - rewrite concat_parts_insert by (done || unfold MAX_LIST_LENGTH_BITS in *; lia). apply arr_get_Some in Hsl as [_ Hsl]. by rewrite (list_insert_id PL1).
Qed.

Lemma distribute_step m0 L m part max_lev x PL rest : NoDup (local :: L) -> is_Some (m0 !! local) -> distributing m0 L (m, part, max_lev, x) PL (x :: rest) ->
  exists st PL', distribute_body cmp local (m, part, max_lev, x) = Some (Next st) /\ distributing m0 L st PL' rest.
Proof.
  intros Hn Hloc (HP & (_ & Hx0 & v & Hv & Hc) & Hmax & Hhigh & Hsim & Hf & Hd). unfold distribute_body. rewrite truth_nz, Hv, bind_Some by done.
  assert (is_Some (m !! x)) as [nx Hnx] by (unfold get_next in Hv; destruct (m !! x); [eauto|done]).
  destruct (set_next_Some m x 0 nx Hnx) as (m1 & -> & Hn1 & Hk1 & Hd1 & _). rewrite bind_Some.
  assert (HL : concat (reverse PL) ++ x :: rest ≡ₚ L) by apply Hsim.
  assert (Hnd : NoDup ((local :: concat (reverse PL)) ++ x :: rest)) by (simpl; rewrite HL; done).
  pose proof Hnd as (Hnd1 & Hdis & [Hxr Hndr]%list.NoDup_cons)%list.NoDup_app.
  assert (Hnext : forall y, y <> x -> get_next m1 y = get_next m y) by (intros y Hy; unfold get_next; by rewrite Hk1).
  assert (HP1 : parts m1 part PL).
  { apply (parts_frame m); [done|]. intros y Hy. apply Hnext. intros ->. apply (Hdis x); [right; by rewrite concat_reverse_perm|left]. }
  destruct (insert_ok m1 part max_lev x PL HP1) as (m2 & part1 & cur & lev & lev' & max' & part' & PL' & E & Es & Ep & HP' & Hmax' & Hhigh' & Hsim' & Hf' & Hd').
  { split; [done|]. split; [done|]. by exists 0. }
  { replace (x :: rest) with ([x] ++ rest) in Hnd by done. rewrite app_assoc in Hnd. by apply list.NoDup_app in Hnd as (? & _). }
  { apply Hd1, Hd, Hloc. }
  { done. }
  { done. }
  rewrite E, bind_Some. unfold slot in Es. rewrite Es, Ep, bind_Some. eexists _, PL'. split; [done|]. split; [done|].
  assert (Hrest : forall y, y ∈ rest -> y ∉ (local :: concat (reverse PL) ++ [x])).
  { intros y Hy [->|[Hy'|Hy'%list_elem_of_singleton]%elem_of_app]%elem_of_cons; [apply (Hdis local); [left|by right]|apply (Hdis y); by right|congruence]. }
  split; [apply (chain_frame m); [|done]; intros y Hy; unfold get_next; rewrite Hf' by auto; fold (get_next m1 y); apply Hnext; congruence|].
  split; [done|]. split; [done|]. split; [|split].
  - apply (similar_trans _ _ ((concat (reverse PL) ++ [x]) ++ rest)); [apply similar_app; [done|apply similar_refl]|]. by rewrite <- app_assoc.
  - intros y Hy. apply not_elem_of_cons in Hy as [Hyl Hy]. rewrite <- HL in Hy. apply not_elem_of_app in Hy as [Hy1 [Hyx Hy2]%not_elem_of_cons].
    rewrite Hf', Hk1; [|done|].
    + apply Hf. apply not_elem_of_cons. split; [done|]. rewrite <- HL. apply not_elem_of_app. split; [done|]. by apply not_elem_of_cons.
    + apply not_elem_of_cons. split; [done|]. apply not_elem_of_app. split; [done|]. by rewrite list_elem_of_singleton.
  - intros y. by rewrite Hd', Hd1, Hd.
Qed.

Lemma distribute_steps m0 L : NoDup (local :: L) -> is_Some (m0 !! local) -> forall rest m part max_lev list PL, distributing m0 L (m, part, max_lev, list) PL rest ->
  exists m' part' max_lev' PL', steps (distribute_body cmp local) (length rest) (m, part, max_lev, list) = Some (m', part', max_lev', 0) /\
    distributing m0 L (m', part', max_lev', 0) PL' [].
Proof.
  intros Hn Hloc. induction rest as [|x rest IH]; intros m part max_lev list PL HI.
  - assert (list = 0) as -> by (destruct HI as (_ & ? & _); done). by exists m, part, max_lev, PL.
  - assert (list = x) as -> by (destruct HI as (_ & (? & _) & _); done).
    destruct (distribute_step m0 L m part max_lev x PL rest Hn Hloc HI) as ([[[m1 part1] max1] l1] & PL1 & E & HI1).
    destruct (IH _ _ _ _ _ HI1) as (m' & part' & max' & PL' & Hs & HI'). exists m', part', max', PL'. cbn [steps length]. by rewrite E, bind_Some.
Qed.

(** The partial lists from the level [lev] on, and the merged list [acc] of those below. *)
Definition collecting (m0 : memory) (L : list Z) (part : list Z) (PL : list (list Z)) (m : memory) (lev lst : Z) (acc : list Z) : Prop :=
  chain m lst acc /\ Sorted' acc /\ similar cmp (concat (reverse (drop (Z.to_nat lev) PL)) ++ acc) L /\
  (forall j l, lev <= j -> PL.[j] = Some l -> exists p, part.[j] = Some p /\ chain m p l /\ Sorted' l) /\
  (forall x, x ∉ (local :: L) -> m !! x = m0 !! x) /\ (forall x, is_Some (m !! x) <-> is_Some (m0 !! x)).

Lemma concat_drop_parts (PL : list (list Z)) lev l : PL.[lev] = Some l ->
  concat (reverse (drop (Z.to_nat lev) PL)) = concat (reverse (drop (Z.to_nat (lev + 1)) PL)) ++ l.
Proof.
  intros [H0 Hl]%arr_get_Some. rewrite (drop_S PL l) by done. rewrite reverse_cons, concat_app. simpl. rewrite app_nil_r.
  by replace (S (Z.to_nat lev)) with (Z.to_nat (lev + 1)) by lia.
Qed.

Lemma part_in_drop (PL : list (list Z)) lev j l x : 0 <= lev <= j -> PL.[j] = Some l -> x ∈ l -> x ∈ concat (reverse (drop (Z.to_nat lev) PL)).
Proof.
  intros Hj [_ Hl]%arr_get_Some Hx. rewrite concat_reverse_perm, list_elem_of_In, in_concat. exists l. rewrite <- !list_elem_of_In. split; [|done].
  apply list_elem_of_lookup. exists (Z.to_nat j - Z.to_nat lev)%nat. rewrite lookup_drop. by replace (Z.to_nat lev + (Z.to_nat j - Z.to_nat lev))%nat with (Z.to_nat j) by lia.
Qed.

Lemma collect_step m0 L part PL m lev lst acc : NoDup (local :: L) -> is_Some (m0 !! local) -> 0 <= lev < zlen PL ->
  collecting m0 L part PL m lev lst acc -> forall max_lev, lev < max_lev ->
  exists m' lst' acc', collect_body cmp local part max_lev (m, lev, lst) = Some (Next (m', lev + 1, lst')) /\ collecting m0 L part PL m' (lev + 1) lst' acc'.
Proof.
  intros Hn Hloc Hlev (Hc & Hs & Hsim & Hp & Hf & Hd) max_lev Hlt. unfold collect_body. bcase; [|lia].
  destruct (arr_get_is_Some PL lev Hlev) as [l Hl]. destruct (Hp lev l) as (p & Epart & Hcp & Hsl); [lia|done|]. rewrite Epart, bind_Some.
  rewrite (concat_drop_parts _ _ _ Hl) in Hsim. set (hi := concat (reverse (drop (Z.to_nat (lev + 1)) PL))) in *. destruct l as [|x l].
  { simpl in Hcp. subst p. rewrite app_nil_r in Hsim. exists m, lst, acc. split; [done|]. do 3 (split; [done|]). split; [|done]. intros j l Hj. apply Hp. lia. }
  pose proof Hcp as (-> & Hx0 & _). rewrite truth_nz by done. set (lp := x :: l) in *. rewrite <- app_assoc in Hsim.
  assert (Hnd : NoDup (hi ++ local :: lp ++ acc)) by (rewrite <- Permutation_middle, (proj1 Hsim); done).
  apply list.NoDup_app in Hnd as (_ & Hdis & Hnd). assert (Hloc' : is_Some (m !! local)) by (by apply Hd).
  destruct (merge_chains_ok cmp local m x lst lp acc Hcp Hc Hnd Hloc') as (m' & h & -> & Hch & Hf' & Hd'). rewrite bind_Some.
  exists m', h, (list_merge (ordered cmp) lp acc). split; [done|]. split; [done|]. split; [by apply merge_sorted|]. split; [|split; [|split]].
  - fold hi. apply (similar_trans _ _ (hi ++ lp ++ acc)); [apply similar_app; [apply similar_refl|by apply merge_similar]|done].
  - intros j l' Hj Hl'. destruct (Hp j l') as (p & Ep & Hcp' & Hsp); [lia|done|]. exists p. split; [done|]. split; [|done].
    apply (chain_frame m); [|done]. intros y Hy. unfold get_next. rewrite Hf'; [done|]. apply Hdis. by apply (part_in_drop PL (lev + 1) j l'); [lia|..].
  - intros y Hy. apply not_elem_of_cons in Hy as [Hyl Hy]. rewrite Hf'; [apply Hf; by apply not_elem_of_cons|].
    intros [->|Hy']%elem_of_cons; [done|]. apply Hy. rewrite <- (proj1 Hsim). apply elem_of_app. by right.
  - intros y. by rewrite Hd', Hd.
Qed.

Lemma collect_ok m0 L part PL m max_lev : NoDup (local :: L) -> is_Some (m0 !! local) -> 0 <= max_lev < zlen PL -> max_lev <= MAX_LIST_LENGTH_BITS ->
  collecting m0 L part PL m 0 0 [] ->
  exists m' lst acc, loop (collect_body cmp local part max_lev) (MAX_LIST_LENGTH_BITS + 2) (m, 0, 0) = Some (m', lst) /\ collecting m0 L part PL m' max_lev lst acc.
Proof.
  intros Hn Hloc Hmax Hmax' HI.
  destruct (loop_total (collect_body cmp local part max_lev)
    (fun '(m, lev, lst) => 0 <= lev <= max_lev /\ exists acc, collecting m0 L part PL m lev lst acc) (fun '(_, lev, _) => max_lev - lev)
    (fun '(m, lst) => exists acc, collecting m0 L part PL m max_lev lst acc))
    with (bound := MAX_LIST_LENGTH_BITS + 2) (s := (m, 0, 0)) as ([m' lst] & E & acc & HI').
  - intros [[m1 lev] lst] (Hlev & acc & HI1). split; [lia|]. destruct (decide (lev = max_lev)) as [->|Hne].
    + unfold collect_body. rewrite Z.ltb_irrefl. by exists acc.
    + destruct (collect_step m0 L part PL m1 lev lst acc Hn Hloc ltac:(lia) HI1 max_lev ltac:(lia)) as (m2 & l2 & acc2 & -> & HI2). split; [|lia]. split; [lia|]. by exists acc2.
  - split; [lia|]. by exists [].
  - lia.
  - by exists m', lst, acc.
Qed.
End Parts.

(** ** The sort *)

Lemma circular_ends m head l : circular m head l -> NoDup (head :: l) ->
  exists h, m !! head = Some h /\ prev h = end_of head l /\ (next h = head <-> l = []) /\ is_Some (m !! end_of head l).
Proof.
  intros [[Hl He]%linked_snoc [Hb Hp]%back_linked_snoc] Hn. unfold get_prev in Hp. destruct (m !! head) as [h|] eqn:E; [|done]. exists h.
  split; [done|]. split; [by injection Hp|]. split; [|unfold get_next in He; destruct (m !! end_of head l); [eauto|done]]. destruct l as [|x l].
  - unfold get_next in He. simpl in He. rewrite E in He. by injection He as ->.
  - split; [|done]. intros Hx. destruct Hl as [Hl _]. unfold get_next in Hl. rewrite E in Hl. injection Hl as Hl. apply list.NoDup_cons in Hn as [Hn _].
    destruct Hn. rewrite <- Hx, Hl. left.
Qed.

(** Cutting the circle at its end gives a list that ends with NULL. *)
Lemma cut_ok m head l : circular m head l -> NoDup (head :: l) -> 0 ∉ l -> l <> [] ->
  exists m1 v, set_next m (end_of head l) 0 = Some m1 /\ get_next m1 head = Some v /\ chain m1 v l /\
    (forall x, x ∉ l -> m1 !! x = m !! x) /\ (forall x, is_Some (m1 !! x) <-> is_Some (m !! x)).
Proof.
  intros Hc Hn H0 Hne. destruct (circular_ends m head l Hc Hn) as (h & _ & _ & _ & [n Hend]).
  destruct (set_next_Some m (end_of head l) 0 n Hend) as (m1 & E & Hn1 & Hk1 & Hd1 & _). destruct Hc as [[Hl _]%linked_snoc _].
  assert (Hl1 : linked m1 head l).
  { apply (linked_prefix_frame m); [done| |done]. intros x Hx. unfold get_next. by rewrite Hk1. }
  destruct (chain_linked m1 head l [] Hl1) with (v := 0) as (v & Hv & Hch); [|done|done|].
  { apply list.Forall_forall. intros x Hx ->. done. }
  rewrite app_nil_r in Hch. exists m1, v. split; [done|]. split; [done|]. split; [done|]. split; [|done].
  intros x Hx. apply Hk1. intros ->. apply Hx. destruct l as [|y l]; [done|]. simpl. apply end_of_in.
Qed.

Section Sort.
Context (cmp : Z -> Z -> Z) `{!ListOrder cmp} (local : Z).

Lemma parts_start m : parts cmp m (replicate (Z.to_nat (MAX_LIST_LENGTH_BITS + 1)) 0) (replicate (Z.to_nat (MAX_LIST_LENGTH_BITS + 1)) []).
Proof. split; [done|]. split; [by apply Forall2_replicate|apply Forall_replicate; constructor]. Qed.

Lemma parts_start_get j : 0 <= j <= MAX_LIST_LENGTH_BITS -> (replicate (Z.to_nat (MAX_LIST_LENGTH_BITS + 1)) (@nil Z)).[j] = Some [].
Proof. intros Hj. apply arr_get_Some. split; [lia|]. apply lookup_replicate. split; [done|lia]. Qed.

(** The elements of the last level, above which all are empty. *)
Lemma top_part (PL : list (list Z)) max_lev l : PL.[max_lev] = Some l -> zlen PL = MAX_LIST_LENGTH_BITS + 1 ->
  (forall j, max_lev < j <= MAX_LIST_LENGTH_BITS -> PL.[j] = Some []) -> concat (reverse (drop (Z.to_nat max_lev) PL)) = l.
Proof.
  intros Hl Hlen Hhigh. rewrite (concat_drop_parts _ _ _ Hl), concat_empty; [done|]. apply list.Forall_lookup. intros k q Hk. rewrite lookup_drop in Hk.
  pose proof (arr_get_range _ _ _ Hl). pose proof (lookup_lt_Some _ _ _ Hk). unfold zlen in Hlen.
  specialize (Hhigh (max_lev + 1 + Z.of_nat k) ltac:(lia)). apply arr_get_Some in Hhigh as [_ Hq].
  replace (Z.to_nat (max_lev + 1 + Z.of_nat k)) with (Z.to_nat (max_lev + 1) + k)%nat in Hq by lia. congruence.
Qed.

(** From the list that ends with NULL to the sorted circle. *)
Lemma sort_chain m head v l : chain m v l -> l <> [] -> NoDup (local :: head :: l) -> is_Some (m !! local) -> is_Some (m !! head) ->
  exists m1 part max_lev m2 lst a m' l', loop (distribute_body cmp local) (Z.of_nat (size m) + 1) (m, replicate (Z.to_nat (MAX_LIST_LENGTH_BITS + 1)) 0, 0, v) = Some (m1, part, max_lev) /\
    loop (collect_body cmp local part max_lev) (MAX_LIST_LENGTH_BITS + 2) (m1, 0, 0) = Some (m2, lst) /\ part.[max_lev] = Some a /\
    merge_and_restore_back_links cmp m2 head a lst = Some m' /\ circular m' head l' /\ Sorted (ordered cmp) l' /\ similar cmp l' l /\
    (forall x, x ∉ (local :: head :: l) -> m' !! x = m !! x).
Proof.
  intros Hc Hne Hn Hloc Hhd. assert (Hnl : NoDup (local :: l)) by (apply list.NoDup_cons in Hn as [H1 [_ H2]%list.NoDup_cons]; constructor; [|done]; intros ?; apply H1; by right).
  assert (HI : distributing cmp local m l (m, replicate (Z.to_nat (MAX_LIST_LENGTH_BITS + 1)) 0, 0, v) (replicate (Z.to_nat (MAX_LIST_LENGTH_BITS + 1)) []) l).
  { split; [apply parts_start|]. split; [done|]. split; [done|]. split; [intros j Hj; apply parts_start_get; lia|]. done. }
  destruct (distribute_steps cmp local m l Hnl Hloc _ _ _ _ _ _ HI) as (m1 & part & max_lev & PL & Hs & HP & _ & Hmax & Hhigh & Hsim & Hf & Hd).
  pose proof HP as (Hlen & _). rewrite app_nil_r in Hsim. destruct (arr_get_is_Some PL max_lev) as [la Hla]; [unfold MAX_LIST_LENGTH_BITS in *; lia|].
  destruct (collect_ok cmp local m l part PL m1 max_lev Hnl Hloc) as (m2 & lst & acc & E2 & Hcl & Hsacc & Hsim2 & Hp2 & Hf2 & Hd2); [unfold MAX_LIST_LENGTH_BITS in *; lia|lia| |].
  { split; [done|]. split; [constructor|]. split; [by rewrite app_nil_r|]. split; [|done]. intros j q Hj Hq. by apply (parts_get cmp m1 part PL). }
  rewrite (top_part PL max_lev la Hla Hlen Hhigh) in Hsim2. destruct (Hp2 max_lev la) as (a & Ea & Hca & Hsa); [lia|done|].
  assert (HL : la ++ acc ≡ₚ l) by apply Hsim2. apply list.NoDup_cons in Hn as [Hnloc Hnh].
  destruct (restore_ok cmp m2 head a lst la acc Hca Hcl) as (m' & E3 & Hcirc & Hf3); [by rewrite HL|by apply Hd2| |].
  { intros E. rewrite E in HL. by apply Permutation_nil in HL. }
  eexists m1, part, max_lev, m2, lst, a, m', (list_merge (ordered cmp) la acc). split; [|split; [done|split; [done|split; [done|split; [done|split]]]]].
  - apply (loop_steps _ _ _ _ _ _ Hs); [done|]. assert (zlen (local :: l) <= Z.of_nat (size m)) as H; [|rewrite zlen_cons in H; unfold zlen in H; lia].
    apply nodes_size; [done|]. intros x [->|Hx]%elem_of_cons; [done|by apply (chain_in m v l)].
  - by apply merge_sorted.
  - split; [apply (similar_trans _ _ (la ++ acc)); [by apply merge_similar|done]|]. intros x Hx. apply not_elem_of_cons in Hx as [Hxl Hx].
    rewrite Hf3 by (by rewrite HL). apply Hf2. apply not_elem_of_cons in Hx as [_ Hx]. by apply not_elem_of_cons.
Qed.
End Sort.

(** C16: Sorting a circular doubly linked list comes to an end and gives a circular doubly linked list of the same nodes, with the links back, in the order of the comparison,
    in which equivalent elements are in the order they had before; no other node is touched. *)
Theorem list_sort_correct cmp local m head l :
  ListOrder cmp -> circular m head l -> NoDup (local :: head :: l) -> 0 ∉ l -> is_Some (m !! local) ->
  exists m' l', list_sort cmp local m head = Some m' /\ circular m' head l' /\ Sorted (ordered cmp) l' /\ similar cmp l' l /\
    (forall x, x ∉ (local :: head :: l) -> m' !! x = m !! x).
Proof.
  intros Ho Hc Hn H0 Hloc. assert (Hnh : NoDup (head :: l)) by (by apply list.NoDup_cons in Hn as [_ ?]).
  destruct (circular_ends m head l Hc Hnh) as (h & Hh & Hprev & Hempty & _). unfold list_sort. rewrite Hh, bind_Some.
  destruct (Z.eqb_spec (next h) head) as [E|E].
  - exists m, l. apply Hempty in E as ->. split; [done|]. split; [done|]. split; [constructor|]. by split; [apply similar_refl|].
  - assert (Hne : l <> []) by tauto. destruct (cut_ok m head l Hc Hnh H0 Hne) as (m1 & v & E1 & Ev & Hch & Hf1 & Hd1).
    rewrite Hprev, E1, bind_Some, Ev, bind_Some.
    destruct (sort_chain cmp local m1 head v l Hch Hne Hn) as (m2 & part & max_lev & m3 & lst & a & m' & l' & -> & E3 & E4 & E5 & Hcirc & Hs & Hsim & Hf);
      [by apply Hd1|apply Hd1; rewrite Hh; eauto|]. rewrite bind_Some, E3, bind_Some, E4, bind_Some, E5.
    exists m', l'. do 4 (split; [done|]). intros x Hx. rewrite Hf by done. apply Hf1. intros Hxl. apply Hx. do 2 right. done.
Qed.

(** Nodes that are compared by their tens. *)
Definition tens (x y : Z) : Z := x / 10 - y / 10.
Lemma tens_order : ListOrder tens.
Proof. split; unfold ordered, tens; intros; lia. Qed.

Definition four_nodes : memory :=
  list_to_map [(7, {| next := 30; prev := 11 |}); (30, {| next := 12; prev := 7 |}); (12, {| next := 31; prev := 30 |});
               (31, {| next := 11; prev := 12 |}); (11, {| next := 7; prev := 31 |}); (90, {| next := 0; prev := 0 |})].

Lemma list_sort_correct_witness : exists m' l', list_sort tens 90 four_nodes 7 = Some m' /\ circular m' 7 l' /\ Sorted (ordered tens) l' /\
  similar tens l' [30; 12; 31; 11] /\ (forall x, x ∉ [90; 7; 30; 12; 31; 11] -> m' !! x = four_nodes !! x).
Proof.
  apply (list_sort_correct tens 90 four_nodes 7 [30; 12; 31; 11] tens_order).
  - split; vm_compute; tauto.
  - apply (bool_decide_unpack _). vm_compute. exact I.
  - apply (bool_decide_unpack _). vm_compute. exact I.
  - vm_compute. eauto.
Defined.

Example list_sort_is_stable :
  (list_sort tens 90 four_nodes 7 ≫= fun m => Some (map (get_next m) [7; 12; 11; 30; 31])) = Some (map Some [12; 11; 30; 31; 7]).
Proof. vm_compute. reflexivity. Qed.
