(* ===== verification/Range.v ===== *)
(** kernel/range.c: arrays of half-open address ranges, in which an entry
    whose end is 0 is a free slot.  What an array means is the set of
    addresses it covers ([covers]); the theorems say what each operation does
    to that set.  [clean_sort_range] and [sort_range] call the sort of Sort.v
    on the bytes of the array, with [cmp_range] as the comparison; its
    contract [Comparator] holds for starts that lie within 2 GiB of each
    other, because the difference of two starts is cut down to an [int]. *)
From Stdlib Require Import Sorting.Sorted.
From S2P Require Import Prelude Sort.

(** struct range (include/linux/range.h) *)
Record range : Type := mk_range { r_start : Z; r_end : Z }.

#[export] Instance range_eq_dec : EqDecision range.
Proof. solve_decision. Defined.

(** ** Adding *)

Definition add_range (rs : list range) (az nr_range start end_ : Z) : option (list range * Z) :=
  if end_ <=? start then Some (rs, nr_range)
  else if az <=? nr_range then Some (rs, nr_range)
  else
    rs ← rs.[nr_range <- mk_range start end_];
    Some (rs, nr_range + 1).

(** The loop that looks for an entry to merge with: the array with the merged
    entry, or nothing when no entry meets the new range. *)
Definition merge_body (nr_range start end_ : Z) (rs : list range) : Z -> option (step Z (option (list range))) :=
  fun i =>
    if i <? nr_range then
      r ← rs.[i];
      if r_end r =? 0 then Some (Next (i + 1))
      else
        let common_start := Z.max (r_start r) start in
        let common_end := Z.min (r_end r) end_ in
        if common_end <? common_start then Some (Next (i + 1))
        else
          let final_start := Z.min (r_start r) start in
          let final_end := Z.max (r_end r) end_ in
          rs ← rs.[i <- mk_range final_start final_end];
          Some (Done (Some rs))
    else Some (Done None).

Definition add_range_with_merge (rs : list range) (az nr_range start end_ : Z) : option (list range * Z) :=
  if end_ <=? start then Some (rs, nr_range)
  else
    merged ← loop (merge_body nr_range start end_ rs) (nr_range + 1) 0;
    match merged with
    | Some rs => Some (rs, nr_range)
    | None => add_range rs az nr_range start end_
    end.

(** ** Subtracting *)

(** [for (i = 0; i < az; i++) if (range[i].end == 0) break;] *)
Definition spare_body (az : Z) (rs : list range) : Z -> option (step Z Z) :=
  fun i =>
    if i <? az then
      r ← rs.[i];
      Some (if r_end r =? 0 then Done i else Next (i + 1))
    else Some (Done i).

Definition subtract_split (rs : list range) (az j start end_ : Z) (r : range) : option (list range) :=
  i ← loop (spare_body az rs) (az + 1) 0;
  rs ← (if i <? az then rs.[i <- mk_range end_ (r_end r)] else Some rs);
  rs.[j <- mk_range (r_start r) start].

Definition subtract_entry (rs : list range) (az j start end_ : Z) : option (list range) :=
  r ← rs.[j];
  if r_end r =? 0 then Some rs
  else if (start <=? r_start r) && (r_end r <=? end_) then rs.[j <- mk_range 0 0]
  else if (start <=? r_start r) && (end_ <? r_end r) && (r_start r <? end_) then
    rs.[j <- mk_range end_ (r_end r)]
  else if (r_start r <? start) && (r_end r <=? end_) && (start <? r_end r) then
    rs.[j <- mk_range (r_start r) start]
  else if (r_start r <? start) && (end_ <? r_end r) then subtract_split rs az j start end_ r
  else Some rs.

Definition subtract_body (az start end_ : Z) : list range * Z -> option (step (list range * Z) (list range)) :=
  fun '(rs, j) =>
    if j <? az then
      rs ← subtract_entry rs az j start end_;
      Some (Next (rs, j + 1))
    else Some (Done rs).

Definition subtract_range (rs : list range) (az start end_ : Z) : option (list range) :=
  if end_ <=? start then Some rs
  else loop (subtract_body az start end_) (az + 1) (rs, 0).

(** ** Sorting *)

(** The bytes of an entry in memory: two little-endian 64-bit words. *)
Fixpoint bytes_of (n : nat) (x : Z) : list Z :=
  match n with
  | O => []
  | S n => x mod 256 :: bytes_of n (x / 256)
  end.
Definition range_bytes (r : range) : list Z := bytes_of 8 (r_start r) ++ bytes_of 8 (r_end r).
Definition range_of_bytes (e : list Z) : range := mk_range (word_of (take 8 e)) (word_of (drop 8 e)).

Definition cmp_range (x1 x2 : list Z) : Z :=
  let start1 := s64 (r_start (range_of_bytes x1)) in
  let start2 := s64 (r_start (range_of_bytes x2)) in
  s32 (s64 (start1 - start2)).

(** The array read back from its bytes. *)
Fixpoint decode_array (n : nat) (mem : list Z) : list range :=
  match n with
  | O => []
  | S n => range_of_bytes (take 16 mem) :: decode_array n (drop 16 mem)
  end.

Definition sort_range (rs : list range) (nr_range : Z) : option (list range) :=
  mem ← sort (concat (range_bytes <$> rs)) nr_range 16 cmp_range None;
  Some (decode_array (length rs) mem).

(** [for (j = k; j > i; j--) if (range[j].end) { k = j; break; }] *)
Definition last_used_body (i : Z) (rs : list range) : Z -> option (step Z Z) :=
  fun j =>
    if i <? j then
      r ← rs.[j];
      Some (if negb (r_end r =? 0) then Done j else Next (j - 1))
    else Some (Done j).

Definition compact_body : list range * Z * Z -> option (step (list range * Z * Z) (list range)) :=
  fun '(rs, i, k) =>
    if i <? k then
      r ← rs.[i];
      if negb (r_end r =? 0) then Some (Next (rs, i + 1, k))
      else
        j ← loop (last_used_body i rs) (k - i + 1) k;
        if j =? i then Some (Done rs)
        else
          let k := j in
          rk ← rs.[k];
          rs ← rs.[i <- rk];
          rs ← rs.[k <- mk_range 0 0];
          Some (Next (rs, i + 1, k - 1))
    else Some (Done rs).

(** [nr_range = az; for (i = 0; i < az; i++) if (!range[i].end) { nr_range = i; break; }] *)
Definition count_body (az : Z) (rs : list range) : Z -> option (step Z Z) :=
  fun i =>
    if i <? az then
      r ← rs.[i];
      Some (if r_end r =? 0 then Done i else Next (i + 1))
    else Some (Done az).

Definition clean_sort_range (rs : list range) (az : Z) : option (list range * Z) :=
  rs ← loop compact_body (az + 1) (rs, 0, az - 1);
  nr_range ← loop (count_body az rs) (az + 1) 0;
  mem ← sort (concat (range_bytes <$> rs)) nr_range 16 cmp_range None;
  Some (decode_array (length rs) mem, nr_range).

(** ** What an array means *)

(** The addresses of an entry: none if it is free. *)
Definition in_range (r : range) (x : Z) : Prop := r_start r <= x < r_end r.
Definition covers (rs : list range) (x : Z) : Prop := exists r, r ∈ rs /\ in_range r x.

(** Addresses are not negative, and a free slot starts at 0. *)
Definition wf_range (r : range) : Prop := 0 <= r_start r /\ 0 <= r_end r /\ (r_end r = 0 -> r_start r = 0).
Definition wf_ranges (rs : list range) : Prop := Forall wf_range rs.

(** ** Proofs: coverage *)

#[export] Instance covers_proper : Proper ((≡ₚ) ==> eq ==> iff) covers.
Proof. intros rs rs' Hp x _ <-. unfold covers. by setoid_rewrite Hp. Qed.

#[export] Instance wf_ranges_proper : Proper ((≡ₚ) ==> iff) wf_ranges.
Proof. intros rs rs' Hp. unfold wf_ranges. by rewrite Hp. Qed.

Lemma covers_cons r rs x : covers (r :: rs) x <-> in_range r x \/ covers rs x.
Proof.
  unfold covers. setoid_rewrite elem_of_cons. split.
  - intros (r' & [->|H] & Hx); eauto.
  - intros [H|(r' & H & Hx)]; eauto.
Qed.

Lemma covers_nil x : covers [] x <-> False.
Proof. unfold covers. split; [|done]. intros (r & H & _). by apply not_elem_of_nil in H. Qed.

(** An array seen from one of its slots. *)
Lemma slot_split (rs : list range) j r : rs.[j] = Some r ->
  exists o, rs ≡ₚ r :: o /\ forall r', rs.[j <- r'] = Some (<[Z.to_nat j := r']> rs) /\ <[Z.to_nat j := r']> rs ≡ₚ r' :: o.
Proof.
  intros Hj. pose proof (arr_get_range _ _ _ Hj) as Hr. apply arr_get_Some in Hj as [_ Hj].
  exists (take (Z.to_nat j) rs ++ drop (S (Z.to_nat j)) rs). split.
  - rewrite <-(take_drop_middle rs _ r Hj) at 1. by rewrite Permutation_middle.
  - intros r'. split; [by apply arr_set_Some|].
    rewrite insert_take_drop by by eapply lookup_lt_Some. by rewrite Permutation_middle.
Qed.

Lemma slot_split2 (rs : list range) i j f r f' r' : rs.[i] = Some f -> rs.[j] = Some r -> i <> j ->
  exists o rs1 rs2, rs ≡ₚ r :: f :: o /\ rs.[i <- f'] = Some rs1 /\ rs1.[j <- r'] = Some rs2 /\ rs2 ≡ₚ r' :: f' :: o.
Proof.
  intros Hi Hj Hij. destruct (slot_split rs j r Hj) as (o & Ho & _).
  destruct (slot_split rs i f Hi) as (oi & Hoi & Hins). destruct (Hins f') as [E1 Hp1].
  pose proof (arr_get_range _ _ _ Hi) as Hir. pose proof (arr_get_range _ _ _ Hj) as Hjr.
  assert (Hj1 : (<[Z.to_nat i := f']> rs).[j] = Some r) by (rewrite arr_get_insert, decide_False by lia; done).
  destruct (slot_split _ j r Hj1) as (o1 & Ho1 & Hins1). destruct (Hins1 r') as [E2 Hp2].
  assert (Hin : f ∈ o).
  { apply arr_get_Some in Hi as [_ Hi], Hj as [_ Hj]. apply (delete_Permutation rs (Z.to_nat j)) in Hj as Hd.
    rewrite Hd in Ho. apply Permutation_cons_inv in Ho. rewrite <-Ho. apply list_elem_of_lookup.
    destruct (decide (i < j)).
    - exists (Z.to_nat i). rewrite list_lookup_delete_lt by lia. done.
    - exists (Z.to_nat i - 1)%nat. rewrite list_lookup_delete_ge by lia. rewrite <-Hi. f_equal. lia. }
  apply elem_of_Permutation in Hin as [o2 Ho2]. rewrite Ho2 in Ho.
  exists o2, (<[Z.to_nat i := f']> rs), (<[Z.to_nat j := r']> (<[Z.to_nat i := f']> rs)).
  split; [done|]. split; [done|]. split; [done|]. rewrite Hp2. f_equiv.
  apply (Permutation_cons_inv (a := r)). rewrite <-Ho1, Hp1, Permutation_swap. f_equiv.
  apply (Permutation_cons_inv (a := f)). by rewrite <-Hoi, Ho, Permutation_swap.
Qed.

Lemma free_covers_nothing r x : wf_range r -> r_end r = 0 -> ~ in_range r x.
Proof. unfold wf_range, in_range. lia. Qed.

Lemma wf_slot rs j r : wf_ranges rs -> rs.[j] = Some r -> wf_range r.
Proof. intros Hwf [_ Hj]%arr_get_Some. by eapply Forall_lookup_1 in Hwf. Qed.

Lemma wf_cons r rs : wf_ranges (r :: rs) <-> wf_range r /\ wf_ranges rs.
Proof. apply Forall_cons_iff. Qed.

(** ** Proofs: adding *)

Section Add.
Context (rs : list range) (az nr start end_ : Z).
Context (Hwf : wf_ranges rs) (Haz : zlen rs = az) (Hnr : 0 <= nr <= az) (Hs : 0 <= start).
Context (Hfree : forall r, rs.[nr] = Some r -> r_end r = 0).

Lemma add_range_ok : exists rs' nr',
  add_range rs az nr start end_ = Some (rs', nr') /\ wf_ranges rs' /\ zlen rs' = az /\ 
  nr' = (if (start <? end_) && (nr <? az) then nr + 1 else nr) /\
  forall x, covers rs' x <-> covers rs x \/ (start <= x < end_ /\ nr < az).
Proof using All.
  unfold add_range. rewrite Z.ltb_antisym. destruct (Z.leb_spec end_ start); cbn [negb andb].
  { exists rs, nr. do 4 (split; [done|]). intros x. split; [auto|]. intros [?|?]; [done|lia]. }
  rewrite Z.ltb_antisym. destruct (Z.leb_spec az nr); cbn [negb].
  { exists rs, nr. do 4 (split; [done|]). intros x. split; [auto|]. intros [?|?]; [done|lia]. }
  destruct (arr_get_is_Some rs nr) as [r Hr]; [lia|].
  destruct (slot_split rs nr r Hr) as (o & Ho & Hins). destruct (Hins (mk_range start end_)) as [-> Hins'].
  cbn [mbind option_bind]. exists (<[Z.to_nat nr := mk_range start end_]> rs), (nr + 1). split; [done|].
  pose proof Hwf as Hwf'. rewrite Ho, wf_cons in Hwf'. destruct Hwf' as [Hwr Hwo].
  split; [rewrite Hins', wf_cons; split; [|done]; split; [cbn; lia|cbn; lia]|].
  split; [by rewrite zlen_insert|]. split; [done|]. intros x. rewrite Hins', Ho, !covers_cons.
  pose proof (free_covers_nothing r x Hwr (Hfree r Hr)). unfold in_range at 1. cbn. intuition lia.
Qed.

(** Some used entry meets or touches the new range. *)
Definition mergeable : Prop :=
  exists i r, 0 <= i < nr /\ rs.[i] = Some r /\ r_end r <> 0 /\ Z.max (r_start r) start <= Z.min (r_end r) end_.

Definition merge_post (m : option (list range)) : Prop :=
  match m with
  | None => ~ mergeable
  | Some rs' => mergeable /\ wf_ranges rs' /\ zlen rs' = az /\ forall x, covers rs' x <-> covers rs x \/ start <= x < end_
  end.

Definition merge_inv (i : Z) : Prop :=
  0 <= i <= nr /\ forall k r, 0 <= k < i -> rs.[k] = Some r ->
    r_end r = 0 \/ Z.min (r_end r) end_ < Z.max (r_start r) start.

Lemma merge_step i : start < end_ -> merge_inv i ->
  body_ok (merge_body nr start end_ rs) merge_inv (fun i => nr - i) merge_post i.
Proof using All.
  intros Hse (Hi & Hk). split; [lia|]. unfold merge_body. destruct (Z.ltb_spec i nr) as [Hlt|Hge].
  2:{ intros (k & r & Hk' & Hr & He & Hm). destruct (Hk k r); [lia|done|lia..]. }
  destruct (arr_get_is_Some rs i) as [r Hr]; [lia|]. rewrite Hr. cbn [mbind option_bind].
  assert (Hnext : r_end r = 0 \/ Z.min (r_end r) end_ < Z.max (r_start r) start -> merge_inv (i + 1)).
  { intros H. split; [lia|]. intros k r' Hk' Hr'. destruct (decide (k = i)) as [->|]; [by simplify_eq|].
    apply (Hk k r'); [lia|done]. }
  destruct (Z.eqb_spec (r_end r) 0); [split; [auto|lia]|].
  destruct (Z.ltb_spec (Z.min (r_end r) end_) (Z.max (r_start r) start)); [split; [auto|lia]|].
  destruct (slot_split rs i r Hr) as (o & Ho & Hins). cbv zeta.
  destruct (Hins (mk_range (Z.min (r_start r) start) (Z.max (r_end r) end_))) as [-> Hins'].
  cbn [mbind option_bind]. pose proof Hwf as Hwf'. rewrite Ho, wf_cons in Hwf'. destruct Hwf' as [Hwr Hwo].
  split; [exists i, r; split; [lia|done]|]. unfold wf_range in Hwr.
  split; [rewrite Hins', wf_cons; split; [|done]; split; cbn; lia|].
  split; [by rewrite zlen_insert|]. intros x. rewrite Hins', Ho, !covers_cons. unfold in_range. cbn.
  assert (Z.min (r_start r) start <= x < Z.max (r_end r) end_ <->
    r_start r <= x < r_end r \/ start <= x < end_) by lia. tauto.
Qed.

Lemma merge_ok : start < end_ ->
  exists m, loop (merge_body nr start end_ rs) (nr + 1) 0 = Some m /\ merge_post m.
Proof using All.
  intros Hse. apply loop_total with (I := merge_inv) (m := fun i => nr - i); [| |lia].
  - intros i. by apply merge_step.
  - split; [lia|]. intros k r Hk. lia.
Qed.

Lemma add_range_with_merge_ok : exists rs' nr',
  add_range_with_merge rs az nr start end_ = Some (rs', nr') /\ wf_ranges rs' /\ zlen rs' = az /\
  forall x, covers rs' x <-> covers rs x \/ (start <= x < end_ /\ (mergeable \/ nr < az)).
Proof using All.
  unfold add_range_with_merge. destruct (Z.leb_spec end_ start).
  { exists rs, nr. do 3 (split; [done|]). intros x. split; [auto|]. intros [?|?]; [done|lia]. }
  destruct merge_ok as (m & -> & Hm); [done|]. cbn [mbind option_bind]. destruct m as [rs'|].
  - destruct Hm as (Hm & Hwf' & Hlen & Hc). exists rs', nr. do 3 (split; [done|]). intros x. rewrite Hc. tauto.
  - destruct add_range_ok as (rs' & nr' & -> & Hwf' & Hlen & _ & Hc). exists rs', nr'. do 3 (split; [done|]).
    intros x. rewrite Hc. unfold merge_post in Hm. tauto.
Qed.
End Add.

(** ** Proofs: subtracting *)

Fixpoint count (p : range -> bool) (rs : list range) : nat :=
  match rs with
  | [] => 0
  | r :: rs => (if p r then 1 else 0) + count p rs
  end.

#[export] Instance count_proper p : Proper ((≡ₚ) ==> eq) (count p).
Proof. intros rs rs' H. induction H; simpl; lia. Qed.

Definition is_free (r : range) : bool := r_end r =? 0.

(** An entry that the subtracted range leaves in two parts. *)
Definition is_split (start end_ : Z) (r : range) : bool :=
  negb (is_free r) && (r_start r <? start) && (end_ <? r_end r).

Section Subtract.
Context (az start end_ : Z) (Hs : 0 <= start) (Hse : start < end_).

Definition clean (r : range) : Prop := forall x, in_range r x -> ~ start <= x < end_.

(** There is a free slot for every entry that is cut in two. *)
Definition room (rs : list range) : Prop := (count (is_split start end_) rs <= count is_free rs)%nat.

(** What a step does: it adds no address, it drops none outside the
    subtracted range while there is room, and it keeps the room. *)
Definition shrinks (rs rs' : list range) : Prop :=
  wf_ranges rs' /\ (forall x, covers rs' x -> covers rs x) /\
  (room rs -> room rs' /\ forall x, covers rs x -> ~ start <= x < end_ -> covers rs' x).

#[local] Instance shrinks_proper : Proper ((≡ₚ) ==> (≡ₚ) ==> iff) shrinks.
Proof using.
  intros a a' Ha b b' Hb. unfold shrinks, room. rewrite !(count_proper _ _ _ Ha), !(count_proper _ _ _ Hb).
  rewrite (wf_ranges_proper _ _ Hb). setoid_rewrite Ha. by setoid_rewrite Hb.
Qed.

Lemma replace_slot rs j r r' : wf_ranges rs -> rs.[j] = Some r -> wf_range r' ->
  (forall x, in_range r' x -> in_range r x) ->
  (forall x, in_range r x -> ~ start <= x < end_ -> in_range r' x) ->
  is_split start end_ r' = false -> (is_free r = true -> is_free r' = true) ->
  rs.[j <- r'] = Some (<[Z.to_nat j := r']> rs) /\ shrinks rs (<[Z.to_nat j := r']> rs).
Proof using.
  intros Hwf Hj Hwr' Hsub Hkeep Hsp Hfr. destruct (slot_split rs j r Hj) as (o & Ho & Hins).
  destruct (Hins r') as [-> Hp]. split; [done|]. rewrite Ho, wf_cons in Hwf. destruct Hwf as [Hwr Hwo].
  apply (shrinks_proper _ _ Ho _ _ Hp). unfold shrinks, room. split; [by rewrite wf_cons|]. split.
  - intros x. rewrite !covers_cons. intuition.
  - intros Hroom. split.
    + simpl in *. rewrite Hsp. destruct (is_free r); [rewrite Hfr by done|destruct (is_free r')];
        destruct (is_split start end_ r); simpl in *; lia.
    + intros x. rewrite !covers_cons. intros [H|H] Hn; [left; by apply Hkeep|by right].
Qed.

Definition spare_post (rs : list range) (i : Z) : Prop :=
  (i = az /\ count is_free rs = 0%nat) \/ (0 <= i < az /\ exists f, rs.[i] = Some f /\ r_end f = 0).

Lemma count_none p rs : (forall j r, rs.[j] = Some r -> p r = false) -> count p rs = 0%nat.
Proof using.
  intros H. induction rs as [|r rs IH]; [done|]. simpl. rewrite (H 0 r (arr_get_0 _ _)), IH; [done|].
  intros j r' Hj. apply (H (j + 1)). pose proof (arr_get_range _ _ _ Hj). rewrite arr_get_cons by lia.
  by replace (j + 1 - 1) with j by lia.
Qed.

Lemma spare_ok rs : zlen rs = az -> exists i, loop (spare_body az rs) (az + 1) 0 = Some i /\ spare_post rs i.
Proof using.
  intros Haz. pose proof (zlen_nonneg rs).
  apply loop_total with (m := fun i => az - i)
    (I := fun i => 0 <= i <= az /\ forall k r, 0 <= k < i -> rs.[k] = Some r -> is_free r = false);
    [| |lia].
  - intros i [Hi Hk]. split; [lia|]. unfold spare_body. destruct (Z.ltb_spec i az).
    + destruct (arr_get_is_Some rs i) as [r Hr]; [lia|]. rewrite Hr. cbn [mbind option_bind].
      destruct (Z.eqb_spec (r_end r) 0); [right; split; [lia|by eauto]|]. split; [|lia]. split; [lia|].
      intros k r' Hk' Hr'. destruct (decide (k = i)) as [->|]; [|apply (Hk k); [lia|done]].
      simplify_eq. by apply Z.eqb_neq.
    + left. split; [lia|]. apply count_none. intros j r Hj. pose proof (arr_get_range _ _ _ Hj).
      apply (Hk j); [lia|done].
  - split; [lia|]. intros; lia.
Qed.

(** An entry cut in two: the upper part moves to a free slot. *)
Lemma split_ok rs j r : wf_ranges rs -> zlen rs = az -> rs.[j] = Some r -> r_end r <> 0 ->
  r_start r < start -> end_ < r_end r ->
  exists rs', subtract_split rs az j start end_ r = Some rs' /\ shrinks rs rs' /\ zlen rs' = az /\
    rs'.[j] = Some (mk_range (r_start r) start) /\
    (forall k r', k <> j -> rs'.[k] = Some r' -> rs.[k] = Some r' \/ r_start r' = end_).
Proof using Hs Hse.
  intros Hwf Haz Hj He Hlo Hhi. pose proof (wf_slot rs j r Hwf Hj) as Hwr.
  pose proof (arr_get_range _ _ _ Hj) as Hjr. unfold wf_range in Hwr.
  destruct (spare_ok rs Haz) as (i & E & Hi). unfold subtract_split. rewrite E. cbn [mbind option_bind].
  destruct Hi as [[-> Hnone]|(Hi & f & Hf & Hfe)].
  - rewrite Z.ltb_irrefl. cbn [mbind option_bind].
    destruct (slot_split rs j r Hj) as (o & Ho & Hins).
    destruct (Hins (mk_range (r_start r) start)) as [-> Hp]. eexists. split; [done|].
    split; [|split; [by rewrite zlen_insert|split; [rewrite arr_get_insert by lia; by rewrite decide_True|]]].
    2:{ intros k r' Hk. rewrite arr_get_insert by lia. rewrite decide_False by done. auto. }
    apply (shrinks_proper _ _ Ho _ _ Hp). rewrite Ho, wf_cons in Hwf. rewrite Ho in Hnone.
    unfold shrinks, room. rewrite wf_cons. split; [split; [split; cbn; lia|tauto]|]. split.
    + intros x. rewrite !covers_cons. unfold in_range at 1 2. cbn. intuition lia.
    + rewrite Hnone. cbn [count]. unfold is_split at 1, is_free at 1. bcases.
  - rewrite (proj2 (Z.ltb_lt i az)) by lia.
    assert (Hij : i <> j) by (intros ->; congruence).
    destruct (slot_split2 rs i j f r (mk_range end_ (r_end r)) (mk_range (r_start r) start) Hf Hj Hij)
      as (o & rs1 & rs2 & Ho & E1 & E2 & Hp). rewrite E1. cbn [mbind option_bind]. exists rs2. split; [done|].
    apply arr_set_inv in E1 as [_ ->], E2 as [_ ->]. split.
    2:{ split; [by rewrite !zlen_insert|]. split.
        - rewrite arr_get_insert by (rewrite zlen_insert; lia). by rewrite decide_True.
        - intros k r' Hk. rewrite arr_get_insert by (rewrite zlen_insert; lia). rewrite decide_False by done.
          rewrite arr_get_insert by lia. case_decide; [|auto]. intros [= <-]. by right. }
    apply (shrinks_proper _ _ Ho _ _ Hp). rewrite Ho, !wf_cons in Hwf.
    unfold shrinks, room. rewrite !wf_cons. split; [split; [split; cbn; lia|split; [split; cbn; lia|tauto]]|]. split.
    + intros x. rewrite !covers_cons. unfold in_range. cbn. intuition lia.
    + cbn [count]. unfold is_split, is_free. cbn [r_start r_end]. rewrite Hfe. intros Hroom. split.
      * revert Hroom. bcases.
      * intros x. rewrite !covers_cons. unfold in_range. cbn. intros H Hn. rewrite Hfe in H.
        assert (r_start r <= x < r_end r -> r_start r <= x < start \/ end_ <= x < r_end r) by lia.
        destruct Hwf as (_ & Hwf' & _). unfold wf_range in Hwf'. intuition lia.
Qed.

Lemma shrinks_refl rs : wf_ranges rs -> shrinks rs rs.
Proof using. intros H. split; [done|]. split; auto. Qed.

Lemma shrinks_trans rs1 rs2 rs3 : shrinks rs1 rs2 -> shrinks rs2 rs3 -> shrinks rs1 rs3.
Proof using.
  intros (_ & Hs1 & Hr1) (Hw & Hs2 & Hr2). split; [done|]. split; [auto|]. intros H1.
  destruct (Hr1 H1) as [H2 K1]. destruct (Hr2 H2) as [H3 K2]. split; auto.
Qed.

(** What one entry's turn leaves behind. *)
Definition entry_post (rs : list range) (j : Z) (rs' : list range) : Prop :=
  shrinks rs rs' /\ zlen rs' = az /\ (forall r', rs'.[j] = Some r' -> clean r') /\
  (forall k r', k <> j -> rs'.[k] = Some r' -> rs.[k] = Some r' \/ r_start r' = end_).

Lemma entry_same rs j r : wf_ranges rs -> zlen rs = az -> rs.[j] = Some r -> clean r -> entry_post rs j rs.
Proof using.
  intros Hwf Haz Hj Hc. split; [by apply shrinks_refl|]. split; [done|].
  split; [intros r' Hr'; by simplify_eq|auto].
Qed.

Lemma entry_replace rs j r r' : wf_ranges rs -> zlen rs = az -> rs.[j] = Some r -> wf_range r' -> clean r' ->
  (forall x, in_range r' x -> in_range r x) ->
  (forall x, in_range r x -> ~ start <= x < end_ -> in_range r' x) -> r_end r <> 0 ->
  exists rs', rs.[j <- r'] = Some rs' /\ entry_post rs j rs'.
Proof using Hs Hse.
  intros Hwf Haz Hj Hwr' Hc Hsub Hkeep He. pose proof (arr_get_range _ _ _ Hj).
  destruct (replace_slot rs j r r') as [E Hsh]; try done.
  - unfold is_split. apply not_true_is_false. intros H'. apply andb_prop in H' as [H' H2].
    apply andb_prop in H' as [_ H1]. apply (Hc start); unfold in_range; lia.
  - unfold is_free. intros ?%Z.eqb_eq. done.
  - rewrite E. eexists. split; [done|]. split; [done|]. split; [by rewrite zlen_insert|].
    split.
    + intros r''. rewrite arr_get_insert, decide_True by done. by intros [= <-].
    + intros k r'' Hk. rewrite arr_get_insert, decide_False by done. auto.
Qed.

Lemma subtract_entry_ok rs j : wf_ranges rs -> zlen rs = az -> 0 <= j < az ->
  exists rs', subtract_entry rs az j start end_ = Some rs' /\ entry_post rs j rs'.
Proof using Hs Hse.
  intros Hwf Haz Hj. destruct (arr_get_is_Some rs j) as [r Hr]; [lia|].
  unfold subtract_entry. rewrite Hr. cbn [mbind option_bind].
  pose proof (wf_slot rs j r Hwf Hr) as Hwr. unfold wf_range in Hwr.
  assert (Hkeep : clean r -> exists rs', Some rs = Some rs' /\ entry_post rs j rs').
  { intros Hc. exists rs. split; [done|]. by eapply entry_same. }
  destruct (Z.eqb_spec (r_end r) 0) as [He|He]; [apply Hkeep; intros x; unfold in_range; lia|].
  destruct (Z.leb_spec start (r_start r)), (Z.leb_spec (r_end r) end_); cbn [andb].
  - apply (entry_replace rs j r); try done; unfold wf_range, clean, in_range; cbn; lia.
  - rewrite !(proj2 (Z.ltb_lt _ _)) by lia. destruct (Z.ltb_spec (r_start r) end_); cbn [andb].
    + apply (entry_replace rs j r); try done; unfold wf_range, clean, in_range; cbn; lia.
    + rewrite !(proj2 (Z.ltb_ge _ _)) by lia. cbn [andb]. apply Hkeep. intros x. unfold in_range. lia.
  - rewrite !(proj2 (Z.ltb_lt _ _)) by lia. destruct (Z.ltb_spec start (r_end r)); cbn [andb].
    + apply (entry_replace rs j r); try done; unfold wf_range, clean, in_range; cbn; lia.
    + rewrite !(proj2 (Z.ltb_ge _ _)) by lia. cbn [andb]. apply Hkeep. intros x. unfold in_range. lia.
  - rewrite !(proj2 (Z.ltb_lt _ _)) by lia. cbn [andb].
    destruct (split_ok rs j r) as (rs' & E & Hsh & Hl & Hj' & Hk); [done..|]. exists rs'.
    split; [done|]. split; [done|]. split; [done|]. split; [|done].
    intros r' Hr'. rewrite Hj' in Hr'. simplify_eq. intros x. unfold in_range. cbn. lia.
Qed.

Lemma subtract_range_ok rs : wf_ranges rs -> zlen rs = az ->
  exists rs', subtract_range rs az start end_ = Some rs' /\ shrinks rs rs' /\ zlen rs' = az /\
    forall x, covers rs' x -> ~ start <= x < end_.
Proof using Hs Hse.
  intros Hwf Haz. unfold subtract_range. rewrite (proj2 (Z.leb_gt end_ start)) by lia.
  pose proof (zlen_nonneg rs).
  destruct (loop_total (subtract_body az start end_)
    (fun '(rs', j) => 0 <= j <= az /\ zlen rs' = az /\ shrinks rs rs' /\
       forall k r, 0 <= k < j -> rs'.[k] = Some r -> clean r)
    (fun '(_, j) => az - j)
    (fun rs' => zlen rs' = az /\ shrinks rs rs' /\ forall k r, rs'.[k] = Some r -> clean r))
    with (bound := az + 1) (s := (rs, 0)) as (rs' & -> & Hl & Hsh & Hc); [| |lia|].
  - intros [rs' j] (Hj & Hl & Hsh & Hc). split; [lia|]. unfold subtract_body. destruct (Z.ltb_spec j az).
    + destruct (subtract_entry_ok rs' j) as (rs2 & -> & Hsh2 & Hl2 & Hcj & Hck); [by destruct Hsh|done|lia|].
      cbn [mbind option_bind]. split; [|lia]. split; [lia|]. split; [done|].
      split; [by eapply shrinks_trans|]. intros k r Hk Hr.
      destruct (decide (k = j)) as [->|Hne]; [by apply Hcj|].
      destruct (Hck k r Hne Hr) as [Hr'|Hr']; [apply (Hc k r); [lia|done]|].
      intros x. unfold in_range. lia.
    + split; [done|]. split; [done|]. intros k r Hr. pose proof (arr_get_range _ _ _ Hr).
      apply (Hc k); [lia|done].
  - split; [lia|]. split; [done|]. split; [by apply shrinks_refl|]. intros; lia.
  - exists rs'. split; [done|]. split; [done|]. split; [done|]. intros x (r & Hr & Hx).
    apply list_elem_of_lookup in Hr as [k Hk].
    apply (Hc (Z.of_nat k) r); [|done]. by rewrite arr_get_nat, Nat2Z.id by lia.
Qed.
End Subtract.

(** ** Proofs: the bytes of the array *)

Lemma word_of_bytes n x : 0 <= x < 256 ^ Z.of_nat n -> word_of (bytes_of n x) = x.
Proof.
  revert x. induction n as [|n IH]; intros x Hx; [change (256 ^ Z.of_nat 0) with 1 in Hx; cbn; lia|].
  rewrite Nat2Z.inj_succ, Z.pow_succ_r in Hx by lia. cbn [bytes_of word_of foldr].
  fold (word_of (bytes_of n (x / 256))). rewrite IH by zlia. zlia.
Qed.

Lemma length_bytes_of n x : length (bytes_of n x) = n.
Proof. revert x. induction n as [|n IH]; intros x; simpl; [done|]. by rewrite IH. Qed.

Lemma length_encode r : length (range_bytes r) = 16%nat.
Proof. done. Qed.

Definition fits (r : range) : Prop := 0 <= r_start r < 2 ^ 64 /\ 0 <= r_end r < 2 ^ 64.

Lemma decode_encode r : fits r -> range_of_bytes (range_bytes r) = r.
Proof.
  intros [Hs He]. unfold range_of_bytes, range_bytes. destruct r as [s e]. cbn [r_start r_end] in *.
  rewrite take_app_length' by by rewrite length_bytes_of.
  rewrite drop_app_length' by by rewrite length_bytes_of. by rewrite !word_of_bytes.
Qed.

Lemma decode_array_encode rs : Forall fits rs -> decode_array (length rs) (concat (range_bytes <$> rs)) = rs.
Proof.
  induction 1 as [|r rs Hr Hrs IH]; [done|]. cbn [length decode_array fmap list_fmap concat].
  rewrite take_app_length', drop_app_length' by done. by rewrite decode_encode, IH.
Qed.

Lemma elements_encode rs : elements 16 (range_bytes <$> rs).
Proof. apply Forall_fmap, Forall_true. done. Qed.

(** Entries whose starts lie in the 2 GiB above [lo]. *)
Definition window (lo : Z) (r : range) : Prop := fits r /\ lo <= r_start r < lo + 2 ^ 31.
Definition encoded (lo : Z) (e : list Z) : Prop := exists r, e = range_bytes r /\ window lo r.

Lemma cmp_range_encode lo a b : 0 <= lo -> lo + 2 ^ 31 <= 2 ^ 63 -> window lo a -> window lo b ->
  cmp_range (range_bytes a) (range_bytes b) = r_start a - r_start b.
Proof.
  intros Hlo Hhi [Fa Ha] [Fb Hb]. unfold cmp_range. rewrite !decode_encode by done.
  rewrite !(s64_small (r_start _)) by lia. rewrite s64_small, s32_small by lia. done.
Qed.

(** Within a window [cmp_range] keeps the contract of [sort]. *)
Lemma cmp_range_ok lo : 0 <= lo -> lo + 2 ^ 31 <= 2 ^ 63 -> Comparator (encoded lo) cmp_range.
Proof.
  intros Hlo Hhi. split.
  - intros x y (a & -> & Ha) (b & -> & Hb). rewrite !(cmp_range_encode lo) by done. lia.
  - intros x y z (a & -> & Ha) (b & -> & Hb) (c & -> & Hc). rewrite !(cmp_range_encode lo) by done. lia.
Qed.

Definition by_start : list range -> Prop := StronglySorted (fun a b => r_start a <= r_start b).

Lemma ascending_by_start lo rs : 0 <= lo -> lo + 2 ^ 31 <= 2 ^ 63 -> Forall (window lo) rs ->
  ascending cmp_range (range_bytes <$> rs) -> by_start rs.
Proof.
  intros Hlo Hhi. induction 1 as [|r rs Hr Hrs IH]; intros Ha; [constructor|].
  apply StronglySorted_inv in Ha as [Ha Hr']. constructor; [by apply IH|].
  change (Forall (fun e => cmp_range (range_bytes r) e <= 0) (range_bytes <$> rs)) in Hr'.
  rewrite Forall_fmap in Hr'. rewrite Forall_forall in Hr', Hrs |- *. intros a Ha'.
  specialize (Hr' a Ha'). change (cmp_range (range_bytes r) (range_bytes a) <= 0) in Hr'. rewrite (cmp_range_encode lo) in Hr' by auto. lia.
Qed.

(** Sorting the first entries of an array. *)
Lemma sort_entries lo used rest : 0 <= lo -> lo + 2 ^ 31 <= 2 ^ 63 ->
  Forall (window lo) used -> Forall fits rest -> zlen used * 16 < 2 ^ 31 ->
  exists used', used' ≡ₚ used /\ by_start used' /\
    sort (concat (range_bytes <$> used ++ rest)) (zlen used) 16 cmp_range None = Some (concat (range_bytes <$> used' ++ rest)) /\
    decode_array (length (used ++ rest)) (concat (range_bytes <$> used' ++ rest)) = used' ++ rest.
Proof.
  intros Hlo Hhi Hu Hr Hlen.
  destruct (sort_ok cmp_range (encoded lo) (cmp_range_ok lo Hlo Hhi) None 16 (range_bytes <$> used) (range_bytes <$> rest))
    as (es' & E & Hel & Hp & Ha); [done|lia|unfold zlen in *; by rewrite length_fmap| | |].
  - rewrite <-fmap_app. apply elements_encode.
  - apply Forall_fmap. eapply Forall_impl; [|exact Hu]. intros r Hr'. by exists r.
  - apply Permutation_map_inv in Hp as (used' & -> & Hp). exists used'.
    assert (Hu' : Forall (window lo) used') by (eapply Forall_perm; [by symmetry|done]).
    split; [by symmetry|]. split; [by eapply ascending_by_start|].
    rewrite <-fmap_app in E. unfold zlen in E |- *. rewrite length_fmap in E. split; [by rewrite E, fmap_app|].
    rewrite length_app, Hp, <-length_app. apply decode_array_encode. apply Forall_app. split; [|done].
    eapply Forall_impl; [|exact Hu']. by intros r [? _].
Qed.

(** ** Proofs: compaction *)

Definition used (r : range) : Prop := r_end r <> 0.
#[export] Instance used_dec r : Decision (used r).
Proof. unfold used. apply _. Defined.

(** The used entries first, then the free ones. *)
Definition packed (rs : list range) (n : Z) : Prop :=
  0 <= n <= zlen rs /\ (forall k r, 0 <= k < n -> rs.[k] = Some r -> used r) /\
  (forall k r, n <= k -> rs.[k] = Some r -> ~ used r).

Lemma free_zero r : wf_range r -> ~ used r -> r = mk_range 0 0.
Proof.
  destruct r as [s e]. unfold wf_range, used. cbn. intros (H1 & H2 & H3) H.
  assert (e = 0) as -> by lia. by rewrite H3.
Qed.

Section Clean.
Context (rs0 : list range) (Hwf : wf_ranges rs0).

Lemma last_used_ok i k rs : 0 <= i < k -> k < zlen rs ->
  exists j, loop (last_used_body i rs) (k - i + 1) k = Some j /\ i <= j <= k /\
    (forall l r, j < l <= k -> rs.[l] = Some r -> ~ used r) /\
    (i < j -> exists r, rs.[j] = Some r /\ used r).
Proof using.
  intros Hi Hk. apply loop_total with (m := fun j => j - i)
    (I := fun j => i <= j <= k /\ forall l r, j < l <= k -> rs.[l] = Some r -> ~ used r);
    [|split; [lia|intros; lia]|lia].
  intros j [Hj Hl]. split; [lia|]. unfold last_used_body. destruct (Z.ltb_spec i j).
  - destruct (arr_get_is_Some rs j) as [r Hr]; [lia|]. rewrite Hr. cbn [mbind option_bind].
    destruct (Z.eqb_spec (r_end r) 0); cbn [negb].
    + split; [|lia]. split; [lia|]. intros l r' Hl' Hr'.
      destruct (decide (l = j)) as [->|]; [simplify_eq; unfold used; lia|apply (Hl l); [lia|done]].
    + split; [lia|]. split; [done|]. eauto.
  - split; [lia|]. split; [done|]. lia.
Qed.

Definition compact_inv : list range * Z * Z -> Prop := fun '(rs, i, k) =>
  rs ≡ₚ rs0 /\ 0 <= i <= k + 1 /\ k < zlen rs /\
  (forall l r, 0 <= l < i -> rs.[l] = Some r -> used r) /\
  (forall l r, k < l -> rs.[l] = Some r -> ~ used r).

Lemma compact_move rs i j ri rj : rs ≡ₚ rs0 -> rs.[i] = Some ri -> rs.[j] = Some rj -> i <> j -> ~ used ri ->
  exists rs1 rs2, rs.[i <- rj] = Some rs1 /\ rs1.[j <- mk_range 0 0] = Some rs2 /\ rs2 ≡ₚ rs0 /\
    zlen rs2 = zlen rs /\
    forall l, rs2.[l] = if decide (l = j) then Some (mk_range 0 0) else if decide (l = i) then Some rj else rs.[l].
Proof using Hwf.
  intros Hp Hi Hj Hij Hu.
  destruct (slot_split2 rs i j ri rj rj (mk_range 0 0) Hi Hj Hij) as (o & rs1 & rs2 & Ho & E1 & E2 & Hp2).
  exists rs1, rs2. split; [done|]. split; [done|].
  assert (ri = mk_range 0 0) as ->.
  { apply free_zero; [|done]. apply (wf_slot rs i); [by rewrite Hp|done]. }
  split; [by rewrite Hp2, Permutation_swap, <-Ho|].
  pose proof (arr_get_range _ _ _ Hi). pose proof (arr_get_range _ _ _ Hj).
  apply arr_set_inv in E1 as [_ ->], E2 as [_ ->]. split; [by rewrite !zlen_insert|].
  intros l. rewrite !arr_get_insert by (rewrite ?zlen_insert; lia). repeat case_decide; done || lia.
Qed.

Lemma compact_step s : compact_inv s ->
  body_ok compact_body compact_inv (fun '(_, i, k) => Z.max 0 (k - i + 1))
    (fun rs => rs ≡ₚ rs0 /\ exists n, packed rs n) s.
Proof using Hwf.
  destruct s as [[rs i] k]. intros (Hp & Hi & Hk & Hlo & Hhi). split; [lia|]. unfold compact_body.
  pose proof (zlen_nonneg rs). destruct (Z.ltb_spec i k) as [Hik|Hik].
  2:{ split; [done|]. destruct (decide (i = k)) as [->|].
      - destruct (arr_get_is_Some rs k) as [r Hr]; [lia|]. destruct (decide (used r)).
        + exists (k + 1). split; [lia|]. split; [|intros l r' Hl; apply (Hhi l); lia].
          intros l r' Hl Hr'. destruct (decide (l = k)) as [->|]; [by simplify_eq|apply (Hlo l); [lia|done]].
        + exists k. split; [lia|]. split; [done|]. intros l r' Hl Hr'.
          destruct (decide (l = k)) as [->|]; [by simplify_eq|apply (Hhi l); [lia|done]].
      - exists i. split; [lia|]. split; [done|]. intros l r Hl. apply Hhi. lia. }
  destruct (arr_get_is_Some rs i) as [r Hr]; [lia|]. rewrite Hr. cbn [mbind option_bind].
  destruct (Z.eqb_spec (r_end r) 0) as [He|He]; cbn [negb].
  2:{ split; [|lia]. split; [done|]. split; [lia|]. split; [lia|]. split; [|done].
      intros l r' Hl Hr'. destruct (decide (l = i)) as [->|]; [by simplify_eq|apply (Hlo l); [lia|done]]. }
  destruct (last_used_ok i k rs) as (j & -> & Hj & Hfree & Hused); [lia..|]. cbn [mbind option_bind].
  destruct (Z.eqb_spec j i) as [->|Hji].
  { split; [done|]. exists i. split; [lia|]. split; [done|]. intros l r' Hl Hr'.
    destruct (decide (l = i)) as [->|]; [simplify_eq; unfold used; lia|].
    destruct (decide (l <= k)); [apply (Hfree l); [lia|done]|apply (Hhi l); [lia|done]]. }
  destruct Hused as (rj & Hrj & Huj); [lia|]. rewrite Hrj. cbn [mbind option_bind].
  destruct (compact_move rs i j r rj) as (rs1 & rs2 & -> & E2 & Hp2 & Hl2 & Hget); [done..|unfold used; lia|].
  cbn [mbind option_bind]. rewrite E2. cbn [mbind option_bind]. split; [|lia].
  split; [done|]. split; [lia|]. split; [lia|]. split; intros l r' Hl; rewrite Hget; repeat case_decide; try lia.
  - intros [= <-]. done.
  - apply Hlo. lia.
  - intros [= <-]. unfold used. cbn. lia.
  - intros Hr'. destruct (decide (l <= k)); [apply (Hfree l); [lia|done]|apply (Hhi l); [lia|done]].
Qed.

Lemma compact_ok : exists rs n, loop compact_body (zlen rs0 + 1) (rs0, 0, zlen rs0 - 1) = Some rs /\
  rs ≡ₚ rs0 /\ packed rs n.
Proof using Hwf.
  pose proof (zlen_nonneg rs0).
  destruct (loop_total compact_body compact_inv (fun '(_, i, k) => Z.max 0 (k - i + 1))
    (fun rs => rs ≡ₚ rs0 /\ exists n, packed rs n))
    with (bound := zlen rs0 + 1) (s := (rs0, 0, zlen rs0 - 1)) as (rs & -> & Hp & n & Hn);
    [apply compact_step| |lia|by eauto].
  split; [done|]. split; [lia|]. split; [lia|]. split; [intros; lia|].
  intros l r Hl Hr. apply arr_get_range in Hr. lia.
Qed.

Lemma count_ok rs n : packed rs n -> loop (count_body (zlen rs) rs) (zlen rs + 1) 0 = Some n.
Proof using.
  intros (Hn & Hlo & Hhi).
  destruct (loop_total (count_body (zlen rs) rs) (fun i => 0 <= i <= n) (fun i => zlen rs - i) (fun r => r = n))
    with (bound := zlen rs + 1) (s := 0) as (r & -> & ->); [|lia|lia|done].
  intros i Hi. split; [lia|]. unfold count_body. destruct (Z.ltb_spec i (zlen rs)); [|lia].
  destruct (arr_get_is_Some rs i) as [r Hr]; [lia|]. rewrite Hr. cbn [mbind option_bind].
  destruct (Z.eqb_spec (r_end r) 0).
  - destruct (decide (i = n)); [done|]. destruct (Hlo i r); [lia|done..].
  - split; [|lia]. destruct (decide (i = n)) as [->|]; [|lia]. by destruct (Hhi n r ltac:(lia) Hr).
Qed.

Lemma filter_used_all rs : Forall used rs -> filter used rs = rs.
Proof using. induction 1 as [|r rs Hr Hrs IH]; [done|]. by rewrite filter_cons_True, IH. Qed.

Lemma packed_filter rs n : wf_ranges rs -> packed rs n ->
  exists u, rs = u ++ replicate (length rs - length u) (mk_range 0 0) /\ zlen u = n /\ u = filter used rs.
Proof using.
  intros Hw (Hn & Hlo & Hhi). exists (take (Z.to_nat n) rs).
  assert (Hz : length (take (Z.to_nat n) rs) = Z.to_nat n) by (rewrite length_take; unfold zlen in *; lia).
  assert (Hd : drop (Z.to_nat n) rs = replicate (length rs - Z.to_nat n) (mk_range 0 0)).
  { apply list_eq. intros k. destruct (decide (k < length rs - Z.to_nat n)%nat).
    - rewrite lookup_replicate_2 by done. rewrite lookup_drop.
      destruct (lookup_lt_is_Some_2 rs (Z.to_nat n + k)) as [r Hr]; [lia|]. rewrite Hr. f_equal.
      apply free_zero; [by eapply Forall_lookup_1 in Hw|].
      apply (Hhi (n + Z.of_nat k)); [lia|]. rewrite arr_get_nat by lia. rewrite <-Hr. f_equal. lia.
    - rewrite !lookup_ge_None_2; [done|rewrite length_replicate; lia|rewrite length_drop; lia]. }
  assert (Hu : filter used (take (Z.to_nat n) rs) = take (Z.to_nat n) rs).
  { apply filter_used_all, Forall_lookup. intros k r Hr. pose proof (lookup_lt_Some _ _ _ Hr).
    apply lookup_take_Some in Hr as [Hr _]. apply (Hlo (Z.of_nat k)); [lia|].
    by rewrite arr_get_nat, Nat2Z.id by lia. }
  split; [rewrite Hz, <-Hd; by rewrite take_drop|]. split; [unfold zlen; lia|].
  rewrite <-(take_drop (Z.to_nat n) rs) at 2. rewrite list.filter_app, Hu, Hd.
  replace (filter used (replicate _ _)) with ([] : list range); [by rewrite app_nil_r|].
  clear. induction (length rs - Z.to_nat n)%nat as [|k IH]; [done|]. cbn [replicate]. by rewrite filter_cons_False by (unfold used; cbn; lia).
Qed.
End Clean.

Lemma clean_sort_range_ok lo rs : 0 <= lo -> lo + 2 ^ 31 <= 2 ^ 63 -> wf_ranges rs -> Forall fits rs ->
  (forall r, r ∈ rs -> used r -> lo <= r_start r < lo + 2 ^ 31) -> zlen rs * 16 < 2 ^ 31 ->
  exists u, clean_sort_range rs (zlen rs) =
      Some (u ++ replicate (length rs - length u) (mk_range 0 0), zlen u) /\
    u ≡ₚ filter used rs /\ by_start u.
Proof.
  intros Hlo Hhi Hwf Hf Hw Hlen. unfold clean_sort_range.
  destruct (compact_ok rs Hwf) as (rs1 & n & -> & Hp & Hn). cbn [mbind option_bind].
  assert (Hz : zlen rs = zlen rs1) by (unfold zlen; by rewrite Hp). rewrite Hz.
  rewrite (count_ok rs1 n) by done. cbn [mbind option_bind].
  assert (Hwf1 : wf_ranges rs1) by by rewrite Hp.
  destruct (packed_filter rs1 n Hwf1 Hn) as (u & E & Hu & Hfil).
  set (rest := replicate (length rs1 - length u) (mk_range 0 0)) in *.
  assert (Hf1 : Forall fits rs1) by by rewrite Hp. rewrite E in Hf1. apply Forall_app in Hf1 as [Hfu Hfr].
  destruct (sort_entries lo u rest) as (u' & Hpu & Hby & Es & Ed); [done..| |done| |].
  - apply Forall_forall. intros r Hr. apply list_elem_of_In in Hr. split.
    + rewrite Forall_forall in Hfu. by apply Hfu, list_elem_of_In.
    + rewrite Hfil, list_elem_of_filter in Hr. destruct Hr as [Hur Hr]. apply Hw; [by rewrite <-Hp|done].
  - destruct Hn as [Hn _]. lia.
  - rewrite <-Hu, E, Es. cbn [mbind option_bind]. rewrite Ed. exists u'.
    assert (Hlu : length u' = length u) by by rewrite Hpu.
    split; [|split; [by rewrite Hpu, Hfil, Hp|done]]. unfold rest, zlen.
    replace (length rs1) with (length rs) by (unfold zlen in Hz; lia). by rewrite Hlu.
Qed.

(** ** The properties of the component *)

(** [add_range_with_merge] makes the array cover exactly the addresses it
    covered and those of the new range, when an entry meets the range or a
    slot is left, and leaves the covered addresses as they are otherwise. *)
Theorem add_range_with_merge_covers rs az nr start end_ :
  wf_ranges rs -> zlen rs = az -> 0 <= nr <= az -> 0 <= start ->
  (forall r, rs.[nr] = Some r -> r_end r = 0) ->
  exists rs' nr', add_range_with_merge rs az nr start end_ = Some (rs', nr') /\
    wf_ranges rs' /\ zlen rs' = az /\
    forall x, covers rs' x <-> covers rs x \/ (start <= x < end_ /\ (mergeable rs nr start end_ \/ nr < az)).
Proof. intros. by apply add_range_with_merge_ok. Qed.

Lemma add_range_with_merge_covers_witness :
  exists rs' nr', add_range_with_merge [mk_range 4 8; mk_range 0 0] 2 1 8 12 = Some (rs', nr') /\
    wf_ranges rs' /\ zlen rs' = 2 /\
    forall x, covers rs' x <-> covers [mk_range 4 8; mk_range 0 0] x \/
      (8 <= x < 12 /\ (mergeable [mk_range 4 8; mk_range 0 0] 1 8 12 \/ 1 < 2)).
Proof.
  apply (add_range_with_merge_covers [mk_range 4 8; mk_range 0 0] 2 1 8 12); [|done|lia|lia|].
  - repeat constructor; cbn; lia.
  - intros r [= <-]. done.
Defined.

(** [subtract_range] leaves no address of the subtracted range covered
    and adds none; and while there is a free slot for every entry it cuts in
    two, it drops no other address. *)
Theorem subtract_range_covers rs az start end_ :
  wf_ranges rs -> zlen rs = az -> 0 <= start ->
  exists rs', subtract_range rs az start end_ = Some rs' /\ wf_ranges rs' /\ zlen rs' = az /\
    (forall x, covers rs' x -> covers rs x /\ ~ start <= x < end_) /\
    ((count (is_split start end_) rs <= count is_free rs)%nat ->
     forall x, covers rs x -> ~ start <= x < end_ -> covers rs' x).
Proof.
  intros Hwf Haz Hs. destruct (decide (start < end_)) as [Hse|Hse].
  - destruct (subtract_range_ok az start end_ Hs Hse rs Hwf Haz) as (rs' & E & (Hw & Hsub & Hroom) & Hl & Hc).
    exists rs'. do 3 (split; [done|]). split; [auto|]. intros H. by apply Hroom.
  - exists rs. unfold subtract_range. rewrite (proj2 (Z.leb_le end_ start)) by lia.
    do 3 (split; [done|]). split; [|auto]. intros x Hx. split; [done|lia].
Qed.

Lemma subtract_range_covers_witness :
  exists rs', subtract_range [mk_range 2 9; mk_range 0 0] 2 4 6 = Some rs' /\ wf_ranges rs' /\ zlen rs' = 2 /\
    (forall x, covers rs' x -> covers [mk_range 2 9; mk_range 0 0] x /\ ~ 4 <= x < 6) /\
    ((count (is_split 4 6) [mk_range 2 9; mk_range 0 0] <= count is_free [mk_range 2 9; mk_range 0 0])%nat ->
     forall x, covers [mk_range 2 9; mk_range 0 0] x -> ~ 4 <= x < 6 -> covers rs' x).
Proof.
  apply (subtract_range_covers [mk_range 2 9; mk_range 0 0] 2 4 6); [|done|lia].
  repeat constructor; cbn; lia.
Defined.

(** [clean_sort_range] returns the number of used entries and an array
    that holds exactly those, ascending by their starts, and free slots after
    them, for starts within 2 GiB of each other. *)
Theorem clean_sort_range_sorts lo rs :
  0 <= lo -> lo + 2 ^ 31 <= 2 ^ 63 -> wf_ranges rs -> Forall fits rs ->
  (forall r, r ∈ rs -> used r -> lo <= r_start r < lo + 2 ^ 31) -> zlen rs * 16 < 2 ^ 31 ->
  exists u, clean_sort_range rs (zlen rs) =
      Some (u ++ replicate (length rs - length u) (mk_range 0 0), zlen u) /\
    u ≡ₚ filter used rs /\ by_start u.
Proof. apply clean_sort_range_ok. Qed.

Lemma clean_sort_range_sorts_witness :
  let rs := [mk_range 0 0; mk_range 8 9; mk_range 2 5] in
  exists u, clean_sort_range rs (zlen rs) = Some (u ++ replicate (length rs - length u) (mk_range 0 0), zlen u) /\
    u ≡ₚ filter used rs /\ by_start u.
Proof.
  intros rs. apply (clean_sort_range_sorts 0 rs); [lia|lia| | | |].
  - repeat constructor; cbn; lia.
  - repeat constructor; cbn; lia.
  - intros r Hr _. unfold rs in Hr. rewrite !elem_of_cons in Hr.
    destruct Hr as [->|[->|[->|[]%not_elem_of_nil]]]; cbn; lia.
  - unfold rs, zlen. cbn. lia.
Defined.

(** Beyond the window the comparison is not an order: starts 4 GiB apart
    compare equal, and a pair that was ascending comes back descending. *)
Example cmp_range_truncates :
  sort_range [mk_range 0 1; mk_range (2 ^ 32) (2 ^ 32 + 1)] 2 =
    Some [mk_range (2 ^ 32) (2 ^ 32 + 1); mk_range 0 1].
Proof. vm_compute. reflexivity. Qed.
