(* ===== verification/Memblock.v ===== *)
(** mm/memblock.c: the boot-time memory map, two sorted arrays of regions
    ([memory] and [reserved]).  What an array means is the set of addresses
    it covers.  The definitions follow the source function by function,
    including the growth of a full array ([memblock_double_array]), which
    calls back into [memblock_add_region] and [memblock_free]: the callers
    take it as an argument, and the knot is tied with a depth.

    The theorems say that adding, reserving, removing and freeing keep the
    arrays sorted, disjoint and coalesced and change the covered set by
    exactly the given region; that the binary search answers membership in
    that set; and that an allocation is aligned, lies in memory below the
    limit, avoided everything reserved, and is reserved afterwards.
    [phys_addr_t] is 32 bits wide, as on ARM without large physical
    addresses. *)
From Stdlib Require Import Sorting.Sorted.
From S2P Require Import Prelude.

(** ** include/linux/memblock.h *)

Record memblock_region : Type := mk_region { base : Z; size : Z }.

(** Where an array of regions is: the static one, or at a physical address. *)
Inductive storage : Type := init_regions | allocated (pa : Z).

Record memblock_type : Type := mk_type {
  cnt : Z;
  max : Z;
  regions : list memblock_region;
  place : storage
}.

Record memblock : Type := mk_memblock {
  current_limit : Z;
  memory_size : Z;
  memory : memblock_type;
  reserved : memblock_type;
  can_resize : bool  (* the global memblock_can_resize *)
}.

Definition INIT_MEMBLOCK_REGIONS : Z := 128.
Definition MEMBLOCK_ERROR : Z := 0.
Definition MEMBLOCK_ALLOC_ANYWHERE : Z := 2 ^ 32 - 1.
Definition MEMBLOCK_ALLOC_ACCESSIBLE : Z := 0.
Definition MEMBLOCK_INACTIVE : Z := 0x44c9e71b.
Definition region_bytes : Z := 8.

(** [&memblock.memory] or [&memblock.reserved] *)
Inductive kind : Type := Memory | Reserved.

Definition get_type (mb : memblock) (k : kind) : memblock_type :=
  match k with Memory => memory mb | Reserved => reserved mb end.

Definition set_type (mb : memblock) (k : kind) (t : memblock_type) : memblock :=
  match k with
  | Memory => mk_memblock (current_limit mb) (memory_size mb) t (reserved mb) (can_resize mb)
  | Reserved => mk_memblock (current_limit mb) (memory_size mb) (memory mb) t (can_resize mb)
  end.

Definition set_regions (t : memblock_type) (rs : list memblock_region) : memblock_type :=
  mk_type (cnt t) (max t) rs (place t).
Definition set_cnt (t : memblock_type) (n : Z) : memblock_type :=
  mk_type n (max t) (regions t) (place t).

(** ** Address comparison *)

Definition memblock_align_down (addr size : Z) : Z := Z.land addr (u32 (Z.lnot (u32 (size - 1)))).

Definition memblock_align_up (addr size : Z) : Z :=
  Z.land (u32 (addr + u32 (size - 1))) (u32 (Z.lnot (u32 (size - 1)))).

Definition memblock_addrs_overlap (base1 size1 base2 size2 : Z) : bool :=
  (base1 <? u32 (base2 + size2)) && (base2 <? u32 (base1 + size1)).

Definition overlaps_body (t : memblock_type) (b s : Z) : Z -> option (step Z Z) :=
  fun i =>
    if i <? cnt t then
      r ← (regions t).[i];
      Some (if memblock_addrs_overlap b s (base r) (size r) then Done i else Next (i + 1))
    else Some (Done i).

Definition memblock_overlaps_region (t : memblock_type) (b s : Z) : option Z :=
  i ← loop (overlaps_body t b s) (cnt t + 1) 0;
  Some (if i <? cnt t then i else -1).

(** ** Finding unreserved regions, top-down *)

Definition find_region_body (mb : memblock) (start size align : Z) : Z -> option (step Z Z) :=
  fun b =>
    if start <=? b then
      j ← memblock_overlaps_region (reserved mb) b size;
      if j <? 0 then Some (Done b)
      else
        r ← (regions (reserved mb)).[j];
        let res_base := base r in
        if res_base <? size then Some (Done MEMBLOCK_ERROR)
        else Some (Next (memblock_align_down (u32 (res_base - size)) align))
    else Some (Done MEMBLOCK_ERROR).

Definition memblock_find_region (mb : memblock) (start end_ size align : Z) : option Z :=
  if end_ <? size then Some MEMBLOCK_ERROR
  else
    let b := memblock_align_down (u32 (end_ - size)) align in
    let start := if start =? 0 then PAGE_SIZE else start in
    loop (find_region_body mb start size align) (2 ^ 32 + 1) b.

Definition find_base_body (mb : memblock) (s align start end_ : Z) : Z -> option (step Z Z) :=
  fun i =>
    if 0 <=? i then
      r ← (regions (memory mb)).[i];
      let memblockbase := base r in
      let memblocksize := size r in
      if memblocksize <? s then Some (Next (i - 1))
      else if u32 (memblockbase + memblocksize) <=? start then Some (Done MEMBLOCK_ERROR)
      else
        let bottom := Z.max memblockbase start in
        let top := Z.min (u32 (memblockbase + memblocksize)) end_ in
        if top <=? bottom then Some (Next (i - 1))
        else
          found ← memblock_find_region mb bottom top s align;
          Some (if negb (found =? MEMBLOCK_ERROR) then Done found else Next (i - 1))
    else Some (Done MEMBLOCK_ERROR).

(** [BUG_ON(0 == size)] stops the machine: no result. *)
Definition memblock_find_base (mb : memblock) (size align start end_ : Z) : option Z :=
  if size =? 0 then None
  else
    let end_ := if end_ =? MEMBLOCK_ALLOC_ACCESSIBLE then current_limit mb else end_ in
    loop (find_base_body mb size align start end_) (cnt (memory mb) + 1) (cnt (memory mb) - 1).

Definition memblock_find_in_range (mb : memblock) (start end_ size align : Z) : option Z :=
  memblock_find_base mb (u32 size) (u32 align) (u32 start) (u32 end_).

(** ** Removing an entry of an array *)

Definition remove_region_body (n : Z) : list memblock_region * Z -> option (step (list memblock_region * Z) (list memblock_region)) :=
  fun '(rs, i) =>
    if i <? n - 1 then
      r ← rs.[i + 1];
      rs ← rs.[i <- r];
      Some (Next (rs, i + 1))
    else Some (Done rs).

Definition memblock_remove_region (t : memblock_type) (r : Z) : option memblock_type :=
  rs ← loop (remove_region_body (cnt t)) (cnt t + 1) (regions t, r);
  let t := set_cnt (set_regions t rs) (cnt t - 1) in
  if cnt t =? 0 then
    rs ← (regions t).[0 <- mk_region 0 0];
    Some (set_cnt (set_regions t rs) 1)
  else Some t.

(** The weak default; no code of the ARM tree overrides it. *)
Definition memblock_memory_can_coalesce (addr1 size1 addr2 size2 : Z) : Z := 1.

(** ** Adding a region *)

(** How the coalescing loop is left: the region is in the array already, it
    has to become a block of its own, or the scan came to its end. *)
Inductive coalesced : Type :=
| Enclosed (t : memblock_type)
| NewBlock (t : memblock_type) (b s : Z)
| Scanned (t : memblock_type) (b s : Z).

Definition add_state : Type := memblock_type * Z * Z * Z.

(** The second half of the loop body: [base <= rend && end >= rend]. *)
Definition coalesce_top (t : memblock_type) (i : Z) (rgn : memblock_region) (rend b s end_ : Z) : option (step add_state coalesced) :=
  if (b <=? rend) && (rend <=? end_) then
    if memblock_memory_can_coalesce (base rgn) (size rgn) b s =? 0 then Some (Done (NewBlock t b s))
    else
      let s := u32 (s + u32 (b - base rgn)) in
      let b := base rgn in
      t ← memblock_remove_region t i;
      Some (Next (t, i, b, s))
  else Some (Next (t, i + 1, b, s)).

Definition coalesce_body (end_ : Z) : add_state -> option (step add_state coalesced) :=
  fun '(t, i, b, s) =>
    if i <? cnt t then
      rgn ← (regions t).[i];
      let rend := u32 (base rgn + size rgn) in
      if (end_ <? base rgn) || (size rgn =? 0) then Some (Done (Scanned t b s))
      else if (base rgn <=? b) && (end_ <=? rend) then Some (Done (Enclosed t))
      else if (b <? base rgn) && (base rgn <=? end_) then
        if memblock_memory_can_coalesce b s (base rgn) (size rgn) =? 0 then Some (Done (NewBlock t b s))
        else
          let rgn := mk_region b (u32 (rend - b)) in
          rs ← (regions t).[i <- rgn];
          let t := set_regions t rs in
          if end_ <=? rend then Some (Done (Enclosed t))
          else coalesce_top t i rgn rend rend (u32 (end_ - rend)) end_
      else coalesce_top t i rgn rend b s end_
    else Some (Done (Scanned t b s)).

(** [for (i = type->cnt - 1; i >= 0; i--)]: the array and the slot. *)
Definition insert_body (b s : Z) : list memblock_region * Z -> option (step (list memblock_region * Z) (list memblock_region * Z)) :=
  fun '(rs, i) =>
    if 0 <=? i then
      r ← rs.[i];
      if b <? base r then
        rs ← rs.[i + 1 <- r];
        Some (Next (rs, i - 1))
      else
        rs ← rs.[i + 1 <- mk_region b s];
        Some (Done (rs, i + 1))
    else Some (Done (rs, -1)).

Definition insert_region (rs : list memblock_region) (n b s : Z) : option (list memblock_region * Z) :=
  '(rs, slot) ← loop (insert_body b s) (n + 1) (rs, n - 1);
  r0 ← rs.[0];
  if b <? base r0 then
    rs ← rs.[0 <- mk_region b s];
    Some (rs, 0)
  else Some (rs, slot).

Section Resizable.
(** [memblock_double_array] *)
Context (double_array : memblock -> kind -> option (memblock * Z)).

(** The label [new_block]. *)
Definition add_new_block (mb : memblock) (k : kind) (b s : Z) : option (memblock * Z) :=
  let t := get_type mb k in
  if max t <=? cnt t then Some (mb, -1)
  else
    '(rs, slot) ← insert_region (regions t) (cnt t) b s;
    let t := set_cnt (set_regions t rs) (cnt t + 1) in
    let mb := set_type mb k t in
    if cnt t =? max t then
      '(mb, err) ← double_array mb k;
      if negb (err =? 0) then
        if slot <? 0 then None
        else
          t ← memblock_remove_region (get_type mb k) slot;
          Some (set_type mb k t, -1)
      else Some (mb, 0)
    else Some (mb, 0).

Definition add_region (mb : memblock) (k : kind) (b s : Z) : option (memblock * Z) :=
  let end_ := u32 (b + s) in
  let t := get_type mb k in
  r ← loop (coalesce_body end_) (cnt t + 1) (t, 0, b, s);
  match r with
  | Enclosed t => Some (set_type mb k t, 0)
  | NewBlock t b s => add_new_block (set_type mb k t) k b s
  | Scanned t b s =>
      r0 ← (regions t).[0];
      if (cnt t =? 1) && (size r0 =? 0) then
        rs ← (regions t).[0 <- mk_region b s];
        Some (set_type mb k (set_regions t rs), 0)
      else add_new_block (set_type mb k t) k b s
  end.

(** ** Removing a region *)

(** [base > rgn->base && end < rend]: the block is split. *)
Definition remove_split (mb : memblock) (k : kind) (i b end_ : Z) (rgn : memblock_region) (rend : Z) : option (memblock * Z) :=
  let t := get_type mb k in
  rs ← (regions t).[i <- mk_region (base rgn) (u32 (b - base rgn))];
  '(mb, err) ← add_region (set_type mb k (set_regions t rs)) k end_ (u32 (rend - end_));
  if err =? 0 then Some (mb, 0)
  else
    let t := get_type mb k in
    rgn ← (regions t).[i];
    rs ← (regions t).[i <- mk_region (base rgn) (u32 (rend - base rgn))];
    Some (set_type mb k (set_regions t rs), -1).

Definition remove_body (k : kind) (b end_ : Z) : memblock * Z -> option (step (memblock * Z) (memblock * Z)) :=
  fun '(mb, i) =>
    let t := get_type mb k in
    if i <? cnt t then
      rgn ← (regions t).[i];
      let rend := u32 (base rgn + size rgn) in
      if (end_ <? base rgn) || (size rgn =? 0) then Some (Done (mb, 0))
      else if (b <=? base rgn) && (rend <=? end_) then
        t ← memblock_remove_region t i;
        Some (Next (set_type mb k t, i))
      else if (base rgn <? b) && (end_ <? rend) then
        r ← remove_split mb k i b end_ rgn rend;
        Some (Done r)
      else if (base rgn <? end_) && (end_ <? rend) then
        rs ← (regions t).[i <- mk_region end_ (u32 (size rgn - u32 (end_ - base rgn)))];
        Some (Done (set_type mb k (set_regions t rs), 0))
      else if b <? rend then
        rs ← (regions t).[i <- mk_region (base rgn) (u32 (size rgn - u32 (rend - b)))];
        Some (Next (set_type mb k (set_regions t rs), i + 1))
      else Some (Next (mb, i + 1))
    else Some (Done (mb, 0)).

Definition remove_region (mb : memblock) (k : kind) (b s : Z) : option (memblock * Z) :=
  let end_ := u32 (b + s) in
  loop (remove_body k b end_) (cnt (get_type mb k) + 2) (mb, 0).
End Resizable.

(** ** Growing an array

    [slab_is_available()] and the physical address [kmalloc] returns belong
    to the slab allocator: arguments. *)

Section Memblock.
Context (slab_is_available : bool) (kmalloc : Z -> option Z).

Definition double_array_step (double_array : memblock -> kind -> option (memblock * Z)) (mb : memblock) (k : kind) : option (memblock * Z) :=
  if negb (can_resize mb) then Some (mb, -1)
  else
    let t := get_type mb k in
    let old_size := u32 (max t * region_bytes) in
    let new_size := u32 (Z.shiftl old_size 1) in
    addr ← (if slab_is_available
            then Some (match kmalloc new_size with Some pa => pa | None => MEMBLOCK_ERROR end)
            else memblock_find_base mb new_size 4 0 MEMBLOCK_ALLOC_ACCESSIBLE);
    if addr =? MEMBLOCK_ERROR then Some (mb, -1)
    else
      let rs := take (Z.to_nat (max t)) (regions t) ++ replicate (Z.to_nat (max t)) (mk_region 0 0) in
      let old_array := place t in
      let mb := set_type mb k (mk_type (cnt t) (u32 (Z.shiftl (max t) 1)) rs (allocated addr)) in
      if slab_is_available then Some (mb, 0)
      else
        '(mb, err) ← add_region double_array mb Reserved addr new_size;
        if negb (err =? 0) then None
        else
          match old_array with
          | init_regions => Some (mb, 0)
          | allocated pa =>
              '(mb, _) ← remove_region double_array mb Reserved pa old_size;
              Some (mb, 0)
          end.

(** The arrays double at most a few times within one call: growing [memory]
    may grow [reserved], and each of the two then has room. *)
Fixpoint memblock_double_array (depth : nat) (mb : memblock) (k : kind) : option (memblock * Z) :=
  match depth with
  | O => None
  | S depth => double_array_step (memblock_double_array depth) mb k
  end.

Definition resize_depth : nat := 8.

Definition memblock_add_region : memblock -> kind -> Z -> Z -> option (memblock * Z) :=
  add_region (memblock_double_array resize_depth).
Definition __memblock_remove : memblock -> kind -> Z -> Z -> option (memblock * Z) :=
  remove_region (memblock_double_array resize_depth).

Definition memblock_add (mb : memblock) (b s : Z) : option (memblock * Z) :=
  memblock_add_region mb Memory b s.
Definition memblock_remove (mb : memblock) (b s : Z) : option (memblock * Z) :=
  __memblock_remove mb Memory b s.
Definition memblock_free (mb : memblock) (b s : Z) : option (memblock * Z) :=
  __memblock_remove mb Reserved b s.
Definition memblock_reserve (mb : memblock) (b s : Z) : option (memblock * Z) :=
  if s =? 0 then None else memblock_add_region mb Reserved b s.

(** ** Allocating *)

Definition __memblock_alloc_base (mb : memblock) (s align max_addr : Z) : option (memblock * Z) :=
  let s := memblock_align_up s align in
  found ← memblock_find_base mb s align 0 max_addr;
  if negb (found =? MEMBLOCK_ERROR) then
    '(mb, err) ← memblock_add_region mb Reserved found s;
    Some (if err =? 0 then (mb, found) else (mb, 0))
  else Some (mb, 0).

(** [panic] stops the machine: no result. *)
Definition memblock_alloc_base (mb : memblock) (s align max_addr : Z) : option (memblock * Z) :=
  '(mb, alloc) ← __memblock_alloc_base mb s align max_addr;
  if alloc =? 0 then None else Some (mb, alloc).

Definition memblock_alloc (mb : memblock) (s align : Z) : option (memblock * Z) :=
  memblock_alloc_base mb s align MEMBLOCK_ALLOC_ACCESSIBLE.

Definition memblock_free_reserved_regions (mb : memblock) : option (memblock * Z) :=
  match place (reserved mb) with
  | init_regions => Some (mb, 0)
  | allocated pa => memblock_free mb pa (u32 (region_bytes * max (reserved mb)))
  end.

Definition memblock_reserve_reserved_regions (mb : memblock) : option (memblock * Z) :=
  match place (reserved mb) with
  | init_regions => Some (mb, 0)
  | allocated pa => memblock_reserve mb pa (u32 (region_bytes * max (reserved mb)))
  end.

(** Without [CONFIG_ARCH_POPULATES_NODE_MAP]: the end and the node. *)
Definition memblock_nid_range (start end_ : Z) : Z * Z := (end_, 0).

Definition alloc_nid_region_body (s align nid end_ : Z) : memblock * Z -> option (step (memblock * Z) (memblock * Z)) :=
  fun '(mb, start) =>
    if start <? end_ then
      let '(this_end, this_nid) := memblock_nid_range start end_ in
      if this_nid =? nid then
        ret ← memblock_find_region mb start this_end s align;
        if negb (ret =? MEMBLOCK_ERROR) then
          '(mb, err) ← memblock_add_region mb Reserved ret s;
          Some (if err =? 0 then Done (mb, ret) else Next (mb, this_end))
        else Some (Next (mb, this_end))
      else Some (Next (mb, this_end))
    else Some (Done (mb, MEMBLOCK_ERROR)).

Definition memblock_alloc_nid_region (mb : memblock) (mp : memblock_region) (s align nid : Z) : option (memblock * Z) :=
  let start := base mp in
  let end_ := u32 (start + size mp) in
  let start := memblock_align_up start align in
  loop (alloc_nid_region_body s align nid end_) (2 ^ 32 + 1) (mb, start).

Definition alloc_nid_body (s align nid : Z) : memblock * Z -> option (step (memblock * Z) (memblock * Z)) :=
  fun '(mb, i) =>
    if i <? cnt (memory mb) then
      r ← (regions (memory mb)).[i];
      '(mb, ret) ← memblock_alloc_nid_region mb r s align nid;
      Some (if negb (ret =? MEMBLOCK_ERROR) then Done (mb, ret) else Next (mb, i + 1))
    else Some (Done (mb, 0)).

Definition memblock_alloc_nid (mb : memblock) (s align nid : Z) : option (memblock * Z) :=
  if s =? 0 then None
  else
    let s := memblock_align_up s align in
    loop (alloc_nid_body s align nid) (cnt (memory mb) + 1) (mb, 0).

Definition memblock_alloc_try_nid (mb : memblock) (s align nid : Z) : option (memblock * Z) :=
  '(mb, res) ← memblock_alloc_nid mb s align nid;
  if truth res then Some (mb, res) else memblock_alloc_base mb s align MEMBLOCK_ALLOC_ANYWHERE.
End Memblock.

(** ** The remaining functions *)

Definition memblock_phys_mem_size (mb : memblock) : Z := memory_size mb.

Definition memblock_end_of_DRAM (mb : memblock) : option Z :=
  let idx := cnt (memory mb) - 1 in
  r ← (regions (memory mb)).[idx];
  Some (u32 (base r + size r)).

(** Truncates the memory regions: the array and its count. *)
Definition limit_memory_body (n : Z) : list memblock_region * Z * Z -> option (step (list memblock_region * Z * Z) (list memblock_region * Z)) :=
  fun '(rs, i, limit) =>
    if i <? n then
      r ← rs.[i];
      if size r <? limit then Some (Next (rs, i + 1, limit - size r))
      else
        rs ← rs.[i <- mk_region (base r) limit];
        Some (Done (rs, i + 1))
    else Some (Done (rs, n)).

Definition limit_reserved_body (memory_limit : Z) : memblock_type * Z -> option (step (memblock_type * Z) memblock_type) :=
  fun '(t, i) =>
    if i <? cnt t then
      p ← (regions t).[i];
      let p := if memory_limit <? base p then mk_region (base p) 0
               else if memory_limit <? u32 (base p + size p) then mk_region (base p) (memory_limit - base p)
               else p in
      rs ← (regions t).[i <- p];
      let t := set_regions t rs in
      if size p =? 0 then
        t ← memblock_remove_region t i;
        Some (Next (t, i))
      else Some (Next (t, i + 1))
    else Some (Done t).

Definition memblock_enforce_memory_limit (mb : memblock) (memory_limit : Z) : option memblock :=
  if memory_limit =? 0 then Some mb
  else
    let t := memory mb in
    '(rs, n) ← loop (limit_memory_body (cnt t)) (cnt t + 1) (regions t, 0, memory_limit);
    let mb := set_type mb Memory (set_cnt (set_regions t rs) n) in
    memory_limit ← memblock_end_of_DRAM mb;
    t ← loop (limit_reserved_body memory_limit) (cnt (reserved mb) + 1) (reserved mb, 0);
    Some (set_type mb Reserved t).

Definition search_body (t : memblock_type) (addr : Z) : Z * Z -> option (step (Z * Z) Z) :=
  fun '(l, r) =>
    let mid := u32 (r + l) / 2 in
    rgn ← (regions t).[mid];
    let continue (l r : Z) := if l <? r then Next (l, r) else Done (-1) in
    Some (if addr <? base rgn then continue l mid
          else if u32 (base rgn + size rgn) <=? addr then continue (mid + 1) r
          else Done mid).

Definition memblock_search (t : memblock_type) (addr : Z) : option Z :=
  loop (search_body t addr) (cnt t + 1) (0, cnt t).

Definition memblock_is_reserved (mb : memblock) (addr : Z) : option bool :=
  i ← memblock_search (reserved mb) addr;
  Some (negb (i =? -1)).

Definition memblock_is_memory (mb : memblock) (addr : Z) : option bool :=
  i ← memblock_search (memory mb) addr;
  Some (negb (i =? -1)).

Definition memblock_is_region_memory (mb : memblock) (b s : Z) : option bool :=
  idx ← memblock_search (memory mb) b;
  if idx =? -1 then Some false
  else
    r ← (regions (memory mb)).[idx];
    Some ((base r <=? b) && (u32 (b + s) <=? u32 (base r + size r))).

Definition memblock_is_region_reserved (mb : memblock) (b s : Z) : option bool :=
  j ← memblock_overlaps_region (reserved mb) b s;
  Some (0 <=? j).

Definition memblock_set_current_limit (mb : memblock) (limit : Z) : memblock :=
  mk_memblock limit (memory_size mb) (memory mb) (reserved mb) (can_resize mb).

Definition analyze_body (t : memblock_type) : Z * Z -> option (step (Z * Z) Z) :=
  fun '(sum, i) =>
    if i <? cnt t then
      r ← (regions t).[i];
      Some (Next (u32 (sum + size r), i + 1))
    else Some (Done sum).

Definition memblock_analyze (mb : memblock) : option memblock :=
  sum ← loop (analyze_body (memory mb)) (cnt (memory mb) + 1) (0, 0);
  Some (mk_memblock (current_limit mb) sum (memory mb) (reserved mb) true).

(** The static arrays: [INIT_MEMBLOCK_REGIONS] entries and a marker. *)
Definition init_type : memblock_type :=
  mk_type 1 INIT_MEMBLOCK_REGIONS
    (replicate (Z.to_nat INIT_MEMBLOCK_REGIONS) (mk_region 0 0) ++ [mk_region MEMBLOCK_INACTIVE 0]) init_regions.

(** The first call; [init_done] makes the others do nothing. *)
Definition memblock_init (mb : memblock) : memblock :=
  mk_memblock MEMBLOCK_ALLOC_ANYWHERE (memory_size mb) init_type init_type (can_resize mb).

(** ** What an array means *)

Definition live (t : memblock_type) : list memblock_region := take (Z.to_nat (cnt t)) (regions t).

Definition in_region (r : memblock_region) (x : Z) : Prop := base r <= x < base r + size r.
Definition covers (rs : list memblock_region) (x : Z) : Prop := exists r, r ∈ rs /\ in_region r x.
Definition type_covers (t : memblock_type) (x : Z) : Prop := covers (live t) x.

(** Apart from the filler of an empty array, a region is not empty and does
    not reach the end of the address space. *)
Definition wf_region (r : memblock_region) : Prop := 0 <= base r /\ 0 < size r /\ base r + size r < 2 ^ 32.

(** The first region ends below the second: neither overlapping nor
    adjacent. *)
Definition before (r s : memblock_region) : Prop := base r + size r < base s.

Definition sorted (rs : list memblock_region) : Prop := StronglySorted before rs.

Definition empty_array : list memblock_region := [mk_region 0 0].

Definition wf_type (t : memblock_type) : Prop :=
  1 <= cnt t < max t /\ max t <= zlen (regions t) /\ max t < 2 ^ 28 /\
  (live t = empty_array \/ (Forall wf_region (live t) /\ sorted (live t))).

(** ** Proofs: arrays and the lists of their live entries *)

(** [t] is an array of [mx] slots whose live entries are [L]. *)
Definition arr_ok (t : memblock_type) (mx : Z) (L : list memblock_region) : Prop :=
  live t = L /\ cnt t = zlen L /\ 1 <= cnt t <= mx /\ max t = mx /\ mx <= zlen (regions t).

Lemma arr_ok_get t mx L i : arr_ok t mx L -> 0 <= i < zlen L -> (regions t).[i] = L.[i].
Proof.
  intros (<- & Hc & Hr & _ & _) Hi. rewrite !arr_get_nat by lia. unfold live.
  rewrite lookup_take_lt by lia. done.
Qed.

Lemma arr_ok_update t mx L i r0 r : arr_ok t mx L -> L.[i] = Some r0 ->
  exists rs, (regions t).[i <- r] = Some rs /\ arr_ok (set_regions t rs) mx (<[Z.to_nat i := r]> L).
Proof.
  intros (<- & Hc & Hr & Hm & Hl) Hi. apply arr_get_range in Hi as Hi'.
  rewrite arr_set_Some by lia. eexists. split; [done|]. unfold arr_ok, live. cbn [regions cnt max set_regions].
  rewrite take_insert_lt by lia. rewrite !zlen_insert. done.
Qed.

(** The shifting loop: entries from [r] on move down by one. *)
Lemma remove_loop_ok rs n r : 0 <= r < n -> n <= zlen rs ->
  exists rs', loop (remove_region_body n) (n + 1) (rs, r) = Some rs' /\ zlen rs' = zlen rs /\
    forall k, 0 <= k < n - 1 -> rs'.[k] = if decide (k < r) then rs.[k] else rs.[k + 1].
Proof.
  intros Hr Hn. apply loop_total with (m := fun '(_, i) => n - i)
    (I := fun '(rs', i) => r <= i < n /\ zlen rs' = zlen rs /\
       forall k, 0 <= k -> rs'.[k] = if decide (k < r \/ i <= k) then rs.[k] else rs.[k + 1]); [| |lia].
  - intros [rs' i] (Hi & Hl & Hk). split; [lia|]. unfold remove_region_body. destruct (Z.ltb_spec i (n - 1)).
    + destruct (arr_get_is_Some rs' (i + 1)) as [x Hx]; [lia|]. rewrite Hx. cbn [mbind option_bind].
      rewrite arr_set_Some by lia. cbn [mbind option_bind]. split; [|lia]. split; [lia|].
      split; [by rewrite zlen_insert|]. intros k Hk0. rewrite arr_get_insert by lia. rewrite Hk in Hx by lia.
      rewrite decide_True in Hx by lia. case_decide as Hik.
      * subst k. rewrite decide_False by lia. done.
      * rewrite Hk by lia. repeat case_decide; done || lia.
    + split; [done|]. intros k Hk'. rewrite Hk by lia. repeat case_decide; done || lia.
  - split; [lia|]. split; [done|]. intros k Hk. by rewrite decide_True by lia.
Qed.

Lemma delete_get {A} (l : list A) i k : 0 <= i -> 0 <= k ->
  (delete (Z.to_nat i) l).[k] = if decide (k < i) then l.[k] else l.[k + 1].
Proof.
  intros Hi Hk. rewrite !arr_get_nat by lia. case_decide.
  - by rewrite list_lookup_delete_lt by lia.
  - rewrite list_lookup_delete_ge by lia. f_equal. lia.
Qed.

Definition fill (L : list memblock_region) : list memblock_region :=
  match L with [] => empty_array | _ => L end.

Lemma fill_cons r L : fill (r :: L) = r :: L.
Proof. done. Qed.

Lemma arr_ok_remove t mx L i : arr_ok t mx L -> 0 <= i < zlen L ->
  exists t', memblock_remove_region t i = Some t' /\ arr_ok t' mx (fill (delete (Z.to_nat i) L)).
Proof.
  intros (HL & Hc & Hr & Hm & Hl) Hi. unfold memblock_remove_region.
  destruct (remove_loop_ok (regions t) (cnt t) i) as (rs' & -> & Hl' & Hk); [lia..|].
  cbn [mbind option_bind set_cnt set_regions cnt max regions place].
  assert (Hd : zlen (delete (Z.to_nat i) L) = zlen L - 1).
  { unfold zlen in *. rewrite length_delete; [lia|]. apply lookup_lt_is_Some. lia. }
  assert (HLk : forall k, 0 <= k < cnt t - 1 -> rs'.[k] = (delete (Z.to_nat i) L).[k]).
  { intros k Hk'. rewrite Hk, delete_get by lia. rewrite <-!(arr_ok_get t mx L) by (repeat split; done || lia). done. }
  assert (Hlive : take (Z.to_nat (cnt t - 1)) rs' = delete (Z.to_nat i) L).
  { apply arr_ext.
    - rewrite Hd. unfold zlen. rewrite length_take. unfold zlen in *. lia.
    - intros k Hk'. rewrite <-HLk.
      + rewrite !arr_get_nat by lia. apply lookup_take_lt. unfold zlen in Hk'. rewrite length_take in Hk'. lia.
      + unfold zlen in Hk'. rewrite length_take in Hk'. lia. }
  destruct (Z.eqb_spec (cnt t - 1) 0) as [E|E].
  - rewrite arr_set_Some by lia. cbn [mbind option_bind]. eexists. split; [done|].
    destruct (delete (Z.to_nat i) L) eqn:ED; [|rewrite zlen_cons in Hd; pose proof (zlen_nonneg l); lia].
    unfold arr_ok, live, fill. cbn. rewrite zlen_insert. destruct rs' as [|r0 rs']; [change (zlen []) with 0 in Hl'; lia|].
    repeat split; try done; lia.
  - eexists. split; [done|]. destruct (delete (Z.to_nat i) L) as [|r0 L'] eqn:ED.
    { change (zlen []) with 0 in Hd. lia. }
    rewrite fill_cons. unfold arr_ok, live. cbn [cnt max regions set_cnt set_regions]. rewrite Hlive. repeat split; try done; lia.
Qed.

(** The insertion: [A] stays, [B] moves up by one. *)
Section Insert.
Context (t : memblock_type) (mx : Z) (A B : list memblock_region) (b s : Z).
Context (Ht : arr_ok t mx (A ++ B)) (Hroom : zlen (A ++ B) < mx).
Context (HA : Forall (fun a => base a <= b) A) (HB : Forall (fun c => b < base c) B).

Definition shifted (rs : list memblock_region) (i : Z) : Prop :=
  zlen rs = zlen (regions t) /\
  forall k, 0 <= k <= cnt t -> rs.[k] = (regions t).[if decide (k <= i + 1) then k else k - 1].

Definition insert_post : list memblock_region * Z -> Prop := fun '(rs, slot) =>
  (A = [] /\ slot = -1 /\ shifted rs (-1)) \/
  (A <> [] /\ slot = zlen A /\ exists rs', shifted rs' (zlen A - 1) /\ rs = <[Z.to_nat (zlen A) := mk_region b s]> rs').

Lemma insert_loop_ok :
  exists r, loop (insert_body b s) (cnt t + 1) (regions t, cnt t - 1) = Some r /\ insert_post r.
Proof using All.
  pose proof Ht as (HL & Hc & Hr & Hm & Hl). rewrite zlen_app in *.
  pose proof (zlen_nonneg A). pose proof (zlen_nonneg B).
  apply loop_total with (m := fun '(_, i) => i + 1)
    (I := fun '(rs, i) => zlen A - 1 <= i < cnt t /\ shifted rs i); [| |lia].
  - intros [rs i] (Hi & Hz & Hk). split; [lia|]. unfold insert_body. destruct (Z.leb_spec 0 i).
    2:{ left. assert (zlen A = 0) as E by lia. rewrite E in *. split; [by apply zlen_nil_inv; lia|]. split; [done|].
        replace (-1) with i by lia. by split. }
    assert (Hget : forall j, 0 <= j < cnt t -> (regions t).[j] = (A ++ B).[j]).
    { intros j Hj. apply (arr_ok_get t mx); [done|]. rewrite zlen_app. lia. }
    destruct (arr_get_is_Some (A ++ B) i) as [r Hri]; [rewrite zlen_app; lia|].
    rewrite Hk, decide_True, Hget, Hri by lia. cbn [mbind option_bind].
    destruct (Z.ltb_spec b (base r)) as [Hb|Hb].
    + assert (zlen A <= i).
      { destruct (Z.ltb_spec i (zlen A)); [|lia]. rewrite arr_get_app_l in Hri by lia.
        apply arr_get_Some in Hri as [_ Hri]. pose proof (Forall_lookup_1 _ _ _ _ HA Hri). cbv beta in *. lia. }
      rewrite arr_set_Some by lia. cbn [mbind option_bind]. split; [|lia]. split; [lia|].
      split; [by rewrite zlen_insert|]. intros k Hk'. rewrite arr_get_insert by lia. case_decide as Hik.
      * subst k. rewrite decide_False by lia. rewrite Hget by lia. rewrite <-Hri. f_equal. lia.
      * rewrite Hk by lia. f_equal. repeat case_decide; lia.
    + assert (i = zlen A - 1).
      { destruct (Z.ltb_spec i (zlen A)); [lia|]. rewrite arr_get_app_r in Hri by lia.
        apply arr_get_Some in Hri as [_ Hri]. pose proof (Forall_lookup_1 _ _ _ _ HB Hri). cbv beta in *. lia. }
      rewrite arr_set_Some by lia. cbn [mbind option_bind]. right. subst i.
      split; [intros ->; change (zlen []) with 0 in *; lia|]. split; [lia|]. exists rs. split; [by split|].
      do 2 f_equal. lia.
  - split; [lia|]. split; [done|]. intros k Hk. f_equal. case_decide; lia.
Qed.

(** The shifted array with the new entry in its slot. *)
Lemma shifted_live rs : shifted rs (zlen A - 1) ->
  arr_ok (set_cnt (set_regions t (<[Z.to_nat (zlen A) := mk_region b s]> rs)) (cnt t + 1)) mx (A ++ mk_region b s :: B).
Proof using Ht Hroom.
  intros (Hz & Hk). pose proof Ht as (HL & Hc & Hr & Hm & Hl). rewrite zlen_app in *.
  pose proof (zlen_nonneg A). pose proof (zlen_nonneg B).
  assert (Hzn : zlen (A ++ mk_region b s :: B) = cnt t + 1) by (rewrite zlen_app, zlen_cons; lia).
  unfold arr_ok, live. cbn [cnt max regions set_cnt set_regions]. rewrite zlen_insert, Hzn.
  split; [|repeat split; done || lia]. apply arr_ext.
  - rewrite Hzn. unfold zlen. rewrite length_take, length_insert. unfold zlen in *. lia.
  - intros k Hk'. unfold zlen in Hk'. rewrite length_take in Hk'.
    rewrite arr_get_nat, lookup_take_lt, <-arr_get_nat, arr_get_insert by lia.
    assert (Hget : forall j, 0 <= j < cnt t -> (regions t).[j] = (A ++ B).[j]).
    { intros j Hj. apply (arr_ok_get t mx); [done|]. rewrite zlen_app. lia. }
    case_decide as Hik; [subst k; rewrite arr_get_app_r by lia; by rewrite Z.sub_diag|].
    rewrite Hk by lia. destruct (Z.ltb_spec k (zlen A)).
    + rewrite decide_True, Hget, !arr_get_app_l by lia. done.
    + rewrite decide_False, Hget by lia. rewrite !arr_get_app_r, (arr_get_cons _ B) by lia. f_equal. lia.
Qed.

Lemma arr_ok_insert : exists rs, insert_region (regions t) (cnt t) b s = Some (rs, zlen A) /\
  arr_ok (set_cnt (set_regions t rs) (cnt t + 1)) mx (A ++ mk_region b s :: B).
Proof using All.
  destruct insert_loop_ok as ([rs slot] & E & Hpost). unfold insert_region. rewrite E. cbn [mbind option_bind].
  pose proof Ht as (HL & Hc & Hr & Hm & Hl).
  destruct Hpost as [(EA & -> & Hsh)|(HAne & -> & rs' & Hsh & ->)].
  - pose proof Hsh as (Hz & Hk). rewrite Hk, decide_True by lia.
    assert (HAB : A ++ B = B) by by rewrite EA. assert (HzA : zlen A = 0) by by rewrite EA.
    rewrite (arr_ok_get t mx (A ++ B)) by (done || lia). rewrite HAB. rewrite HAB in Hc.
    destruct (arr_get_is_Some B 0) as [c Hcb]; [lia|]. rewrite Hcb. cbn [mbind option_bind].
    apply arr_get_Some in Hcb as [_ Hcb]. pose proof (Forall_lookup_1 _ _ _ _ HB Hcb) as Hlt. cbv beta in Hlt.
    rewrite (proj2 (Z.ltb_lt _ _)) by done. rewrite arr_set_Some by lia. cbn [mbind option_bind].
    rewrite <-HzA. eexists. split; [done|]. apply (shifted_live rs). by rewrite HzA.
  - exists (<[Z.to_nat (zlen A) := mk_region b s]> rs'). split; [|by apply shifted_live].
    pose proof Hsh as (Hz & Hk). pose proof (zlen_nonneg B).
    assert (HzA : 0 < zlen A) by (destruct (Z.ltb_spec 0 (zlen A)) as [|H0]; [done|by apply zlen_nil_inv in H0]).
    pose proof (zlen_app A B) as Happ. rewrite arr_get_insert, decide_False, Hk, decide_True by lia.
    rewrite (arr_ok_get t mx _ 0 Ht) by lia. rewrite arr_get_app_l by lia.
    destruct (arr_get_is_Some A 0) as [a Ha]; [lia|]. rewrite Ha. cbn [mbind option_bind].
    apply arr_get_Some in Ha as [_ Ha]. pose proof (Forall_lookup_1 _ _ _ _ HA Ha) as Hle. cbv beta in Hle.
    by rewrite (proj2 (Z.ltb_ge _ _)) by lia.
Qed.
End Insert.

(** ** Proofs: coverage and order *)

Lemma cover_app A B x : covers (A ++ B) x <-> covers A x \/ covers B x.
Proof.
  unfold covers. setoid_rewrite elem_of_app. split.
  - intros (r & [H|H] & Hx); eauto.
  - intros [(r & H & Hx)|(r & H & Hx)]; eauto.
Qed.

Lemma cover_nil x : ~ covers [] x.
Proof. intros (r & H & _). by apply not_elem_of_nil in H. Qed.

Lemma cover_cons r L x : covers (r :: L) x <-> in_region r x \/ covers L x.
Proof.
  unfold covers. setoid_rewrite elem_of_cons. split.
  - intros (r' & [->|H] & Hx); eauto.
  - intros [H|(r' & H & Hx)]; eauto.
Qed.

Lemma cover_fill L x : covers (fill L) x <-> covers L x.
Proof.
  destruct L; [|done]. unfold fill, empty_array. rewrite cover_cons. split; [|by intros ?%cover_nil].
  intros [H|H]; [unfold in_region in H; cbn in H; lia|done].
Qed.

(** What a list of regions has to be, apart from the filler. *)
Definition good (L : list memblock_region) : Prop := Forall wf_region L /\ sorted L.

Definition ends_before (x : Z) (r : memblock_region) : Prop := base r + size r < x.
Definition begins_after (x : Z) (r : memblock_region) : Prop := x < base r.

Lemma sorted_app A B : sorted (A ++ B) <->
  sorted A /\ sorted B /\ Forall (fun a => Forall (before a) B) A.
Proof.
  unfold sorted. induction A as [|a A IH]; cbn [app].
  - split; [intros H; repeat split; [constructor|done|constructor]|tauto].
  - split.
    + intros [HS HF]%StronglySorted_inv. apply IH in HS as (HA & HB & HAB). apply Forall_app in HF as [HF1 HF2].
      repeat split; [by constructor|done|by constructor].
    + intros ([HA Ha]%StronglySorted_inv & HB & [Hb HAB]%Forall_cons_iff).
      constructor; [by apply IH|by apply Forall_app].
Qed.

Lemma sorted_cons r L : sorted (r :: L) <-> sorted L /\ Forall (before r) L.
Proof.
  split; [by intros [? ?]%StronglySorted_inv|]. intros [? ?]. by constructor.
Qed.

(** Splitting a good list around one of its regions. *)
Lemma good_mid A r B : good (A ++ r :: B) <->
  good (A ++ B) /\ wf_region r /\ Forall (ends_before (base r)) A /\ Forall (begins_after (base r + size r)) B.
Proof.
  unfold good. rewrite !Forall_app, !sorted_app, Forall_cons_iff, sorted_cons.
  split.
  - intros ((WA & Wr & WB) & SA & (SB & HrB) & HAB). split_and!; try done.
    + eapply Forall_impl; [|exact HAB]. intros a Ha. by apply Forall_cons_iff in Ha as [_ ?].
    + eapply Forall_impl; [|exact HAB]. intros a Ha. by apply Forall_cons_iff in Ha as [? _].
  - intros (((WA & WB) & SA & SB & HAB) & Wr & HA & HB). split_and!; try done.
    rewrite Forall_forall in HAB, HA |- *. intros a Ha. constructor; [by apply HA|by apply HAB].
Qed.

Lemma good_tail A r B x : good (A ++ r :: B) -> x < base r -> Forall (begins_after x) (r :: B).
Proof.
  intros (_ & (_ & Hs & _) & HA & HB)%good_mid Hx. constructor; [done|].
  eapply Forall_impl; [|exact HB]. unfold begins_after. intros c Hc. lia.
Qed.

Lemma ends_before_weaken x y L : x <= y -> Forall (ends_before x) L -> Forall (ends_before y) L.
Proof. intros Hxy HL. eapply Forall_impl; [|exact HL]. unfold ends_before. intros; lia. Qed.

Lemma delete_mid {A} (l k : list A) x : delete (Z.to_nat (zlen l)) (l ++ x :: k) = l ++ k.
Proof. unfold zlen. rewrite Nat2Z.id. apply delete_middle. Qed.

Lemma insert_mid {A} (l k : list A) x y : <[Z.to_nat (zlen l) := y]> (l ++ x :: k) = l ++ y :: k.
Proof.
  unfold zlen. rewrite Nat2Z.id. replace (length l) with (length l + 0)%nat at 1 by lia.
  by rewrite insert_app_r.
Qed.

Lemma get_mid {A} (l k : list A) x : (l ++ x :: k).[zlen l] = Some x.
Proof. rewrite arr_get_app_r by lia. by rewrite Z.sub_diag. Qed.

(** ** Proofs: the coalescing loop *)

(** The number of entries that are not the filler. *)
Definition used_cnt (t : memblock_type) : Z :=
  match regions t with r :: _ => if size r =? 0 then 0 else cnt t | [] => 0 end.

Lemma used_cnt_fill t mx L : arr_ok t mx (fill L) -> Forall wf_region L -> used_cnt t = zlen L.
Proof.
  intros Ht HL. pose proof Ht as (_ & Hc & Hr & _ & Hl). unfold used_cnt.
  assert (H0 : (regions t).[0] = (fill L).[0]) by (apply (arr_ok_get t mx); [done|lia]).
  destruct (regions t) as [|r0 rs]; [change (zlen []) with 0 in Hl; lia|]. rewrite arr_get_0 in H0.
  destruct L as [|r L]; cbn [fill] in H0, Hc; [by injection H0 as ->|].
  injection H0 as ->. apply Forall_cons_iff in HL as [[_ [Hs _]] _]. destruct (Z.eqb_spec (size r) 0); [lia|done].
Qed.

Section Coalesce.
Context (mx : Z) (L0 : list memblock_region) (b0 end_ : Z) (Hend : end_ < 2 ^ 32).

(** The array and what is still to be added make up what was asked for. *)
Definition adds_up (L : list memblock_region) (b : Z) : Prop :=
  forall x, covers L x \/ b <= x < end_ <-> covers L0 x \/ b0 <= x < end_.

Definition coalesce_inv : add_state -> Prop := fun '(t, i, b, s) =>
  exists A B, arr_ok t mx (fill (A ++ B)) /\ good (A ++ B) /\ zlen (A ++ B) <= zlen L0 /\ 
    (zlen (A ++ B) = zlen L0 -> A ++ B = L0 /\ b = b0) /\
    i = zlen A /\ Forall (ends_before b) A /\ adds_up (A ++ B) b /\ 0 <= b /\ 0 < s /\ b + s = end_.

Definition coalesce_post (r : coalesced) : Prop :=
  match r with
  | Enclosed t => exists L, arr_ok t mx L /\ good L /\ zlen L <= zlen L0 /\ forall x, covers L x <-> covers L0 x \/ b0 <= x < end_
  | NewBlock _ _ _ => False
  | Scanned t b s => exists A B, arr_ok t mx (fill (A ++ B)) /\ good (A ++ B) /\ zlen (A ++ B) <= zlen L0 /\
      (zlen (A ++ B) = zlen L0 -> A ++ B = L0 /\ b = b0) /\
      Forall (ends_before b) A /\ Forall (begins_after end_) B /\ adds_up (A ++ B) b /\
      0 <= b /\ 0 < s /\ b + s = end_
  end.

Lemma coalesce_top_ok t A r B rend b s :
  arr_ok t mx (A ++ r :: B) -> good (A ++ r :: B) -> zlen (A ++ r :: B) <= zlen L0 ->
  (zlen (A ++ r :: B) = zlen L0 -> ~ (b <= rend <= end_) -> A ++ r :: B = L0 /\ b = b0) ->
  rend = base r + size r -> base r <= b -> rend <= end_ -> Forall (ends_before b) A ->
  (forall x, covers (A ++ r :: B) x \/ b <= x < end_ <-> covers L0 x \/ b0 <= x < end_) ->
  0 < s -> b + s = end_ ->
  exists t' i' b' s', coalesce_top t (zlen A) r rend b s end_ = Some (Next (t', i', b', s')) /\
    coalesce_inv (t', i', b', s') /\ used_cnt t' - i' < zlen (A ++ r :: B) - zlen A.
Proof using Hend.
  intros Ht Hg Hz Hsame -> Hrb Hre HA Hadd Hs Hbs. unfold coalesce_top.
  pose proof (zlen_app A (r :: B)) as Hzab. rewrite zlen_cons in Hzab. pose proof (zlen_nonneg A). pose proof (zlen_nonneg B).
  apply good_mid in Hg as Hg'. destruct Hg' as (HgAB & Hwr & HAr & HrB). unfold wf_region in Hwr.
  rewrite (proj2 (Z.leb_le _ end_)) by done.
  destruct (Z.leb_spec b (base r + size r)) as [Hb|Hb]; cbn [andb].
  - cbn [memblock_memory_can_coalesce Z.eqb]. destruct (arr_ok_remove t mx _ (zlen A) Ht) as (t' & -> & Ht'); [lia|].
    cbn [mbind option_bind]. rewrite delete_mid in Ht'. eexists _, _, _, _. split; [done|].
    assert (Hu : used_cnt t' = zlen A + zlen B) by (rewrite (used_cnt_fill t' mx (A ++ B) Ht' (proj1 HgAB)); apply zlen_app).
    split; [|lia]. exists A, B. rewrite zlen_app. unwrap. split_and!; try done; try lia.
    intros x. rewrite <-Hadd, !cover_app, cover_cons. unfold in_region.
    assert (base r <= x < end_ <-> base r <= x < base r + size r \/ b <= x < end_) by lia. tauto.
  - eexists _, _, _, _. split; [done|]. split.
    + exists (A ++ [r]), B. rewrite <-app_assoc. cbn [app]. split_and!; try done; try lia.
      * by destruct A.
      * intros. apply Hsame; [done|lia].
      * by rewrite zlen_app.
      * apply Forall_app. split; [done|]. constructor; [done|constructor].
    + rewrite (used_cnt_fill t mx (A ++ r :: B)); [lia|by destruct A|apply Hg].
Qed.

(** Leaving the loop without finding the region enclosed. *)
Lemma coalesce_scanned t A B b s : arr_ok t mx (fill (A ++ B)) -> good (A ++ B) ->
  zlen (A ++ B) <= zlen L0 -> (zlen (A ++ B) = zlen L0 -> A ++ B = L0 /\ b = b0) ->
  Forall (ends_before b) A -> Forall (begins_after end_) B -> adds_up (A ++ B) b ->
  0 <= b -> 0 < s -> b + s = end_ -> coalesce_post (Scanned t b s).
Proof using. intros. by exists A, B. Qed.

Lemma coalesce_entry t A r B b s :
  arr_ok t mx (A ++ r :: B) -> good (A ++ r :: B) -> zlen (A ++ r :: B) <= zlen L0 ->
  (zlen (A ++ r :: B) = zlen L0 -> A ++ r :: B = L0 /\ b = b0) ->
  Forall (ends_before b) A -> adds_up (A ++ r :: B) b -> 0 <= b -> 0 < s -> b + s = end_ ->
  body_ok (coalesce_body end_) coalesce_inv (fun '(t, i, _, _) => used_cnt t - i) coalesce_post (t, zlen A, b, s).
Proof using Hend.
  intros Ht Hg Hz Hsame HA Hadd Hb Hs Hbs.
  pose proof (zlen_app A (r :: B)) as Hzab. rewrite zlen_cons in Hzab. pose proof (zlen_nonneg A). pose proof (zlen_nonneg B).
  assert (Hu : used_cnt t = zlen (A ++ r :: B)) by (apply (used_cnt_fill t mx); [by destruct A|apply Hg]).
  split; [lia|]. pose proof Ht as (_ & Hc & _). unfold coalesce_body.
  rewrite (proj2 (Z.ltb_lt _ (cnt t))) by lia. rewrite (arr_ok_get t mx _ _ Ht), get_mid by lia.
  cbn [mbind option_bind]. apply good_mid in Hg as Hg'. destruct Hg' as (HgAB & Hwr & HAr & HrB).
  unfold wf_region in Hwr. rewrite (u32_small (base r + size r)) by lia.
  rewrite (proj2 (Z.eqb_neq (size r) 0)) by lia. rewrite orb_false_r. cbv zeta.
  destruct (Z.ltb_spec end_ (base r)) as [He|He].
  { eapply (coalesce_scanned t A (r :: B)); try done; [by destruct A|by eapply good_tail]. }
  destruct (Z.leb_spec (base r) b) as [Hrb|Hrb]; cbn [andb].
  - destruct (Z.leb_spec end_ (base r + size r)) as [Hre|Hre].
    { exists (A ++ r :: B). split; [done|]. split; [done|]. split; [done|]. intros x. rewrite <-(Hadd x), cover_app, cover_cons.
      unfold in_region. assert (b <= x < end_ -> base r <= x < base r + size r) by lia. tauto. }
    rewrite (proj2 (Z.ltb_ge b (base r))) by lia. cbn [andb].
    destruct (coalesce_top_ok t A r B (base r + size r) b s Ht Hg Hz) as (t' & i' & b' & s' & -> & Hinv & Hlt);
      try done; try lia; [auto|]. by rewrite Hu.
  - rewrite (proj2 (Z.ltb_lt b (base r))), (proj2 (Z.leb_le (base r) end_)) by lia.
    cbn [andb memblock_memory_can_coalesce Z.eqb]. rewrite (u32_small (base r + size r - b)) by lia.
    set (r' := mk_region b (base r + size r - b)).
    destruct (arr_ok_update t mx _ (zlen A) r r' Ht (get_mid _ _ _)) as (rs & -> & Ht').
    rewrite insert_mid in Ht'. cbn [mbind option_bind].
    assert (Hg1 : good (A ++ r' :: B)).
    { apply good_mid. split; [done|]. split; [unfold wf_region, r'; cbn; lia|]. split; [done|].
      unfold r'. cbn. by replace (b + (base r + size r - b)) with (base r + size r) by lia. }
    assert (Hz1 : zlen (A ++ r' :: B) = zlen (A ++ r :: B)) by by rewrite !zlen_app, !zlen_cons.
    destruct (Z.leb_spec end_ (base r + size r)) as [Hre|Hre].
    { exists (A ++ r' :: B). split; [done|]. split; [done|]. split; [lia|]. intros x.
      rewrite <-(Hadd x), !cover_app, !cover_cons. unfold in_region, r'. cbn.
      assert (b <= x < b + (base r + size r - b) <-> base r <= x < base r + size r \/ b <= x < end_) by lia. tauto. }
    rewrite (u32_small (end_ - _)) by lia.
    destruct (coalesce_top_ok _ A r' B (base r + size r) (base r + size r) (end_ - (base r + size r)) Ht' Hg1)
      as (t' & i' & b' & s' & -> & Hinv & Hlt); try lia; try (unfold r'; cbn; lia).
    + eapply ends_before_weaken; [|exact HA]. lia.
    + intros x. rewrite <-(Hadd x), !cover_app, !cover_cons. unfold in_region, r'. cbn.
      assert (b <= x < b + (base r + size r - b) \/ base r + size r <= x < end_ <->
        base r <= x < base r + size r \/ b <= x < end_) by lia. tauto.
    + by rewrite Hu, <-Hz1.
Qed.

Lemma coalesce_step st : coalesce_inv st ->
  body_ok (coalesce_body end_) coalesce_inv (fun '(t, i, _, _) => used_cnt t - i) coalesce_post st.
Proof using Hend.
  destruct st as [[[t i] b] s].
  intros (A & B & Ht & Hg & Hz & Hsame & -> & HA & Hadd & Hb & Hs & Hbs).
  destruct B as [|r B]; [|by apply (coalesce_entry t A r B); try done; destruct A].
  pose proof (used_cnt_fill t mx _ Ht (proj1 Hg)) as Hu. rewrite app_nil_r in *.
  split; [lia|]. unfold coalesce_body. pose proof Ht as (_ & Hc & _).
  assert (Hpost : coalesce_post (Scanned t b s)).
  { apply (coalesce_scanned t A []); rewrite ?app_nil_r; try done. }
  destruct A as [|a A]; cbn [fill] in *.
  - change (zlen []) with 0 in *. rewrite (arr_ok_get t mx _ 0 Ht), Hc by done.
    change (0 <? zlen empty_array) with true. change (empty_array.[0]) with (Some (mk_region 0 0)).
    cbn [mbind option_bind base size]. by rewrite Z.eqb_refl, orb_true_r.
  - by rewrite Hc, Z.ltb_irrefl.
Qed.
End Coalesce.

(** ** Proofs: adding *)

Lemma get_set_type mb k t : get_type (set_type mb k t) k = t.
Proof. by destruct k. Qed.
Lemma set_set_type mb k t t' : set_type (set_type mb k t) k t' = set_type mb k t'.
Proof. by destruct k. Qed.
Lemma can_resize_set mb k t : can_resize (set_type mb k t) = can_resize mb.
Proof. by destruct k. Qed.

Lemma fill_zlen L : zlen (fill L) = Z.max 1 (zlen L).
Proof. destruct L; [done|]. cbn [fill]. rewrite zlen_cons. pose proof (zlen_nonneg L). lia. Qed.

Lemma fill_nonempty t mx L : arr_ok t mx L -> fill L = L.
Proof. intros (_ & Hc & Hr & _). destruct L; [change (zlen []) with 0 in Hc; lia|done]. Qed.

(** An array with [mx] slots that holds [L], and a slot to spare. *)
Definition holds (t : memblock_type) (mx : Z) (L : list memblock_region) : Prop :=
  arr_ok t mx (fill L) /\ good L /\ zlen (fill L) < mx.

Section AddRegion.
Context (double_array : memblock -> kind -> option (memblock * Z)).

(** Growing the array fails and changes nothing. *)
Definition no_growth (mb : memblock) (k : kind) : Prop :=
  forall mb', can_resize mb' = can_resize mb -> double_array mb' k = Some (mb', -1).

Definition add_result (mb : memblock) (k : kind) (mx : Z) (L : list memblock_region) (b s : Z) (r : memblock * Z) : Prop :=
  exists t', fst r = set_type mb k t' /\
    ((snd r = 0 /\ exists L', holds t' mx L' /\ forall x, covers L' x <-> covers L x \/ b <= x < b + s) \/
     (snd r = -1 /\ zlen (fill L) + 1 = mx /\ holds t' mx L)).

Lemma new_block_ok mb k mx L A B b0 b s :
  arr_ok (get_type mb k) mx (A ++ B) -> good (A ++ B) -> zlen (fill L) < mx -> zlen (A ++ B) <= zlen L ->
  (zlen (A ++ B) = zlen L -> A ++ B = L /\ b = b0) ->
  Forall (ends_before b) A -> Forall (begins_after (b + s)) B ->
  (forall x, covers (A ++ B) x \/ b <= x < b + s <-> covers L x \/ b0 <= x < b + s) ->
  0 <= b -> 0 < s -> b + s < 2 ^ 32 -> zlen (fill L) + 1 < mx \/ no_growth mb k ->
  exists r, add_new_block double_array mb k b s = Some r /\ add_result mb k mx L b0 (b + s - b0) r.
Proof using.
  intros Ht Hg Hmx Hz Hsame HA HB Hadd Hb Hs Hbs Hroom. unfold add_new_block. cbv zeta.
  pose proof Ht as (_ & Hc & Hr & Hm & _). rewrite fill_zlen in *.
  rewrite (proj2 (Z.leb_gt _ _)) by lia.
  assert (HAle : Forall (fun a => base a <= b) A).
  { destruct Hg as [[HW _]%Forall_app _]. rewrite Forall_forall in HA, HW |- *. intros a Ha.
    specialize (HA a Ha). specialize (HW a Ha). unfold ends_before, wf_region in *. lia. }
  assert (HBlt : Forall (fun c => b < base c) B).
  { eapply Forall_impl; [|exact HB]. unfold begins_after. intros; lia. }
  destruct (arr_ok_insert (get_type mb k) mx A B b s) as (rs & -> & Ht'); [done|lia|done..|].
  cbn [mbind option_bind]. rewrite set_set_type || idtac. cbn [cnt max set_cnt set_regions].
  set (t' := set_cnt _ _) in *.
  assert (Hg' : good (A ++ mk_region b s :: B)) by by apply good_mid; split_and!.
  assert (Hzn : zlen (A ++ mk_region b s :: B) = zlen (A ++ B) + 1) by (rewrite !zlen_app, zlen_cons; lia).
  destruct (Z.eqb_spec (cnt (get_type mb k) + 1) (max (get_type mb k))) as [E|E].
  - destruct Hroom as [Hroom|Hda]; [lia|]. rewrite Hda by apply can_resize_set. cbn [mbind option_bind].
    destruct (Z.ltb_spec (zlen A) 0); [pose proof (zlen_nonneg A); lia|]. cbn [Z.eqb negb].
    rewrite get_set_type. destruct (arr_ok_remove t' mx _ (zlen A) Ht') as (t2 & -> & Ht2).
    { rewrite zlen_app, zlen_cons. pose proof (zlen_nonneg B). lia. }
    cbn [mbind option_bind]. rewrite delete_mid in Ht2. rewrite set_set_type. eexists. split; [done|].
    exists t2. split; [done|]. right. cbn [snd]. destruct Hsame as [<- _]; [lia|].
    unfold holds. rewrite !fill_zlen. split_and!; done || lia.
  - eexists. split; [done|]. exists t'. split; [done|]. left. split; [done|].
    exists (A ++ mk_region b s :: B). split.
    + split; [by rewrite (fill_nonempty t' mx)|]. split; [done|]. rewrite fill_zlen. lia.
    + intros x. rewrite cover_app, cover_cons. specialize (Hadd x). rewrite cover_app in Hadd. unfold in_region. cbn.
      replace (b0 + (b + s - b0)) with (b + s) by lia. clear -Hadd. tauto.
Qed.

Lemma add_region_ok mb k mx L b s :
  holds (get_type mb k) mx L -> 0 <= b -> 0 < s -> b + s < 2 ^ 32 ->
  zlen (fill L) + 1 < mx \/ no_growth mb k ->
  exists r, add_region double_array mb k b s = Some r /\ add_result mb k mx L b s r.
Proof using.
  intros (Ht & Hg & Hmx) Hb Hs Hbs Hroom. unfold add_region. cbv zeta.
  rewrite (u32_small (b + s)) by lia. pose proof Ht as (_ & Hc & Hr & Hm & _).
  destruct (loop_total (coalesce_body (b + s)) (coalesce_inv mx L b (b + s)) (fun '(t, i, _, _) => used_cnt t - i)
    (coalesce_post mx L b (b + s))) with (bound := cnt (get_type mb k) + 1) (s := (get_type mb k, 0, b, s))
    as (r & -> & Hpost).
  - by apply coalesce_step.
  - exists [], L. cbn [app]. split_and!; try done; try lia.
  - rewrite (used_cnt_fill _ mx L) by (done || apply Hg). rewrite Hc, fill_zlen. lia.
  - cbn [mbind option_bind]. destruct r as [t'|t' b' s'|t' b' s'].
    + destruct Hpost as (L' & Ht' & Hg' & Hz & Hcov). eexists. split; [done|]. exists t'. split; [done|]. left.
      split; [done|]. exists L'. split; [|done]. split; [by rewrite (fill_nonempty t' mx)|]. split; [done|].
      rewrite fill_zlen in *. lia.
    + done.
    + destruct Hpost as (A & B & Ht' & Hg' & Hz & Hsame & HA & HB & Hadd & Hb' & Hs' & Hbs').
      pose proof Ht' as (_ & Hc' & Hr' & _).
      rewrite (arr_ok_get t' mx _ 0 Ht') by (rewrite fill_zlen; lia).
      destruct (A ++ B) as [|r0 AB] eqn:EAB.
      * apply app_eq_nil in EAB as [-> ->]. cbn [fill] in *. rewrite Hc'. cbn [mbind option_bind arr_get].
        destruct (arr_ok_update t' mx _ 0 (mk_region 0 0) (mk_region b' s') Ht' eq_refl) as (rs & E & Ht2).
        change (empty_array.[0]) with (Some (mk_region 0 0)). cbn [mbind option_bind size Z.eqb andb].
        change (zlen empty_array =? 1) with true. cbn [andb]. rewrite E. cbn [mbind option_bind].
        eexists. split; [done|]. exists (set_regions t' rs). split; [done|]. left. split; [done|].
        exists [mk_region b' s']. split; [split; [exact Ht2|split; [|rewrite fill_zlen in *; change (zlen [_]) with 1; lia]]|].
        -- split; [repeat constructor; cbn; lia|repeat constructor].
        -- intros x. rewrite cover_cons, <-(Hadd x). unfold in_region. cbn.
           pose proof (cover_nil x). replace (b' + s') with (b + s) by lia. tauto.
      * rewrite fill_cons in *. rewrite arr_get_0. cbn [mbind option_bind].
        assert (Hw0 : wf_region r0) by by destruct Hg' as [[? _]%Forall_cons_iff _]. unfold wf_region in Hw0.
        rewrite (proj2 (Z.eqb_neq (size r0) 0)) by lia. rewrite andb_false_r.
        destruct (new_block_ok (set_type mb k t') k mx L A B b b' s') as (r & -> & t2 & Hr2 & Hres);
          rewrite ?get_set_type, ?EAB, ?Hbs'; try done.
        { destruct Hroom as [?|Hng]; [by left|right]. intros mb' Hmb'. apply Hng. by rewrite Hmb', can_resize_set. }
        eexists. split; [done|]. exists t2. rewrite Hr2, set_set_type. split; [done|].
        replace (b' + s' - b) with s in Hres by lia. exact Hres.
Qed.
End AddRegion.

(** ** Proofs: removing *)

Lemma good_clear_left A x y z : Forall (ends_before y) A -> covers A x -> y <= z -> x < z.
Proof.
  intros HA (a & Ha & Hx) Hyz. apply list_elem_of_In in Ha. rewrite Forall_forall in HA.
  specialize (HA a Ha). unfold ends_before, in_region in *. lia.
Qed.

Lemma good_clear_right B x y : Forall (begins_after y) B -> covers B x -> y < x.
Proof.
  intros HB (c & Hc & Hx). apply list_elem_of_In in Hc. rewrite Forall_forall in HB.
  specialize (HB c Hc). unfold begins_after, in_region in *. lia.
Qed.

Section RemoveRegion.
Context (double_array : memblock -> kind -> option (memblock * Z)).
Context (mb0 : memblock) (k : kind) (mx : Z) (L0 : list memblock_region) (b end_ : Z).
Context (Hb : 0 <= b <= end_) (Hend : end_ < 2 ^ 32) (Hmx : zlen (fill L0) < mx).
Context (Hroom : zlen (fill L0) + 1 < mx \/ no_growth double_array mb0 k).

Definition same_outside (L L' : list memblock_region) : Prop :=
  forall x, ~ b <= x < end_ -> covers L x <-> covers L' x.

Definition remove_inv : memblock * Z -> Prop := fun '(mb, i) =>
  exists t A B, mb = set_type mb0 k t /\ holds t mx (A ++ B) /\ zlen (A ++ B) <= zlen L0 /\ i = zlen A /\
    Forall (fun a => base a + size a <= b) A /\ same_outside (A ++ B) L0 /\
    Forall (fun r => base r <> end_) B /\ (A ++ B = L0 \/ Forall (fun r => b <= base r) B).

Definition remove_result (r : memblock * Z) : Prop :=
  exists t, fst r = set_type mb0 k t /\
    ((snd r = 0 /\ exists L, holds t mx L /\ forall x, covers L x <-> covers L0 x /\ ~ b <= x < end_) \/
     (snd r = -1 /\ zlen (fill L0) + 1 = mx /\ holds t mx L0)).

Lemma remove_done mb t A B : mb = set_type mb0 k t -> holds t mx (A ++ B) ->
  Forall (fun a => base a + size a <= b) A -> Forall (fun c => end_ <= base c) B ->
  same_outside (A ++ B) L0 -> remove_result (mb, 0).
Proof using.
  intros -> Ht HA HB Hsame. exists t. split; [done|]. left. split; [done|]. exists (A ++ B). split; [done|].
  intros x. split.
  - intros Hx. assert (Hn : ~ b <= x < end_).
    { apply cover_app in Hx as [(a & Ha & Hx)|(c & Hc & Hx)]; unfold in_region in Hx.
      - apply list_elem_of_In in Ha. rewrite Forall_forall in HA. specialize (HA a Ha). cbv beta in *. lia.
      - apply list_elem_of_In in Hc. rewrite Forall_forall in HB. specialize (HB c Hc). cbv beta in *. lia. }
    split; [by apply Hsame|done].
  - intros [Hx Hn]. by apply Hsame.
Qed.

Lemma remove_split_ok mb t A r B : mb = set_type mb0 k t -> holds t mx (A ++ r :: B) -> A ++ r :: B = L0 ->
  base r < b -> end_ < base r + size r ->
  exists res, remove_split double_array mb k (zlen A) b end_ r (base r + size r) = Some res /\ remove_result res.
Proof using All.
  intros -> (Ht & Hg & Hz) HL Hrb Hre. unfold remove_split. rewrite get_set_type. cbv zeta.
  apply good_mid in Hg as Hg'. destruct Hg' as (HgAB & Hwr & HAr & HrB). unfold wf_region in Hwr.
  set (r1 := mk_region (base r) (b - base r)). rewrite (u32_small (b - base r)) by lia. fold r1.
  assert (EL : forall y, fill (A ++ y :: B) = A ++ y :: B) by (intros; by destruct A).
  rewrite EL in Ht, Hz. destruct (arr_ok_update t mx _ (zlen A) r r1 Ht (get_mid _ _ _)) as (rs & -> & Ht1).
  rewrite insert_mid in Ht1. cbn [mbind option_bind]. rewrite set_set_type.
  rewrite (u32_small (base r + size r - end_)) by lia.
  assert (Hg1 : good (A ++ r1 :: B)).
  { apply good_mid. split; [done|]. split; [unfold wf_region, r1; cbn; lia|]. split; [done|].
    eapply Forall_impl; [|exact HrB]. unfold begins_after, r1. cbn. intros; lia. }
  assert (Hz1 : zlen (A ++ r1 :: B) = zlen (A ++ r :: B)) by by rewrite !zlen_app, !zlen_cons.
  destruct (add_region_ok double_array (set_type mb0 k (set_regions t rs)) k mx (A ++ r1 :: B) end_ (base r + size r - end_))
    as ([mb' err] & -> & t' & Hmb' & Hres); try lia.
  - rewrite get_set_type. split; [by rewrite EL|]. split; [done|]. rewrite EL. lia.
  - rewrite EL, Hz1. rewrite <-HL, EL in Hroom. destruct Hroom as [?|Hng]; [by left|right].
    intros m Hm. apply Hng. by rewrite Hm, can_resize_set.
  - cbn [fst snd] in *. rewrite set_set_type in Hmb'. cbn [mbind option_bind].
    destruct Hres as [(-> & L' & Hh & Hcov)|(-> & Hfull & Hh)].
    + cbn [Z.eqb]. eexists. split; [done|]. exists t'. split; [done|]. left. split; [done|]. exists L'. split; [done|].
      intros x. rewrite Hcov, <-HL, !cover_app, !cover_cons. unfold in_region, r1. cbn.
      pose proof (good_clear_left A x _ b HAr). pose proof (good_clear_right B x _ HrB).
      assert (HA' : covers A x -> ~ b <= x < end_) by (intros H1%(H); lia).
      assert (HB' : covers B x -> ~ b <= x < end_) by (intros H1%H0; lia).
      assert (base r <= x < base r + (b - base r) \/ end_ <= x < end_ + (base r + size r - end_) <->
        base r <= x < base r + size r /\ ~ b <= x < end_) by lia. clear -HA' HB' H1. tauto.
    + change (-1 =? 0) with false. cbv iota. rewrite Hmb', get_set_type.
      destruct Hh as (Ht' & _ & _). rewrite EL in Ht'. pose proof (zlen_nonneg A). pose proof (zlen_nonneg B).
      rewrite (arr_ok_get t' mx _ _ Ht'), get_mid by (rewrite zlen_app, zlen_cons; lia). cbn [mbind option_bind].
      destruct (arr_ok_update t' mx _ (zlen A) r1 (mk_region (base r1) (u32 (base r + size r - base r1))) Ht' (get_mid _ _ _))
        as (rs' & -> & Ht2). cbn [mbind option_bind]. rewrite insert_mid, set_set_type in *.
      eexists. split; [done|]. exists (set_regions t' rs'). split; [done|]. right. split; [done|].
      rewrite <-HL, EL. split; [rewrite EL in Hfull; lia|]. split; [|split; [done|by rewrite EL]].
      rewrite EL. unfold r1 in Ht2. cbn [base] in Ht2. rewrite u32_small in Ht2 by lia.
      replace (base r + size r - base r) with (size r) in Ht2 by lia. by destruct r.
Qed.

Lemma remove_entry mb t A r B : mb = set_type mb0 k t -> holds t mx (A ++ r :: B) ->
  zlen (A ++ r :: B) <= zlen L0 -> Forall (fun a => base a + size a <= b) A -> same_outside (A ++ r :: B) L0 ->
  Forall (fun r => base r <> end_) (r :: B) -> (A ++ r :: B = L0 \/ Forall (fun r => b <= base r) (r :: B)) ->
  body_ok (remove_body double_array k b end_) remove_inv (fun '(mb, i) => used_cnt (get_type mb k) - i)
    remove_result (mb, zlen A).
Proof using All.
  intros -> Hh Hz HA Hsame Hne HL. pose proof Hh as (Ht & Hg & Hlt).
  assert (EL : forall y, fill (A ++ y :: B) = A ++ y :: B) by (intros; by destruct A). rewrite EL in Ht, Hlt.
  pose proof (zlen_app A (r :: B)) as Hzab. rewrite zlen_cons in Hzab. pose proof (zlen_nonneg A). pose proof (zlen_nonneg B).
  assert (Hu : used_cnt t = zlen (A ++ r :: B)) by (apply (used_cnt_fill t mx); [by rewrite EL|apply Hg]).
  unfold body_ok. rewrite get_set_type, Hu. split; [lia|]. pose proof Ht as (_ & Hc & _). unfold remove_body.
  rewrite get_set_type, (proj2 (Z.ltb_lt _ (cnt t))) by lia. rewrite (arr_ok_get t mx _ _ Ht), get_mid by lia.
  cbn [mbind option_bind]. apply good_mid in Hg as Hg'. destruct Hg' as (HgAB & Hwr & HAr & HrB).
  unfold wf_region in Hwr. rewrite (u32_small (base r + size r)) by lia.
  rewrite (proj2 (Z.eqb_neq (size r) 0)) by lia. rewrite orb_false_r. cbv zeta.
  apply Forall_cons_iff in Hne as [Hner HneB].
  assert (HBge : Forall (fun c => base r + size r <= base c) B).
  { eapply Forall_impl; [|exact HrB]. unfold begins_after. intros; lia. }
  assert (HBb : base r + size r >= b -> Forall (fun c => b <= base c) B).
  { intros Hge. eapply Forall_impl; [|exact HBge]. cbv beta. intros; lia. }
  destruct (Z.ltb_spec end_ (base r)) as [He|He].
  { eapply (remove_done _ t A (r :: B)); try done. constructor; [lia|].
    eapply Forall_impl; [|exact HBge]. cbv beta. intros; lia. }
  destruct (Z.leb_spec b (base r)) as [Hbr|Hbr]; cbn [andb].
  - rewrite (proj2 (Z.ltb_ge (base r) b)) by lia. cbn [andb].
    destruct (Z.leb_spec (base r + size r) end_) as [Hre|Hre].
    + destruct (arr_ok_remove t mx _ (zlen A) Ht) as (t' & -> & Ht'); [lia|]. cbn [mbind option_bind].
      rewrite delete_mid in Ht'. rewrite set_set_type, get_set_type.
      rewrite (used_cnt_fill t' mx (A ++ B) Ht' (proj1 HgAB)), zlen_app. split; [|lia].
      exists t', A, B. split_and!; try done; try lia.
      * split; [done|]. split; [done|]. rewrite fill_zlen, zlen_app. lia.
      * rewrite zlen_app. lia.
      * intros x Hx. rewrite <-(Hsame x Hx), !cover_app, cover_cons. unfold in_region.
        assert (~ base r <= x < base r + size r) by lia. tauto.
      * right. apply HBb. lia.
    + rewrite (proj2 (Z.ltb_lt (base r) end_)), (proj2 (Z.ltb_lt end_ _)) by lia. cbn [andb].
      rewrite (u32_small (end_ - base r)), (u32_small (size r - _)) by lia.
      set (r1 := mk_region end_ _). destruct (arr_ok_update t mx _ (zlen A) r r1 Ht (get_mid _ _ _)) as (rs & -> & Ht1).
      rewrite insert_mid in Ht1. cbn [mbind option_bind]. rewrite set_set_type.
      assert (Hz1 : zlen (A ++ r1 :: B) = zlen (A ++ r :: B)) by by rewrite !zlen_app, !zlen_cons.
      eapply (remove_done _ (set_regions t rs) A (r1 :: B)); try done.
      * split; [by rewrite EL|]. split; [|rewrite EL; lia]. apply good_mid. split; [done|].
        split; [unfold wf_region, r1; cbn; lia|]. split; [by eapply ends_before_weaken; [|exact HAr]|].
        unfold r1. cbn. by replace (end_ + (size r - (end_ - base r))) with (base r + size r) by lia.
      * constructor; [unfold r1; cbn; lia|]. eapply Forall_impl; [|exact HBge]. cbv beta. intros; lia.
      * intros x Hx. rewrite <-(Hsame x Hx), !cover_app, !cover_cons. unfold in_region, r1. cbn.
        assert (end_ <= x < end_ + (size r - (end_ - base r)) <-> base r <= x < base r + size r) by lia. tauto.
  - rewrite (proj2 (Z.ltb_lt (base r) b)) by lia. cbn [andb].
    destruct (Z.ltb_spec end_ (base r + size r)) as [Hre|Hre].
    + destruct (remove_split_ok (set_type mb0 k t) t A r B) as (res & -> & Hres); try done.
      destruct HL as [HL|HL]; [done|]. apply Forall_cons_iff in HL as [HL _]. lia.
    + rewrite andb_false_r. destruct (Z.ltb_spec b (base r + size r)) as [Hbe|Hbe].
      * rewrite (u32_small (base r + size r - b)), (u32_small (size r - _)) by lia.
        set (r1 := mk_region (base r) _).
        destruct (arr_ok_update t mx _ (zlen A) r r1 Ht (get_mid _ _ _)) as (rs & -> & Ht1).
        rewrite insert_mid in Ht1. cbn [mbind option_bind]. rewrite set_set_type, get_set_type.
        assert (Hz1 : zlen (A ++ r1 :: B) = zlen (A ++ r :: B)) by by rewrite !zlen_app, !zlen_cons.
        assert (Hg1 : good (A ++ r1 :: B)).
        { apply good_mid. split; [done|]. split; [unfold wf_region, r1; cbn; lia|]. split; [done|].
          eapply Forall_impl; [|exact HrB]. unfold begins_after, r1. cbn. intros; lia. }
        assert (Hu1 : used_cnt (set_regions t rs) = zlen (A ++ r1 :: B))
          by (apply (used_cnt_fill _ mx); [by rewrite EL|apply Hg1]).
        rewrite Hu1. split; [|lia]. exists (set_regions t rs), (A ++ [r1]), B. rewrite <-app_assoc. cbn [app].
        split_and!; try done; try lia.
        -- split; [by rewrite EL|]. split; [done|]. rewrite EL. lia.
        -- by rewrite zlen_app.
        -- apply Forall_app. split; [done|]. constructor; [unfold r1; cbn; lia|constructor].
        -- intros x Hx. rewrite <-(Hsame x Hx), !cover_app, !cover_cons. unfold in_region, r1. cbn.
           assert (base r <= x < base r + (size r - (base r + size r - b)) <-> base r <= x < base r + size r) by lia. tauto.
        -- right. apply HBb. lia.
      * rewrite get_set_type, Hu. split; [|lia]. exists t, (A ++ [r]), B. rewrite <-app_assoc. cbn [app].
        split_and!; try done.
        -- by rewrite zlen_app.
        -- apply Forall_app. split; [done|]. constructor; [lia|constructor].
        -- destruct HL as [HL|HL]; [by left|]. apply Forall_cons_iff in HL as [HL _]. lia.
Qed.

Lemma remove_step st : remove_inv st ->
  body_ok (remove_body double_array k b end_) remove_inv (fun '(mb, i) => used_cnt (get_type mb k) - i) remove_result st.
Proof using All.
  destruct st as [mb i]. intros (t & A & B & -> & Hh & Hz & -> & HA & Hsame & Hne & HL).
  destruct B as [|r B]; [|by eapply remove_entry].
  pose proof Hh as (Ht & Hg & Hlt). pose proof (used_cnt_fill t mx _ Ht (proj1 Hg)) as Hu.
  unfold body_ok. rewrite get_set_type, Hu, app_nil_r. split; [lia|]. unfold remove_body. rewrite get_set_type.
  pose proof Ht as (_ & Hc & _). assert (Hd : remove_result (set_type mb0 k t, 0)) by by eapply remove_done.
  rewrite app_nil_r in *. destruct A as [|a A]; cbn [fill] in *.
  - change (zlen []) with 0 in *. rewrite (arr_ok_get t mx _ 0 Ht), Hc by done.
    change (0 <? zlen empty_array) with true. change (empty_array.[0]) with (Some (mk_region 0 0)).
    cbn [mbind option_bind base size]. by rewrite Z.eqb_refl, orb_true_r.
  - by rewrite Hc, Z.ltb_irrefl.
Qed.
End RemoveRegion.

Lemma remove_region_ok double_array mb k mx L b s :
  holds (get_type mb k) mx L -> 0 <= b -> 0 <= s -> b + s < 2 ^ 32 -> Forall (fun r => base r <> b + s) L ->
  zlen (fill L) + 1 < mx \/ no_growth double_array mb k ->
  exists r, remove_region double_array mb k b s = Some r /\ remove_result mb k mx L b (b + s) r.
Proof.
  intros Hh Hb Hs Hbs Hne Hroom. unfold remove_region. cbv zeta. rewrite (u32_small (b + s)) by lia.
  pose proof Hh as (Ht & Hg & Hlt). pose proof Ht as (_ & Hc & _).
  apply loop_total with (I := remove_inv mb k mx L b (b + s)) (m := fun '(mb, i) => used_cnt (get_type mb k) - i).
  - intros st. apply remove_step; [lia|lia|done|done].
  - exists (get_type mb k), [], L. split_and!; try done; try lia.
    + by destruct mb, k.
    + by left.
  - rewrite (used_cnt_fill _ mx L) by (done || apply Hg). rewrite Hc, fill_zlen. lia.
Qed.

(** ** Proofs: looking up *)

(** Two entries of an array, in order, do not overlap. *)
Lemma fill_sorted L i j r s : good L -> (fill L).[i] = Some r -> (fill L).[j] = Some s -> i < j ->
  base r + size r <= base s.
Proof.
  intros [_ HS] Hi Hj Hij. destruct L as [|r0 L].
  - apply arr_get_range in Hi, Hj. rewrite fill_zlen in *. change (zlen []) with 0 in *. lia.
  - rewrite fill_cons in *. apply arr_get_Some in Hi as [Hi0 Hi], Hj as [Hj0 Hj].
    rewrite <-(take_drop_middle _ _ _ Hi) in HS. apply sorted_app in HS as (_ & [_ HS]%sorted_cons & _).
    assert (Hd : drop (S (Z.to_nat i)) (r0 :: L) !! (Z.to_nat j - S (Z.to_nat i))%nat = Some s).
    { rewrite lookup_drop. rewrite <-Hj. f_equal. lia. }
    pose proof (Forall_lookup_1 _ _ _ _ HS Hd) as Hlt. unfold before in Hlt. lia.
Qed.

Lemma fill_bounds L i r : good L -> (fill L).[i] = Some r ->
  0 <= base r /\ 0 <= size r /\ base r + size r < 2 ^ 32.
Proof.
  intros [HW _] [_ Hi]%arr_get_Some. destruct L as [|r0 L].
  - destruct (Z.to_nat i) as [|n]; [|by destruct n]. cbn in Hi. injection Hi as <-. cbn. lia.
  - pose proof (Forall_lookup_1 _ _ _ _ HW Hi) as Hw. unfold wf_region in Hw. lia.
Qed.

Lemma cover_get L x : covers L x <-> exists i r, L.[i] = Some r /\ in_region r x.
Proof.
  split.
  - intros (r & Hr & Hx). apply list_elem_of_lookup in Hr as [i Hi]. exists (Z.of_nat i), r.
    by rewrite arr_get_nat, Nat2Z.id by lia.
  - intros (i & r & [_ Hi]%arr_get_Some & Hx). exists r. split; [|done]. by eapply list_elem_of_lookup_2.
Qed.

Section Lookup.
Context (t : memblock_type) (mx : Z) (L : list memblock_region) (Ht : holds t mx L) (Hmx : mx < 2 ^ 28).

Lemma regions_get i : 0 <= i < cnt t -> exists r, (regions t).[i] = Some r /\ (fill L).[i] = Some r /\
  0 <= base r /\ 0 <= size r /\ base r + size r < 2 ^ 32.
Proof using Ht.
  intros Hi. destruct Ht as (Ha & Hg & _). pose proof Ha as (_ & Hc & _).
  destruct (arr_get_is_Some (fill L) i) as [r Hr]; [lia|]. exists r.
  rewrite (arr_ok_get t mx _ _ Ha) by lia. split; [done|]. split; [done|]. by eapply fill_bounds.
Qed.

Lemma type_cover x : covers L x <-> exists i r, 0 <= i < cnt t /\ (regions t).[i] = Some r /\ in_region r x.
Proof using Ht.
  pose proof Ht as (Ha & Hg & _). pose proof Ha as (_ & Hc & _). rewrite <-cover_fill, cover_get. split.
  - intros (i & r & Hi & Hx). exists i, r. apply arr_get_range in Hi as Hi'. split; [lia|].
    by rewrite (arr_ok_get t mx _ _ Ha).
  - intros (i & r & Hi & Hr & Hx). exists i, r. rewrite <-(arr_ok_get t mx _ _ Ha) by lia. done.
Qed.

Definition search_post (addr i : Z) : Prop :=
  (i = -1 /\ ~ covers L addr) \/
  (0 <= i < cnt t /\ exists r, (regions t).[i] = Some r /\ in_region r addr).

Lemma search_ok addr : exists i, memblock_search t addr = Some i /\ search_post addr i.
Proof using All.
  pose proof Ht as ((_ & Hc & Hr & _) & Hg & Hlt).
  apply loop_total with (m := fun '(l, r) => r - l)
    (I := fun '(l, r) => 0 <= l < r /\ r <= cnt t /\
       (forall i rg, 0 <= i < l -> (fill L).[i] = Some rg -> base rg + size rg <= addr) /\
       (forall i rg, r <= i -> (fill L).[i] = Some rg -> addr < base rg)); [| |lia].
  - intros [l r] (Hl & Hrc & Hlo & Hhi). split; [lia|]. unfold search_body. rewrite u32_small by lia.
    assert (Hm : l <= (r + l) / 2 < r) by zlia. set (mid := (r + l) / 2) in *. cbv zeta.
    destruct (regions_get mid) as (rg & E & Ef & Hb & Hs & He); [lia|]. rewrite E. cbn [mbind option_bind].
    rewrite u32_small by lia.
    assert (Hdone : forall l r, l >= r ->
      (forall i rg, 0 <= i < l -> (fill L).[i] = Some rg -> base rg + size rg <= addr) ->
      (forall i rg, r <= i -> (fill L).[i] = Some rg -> addr < base rg) -> search_post addr (-1)).
    { intros l' r' Hge H1 H2. left. split; [done|]. rewrite <-cover_fill, cover_get. intros (i & rg' & Hi & Hx).
      unfold in_region in Hx. apply arr_get_range in Hi as Hi'. destruct (Z.ltb_spec i l').
      - specialize (H1 i rg' ltac:(lia) Hi). lia.
      - specialize (H2 i rg' ltac:(lia) Hi). lia. }
    destruct (Z.ltb_spec addr (base rg)) as [Ha|Ha]; [|destruct (Z.leb_spec (base rg + size rg) addr) as [Ha'|Ha']].
    + assert (Hhi' : forall i rg', mid <= i -> (fill L).[i] = Some rg' -> addr < base rg').
      { intros i rg' Hi Hrg. destruct (decide (i = mid)) as [->|]; [by simplify_eq|].
        pose proof (fill_sorted L mid i rg rg' Hg Ef Hrg ltac:(lia)). lia. }
      destruct (Z.ltb_spec l mid); [|by apply (Hdone l mid); [lia|..]].
      split; [|lia]. split_and!; try done; lia.
    + assert (Hlo' : forall i rg', 0 <= i < mid + 1 -> (fill L).[i] = Some rg' -> base rg' + size rg' <= addr).
      { intros i rg' Hi Hrg. destruct (decide (i = mid)) as [->|]; [by simplify_eq|].
        pose proof (fill_sorted L i mid rg' rg Hg Hrg Ef ltac:(lia)). lia. }
      destruct (Z.ltb_spec (mid + 1) r); [|by apply (Hdone (mid + 1) r); [lia|..]].
      split; [|lia]. split_and!; try done; lia.
    + right. split; [lia|]. exists rg. split; [done|]. unfold in_region. lia.
  - split; [lia|]. split; [lia|]. split; [intros; lia|]. intros i rg Hi Hrg.
    apply arr_get_range in Hrg. lia.
Qed.

Lemma overlaps_ok b s : 0 <= b -> 0 <= s -> b + s < 2 ^ 32 ->
  exists i, memblock_overlaps_region t b s = Some i /\
    ((i = -1 /\ forall x, covers L x -> ~ b <= x < b + s) \/
     (0 <= i < cnt t /\ exists r, (regions t).[i] = Some r /\ base r < b + s)).
Proof using Ht.
  intros Hb Hs Hbs. pose proof Ht as ((_ & Hc & Hr & _) & Hg & Hlt). unfold memblock_overlaps_region.
  destruct (loop_total (overlaps_body t b s)
    (fun i => 0 <= i <= cnt t /\ forall j r, 0 <= j < i -> (regions t).[j] = Some r -> ~ (b < base r + size r /\ base r < b + s))
    (fun i => cnt t - i)
    (fun i => (i = cnt t /\ forall x, covers L x -> ~ b <= x < b + s) \/
              (0 <= i < cnt t /\ exists r, (regions t).[i] = Some r /\ base r < b + s)))
    with (bound := cnt t + 1) (s := 0) as (i & -> & Hpost); [|split; [lia|intros; lia]|lia|].
  - intros i (Hi & Hj). split; [lia|]. unfold overlaps_body. destruct (Z.ltb_spec i (cnt t)).
    + destruct (regions_get i) as (r & E & _ & Hb' & Hs' & He'); [lia|]. rewrite E. cbn [mbind option_bind].
      unfold memblock_addrs_overlap. rewrite !u32_small by lia.
      destruct (Z.ltb_spec b (base r + size r)), (Z.ltb_spec (base r) (b + s)); cbn [andb].
      1: right; split; [lia|by exists r].
      all: split; [|lia]; split; [lia|]; intros j r' Hj' Hr'; destruct (decide (j = i)) as [->|];
        [simplify_eq; lia|apply (Hj j); [lia|done]].
    + left. split; [lia|]. intros x Hx%type_cover Hin. destruct Hx as (j & r & Hj' & Hr' & Hx).
      unfold in_region in Hx. apply (Hj j r); [lia|done|lia].
  - cbn [mbind option_bind]. eexists. split; [done|]. destruct Hpost as [(-> & H)|(H & H')].
    + rewrite Z.ltb_irrefl. by left.
    + rewrite (proj2 (Z.ltb_lt i _)) by lia. by right.
Qed.
End Lookup.

(** ** Proofs: allocating *)

Lemma align_down_pow2 x a : 0 <= x < 2 ^ 32 -> 0 <= a < 32 ->
  memblock_align_down x (2 ^ a) = x - x mod 2 ^ a.
Proof.
  intros Hx Ha. assert (Hp : 0 < 2 ^ a < 2 ^ 32) by (split; [lia|apply Z.pow_lt_mono_r; lia]).
  unfold memblock_align_down. rewrite (u32_small (2 ^ a - 1)) by lia.
  replace (x - x mod 2 ^ a) with (Z.shiftl (Z.shiftr x a) a).
  2:{ rewrite Z.shiftl_mul_pow2, Z.shiftr_div_pow2 by lia. pose proof (Z.div_mod x (2 ^ a)). lia. }
  apply Z.bits_inj'. intros i Hi. testbits. destruct (Z.ltb_spec i 32).
  - destruct (Z.ltb_spec i a); rewrite (proj2 (Z.leb_le 0 i)) by lia; cbn [andb negb].
    + rewrite andb_false_r. by rewrite Z.testbit_neg_r by lia.
    + rewrite andb_true_r, Z.shiftr_spec by lia. f_equal. lia.
  - rewrite (testbit_above 32 x) by lia. cbn [andb]. rewrite Z.shiftr_spec by lia.
    by rewrite (testbit_above 32 x) by lia.
Qed.

Lemma align_up_pow2 x a : 0 <= x -> 0 <= a < 32 -> x + (2 ^ a - 1) < 2 ^ 32 ->
  x <= memblock_align_up x (2 ^ a) < x + 2 ^ a /\ memblock_align_up x (2 ^ a) mod 2 ^ a = 0.
Proof.
  intros Hx Ha Hlt. assert (Hp : 0 < 2 ^ a < 2 ^ 32) by (split; [lia|apply Z.pow_lt_mono_r; lia]).
  assert (E : memblock_align_up x (2 ^ a) = memblock_align_down (x + (2 ^ a - 1)) (2 ^ a)).
  { unfold memblock_align_up, memblock_align_down. by rewrite (u32_small (2 ^ a - 1)), (u32_small (x + _)) by lia. }
  rewrite E, align_down_pow2 by lia. set (y := x + (2 ^ a - 1)).
  pose proof (Z.mod_pos_bound y (2 ^ a) ltac:(lia)). pose proof (Z.div_mod y (2 ^ a) ltac:(lia)).
  split; [lia|]. replace (y - y mod 2 ^ a) with (y / 2 ^ a * 2 ^ a) by lia. apply Z.mod_mul. lia.
Qed.

Section Alloc.
Context (mb : memblock) (mxm mxr : Z) (Lm Lr : list memblock_region) (s a : Z).
Context (Hm : holds (memory mb) mxm Lm) (Hr : holds (reserved mb) mxr Lr).
Context (Ha : 0 <= a < 32) (Hs : 0 < s).

(** A place for [s] bytes in [lo, hi) that nothing reserved overlaps. *)
Definition free_place (lo hi b : Z) : Prop :=
  0 < b /\ lo <= b /\ b + s <= hi /\ b mod 2 ^ a = 0 /\ forall x, covers Lr x -> ~ b <= x < b + s.

Lemma align_down_bounds x : 0 <= x < 2 ^ 32 ->
  0 <= memblock_align_down x (2 ^ a) <= x /\ memblock_align_down x (2 ^ a) mod 2 ^ a = 0.
Proof using Ha.
  intros Hx. rewrite align_down_pow2 by done. pose proof (Z.mod_pos_bound x (2 ^ a) ltac:(lia)).
  pose proof (Z.div_mod x (2 ^ a) ltac:(lia)). pose proof (Z.div_pos x (2 ^ a) ltac:(lia) ltac:(lia)).
  replace (x - x mod 2 ^ a) with (x / 2 ^ a * 2 ^ a) by lia. split; [nia|]. apply Z.mod_mul. lia.
Qed.

Lemma find_region_ok start end_ : 0 <= start -> 0 <= end_ < 2 ^ 32 ->
  exists b, memblock_find_region mb start end_ s (2 ^ a) = Some b /\
    (b = MEMBLOCK_ERROR \/ free_place start end_ b).
Proof using Hr Ha Hs.
  intros Hst Hend. unfold memblock_find_region. destruct (Z.ltb_spec end_ s); [by eauto|]. cbv zeta.
  rewrite (u32_small (end_ - s)) by lia. destruct (align_down_bounds (end_ - s)) as [Hb Hal]; [lia|].
  set (start' := if start =? 0 then PAGE_SIZE else start).
  assert (Hst' : start <= start' /\ 0 < start').
  { unfold start'. destruct (Z.eqb_spec start 0); unfold PAGE_SIZE; lia. }
  apply loop_total with (m := fun b => b)
    (I := fun b => 0 <= b /\ b + s <= end_ /\ b mod 2 ^ a = 0); [|lia|lia].
  intros b (Hb0 & Hbe & Hba). split; [lia|]. unfold find_region_body. destruct (Z.leb_spec start' b); [|by left].
  destruct (overlaps_ok (reserved mb) mxr Lr Hr b s) as (j & -> & Hj); [lia..|]. cbn [mbind option_bind].
  destruct Hj as [(-> & Hfree)|(Hj & r & E & Hrb)].
  - right. split_and!; try done; lia.
  - rewrite (proj2 (Z.ltb_ge j 0)) by lia. rewrite E. cbn [mbind option_bind]. cbv zeta.
    destruct (regions_get (reserved mb) mxr Lr Hr j) as (r' & E' & _ & Hr0 & Hr1 & Hr2); [lia|].
    simplify_eq. destruct (Z.ltb_spec (base r) s); [by left|]. rewrite u32_small by lia.
    destruct (align_down_bounds (base r - s)) as [Hb' Hal']; [lia|]. split; [|lia]. split_and!; lia || done.
Qed.

Lemma find_base_ok start max_addr : 0 <= start -> 0 <= max_addr < 2 ^ 32 -> 0 <= current_limit mb < 2 ^ 32 ->
  exists b, memblock_find_base mb s (2 ^ a) start max_addr = Some b /\
    (b = MEMBLOCK_ERROR \/
     (free_place start (if max_addr =? MEMBLOCK_ALLOC_ACCESSIBLE then current_limit mb else max_addr) b /\
      forall x, b <= x < b + s -> covers Lm x)).
Proof using Hm Hr Ha Hs.
  intros Hst Hmax Hlim. unfold memblock_find_base. rewrite (proj2 (Z.eqb_neq s 0)) by lia.
  set (hi := if _ =? _ then _ else _). assert (Hhi : 0 <= hi < 2 ^ 32) by (unfold hi; case_match; lia).
  pose proof Hm as ((_ & Hc & Hcr & _) & Hg & _).
  apply loop_total with (m := fun i => i + 1) (I := fun i => -1 <= i < cnt (memory mb)); [|lia|lia].
  intros i Hi. split; [lia|]. unfold find_base_body. destruct (Z.leb_spec 0 i); [|by left].
  destruct (regions_get (memory mb) mxm Lm Hm i) as (r & E & Ef & Hb0 & Hs0 & He0); [lia|]. rewrite E.
  cbn [mbind option_bind]. cbv zeta. rewrite (u32_small (base r + size r)) by lia.
  destruct (Z.ltb_spec (size r) s); [lia|]. destruct (Z.leb_spec (base r + size r) start); [by left|].
  destruct (Z.leb_spec (Z.min (base r + size r) hi) (Z.max (base r) start)); [lia|].
  destruct (find_region_ok (Z.max (base r) start) (Z.min (base r + size r) hi)) as (b & -> & Hb); [lia..|].
  cbn [mbind option_bind]. destruct Hb as [->|(Hp & Q1 & Q2 & Q3 & Q4)]; [cbn; lia|].
  unfold MEMBLOCK_ERROR. rewrite (proj2 (Z.eqb_neq b 0)) by lia. cbn [negb]. right.
  split; [split_and!; try done; lia|]. intros x Hx. apply (type_cover (memory mb) mxm Lm Hm). exists i, r.
  split; [lia|]. split; [done|]. unfold in_region. lia.
Qed.
End Alloc.

(** ** Proofs: from the arrays to their meaning *)

Lemma wf_holds t : wf_type t -> exists L, holds t (max t) L /\ max t < 2 ^ 28 /\ live t = fill L /\
  forall x, type_covers t x <-> covers L x.
Proof.
  intros (Hc & Hl & Hm & HL).
  assert (Hz : zlen (live t) = cnt t) by (unfold live, zlen in *; rewrite length_take; lia).
  assert (exists L, live t = fill L /\ good L) as (L & E & Hg).
  { destruct HL as [HL|HL]; [exists []; split; [done|split; constructor]|]. exists (live t).
    split; [|done]. destruct (live t); [change (zlen []) with 0 in Hz; lia|done]. }
  exists L. split_and!; try done.
  - split; [|split; [done|rewrite <-E, Hz; lia]]. unfold arr_ok. rewrite <-E, Hz. split_and!; done || lia.
  - intros x. unfold type_covers. by rewrite E, cover_fill.
Qed.

Lemma holds_wf t mx L : mx < 2 ^ 28 -> holds t mx L -> wf_type t /\ forall x, type_covers t x <-> covers L x.
Proof.
  intros Hmx ((E & Hc & Hr & Hm & Hl) & Hg & Hlt). split.
  - unfold wf_type. rewrite Hm. split_and!; try lia. rewrite E. destruct L; [by left|by right].
  - intros x. unfold type_covers. by rewrite E, cover_fill.
Qed.

Definition other (k : kind) : kind := match k with Memory => Reserved | Reserved => Memory end.

Lemma get_set_other mb k t : get_type (set_type mb k t) (other k) = get_type mb (other k).
Proof. by destruct k. Qed.

Lemma fixed_no_growth slab kmalloc mb k : can_resize mb = false ->
  no_growth (memblock_double_array slab kmalloc resize_depth) mb k.
Proof.
  intros H mb' Hmb'. cbn [resize_depth memblock_double_array]. unfold double_array_step.
  by rewrite Hmb', H.
Qed.

(** There is a slot to spare, or the array may not grow. *)
Definition room_or_fixed (mb : memblock) (k : kind) : Prop :=
  cnt (get_type mb k) + 1 < max (get_type mb k) \/ can_resize mb = false.

Lemma add_region_covers slab kmalloc mb k b s : wf_type (get_type mb k) -> 0 <= b -> 0 < s -> b + s < 2 ^ 32 ->
  room_or_fixed mb k ->
  exists t err, memblock_add_region slab kmalloc mb k b s = Some (set_type mb k t, err) /\ wf_type t /\
    ((err = 0 /\ forall x, type_covers t x <-> type_covers (get_type mb k) x \/ b <= x < b + s) \/
     (err = -1 /\ cnt (get_type mb k) + 1 = max (get_type mb k) /\
      forall x, type_covers t x <-> type_covers (get_type mb k) x)).
Proof.
  intros Hwf Hb Hs Hbs Hroom. destruct (wf_holds _ Hwf) as (L & Hh & Hmx & EL & HL).
  pose proof Hh as ((_ & Hc & _) & _).
  destruct (add_region_ok (memblock_double_array slab kmalloc resize_depth) mb k (max (get_type mb k)) L b s)
    as ([mb' err] & E & t & Ht & Hres); try done.
  { destruct Hroom as [?|?]; [left; lia|right; by apply fixed_no_growth]. }
  cbn [fst snd] in *. subst mb'. exists t, err. split; [exact E|].
  destruct Hres as [(-> & L' & Hh' & Hcov)|(-> & Hfull & Hh')].
  - destruct (holds_wf t _ L' Hmx Hh') as [Hwf' Hc']. split; [done|]. left. split; [done|].
    intros x. by rewrite Hc', HL.
  - destruct (holds_wf t _ L Hmx Hh') as [Hwf' Hc']. split; [done|]. right. split; [done|].
    split; [lia|]. intros x. by rewrite Hc', HL.
Qed.

Lemma remove_covers slab kmalloc mb k b s : wf_type (get_type mb k) -> 0 <= b -> 0 <= s -> b + s < 2 ^ 32 ->
  Forall (fun r => base r <> b + s) (live (get_type mb k)) -> room_or_fixed mb k ->
  exists t err, __memblock_remove slab kmalloc mb k b s = Some (set_type mb k t, err) /\ wf_type t /\
    ((err = 0 /\ forall x, type_covers t x <-> type_covers (get_type mb k) x /\ ~ b <= x < b + s) \/
     (err = -1 /\ cnt (get_type mb k) + 1 = max (get_type mb k) /\
      forall x, type_covers t x <-> type_covers (get_type mb k) x)).
Proof.
  intros Hwf Hb Hs Hbs Hne Hroom. destruct (wf_holds _ Hwf) as (L & Hh & Hmx & EL & HL).
  pose proof Hh as ((_ & Hc & _) & _).
  destruct (remove_region_ok (memblock_double_array slab kmalloc resize_depth) mb k (max (get_type mb k)) L b s)
    as ([mb' err] & E & t & Ht & Hres); try done.
  { rewrite EL in Hne. by destruct L. }
  { destruct Hroom as [?|?]; [left; lia|right; by apply fixed_no_growth]. }
  cbn [fst snd] in *. subst mb'. exists t, err. split; [exact E|].
  destruct Hres as [(-> & L' & Hh' & Hcov)|(-> & Hfull & Hh')].
  - destruct (holds_wf t _ L' Hmx Hh') as [Hwf' Hc']. split; [done|]. left. split; [done|].
    intros x. by rewrite Hc', HL.
  - destruct (holds_wf t _ L Hmx Hh') as [Hwf' Hc']. split; [done|]. right. split; [done|].
    split; [lia|]. intros x. by rewrite Hc', HL.
Qed.

Lemma init_type_wf : wf_type init_type /\ forall x, ~ type_covers init_type x.
Proof.
  split.
  { split; [by vm_compute|]. split; [by vm_compute|]. split; [by vm_compute|]. left. reflexivity. }
  intros x (r & Hr & Hx). change (live init_type) with empty_array in Hr.
  apply list_elem_of_singleton in Hr as ->. unfold in_region in Hx. cbn in Hx. lia.
Qed.

Lemma alloc_base_covers slab kmalloc mb s a max_addr :
  wf_type (memory mb) -> wf_type (reserved mb) -> room_or_fixed mb Reserved ->
  0 < s -> 0 <= a < 32 -> s + (2 ^ a - 1) < 2 ^ 32 -> 0 <= max_addr < 2 ^ 32 -> 0 <= current_limit mb < 2 ^ 32 ->
  exists t p, __memblock_alloc_base slab kmalloc mb s (2 ^ a) max_addr = Some (set_type mb Reserved t, p) /\
    wf_type t /\
    (p <> 0 -> exists n, s <= n < s + 2 ^ a /\ n mod 2 ^ a = 0 /\ p mod 2 ^ a = 0 /\
       p + n <= (if max_addr =? MEMBLOCK_ALLOC_ACCESSIBLE then current_limit mb else max_addr) /\
       forall x, p <= x < p + n -> type_covers (memory mb) x /\ ~ type_covers (reserved mb) x /\ type_covers t x).
Proof.
  intros Hwm Hwr Hroom Hs Ha Hfit Hmax Hlim. unfold __memblock_alloc_base. cbv zeta.
  destruct (align_up_pow2 s a) as [Hn Hna]; [lia|done|done|]. set (n := memblock_align_up s (2 ^ a)) in *.
  destruct (wf_holds _ Hwm) as (Lm & Hm & _ & _ & Hcm). destruct (wf_holds _ Hwr) as (Lr & Hr & _ & _ & Hcr).
  assert (Hself : set_type mb Reserved (reserved mb) = mb) by by destruct mb.
  destruct (find_base_ok mb _ _ Lm Lr n a Hm Hr Ha ltac:(lia) 0 max_addr) as (p & -> & Hp); [lia|done|done|].
  cbn [mbind option_bind]. destruct Hp as [->|((Hp0 & _ & Hhi & Hal & Hfree) & Hmem)].
  { exists (reserved mb), 0. rewrite Hself. done. }
  unfold MEMBLOCK_ERROR. rewrite (proj2 (Z.eqb_neq p 0)) by lia. cbn [negb].
  destruct (add_region_covers slab kmalloc mb Reserved p n) as (t & err & -> & Hwt & Hres); try done; try lia.
  { destruct (max_addr =? _); lia. }
  cbn [mbind option_bind]. destruct Hres as [(-> & Hcov)|(-> & _ & _)].
  - exists t, p. split; [done|]. split; [done|]. intros _. exists n. split_and!; try done; try lia.
    intros x Hx. rewrite Hcm, Hcr, Hcov. split_and!; [by apply Hmem| |by right].
    intros Hx'. by apply (Hfree x).
  - exists t, 0. split; [done|]. split; [done|]. done.
Qed.

(** A filled array that is empty but for the filler is never left by the
    loop that cuts the reserved regions down. *)
Lemma limit_reserved_filler limit t : 1 <= zlen (regions t) -> cnt t = 1 -> (regions t).[0] = Some (mk_region 0 0) ->
  exists t', limit_reserved_body limit (t, 0) = Some (Next (t', 0)) /\
    1 <= zlen (regions t') /\ cnt t' = 1 /\ (regions t').[0] = Some (mk_region 0 0).
Proof.
  intros Hl Hc H0. unfold limit_reserved_body. rewrite Hc, H0. cbn [mbind option_bind Z.ltb Z.compare].
  set (p := if limit <? base (mk_region 0 0) then _ else _).
  assert (Hp0 : p = mk_region 0 0).
  { unfold p. cbn [base size]. change (u32 (0 + 0)) with 0. by destruct (Z.ltb_spec limit 0). }
  rewrite Hp0. rewrite arr_set_Some by lia. cbn [mbind option_bind size Z.eqb].
  unfold memblock_remove_region. cbn [cnt regions set_regions set_cnt max place]. rewrite Hc.
  assert (E : loop (remove_region_body 1) (1 + 1) (<[Z.to_nat 0 := mk_region 0 0]> (regions t), 0) =
    Some (<[Z.to_nat 0 := mk_region 0 0]> (regions t))) by done.
  rewrite E. cbn [mbind option_bind cnt regions set_regions set_cnt max place]. change (1 - 1 =? 0) with true. cbv iota.
  rewrite arr_set_Some by (rewrite zlen_insert; lia). cbn [mbind option_bind]. eexists. split; [done|].
  cbn [cnt regions set_regions set_cnt max place]. rewrite !zlen_insert. split; [done|]. split; [done|].
  by rewrite arr_get_insert, decide_True by (rewrite ?zlen_insert; lia).
Qed.

(** ** The properties of the component *)

(** A machine that has called [memblock_init] and registered 256 MiB of
    memory and the first 16 MiB of it as reserved. *)
Definition booted : memblock :=
  mk_memblock MEMBLOCK_ALLOC_ANYWHERE 0
    (mk_type 1 128 (mk_region 0 0x10000000 :: replicate 128 (mk_region 0 0)) init_regions)
    (mk_type 1 128 (mk_region 0 0x01000000 :: replicate 128 (mk_region 0 0)) init_regions) false.

Lemma booted_wf k : wf_type (get_type booted k).
Proof.
  destruct k; (split; [by vm_compute|]); (split; [by vm_compute|]); (split; [by vm_compute|]); right;
    (split; [repeat constructor; cbn; lia|repeat constructor]).
Qed.

(** C5: adding a region to [memory] or [reserved] ([memblock_add],
    [memblock_reserve]) keeps the array sorted, disjoint and coalesced,
    leaves the other array alone, and makes it cover exactly what it covered
    and the region; or, when the array is full and may not grow, reports an
    error and covers what it covered. *)
Theorem memblock_add_region_covers slab kmalloc mb k b s :
  wf_type (get_type mb k) -> 0 <= b -> 0 < s -> b + s < 2 ^ 32 -> room_or_fixed mb k ->
  exists t err, memblock_add_region slab kmalloc mb k b s = Some (set_type mb k t, err) /\ wf_type t /\
    ((err = 0 /\ forall x, type_covers t x <-> type_covers (get_type mb k) x \/ b <= x < b + s) \/
     (err = -1 /\ cnt (get_type mb k) + 1 = max (get_type mb k) /\
      forall x, type_covers t x <-> type_covers (get_type mb k) x)).
Proof. apply add_region_covers. Qed.

Lemma memblock_add_region_covers_witness :
  exists t err, memblock_add_region false (fun _ => None) booted Reserved 0x00800000 0x01000000 =
      Some (set_type booted Reserved t, err) /\ wf_type t /\
    ((err = 0 /\ forall x, type_covers t x <-> type_covers (get_type booted Reserved) x \/
        0x00800000 <= x < 0x00800000 + 0x01000000) \/
     (err = -1 /\ cnt (get_type booted Reserved) + 1 = max (get_type booted Reserved) /\
      forall x, type_covers t x <-> type_covers (get_type booted Reserved) x)).
Proof.
  apply (memblock_add_region_covers false (fun _ => None) booted Reserved 0x00800000 0x01000000);
    [apply (booted_wf Reserved)|lia|lia|lia|left; by vm_compute].
Defined.

(** C38: removing a region ([memblock_remove], [memblock_free]) keeps the
    array sorted, disjoint and coalesced and makes it cover exactly what it
    covered outside the region, provided no region begins where the removed
    one ends; or, when a region has to be split and the array is full, it
    reports an error and covers what it covered. *)
Theorem memblock_remove_covers slab kmalloc mb k b s :
  wf_type (get_type mb k) -> 0 <= b -> 0 <= s -> b + s < 2 ^ 32 ->
  Forall (fun r => base r <> b + s) (live (get_type mb k)) -> room_or_fixed mb k ->
  exists t err, __memblock_remove slab kmalloc mb k b s = Some (set_type mb k t, err) /\ wf_type t /\
    ((err = 0 /\ forall x, type_covers t x <-> type_covers (get_type mb k) x /\ ~ b <= x < b + s) \/
     (err = -1 /\ cnt (get_type mb k) + 1 = max (get_type mb k) /\
      forall x, type_covers t x <-> type_covers (get_type mb k) x)).
Proof. apply remove_covers. Qed.

Lemma memblock_remove_covers_witness :
  exists t err, __memblock_remove false (fun _ => None) booted Memory 0x00400000 0x00100000 =
      Some (set_type booted Memory t, err) /\ wf_type t /\
    ((err = 0 /\ forall x, type_covers t x <-> type_covers (get_type booted Memory) x /\
        ~ 0x00400000 <= x < 0x00400000 + 0x00100000) \/
     (err = -1 /\ cnt (get_type booted Memory) + 1 = max (get_type booted Memory) /\
      forall x, type_covers t x <-> type_covers (get_type booted Memory) x)).
Proof.
  apply (memblock_remove_covers false (fun _ => None) booted Memory 0x00400000 0x00100000);
    [apply (booted_wf Memory)|lia|lia|lia|repeat constructor; cbn; lia|left; by vm_compute].
Defined.

(** freeing a range that ends where a reserved region begins does not
    leave that region alone: its size wraps around, and the region comes to
    cover almost the whole address space. *)
Theorem memblock_free_adjacent_corrupts :
  exists mb, memblock_free false (fun _ => None)
      (set_type booted Reserved (mk_type 1 128 (mk_region 0x2000 0x1000 :: replicate 128 (mk_region 0 0)) init_regions))
      0x1000 0x1000 = Some (mb, 0) /\
    live (reserved mb) = [mk_region 0x2000 0xfffff000].
Proof. eexists. split; vm_compute; reflexivity. Qed.

(** [memblock_is_memory] and [memblock_is_reserved] (the binary search
    [memblock_search]) answer whether the array covers the address. *)
Theorem memblock_search_decides mb addr :
  wf_type (memory mb) -> wf_type (reserved mb) ->
  exists m r, memblock_is_memory mb addr = Some m /\ (m = true <-> type_covers (memory mb) addr) /\
    memblock_is_reserved mb addr = Some r /\ (r = true <-> type_covers (reserved mb) addr).
Proof.
  assert (Hs : forall t, wf_type t -> exists i, memblock_search t addr = Some i /\
    (negb (i =? -1) = true <-> type_covers t addr)).
  { intros t Hwf. destruct (wf_holds t Hwf) as (L & Hh & Hmx & _ & HL).
    destruct (search_ok t (max t) L Hh Hmx addr) as (i & E & Hi). exists i. split; [done|]. rewrite HL.
    destruct Hi as [(-> & Hn)|(Hi & r & Hr & Hx)]; [done|].
    rewrite (proj2 (Z.eqb_neq i (-1))) by lia. split; [|done]. intros _.
    apply (type_cover t (max t) L Hh). eauto. }
  intros Hm Hr. destruct (Hs _ Hm) as (i & Ei & Hi). destruct (Hs _ Hr) as (j & Ej & Hj).
  exists (negb (i =? -1)), (negb (j =? -1)). unfold memblock_is_memory, memblock_is_reserved.
  rewrite Ei, Ej. done.
Qed.

Lemma memblock_search_decides_witness :
  exists m r, memblock_is_memory booted 0x02000000 = Some m /\ (m = true <-> type_covers (memory booted) 0x02000000) /\
    memblock_is_reserved booted 0x02000000 = Some r /\ (r = true <-> type_covers (reserved booted) 0x02000000).
Proof.
  apply (memblock_search_decides booted 0x02000000); [apply (booted_wf Memory)|apply (booted_wf Reserved)].
Defined.

(** C20: an address [__memblock_alloc_base] returns is aligned, the bytes
    from it on lie in memory below the limit, were not reserved, and are
    reserved afterwards; nothing else in the map changes but [reserved]. *)
Theorem memblock_alloc_base_sound slab kmalloc mb s a max_addr :
  wf_type (memory mb) -> wf_type (reserved mb) -> room_or_fixed mb Reserved ->
  0 < s -> 0 <= a < 32 -> s + (2 ^ a - 1) < 2 ^ 32 -> 0 <= max_addr < 2 ^ 32 -> 0 <= current_limit mb < 2 ^ 32 ->
  exists t p, __memblock_alloc_base slab kmalloc mb s (2 ^ a) max_addr = Some (set_type mb Reserved t, p) /\
    wf_type t /\
    (p <> 0 -> exists n, s <= n < s + 2 ^ a /\ n mod 2 ^ a = 0 /\ p mod 2 ^ a = 0 /\
       p + n <= (if max_addr =? MEMBLOCK_ALLOC_ACCESSIBLE then current_limit mb else max_addr) /\
       forall x, p <= x < p + n -> type_covers (memory mb) x /\ ~ type_covers (reserved mb) x /\ type_covers t x).
Proof. apply alloc_base_covers. Qed.

Lemma memblock_alloc_base_sound_witness :
  exists t p, __memblock_alloc_base false (fun _ => None) booted 100 (2 ^ 5) 0 = Some (set_type booted Reserved t, p) /\
    wf_type t /\
    (p <> 0 -> exists n, 100 <= n < 100 + 2 ^ 5 /\ n mod 2 ^ 5 = 0 /\ p mod 2 ^ 5 = 0 /\
       p + n <= (if 0 =? MEMBLOCK_ALLOC_ACCESSIBLE then current_limit booted else 0) /\
       forall x, p <= x < p + n -> type_covers (memory booted) x /\ ~ type_covers (reserved booted) x /\ type_covers t x).
Proof.
  apply (memblock_alloc_base_sound false (fun _ => None) booted 100 5 0);
    [apply (booted_wf Memory)|apply (booted_wf Reserved)|left; by vm_compute|lia|lia|lia|lia|by vm_compute].
Defined.

(** The allocation of the witness succeeds, at the top of memory. *)
Example memblock_alloc_run :
  (fun r : memblock * Z => (snd r, live (reserved (fst r)))) <$> memblock_alloc false (fun _ => None) booted 100 32 =
    Some (0x0fffff80, [mk_region 0 0x01000000; mk_region 0x0fffff80 0x80]).
Proof. vm_compute. reflexivity. Qed.

(** A full array that may grow moves to memory it reserves for itself. *)
Example memblock_double_run :
  let mb := mk_memblock MEMBLOCK_ALLOC_ANYWHERE 0 (memory booted)
              (mk_type 1 2 [mk_region 0x1000 0x1000; mk_region 0 0; mk_region 0 0] init_regions) true in
  (fun r : memblock * Z => (snd r, max (reserved (fst r)), place (reserved (fst r)), live (reserved (fst r)))) <$>
    memblock_reserve false (fun _ => None) mb 0x8000 0x1000 =
    Some (0, 4, allocated 0x0fffffe0, [mk_region 0x1000 0x1000; mk_region 0x8000 0x1000; mk_region 0x0fffffe0 0x20]).
Proof. vm_compute. reflexivity. Qed.

(** when nothing is reserved, the loop of [memblock_enforce_memory_limit]
    that cuts the reserved regions down never ends: removing the filler of an
    empty array puts the filler back. *)
Theorem memblock_enforce_memory_limit_diverges memory_limit bound :
  loop (limit_reserved_body memory_limit) bound (reserved (memblock_init booted), 0) = None.
Proof.
  apply (loop_diverges (limit_reserved_body memory_limit) (fun '(t, i) => i = 0 /\ 1 <= zlen (regions t) /\
    cnt t = 1 /\ (regions t).[0] = Some (mk_region 0 0))); [|by vm_compute].
  intros [t i] (-> & Hl & Hc & H0). destruct (limit_reserved_filler memory_limit t Hl Hc H0) as (t' & E & H).
  by exists (t', 0).
Qed.
