(* ===== verification/CString.v ===== *)
(** * Strings and memory areas: lib/string.c, lib/ctype.c

    A pointer that is only read or written forwards is the list of the bytes
    from it to the end of its buffer, so that [*p++] takes the head of the
    list and the end of the list is the end of the buffer: a function that
    reaches it has no result ([None]).  A pointer that a function returns into
    its argument is the offset of the byte it points to, and [NULL] is [None]
    inside the [option] of the result.  A buffer that is written is returned.
    [char] is unsigned on ARM; every byte is between 0 and 255.

    The theorems relate each function to the string [t] that the buffer
    [t ++ 0 :: rest] holds, whatever follows the terminator. *)

From S2P Require Import Prelude.

(** ** include/linux/ctype.h and lib/ctype.c *)

Definition _U : Z := 0x01.
Definition _L : Z := 0x02.
Definition _D : Z := 0x04.
Definition _C : Z := 0x08.
Definition _P : Z := 0x10.
Definition _S : Z := 0x20.
Definition _X : Z := 0x40.
Definition _SP : Z := 0x80.

Definition _ctype : list Z :=
  let CS := Z.lor _C _S in
  let SSP := Z.lor _S _SP in
  let UX := Z.lor _U _X in
  let LX := Z.lor _L _X in
  [_C; _C; _C; _C; _C; _C; _C; _C;
   _C; CS; CS; CS; CS; CS; _C; _C;
   _C; _C; _C; _C; _C; _C; _C; _C;
   _C; _C; _C; _C; _C; _C; _C; _C;
   SSP; _P; _P; _P; _P; _P; _P; _P;
   _P; _P; _P; _P; _P; _P; _P; _P;
   _D; _D; _D; _D; _D; _D; _D; _D;
   _D; _D; _P; _P; _P; _P; _P; _P;
   _P; UX; UX; UX; UX; UX; UX; _U;
   _U; _U; _U; _U; _U; _U; _U; _U;
   _U; _U; _U; _U; _U; _U; _U; _U;
   _U; _U; _U; _P; _P; _P; _P; _P;
   _P; LX; LX; LX; LX; LX; LX; _L;
   _L; _L; _L; _L; _L; _L; _L; _L;
   _L; _L; _L; _L; _L; _L; _L; _L;
   _L; _L; _L; _P; _P; _P; _P; _C;
   0; 0; 0; 0; 0; 0; 0; 0; 0; 0; 0; 0; 0; 0; 0; 0;
   0; 0; 0; 0; 0; 0; 0; 0; 0; 0; 0; 0; 0; 0; 0; 0;
   SSP; _P; _P; _P; _P; _P; _P; _P; _P; _P; _P; _P; _P; _P; _P; _P;
   _P; _P; _P; _P; _P; _P; _P; _P; _P; _P; _P; _P; _P; _P; _P; _P;
   _U; _U; _U; _U; _U; _U; _U; _U; _U; _U; _U; _U; _U; _U; _U; _U;
   _U; _U; _U; _U; _U; _U; _U; _P; _U; _U; _U; _U; _U; _U; _U; _L;
   _L; _L; _L; _L; _L; _L; _L; _L; _L; _L; _L; _L; _L; _L; _L; _L;
   _L; _L; _L; _L; _L; _L; _L; _P; _L; _L; _L; _L; _L; _L; _L; _L].

(** The index is reduced to a byte, so the access is always in the table. *)
Definition __ismask (x : Z) : Z := default 0 _ctype.[u8 x].

Definition isdigit (c : Z) : bool := truth (Z.land (__ismask c) _D).
Definition isspace (c : Z) : bool := truth (Z.land (__ismask c) _S).
Definition isupper (c : Z) : bool := truth (Z.land (__ismask c) _U).
Definition islower (c : Z) : bool := truth (Z.land (__ismask c) _L).
Definition isalpha (c : Z) : bool := truth (Z.land (__ismask c) (Z.lor _U _L)).
Definition isalnum (c : Z) : bool := truth (Z.land (__ismask c) (Z.lor (Z.lor _U _L) _D)).
Definition isxdigit (c : Z) : bool := truth (Z.land (__ismask c) (Z.lor _D _X)).

Definition __tolower (c : Z) : Z := if isupper c then u8 (c - (65 - 97)) else c.
Definition __toupper (c : Z) : Z := if islower c then u8 (c - (97 - 65)) else c.
Definition tolower (c : Z) : Z := __tolower (u8 c).
Definition toupper (c : Z) : Z := __toupper (u8 c).

(** For ASCII letters and digits only; [c] is a byte. *)
Definition _tolower (c : Z) : Z := Z.lor c 0x20.

(** ** Comparison *)

Fixpoint strnicmp_do (s1 s2 : list Z) (len : Z) : option Z :=
  match s1, s2 with
  | c1 :: s1', c2 :: s2' =>
      let len' := ulong (len - 1) in
      if (c1 =? 0) || (c2 =? 0) then Some (c1 - c2)
      else if c1 =? c2 then
        if truth len' then strnicmp_do s1' s2' len' else Some (c1 - c2)
      else
        let c1 := tolower c1 in
        let c2 := tolower c2 in
        if negb (c1 =? c2) then Some (c1 - c2)
        else if truth len' then strnicmp_do s1' s2' len' else Some (c1 - c2)
  | _, _ => None
  end.

Definition strnicmp (s1 s2 : list Z) (len : Z) : option Z :=
  if negb (truth len) then Some 0 else strnicmp_do s1 s2 len.

Fixpoint strcasecmp (s1 s2 : list Z) : option Z :=
  match s1, s2 with
  | x1 :: s1', x2 :: s2' =>
      let c1 := tolower x1 in
      let c2 := tolower x2 in
      if (c1 =? c2) && negb (c1 =? 0) then strcasecmp s1' s2' else Some (c1 - c2)
  | _, _ => None
  end.

Fixpoint strncasecmp (s1 s2 : list Z) (n : Z) : option Z :=
  match s1, s2 with
  | x1 :: s1', x2 :: s2' =>
      let c1 := tolower x1 in
      let c2 := tolower x2 in
      let n' := ulong (n - 1) in
      if (0 <? n') && (c1 =? c2) && negb (c1 =? 0) then strncasecmp s1' s2' n' else Some (c1 - c2)
  | _, _ => None
  end.

Fixpoint strcmp (cs ct : list Z) : option Z :=
  match cs, ct with
  | c1 :: cs', c2 :: ct' =>
      if negb (c1 =? c2) then Some (if c1 <? c2 then -1 else 1)
      else if c1 =? 0 then Some 0
      else strcmp cs' ct'
  | _, _ => None
  end.

Fixpoint strncmp (cs ct : list Z) (count : Z) : option Z :=
  if count =? 0 then Some 0
  else
    match cs, ct with
    | c1 :: cs', c2 :: ct' =>
        if negb (c1 =? c2) then Some (if c1 <? c2 then -1 else 1)
        else if c1 =? 0 then Some 0
        else strncmp cs' ct' (count - 1)
    | _, _ => None
    end.

Fixpoint memcmp (cs ct : list Z) (count : Z) : option Z :=
  if 0 <? count then
    match cs, ct with
    | c1 :: cs', c2 :: ct' =>
        let res := c1 - c2 in
        if truth res then Some res else memcmp cs' ct' (count - 1)
    | _, _ => None
    end
  else Some 0.

Fixpoint sysfs_streq (s1 s2 : list Z) : option bool :=
  match s1, s2 with
  | c1 :: s1', c2 :: s2' =>
      if negb (c1 =? 0) && (c1 =? c2) then sysfs_streq s1' s2'
      else if c1 =? c2 then Some true
      else if (c1 =? 0) && (c2 =? 10) then
        n ← head s2';
        if n =? 0 then Some true else Some false
      else if c1 =? 10 then
        n ← head s1';
        Some ((n =? 0) && (c2 =? 0))
      else Some false
  | _, _ => None
  end.

(** ** Length and copying *)

Fixpoint strlen_from (sc : list Z) (n : Z) : option Z :=
  match sc with
  | c :: sc' => if c =? 0 then Some n else strlen_from sc' (n + 1)
  | [] => None
  end.
Definition strlen (s : list Z) : option Z := strlen_from s 0.

Fixpoint strnlen_from (sc : list Z) (count n : Z) : option Z :=
  if count =? 0 then Some n
  else
    match sc with
    | c :: sc' => if c =? 0 then Some n else strnlen_from sc' (count - 1) (n + 1)
    | [] => None
    end.
Definition strnlen (s : list Z) (count : Z) : option Z := strnlen_from s count 0.

Fixpoint memset (xs : list Z) (c count : Z) : option (list Z) :=
  if count =? 0 then Some xs
  else
    match xs with
    | _ :: xs' => r ← memset xs' c (count - 1); Some (u8 c :: r)
    | [] => None
    end.

Fixpoint memcpy (tmp s : list Z) (count : Z) : option (list Z) :=
  if count =? 0 then Some tmp
  else
    match tmp, s with
    | _ :: tmp', c :: s' => r ← memcpy tmp' s' (count - 1); Some (c :: r)
    | _, _ => None
    end.

(** A write through the pointer [p + off] into the buffer [p]. *)
Definition at_off (p : list Z) (off : Z) (f : list Z -> option (list Z)) : option (list Z) :=
  if (0 <=? off) && (off <=? zlen p) then
    r ← f (drop (Z.to_nat off) p); Some (take (Z.to_nat off) p ++ r)
  else None.

(** The two areas may overlap: they are offsets [tmp] and [s] into one buffer. *)
Definition memmove_up_body (st : list Z * Z * Z * Z) : option (step (list Z * Z * Z * Z) (list Z)) :=
  let '(m, tmp, s, count) := st in
  if count =? 0 then Some (Done m)
  else c ← m.[s]; m' ← m.[tmp <- c]; Some (Next (m', tmp + 1, s + 1, count - 1)).

Definition memmove_down_body (st : list Z * Z * Z * Z) : option (step (list Z * Z * Z * Z) (list Z)) :=
  let '(m, tmp, s, count) := st in
  if count =? 0 then Some (Done m)
  else c ← m.[s - 1]; m' ← m.[tmp - 1 <- c]; Some (Next (m', tmp - 1, s - 1, count - 1)).

Definition memmove (m : list Z) (dest src count : Z) : option (list Z) :=
  if dest <=? src then loop memmove_up_body (count + 1) (m, dest, src, count)
  else loop memmove_down_body (count + 1) (m, dest + count, src + count, count).

Fixpoint strcpy (dest src : list Z) : option (list Z) :=
  match dest, src with
  | _ :: dest', c :: src' =>
      if c =? 0 then Some (c :: dest') else r ← strcpy dest' src'; Some (c :: r)
  | _, _ => None
  end.

Fixpoint strncpy (tmp src : list Z) (count : Z) : option (list Z) :=
  if count =? 0 then Some tmp
  else
    match tmp, src with
    | _ :: tmp', c :: src' =>
        r ← strncpy tmp' (if negb (c =? 0) then src' else src) (count - 1); Some (c :: r)
    | _, _ => None
    end.

Definition strlcpy (dest src : list Z) (size : Z) : option (list Z * Z) :=
  ret ← strlen src;
  if truth size then
    let len := if size <=? ret then size - 1 else ret in
    dest ← memcpy dest src len;
    dest ← dest.[len <- 0];
    Some (dest, ret)
  else Some (dest, ret).

Fixpoint strcat (dest src : list Z) : option (list Z) :=
  match dest with
  | d :: dest' => if d =? 0 then strcpy dest src else r ← strcat dest' src; Some (d :: r)
  | [] => None
  end.

Fixpoint strncat_copy (dest src : list Z) (count : Z) : option (list Z) :=
  match dest, src with
  | _ :: dest', c :: src' =>
      if c =? 0 then Some (c :: dest')
      else if ulong (count - 1) =? 0 then
        dest' ← dest'.[0 <- 0]; Some (c :: dest')
      else r ← strncat_copy dest' src' (ulong (count - 1)); Some (c :: r)
  | _, _ => None
  end.

Fixpoint strncat_end (dest src : list Z) (count : Z) : option (list Z) :=
  match dest with
  | d :: dest' => if d =? 0 then strncat_copy dest src count else r ← strncat_end dest' src count; Some (d :: r)
  | [] => None
  end.
Definition strncat (dest src : list Z) (count : Z) : option (list Z) :=
  if truth count then strncat_end dest src count else Some dest.

Definition strlcat (dest src : list Z) (count : Z) : option (list Z * Z) :=
  dsize ← strlen dest;
  len ← strlen src;
  let res := ulong (dsize + len) in
  if count <=? dsize then None
  else
    let count' := count - dsize in
    let len := if count' <=? len then count' - 1 else len in
    dest ← at_off dest dsize (fun p => p ← memcpy p src len; p.[len <- 0]);
    Some (dest, res).

(** ** Searching: the offset of the byte found, from the start of the area *)

Fixpoint strchr_from (s : list Z) (c off : Z) : option (option Z) :=
  match s with
  | x :: s' =>
      if negb (x =? u8 c) then if x =? 0 then Some None else strchr_from s' c (off + 1)
      else Some (Some off)
  | [] => None
  end.
Definition strchr (s : list Z) (c : Z) : option (option Z) := strchr_from s c 0.

Definition strrchr_body (s : list Z) (c : Z) (p : Z) : option (step Z (option Z)) :=
  x ← s.[p];
  if x =? u8 c then Some (Done (Some p))
  else if 0 <=? p - 1 then Some (Next (p - 1))
  else Some (Done None).
Definition strrchr (s : list Z) (c : Z) : option (option Z) :=
  n ← strlen s;
  loop (strrchr_body s c) (n + 1) n.

Fixpoint strnchr_from (s : list Z) (count c off : Z) : option (option Z) :=
  if count =? 0 then Some None
  else
    match s with
    | x :: s' =>
        if x =? 0 then Some None
        else if x =? u8 c then Some (Some off)
        else strnchr_from s' (count - 1) c (off + 1)
    | [] => None
    end.
Definition strnchr (s : list Z) (count c : Z) : option (option Z) := strnchr_from s count c 0.

Fixpoint skip_spaces_from (str : list Z) (off : Z) : option Z :=
  match str with
  | c :: str' => if isspace c then skip_spaces_from str' (off + 1) else Some off
  | [] => None
  end.
Definition skip_spaces (str : list Z) : option Z := skip_spaces_from str 0.

(** [s] and [end] are offsets into the buffer [m]. *)
Definition strim_body (m : list Z) (s : Z) (end_ : Z) : option (step Z Z) :=
  if s <=? end_ then
    c ← m.[end_];
    if isspace c then Some (Next (end_ - 1)) else Some (Done end_)
  else Some (Done end_).
Definition strim (m : list Z) : option (list Z * Z) :=
  s ← skip_spaces m;
  size ← strlen (drop (Z.to_nat s) m);
  if negb (truth size) then Some (m, s)
  else
    let end_ := s + size - 1 in
    end_ ← loop (strim_body m s) (size + 2) end_;
    m ← m.[end_ + 1 <- 0];
    Some (m, s).

(** The scan of the set [a] for the byte [x]: whether it stops before the
    terminator. *)
Fixpoint scan_set (a : list Z) (x : Z) : option bool :=
  match a with
  | y :: a' => if y =? 0 then Some false else if x =? y then Some true else scan_set a' x
  | [] => None
  end.

Fixpoint strspn_from (p accept : list Z) (count : Z) : option Z :=
  match p with
  | x :: p' =>
      if x =? 0 then Some count
      else
        found ← scan_set accept x;
        if negb found then Some count else strspn_from p' accept (count + 1)
  | [] => None
  end.
Definition strspn (s accept : list Z) : option Z := strspn_from s accept 0.

Fixpoint strcspn_from (p reject : list Z) (count : Z) : option Z :=
  match p with
  | x :: p' =>
      if x =? 0 then Some count
      else
        found ← scan_set reject x;
        if (found : bool) then Some count else strcspn_from p' reject (count + 1)
  | [] => None
  end.
Definition strcspn (s reject : list Z) : option Z := strcspn_from s reject 0.

Fixpoint strpbrk_from (sc1 ct : list Z) (off : Z) : option (option Z) :=
  match sc1 with
  | x :: sc1' =>
      if x =? 0 then Some None
      else
        found ← scan_set ct x;
        if (found : bool) then Some (Some off) else strpbrk_from sc1' ct (off + 1)
  | [] => None
  end.
Definition strpbrk (cs ct : list Z) : option (option Z) := strpbrk_from cs ct 0.

(** The buffer [m], the caller's pointer [*s] into it and the token returned. *)
Definition strsep (m : list Z) (s : option Z) (ct : list Z) : option (list Z * option Z * option Z) :=
  match s with
  | None => Some (m, None, None)
  | Some sbegin =>
      end_ ← strpbrk (drop (Z.to_nat sbegin) m) ct;
      match end_ with
      | Some e => m ← m.[sbegin + e <- 0]; Some (m, Some (sbegin + e + 1), Some sbegin)
      | None => Some (m, None, Some sbegin)
      end
  end.

(** The error code and the value left in [*res]. *)
Definition strtobool (s : list Z) (res : bool) : option (Z * bool) :=
  c ← head s;
  if (c =? 121) || (c =? 89) || (c =? 49) then Some (0, true)
  else if (c =? 110) || (c =? 78) || (c =? 48) then Some (0, false)
  else Some (- EINVAL, res).

Fixpoint memscan_from (p : list Z) (c size off : Z) : option Z :=
  if size =? 0 then Some off
  else
    match p with
    | x :: p' => if x =? c then Some off else memscan_from p' c (size - 1) (off + 1)
    | [] => None
    end.
Definition memscan (addr : list Z) (c size : Z) : option Z := memscan_from addr c size 0.

Fixpoint memchr_from (p : list Z) (c n off : Z) : option (option Z) :=
  if n =? 0 then Some None
  else
    match p with
    | x :: p' => if u8 c =? x then Some (Some off) else memchr_from p' c (n - 1) (off + 1)
    | [] => None
    end.
Definition memchr (s : list Z) (c n : Z) : option (option Z) := memchr_from s c n 0.

(** The common part of strstr() and strnstr(): [l1] is the length left. *)
Fixpoint strstr_from (s1 s2 : list Z) (l1 l2 off : Z) : option (option Z) :=
  if l2 <=? l1 then
    r ← memcmp s1 s2 l2;
    if negb (truth r) then Some (Some off)
    else match s1 with
         | _ :: s1' => strstr_from s1' s2 (l1 - 1) l2 (off + 1)
         | [] => None
         end
  else Some None.

Definition strstr (s1 s2 : list Z) : option (option Z) :=
  l2 ← strlen s2;
  if negb (truth l2) then Some (Some 0)
  else l1 ← strlen s1; strstr_from s1 s2 l1 l2 0.

Definition strnstr (s1 s2 : list Z) (len : Z) : option (option Z) :=
  l2 ← strlen s2;
  if negb (truth l2) then Some (Some 0)
  else strstr_from s1 s2 len l2 0.

(** ** Specifications *)

(** A string: bytes, none of them the terminator. *)
Definition str (t : list Z) : Prop := Forall (fun c => 0 < c < 256) t.

(** The order of strcmp(): [t1] comes first at the first byte that differs,
    or by being a proper prefix. *)
Definition lex_lt (t1 t2 : list Z) : Prop :=
  exists p, (exists c u, t1 = p /\ t2 = p ++ c :: u) \/
            (exists c1 u1 c2 u2, t1 = p ++ c1 :: u1 /\ t2 = p ++ c2 :: u2 /\ c1 < c2).

(** The result of a comparison function for a three-way order. *)
Definition three_way (lt : Prop) (eq : Prop) (gt : Prop) (r : Z) : Prop :=
  (r < 0 /\ lt) \/ (r = 0 /\ eq) \/ (0 < r /\ gt).

(** [off] is the first place at which [P] holds; there is none. *)
Definition first_at (P : Z -> Prop) (n : Z) (r : option Z) : Prop :=
  match r with
  | Some off => 0 <= off < n /\ P off /\ forall i, 0 <= i < off -> ~ P i
  | None => forall i, 0 <= i < n -> ~ P i
  end.

(** What a comparison of [t1] with [t2] returns. *)
Definition cmp_res (t1 t2 : list Z) (r : Z) : Prop := three_way (lex_lt t1 t2) (t1 = t2) (lex_lt t2 t1) r.

(** [r] is the last place at which [P] holds. *)
Definition last_at (P : Z -> Prop) (n : Z) (r : option Z) : Prop :=
  match r with
  | Some off => 0 <= off < n /\ P off /\ forall i, off < i < n -> ~ P i
  | None => forall i, 0 <= i < n -> ~ P i
  end.

(** [r] is the length of the longest initial part on which [P] holds. *)
Definition span_at (P : Z -> Prop) (n r : Z) : Prop :=
  0 <= r <= n /\ (forall i, 0 <= i < r -> P i) /\ (r < n -> ~ P r).

(** The byte at [i] is in the set [a]. *)
Definition byte_in (t a : list Z) (i : Z) : Prop := exists c, t.[i] = Some c /\ c ∈ a.

(** [u] occurs in [t] at [i]. *)
Definition occurs (t u : list Z) (i : Z) : Prop := take (length u) (drop (Z.to_nat i) t) = u.

(** ** Proofs: copying *)

Lemma str_cons c t : str (c :: t) <-> 0 < c < 256 /\ str t.
Proof. apply Forall_cons_iff. Qed.

Lemma str_app t u : str (t ++ u) <-> str t /\ str u.
Proof. apply Forall_app. Qed.

Ltac str_inv :=
  repeat match goal with
  | H : str (_ :: _) |- _ => apply str_cons in H; destruct H as [? H]
  | H : str (_ ++ _) |- _ => apply str_app in H; destruct H as [? H]
  end.

Lemma nz_eqb c : 0 < c < 256 -> (c =? 0) = false.
Proof. intros. apply Z.eqb_neq. lia. Qed.

Lemma nz_eqb' c : 0 < c < 256 -> (0 =? c) = false.
Proof. intros. apply Z.eqb_neq. lia. Qed.

Lemma nz_ltb c : 0 < c < 256 -> (0 <? c) = true.
Proof. intros. apply Z.ltb_lt. lia. Qed.

Lemma nz_ltb' c : 0 < c < 256 -> (c <? 0) = false.
Proof. intros. apply Z.ltb_ge. lia. Qed.

Lemma zlen_lt_cons {A} (x : A) l n : 0 <= n -> n + 1 <= zlen (x :: l) -> n <= zlen l.
Proof. rewrite zlen_cons. lia. Qed.

Lemma strlen_from_ok t r n : str t -> strlen_from (t ++ 0 :: r) n = Some (n + zlen t).
Proof.
  revert n. induction t as [|c t IH]; intros n Ht; cbn [app strlen_from Z.eqb]; [f_equal; unfold zlen; cbn [length]; lia|].
  str_inv. rewrite nz_eqb, IH by done. rewrite zlen_cons. f_equal. lia.
Qed.

Lemma strlen_ok t r : str t -> strlen (t ++ 0 :: r) = Some (zlen t).
Proof. intros. unfold strlen. by rewrite strlen_from_ok. Qed.

Lemma strnlen_ok t r n : str t -> 0 <= n -> strnlen (t ++ 0 :: r) n = Some (n `min` zlen t).
Proof.
  intros Ht Hn. unfold strnlen. enough (H : forall k, strnlen_from (t ++ 0 :: r) n k = Some (k + n `min` zlen t)).
  { apply H. }
  revert n Hn. induction t as [|c t IH]; intros n Hn k; cbn [app strnlen_from].
  - change (0 =? 0) with true. bcase; f_equal; unfold zlen; cbn [length]; lia.
  - str_inv. bcase; [f_equal; rewrite zlen_cons; pose proof (zlen_nonneg t); lia|].
    rewrite nz_eqb, IH by (done || lia). rewrite zlen_cons. f_equal. lia.
Qed.

Lemma memcpy_ok n : forall d s, (n <= length d)%nat -> (n <= length s)%nat ->
  memcpy d s (Z.of_nat n) = Some (take n s ++ drop n d).
Proof.
  induction n as [|n IH]; intros d s Hd Hs; [by destruct d|].
  destruct d as [|x d], s as [|c s]; cbn [length] in *; try lia. cbn [memcpy].
  rewrite (proj2 (Z.eqb_neq _ _)) by lia. replace (Z.of_nat (S n) - 1) with (Z.of_nat n) by lia.
  by rewrite IH by lia.
Qed.

(** The same, byte by byte. *)
Lemma memcpy_get d s n : 0 <= n <= zlen d -> n <= zlen s ->
  exists r, memcpy d s n = Some r /\ zlen r = zlen d /\
            forall j, 0 <= j -> r.[j] = if j <? n then s.[j] else d.[j].
Proof.
  intros Hd Hs. exists (take (Z.to_nat n) s ++ drop (Z.to_nat n) d). split_and!.
  - rewrite <-(Z2Nat.id n) at 1 by lia. apply memcpy_ok; unfold zlen in *; lia.
  - rewrite zlen_app, zlen_take, zlen_drop by lia. lia.
  - intros j Hj. bcase.
    + rewrite arr_get_app_l by (rewrite zlen_take; lia). by apply arr_get_take.
    + rewrite arr_get_app_r by (rewrite zlen_take; lia). rewrite zlen_take, arr_get_drop by lia. f_equal. lia.
Qed.

Lemma at_off_get p off g r : 0 <= off <= zlen p -> g (drop (Z.to_nat off) p) = Some r -> zlen r = zlen p - off ->
  exists p', at_off p off g = Some p' /\ zlen p' = zlen p /\
             forall j, 0 <= j -> p'.[j] = if j <? off then p.[j] else r.[j - off].
Proof.
  intros Ho Hg Hr. exists (take (Z.to_nat off) p ++ r). unfold at_off.
  rewrite (proj2 (Z.leb_le 0 off)), (proj2 (Z.leb_le off _)), Hg by lia. split_and!; [done| |].
  - rewrite zlen_app, zlen_take by lia. lia.
  - intros j Hj. bcase.
    + rewrite arr_get_app_l by (rewrite zlen_take; lia). by apply arr_get_take.
    + rewrite arr_get_app_r by (rewrite zlen_take; lia). by rewrite zlen_take by lia.
Qed.

Lemma memset_ok n : forall d c, (n <= length d)%nat ->
  memset d c (Z.of_nat n) = Some (replicate n (u8 c) ++ drop n d).
Proof.
  induction n as [|n IH]; intros d c Hd; [by destruct d|].
  destruct d as [|x d]; cbn [length] in *; try lia. cbn [memset].
  rewrite (proj2 (Z.eqb_neq _ _)) by lia. replace (Z.of_nat (S n) - 1) with (Z.of_nat n) by lia.
  by rewrite IH by lia.
Qed.

Lemma strcpy_ok t r : str t -> forall d, zlen t < zlen d ->
  strcpy d (t ++ 0 :: r) = Some (t ++ 0 :: drop (S (length t)) d).
Proof.
  induction t as [|c t IH]; intros Ht [|x d] Hd; unfold zlen in Hd; cbn [length] in Hd; try lia.
  - done.
  - str_inv. cbn [app strcpy length drop]. rewrite nz_eqb, IH by (done || unfold zlen; lia). done.
Qed.

Lemma strcpy_overflow t r : str t -> forall d, zlen d <= zlen t -> strcpy d (t ++ 0 :: r) = None.
Proof.
  induction t as [|c t IH]; intros Ht [|x d] Hd; try done.
  str_inv. rewrite !zlen_cons in Hd. cbn [app strcpy]. by rewrite nz_eqb, IH by (done || lia).
Qed.

Lemma strncpy_pad r n : forall d, (n <= length d)%nat ->
  strncpy d (0 :: r) (Z.of_nat n) = Some (replicate n 0 ++ drop n d).
Proof.
  induction n as [|n IH]; intros [|x d] Hd; cbn [length] in Hd; try lia; try done.
  cbn [strncpy]. rewrite (proj2 (Z.eqb_neq _ _)) by lia. replace (Z.of_nat (S n) - 1) with (Z.of_nat n) by lia.
  cbn [negb Z.eqb]. by rewrite IH by lia.
Qed.

Lemma strncpy_ok t r : str t -> forall n d, (n <= length d)%nat ->
  strncpy d (t ++ 0 :: r) (Z.of_nat n) = Some (take n t ++ replicate (n - length t) 0 ++ drop n d).
Proof.
  induction t as [|c t IH]; intros Ht n d Hd.
  - cbn [app length]. rewrite strncpy_pad, take_nil, Nat.sub_0_r by done. done.
  - str_inv. destruct n as [|n]; [by destruct d|]. destruct d as [|x d]; cbn [length] in *; [lia|].
    cbn [app strncpy]. rewrite (proj2 (Z.eqb_neq _ _)), nz_eqb by (done || lia).
    replace (Z.of_nat (S n) - 1) with (Z.of_nat n) by lia. cbn [negb]. by rewrite IH by (done || lia).
Qed.

(** Copying [k] bytes and terminating them, the end of strlcpy() and strlcat(). *)
Lemma copy_terminate k d s : (k < length d)%nat -> (k <= length s)%nat ->
  (p ← memcpy d s (Z.of_nat k); p.[Z.of_nat k <- 0]) = Some (take k s ++ 0 :: drop (S k) d).
Proof.
  intros Hd Hs. rewrite memcpy_ok by lia. cbn [mbind option_bind].
  rewrite arr_set_Some by (rewrite zlen_app; unfold zlen; rewrite length_take, length_drop; lia).
  f_equal. rewrite Nat2Z.id, insert_app_r_alt by (rewrite length_take; lia). f_equal.
  rewrite length_take, Nat.min_l, Nat.sub_diag by lia.
  destruct (drop k d) as [|x l] eqn:E.
  - apply (f_equal length) in E. rewrite length_drop in E. cbn in E. lia.
  - cbn. f_equal. replace (S k) with (k + 1)%nat by lia. by rewrite <-drop_drop, E.
Qed.

Lemma strlcpy_ok t r d size : str t -> 0 <= size <= zlen d ->
  strlcpy d (t ++ 0 :: r) size =
  Some (if size =? 0 then d
        else let k := (Z.to_nat (size - 1) `min` length t)%nat in take k t ++ 0 :: drop (S k) d, zlen t).
Proof.
  intros Ht Hs. unfold strlcpy. rewrite strlen_ok by done. cbn [mbind option_bind]. unfold truth.
  destruct (Z.eqb_spec size 0); [done|]. cbn [negb]. cbv zeta. remember (Z.to_nat (size - 1) `min` length t)%nat as k eqn:Hk.
  unfold zlen in *. replace (if size <=? Z.of_nat (length t) then size - 1 else Z.of_nat (length t)) with (Z.of_nat k)
    by (bcase; lia).
  pose proof (copy_terminate k d (t ++ 0 :: r) ltac:(lia) ltac:(rewrite length_app; lia)) as H.
  destruct (memcpy d _ _) as [p|]; cbn [mbind option_bind] in *; [|done]. rewrite H. cbn [mbind option_bind].
  by rewrite take_app_le by lia.
Qed.

Lemma strcat_ok t r a dr : str t -> str a -> zlen t <= zlen dr ->
  strcat (a ++ 0 :: dr) (t ++ 0 :: r) = Some (a ++ t ++ 0 :: drop (length t) dr).
Proof.
  intros Ht Ha Hd. induction a as [|c a IH].
  - cbn [app strcat Z.eqb]. by rewrite strcpy_ok by (done || rewrite zlen_cons; lia).
  - str_inv. cbn [app strcat]. rewrite nz_eqb by done. rewrite IH by done. done.
Qed.

Lemma strncat_copy_ok t r : str t -> forall n x dr, (0 < n)%nat -> Z.of_nat n < 2 ^ 32 -> (n `min` length t <= length dr)%nat ->
  strncat_copy (x :: dr) (t ++ 0 :: r) (Z.of_nat n) =
  Some (take n t ++ 0 :: drop (n `min` length t) dr).
Proof.
  induction t as [|c t IH]; intros Ht n x dr Hn Hw Hd.
  - cbn [app strncat_copy length]. by rewrite take_nil, Nat.min_0_r.
  - str_inv. destruct n as [|n]; [lia|]. cbn [app strncat_copy].
    destruct dr as [|y dr]; cbn [length] in *; [lia|]. rewrite nz_eqb by done. rewrite ulong_small by lia.
    replace (Z.of_nat (S n) - 1) with (Z.of_nat n) by lia. bcase.
    + replace n with 0%nat in * by lia. done.
    + rewrite IH by (done || lia). done.
Qed.

Lemma strncat_ok t r a dr n : str t -> str a -> (n `min` length t <= length dr)%nat -> Z.of_nat n < 2 ^ 32 ->
  strncat (a ++ 0 :: dr) (t ++ 0 :: r) (Z.of_nat n) =
  Some (a ++ take n t ++ 0 :: drop (n `min` length t) dr).
Proof.
  intros Ht Ha Hd Hw. unfold strncat, truth. bcase; cbn [negb].
  { replace n with 0%nat by lia. done. }
  induction a as [|c a IH].
  - cbn [app strncat_end Z.eqb]. by rewrite strncat_copy_ok by (done || lia).
  - str_inv. cbn [app strncat_end]. rewrite nz_eqb by done. by rewrite IH by done.
Qed.

Lemma strlcat_ok t r a dr count : str t -> str a -> zlen a < count <= zlen (a ++ 0 :: dr) -> zlen a + zlen t < 2 ^ 32 ->
  strlcat (a ++ 0 :: dr) (t ++ 0 :: r) count =
  Some (let k := (Z.to_nat (count - zlen a - 1) `min` length t)%nat in a ++ take k t ++ 0 :: drop k dr, zlen a + zlen t).
Proof.
  intros Ht Ha Hc Hw. unfold strlcat. rewrite !strlen_ok by done. cbn [mbind option_bind].
  pose proof (zlen_nonneg a). pose proof (zlen_nonneg t). rewrite ulong_small by lia.
  rewrite (proj2 (Z.leb_gt _ _)) by lia. cbv zeta. remember (Z.to_nat (count - zlen a - 1) `min` length t)%nat as k eqn:Hk.
  rewrite zlen_app, zlen_cons in Hc. unfold zlen in *.
  replace (if count - Z.of_nat (length a) <=? Z.of_nat (length t) then count - Z.of_nat (length a) - 1 else Z.of_nat (length t))
    with (Z.of_nat k) by (bcase; lia).
  unfold at_off. rewrite zlen_app. unfold zlen. rewrite (proj2 (Z.leb_le _ _)), (proj2 (Z.leb_le _ _)) by lia.
  cbn [andb]. rewrite Nat2Z.id, drop_app_length, take_app_length, copy_terminate
    by (rewrite ?length_app; cbn [length]; lia).
  cbn [mbind option_bind]. by rewrite take_app_le by lia.
Qed.

(** ** Proofs: moving *)

(** [m] is [m0] in which the bytes [lo .. hi) of the area at [dest] are those
    of the area at [src]. *)
Definition moved (m0 : list Z) (dest src lo hi : Z) (m : list Z) : Prop :=
  zlen m = zlen m0 /\
  forall j, m.[j] = if (lo <=? j) && (j <? hi) then m0.[src + (j - dest)] else m0.[j].

Section Move.
Context (m0 : list Z) (dest src n : Z).
Hypothesis Hdest : 0 <= dest /\ dest + n <= zlen m0.
Hypothesis Hsrc : 0 <= src /\ src + n <= zlen m0.

(** Copying one more byte that has not been overwritten, above or below those
    already copied. *)
Lemma moved_step m lo hi k : moved m0 dest src lo hi m -> k = hi \/ k = lo - 1 -> lo <= hi ->
  dest <= k < dest + n -> ~ (lo <= src + (k - dest) < hi) ->
  exists m', (c ← m.[src + (k - dest)]; m.[k <- c]) = Some m' /\
             moved m0 dest src (lo `min` k) (hi `max` (k + 1)) m'.
Proof using Hdest Hsrc.
  intros [Hlen Hm] Hk Hlh Hr Hno. destruct (arr_get_is_Some m0 (src + (k - dest))) as [c Hc]; [lia|].
  rewrite Hm. replace ((lo <=? src + (k - dest)) && (src + (k - dest) <? hi)) with false by (bcases; done).
  rewrite Hc. cbn [mbind option_bind]. rewrite arr_set_Some by lia.
  eexists. split; [done|]. split; [by rewrite zlen_insert|]. intros j.
  rewrite arr_get_insert by lia. case_decide; [subst j; rewrite <-Hc; bcases; done|].
  rewrite Hm. bcases; done.
Qed.

Lemma memmove_ok : 0 <= n -> exists m', memmove m0 dest src n = Some m' /\ moved m0 dest src dest (dest + n) m'.
Proof using Hdest Hsrc.
  intros Hn. unfold memmove. destruct (Z.leb_spec dest src).
  - apply (loop_total memmove_up_body
      (fun st => let '(m, tmp, s, count) := st in 0 <= count <= n /\ tmp = dest + n - count /\ s = src + n - count /\
                   moved m0 dest src dest tmp m) (fun st => snd st)); cycle 1.
    { split_and!; [lia|lia|lia|lia|]. split; [done|]. intros j. bcases; done. }
    { cbn. lia. }
    intros [[[m tmp] s] count] (Hc & -> & -> & Hm). split; cbn [snd memmove_up_body]; [lia|].
    destruct (Z.eqb_spec count 0) as [->|]; [by rewrite Z.sub_0_r in Hm|].
    destruct (moved_step _ _ _ (dest + n - count) Hm) as (m' & E & Hm'); [lia..|].
    replace (src + (dest + n - count - dest)) with (src + n - count) in E by lia.
    destruct (m.[src + n - count]) as [c|]; cbn [mbind option_bind] in *; [|done]. rewrite E. cbn [mbind option_bind].
    rewrite Z.min_l, Z.max_r in Hm' by lia. split; [|cbn [snd]; lia].
    split_and!; [lia..|]. by replace (dest + n - count + 1) with (dest + n - (count - 1)) in * by lia.
  - apply (loop_total memmove_down_body
      (fun st => let '(m, tmp, s, count) := st in 0 <= count <= n /\ tmp = dest + count /\ s = src + count /\
                   moved m0 dest src tmp (dest + n) m) (fun st => snd st)); cycle 1.
    { split_and!; [lia|lia|lia|lia|]. split; [done|]. intros j. bcases; done. }
    { cbn. lia. }
    intros [[[m tmp] s] count] (Hc & -> & -> & Hm). split; cbn [snd memmove_down_body]; [lia|].
    destruct (Z.eqb_spec count 0) as [->|]; [by rewrite Z.add_0_r in Hm|].
    destruct (moved_step _ _ _ (dest + count - 1) Hm) as (m' & E & Hm'); [lia..|].
    replace (src + (dest + count - 1 - dest)) with (src + count - 1) in E by lia.
    destruct (m.[src + count - 1]) as [c|]; cbn [mbind option_bind] in *; [|done]. rewrite E. cbn [mbind option_bind].
    rewrite Z.min_r, Z.max_l in Hm' by lia. split; [|cbn [snd]; lia].
    split_and!; [lia..|done].
Qed.
End Move.

(** ** Proofs: comparison *)

Lemma lex_lt_nil c u : lex_lt [] (c :: u).
Proof. exists []. left. by exists c, u. Qed.

Lemma lex_lt_head c1 u1 c2 u2 : c1 < c2 -> lex_lt (c1 :: u1) (c2 :: u2).
Proof. intros. exists []. right. by exists c1, u1, c2, u2. Qed.

Lemma lex_lt_cons c u1 u2 : lex_lt u1 u2 -> lex_lt (c :: u1) (c :: u2).
Proof.
  intros (p & [(x & u & -> & ->)|(x1 & v1 & x2 & v2 & -> & -> & ?)]); exists (c :: p); [left|right]; naive_solver.
Qed.

Lemma cmp_res_nil : cmp_res [] [] 0.
Proof. right. by left. Qed.

Lemma cmp_res_nil_l c u r : r < 0 -> cmp_res [] (c :: u) r.
Proof. intros. left. split; [done|apply lex_lt_nil]. Qed.

Lemma cmp_res_nil_r c u r : 0 < r -> cmp_res (c :: u) [] r.
Proof. intros. right. right. split; [done|apply lex_lt_nil]. Qed.

Lemma cmp_res_head c1 u1 c2 u2 r : (c1 < c2 /\ r < 0) \/ (c2 < c1 /\ 0 < r) -> cmp_res (c1 :: u1) (c2 :: u2) r.
Proof. intros [[? ?]|[? ?]]; [left|right; right]; (split; [done|by apply lex_lt_head]). Qed.

Lemma cmp_res_cons c u1 u2 r : cmp_res u1 u2 r -> cmp_res (c :: u1) (c :: u2) r.
Proof.
  intros [[? ?]|[[-> ->]|[? ?]]]; [left|right; left|right; right]; (split; [done|]); try by apply lex_lt_cons.
  done.
Qed.

(** The order is irreflexive and one-way, so the sign of the result says
    which of the three cases holds. *)
Lemma lex_lt_irrefl t : ~ lex_lt t t.
Proof.
  intros (p & [(c & u & -> & E)|(c1 & u1 & c2 & u2 & -> & E & ?)]).
  - apply (f_equal length) in E. rewrite length_app in E. cbn in E. lia.
  - apply app_inv_head in E. naive_solver lia.
Qed.

Lemma strcmp_ok r1 r2 t1 : str t1 -> forall t2, str t2 ->
  exists r, strcmp (t1 ++ 0 :: r1) (t2 ++ 0 :: r2) = Some r /\ -1 <= r <= 1 /\ cmp_res t1 t2 r.
Proof.
  induction t1 as [|c1 t1 IH]; intros H1 [|c2 t2] H2; str_inv; cbn [app strcmp].
  - exists 0. split_and!; [done|lia..|apply cmp_res_nil].
  - exists (-1). split_and!; [by rewrite nz_eqb', nz_ltb by done|lia..|by apply cmp_res_nil_l].
  - exists 1. split_and!; [by rewrite nz_eqb, nz_ltb' by done|lia..|by apply cmp_res_nil_r].
  - destruct (Z.eqb_spec c1 c2) as [->|]; cbn [negb].
    + rewrite nz_eqb by done. destruct (IH H1 t2 H2) as (r & -> & ? & ?). exists r. auto using cmp_res_cons.
    + exists (if c1 <? c2 then -1 else 1). split_and!; [done|bcases; done..|].
      apply cmp_res_head. bcases.
Qed.

Lemma strncmp_ok r1 r2 n : forall t1 t2, str t1 -> str t2 ->
  exists r, strncmp (t1 ++ 0 :: r1) (t2 ++ 0 :: r2) (Z.of_nat n) = Some r /\ -1 <= r <= 1 /\
            cmp_res (take n t1) (take n t2) r.
Proof.
  induction n as [|n IH]; intros [|c1 t1] [|c2 t2] H1 H2; str_inv; cbn [app strncmp];
    try (exists 0; split_and!; [done|lia|lia|apply cmp_res_nil]);
    rewrite (proj2 (Z.eqb_neq (Z.of_nat (S n)) 0)) by lia.
  - exists (-1). split_and!; [by rewrite nz_eqb', nz_ltb by done|lia..|by apply cmp_res_nil_l].
  - exists 1. split_and!; [by rewrite nz_eqb, nz_ltb' by done|lia..|by apply cmp_res_nil_r].
  - destruct (Z.eqb_spec c1 c2) as [->|]; cbn [negb].
    + rewrite nz_eqb by done. replace (Z.of_nat (S n) - 1) with (Z.of_nat n) by lia.
      destruct (IH t1 t2 H1 H2) as (r & -> & ? & ?). exists r. cbn [take]. auto using cmp_res_cons.
    + exists (if c1 <? c2 then -1 else 1). split_and!; [done|bcases; done..|].
      apply cmp_res_head. bcases.
Qed.

Lemma memcmp_ok n : forall s1 s2, (n <= length s1)%nat -> (n <= length s2)%nat ->
  exists r, memcmp s1 s2 (Z.of_nat n) = Some r /\ cmp_res (take n s1) (take n s2) r.
Proof.
  induction n as [|n IH]; intros s1 s2 H1 H2.
  - exists 0. split; [by destruct s1|apply cmp_res_nil].
  - destruct s1 as [|c1 s1], s2 as [|c2 s2]; cbn [length] in *; try lia. cbn [memcmp take].
    rewrite (proj2 (Z.ltb_lt _ _)) by lia. unfold truth. destruct (Z.eqb_spec (c1 - c2) 0); cbn [negb].
    + replace c2 with c1 by lia. replace (Z.of_nat (S n) - 1) with (Z.of_nat n) by lia.
      destruct (IH s1 s2) as (r & -> & ?); [lia..|]. exists r. auto using cmp_res_cons.
    + eexists. split; [done|]. apply cmp_res_head. lia.
Qed.

Lemma tolower_exhaustive :
  forallb (fun i => let c := Z.of_nat i in
             (tolower c =? if ((65 <=? c) && (c <=? 90)) || ((192 <=? c) && (c <=? 222) && negb (c =? 215)) then c + 32 else c))
    (seq 0 256) = true.
Proof. vm_compute. reflexivity. Qed.

(** tolower() on the Latin-1 letters of the table. *)
Lemma tolower_spec c : 0 <= c < 256 ->
  tolower c = if ((65 <=? c) && (c <=? 90)) || ((192 <=? c) && (c <=? 222) && negb (c =? 215)) then c + 32 else c.
Proof.
  intros Hc. pose proof (forallb_seq_lt _ _ tolower_exhaustive c ltac:(lia)) as H. cbv beta zeta in H.
  rewrite Z2Nat.id in H by lia. by apply Z.eqb_eq in H.
Qed.

Lemma tolower_range c : 0 < c < 256 -> 0 < tolower c < 256.
Proof. intros. rewrite tolower_spec by lia. bcases. Qed.

Lemma strcasecmp_ok r1 r2 t1 : str t1 -> forall t2, str t2 ->
  exists r, strcasecmp (t1 ++ 0 :: r1) (t2 ++ 0 :: r2) = Some r /\ cmp_res (tolower <$> t1) (tolower <$> t2) r.
Proof.
  induction t1 as [|c1 t1 IH]; intros H1 [|c2 t2] H2; str_inv; cbn [app strcasecmp];
    rewrite ?fmap_cons, ?fmap_nil; change (tolower 0) with 0;
    try pose proof (tolower_range c1 ltac:(done)); try pose proof (tolower_range c2 ltac:(done)).
  - exists 0. split; [done|apply cmp_res_nil].
  - eexists. rewrite nz_eqb' by done. split; [done|apply cmp_res_nil_l; lia].
  - eexists. rewrite nz_eqb by done. split; [done|apply cmp_res_nil_r; lia].
  - destruct (Z.eqb_spec (tolower c1) (tolower c2)) as [E|]; cbn [andb].
    + rewrite nz_eqb by done. cbn [negb]. destruct (IH H1 t2 H2) as (r & -> & ?). exists r. rewrite E.
      auto using cmp_res_cons.
    + eexists. split; [done|]. apply cmp_res_head. lia.
Qed.

Lemma strncasecmp_ok r1 r2 n : Z.of_nat n < 2 ^ 32 -> forall t1 t2, (0 < n)%nat -> str t1 -> str t2 ->
  exists r, strncasecmp (t1 ++ 0 :: r1) (t2 ++ 0 :: r2) (Z.of_nat n) = Some r /\
            cmp_res (tolower <$> take n t1) (tolower <$> take n t2) r.
Proof.
  induction n as [|n IH]; intros Hw t1 t2 Hn H1 H2; [lia|].
  destruct t1 as [|c1 t1], t2 as [|c2 t2]; str_inv; cbn [app strncasecmp take];
    rewrite ?fmap_cons, ?fmap_nil; change (tolower 0) with 0; rewrite ulong_small by lia;
    replace (Z.of_nat (S n) - 1) with (Z.of_nat n) by lia;
    try pose proof (tolower_range c1 ltac:(done)); try pose proof (tolower_range c2 ltac:(done)).
  - exists 0. rewrite andb_false_r. split; [done|apply cmp_res_nil].
  - eexists. rewrite nz_eqb', andb_false_r by done. split; [done|apply cmp_res_nil_l; lia].
  - eexists. rewrite nz_eqb, andb_false_r by done. split; [done|apply cmp_res_nil_r; lia].
  - destruct (Z.eqb_spec (tolower c1) (tolower c2)) as [E|].
    + rewrite nz_eqb, !andb_true_r by done. rewrite E. bcase.
      * destruct (IH ltac:(lia) t1 t2) as (r & -> & ?); [lia|done..|]. exists r. auto using cmp_res_cons.
      * exists 0. replace n with 0%nat by lia. split; [f_equal; lia|]. apply cmp_res_cons, cmp_res_nil.
    + eexists. rewrite andb_false_r. split; [done|]. apply cmp_res_head. lia.
Qed.

Lemma strnicmp_do_ok r1 r2 n : Z.of_nat n < 2 ^ 32 -> forall t1 t2, (0 < n)%nat -> str t1 -> str t2 ->
  exists r, strnicmp_do (t1 ++ 0 :: r1) (t2 ++ 0 :: r2) (Z.of_nat n) = Some r /\
            cmp_res (tolower <$> take n t1) (tolower <$> take n t2) r.
Proof.
  induction n as [|n IH]; intros Hw t1 t2 Hn H1 H2; [lia|].
  destruct t1 as [|c1 t1], t2 as [|c2 t2]; str_inv; cbn [app strnicmp_do take];
    rewrite ?fmap_cons, ?fmap_nil; rewrite ulong_small by lia;
    replace (Z.of_nat (S n) - 1) with (Z.of_nat n) by lia; rewrite ?nz_eqb by done; cbn [Z.eqb orb].
  - exists 0. split; [done|apply cmp_res_nil].
  - eexists. split; [done|apply cmp_res_nil_l; lia].
  - eexists. split; [done|apply cmp_res_nil_r; lia].
  - assert (Heq : tolower c1 = tolower c2 -> forall d1, d1 = 0 ->
      exists r, (if truth (Z.of_nat n) then strnicmp_do (t1 ++ 0 :: r1) (t2 ++ 0 :: r2) (Z.of_nat n) else Some d1) = Some r /\
                cmp_res (tolower c1 :: (tolower <$> take n t1)) (tolower c2 :: (tolower <$> take n t2)) r).
    { intros -> d1 ->. unfold truth. bcase; cbn [negb].
      - exists 0. replace n with 0%nat by lia. split; [done|]. apply cmp_res_cons, cmp_res_nil.
      - destruct (IH ltac:(lia) t1 t2) as (r & -> & ?); [lia|done..|]. exists r. auto using cmp_res_cons. }
    destruct (Z.eqb_spec c1 c2) as [->|]; [apply Heq; lia|].
    destruct (Z.eqb_spec (tolower c1) (tolower c2)); cbn [negb]; [apply Heq; lia|].
    eexists. split; [done|]. apply cmp_res_head. lia.
Qed.

(** Unlike strncmp(), a limit of zero does not limit strncasecmp(). *)
Lemma strncasecmp_zero_ok r1 r2 t1 : str t1 -> forall t2 n, str t2 -> zlen t1 < n -> n < 2 ^ 32 ->
  strncasecmp (t1 ++ 0 :: r1) (t2 ++ 0 :: r2) (n + 1) = strcasecmp (t1 ++ 0 :: r1) (t2 ++ 0 :: r2).
Proof.
  induction t1 as [|c1 t1 IH]; intros H1 t2 n H2 Hn Hw; (destruct t2 as [|c2 t2]; str_inv; cbn [app strncasecmp strcasecmp]);
    rewrite ?zlen_cons in Hn; try (pose proof (zlen_nonneg t1));
    replace (n + 1 - 1) with n by lia; rewrite ulong_small by (unfold zlen in *; cbn [length] in *; lia);
    rewrite (proj2 (Z.ltb_lt 0 n)) by (unfold zlen in *; cbn [length] in *; lia); cbn [andb];
    change (tolower 0) with 0; cbn [Z.eqb negb]; rewrite ?andb_false_r; try done.
  - rewrite (proj2 (Z.eqb_neq _ _)); [done|]. pose proof (tolower_range c1 ltac:(done)). lia.
  - destruct (_ && _); [|done]. replace n with (n - 1 + 1) by lia. apply IH; [done..|lia|lia].
Qed.

(** ** Proofs: searching *)

(** The reference search: the offset of the first byte that satisfies [p]. *)
Fixpoint find_from (p : Z -> bool) (l : list Z) (off : Z) : option Z :=
  match l with
  | x :: l' => if p x then Some off else find_from p l' (off + 1)
  | [] => None
  end.

Definition sat (p : Z -> bool) (l : list Z) (i : Z) : Prop := exists x, l.[i] = Some x /\ p x = true.

Lemma sat_cons p x l i : 0 < i -> sat p (x :: l) i <-> sat p l (i - 1).
Proof. intros. unfold sat. by rewrite arr_get_cons. Qed.

Lemma sat_0 p x l : sat p (x :: l) 0 <-> p x = true.
Proof. unfold sat. rewrite arr_get_0. split; [by intros (y & [= ->] & ?)|by exists x]. Qed.

Lemma find_from_shift p l : forall off, find_from p l off = (Z.add off) <$> find_from p l 0.
Proof.
  induction l as [|x l IH]; intros off; cbn [find_from]; [done|].
  destruct (p x); [cbn; f_equal; lia|]. rewrite IH, (IH (0 + 1)). destruct (find_from p l 0); cbn; f_equal; lia.
Qed.

Lemma find_first p l : first_at (sat p l) (zlen l) (find_from p l 0).
Proof.
  induction l as [|x l IH]; cbn [find_from].
  { intros i Hi. unfold zlen in Hi. cbn [length] in Hi. lia. }
  rewrite zlen_cons. pose proof (zlen_nonneg l). destruct (p x) eqn:Hp.
  { split_and!; [lia..|by apply sat_0|lia]. }
  assert (Hx : forall i, 0 <= i -> sat p (x :: l) i <-> 0 < i /\ sat p l (i - 1)).
  { intros i Hi. destruct (decide (i = 0)) as [->|]; [rewrite sat_0, Hp; split; [done|lia]|].
    rewrite sat_cons by lia. split; [split; [lia|done]|tauto]. }
  rewrite find_from_shift. destruct (find_from p l 0) as [k|]; cbn [fmap option_fmap option_map first_at] in *.
  - destruct IH as (Hk & Hs & Hno). split_and!; [lia..| |].
    + apply Hx; [lia|]. replace (0 + 1 + k - 1) with k by lia. split; [lia|done].
    + intros i Hi [? Hs']%Hx; [|lia]. by apply (Hno (i - 1)); [lia|].
  - intros i Hi [? Hs']%Hx; [|lia]. by apply (IH (i - 1)); [lia|].
Qed.

Lemma find_span p l : span_at (sat (fun x => negb (p x)) l) (zlen l) (default (zlen l) (find_from p l 0)).
Proof.
  pose proof (find_first p l) as H. pose proof (zlen_nonneg l).
  assert (Hn : forall i, 0 <= i < zlen l -> ~ sat p l i -> sat (fun x => negb (p x)) l i).
  { intros i Hi Hs. destruct (arr_get_is_Some l i Hi) as [x Hx]. exists x. split; [done|].
    destruct (p x) eqn:E; [|done]. destruct Hs. by exists x. }
  destruct (find_from p l 0) as [k|]; cbn [default id first_at] in *.
  - destruct H as (Hk & (x & Hx & Hp) & Hno). split_and!; [lia..| |].
    + intros i Hi. apply Hn; [lia|by apply Hno].
    + intros _ (x' & Hx' & Hp'). rewrite Hx in Hx'. simplify_eq. by rewrite Hp in Hp'.
  - split_and!; [lia..| |lia]. intros i Hi. apply Hn; [lia|by apply H].
Qed.

Lemma find_from_app p l k off : find_from p (l ++ k) off =
  match find_from p l off with Some i => Some i | None => find_from p k (off + zlen l) end.
Proof.
  revert off. induction l as [|x l IH]; intros off; cbn [app find_from].
  { f_equal. unfold zlen. cbn [length]. lia. }
  destruct (p x); [done|]. rewrite IH, zlen_cons. destruct (find_from p l (off + 1)); [done|]. f_equal. lia.
Qed.

Lemma strchr_find t r c : str t ->
  strchr (t ++ 0 :: r) c = Some (find_from (fun x => x =? u8 c) (t ++ [0]) 0).
Proof.
  intros Ht. unfold strchr.
  enough (G : forall off, strchr_from (t ++ 0 :: r) c off = Some (find_from (fun x => x =? u8 c) (t ++ [0]) off)) by apply G.
  induction t as [|x t IH]; intros off; cbn [app strchr_from find_from].
  - by destruct (0 =? u8 c).
  - str_inv. rewrite nz_eqb by done. destruct (x =? u8 c); [done|]. cbn [negb]. by apply IH.
Qed.

Lemma strnchr_find t r c n : str t -> 0 <= n ->
  strnchr (t ++ 0 :: r) n c = Some (find_from (fun x => x =? u8 c) (take (Z.to_nat n) t) 0).
Proof.
  intros Ht. unfold strnchr. intros Hn.
  enough (G : forall off, strnchr_from (t ++ 0 :: r) n c off = Some (find_from (fun x => x =? u8 c) (take (Z.to_nat n) t) off)) by apply G.
  revert n Hn. induction t as [|x t IH]; intros n Hn off; cbn [app strnchr_from].
  - rewrite take_nil. bcase; done.
  - str_inv. destruct (Z.eqb_spec n 0) as [->|]; [done|].
    replace (Z.to_nat n) with (S (Z.to_nat (n - 1))) by lia. cbn [take find_from]. rewrite nz_eqb by done.
    destruct (x =? u8 c); [done|]. apply IH; [done|lia].
Qed.

Lemma memchr_find s c n : 0 <= n <= zlen s ->
  memchr s c n = Some (find_from (fun x => x =? u8 c) (take (Z.to_nat n) s) 0).
Proof.
  unfold memchr. intros Hn.
  enough (G : forall off, memchr_from s c n off = Some (find_from (fun x => x =? u8 c) (take (Z.to_nat n) s) off)) by apply G.
  revert n Hn. induction s as [|x s IH]; intros n Hn off; cbn [memchr_from].
  - rewrite take_nil. unfold zlen in Hn. cbn [length] in Hn. bcase; [done|lia].
  - rewrite zlen_cons in Hn. destruct (Z.eqb_spec n 0) as [->|]; [done|].
    replace (Z.to_nat n) with (S (Z.to_nat (n - 1))) by lia. cbn [take find_from]. rewrite (Z.eqb_sym (u8 c)).
    destruct (x =? u8 c); [done|]. apply IH. lia.
Qed.

Lemma memscan_find s c n : 0 <= n <= zlen s ->
  memscan s c n = Some (default n (find_from (fun x => x =? c) (take (Z.to_nat n) s) 0)).
Proof.
  intros H. unfold memscan. enough (G : forall off, memscan_from s c n off = Some (default (off + n) (find_from (fun x => x =? c) (take (Z.to_nat n) s) off))).
  { apply G. }
  revert n H. induction s as [|x s IH]; intros n Hn off; cbn [memscan_from].
  - rewrite take_nil. unfold zlen in Hn. cbn [length] in Hn. replace n with 0 by lia. by rewrite Z.add_0_r.
  - rewrite zlen_cons in Hn. destruct (Z.eqb_spec n 0) as [->|]; [by rewrite Z.add_0_r|].
    replace (Z.to_nat n) with (S (Z.to_nat (n - 1))) by lia. cbn [take find_from].
    destruct (x =? c); [done|]. rewrite IH by lia. do 2 f_equal. lia.
Qed.

Lemma scan_set_ok a r x : str a -> scan_set (a ++ 0 :: r) x = Some (bool_decide (x ∈ a)).
Proof.
  intros Ha. induction a as [|y a IH]; cbn [app scan_set Z.eqb].
  - rewrite bool_decide_eq_false_2; [done|apply not_elem_of_nil].
  - str_inv. rewrite nz_eqb by done. destruct (Z.eqb_spec x y) as [->|].
    + rewrite bool_decide_eq_true_2; [done|apply list_elem_of_here].
    + rewrite IH by done. f_equal. apply bool_decide_ext. rewrite elem_of_cons. tauto.
Qed.

Section Sets.
Context (a ra : list Z) (Ha : str a).
Let inset (x : Z) : bool := bool_decide (x ∈ a).

Lemma strpbrk_find t r : str t -> strpbrk (t ++ 0 :: r) (a ++ 0 :: ra) = Some (find_from inset t 0).
Proof using Ha.
  intros Ht. unfold strpbrk.
  enough (G : forall off, strpbrk_from (t ++ 0 :: r) (a ++ 0 :: ra) off = Some (find_from inset t off)) by apply G.
  induction t as [|x t IH]; intros off; cbn [app strpbrk_from]; [done|].
  str_inv. rewrite nz_eqb, scan_set_ok by done. cbn [mbind option_bind find_from]. fold (inset x).
  destruct (inset x); [done|by apply IH].
Qed.

Lemma strcspn_find t r : str t -> strcspn (t ++ 0 :: r) (a ++ 0 :: ra) = Some (default (zlen t) (find_from inset t 0)).
Proof using Ha.
  intros Ht. unfold strcspn. enough (G : forall off, strcspn_from (t ++ 0 :: r) (a ++ 0 :: ra) off = Some (default (off + zlen t) (find_from inset t off))).
  { apply G. }
  induction t as [|x t IH]; intros off; cbn [app strcspn_from].
  - by rewrite Z.add_0_r.
  - str_inv. rewrite nz_eqb, scan_set_ok by done. cbn [mbind option_bind find_from]. fold (inset x).
    destruct (inset x); [done|]. rewrite IH, zlen_cons by done. do 2 f_equal. lia.
Qed.

Lemma strspn_find t r : str t ->
  strspn (t ++ 0 :: r) (a ++ 0 :: ra) = Some (default (zlen t) (find_from (fun x => negb (inset x)) t 0)).
Proof using Ha.
  intros Ht. unfold strspn.
  enough (G : forall off, strspn_from (t ++ 0 :: r) (a ++ 0 :: ra) off =
    Some (default (off + zlen t) (find_from (fun x => negb (inset x)) t off))).
  { apply G. }
  induction t as [|x t IH]; intros off; cbn [app strspn_from].
  - by rewrite Z.add_0_r.
  - str_inv. rewrite nz_eqb, scan_set_ok by done. cbn [mbind option_bind find_from]. fold (inset x).
    destruct (inset x); [|done]. cbn [negb]. rewrite IH, zlen_cons by done. do 2 f_equal. lia.
Qed.
End Sets.

Lemma strrchr_ok t r c : str t ->
  exists k, strrchr (t ++ 0 :: r) c = Some k /\
            last_at (fun i => (t ++ [0]).[i] = Some (u8 c)) (zlen t + 1) k.
Proof.
  intros Ht. unfold strrchr. rewrite strlen_ok by done. cbn [mbind option_bind].
  pose proof (zlen_nonneg t). assert (E : t ++ 0 :: r = (t ++ [0]) ++ r) by by rewrite <-app_assoc.
  assert (Hl : zlen (t ++ [0]) = zlen t + 1) by by rewrite zlen_app.
  apply (loop_total (strrchr_body (t ++ 0 :: r) c)
    (fun p => 0 <= p <= zlen t /\ forall i, p < i < zlen t + 1 -> (t ++ [0]).[i] <> Some (u8 c)) (fun p => p)); [|split; lia|lia].
  intros p [Hp Hno]. split; [lia|]. unfold strrchr_body. rewrite E, arr_get_app_l by lia.
  destruct (arr_get_is_Some (t ++ [0]) p) as [x Hx]; [lia|]. rewrite Hx. cbn [mbind option_bind].
  assert (Hno' : x <> u8 c -> forall i, p - 1 < i < zlen t + 1 -> (t ++ [0]).[i] <> Some (u8 c)).
  { intros Hne i Hi. destruct (decide (i = p)) as [->|]; [rewrite Hx; congruence|apply Hno; lia]. }
  destruct (Z.eqb_spec x (u8 c)) as [->|]; [by split_and!; [lia..| |]|].
  bcase; [split; [split; [lia|by apply Hno']|lia]|]. intros i Hi. apply Hno'; [done|lia].
Qed.

Lemma cmp_res_0 t1 t2 r : cmp_res t1 t2 r -> r = 0 <-> t1 = t2.
Proof.
  intros [[? Hl]|[[-> ->]|[? Hl]]]; [|done|].
  all: split; [lia|intros ->]; exfalso; by eapply lex_lt_irrefl.
Qed.

(** The comparison at one place of the text decides the occurrence there. *)
Lemma occurs_memcmp s u r : zlen u <= zlen s ->
  exists d, memcmp s (u ++ r) (zlen u) = Some d /\ (truth d = false <-> occurs s u 0).
Proof.
  intros Hl. destruct (memcmp_ok (length u) s (u ++ r)) as (d & E & Hd).
  { unfold zlen in Hl. lia. }
  { rewrite length_app. lia. }
  exists d. split; [done|]. rewrite truth_false, (cmp_res_0 _ _ _ Hd), take_app_length. done.
Qed.

Lemma occurs_cons x s u i : 0 < i -> occurs (x :: s) u i <-> occurs s u (i - 1).
Proof. intros. unfold occurs. replace (Z.to_nat i) with (S (Z.to_nat (i - 1))) by lia. done. Qed.

Lemma strstr_from_ok u r : u <> [] -> forall s n off, -1 <= n -> n + zlen u <= zlen s ->
  exists k, strstr_from s (u ++ r) (n + zlen u) (zlen u) off = Some ((Z.add off) <$> k) /\
            first_at (occurs s u) (n + 1) k.
Proof.
  intros Hu. induction s as [|x s IH]; intros n off Hn Hs.
  - pose proof (zlen_nonneg u). assert (zlen u <> 0). { destruct u; [done|]. rewrite zlen_cons. pose proof (zlen_nonneg u). lia. }
    change (zlen (@nil Z)) with 0 in Hs. exists None. split; [|intros i Hi; lia].
    unfold strstr_from. rewrite (proj2 (Z.leb_gt _ _)) by lia. done.
  - rewrite zlen_cons in Hs. cbn [strstr_from]. destruct (Z.leb_spec (zlen u) (n + zlen u)); cycle 1.
    { exists None. split; [done|]. intros i Hi. lia. }
    destruct (occurs_memcmp (x :: s) u r) as (d & E & Hd); [rewrite zlen_cons; lia|]. rewrite E. cbn [mbind option_bind].
    destruct (truth d) eqn:Ht; cbn [negb].
    + replace (n + zlen u - 1) with (n - 1 + zlen u) by lia. destruct (IH (n - 1) (off + 1)) as (k & -> & Hk); [lia..|].
      assert (H0 : ~ occurs (x :: s) u 0) by (intros Ho; by apply Hd in Ho).
      exists ((Z.add 1) <$> k). split; [destruct k; cbn; do 2 f_equal; lia|].
      destruct k as [k|]; cbn [fmap option_fmap option_map first_at] in *.
      * destruct Hk as (? & ? & Hno). split_and!; [lia..| |].
        -- rewrite occurs_cons by lia. by replace (1 + k - 1) with k by lia.
        -- intros i Hi Ho. destruct (decide (i = 0)) as [->|]; [done|]. rewrite occurs_cons in Ho by lia. by apply (Hno (i - 1)); [lia|].
      * intros i Hi Ho. destruct (decide (i = 0)) as [->|]; [done|]. rewrite occurs_cons in Ho by lia. by apply (Hk (i - 1)); [lia|].
    + exists (Some 0). split; [cbn; do 2 f_equal; lia|]. split_and!; [lia..|by apply Hd|lia].
Qed.

Lemma first_at_ext (P Q : Z -> Prop) n r : (forall i, 0 <= i < n -> P i <-> Q i) -> first_at P n r -> first_at Q n r.
Proof.
  intros H. destruct r as [k|]; cbn [first_at].
  - intros (Hk & HP & Hno). split_and!; [lia..|by apply H|]. intros i Hi HQ. apply (Hno i Hi). apply H; [lia|done].
  - intros Hno i Hi HQ. apply (Hno i Hi). by apply H.
Qed.

Lemma strnstr_ok s u r n : str u -> 0 <= n <= zlen s ->
  exists k, strnstr s (u ++ 0 :: r) n = Some k /\ first_at (occurs s u) (n - zlen u + 1) k.
Proof.
  intros Hu Hn. unfold strnstr. rewrite strlen_ok by done. cbn [mbind option_bind]. pose proof (zlen_nonneg u).
  destruct (decide (u = [])) as [->|Hne].
  { exists (Some 0). split; [done|]. change (zlen (@nil Z)) with 0. split_and!; [lia..|done|lia]. }
  assert (zlen u <> 0). { destruct u; [done|]. rewrite zlen_cons. pose proof (zlen_nonneg u). lia. }
  rewrite truth_nz by done. cbn [negb]. destruct (Z.leb_spec (-1) (n - zlen u)).
  - destruct (strstr_from_ok u (0 :: r) Hne s (n - zlen u) 0) as (k & E & Hk); [lia..|].
    replace (n - zlen u + zlen u) with n in E by lia. exists k. split; [|done]. rewrite E. by destruct k.
  - exists None. split; [|intros i Hi; lia]. destruct s; cbn [strstr_from]; by rewrite (proj2 (Z.leb_gt _ _)) by lia.
Qed.

Lemma strstr_ok t u r1 r2 : str t -> str u ->
  exists k, strstr (t ++ 0 :: r1) (u ++ 0 :: r2) = Some k /\ first_at (occurs t u) (zlen t - zlen u + 1) k.
Proof.
  intros Ht Hu. destruct (strnstr_ok (t ++ 0 :: r1) u r2 (zlen t) Hu) as (k & E & Hk).
  { pose proof (zlen_nonneg t). pose proof (zlen_nonneg r1). rewrite zlen_app, zlen_cons. lia. }
  exists k. split.
  - revert E. unfold strnstr, strstr. rewrite !strlen_ok by done. done.
  - eapply first_at_ext; [|exact Hk]. intros i Hi. unfold occurs, zlen in *.
    rewrite drop_app_le, take_app_le by (rewrite ?length_drop; lia). done.
Qed.

(** ** Proofs: editing *)

Lemma isspace_0 : isspace 0 = false.
Proof. done. Qed.

Lemma skip_spaces_ok w c s : Forall (fun c => isspace c = true) w -> isspace c = false ->
  skip_spaces (w ++ c :: s) = Some (zlen w).
Proof.
  intros Hw Hc. unfold skip_spaces. enough (G : forall off, skip_spaces_from (w ++ c :: s) off = Some (off + zlen w)) by apply G.
  induction Hw as [|x w Hx Hw IH]; intros off; cbn [app skip_spaces_from].
  - rewrite Hc. by rewrite Z.add_0_r.
  - rewrite Hx, IH, zlen_cons. f_equal. lia.
Qed.

Lemma drop_zlen_app {A} (p l : list A) : drop (Z.to_nat (zlen p)) (p ++ l) = l.
Proof. unfold zlen. by rewrite Nat2Z.id, drop_app_length. Qed.

Lemma strim_blank w r : Forall (fun c => isspace c = true) w ->
  strim (w ++ 0 :: r) = Some (w ++ 0 :: r, zlen w).
Proof.
  intros Hw. unfold strim. rewrite skip_spaces_ok by done. cbn [mbind option_bind].
  by rewrite drop_zlen_app.
Qed.

(** The text is [a] up to its last non-space [e]; [w] are the trailing spaces. *)
Lemma strim_loop pre a e w r : isspace e = false -> Forall (fun c => isspace c = true) w ->
  loop (strim_body (pre ++ (a ++ [e]) ++ w ++ r) (zlen pre)) (zlen a + zlen w + 3) (zlen pre + zlen a + zlen w) =
  Some (zlen pre + zlen a).
Proof.
  intros He Hw. pose proof (zlen_nonneg a). pose proof (zlen_nonneg w). pose proof (zlen_nonneg pre).
  destruct (loop_total (strim_body (pre ++ (a ++ [e]) ++ w ++ r) (zlen pre))
    (fun k => zlen pre + zlen a <= k <= zlen pre + zlen a + zlen w) (fun k => k - zlen pre - zlen a)
    (fun k => k = zlen pre + zlen a)) with (bound := zlen a + zlen w + 3) (s := zlen pre + zlen a + zlen w)
    as (k & -> & ->); [|lia|lia|done].
  intros k Hk. split; [lia|]. unfold strim_body. rewrite (proj2 (Z.leb_le _ _)) by lia.
  rewrite arr_get_app_r by lia. destruct (decide (k = zlen pre + zlen a)) as [->|].
  - rewrite arr_get_app_l by (rewrite zlen_app; change (zlen [e]) with 1; lia).
    rewrite arr_get_app_r by lia. replace (zlen pre + zlen a - zlen pre - zlen a) with 0 by lia.
    rewrite arr_get_0. cbn [mbind option_bind]. by rewrite He.
  - rewrite arr_get_app_r by (rewrite zlen_app; change (zlen [e]) with 1; lia).
    rewrite zlen_app. change (zlen [e]) with 1. rewrite arr_get_app_l by lia.
    destruct (arr_get_is_Some w (k - zlen pre - (zlen a + 1))) as [c Hc]; [lia|].
    rewrite Hc. apply arr_get_Some in Hc as [_ Hc].
    cbn [mbind option_bind]. rewrite (Forall_lookup_1 _ _ _ _ Hw Hc : isspace c = true). split; lia.
Qed.

Lemma insert_tail (p l : list Z) x : zlen l <> 0 -> (p ++ l).[zlen p <- x] = Some (p ++ x :: tail l).
Proof.
  intros Hl. destruct l as [|y l]; [done|]. pose proof (zlen_nonneg l). pose proof (zlen_nonneg p).
  rewrite arr_set_Some by (rewrite zlen_app, zlen_cons; lia). f_equal.
  unfold zlen. rewrite Nat2Z.id, insert_app_r_alt by lia. by rewrite Nat.sub_diag.
Qed.

Lemma strim_ok w1 c a e w2 r : str (c :: a) -> 0 < e < 256 -> str w2 -> head (a ++ [e]) = Some c ->
  Forall (fun c => isspace c = true) w1 -> Forall (fun c => isspace c = true) w2 -> isspace c = false -> isspace e = false ->
  strim (w1 ++ (a ++ [e]) ++ w2 ++ 0 :: r) =
  Some (w1 ++ (a ++ [e]) ++ 0 :: tail (w2 ++ 0 :: r), zlen w1).
Proof.
  intros Hca He Hw2 Hh Hs1 Hs2 Hc Hse. str_inv. unfold strim.
  assert (Hskip : skip_spaces (w1 ++ (a ++ [e]) ++ w2 ++ 0 :: r) = Some (zlen w1)).
  { destruct (a ++ [e]) as [|y l]; [done|]. injection Hh as ->. by apply skip_spaces_ok. }
  rewrite Hskip. cbn [mbind option_bind]. rewrite drop_zlen_app.
  assert (Hl : zlen ((a ++ [e]) ++ w2) = zlen a + 1 + zlen w2) by by rewrite !zlen_app.
  pose proof (zlen_nonneg a). pose proof (zlen_nonneg w2). pose proof (zlen_nonneg r).
  rewrite (app_assoc (a ++ [e]) w2), strlen_ok, Hl.
  2: { apply str_app. split; [apply str_app; split; [done|apply str_cons; split; [done|constructor]]|done]. }
  cbn [mbind option_bind]. rewrite truth_nz by lia. cbn [negb].
  replace (zlen w1 + (zlen a + 1 + zlen w2) - 1) with (zlen w1 + zlen a + zlen w2) by lia.
  replace (zlen a + 1 + zlen w2 + 2) with (zlen a + zlen w2 + 3) by lia.
  rewrite <-(app_assoc (a ++ [e])), strim_loop by done. cbn [mbind option_bind].
  rewrite (app_assoc w1). replace (zlen w1 + zlen a + 1) with (zlen (w1 ++ a ++ [e])) by (rewrite !zlen_app; change (zlen [e]) with 1; lia).
  rewrite insert_tail by (rewrite zlen_app, zlen_cons; lia). by rewrite <-app_assoc.
Qed.

Lemma strsep_none pre t r a ra : str t -> str a -> (forall x, x ∈ t -> x ∉ a) ->
  strsep (pre ++ t ++ 0 :: r) (Some (zlen pre)) (a ++ 0 :: ra) = Some (pre ++ t ++ 0 :: r, None, Some (zlen pre)).
Proof.
  intros Ht Ha Hno. unfold strsep. rewrite drop_zlen_app, strpbrk_find by done. cbn [mbind option_bind].
  pose proof (find_first (fun x => bool_decide (x ∈ a)) t) as Hf.
  destruct (find_from _ t 0) as [k|]; cbn [first_at] in Hf; [|done].
  destruct Hf as (_ & (x & Hx & Hin) & _). apply bool_decide_eq_true in Hin. destruct (Hno x); [|done].
  apply arr_get_Some in Hx as [_ Hx]. by eapply list_elem_of_lookup_2.
Qed.

Lemma find_from_here p u c v off : Forall (fun x => p x = false) u -> p c = true ->
  find_from p (u ++ c :: v) off = Some (off + zlen u).
Proof.
  intros Hu Hc. revert off. induction Hu as [|x u Hx Hu IH]; intros off; cbn [app find_from].
  - by rewrite Hc, Z.add_0_r.
  - rewrite Hx, IH, zlen_cons. f_equal. lia.
Qed.

Lemma strsep_some pre u c v r a ra : str (u ++ c :: v) -> str a -> (forall x, x ∈ u -> x ∉ a) -> c ∈ a ->
  strsep (pre ++ (u ++ c :: v) ++ 0 :: r) (Some (zlen pre)) (a ++ 0 :: ra) =
  Some (pre ++ u ++ 0 :: v ++ 0 :: r, Some (zlen pre + zlen u + 1), Some (zlen pre)).
Proof.
  intros Ht Ha Hno Hc. unfold strsep. rewrite drop_zlen_app, strpbrk_find by done. cbn [mbind option_bind].
  rewrite find_from_here; cycle 1.
  { apply Forall_forall. intros x Hx. apply bool_decide_eq_false. by apply Hno, list_elem_of_In. }
  { by apply bool_decide_eq_true. }
  rewrite <-(app_assoc u), (app_assoc pre). change (0 + zlen u) with (zlen u). rewrite <-zlen_app.
  rewrite insert_tail by (rewrite <-app_comm_cons, zlen_cons; pose proof (zlen_nonneg (v ++ 0 :: r)); lia).
  cbn [mbind option_bind]. by rewrite <-app_assoc.
Qed.

Lemma strim_trims w1 t w2 r c e : str t -> str w2 -> head t = Some c -> list.last t = Some e ->
  Forall (fun c => isspace c = true) w1 -> Forall (fun c => isspace c = true) w2 -> isspace c = false -> isspace e = false ->
  strim (w1 ++ t ++ w2 ++ 0 :: r) = Some (w1 ++ t ++ 0 :: tail (w2 ++ 0 :: r), zlen w1).
Proof.
  intros Ht Hw2 Hh [a ->]%last_Some Hs1 Hs2 Hc He. str_inv.
  apply (strim_ok w1 c a); try done. apply str_cons. split; [|done].
  destruct a; simplify_eq/=; str_inv; done.
Qed.

(** Equality up to one trailing newline. *)
Lemma sysfs_streq_ok r1 r2 t1 : str t1 -> forall t2, str t2 ->
  exists b, sysfs_streq (t1 ++ 0 :: r1) (t2 ++ 0 :: r2) = Some b /\
            (b = true <-> t1 = t2 \/ t1 = t2 ++ [10] \/ t2 = t1 ++ [10]).
Proof.
  induction t1 as [|c1 t1 IH]; intros H1 [|c2 t2] H2; str_inv; cbn [app sysfs_streq].
  - exists true. split; [done|]. naive_solver.
  - rewrite (nz_eqb' c2) by done. cbn [negb Z.eqb andb]. destruct (Z.eqb_spec c2 10) as [->|].
    + destruct t2 as [|c t2]; cbn [app head mbind option_bind Z.eqb]; [exists true; naive_solver|].
      str_inv. rewrite nz_eqb by done. exists false. naive_solver.
    + exists false. naive_solver.
  - rewrite nz_eqb by done. cbn [negb andb]. destruct (Z.eqb_spec c1 10) as [->|].
    + destruct t1 as [|c t1]; cbn [app head mbind option_bind Z.eqb andb]; [exists true; naive_solver|].
      str_inv. rewrite nz_eqb by done. exists false. naive_solver.
    + exists false. naive_solver.
  - rewrite nz_eqb by done. cbn [negb andb]. destruct (Z.eqb_spec c1 c2) as [->|].
    + destruct (IH H1 t2 H2) as (b & -> & Hb). exists b. split; [done|]. rewrite Hb.
      split; [naive_solver|]. intros [?|[?|?]]; simplify_eq/=; tauto.
    + destruct (Z.eqb_spec c1 10) as [->|]; [|exists false; naive_solver].
      destruct t1 as [|c t1]; cbn [app head mbind option_bind]; rewrite (nz_eqb c2) by done;
        (exists false; split; [by rewrite ?andb_false_r|naive_solver]).
Qed.

(** ** Properties *)

(** the copying functions on a source that holds the string [t] and a destination
    [d], or [a ++ 0 :: dr] holding the string [a]: strcpy() writes [t] and its
    terminator when they fit and runs over the buffer exactly when they do
    not; strncpy() cuts or pads with zeros to the count; strlcpy() keeps what
    fits before a terminator and returns the length of the source; strcat(),
    strncat() and strlcat() append all of [t], at most [n] bytes of it, and what
    fits in [count] bytes. *)
Theorem string_copies t r d a dr : str t -> str a ->
  (zlen t < zlen d -> strcpy d (t ++ 0 :: r) = Some (t ++ 0 :: drop (S (length t)) d)) /\
  (zlen d <= zlen t -> strcpy d (t ++ 0 :: r) = None) /\
  (forall n, (n <= length d)%nat ->
     strncpy d (t ++ 0 :: r) (Z.of_nat n) = Some (take n t ++ replicate (n - length t) 0 ++ drop n d)) /\
  (forall size, 0 <= size <= zlen d ->
     strlcpy d (t ++ 0 :: r) size =
     Some (if size =? 0 then d
           else let k := (Z.to_nat (size - 1) `min` length t)%nat in take k t ++ 0 :: drop (S k) d, zlen t)) /\
  (zlen t <= zlen dr -> strcat (a ++ 0 :: dr) (t ++ 0 :: r) = Some (a ++ t ++ 0 :: drop (length t) dr)) /\
  (forall n, (n `min` length t <= length dr)%nat -> Z.of_nat n < 2 ^ 32 ->
     strncat (a ++ 0 :: dr) (t ++ 0 :: r) (Z.of_nat n) =
     Some (a ++ take n t ++ 0 :: drop (n `min` length t) dr)) /\
  (forall count, zlen a < count <= zlen (a ++ 0 :: dr) -> zlen a + zlen t < 2 ^ 32 ->
     strlcat (a ++ 0 :: dr) (t ++ 0 :: r) count =
     Some (let k := (Z.to_nat (count - zlen a - 1) `min` length t)%nat in a ++ take k t ++ 0 :: drop k dr,
           zlen a + zlen t)).
Proof.
  intros Ht Ha. split_and!.
  - by apply strcpy_ok.
  - by apply strcpy_overflow.
  - intros n Hn. by apply strncpy_ok.
  - intros size Hs. by apply strlcpy_ok.
  - by apply strcat_ok.
  - intros n Hn Hw. by apply strncat_ok.
  - intros count Hc Hw. by apply strlcat_ok.
Qed.

Lemma string_copies_witness :
  strcpy [7; 7; 7; 7; 7] [104; 105; 0] = Some [104; 105; 0; 7; 7] /\
  strncpy [7; 7; 7; 7; 7] [104; 105; 0] 4 = Some [104; 105; 0; 0; 7].
Proof.
  destruct (string_copies [104; 105] [] [7; 7; 7; 7; 7] [] []) as (H1 & _ & H2 & _); [repeat constructor; lia..|].
  split; [by apply H1|]. apply (H2 4%nat). cbn. lia.
Defined.

(** the comparisons of two strings, by the sign of their result: strcmp()
    and strncmp() order the strings, or their first [n] bytes, by the first
    byte that differs and a prefix before its extensions, with results -1, 0
    and 1; strcasecmp(), strnicmp() and, for [n > 0], strncasecmp() do so for the strings in
    lower case; memcmp() does so for areas, whatever bytes they hold;
    sysfs_streq() accepts equal strings up to one trailing newline. *)
Theorem string_compares t1 t2 r1 r2 : str t1 -> str t2 ->
  (exists r, strcmp (t1 ++ 0 :: r1) (t2 ++ 0 :: r2) = Some r /\ -1 <= r <= 1 /\ cmp_res t1 t2 r) /\
  (forall n, exists r, strncmp (t1 ++ 0 :: r1) (t2 ++ 0 :: r2) (Z.of_nat n) = Some r /\ -1 <= r <= 1 /\
     cmp_res (take n t1) (take n t2) r) /\
  (exists r, strcasecmp (t1 ++ 0 :: r1) (t2 ++ 0 :: r2) = Some r /\ cmp_res (tolower <$> t1) (tolower <$> t2) r) /\
  (forall n, Z.of_nat n < 2 ^ 32 -> exists r, strnicmp (t1 ++ 0 :: r1) (t2 ++ 0 :: r2) (Z.of_nat n) = Some r /\
     cmp_res (tolower <$> take n t1) (tolower <$> take n t2) r) /\
  (forall n, (0 < n)%nat -> Z.of_nat n < 2 ^ 32 ->
     exists r, strncasecmp (t1 ++ 0 :: r1) (t2 ++ 0 :: r2) (Z.of_nat n) = Some r /\
     cmp_res (tolower <$> take n t1) (tolower <$> take n t2) r) /\
  (forall n s1 s2, (n <= length s1)%nat -> (n <= length s2)%nat ->
     exists r, memcmp s1 s2 (Z.of_nat n) = Some r /\ cmp_res (take n s1) (take n s2) r) /\
  (exists b, sysfs_streq (t1 ++ 0 :: r1) (t2 ++ 0 :: r2) = Some b /\
     (b = true <-> t1 = t2 \/ t1 = t2 ++ [10] \/ t2 = t1 ++ [10])).
Proof.
  intros H1 H2. split_and!.
  - by apply strcmp_ok.
  - intros n. by apply strncmp_ok.
  - by apply strcasecmp_ok.
  - intros n Hn. destruct n as [|n]; [exists 0; split; [done|apply cmp_res_nil]|].
    unfold strnicmp. rewrite truth_nz by lia. cbn [negb]. apply strnicmp_do_ok; done || lia.
  - intros n Hn Hw. by apply strncasecmp_ok.
  - intros n s1 s2. apply memcmp_ok.
  - by apply sysfs_streq_ok.
Qed.

Lemma string_compares_witness : exists r, strcmp [97; 98; 0; 5] [97; 99; 0] = Some r /\ cmp_res [97; 98] [97; 99] r.
Proof.
  destruct (string_compares [97; 98] [97; 99] [5] []) as ((r & H & _ & Hr) & _); [repeat constructor; lia..|].
  exists r. split; [exact H|exact Hr].
Defined.

(** a limit of zero characters does not limit strncasecmp(): the
    counter wraps and the whole strings are compared, while strnicmp() and
    strncmp() return 0. *)
Theorem strncasecmp_zero_unlimited t1 t2 r1 r2 : str t1 -> str t2 -> zlen t1 < 2 ^ 32 - 1 ->
  strncasecmp (t1 ++ 0 :: r1) (t2 ++ 0 :: r2) 0 = strcasecmp (t1 ++ 0 :: r1) (t2 ++ 0 :: r2) /\
  strnicmp (t1 ++ 0 :: r1) (t2 ++ 0 :: r2) 0 = Some 0.
Proof.
  intros H1 H2 Hw. split; [|done].
  rewrite <-(strncasecmp_zero_ok r1 r2 t1 H1 t2 (2 ^ 32 - 1)) by (done || lia).
  destruct t1, t2; reflexivity.
Qed.

Lemma strncasecmp_zero_unlimited_witness : strncasecmp [97; 0] [98; 0] 0 = strcasecmp [97; 0] [98; 0].
Proof.
  apply (strncasecmp_zero_unlimited [97] [98] [] []); [repeat constructor; lia..|].
  change (1 < 2 ^ 32 - 1). lia.
Defined.

(** the searches in a string [t], in its first [n] bytes or in an area
    [s] return the first place of what they look for, or NULL when it is
    nowhere, and strrchr() the last place, the terminator counting as a byte of
    the string for strchr() and strrchr(); strspn() and strcspn() return the length of the
    longest initial part inside or outside the set; strstr() and strnstr()
    return the first occurrence of the string [u], strnstr() also behind a
    terminator. *)
Theorem string_searches t r a ra s c n : str t -> str a -> 0 <= n <= zlen s ->
  (exists k, strchr (t ++ 0 :: r) c = Some k /\
     first_at (sat (fun x => x =? u8 c) (t ++ [0])) (zlen t + 1) k) /\
  (exists k, strrchr (t ++ 0 :: r) c = Some k /\
     last_at (fun i => (t ++ [0]).[i] = Some (u8 c)) (zlen t + 1) k) /\
  (exists k, memchr s c n = Some k /\ first_at (sat (fun x => x =? u8 c) (take (Z.to_nat n) s)) n k) /\
  (exists k, strpbrk (t ++ 0 :: r) (a ++ 0 :: ra) = Some k /\
     first_at (sat (fun x => bool_decide (x ∈ a)) t) (zlen t) k) /\
  (exists k, strcspn (t ++ 0 :: r) (a ++ 0 :: ra) = Some k /\
     span_at (sat (fun x => negb (bool_decide (x ∈ a))) t) (zlen t) k) /\
  (exists k, strspn (t ++ 0 :: r) (a ++ 0 :: ra) = Some k /\
     span_at (sat (fun x => negb (negb (bool_decide (x ∈ a)))) t) (zlen t) k) /\
  (exists k, strstr (t ++ 0 :: r) (a ++ 0 :: ra) = Some k /\ first_at (occurs t a) (zlen t - zlen a + 1) k) /\
  (exists k, strnstr s (a ++ 0 :: ra) n = Some k /\ first_at (occurs s a) (n - zlen a + 1) k).
Proof.
  intros Ht Ha Hn. split_and!.
  - eexists. split; [by apply strchr_find|]. change 1 with (zlen [0]). rewrite <-zlen_app. apply find_first.
  - by apply strrchr_ok.
  - eexists. split; [by apply memchr_find|]. replace n with (zlen (take (Z.to_nat n) s)) at 2; [apply find_first|].
    unfold zlen in *. rewrite length_take. lia.
  - eexists. split; [by apply strpbrk_find|apply find_first].
  - eexists. split; [by apply strcspn_find|apply find_span].
  - eexists. split; [by apply strspn_find|apply find_span].
  - by apply strstr_ok.
  - by apply strnstr_ok.
Qed.

Lemma string_searches_witness : exists k,
  strstr ([97; 98; 97; 99] ++ [0; 9]) ([97; 99] ++ [0]) = Some k /\
  first_at (occurs [97; 98; 97; 99] [97; 99]) (zlen [97; 98; 97; 99] - zlen [97; 99] + 1) k.
Proof.
  apply (string_searches [97; 98; 97; 99] [9] [97; 99] [] [] 0 0); [repeat constructor; lia..|].
  change (0 <= 0 <= 0). lia.
Defined.

(** memmove() copies [n] bytes between two areas of one buffer as if
    through a temporary copy, however they overlap, and changes no other
    byte. *)
Theorem memmove_overlapping m dest src n : 0 <= n ->
  0 <= dest /\ dest + n <= zlen m -> 0 <= src /\ src + n <= zlen m ->
  exists m', memmove m dest src n = Some m' /\ moved m dest src dest (dest + n) m'.
Proof. intros Hn Hd Hs. by apply memmove_ok. Qed.

Lemma memmove_overlapping_witness : exists m',
  memmove [1; 2; 3; 4; 5] 1 0 4 = Some m' /\ moved [1; 2; 3; 4; 5] 1 0 1 5 m'.
Proof. apply (memmove_overlapping [1; 2; 3; 4; 5] 1 0 4); change (zlen [1; 2; 3; 4; 5]) with 5; lia. Defined.

(** the functions that edit a string in place: strsep() returns the
    string up to the first separator, terminated there, and moves the caller's
    pointer behind it, or to NULL after the last token; strim() returns the text without the white space around it
    and terminates it behind its last character, and leaves a blank string as it is. *)
Theorem string_edits pre u c v r a ra w1 t w2 x y :
  str (u ++ c :: v) -> str a -> (forall x, x ∈ u -> x ∉ a) -> c ∈ a ->
  str t -> str w2 -> head t = Some x -> list.last t = Some y -> isspace x = false -> isspace y = false ->
  Forall (fun c => isspace c = true) w1 -> Forall (fun c => isspace c = true) w2 ->
  strsep (pre ++ (u ++ c :: v) ++ 0 :: r) (Some (zlen pre)) (a ++ 0 :: ra) =
    Some (pre ++ u ++ 0 :: v ++ 0 :: r, Some (zlen pre + zlen u + 1), Some (zlen pre)) /\
  strsep (pre ++ u ++ 0 :: r) (Some (zlen pre)) (a ++ 0 :: ra) = Some (pre ++ u ++ 0 :: r, None, Some (zlen pre)) /\
  strim (w1 ++ t ++ w2 ++ 0 :: r) = Some (w1 ++ t ++ 0 :: tail (w2 ++ 0 :: r), zlen w1) /\
  strim (w1 ++ 0 :: r) = Some (w1 ++ 0 :: r, zlen w1).
Proof.
  intros Hu Ha Hno Hc Ht Hw Hx Hy Hsx Hsy H1 H2. split_and!.
  - by apply strsep_some.
  - apply strsep_none; [|done..]. by apply str_app in Hu as [? _].
  - by eapply strim_trims.
  - by apply strim_blank.
Qed.

Lemma string_edits_witness :
  strsep [97; 44; 98; 0] (Some 0) [44; 0] = Some ([97; 0; 98; 0], Some 2, Some 0) /\
  strim [32; 97; 32; 32; 0] = Some ([32; 97; 0; 32; 0], 1).
Proof.
  assert (Hs : forall x, x ∈ [97] -> x ∉ [44]).
  { intros x Hx Hy. apply list_elem_of_singleton in Hx, Hy. lia. }
  assert (H44 : 44 ∈ [44]) by by apply list_elem_of_singleton.
  destruct (string_edits [] [97] 44 [98] [] [44] [] [32] [97] [32; 32] 97 97) as (H1 & _ & H3 & _);
    [repeat constructor; lia|repeat constructor; lia|exact Hs|exact H44|repeat constructor; lia|repeat constructor; lia|
     reflexivity|reflexivity|reflexivity|reflexivity|repeat constructor|repeat constructor|].
  split; [exact H1|exact H3].
Defined.
