(* ===== verification/Kmp.v ===== *)
(** * Searching text: lib/ts_kmp.c and the search interface of lib/textsearch.c

    The search of Knuth, Morris and Pratt finds a pattern in a text that is delivered in
    blocks.  The theorem is that it finds the first occurrence behind its offset, also across the borders of
    blocks, whatever the blocks are, and with upper and lower case told apart or not. *)

From stdpp Require Import list.
From S2P Require Import Prelude CString.

(** ** Definitions *)

Definition TS_IGNORECASE : Z := 2.
Definition UINT_MAX : Z := 2 ^ 32 - 1.

Record ts_kmp := { pattern : list Z; pattern_len : Z; prefix_tbl : list Z; flags : Z }.

(** [icase ? toupper(c) : c] *)
Definition fold_case (fl c : Z) : Z := if truth (Z.land fl TS_IGNORECASE) then toupper c else c.

(** The while loop of both functions: [get] reads the pattern. *)
Definition fall_back_body (get : Z -> option Z) (tbl : list Z) (c q : Z) : option (step Z Z) :=
  if 0 <? q then
    p ← get q;
    if negb (p =? c) then q ← tbl.[q - 1]; Some (Next q) else Some (Done q)
  else Some (Done q).

(** The rest of a round: the character matches the next one of the pattern, or not. *)
Definition kmp_advance (get : Z -> option Z) (tbl : list Z) (c q : Z) : option Z :=
  q ← loop (fall_back_body get tbl c) (q + 1) q;
  p ← get q;
  Some (if p =? c then q + 1 else q).

(** (k, q, prefix_tbl) *)
Definition prefix_body (pat : list Z) (len fl : Z) (st : Z * Z * list Z) : option (step (Z * Z * list Z) (list Z)) :=
  let '(k, q, tbl) := st in
  if q <? len then
    c ← fold_case fl <$> pat.[q];
    k ← kmp_advance (fun k => fold_case fl <$> pat.[k]) tbl c k;
    tbl ← tbl.[q <- k];
    Some (Next (k, q + 1, tbl))
  else Some (Done tbl).
Definition compute_prefix_tbl (pat : list Z) (len : Z) (tbl : list Z) (fl : Z) : option (list Z) :=
  loop (prefix_body pat len fl) (len + 1) (0, 1, tbl).

(** alloc_ts_config(): the structure ts_config of 16 bytes and the private part behind it, cleared; [alloc] tells for which sizes there is memory.
    The result is the number of bytes of the private part that are in the memory. *)
Definition TS_PRIV_ALIGN (len : Z) : Z := Z.land (len + 8 - 1) (Z.lnot (8 - 1)).
Definition alloc_ts_config (alloc : Z -> bool) (payload : Z) : option Z :=
  let size := u32 (TS_PRIV_ALIGN 16 + payload) in
  if alloc size then Some (size - TS_PRIV_ALIGN 16) else None.

(** The private part is the structure ts_kmp of 8 bytes, the table, and the pattern at [prefix_tbl_len] bytes from the start of the table.  All sizes
    are of 32 bits; the table reaches as far as the memory does. *)
Definition kmp_init (alloc : Z -> bool) (pat : list Z) (len fl : Z) : option (Z + ts_kmp) :=
  let prefix_tbl_len := u32 (len * 4) in
  let priv_size := u32 (8 + len + prefix_tbl_len) in
  match alloc_ts_config alloc priv_size with
  | None => Some (inl (- ENOMEM))
  | Some area =>
      tbl ← compute_prefix_tbl pat len (replicate (Z.to_nat ((area - 8) / 4)) 0) fl;
      if area <? 8 + prefix_tbl_len + len then None
      else Some (inr {| pattern := fold_case fl <$> take (Z.to_nat len) pat; pattern_len := len; prefix_tbl := take (Z.to_nat len) tbl; flags := fl |})
  end.

(** The for loop over a block: (i, q); it is left with the end of an occurrence, or with the state at the end of the block. *)
Definition kmp_scan_body (kmp : ts_kmp) (text : list Z) (st : Z * Z) : option (step (Z * Z) (Z + Z)) :=
  let '(i, q) := st in
  if i <? zlen text then
    c ← fold_case (flags kmp) <$> text.[i];
    q ← kmp_advance (arr_get (pattern kmp)) (prefix_tbl kmp) c q;
    if q =? pattern_len kmp then Some (Done (inr i)) else Some (Next (i + 1, q))
  else Some (Done (inl q)).

(** [fetch] is get_next_block(): the block behind the bytes that are consumed.  (consumed, q) *)
Definition find_body (fetch : Z -> list Z) (kmp : ts_kmp) (offset : Z) (st : Z * Z) : option (step (Z * Z) (Z * Z)) :=
  let '(consumed, q) := st in
  let text := fetch consumed in
  if zlen text =? 0 then Some (Done (UINT_MAX, offset))
  else
    r ← loop (kmp_scan_body kmp text) (zlen text + 1) (0, q);
    match r with
    | inr i => let offset := u32 (consumed + i + 1) in Some (Done (u32 (offset - pattern_len kmp), offset))
    | inl q => Some (Next (u32 (consumed + zlen text), q))
    end.
(** The result and the offset in the state; a search ends after fewer than 2^32 blocks. *)
Definition kmp_find (fetch : Z -> list Z) (kmp : ts_kmp) (offset : Z) : option (Z * Z) := loop (find_body fetch kmp offset) (2 ^ 32) (offset, 0).

(** textsearch_find() and textsearch_next(), with the callback finish() left out. *)
Definition textsearch_next (fetch : Z -> list Z) (kmp : ts_kmp) (offset : Z) : option (Z * Z) := kmp_find fetch kmp offset.
Definition textsearch_find (fetch : Z -> list Z) (kmp : ts_kmp) : option (Z * Z) := textsearch_next fetch kmp 0.

Definition get_linear_data (data : list Z) (len consumed : Z) : list Z :=
  if consumed <? len then take (Z.to_nat (len - consumed)) (drop (Z.to_nat consumed) data) else [].
Definition textsearch_find_continuous (kmp : ts_kmp) (data : list Z) (len : Z) : option (Z * Z) :=
  textsearch_find (get_linear_data data len) kmp.

(** textsearch_prepare() with this algorithm. *)
Definition textsearch_prepare (alloc : Z -> bool) (pat : list Z) (len fl : Z) : option (Z + ts_kmp) :=
  if len =? 0 then Some (inl (- EINVAL)) else kmp_init alloc pat len fl.

(** ** Borders *)

Section Pattern.
Context (P : list Z).

(** The first [k] characters of the pattern are the end of [T]. *)
Definition ends_text (k : Z) (T : list Z) : Prop := 0 <= k <= zlen P /\ take (Z.to_nat k) P `suffix_of` T.

Lemma ends_0 T : ends_text 0 T.
Proof. split; [pose proof (zlen_nonneg P); lia|]. apply suffix_nil. Qed.

Lemma ends_le k T : ends_text k T -> k <= zlen T.
Proof. intros [Hk [U ->]]. rewrite zlen_app, zlen_take by lia. pose proof (zlen_nonneg U). lia. Qed.

Lemma ends_snoc k T c : 0 <= k -> ends_text (k + 1) (T ++ [c]) <-> ends_text k T /\ P.[k] = Some c.
Proof.
  intros Hk. split.
  - intros [Hk1 Hs]. destruct (arr_get_is_Some P k) as [d Hd]; [lia|]. pose proof Hd as [_ Hd']%arr_get_Some.
    replace (Z.to_nat (k + 1)) with (S (Z.to_nat k)) in Hs by lia. rewrite (take_S_r _ _ _ Hd') in Hs.
    destruct Hs as [U HU]. rewrite app_assoc in HU. apply app_inj_tail in HU as [-> ->]. split; [|done]. split; [lia|]. by exists U.
  - intros [[Hk1 [U ->]] Hd]. pose proof (arr_get_range _ _ _ Hd). pose proof Hd as [_ Hd']%arr_get_Some. split; [lia|].
    replace (Z.to_nat (k + 1)) with (S (Z.to_nat k)) by lia. rewrite (take_S_r _ _ _ Hd'). exists U. by rewrite app_assoc.
Qed.

(** Of two beginnings of the pattern that end a text, the shorter ends the longer. *)
Lemma ends_nested k q T : ends_text q T -> 0 <= k <= q -> ends_text k T <-> ends_text k (take (Z.to_nat q) P).
Proof.
  intros [Hq HU] Hk. split.
  - intros [Hk1 HV]. split; [done|]. destruct (suffix_weak_total _ _ _ HV HU) as [?|[W HW]]; [done|]. exists [].
    assert (zlen (take (Z.to_nat k) P) = zlen W + zlen (take (Z.to_nat q) P)) as Hl by (by rewrite HW, zlen_app).
    rewrite !zlen_take in Hl by lia. pose proof (zlen_nonneg W). assert (W = []) as -> by (apply zlen_nil_inv; lia). done.
  - intros [Hk1 HV]. split; [done|]. by etrans.
Qed.

(** The longest beginning of the pattern that ends [T] and is not the whole pattern. *)
Definition longest (q : Z) (T : list Z) : Prop := ends_text q T /\ forall k, ends_text k T -> k <= q.

(** The entries of the table for the beginnings of up to [n] characters: the longest proper border. *)
Definition table (tbl : list Z) (n : Z) : Prop :=
  forall q, 1 <= q <= n -> exists k, tbl.[q - 1] = Some k /\ 0 <= k < q /\ ends_text k (take (Z.to_nat q) P) /\ forall j, j < q -> ends_text j (take (Z.to_nat q) P) -> j <= k.

(** A round takes the longest match with a text to that with one more character. *)
Lemma kmp_advance_ok get tbl n q T c : (forall k, 0 <= k < zlen P -> get k = P.[k]) -> table tbl n -> longest q T -> q <= n -> q < zlen P ->
  exists q', kmp_advance get tbl c q = Some q' /\ longest q' (T ++ [c]) /\ 0 <= q' <= q + 1.
Proof.
  intros Hget Htbl [Hq Hmax] Hn Hlt. pose proof Hq as [Hq0 _].
  destruct (loop_total (fall_back_body get tbl c)
    (fun r => 0 <= r <= q /\ ends_text r T /\ forall k, 0 <= k -> ends_text (k + 1) (T ++ [c]) -> k <= r) (fun r => r)
    (fun r => 0 <= r <= q /\ ends_text r T /\ (forall k, 0 <= k -> ends_text (k + 1) (T ++ [c]) -> k <= r) /\ (r = 0 \/ P.[r] = Some c)))
    with (bound := q + 1) (s := q) as (r & E & Hr & Hre & Hrm & Hrc).
  - intros r (Hr & Hre & Hrm). split; [lia|]. unfold fall_back_body. bcase; [|split_and!; try done; try lia; left; lia].
    rewrite Hget by lia. destruct (arr_get_is_Some P r) as [p Hp]; [lia|]. rewrite Hp, bind_Some.
    destruct (Z.eqb_spec p c) as [->|Hpc]; cbn [negb]; [split; [done|]; split; [done|]; split; [done|by right]|].
    destruct (Htbl r) as (k & -> & Hk & Hke & Hkm); [lia|]. rewrite bind_Some. split; [|lia]. split; [lia|].
    split; [apply (ends_nested k r T); [done|lia|done]|]. intros j Hj Hjc. pose proof (Hrm j Hj Hjc) as Hjr. apply ends_snoc in Hjc as [Hjc Hjp]; [|done].
    assert (j <> r) by (intros ->; congruence). apply Hkm; [lia|]. apply (ends_nested j r T); [done|lia|done].
  - split; [lia|]. split; [done|]. intros k Hk [Hke _]%ends_snoc; [|done]. by apply Hmax.
  - lia.
  - unfold kmp_advance. rewrite E, bind_Some, Hget by lia. destruct (arr_get_is_Some P r) as [p Hp]; [lia|]. rewrite Hp, bind_Some. eexists. split; [done|].
    assert (Hlong : forall b, (forall k, 0 <= k -> ends_text (k + 1) (T ++ [c]) -> k < b) -> forall k, ends_text k (T ++ [c]) -> k <= Z.max 0 b).
    { intros b Hb k Hk. destruct (decide (k <= 0)); [lia|]. specialize (Hb (k - 1) ltac:(lia)). replace (k - 1 + 1) with k in Hb by lia. specialize (Hb Hk). lia. }
    destruct (Z.eqb_spec p c) as [->|Hpc].
    + split; [|lia]. split; [apply ends_snoc; [lia|done]|]. intros k Hk. replace (r + 1) with (Z.max 0 (r + 1)) by lia. apply Hlong; [|done].
      intros j Hj Hjc. specialize (Hrm j Hj Hjc). lia.
    + destruct Hrc as [->|Hrc]; [|congruence]. split; [|lia]. split; [apply ends_0|]. intros k Hk. apply (Hlong 0); [|done]. intros j Hj Hjc.
      pose proof (Hrm j Hj Hjc). assert (j = 0) as -> by lia. apply ends_snoc in Hjc as [_ Hjc]; [|done]. congruence.
Qed.

(** ** The table *)

Lemma ends_proper k q : 1 <= q <= zlen P -> 0 <= k -> ends_text k (drop 1 (take (Z.to_nat q) P)) <-> ends_text k (take (Z.to_nat q) P) /\ k < q.
Proof.
  intros Hq Hk. assert (Hlen : zlen (drop 1 (take (Z.to_nat q) P)) = q - 1).
  { change 1%nat with (Z.to_nat 1). rewrite zlen_drop; rewrite zlen_take; lia. }
  split.
  - intros He. pose proof (ends_le _ _ He). split; [|lia]. destruct He as [Hk' He]. split; [done|]. etrans; [exact He|]. apply suffix_drop.
  - intros [[Hk' [U HU]] Hlt]. split; [done|]. destruct U as [|u U].
    + exfalso. assert (zlen (take (Z.to_nat q) P) = zlen (take (Z.to_nat k) P)) as E by (by rewrite HU). rewrite !zlen_take in E by lia. lia.
    + rewrite HU. by exists U.
Qed.

Lemma proper_snoc q c : 1 <= q -> P.[q] = Some c -> drop 1 (take (Z.to_nat q) P) ++ [c] = drop 1 (take (Z.to_nat (q + 1)) P).
Proof.
  intros Hq [_ Hc]%arr_get_Some. replace (Z.to_nat (q + 1)) with (S (Z.to_nat q)) by lia. rewrite (take_S_r _ _ _ Hc).
  rewrite drop_app_le; [done|]. rewrite length_take. apply lookup_lt_Some in Hc. lia.
Qed.

Lemma table_snoc tbl q k : table tbl q -> 1 <= q < zlen P -> q < zlen tbl -> longest k (drop 1 (take (Z.to_nat (q + 1)) P)) ->
  table (<[Z.to_nat q := k]> tbl) (q + 1).
Proof.
  intros Ht Hq Hlen [Hk Hmax] r Hr. rewrite arr_get_insert by lia. case_decide as E.
  - assert (r = q + 1) as -> by lia. exists k. pose proof Hk as [Hk0 _]. apply ends_proper in Hk as [Hk Hkq]; [|lia|lia]. split; [done|]. split; [lia|]. split; [done|].
    intros j Hj Hje. apply Hmax. apply ends_proper; [lia|apply Hje|done].
  - apply Ht. lia.
Qed.
End Pattern.

Lemma fold_get fl (pat : list Z) len k : 0 <= len <= zlen pat -> 0 <= k < len -> (fold_case fl <$> take (Z.to_nat len) pat).[k] = fold_case fl <$> pat.[k].
Proof.
  intros Hlen Hk. rewrite !arr_get_nat by lia. rewrite list_lookup_fmap. f_equal. apply lookup_take_lt. lia.
Qed.

Lemma zlen_fmap {A B} (f : A -> B) (l : list A) : zlen (f <$> l) = zlen l.
Proof. unfold zlen. by rewrite length_fmap. Qed.

(** The table has the longest proper border of every beginning of the pattern. *)
Lemma compute_prefix_tbl_ok pat len fl N : 1 <= len <= zlen pat -> len <= N ->
  exists tbl, compute_prefix_tbl pat len (replicate (Z.to_nat N) 0) fl = Some tbl /\ table (fold_case fl <$> take (Z.to_nat len) pat) tbl len.
Proof.
  intros Hlen HN. set (P := fold_case fl <$> take (Z.to_nat len) pat).
  assert (HP : zlen P = len) by (unfold P; rewrite zlen_fmap, zlen_take; lia).
  apply (loop_total (prefix_body pat len fl)
    (fun '(k, q, tbl) => 1 <= q <= len /\ zlen tbl = N /\ table P tbl q /\ longest P k (drop 1 (take (Z.to_nat q) P))) (fun '(_, q, _) => len - q)).
  2: { split; [lia|]. split; [unfold zlen; rewrite length_replicate; lia|]. split.
       - intros q Hq. assert (q = 1) as -> by lia. exists 0. split; [apply arr_get_Some; split; [done|]; apply lookup_replicate; split; [done|lia]|].
         split; [lia|]. split; [apply ends_0|]. intros j Hj _. lia.
       - destruct P as [|p P']; [change (zlen (@nil Z)) with 0 in HP; lia|]. split; [apply ends_0|]. intros k Hk%ends_le. done. }
  2: lia.
  intros [[k q] tbl] (Hq & Htl & Htbl & Hlong). split; [lia|]. unfold prefix_body. bcase; [|replace q with len in Htbl by lia; done].
  destruct (arr_get_is_Some P q) as [c Hc]; [lia|]. rewrite <- (fold_get fl pat len q) by lia. fold P. rewrite Hc, bind_Some.
  pose proof Hlong as [Hk _]. pose proof Hk as [Hk0 _]. apply ends_proper in Hk as [_ Hkq]; [|lia|lia].
  destruct (kmp_advance_ok P (fun k => fold_case fl <$> pat.[k]) tbl q k (drop 1 (take (Z.to_nat q) P)) c) as (k' & -> & Hlong' & Hk'); [|done|done|lia|lia|].
  { intros j Hj. symmetry. apply fold_get; lia. }
  rewrite bind_Some, arr_set_Some, bind_Some by lia. rewrite (proper_snoc P q c) in Hlong' by (done || lia).
  split; [|lia]. split; [lia|]. split; [by rewrite zlen_insert|]. split; [apply table_snoc; [done|lia|lia|done]|done].
Qed.

(** ** The search *)

(** The pattern [P] is at the position [p] of the text [F]. *)
Definition found_at (P F : list Z) (p : Z) : Prop := 0 <= p /\ p + zlen P <= zlen F /\ forall i, 0 <= i < zlen P -> F.[p + i] = P.[i].

(** The text between two positions. *)
Definition between (F : list Z) (a b : Z) : list Z := drop (Z.to_nat a) (take (Z.to_nat b) F).

Lemma zlen_between F a b : 0 <= a <= b -> b <= zlen F -> zlen (between F a b) = b - a.
Proof. intros Ha Hb. unfold between. rewrite zlen_drop; rewrite zlen_take; lia. Qed.

Lemma between_get F a b i : 0 <= a -> 0 <= i -> a + i < b -> (between F a b).[i] = F.[a + i].
Proof. intros Ha Hi Hb. unfold between. rewrite arr_get_drop, arr_get_take by lia. done. Qed.

Lemma between_snoc F a b c : 0 <= a <= b -> F.[b] = Some c -> between F a (b + 1) = between F a b ++ [c].
Proof.
  intros Hab Hc. pose proof (arr_get_range _ _ _ Hc). apply arr_get_Some in Hc as [_ Hc]. unfold between.
  replace (Z.to_nat (b + 1)) with (S (Z.to_nat b)) by lia. rewrite (take_S_r _ _ _ Hc), drop_app_le; [done|]. rewrite length_take. unfold zlen in *. lia.
Qed.

Lemma occurs_ends P F a p : 0 <= a <= p -> p + zlen P <= zlen F -> ends_text P (zlen P) (between F a (p + zlen P)) <-> found_at P F p.
Proof.
  intros Ha Hp. pose proof (zlen_nonneg P). unfold ends_text. rewrite take_ge by (unfold zlen; lia).
  assert (HT : zlen (between F a (p + zlen P)) = p + zlen P - a) by (apply zlen_between; lia). split.
  - intros [_ [U HU]]. split; [lia|]. split; [done|]. intros i Hi. rewrite HU, zlen_app in HT.
    replace (p + i) with (a + (zlen U + i)) by lia. pose proof (zlen_nonneg U). rewrite <- (between_get F a (p + zlen P)) by lia.
    rewrite HU, arr_get_app_r by lia. f_equal. lia.
  - intros (_ & _ & Ho). split; [lia|]. exists (take (Z.to_nat (p - a)) (between F a (p + zlen P))).
    rewrite <- (take_drop (Z.to_nat (p - a)) (between F a (p + zlen P))) at 1. f_equal. apply arr_ext; [rewrite zlen_drop; lia|].
    intros i Hi. rewrite zlen_drop in Hi by lia. rewrite arr_get_drop, between_get by lia. rewrite <- Ho by lia. f_equal. lia.
Qed.

(** The text comes in blocks, and the block at its end is empty. *)
Class TextSource (fetch : Z -> list Z) (text : list Z) := {
  fetch_block : forall n, 0 <= n <= zlen text -> exists rest, drop (Z.to_nat n) text = fetch n ++ rest;
  fetch_end : forall n, 0 <= n < zlen text -> fetch n <> []
}.

#[export] Instance linear_source data len : TCEq (zlen data) len -> TextSource (get_linear_data data len) data.
Proof.
  intros <-%TCEq_eq. split.
  - intros n Hn. exists []. rewrite app_nil_r. unfold get_linear_data. bcase.
    + rewrite take_ge; [done|]. rewrite length_drop. unfold zlen. lia.
    + replace n with (zlen data) by lia. unfold zlen. rewrite Nat2Z.id. by rewrite drop_ge by lia.
  - intros n Hn E. unfold get_linear_data in E. rewrite (proj2 (Z.ltb_lt _ _)) in E by lia.
    assert (zlen (take (Z.to_nat (zlen data - n)) (drop (Z.to_nat n) data)) = 0) as E0 by (by rewrite E). rewrite zlen_take in E0; [lia|].
    rewrite zlen_drop by lia. lia.
Qed.

(** What a search configuration is for: the pattern in the right case and its table. *)
Definition prepared (kmp : ts_kmp) (P : list Z) (fl : Z) : Prop :=
  pattern kmp = P /\ pattern_len kmp = zlen P /\ flags kmp = fl /\ 1 <= zlen P /\ table P (prefix_tbl kmp) (zlen P).

Section Find.
Context (kmp : ts_kmp) (P : list Z) (fl : Z) (Hkmp : prepared kmp P fl).
Context (F : list Z) (off : Z) (Hoff : 0 <= off <= zlen F).

(** The text up to [pos] has no occurrence, and [q] characters of one that may come. *)
Definition searched (pos q : Z) : Prop :=
  off <= pos <= zlen F /\ longest P q (between F off pos) /\ q < zlen P /\ forall p, off <= p -> p + zlen P <= pos -> ~ found_at P F p.

Lemma searched_start : searched off 0.
Proof.
  destruct Hkmp as (_ & _ & _ & HP & _). split; [lia|]. split; [|split; [lia|intros p Hp Hp'; lia]]. split; [apply ends_0|].
  intros k Hk%ends_le. rewrite zlen_between in Hk by lia. lia.
Qed.

(** One more character: the pattern ends here, or the search goes on. *)
Lemma searched_next pos q c : searched pos q -> F.[pos] = Some c ->
  exists q', kmp_advance (arr_get (pattern kmp)) (prefix_tbl kmp) c q = Some q' /\
    if q' =? pattern_len kmp then found_at P F (pos + 1 - zlen P) /\ off <= pos + 1 - zlen P /\ forall p, off <= p < pos + 1 - zlen P -> ~ found_at P F p
    else searched (pos + 1) q'.
Proof.
  destruct Hkmp as (EP & El & _ & HP & Htbl). intros (Hpos & Hlong & Hq & Hno) Hc. pose proof (arr_get_range _ _ _ Hc).
  destruct (kmp_advance_ok P (arr_get (pattern kmp)) (prefix_tbl kmp) (zlen P) q (between F off pos) c) as (q' & E & Hlong' & Hq'); [by rewrite EP|done|done|lia|done|].
  exists q'. split; [done|]. rewrite <- between_snoc in Hlong' by (done || lia). rewrite El. destruct (Z.eqb_spec q' (zlen P)) as [->|Hne].
  - destruct Hlong' as [He _]. pose proof (ends_le _ _ _ He) as Hle. rewrite zlen_between in Hle by lia.
    split; [|split; [lia|intros p Hp; apply Hno; lia]]. apply (occurs_ends P F off); [lia|lia|]. by replace (pos + 1 - zlen P + zlen P) with (pos + 1) by lia.
  - destruct Hlong' as [He Hmax]. pose proof He as [Hq0 _]. split; [lia|]. split; [done|]. split; [lia|]. intros p Hp Hp' Ho.
    destruct (decide (p + zlen P <= pos)) as [|Hgt]; [by apply (Hno p)|]. assert (p + zlen P = pos + 1) as Epos by lia.
    apply (occurs_ends P F off p) in Ho; [|lia|lia]. rewrite Epos in Ho. apply Hmax in Ho. lia.
Qed.

(** The first occurrence behind the offset. *)
Definition first_match (p : Z) : Prop := found_at P F p /\ off <= p /\ forall p', off <= p' < p -> ~ found_at P F p'.

Lemma scan_ok blk n q : (forall i, 0 <= i < zlen blk -> fold_case fl <$> blk.[i] = F.[n + i]) -> 0 <= n -> n + zlen blk <= zlen F -> searched n q ->
  exists r, loop (kmp_scan_body kmp blk) (zlen blk + 1) (0, q) = Some r /\
    match r with inl q' => searched (n + zlen blk) q' | inr i => 0 <= i < zlen blk /\ first_match (n + i + 1 - zlen P) end.
Proof.
  intros Hblk Hn Hlen Hs. pose proof Hkmp as (_ & El & Ef & HP & _).
  apply (loop_total (kmp_scan_body kmp blk) (fun '(i, q) => 0 <= i <= zlen blk /\ searched (n + i) q) (fun '(i, _) => zlen blk - i)).
  2: { pose proof (zlen_nonneg blk). split; [lia|]. by rewrite Z.add_0_r. }
  2: lia.
  intros [i r] [Hi Hsi]. split; [lia|]. unfold kmp_scan_body. bcase; [|by replace i with (zlen blk) in Hsi by lia].
  rewrite Ef, Hblk by lia. destruct (arr_get_is_Some F (n + i)) as [c Hc]; [lia|]. rewrite Hc, bind_Some.
  destruct (searched_next (n + i) r c Hsi Hc) as (q' & -> & Hq'). rewrite bind_Some. destruct (Z.eqb_spec q' (pattern_len kmp)) as [E|E].
  - split; [lia|]. done.
  - split; [|lia]. split; [lia|]. by replace (n + (i + 1)) with (n + i + 1) by lia.
Qed.
End Find.

Lemma source_get fl fetch text n i : TextSource fetch text -> 0 <= n <= zlen text ->
  n + zlen (fetch n) <= zlen text /\ (0 <= i < zlen (fetch n) -> fold_case fl <$> (fetch n).[i] = (fold_case fl <$> text).[n + i]).
Proof.
  intros Hs Hn. destruct (fetch_block n Hn) as [rest E]. assert (Hl : zlen (drop (Z.to_nat n) text) = zlen (fetch n) + zlen rest) by (by rewrite E, zlen_app).
  rewrite zlen_drop in Hl by lia. pose proof (zlen_nonneg rest). split; [lia|]. intros Hi.
  rewrite !arr_get_nat by lia. rewrite list_lookup_fmap. f_equal. rewrite <- !arr_get_nat by lia. rewrite <- arr_get_drop by lia. rewrite E, arr_get_app_l by lia. done.
Qed.

Lemma kmp_find_ok kmp P fl fetch text off : prepared kmp P fl -> TextSource fetch text -> 0 <= off <= zlen text -> zlen text < UINT_MAX ->
  let F := fold_case fl <$> text in
  exists r off', kmp_find fetch kmp off = Some (r, off') /\
    (r = UINT_MAX /\ off' = off /\ (forall p, off <= p -> ~ found_at P F p) \/ first_match P F off r /\ off' = r + zlen P).
Proof.
  intros Hkmp Hsrc Hoff Hlen F. assert (HF : zlen F = zlen text) by apply zlen_fmap. unfold UINT_MAX in Hlen.
  destruct (loop_total (find_body fetch kmp off) (fun '(n, q) => 0 <= n /\ searched P F off n q) (fun '(n, _) => zlen text - n)
    (fun '(r, off') => r = UINT_MAX /\ off' = off /\ (forall p, off <= p -> ~ found_at P F p) \/ first_match P F off r /\ off' = r + zlen P))
    with (bound := 2 ^ 32) (s := (off, 0)) as ([r off'] & E & H).
  - intros [n q] [Hn Hs]. pose proof Hs as (Hpos & _ & _ & Hno). split; [lia|]. unfold find_body.
    destruct (source_get fl fetch text n 0 Hsrc ltac:(lia)) as [Hblk _]. pose proof (zlen_nonneg (fetch n)). destruct (Z.eqb_spec (zlen (fetch n)) 0) as [E|E].
    { left. do 2 (split; [done|]). intros p Hp Ho. apply (Hno p Hp); [|done]. destruct Ho as (_ & Ho & _).
      assert (n = zlen text); [|lia]. destruct (decide (n < zlen text)) as [Hlt|]; [|lia]. destruct (@fetch_end fetch text Hsrc n (conj Hn Hlt)). apply zlen_nil_inv. lia. }
    destruct (scan_ok kmp P fl Hkmp F off ltac:(lia) (fetch n) n q) as (r & -> & Hr); [|lia|lia|done|].
    { intros i Hi. by apply (source_get fl fetch text n i Hsrc ltac:(lia)). }
    rewrite bind_Some. destruct r as [q'|i].
    + split; [|rewrite u32_small by lia; lia]. rewrite u32_small by lia. split; [lia|done].
    + right. destruct Hr as [Hi Hr]. destruct Hkmp as (_ & El & _ & HP & _). rewrite El. pose proof Hr as ((Ho & _) & _).
      rewrite (u32_small (n + i + 1)), u32_small by lia. split; [done|lia].
  - split; [lia|]. by apply (searched_start kmp P fl); [|lia].
  - lia.
  - by exists r, off'.
Qed.

Lemma table_take P tbl n : 0 <= n -> table P tbl n -> table P (take (Z.to_nat n) tbl) n.
Proof. intros Hn Ht q Hq. destruct (Ht q Hq) as (k & E & H). exists k. by rewrite arr_get_take by lia. Qed.

(** There is memory for a pattern of this length, and its size in bytes does not wrap around. *)
Definition pattern_fits (len : Z) : Prop := 24 + 5 * len < 2 ^ 32.
Definition config_size (len : Z) : Z := 24 + 5 * len.

Lemma alloc_ts_config_fits alloc len : 0 <= len -> pattern_fits len ->
  alloc_ts_config alloc (u32 (8 + len + u32 (len * 4))) = if alloc (config_size len) then Some (8 + 5 * len) else None.
Proof.
  unfold pattern_fits, config_size, alloc_ts_config. intros Hlen Hfit. change (TS_PRIV_ALIGN 16) with 16. rewrite (u32_small (len * 4)), (u32_small (_ + len * 4)), u32_small by lia.
  replace (16 + (8 + len + len * 4)) with (24 + 5 * len) by lia. destruct (alloc _); [f_equal; lia|done].
Qed.

(** C17: A search configuration is made for every pattern that is not empty and whose configuration of 24 bytes and 5 for each character has a 32-bit size, unless there is
    no memory.  With it a search in any text, delivered in any blocks, ends;
    it gives the position of the first occurrence of the pattern at or behind the offset, with the case of letters ignored if so asked, and continues behind it; or it finds
    that there is none and gives UINT_MAX. *)
Theorem kmp_search_correct alloc pat len fl :
  0 <= len <= zlen pat -> pattern_fits len ->
  match textsearch_prepare alloc pat len fl with
  | Some (inr kmp) => 1 <= len /\ alloc (config_size len) = true /\ forall fetch text off, TextSource fetch text -> 0 <= off <= zlen text -> zlen text < UINT_MAX ->
      let P := fold_case fl <$> take (Z.to_nat len) pat in
      let F := fold_case fl <$> text in
      exists r off', textsearch_next fetch kmp off = Some (r, off') /\
        (r = UINT_MAX /\ off' = off /\ (forall p, off <= p -> ~ found_at P F p) \/
         found_at P F r /\ off <= r /\ (forall p, off <= p < r -> ~ found_at P F p) /\ off' = r + len)
  | Some (inl e) => len = 0 /\ e = - EINVAL \/ alloc (config_size len) = false /\ e = - ENOMEM
  | None => False
  end.
Proof.
  intros Hlen Hfit. unfold textsearch_prepare. destruct (Z.eqb_spec len 0) as [->|Hne]; [by left|]. unfold kmp_init. rewrite alloc_ts_config_fits by (done || lia).
  destruct (alloc (config_size len)); [|by right]. unfold pattern_fits in Hfit.
  destruct (compute_prefix_tbl_ok pat len fl ((8 + 5 * len - 8) / 4)) as (tbl & -> & Htbl); [lia|zlia|]. rewrite bind_Some, u32_small, (proj2 (Z.ltb_ge _ _)) by lia. split; [lia|]. split; [done|].
  intros fetch text off Hsrc Hoff Ht. set (P := fold_case fl <$> take (Z.to_nat len) pat) in *. assert (HP : zlen P = len) by (unfold P; rewrite zlen_fmap, zlen_take; lia).
  set (kmp := {| pattern := P; pattern_len := len; prefix_tbl := take (Z.to_nat len) tbl; flags := fl |}).
  assert (Hkmp : prepared kmp P fl) by (do 2 (split; [done|]); split; [done|]; rewrite HP; split; [lia|apply table_take; [lia|done]]).
  destruct (kmp_find_ok kmp P fl fetch text off Hkmp Hsrc Hoff Ht) as (r & off' & E & H). exists r, off'. split; [done|].
  destruct H as [H|[(Ho & Hr & Hf) Hoff']]; [by left|right]. rewrite HP in Hoff'. done.
Qed.

(** "aab" *)
Lemma kmp_search_correct_witness :
  match textsearch_prepare (fun _ => true) [97; 97; 98] 3 TS_IGNORECASE with
  | Some (inr kmp) => 1 <= 3 /\ true = true /\ forall fetch text off, TextSource fetch text -> 0 <= off <= zlen text -> zlen text < UINT_MAX ->
      let P := fold_case TS_IGNORECASE <$> take (Z.to_nat 3) [97; 97; 98] in
      let F := fold_case TS_IGNORECASE <$> text in
      exists r off', textsearch_next fetch kmp off = Some (r, off') /\
        (r = UINT_MAX /\ off' = off /\ (forall p, off <= p -> ~ found_at P F p) \/
         found_at P F r /\ off <= r /\ (forall p, off <= p < r -> ~ found_at P F p) /\ off' = r + 3)
  | Some (inl e) => 3 = 0 /\ e = - EINVAL \/ true = false /\ e = - ENOMEM
  | None => False
  end.
Proof. apply (kmp_search_correct (fun _ => true) [97; 97; 98] 3 TS_IGNORECASE); [split; discriminate|reflexivity]. Defined.

(** "xAaAab", in blocks of two characters and in one. *)
Example kmp_across_blocks :
  let text := [120; 65; 97; 65; 97; 98] in
  exists kmp, textsearch_prepare (fun _ => true) [97; 97; 98] 3 TS_IGNORECASE = Some (inr kmp) /\ prefix_tbl kmp = [0; 1; 0] /\
    textsearch_find (fun n => take 2 (drop (Z.to_nat n) text)) kmp = Some (3, 6) /\ textsearch_find_continuous kmp text 6 = Some (3, 6) /\
    textsearch_next (get_linear_data text 6) kmp 4 = Some (UINT_MAX, 4).
Proof. eexists. split; [vm_compute; reflexivity|]. split_and!; vm_compute; reflexivity. Qed.

(** When the sizes wrap around, the table does not fit in the memory that is asked for: from 858993455 characters on a configuration is never made. *)
Lemma kmp_init_overflows alloc pat len fl : 0 <= len <= zlen pat -> len < 2 ^ 32 -> ~ pattern_fits len -> forall kmp, textsearch_prepare alloc pat len fl <> Some (inr kmp).
Proof.
  unfold pattern_fits, textsearch_prepare. intros Hlen H32 Hfit kmp. destruct (Z.eqb_spec len 0) as [->|Hne]; [done|]. unfold kmp_init, alloc_ts_config. change (TS_PRIV_ALIGN 16) with 16.
  set (size := u32 (16 + _)). destruct (alloc size); [|done]. destruct (compute_prefix_tbl _ _ _ _) as [tbl|] eqn:E; [|done]. exfalso. unfold compute_prefix_tbl in E.
  assert (Hsize : size - 16 - 8 < 4 * len) by (unfold size, u32; zlia). set (N := (size - 16 - 8) / 4) in *. assert (HN : N < len) by (unfold N; zlia).
  refine (loop_partial _ (fun '(_, q, t) => zlen t = Z.max 0 N /\ q <= Z.max 1 N) (fun _ => False) _ _ _ _ _ E).
  2: { split; [|lia]. unfold zlen. rewrite length_replicate. lia. }
  intros [[k q] t] [Ht Hq]. unfold prefix_body. rewrite (proj2 (Z.ltb_lt q len)) by lia. destruct (fold_case fl <$> pat.[q]) as [c|]; [|done]. rewrite bind_Some.
  destruct (kmp_advance _ t c k) as [k'|]; [|done]. rewrite bind_Some. destruct (t.[q <- k']) as [t'|] eqn:Et; [|done]. apply arr_set_inv in Et as [Hr ->]. rewrite bind_Some, zlen_insert. lia.
Qed.
