(* ===== verification/Uaccess.v ===== *)
(** * Copies between kernel and user space

    copy_from_user() and copy_to_user() are assembly code of the
    architecture: the functions that call them take them as arguments, and
    their theorems ask of them what the two classes below say.  A copy is given the
    destination and the source from the addresses passed to it, and returns
    the destination and the number of bytes it did not copy. *)

From S2P Require Import Prelude.

(** What the copies promise: the number of bytes not copied is returned, and
    those copied are the first ones.  copy_from_user() may overwrite the rest
    of the kernel's area (it clears it), but nothing behind it. *)
Class CopyFromUser (copy : list Z -> list Z -> Z -> option (list Z * Z)) : Prop :=
  from_user_spec dst src n : 0 <= n <= zlen dst ->
    exists dst' k, copy dst src n = Some (dst', k) /\ 0 <= k <= n /\ zlen dst' = zlen dst /\ n - k <= zlen src /\
      (forall j, 0 <= j < n - k -> dst'.[j] = src.[j]) /\ (forall j, n <= j -> dst'.[j] = dst.[j]).

Class CopyToUser (copy : list Z -> list Z -> Z -> option (list Z * Z)) : Prop :=
  to_user_spec dst src n : 0 <= n <= zlen src ->
    exists dst' k, copy dst src n = Some (dst', k) /\ 0 <= k <= n /\ zlen dst' = zlen dst /\ n - k <= zlen dst /\
      (forall j, 0 <= j < n - k -> dst'.[j] = src.[j]) /\ (forall j, n - k <= j -> dst'.[j] = dst.[j]).

(** A user area that is accessible up to its end. *)
Definition copy_available (dst src : list Z) (n : Z) : option (list Z * Z) :=
  let c := (n `min` zlen dst) `min` zlen src in
  Some (take (Z.to_nat c) src ++ drop (Z.to_nat c) dst, n - c).

Lemma copy_available_get (dst src : list Z) c : 0 <= c <= zlen dst -> c <= zlen src ->
  zlen (take (Z.to_nat c) src ++ drop (Z.to_nat c) dst) = zlen dst /\
  (forall j, 0 <= j < c -> (take (Z.to_nat c) src ++ drop (Z.to_nat c) dst).[j] = src.[j]) /\
  (forall j, c <= j -> (take (Z.to_nat c) src ++ drop (Z.to_nat c) dst).[j] = dst.[j]).
Proof.
  intros Hd Hs. assert (Hl : zlen (take (Z.to_nat c) src) = c) by (rewrite zlen_take; lia). split_and!.
  - rewrite zlen_app, Hl, zlen_drop by lia. lia.
  - intros j Hj. rewrite arr_get_app_l, arr_get_take by lia. done.
  - intros j Hj. rewrite arr_get_app_r, Hl, arr_get_drop by lia. f_equal. lia.
Qed.

#[export] Instance copy_available_from : CopyFromUser copy_available.
Proof.
  intros dst src n Hn. pose proof (zlen_nonneg src). unfold copy_available.
  remember ((n `min` zlen dst) `min` zlen src) as c eqn:Hc. eexists _, _. split; [done|].
  destruct (copy_available_get dst src c) as (? & Hg1 & Hg2); [lia..|].
  do 3 (split; [lia|]). split; intros j Hj; [apply Hg1|apply Hg2]; lia.
Qed.

#[export] Instance copy_available_to : CopyToUser copy_available.
Proof.
  intros dst src n Hn. pose proof (zlen_nonneg dst). unfold copy_available.
  remember ((n `min` zlen dst) `min` zlen src) as c eqn:Hc. eexists _, _. split; [done|].
  destruct (copy_available_get dst src c) as (? & Hg1 & Hg2); [lia..|].
  do 3 (split; [lia|]). split; intros j Hj; [apply Hg1|apply Hg2]; lia.
Qed.
