(* ===== verification/Kfifo.v ===== *)
(** * The kernel FIFO: kernel/kfifo.c

    A ring buffer of [mask + 1] elements of [esize] bytes, read and written
    through two 32-bit indices that are never reduced to the size of the ring
    but only masked on access, and the variant that stores records, each behind a
    header of one or two bytes with its length.

    The memory of the ring is the list of its bytes; a NULL [data] is [None].
    The allocator, the copies to and from user space and the physical layout of pages are
    arguments of the functions that use them.

    The theorems show that the fifo refines a queue of bytes (and of records),
    whatever the indices, their wrap-around included. *)

From S2P Require Import Prelude Bits CString Uaccess.

(** ** Definitions *)

Record __kfifo := { in_ : Z; out : Z; mask : Z; esize : Z; data : option (list Z) }.

Definition set_in (f : __kfifo) (x : Z) : __kfifo :=
  {| in_ := x; out := out f; mask := mask f; esize := esize f; data := data f |}.
Definition set_out (f : __kfifo) (x : Z) : __kfifo :=
  {| in_ := in_ f; out := x; mask := mask f; esize := esize f; data := data f |}.
Definition set_data (f : __kfifo) (d : list Z) : __kfifo :=
  {| in_ := in_ f; out := out f; mask := mask f; esize := esize f; data := Some d |}.

(** include/linux/log2.h; a shift by a negative count is undefined. *)
Definition is_power_of_2 (n : Z) : bool := negb (n =? 0) && (Z.land n (ulong (n - 1)) =? 0).
Definition rounddown_pow_of_two (n : Z) : option Z :=
  let k := fls n - 1 in
  if k <? 0 then None else Some (ulong (Z.shiftl 1 k)).

Definition kfifo_unused (fifo : __kfifo) : Z := u32 (mask fifo + 1 - (in_ fifo - out fifo)).

Definition round_size (size : Z) : option Z :=
  if negb (is_power_of_2 size) then rounddown_pow_of_two size else Some size.

Definition __kfifo_alloc (kmalloc : Z -> option (list Z)) (size esize : Z) : option (__kfifo * Z) :=
  size ← round_size size;
  let mk d m := {| in_ := 0; out := 0; mask := m; esize := esize; data := d |} in
  if size <? 2 then Some (mk None 0, - EINVAL)
  else
    match kmalloc (u32 (size * esize)) with
    | None => Some (mk None 0, - ENOMEM)
    | Some d => Some (mk (Some d) (size - 1), 0)
    end.

Definition __kfifo_free (fifo : __kfifo) : __kfifo :=
  {| in_ := 0; out := 0; mask := 0; esize := 0; data := None |}.

Definition __kfifo_init (buffer : list Z) (size esize : Z) : option (__kfifo * Z) :=
  if esize =? 0 then None
  else
    size ← round_size (size / esize);
    let mk m := {| in_ := 0; out := 0; mask := m; esize := esize; data := Some buffer |} in
    if size <? 2 then Some (mk 0, - EINVAL) else Some (mk (size - 1), 0).

(** The start every copy shares: where it begins in the ring, its length, and
    how much of it lies before the end of the ring, all in bytes. *)
Definition ring_split (fifo : __kfifo) (len off : Z) : Z * Z * Z :=
  let size := u32 (mask fifo + 1) in
  let off := Z.land off (mask fifo) in
  let '(off, size, len) :=
    if negb (esize fifo =? 1)
    then (u32 (off * esize fifo), u32 (size * esize fifo), u32 (len * esize fifo))
    else (off, size, len) in
  (off, len, len `min` u32 (size - off)).

Definition kfifo_copy_in (fifo : __kfifo) (src : list Z) (len off : Z) : option __kfifo :=
  let '(off, len, l) := ring_split fifo len off in
  d ← data fifo;
  d ← at_off d off (fun p => memcpy p src l);
  d ← memcpy d (drop (Z.to_nat l) src) (u32 (len - l));
  Some (set_data fifo d).

Definition __kfifo_in (fifo : __kfifo) (buf : list Z) (len : Z) : option (__kfifo * Z) :=
  let l := kfifo_unused fifo in
  let len := if l <? len then l else len in
  fifo ← kfifo_copy_in fifo buf len (in_ fifo);
  Some (set_in fifo (u32 (in_ fifo + len)), len).

Definition kfifo_copy_out (fifo : __kfifo) (dst : list Z) (len off : Z) : option (list Z) :=
  let '(off, len, l) := ring_split fifo len off in
  d ← data fifo;
  dst ← memcpy dst (drop (Z.to_nat off) d) l;
  at_off dst l (fun p => memcpy p d (u32 (len - l))).

Definition __kfifo_out_peek (fifo : __kfifo) (buf : list Z) (len : Z) : option (list Z * Z) :=
  let l := u32 (in_ fifo - out fifo) in
  let len := if l <? len then l else len in
  buf ← kfifo_copy_out fifo buf len (out fifo);
  Some (buf, len).

Definition __kfifo_out (fifo : __kfifo) (buf : list Z) (len : Z) : option (__kfifo * list Z * Z) :=
  '(buf, len) ← __kfifo_out_peek fifo buf len;
  Some (set_out fifo (u32 (out fifo + len)), buf, len).

Definition DIV_ROUND_UP (n d : Z) : option Z := if d =? 0 then None else Some (ulong (n + d - 1) / d).

(** ** Copies to and from user space

    [copy] is copy_from_user() or copy_to_user(): it is given the destination,
    the source and the count, and returns the destination and the number of
    bytes that could not be copied. *)

Section User.
Variable copy : list Z -> list Z -> Z -> option (list Z * Z).

(** The new ring, [*copied] and the number of elements not copied. *)
Definition kfifo_copy_from_user (fifo : __kfifo) (from : list Z) (len off : Z) : option (__kfifo * Z * Z) :=
  let '(off, len, l) := ring_split fifo len off in
  d ← data fifo;
  if zlen d <? off then None
  else
    '(p, ret) ← copy (drop (Z.to_nat off) d) from l;
    let d := take (Z.to_nat off) d ++ p in
    '(d, ret) ←
      (if truth ret then
         ret ← DIV_ROUND_UP (ulong (ret + len - l)) (esize fifo); Some (d, ret)
       else
         '(d, ret) ← copy d (drop (Z.to_nat l) from) (u32 (len - l));
         if truth ret then ret ← DIV_ROUND_UP ret (esize fifo); Some (d, ret)
         else Some (d, ret));
    Some (set_data fifo d, u32 (len - ret), ret).

(** The fifo, [*copied] and the error code. *)
Definition __kfifo_from_user (fifo : __kfifo) (from : list Z) (len : Z) : option (__kfifo * Z * Z) :=
  if esize fifo =? 0 then None
  else
    let len := if negb (esize fifo =? 1) then len / esize fifo else len in
    let l := kfifo_unused fifo in
    let len := if l <? len then l else len in
    '(fifo, copied, ret) ← kfifo_copy_from_user fifo from len (in_ fifo);
    let '(len, err) := if truth ret then (ulong (len - ret), - EFAULT) else (len, 0) in
    Some (set_in fifo (u32 (in_ fifo + len)), copied, err).

(** The user's area, [*copied] and the number of elements not copied. *)
Definition kfifo_copy_to_user (fifo : __kfifo) (to : list Z) (len off : Z) : option (list Z * Z * Z) :=
  let '(off, len, l) := ring_split fifo len off in
  d ← data fifo;
  '(to, ret) ← copy to (drop (Z.to_nat off) d) l;
  '(to, ret) ←
    (if truth ret then
       ret ← DIV_ROUND_UP (ulong (ret + len - l)) (esize fifo); Some (to, ret)
     else
       '(p, ret) ← copy (drop (Z.to_nat l) to) d (u32 (len - l));
       let to := take (Z.to_nat l) to ++ p in
       if truth ret then ret ← DIV_ROUND_UP ret (esize fifo); Some (to, ret)
       else Some (to, ret));
  Some (to, u32 (len - ret), ret).

Definition __kfifo_to_user (fifo : __kfifo) (to : list Z) (len : Z) : option (__kfifo * list Z * Z * Z) :=
  if esize fifo =? 0 then None
  else
    let len := if negb (esize fifo =? 1) then len / esize fifo else len in
    let l := u32 (in_ fifo - out fifo) in
    let len := if l <? len then l else len in
    '(to, copied, ret) ← kfifo_copy_to_user fifo to len (out fifo);
    let '(len, err) := if truth ret then (ulong (len - ret), - EFAULT) else (len, 0) in
    Some (set_out fifo (u32 (out fifo + len)), to, copied, err).
End User.

(** ** Records *)

Definition __kfifo_max_r (len recsize : Z) : Z :=
  let max := u32 (Z.shiftl 1 (Z.shiftl recsize 3) - 1) in
  if max <? len then max else len.

Definition __KFIFO_PEEK (data : list Z) (out mask : Z) : option Z := data.[Z.land out mask].

Definition __kfifo_peek_n (fifo : __kfifo) (recsize : Z) : option Z :=
  d ← data fifo;
  l ← __KFIFO_PEEK d (out fifo) (mask fifo);
  if truth (ulong (recsize - 1)) then
    h ← __KFIFO_PEEK d (u32 (out fifo + 1)) (mask fifo);
    Some (Z.lor l (Z.shiftl h 8))
  else Some l.

Definition __KFIFO_POKE (data : list Z) (in_ mask val : Z) : option (list Z) :=
  data.[Z.land in_ mask <- u8 val].

Definition __kfifo_poke_n (fifo : __kfifo) (n recsize : Z) : option __kfifo :=
  d ← data fifo;
  d ← __KFIFO_POKE d (in_ fifo) (mask fifo) n;
  if 1 <? recsize then
    d ← __KFIFO_POKE d (u32 (in_ fifo + 1)) (mask fifo) (Z.shiftr n 8);
    Some (set_data fifo d)
  else Some (set_data fifo d).

Definition __kfifo_len_r (fifo : __kfifo) (recsize : Z) : option Z := __kfifo_peek_n fifo recsize.

Definition __kfifo_in_r (fifo : __kfifo) (buf : list Z) (len recsize : Z) : option (__kfifo * Z) :=
  if kfifo_unused fifo <? ulong (len + recsize) then Some (fifo, 0)
  else
    fifo ← __kfifo_poke_n fifo len recsize;
    fifo ← kfifo_copy_in fifo buf len (u32 (in_ fifo + recsize));
    Some (set_in fifo (u32 (in_ fifo + (len + recsize))), len).

(** The buffer, the number of bytes copied and [*n]. *)
Definition kfifo_out_copy_r (fifo : __kfifo) (buf : list Z) (len recsize : Z) : option (list Z * Z * Z) :=
  n ← __kfifo_peek_n fifo recsize;
  let len := if n <? len then n else len in
  buf ← kfifo_copy_out fifo buf len (u32 (out fifo + recsize));
  Some (buf, len, n).

Definition __kfifo_out_peek_r (fifo : __kfifo) (buf : list Z) (len recsize : Z) : option (list Z * Z) :=
  if in_ fifo =? out fifo then Some (buf, 0)
  else '(buf, len, n) ← kfifo_out_copy_r fifo buf len recsize; Some (buf, len).

Definition __kfifo_out_r (fifo : __kfifo) (buf : list Z) (len recsize : Z) : option (__kfifo * list Z * Z) :=
  if in_ fifo =? out fifo then Some (fifo, buf, 0)
  else
    '(buf, len, n) ← kfifo_out_copy_r fifo buf len recsize;
    Some (set_out fifo (u32 (out fifo + (n + recsize))), buf, len).

Definition __kfifo_skip_r (fifo : __kfifo) (recsize : Z) : option __kfifo :=
  n ← __kfifo_peek_n fifo recsize;
  Some (set_out fifo (u32 (out fifo + (n + recsize)))).

Definition __kfifo_from_user_r copy (fifo : __kfifo) (from : list Z) (len recsize : Z) : option (__kfifo * Z * Z) :=
  let len := __kfifo_max_r len recsize in
  if kfifo_unused fifo <? ulong (len + recsize) then Some (fifo, 0, 0)
  else
    fifo ← __kfifo_poke_n fifo len recsize;
    '(fifo, copied, ret) ← kfifo_copy_from_user copy fifo from len (u32 (in_ fifo + recsize));
    if truth ret then Some (fifo, 0, - EFAULT)
    else Some (set_in fifo (u32 (in_ fifo + (len + recsize))), copied, 0).

Definition __kfifo_to_user_r copy (fifo : __kfifo) (to : list Z) (len recsize : Z) :
    option (__kfifo * list Z * Z * Z) :=
  if in_ fifo =? out fifo then Some (fifo, to, 0, 0)
  else
    n ← __kfifo_peek_n fifo recsize;
    let len := if n <? len then n else len in
    '(to, copied, ret) ← kfifo_copy_to_user copy fifo to len (u32 (out fifo + recsize));
    if truth ret then Some (fifo, to, 0, - EFAULT)
    else Some (set_out fifo (u32 (out fifo + (n + recsize))), to, copied, 0).

(** ** Scatter lists for DMA

    [phys] is page_to_phys() of the page with the given virtual page number,
    and [avail] is the number of entries of the scatter list that are left, so that
    sg_next() is NULL behind the last one.  An entry is its page, length and
    offset. *)

Section Sgl.
Variable phys : Z -> Z.

Definition virt_to_page (buf : Z) : Z := buf / PAGE_SIZE.
Definition offset_in_page (buf : Z) : Z := buf mod PAGE_SIZE.

Definition sg_entry : Type := Z * Z * Z.

(** Number of entries, page, offset, length so far, length left, address,
    entries left, entries written. *)
Definition sgl_state : Type := Z * Z * Z * Z * Z * Z * Z * list sg_entry.

Definition sg_set_page (avail : Z) (es : list sg_entry) (e : sg_entry) : option (list sg_entry) :=
  if avail <? 1 then None else Some (es ++ [e]).

Definition sgl_body (nents : Z) : sgl_state -> option (step sgl_state (Z * list sg_entry)) :=
  fun '(n, page, off, l, len, buf, avail, es) =>
  if ulong (l + PAGE_SIZE - off) <=? len then
    let l := u32 (l + PAGE_SIZE) in
    let buf := ulong (buf + PAGE_SIZE) in
    let npage := virt_to_page buf in
    if negb (phys page =? ulong (phys npage - l)) then
      es ← sg_set_page avail es (page, u32 (l - off), off);
      let avail := avail - 1 in
      let n := n + 1 in
      if (n =? nents) || (avail =? 0) then Some (Done (n, es))
      else Some (Next (n, npage, 0, 0, u32 (len - u32 (l - off)), buf, avail, es))
    else Some (Next (n, page, off, l, len, buf, avail, es))
  else
    es ← sg_set_page avail es (page, len, off);
    Some (Done (n + 1, es)).

Definition setup_sgl_buf (avail buf nents len : Z) : option (Z * list sg_entry) :=
  if nents =? 0 then Some (0, [])
  else if len =? 0 then Some (0, [])
  else
    loop (sgl_body nents) (len / PAGE_SIZE + 3)
      (0, virt_to_page buf, offset_in_page buf, 0, len, buf, avail, []).

(** The ring is at the virtual address [addr]. *)
Definition setup_sgl (fifo : __kfifo) (addr avail nents len off : Z) : option (Z * list sg_entry) :=
  let '(off, len, l) := ring_split fifo len off in
  '(n, es) ← setup_sgl_buf avail (ulong (addr + off)) nents l;
  '(n', es') ← setup_sgl_buf (avail - n) addr (nents - n) (u32 (len - l));
  Some (u32 (n + n'), es ++ es').

Definition __kfifo_dma_in_prepare (fifo : __kfifo) (addr avail nents len : Z) : option (Z * list sg_entry) :=
  let l := kfifo_unused fifo in
  let len := if l <? len then l else len in
  setup_sgl fifo addr avail nents len (in_ fifo).

Definition __kfifo_dma_out_prepare (fifo : __kfifo) (addr avail nents len : Z) : option (Z * list sg_entry) :=
  let l := u32 (in_ fifo - out fifo) in
  let len := if l <? len then l else len in
  setup_sgl fifo addr avail nents len (out fifo).

Definition __kfifo_dma_in_prepare_r (fifo : __kfifo) (addr avail nents len recsize : Z) :
    option (Z * list sg_entry) :=
  if nents =? 0 then None
  else
    let len := __kfifo_max_r len recsize in
    if kfifo_unused fifo <? ulong (len + recsize) then Some (0, [])
    else setup_sgl fifo addr avail nents len (u32 (in_ fifo + recsize)).

Definition __kfifo_dma_out_prepare_r (fifo : __kfifo) (addr avail nents len recsize : Z) :
    option (Z * list sg_entry) :=
  if nents =? 0 then None
  else
    let len := __kfifo_max_r len recsize in
    if u32 (in_ fifo - out fifo) <? ulong (len + recsize) then Some (0, [])
    else setup_sgl fifo addr avail nents len (u32 (out fifo + recsize)).
End Sgl.

Definition __kfifo_dma_in_finish_r (fifo : __kfifo) (len recsize : Z) : option __kfifo :=
  let len := __kfifo_max_r len recsize in
  fifo ← __kfifo_poke_n fifo len recsize;
  Some (set_in fifo (u32 (in_ fifo + (len + recsize)))).

Definition __kfifo_dma_out_finish_r (fifo : __kfifo) (recsize : Z) : option __kfifo :=
  len ← __kfifo_peek_n fifo recsize;
  Some (set_out fifo (u32 (out fifo + (len + recsize)))).

(** ** Specification: a queue of bytes *)

(** Size of the ring and number of bytes stored. *)
Definition ring_size (f : __kfifo) : Z := (mask f + 1) * esize f.
Definition kfifo_len (f : __kfifo) : Z := u32 (in_ f - out f).

(** The invariant: the number of elements is a power of two, the indices are
    at most that far apart, and the memory has room for the ring. *)
Definition wf (f : __kfifo) : Prop :=
  (exists k, 0 <= k <= 31 /\ mask f + 1 = 2 ^ k) /\ 1 <= esize f /\ ring_size f + esize f <= 2 ^ 32 /\
  0 <= in_ f < 2 ^ 32 /\ 0 <= out f < 2 ^ 32 /\ kfifo_len f <= mask f + 1 /\
  exists d, data f = Some d /\ ring_size f <= zlen d.

(** [q] are the bytes from index [out] on, around the ring. *)
Definition ring_at (d : list Z) (N o : Z) (q : list Z) : Prop :=
  forall j, 0 <= j < zlen q -> q.[j] = d.[(o + j) mod N].

Definition repr (f : __kfifo) (q : list Z) : Prop :=
  wf f /\ zlen q = kfifo_len f * esize f /\
  exists d, data f = Some d /\ ring_at d (ring_size f) (out f * esize f) q.

(** ** Proofs: arithmetic of the indices *)

Lemma mod_mod_divide x a b : 0 < b -> (b | a) -> (x mod a) mod b = x mod b.
Proof. intros. apply Z.mod_mod_divide. done. Qed.

Section Wf.
Context (f : __kfifo) (Hwf : wf f).

Lemma wf_size : 1 <= mask f + 1 <= 2 ^ 31.
Proof using Hwf.
  destruct Hwf as ((k & Hk & ->) & _). split.
  - pose proof (Z.pow_pos_nonneg 2 k). lia.
  - apply Z.pow_le_mono_r; lia.
Qed.

Lemma wf_land x : Z.land x (mask f) = x mod (mask f + 1).
Proof using Hwf.
  destruct Hwf as ((k & Hk & E) & _). rewrite E. rewrite <-Z.land_ones by lia. f_equal.
  rewrite Z.ones_equiv. lia.
Qed.

Lemma wf_divide : (mask f + 1 | 2 ^ 32).
Proof using Hwf.
  destruct Hwf as ((k & Hk & ->) & _). exists (2 ^ (32 - k)). rewrite <-Z.pow_add_r by lia. f_equal. lia.
Qed.

(** Where an index points to in the ring does not change when it wraps. *)
Lemma wf_pos x : (u32 x mod (mask f + 1)) * esize f = (x * esize f) mod ring_size f.
Proof using Hwf.
  pose proof wf_size. destruct Hwf as (_ & He & _). unfold u32, ring_size.
  rewrite mod_mod_divide by (lia || apply wf_divide). rewrite Z.mul_mod_distr_r by lia. done.
Qed.

Lemma ring_split_ok len off : 0 <= len <= mask f + 1 -> 0 <= off < 2 ^ 32 ->
  let i := (off * esize f) mod ring_size f in
  ring_split f len off = (i, len * esize f, (len * esize f) `min` (ring_size f - i)) /\
  0 <= i < ring_size f /\ 0 <= len * esize f <= ring_size f.
Proof using Hwf.
  intros Hl Ho. pose proof wf_size as Hs. pose proof (wf_pos off) as Hp. rewrite u32_small in Hp by done.
  assert (Hi : 0 <= (off * esize f) mod ring_size f < ring_size f)
    by (apply Z.mod_pos_bound; unfold ring_size; destruct Hwf as (_ & ? & _); nia).
  destruct Hwf as (_ & He & Hr & _). cbv zeta. assert (Hb : 0 <= len * esize f <= ring_size f) by (unfold ring_size; nia).
  split; [|done]. unfold ring_split. rewrite wf_land, (u32_small (mask f + 1)) by lia.
  destruct (Z.eqb_spec (esize f) 1) as [E1|]; cbn [negb].
  - rewrite <-Hp, E1. unfold ring_size. rewrite E1, !Z.mul_1_r.
    pose proof (Z.mod_pos_bound off (mask f + 1)). by rewrite u32_small by lia.
  - rewrite Hp. fold (ring_size f). rewrite (u32_small (ring_size f)), !u32_small by lia. done.
Qed.

Lemma unused_ok : kfifo_unused f = mask f + 1 - kfifo_len f.
Proof using Hwf.
  pose proof wf_size. destruct Hwf as (_ & _ & _ & _ & _ & Hl & _). unfold kfifo_unused, kfifo_len in *.
  pose proof (u32_range (in_ f - out f)). rewrite <-(u32_small (mask f + 1 - u32 (in_ f - out f))) by lia.
  unfold u32. rewrite Zminus_mod_idemp_r. done.
Qed.
End Wf.

(** ** Proofs: copies around the end of the ring *)

(** The distance from [i] to [p] around the ring. *)
Lemma ring_dist N i p : 0 <= i < N -> 0 <= p < N -> (p - i) mod N = if i <=? p then p - i else p - i + N.
Proof.
  intros. bcase; [apply Z.mod_small; lia|]. rewrite <-(Z_mod_plus_full _ 1), Z.mod_small; lia.
Qed.

Lemma ring_next N i j : 0 <= i < N -> 0 <= j < N -> (i + j) mod N = if i + j <? N then i + j else i + j - N.
Proof.
  intros. bcase; [apply Z.mod_small; lia|]. rewrite <-(Z_mod_plus_full _ (-1)), Z.mod_small; lia.
Qed.

Section Copies.
Context (f : __kfifo) (d : list Z) (Hwf : wf f) (Hd : data f = Some d).
Let N := ring_size f.

Lemma ring_len : N <= zlen d.
Proof using Hwf Hd. destruct Hwf as (_ & _ & _ & _ & _ & _ & d' & E & ?). rewrite Hd in E. by simplify_eq. Qed.

(** What a copy into the ring leaves: [w] bytes of [src] from place [i] on,
    and nothing is changed further than [room] bytes behind it. *)
Definition written (d' src : list Z) (w room i : Z) : Prop :=
  zlen d' = zlen d /\
  forall p, 0 <= p < N -> let j := (p - i) mod N in
    (j < w -> d'.[p] = src.[j]) /\ (room <= j -> d'.[p] = d.[p]).

Lemma copy_in_ok src len off : 0 <= len <= mask f + 1 -> 0 <= off < 2 ^ 32 -> len * esize f <= zlen src ->
  exists d', kfifo_copy_in f src len off = Some (set_data f d') /\
             written d' src (len * esize f) (len * esize f) ((off * esize f) mod N).
Proof using Hwf Hd.
  intros Hl Ho Hs. destruct (ring_split_ok f Hwf len off Hl Ho) as (Hsplit & Hi & Hw).
  unfold kfifo_copy_in. rewrite Hsplit, Hd. cbn [mbind option_bind].
  set (i := (off * esize f) mod ring_size f) in *. set (w := len * esize f) in *. fold N in Hi, Hw |- *.
  pose proof ring_len as HN. remember (w `min` (N - i)) as l eqn:El.
  destruct (memcpy_get (drop (Z.to_nat i) d) src l) as (r & Hr & Hrl & Hrg); [rewrite zlen_drop; lia|lia|].
  rewrite zlen_drop in Hrl by lia.
  destruct (at_off_get d i (fun p => memcpy p src l) r) as (d1 & -> & Hd1 & Hg1); [lia|done|lia|]. cbn [mbind option_bind].
  destruct Hwf as (_ & He & Hb & _). fold N in Hb. rewrite u32_small by lia.
  destruct (memcpy_get d1 (drop (Z.to_nat l) src) (w - l)) as (d2 & -> & Hd2 & Hg2); [lia|rewrite zlen_drop; lia|].
  cbn [mbind option_bind]. exists d2. split; [done|]. split; [lia|]. intros p Hp.
  change ((off * esize f) mod N) with i. cbv zeta. rewrite ring_dist, Hg2, Hg1 by lia. destruct (Z.ltb_spec p (w - l)).
  - rewrite arr_get_drop by lia. rewrite (proj2 (Z.leb_gt i p)) by lia. split; [|lia]. intros _. f_equal. lia.
  - destruct (Z.ltb_spec p i), (Z.leb_spec i p); try lia.
    + by split; [lia|].
    + rewrite Hrg by lia. split; intros; bcases; try done. rewrite arr_get_drop by lia. f_equal. lia.
Qed.

Lemma copy_out_ok dst len off : 0 <= len <= mask f + 1 -> 0 <= off < 2 ^ 32 -> len * esize f <= zlen dst ->
  exists dst', kfifo_copy_out f dst len off = Some dst' /\ zlen dst' = zlen dst /\
    forall j, 0 <= j -> dst'.[j] = if j <? len * esize f then d.[(off * esize f + j) mod N] else dst.[j].
Proof using Hwf Hd.
  intros Hl Ho Hs. destruct (ring_split_ok f Hwf len off Hl Ho) as (Hsplit & Hi & Hw).
  unfold kfifo_copy_out. rewrite Hsplit, Hd. cbn [mbind option_bind].
  set (i := (off * esize f) mod ring_size f) in *. set (w := len * esize f) in *. fold N in Hi, Hw |- *.
  pose proof ring_len as HN. remember (w `min` (N - i)) as l eqn:El.
  destruct (memcpy_get dst (drop (Z.to_nat i) d) l) as (r & -> & Hr & Hg1); [lia|rewrite zlen_drop; lia|]. cbn [mbind option_bind].
  destruct Hwf as (_ & He & Hb & _). fold N in Hb. rewrite u32_small by lia.
  destruct (memcpy_get (drop (Z.to_nat l) r) d (w - l)) as (r2 & Hr2 & Hrl & Hg2); [rewrite zlen_drop; lia|lia|].
  rewrite zlen_drop in Hrl by lia.
  destruct (at_off_get r l (fun p => memcpy p d (w - l)) r2) as (d1 & -> & Hd1 & Hg3); [lia|done|lia|].
  exists d1. split; [done|]. split; [lia|]. intros j Hj. rewrite Hg3 by lia.
  rewrite <-Z.add_mod_idemp_l by lia. fold N. change ((off * esize f) mod N) with i.
  destruct (Z.ltb_spec j l).
  - rewrite Hg1 by lia. rewrite (proj2 (Z.ltb_lt j l)), (proj2 (Z.ltb_lt j w)) by lia. rewrite arr_get_drop, Z.mod_small by lia. done.
  - rewrite Hg2 by lia. destruct (Z.ltb_spec (j - l) (w - l)).
    + rewrite (proj2 (Z.ltb_lt j w)), ring_next by lia. rewrite (proj2 (Z.ltb_ge _ _)) by lia. f_equal. lia.
    + rewrite (proj2 (Z.ltb_ge j w)), arr_get_drop, Hg1 by lia. rewrite (proj2 (Z.ltb_ge _ _)) by lia. f_equal. lia.
Qed.
End Copies.

(** ** Proofs: the queue *)

(** The bytes written behind the stored ones extend the queue. *)
Lemma ring_at_write f d d' q src w room i o : 0 < ring_size f -> ring_at d (ring_size f) o q ->
  written f d d' src w room i -> i = (o + zlen q) mod ring_size f -> 0 <= w <= zlen src -> w <= room ->
  zlen q + room <= ring_size f ->
  ring_at d' (ring_size f) o (q ++ take (Z.to_nat w) src).
Proof.
  intros HN Hq [_ Hw] -> Hws Hroom Hr j Hj. rewrite zlen_app, zlen_take in Hj by lia. pose proof (zlen_nonneg q).
  destruct (Hw ((o + j) mod ring_size f)) as [Hin Hout]; [apply Z.mod_pos_bound; lia|].
  rewrite <-Zminus_mod in Hin, Hout. replace (o + j - (o + zlen q)) with (j - zlen q) in * by lia.
  destruct (Z.ltb_spec j (zlen q)).
  - rewrite <-(Z_mod_plus_full (j - zlen q) 1), (Z.mod_small (j - zlen q + _)) in Hout by lia.
    rewrite arr_get_app_l, (Hq j), Hout by lia. done.
  - rewrite (Z.mod_small (j - zlen q)) in Hin by lia. rewrite arr_get_app_r, Hin by lia. apply arr_get_take. lia.
Qed.

(** Dropping bytes from the front moves the start of the ring. *)
Lemma ring_at_drop d N o q k : 0 <= k <= zlen q -> ring_at d N o q -> ring_at d N (o + k) (drop (Z.to_nat k) q).
Proof.
  intros Hk Hq j Hj. rewrite zlen_drop in Hj by lia. rewrite arr_get_drop, Hq by lia. f_equal. f_equal. lia.
Qed.

Lemma ring_at_mod d N o o' q : 0 < N -> o mod N = o' mod N -> ring_at d N o q -> ring_at d N o' q.
Proof.
  intros HN E Hq j Hj. rewrite Hq by done. rewrite <-(Z.add_mod_idemp_l o), E, Z.add_mod_idemp_l by lia. done.
Qed.

Lemma wf_ring_pos f : wf f -> 0 < ring_size f.
Proof. intros H. pose proof (wf_size f H). destruct H as (_ & ? & _). unfold ring_size. nia. Qed.

Lemma wf_set_data f d' : wf f -> ring_size f <= zlen d' -> wf (set_data f d').
Proof. intros (? & ? & ? & ? & ? & ? & _) Hd. do 6 (split; [done|]). by exists d'. Qed.

Lemma len_range f : 0 <= kfifo_len f.
Proof. apply u32_range. Qed.

Lemma len_set_in f n : wf f -> 0 <= n -> kfifo_len f + n <= mask f + 1 ->
  kfifo_len (set_in f (u32 (in_ f + n))) = kfifo_len f + n.
Proof.
  intros Hwf Hn Hl. pose proof (wf_size f Hwf). pose proof (len_range f). unfold kfifo_len in *. cbn [in_ out set_in].
  rewrite <-(u32_small (u32 (in_ f - out f) + n)) by lia. unfold u32.
  rewrite Zminus_mod_idemp_l, Zplus_mod_idemp_l. f_equal. lia.
Qed.

Lemma len_set_out f n : wf f -> 0 <= n <= kfifo_len f -> kfifo_len (set_out f (u32 (out f + n))) = kfifo_len f - n.
Proof.
  intros Hwf Hn. pose proof (u32_range (in_ f - out f)). unfold kfifo_len in *. cbn [in_ out set_out].
  rewrite <-(u32_small (u32 (in_ f - out f) - n)) by lia. unfold u32.
  rewrite Zminus_mod_idemp_r, Zminus_mod_idemp_l. f_equal. lia.
Qed.

Lemma wf_set_in f n : wf f -> 0 <= n -> kfifo_len f + n <= mask f + 1 -> wf (set_in f (u32 (in_ f + n))).
Proof.
  intros Hwf Hn Hl. pose proof (len_set_in f n Hwf Hn Hl) as HL. destruct Hwf as (? & ? & ? & ? & ? & ? & ?).
  do 3 (split; [done|]). split; [apply u32_range|]. split; [done|]. split; [by rewrite HL|done].
Qed.

Lemma wf_set_out f n : wf f -> 0 <= n <= kfifo_len f -> wf (set_out f (u32 (out f + n))).
Proof.
  intros Hwf Hn. pose proof (len_set_out f n Hwf Hn) as HL. destruct Hwf as (? & ? & ? & ? & ? & ? & ?).
  do 4 (split; [done|]). split; [apply u32_range|]. split; [rewrite HL; cbn [mask set_out]; lia|done].
Qed.

(** The place behind the queue is where the [in] index points to. *)
Lemma in_pos f : wf f -> (out f * esize f + kfifo_len f * esize f) mod ring_size f = (in_ f * esize f) mod ring_size f.
Proof.
  intros Hwf. rewrite <-Z.mul_add_distr_r, <-!wf_pos by done. f_equal. f_equal. unfold kfifo_len, u32.
  rewrite Zplus_mod_idemp_r. f_equal. lia.
Qed.

(** Moving the [in] index makes the bytes stored behind the queue part of it. *)
Lemma repr_commit f d' q' n : wf f -> ring_size f <= zlen d' -> 0 <= n -> kfifo_len f + n <= mask f + 1 ->
  zlen q' = (kfifo_len f + n) * esize f -> ring_at d' (ring_size f) (out f * esize f) q' ->
  repr (set_in (set_data f d') (u32 (in_ f + n))) q'.
Proof.
  intros Hwf Hd' Hn Hl Hq Hring. pose proof (wf_set_data f d' Hwf Hd') as Hwf'. split_and!.
  - by apply (wf_set_in (set_data f d')).
  - by rewrite (len_set_in (set_data f d') n Hwf' Hn Hl : kfifo_len (set_in (set_data f d') (u32 (in_ f + n))) = _).
  - by exists d'.
Qed.

(** The queue after [n] elements of [src] have been stored behind it. *)
Lemma repr_in f q d' src n room d : repr f q -> data f = Some d -> 0 <= n <= room -> kfifo_len f + room <= mask f + 1 ->
  n * esize f <= zlen src -> written f d d' src (n * esize f) (room * esize f) ((in_ f * esize f) mod ring_size f) ->
  repr (set_in (set_data f d') (u32 (in_ f + n))) (q ++ take (Z.to_nat (n * esize f)) src).
Proof.
  intros (Hwf & Hq & d0 & Hd & Hring) Hd0 Hn Hl Hs Hw. rewrite Hd0 in Hd. injection Hd as <-.
  pose proof (wf_ring_pos f Hwf) as HN. assert (He : 1 <= esize f) by by destruct Hwf as (_ & ? & _).
  assert (Hw0 : 0 <= n * esize f <= room * esize f) by nia. apply repr_commit; [done| |lia|lia| |].
  - destruct Hw as [-> _]. by apply (ring_len f).
  - rewrite zlen_app, zlen_take, Hq by lia. lia.
  - eapply ring_at_write; [done|exact Hring|exact Hw| |lia|lia|].
    + by rewrite Hq, in_pos.
    + rewrite Hq. unfold ring_size. nia.
Qed.

(** The queue after its first [n] elements have been taken. *)
Lemma repr_out f q n : repr f q -> 0 <= n <= kfifo_len f ->
  repr (set_out f (u32 (out f + n))) (drop (Z.to_nat (n * esize f)) q).
Proof.
  intros (Hwf & Hq & d & Hd & Hring) Hn. pose proof (wf_ring_pos f Hwf) as HN.
  assert (He : 1 <= esize f) by by destruct Hwf as (_ & ? & _).
  assert (Hb : 0 <= n * esize f <= zlen q) by (rewrite Hq; nia). split_and!.
  - by apply wf_set_out.
  - rewrite zlen_drop, len_set_out by done. cbn [esize set_out]. lia.
  - exists d. split; [done|]. change (ring_size (set_out _ _)) with (ring_size f). cbn [out esize set_out].
    eapply ring_at_mod; [done| |by apply ring_at_drop; [|exact Hring]].
    rewrite <-Z.mul_add_distr_r, <-!wf_pos by done. f_equal. f_equal. unfold u32. by rewrite Z.mod_mod.
Qed.

(** Reading [w] bytes [k] bytes behind the start of the queue. *)
Lemma ring_read d N o q dst dst' k w : ring_at d N o q -> 0 <= k -> 0 <= w -> k + w <= zlen q -> w <= zlen dst ->
  zlen dst' = zlen dst -> (forall j, 0 <= j -> dst'.[j] = if j <? w then d.[(o + k + j) mod N] else dst.[j]) ->
  dst' = take (Z.to_nat w) (drop (Z.to_nat k) q) ++ drop (Z.to_nat w) dst.
Proof.
  intros Hq Hk Hw Hkw Hwd Hlen Hg.
  assert (Hl : zlen (take (Z.to_nat w) (drop (Z.to_nat k) q)) = w) by (rewrite zlen_take; [done|rewrite zlen_drop; lia]).
  apply arr_ext.
  - rewrite zlen_app, Hl, zlen_drop by lia. lia.
  - intros j Hj. rewrite Hg by lia. bcase.
    + rewrite arr_get_app_l, arr_get_take, arr_get_drop by lia. rewrite Hq by lia. f_equal. f_equal. lia.
    + rewrite arr_get_app_r, Hl, arr_get_drop by lia. f_equal. lia.
Qed.

Lemma in_ok f q buf len : repr f q -> 0 <= len -> let n := len `min` (mask f + 1 - kfifo_len f) in
  n * esize f <= zlen buf ->
  exists f', __kfifo_in f buf len = Some (f', n) /\ mask f' = mask f /\ esize f' = esize f /\
             repr f' (q ++ take (Z.to_nat (n * esize f)) buf).
Proof.
  intros Hr Hlen n Hn. assert (Hwf : wf f) by by destruct Hr.
  pose proof (len_range f). pose proof (wf_size f Hwf). assert (Hl : kfifo_len f <= mask f + 1) by apply Hwf.
  destruct Hr as (_ & Hq & d & Hd & Hring). assert (Hr : repr f q) by (split; [done|]; split; [done|]; by exists d).
  unfold __kfifo_in. rewrite unused_ok by done.
  replace (if mask f + 1 - kfifo_len f <? len then mask f + 1 - kfifo_len f else len) with n by (unfold n; bcase; lia).
  assert (Hn0 : 0 <= n <= mask f + 1 - kfifo_len f) by lia. clearbody n.
  destruct (copy_in_ok f d Hwf Hd buf n (in_ f)) as (d' & -> & Hw); [lia|apply Hwf|done|].
  cbn [mbind option_bind]. eexists. split; [done|]. split_and!; [done..|].
  apply (repr_in f q d' buf n n d); [done..|lia|lia|done|done].
Qed.

Lemma peek_ok f q buf len : repr f q -> 0 <= len -> let n := len `min` kfifo_len f in n * esize f <= zlen buf ->
  __kfifo_out_peek f buf len =
  Some (take (Z.to_nat (n * esize f)) q ++ drop (Z.to_nat (n * esize f)) buf, n).
Proof.
  intros (Hwf & Hq & d & Hd & Hring) Hlen n Hn. pose proof (len_range f).
  assert (Hl : kfifo_len f <= mask f + 1) by apply Hwf. assert (He : 1 <= esize f) by by destruct Hwf as (_ & ? & _).
  unfold __kfifo_out_peek. fold (kfifo_len f).
  replace (if kfifo_len f <? len then kfifo_len f else len) with n by (unfold n; bcase; lia).
  assert (Hn0 : 0 <= n <= kfifo_len f) by lia. clearbody n.
  destruct (copy_out_ok f d Hwf Hd buf n (out f)) as (dst' & -> & Hlen' & Hg); [lia|apply Hwf|done|].
  cbn [mbind option_bind]. do 2 f_equal.
  rewrite <-(drop_0 q). change 0%nat with (Z.to_nat 0). assert (0 <= n * esize f <= zlen q) by (rewrite Hq; nia).
  apply (ring_read d (ring_size f) (out f * esize f)); [done|lia|lia|lia|lia|done|].
  intros j Hj. rewrite Z.add_0_r. by apply Hg.
Qed.

Lemma out_ok f q buf len : repr f q -> 0 <= len -> let n := len `min` kfifo_len f in n * esize f <= zlen buf ->
  exists f', __kfifo_out f buf len = Some (f', take (Z.to_nat (n * esize f)) q ++ drop (Z.to_nat (n * esize f)) buf, n) /\
             mask f' = mask f /\ esize f' = esize f /\ repr f' (drop (Z.to_nat (n * esize f)) q).
Proof.
  intros Hr Hlen n Hn. unfold __kfifo_out. rewrite (peek_ok f q) by done. cbn [mbind option_bind].
  eexists. split; [done|]. split_and!; [done..|]. apply repr_out; [done|]. pose proof (len_range f). lia.
Qed.

(** ** Proofs: creation *)

Lemma round_size_ok n : 0 < n < 2 ^ 32 -> round_size n = Some (2 ^ Z.log2 n).
Proof.
  intros Hn. destruct (Z.log2_spec n) as [Hlo Hhi]; [lia|]. pose proof (Z.log2_nonneg n).
  unfold round_size, is_power_of_2, rounddown_pow_of_two. rewrite (proj2 (Z.eqb_neq n 0)), ulong_small by lia. cbn [negb andb].
  destruct (Z.eqb_spec (Z.land n (n - 1)) 0) as [E|]; cbn [negb].
  - f_equal. destruct (decide (n = 2 ^ Z.log2 n)) as [|Hne]; [done|].
    assert (Hlog : Z.log2 (n - 1) = Z.log2 n) by (apply Z.log2_unique; lia).
    apply (f_equal (fun x => Z.testbit x (Z.log2 n))) in E. rewrite Z.land_spec, Z.bit_log2, Z.bits_0 in E by lia.
    rewrite <-Hlog, Z.bit_log2 in E; [done|]. pose proof (Z.pow_pos_nonneg 2 (Z.log2 n)). lia.
  - rewrite fls_log2 by done. replace (Z.log2 n + 1 - 1) with (Z.log2 n) by lia.
    rewrite (proj2 (Z.ltb_ge _ _)), Z.shiftl_1_l, ulong_small by lia. done.
Qed.

(** A fresh ring of [S] elements is empty. *)
Lemma repr_fresh S e d : (exists k, 0 <= k <= 31 /\ S = 2 ^ k) -> 1 <= e -> S * e + e <= 2 ^ 32 -> S * e <= zlen d ->
  repr {| in_ := 0; out := 0; mask := S - 1; esize := e; data := Some d |} [].
Proof.
  intros (k & Hk & HS) He Hb Hd. pose proof (Z.pow_pos_nonneg 2 k). unfold repr, wf, ring_size, kfifo_len.
  cbn [in_ out mask esize data]. replace (S - 1 + 1) with S by lia. change (u32 (0 - 0)) with 0.
  assert (exists d0, Some d = Some d0 /\ S * e <= zlen d0) by by exists d.
  split; [|split; [done|]].
  - split; [by exists k|]. split_and!; [lia..|done].
  - exists d. split; [done|]. intros j Hj. change (zlen (@nil Z)) with 0 in Hj. lia.
Qed.

Lemma pow2_small k : 0 <= k -> 2 ^ k < 2 ^ 32 -> k <= 31.
Proof. intros Hk H. apply Z.pow_lt_mono_r_iff in H; lia. Qed.

(** ** Proofs: records *)

(** The bytes of a record: its length in [recsize] bytes, the low one first,
    and its data. *)
Definition header (recsize n : Z) : list Z := if 1 <? recsize then [u8 n; u8 (Z.shiftr n 8)] else [u8 n].
Definition enc (recsize : Z) (r : list Z) : list Z := header recsize (zlen r) ++ r.
Definition fits (recsize : Z) (r : list Z) : Prop := zlen r < 2 ^ (8 * recsize).

(** A fifo that stores the records [rs], the oldest first. *)
Definition repr_r (recsize : Z) (f : __kfifo) (rs : list (list Z)) : Prop :=
  repr f (concat (enc recsize <$> rs)) /\ esize f = 1 /\ Forall (fits recsize) rs.

Section Records.
Context (recsize : Z) (Hrec : recsize = 1 \/ recsize = 2).

Lemma header_len n : zlen (header recsize n) = recsize.
Proof using Hrec. unfold header. by destruct Hrec as [-> | ->]. Qed.

(** One byte stored through the mask. *)
Lemma poke_ok f d x v : wf f -> data f = Some d -> esize f = 1 -> 0 <= x < 2 ^ 32 ->
  exists d', __KFIFO_POKE d x (mask f) v = Some d' /\ written f d d' [u8 v] 1 1 (x mod ring_size f).
Proof using.
  intros Hwf Hd He Hx. pose proof (wf_size f Hwf). pose proof (ring_len f d Hwf Hd) as Hl.
  assert (HN : ring_size f = mask f + 1) by (unfold ring_size; lia).
  unfold __KFIFO_POKE. rewrite (wf_land f Hwf), <-HN. pose proof (Z.mod_pos_bound x (ring_size f)).
  rewrite arr_set_Some by lia. eexists. split; [done|]. split; [apply zlen_insert|].
  intros p Hp. cbv zeta. rewrite arr_get_insert, ring_dist by lia. case_decide as E.
  - subst p. by rewrite Z.leb_refl, Z.sub_diag.
  - split; [|done]. destruct (Z.leb_spec (x mod ring_size f) p); lia.
Qed.

(** A byte index [n] places behind [x]. *)
Lemma pos_byte f x : wf f -> esize f = 1 -> u32 x mod ring_size f = x mod ring_size f.
Proof using.
  intros Hwf He. pose proof (wf_pos f Hwf x) as H. unfold ring_size in *. rewrite He, !Z.mul_1_r in *. done.
Qed.

Lemma in_pos_byte f (q : list Z) n : wf f -> esize f = 1 -> zlen q = kfifo_len f ->
  (out f * esize f + (zlen q + n)) mod ring_size f = u32 (in_ f + n) mod ring_size f.
Proof using.
  intros Hwf He Hq. pose proof (wf_ring_pos f Hwf). pose proof (in_pos f Hwf) as H'.
  rewrite He, !Z.mul_1_r in *. rewrite pos_byte, Hq, Z.add_assoc, <-Z.add_mod_idemp_l, H', Z.add_mod_idemp_l by (done || lia).
  done.
Qed.

Lemma take1 (x : Z) : take (Z.to_nat 1) [x] = [x].
Proof. done. Qed.

(** The header stored behind the queue. *)
Lemma poke_n_ok f d q n : wf f -> data f = Some d -> esize f = 1 -> zlen q = kfifo_len f ->
  ring_at d (ring_size f) (out f * esize f) q -> zlen q + recsize <= ring_size f ->
  exists d', __kfifo_poke_n f n recsize = Some (set_data f d') /\ zlen d' = zlen d /\
             ring_at d' (ring_size f) (out f * esize f) (q ++ header recsize n).
Proof using Hrec.
  intros Hwf Hd He Hq Hring Hfit. pose proof (wf_ring_pos f Hwf) as HN.
  assert (Hin : 0 <= in_ f < 2 ^ 32) by apply Hwf. unfold __kfifo_poke_n, header. rewrite Hd. cbn [mbind option_bind].
  destruct (poke_ok f d (in_ f) n Hwf Hd He Hin) as (d1 & -> & Hw1). cbn [mbind option_bind].
  assert (Hr1 : ring_at d1 (ring_size f) (out f * esize f) (q ++ [u8 n])).
  { rewrite <-(take1 (u8 n)). eapply ring_at_write; [done|exact Hring|exact Hw1| |change (zlen [u8 n]) with 1; lia|lia|lia].
    rewrite <-(Z.add_0_r (zlen q)), in_pos_byte, Z.add_0_r, u32_small by done. done. }
  destruct Hrec as [-> | ->]; [by exists d1; destruct Hw1|]. cbn [Z.ltb Z.compare Pos.compare Pos.compare_cont].
  assert (Hl1 : zlen d1 = zlen d) by apply Hw1.
  assert (Hwf1 : wf (set_data f d1)) by (apply wf_set_data; [done|]; rewrite Hl1; by apply (ring_len f)).
  destruct (poke_ok (set_data f d1) d1 (u32 (in_ f + 1)) (Z.shiftr n 8) Hwf1 eq_refl He (u32_range _)) as (d2 & E2 & Hw2).
  cbn [mask set_data] in E2. rewrite E2. cbn [mbind option_bind]. exists d2. split; [done|].
  split; [destruct Hw2 as [-> _]; done|]. change [u8 n; u8 (Z.shiftr n 8)] with ([u8 n] ++ take (Z.to_nat 1) [u8 (Z.shiftr n 8)]).
  rewrite app_assoc. apply (ring_at_write f d1 d2 _ [u8 (Z.shiftr n 8)] 1 1 (u32 (in_ f + 1) mod ring_size f)); try done.
  - rewrite zlen_app. change (zlen [u8 n]) with 1. by rewrite (in_pos_byte f q 1).
  - rewrite zlen_app. change (zlen [u8 n]) with 1. lia.
Qed.

Lemma in_r_ok f rs buf len : repr_r recsize f rs -> 0 <= len <= zlen buf -> len < 2 ^ (8 * recsize) ->
  if mask f + 1 - kfifo_len f <? len + recsize then __kfifo_in_r f buf len recsize = Some (f, 0)
  else exists f', __kfifo_in_r f buf len recsize = Some (f', len) /\ mask f' = mask f /\
                  repr_r recsize f' (rs ++ [take (Z.to_nat len) buf]).
Proof using Hrec.
  intros ((Hwf & Hq & d & Hd & Hring) & He & Hrs) Hlen Hfit. unfold __kfifo_in_r.
  assert (Hp : 2 ^ (8 * recsize) <= 2 ^ 16) by (destruct Hrec as [-> | ->]; cbn; lia).
  assert (HN : ring_size f = mask f + 1) by (unfold ring_size; lia). pose proof (len_range f).
  assert (Hin : 0 <= in_ f < 2 ^ 32) by apply Hwf.
  rewrite unused_ok, ulong_small by (done || lia). destruct (Z.ltb_spec (mask f + 1 - kfifo_len f) (len + recsize)); [done|].
  rewrite He, Z.mul_1_r in Hq. set (q := concat (enc recsize <$> rs)) in *.
  destruct (poke_n_ok f d q len Hwf Hd He Hq Hring) as (d1 & -> & Hl1 & Hr1); [lia|]. cbn [mbind option_bind].
  pose proof (ring_len f d Hwf Hd) as Hl0.
  assert (Hwf1 : wf (set_data f d1)) by (apply wf_set_data; [done|lia]).
  destruct (copy_in_ok (set_data f d1) d1 Hwf1 eq_refl buf len (u32 (in_ f + recsize))) as (d2 & E2 & Hw2);
    [cbn [mask set_data]; lia|apply u32_range|cbn [esize set_data]; lia|].
  cbn [in_ set_data] in *. rewrite E2. cbn [mbind option_bind]. eexists. split; [done|]. split; [done|].
  assert (Hl2 : zlen d2 = zlen d1) by apply Hw2. split; [|split; [done|]].
  - rewrite fmap_app, concat_app. fold q. cbn [fmap list_fmap concat]. rewrite app_nil_r.
    unfold enc at 1. rewrite zlen_take by lia.
    apply (repr_commit f d2 _ (len + recsize)); [done|lia|lia|lia| |].
    + rewrite !zlen_app, header_len, zlen_take by lia. lia.
    + rewrite app_assoc. replace len with (len * esize f) at 2 by lia.
      apply (ring_at_write f d1 d2 _ buf (len * esize f) (len * esize f) ((u32 (in_ f + recsize) * esize f) mod ring_size f));
        [lia|done|exact Hw2| |lia|lia|rewrite zlen_app, header_len; lia].
      rewrite zlen_app, header_len, in_pos_byte, He, Z.mul_1_r by done. done.
  - apply Forall_app. split; [done|]. constructor; [|done]. unfold fits. by rewrite zlen_take by lia.
Qed.

Lemma peek_byte_ok f d q j c : wf f -> data f = Some d -> esize f = 1 -> 0 <= j ->
  ring_at d (ring_size f) (out f * esize f) q -> q.[j] = Some c ->
  __KFIFO_PEEK d (u32 (out f + j)) (mask f) = Some c.
Proof using.
  intros Hwf Hd He Hj Hring Hc. unfold __KFIFO_PEEK. rewrite wf_land by done.
  assert (HN : ring_size f = mask f + 1) by (unfold ring_size; lia). rewrite <-HN, pos_byte by done.
  pose proof (arr_get_range _ _ _ Hc). rewrite <-Hc, (Hring j) by lia. by rewrite He, Z.mul_1_r.
Qed.

Lemma header_2 n : 0 <= n < 2 ^ 16 -> Z.lor (u8 n) (Z.shiftl (u8 (Z.shiftr n 8)) 8) = n.
Proof using.
  intros Hn. apply Z.bits_inj'. intros i Hi. testbits. destruct (Z.ltb_spec i 8).
  - rewrite (Z.testbit_neg_r _ (i - 8)) by lia. by rewrite andb_false_r, orb_false_r.
  - rewrite Z.shiftr_spec by lia. replace (i - 8 + 8) with i by lia.
    cbn [andb orb]. bcase; [done|]. symmetry. apply (testbit_above 16); lia.
Qed.

Lemma peek_n_ok f d r rest : wf f -> data f = Some d -> esize f = 1 -> fits recsize r ->
  ring_at d (ring_size f) (out f * esize f) (enc recsize r ++ rest) -> __kfifo_peek_n f recsize = Some (zlen r).
Proof using Hrec.
  intros Hwf Hd He Hfit Hring. pose proof (zlen_nonneg r). assert (Hout : 0 <= out f < 2 ^ 32) by apply Hwf.
  unfold __kfifo_peek_n. rewrite Hd. cbn [mbind option_bind].
  pose proof (fun j c Hj => peek_byte_ok f d _ j c Hwf Hd He Hj Hring) as Hpeek.
  pose proof (Hpeek 0) as H0. rewrite Z.add_0_r, (u32_small (out f)) in H0 by done.
  unfold enc, header, fits in *. destruct Hrec as [-> | ->].
  - rewrite (H0 (u8 (zlen r))) by (lia || done). cbn [mbind option_bind]. change (truth (ulong (1 - 1))) with false.
    by rewrite u8_small by (cbn in Hfit; lia).
  - rewrite (H0 (u8 (zlen r))) by (lia || done). cbn [mbind option_bind]. change (truth (ulong (2 - 1))) with true.
    rewrite (Hpeek 1 (u8 (Z.shiftr (zlen r) 8))) by (lia || done). cbn [mbind option_bind]. rewrite header_2; [done|]. cbn in Hfit. lia.
Qed.

Lemma repr_r_cons f r rs : repr_r recsize f (r :: rs) ->
  recsize + zlen r <= kfifo_len f /\ __kfifo_peek_n f recsize = Some (zlen r) /\
  repr_r recsize (set_out f (u32 (out f + (zlen r + recsize)))) rs.
Proof using Hrec.
  intros (Hr & He & Hrs). apply Forall_cons_iff in Hrs as [Hfit Hrs]. cbn [fmap list_fmap concat] in Hr.
  pose proof (zlen_nonneg r). assert (Hrec' : 1 <= recsize) by lia.
  assert (Hlen : zlen (enc recsize r) = recsize + zlen r) by (unfold enc; by rewrite zlen_app, header_len).
  pose proof Hr as (Hwf & Hq & d & Hd & Hring). rewrite He, zlen_app, Hlen in Hq.
  pose proof (zlen_nonneg (concat (enc recsize <$> rs))). split; [|split].
  - unfold kfifo_len in *. fold (enc recsize) in *. lia.
  - by eapply peek_n_ok.
  - split; [|done]. replace (concat (enc recsize <$> rs))
      with (drop (Z.to_nat ((zlen r + recsize) * esize f)) (enc recsize r ++ concat (enc recsize <$> rs))).
    { apply repr_out; [done|lia]. }
    rewrite He. replace ((zlen r + recsize) * 1) with (zlen (enc recsize r)) by lia. apply drop_zlen_app.
Qed.

Lemma repr_r_nil f : repr_r recsize f [] -> in_ f = out f.
Proof using.
  intros ((Hwf & Hq & _) & He & _). rewrite He in Hq. change (zlen _) with 0 in Hq.
  destruct Hwf as (_ & _ & _ & Hi & Ho & _). unfold kfifo_len, u32 in Hq. zlia.
Qed.

Lemma repr_r_nonempty f r rs : repr_r recsize f (r :: rs) -> in_ f <> out f.
Proof using Hrec.
  intros Hr E. destruct (repr_r_cons f r rs Hr) as (Hl & _). pose proof (zlen_nonneg r).
  unfold kfifo_len in Hl. rewrite E, Z.sub_diag in Hl. change (u32 0) with 0 in Hl. lia.
Qed.

Lemma out_copy_r_ok f r rs buf len : repr_r recsize f (r :: rs) -> 0 <= len -> let n := len `min` zlen r in n <= zlen buf ->
  kfifo_out_copy_r f buf len recsize =
  Some (take (Z.to_nat n) r ++ drop (Z.to_nat n) buf, n, zlen r).
Proof using Hrec.
  intros Hr Hlen n Hn. destruct (repr_r_cons f r rs Hr) as (Hl & Hp & _). unfold kfifo_out_copy_r. rewrite Hp. cbn [mbind option_bind].
  pose proof (zlen_nonneg r). replace (if zlen r <? len then zlen r else len) with n by (unfold n; bcase; lia).
  assert (Hn0 : 0 <= n <= zlen r) by lia. clearbody n.
  destruct Hr as ((Hwf & Hq & d & Hd & Hring) & He & _). assert (Hmax : kfifo_len f <= mask f + 1) by apply Hwf.
  assert (Hrec' : 1 <= recsize) by lia. pose proof (wf_ring_pos f Hwf).
  destruct (copy_out_ok f d Hwf Hd buf n (u32 (out f + recsize))) as (dst' & -> & Hlen' & Hg); [lia|apply u32_range|lia|].
  cbn [mbind option_bind]. do 3 f_equal. cbn [fmap list_fmap concat] in *.
  replace (take (Z.to_nat n) r) with (take (Z.to_nat n) (drop (Z.to_nat recsize) (enc recsize r ++ concat (enc recsize <$> rs)))).
  - apply (ring_read d (ring_size f) (out f * esize f)); [done|lia|lia| |lia|done|].
    + rewrite Hq, He. lia.
    + intros j Hj. rewrite Hg by done. rewrite He, !Z.mul_1_r. bcase; [|done]. f_equal.
      rewrite <-Z.add_mod_idemp_l, pos_byte, Z.add_mod_idemp_l by (done || lia). done.
  - unfold enc at 1. rewrite <-app_assoc. rewrite <-(header_len (zlen r)) at 1. rewrite drop_zlen_app.
    rewrite take_app_le; [done|]. unfold zlen in *. lia.
Qed.
End Records.

(** ** Proofs: copies to and from user space *)

(** Rounding the bytes left up to elements leaves the elements copied in full. *)
Lemma div_round_up_ok len e k : 1 <= e -> 0 <= len -> 0 <= k <= len * e -> len * e + e <= 2 ^ 32 ->
  exists ret, DIV_ROUND_UP k e = Some ret /\ 0 <= ret <= len /\ (len - ret) * e <= len * e - k /\ (0 < k -> 0 < ret) /\ len - ret = (len * e - k) / e.
Proof.
  intros He Hl Hk Hb. unfold DIV_ROUND_UP. rewrite (proj2 (Z.eqb_neq _ _)), ulong_small by lia.
  eexists. split; [done|]. pose proof (Z.div_mod (k + e - 1) e ltac:(lia)). pose proof (Z.mod_pos_bound (k + e - 1) e ltac:(lia)).
  do 2 (split; [nia|]). split; [nia|]. apply (Z.div_unique_pos _ _ _ (e - 1 - (k + e - 1) mod e)); [lia|]. rewrite Z.mul_sub_distr_l. lia.
Qed.

(** How many of [w] bytes reach the ring at the byte [i], or the user's area from it: the copy goes up to the end of the ring, and then, if nothing was missing, on at
    its start.  The copies say what was missing. *)
Definition bytes_in copy (f : __kfifo) (d from : list Z) (i w : Z) : option Z :=
  let l := w `min` (ring_size f - i) in
  '(p, k) ← copy (drop (Z.to_nat i) d) from l;
  if k =? 0 then '(_, k) ← copy (take (Z.to_nat i) d ++ p) (drop (Z.to_nat l) from) (w - l); Some (w - k) else Some (l - k).
Definition bytes_out copy (f : __kfifo) (d to : list Z) (i w : Z) : option Z :=
  let l := w `min` (ring_size f - i) in
  '(t, k) ← copy to (drop (Z.to_nat i) d) l;
  if k =? 0 then '(_, k) ← copy (drop (Z.to_nat l) t) d (w - l); Some (w - k) else Some (l - k).

Section UserProofs.
Context (copy : list Z -> list Z -> Z -> option (list Z * Z)) (f : __kfifo) (d : list Z) (Hwf : wf f) (Hd : data f = Some d).
Let N := ring_size f.
Let e := esize f.

Lemma wf_bounds : 1 <= e /\ N + e <= 2 ^ 32 /\ N = (mask f + 1) * e.
Proof using Hwf. destruct Hwf as (_ & ? & ? & _). done. Qed.

Lemma copy_from_user_ok `{!CopyFromUser copy} from len off : 0 <= len <= mask f + 1 -> 0 <= off < 2 ^ 32 ->
  exists d' copied ret, kfifo_copy_from_user copy f from len off = Some (set_data f d', copied, ret) /\
    0 <= ret <= len /\ (len - ret) * e <= zlen from /\
    written f d d' from ((len - ret) * e) (len * e) ((off * e) mod N) /\
    (exists c, bytes_in copy f d from ((off * e) mod N) (len * e) = Some c /\ 0 <= c <= len * e /\ len - ret = c / e) /\ copied = len * e - ret.
Proof using Hwf Hd.
  intros Hl Ho. destruct (ring_split_ok f Hwf len off Hl Ho) as (Hsplit & Hi & Hw).
  destruct wf_bounds as (He & Hb & HNe). pose proof (ring_len f d Hwf Hd) as HN. assert (Hlw : len <= len * e) by nia.
  unfold kfifo_copy_from_user. rewrite Hsplit, Hd. cbn [mbind option_bind]. fold e N in Hi, Hw, HN |- *.
  remember ((off * e) mod N) as i eqn:Ei. remember (len * e) as w eqn:Ew. remember (w `min` (N - i)) as l eqn:El.
  rewrite (proj2 (Z.ltb_ge _ _)) by lia. unfold bytes_in. fold N. rewrite <- El.
  destruct (from_user_spec (drop (Z.to_nat i) d) from l) as (p & k & -> & Hk & Hpl & Hks & Hp1 & Hp2); [rewrite zlen_drop; lia|].
  cbn [mbind option_bind]. rewrite zlen_drop in Hpl by lia.
  set (d1 := take (Z.to_nat i) d ++ p). assert (Hd1 : zlen d1 = zlen d) by (unfold d1; rewrite zlen_app, zlen_take; lia).
  assert (Hg1 : forall x, 0 <= x -> d1.[x] = if x <? i then d.[x] else p.[x - i]).
  { intros x Hx. unfold d1. bcase.
    - rewrite arr_get_app_l by (rewrite zlen_take; lia). by apply arr_get_take.
    - rewrite arr_get_app_r by (rewrite zlen_take; lia). by rewrite zlen_take by lia. }
  fold d1. clearbody d1. assert (Hp2' : forall x, i + l <= x -> d1.[x] = d.[x]).
  { intros x Hx. rewrite Hg1, (proj2 (Z.ltb_ge _ _)), Hp2, arr_get_drop by lia. f_equal. lia. }
  assert (Hp1' : forall x, i <= x < i + (l - k) -> d1.[x] = from.[x - i]).
  { intros x Hx. rewrite Hg1, (proj2 (Z.ltb_ge _ _)), Hp1 by lia. done. }
  assert (Hp0' : forall x, 0 <= x < i -> d1.[x] = d.[x]).
  { intros x Hx. by rewrite Hg1, (proj2 (Z.ltb_lt _ _)) by lia. }
  destruct (truth k) eqn:Ht.
  - apply truth_true in Ht. rewrite ulong_small by lia.
    destruct (div_round_up_ok len e (k + w - l)) as (ret & -> & Hret & Hre & _ & Hdiv); [lia..|]. cbn [mbind option_bind].
    eexists d1, _, ret. split; [done|]. do 2 (split; [lia|]).
    split; [|rewrite (proj2 (Z.eqb_neq k 0)), u32_small by lia; split; [exists (l - k); split; [done|]; split; [lia|]; rewrite Hdiv; f_equal; lia|done]].
    split; [done|]. intros x Hx. cbv zeta. fold N. rewrite ring_dist by lia. split; intros Hj.
    + destruct (Z.leb_spec i x); [apply Hp1'; lia|lia].
    + destruct (Z.leb_spec i x); [apply Hp2'; lia|apply Hp0'; lia].
  - apply truth_false in Ht. subst k. rewrite u32_small by lia.
    destruct (from_user_spec d1 (drop (Z.to_nat l) from) (w - l)) as (d2 & k & -> & Hk2 & Hd2 & Hks2 & Hq1 & Hq2); [lia|].
    cbn [mbind option_bind]. rewrite zlen_drop in Hks2 by lia.
    assert (Hret : exists ret, (if truth k then ret ← DIV_ROUND_UP k e; Some (d2, ret) else Some (d2, k)) = Some (d2, ret) /\
      0 <= ret <= len /\ (len - ret) * e <= len * e - k /\ len - ret = (len * e - k) / e).
    { destruct (truth k) eqn:Ht2.
      - destruct (div_round_up_ok len e k) as (ret & -> & ? & ? & _ & ?); [lia..|]. by exists ret.
      - apply truth_false in Ht2. exists k. split; [done|]. subst k. rewrite !Z.sub_0_r, Z.div_mul by lia. lia. }
    destruct Hret as (ret & -> & Hret & Hre & Hdiv). cbn [mbind option_bind].
    eexists d2, _, ret. split; [done|]. do 2 (split; [lia|]).
    split; [|rewrite u32_small by lia; cbn [Z.eqb]; split; [exists (w - k); split; [done|]; split; [lia|]; rewrite Hdiv; f_equal; lia|done]].
    split; [lia|]. intros x Hx. cbv zeta. fold N. rewrite ring_dist by lia. split; intros Hj.
    + destruct (Z.leb_spec i x).
      * rewrite Hq2, Hp1' by lia. done.
      * rewrite Hq1, arr_get_drop by lia. f_equal. lia.
    + destruct (Z.leb_spec i x); rewrite Hq2 by lia; [apply Hp2'; lia|apply Hp0'; lia].
Qed.

Lemma copy_to_user_ok `{!CopyToUser copy} to len off : 0 <= len <= mask f + 1 -> 0 <= off < 2 ^ 32 ->
  exists to' copied ret, kfifo_copy_to_user copy f to len off = Some (to', copied, ret) /\
    0 <= ret <= len /\ (len - ret) * e <= zlen to /\ zlen to' = zlen to /\
    (forall j, 0 <= j < (len - ret) * e -> to'.[j] = d.[(off * e + j) mod N]) /\ (forall j, len * e <= j -> to'.[j] = to.[j]) /\
    (exists c, bytes_out copy f d to ((off * e) mod N) (len * e) = Some c /\ 0 <= c <= len * e /\ len - ret = c / e) /\ copied = len * e - ret.
Proof using Hwf Hd.
  intros Hl Ho. destruct (ring_split_ok f Hwf len off Hl Ho) as (Hsplit & Hi & Hw).
  destruct wf_bounds as (He & Hb & HNe). pose proof (ring_len f d Hwf Hd) as HN. assert (Hlw : len <= len * e) by nia.
  unfold kfifo_copy_to_user. rewrite Hsplit, Hd. cbn [mbind option_bind]. fold e N in Hi, Hw, HN |- *.
  assert (Hpos : forall j, (off * e + j) mod N = ((off * e) mod N + j) mod N) by (intros; by rewrite Z.add_mod_idemp_l by lia).
  remember ((off * e) mod N) as i eqn:Ei. remember (len * e) as w eqn:Ew. remember (w `min` (N - i)) as l eqn:El.
  unfold bytes_out. fold N. rewrite <- El.
  destruct (to_user_spec to (drop (Z.to_nat i) d) l) as (t1 & k & -> & Hk & Ht1 & Hkd & Hg1 & Hg2); [rewrite zlen_drop; lia|].
  cbn [mbind option_bind].
  assert (Hg1' : forall j, 0 <= j < l - k -> t1.[j] = d.[(off * e + j) mod N]).
  { intros j Hj. rewrite Hg1, arr_get_drop, Hpos, Z.mod_small by lia. done. }
  destruct (truth k) eqn:Ht.
  - apply truth_true in Ht. rewrite ulong_small by lia.
    destruct (div_round_up_ok len e (k + w - l)) as (ret & -> & Hret & Hre & _ & Hdiv); [lia..|]. cbn [mbind option_bind].
    eexists t1, _, ret. split; [done|]. do 3 (split; [lia|]). split; [intros j Hj; apply Hg1'; lia|]. split; [intros j Hj; apply Hg2; lia|].
    rewrite (proj2 (Z.eqb_neq k 0)), u32_small by lia. split; [exists (l - k); split; [done|]; split; [lia|]; rewrite Hdiv; f_equal; lia|done].
  - apply truth_false in Ht. subst k. rewrite u32_small by lia.
    destruct (to_user_spec (drop (Z.to_nat l) t1) d (w - l)) as (t2 & k & -> & Hk2 & Ht2 & Hkd2 & Hh1 & Hh2); [lia|].
    cbn [mbind option_bind]. rewrite zlen_drop in Ht2, Hkd2 by lia.
    assert (Hret : forall x, exists ret, (if truth k then ret ← DIV_ROUND_UP k e; Some (x, ret) else Some (x, k)) =
      Some (x : list Z, ret) /\ 0 <= ret <= len /\ (len - ret) * e <= len * e - k /\ len - ret = (len * e - k) / e).
    { intros x. destruct (truth k) eqn:Ht3.
      - destruct (div_round_up_ok len e k) as (ret & -> & ? & ? & _ & ?); [lia..|]. by exists ret.
      - apply truth_false in Ht3. exists k. split; [done|]. subst k. rewrite !Z.sub_0_r, Z.div_mul by lia. lia. }
    destruct (Hret (take (Z.to_nat l) t1 ++ t2)) as (ret & -> & Hr & Hre & Hdiv). cbn [mbind option_bind].
    assert (Hlt : zlen (take (Z.to_nat l) t1) = l) by (rewrite zlen_take; lia).
    eexists (take (Z.to_nat l) t1 ++ t2), _, ret. split; [done|]. do 2 (split; [lia|]). split; [rewrite zlen_app; lia|]. split; [|split; [|rewrite u32_small by lia; cbn [Z.eqb]; split; [exists (w - k); split; [done|]; split; [lia|]; rewrite Hdiv; f_equal; lia|done]]].
    + intros j Hj. destruct (Z.ltb_spec j l).
      * rewrite arr_get_app_l, arr_get_take by lia. apply Hg1'. lia.
      * rewrite arr_get_app_r, Hh1, Hpos, ring_next by lia. rewrite (proj2 (Z.ltb_ge _ _)) by lia. f_equal. lia.
    + intros j Hj. rewrite arr_get_app_r, Hh2, arr_get_drop, Hlt by lia. rewrite Hg2 by lia. f_equal. lia.
Qed.
End UserProofs.

(** Elements asked for by a byte count. *)
Lemma user_count f len : wf f -> (if negb (esize f =? 1) then len / esize f else len) = len / esize f.
Proof. intros _. destruct (Z.eqb_spec (esize f) 1) as [->|]; cbn [negb]; [by rewrite Z.div_1_r|done]. Qed.

Lemma from_user_ok copy `{!CopyFromUser copy} f q from len : repr f q -> 0 <= len ->
  let n := (len / esize f) `min` (mask f + 1 - kfifo_len f) in
  exists f' copied err m, __kfifo_from_user copy f from len = Some (f', copied, err) /\ 0 <= m <= n /\
    m * esize f <= zlen from /\ repr f' (q ++ take (Z.to_nat (m * esize f)) from) /\
    ((err = 0 /\ m = n) \/ (err = - EFAULT /\ m < n)) /\ copied = n * esize f - (n - m) /\
    exists d c, data f = Some d /\ bytes_in copy f d from ((in_ f * esize f) mod ring_size f) (n * esize f) = Some c /\ 0 <= c <= n * esize f /\ m = c / esize f.
Proof.
  intros Hr Hlen n. assert (Hwf : wf f) by by destruct Hr. pose proof (wf_bounds f Hwf) as (He & Hb & _).
  pose proof (len_range f). assert (Hl : kfifo_len f <= mask f + 1) by apply Hwf. pose proof (wf_size f Hwf).
  pose proof Hr as (_ & Hq & d & Hd & Hring). unfold __kfifo_from_user.
  rewrite (proj2 (Z.eqb_neq _ _)), user_count, unused_ok by (done || lia).
  assert (0 <= len / esize f) by (apply Z.div_pos; lia).
  replace (if mask f + 1 - kfifo_len f <? len / esize f then mask f + 1 - kfifo_len f else len / esize f) with n
    by (unfold n; bcase; lia).
  assert (Hn : 0 <= n <= mask f + 1 - kfifo_len f) by lia. clearbody n.
  destruct (copy_from_user_ok copy f d Hwf Hd from n (in_ f)) as (d' & copied & ret & -> & Hret & Hfrom & Hw & (c & Hc) & ->); [lia|apply Hwf|].
  cbn [mbind option_bind in_ set_data]. unfold truth. destruct (Z.eqb_spec ret 0) as [->|Hne]; cbn [negb].
  - eexists _, _, _, n. split; [done|]. rewrite Z.sub_0_r in *. do 2 (split; [lia|]). split; [|split; [by left|split; [lia|by exists d, c]]].
    apply (repr_in f q d' from n n d); [done..|lia|lia|done|done].
  - rewrite (ulong_small (n - ret)) by lia. eexists _, _, _, (n - ret). split; [done|]. do 2 (split; [lia|]).
    split; [|split; [right; split; [done|lia]|split; [lia|by exists d, c]]].
    apply (repr_in f q d' from (n - ret) n d); [done..|lia|lia|done|done].
Qed.

Lemma to_user_ok copy `{!CopyToUser copy} f q to len : repr f q -> 0 <= len ->
  let n := (len / esize f) `min` kfifo_len f in
  exists f' to' copied err m, __kfifo_to_user copy f to len = Some (f', to', copied, err) /\ 0 <= m <= n /\
    take (Z.to_nat (m * esize f)) to' = take (Z.to_nat (m * esize f)) q /\ zlen to' = zlen to /\
    repr f' (drop (Z.to_nat (m * esize f)) q) /\
    ((err = 0 /\ m = n) \/ (err = - EFAULT /\ m < n)) /\ copied = n * esize f - (n - m) /\
    exists d c, data f = Some d /\ bytes_out copy f d to ((out f * esize f) mod ring_size f) (n * esize f) = Some c /\ 0 <= c <= n * esize f /\ m = c / esize f.
Proof.
  intros Hr Hlen n. assert (Hwf : wf f) by by destruct Hr. pose proof (wf_bounds f Hwf) as (He & Hb & _).
  pose proof (len_range f). assert (Hl : kfifo_len f <= mask f + 1) by apply Hwf. pose proof (wf_size f Hwf).
  pose proof Hr as (_ & Hq & d & Hd & Hring). unfold __kfifo_to_user.
  rewrite (proj2 (Z.eqb_neq _ _)), user_count by (done || lia). fold (kfifo_len f).
  assert (0 <= len / esize f) by (apply Z.div_pos; lia).
  replace (if kfifo_len f <? len / esize f then kfifo_len f else len / esize f) with n by (unfold n; bcase; lia).
  assert (Hn : 0 <= n <= kfifo_len f) by lia. clearbody n.
  destruct (copy_to_user_ok copy f d Hwf Hd to n (out f)) as (to' & copied & ret & -> & Hret & Hto & Hlen' & Hg & _ & (c & Hc) & ->); [lia|apply Hwf|].
  assert (Hpre : take (Z.to_nat ((n - ret) * esize f)) to' = take (Z.to_nat ((n - ret) * esize f)) q).
  { assert (0 <= (n - ret) * esize f <= zlen q) by (rewrite Hq; nia).
    apply arr_ext; rewrite !zlen_take by lia; [done|]. intros j Hj. rewrite !arr_get_take by lia. rewrite Hg, (Hring j) by lia. done. }
  cbn [mbind option_bind]. unfold truth. destruct (Z.eqb_spec ret 0) as [->|Hne]; cbn [negb].
  - eexists _, _, _, _, n. split; [done|]. rewrite Z.sub_0_r in *. split; [lia|]. do 2 (split; [done|]). split; [by apply repr_out|]. split; [by left|]. split; [lia|by exists d, c].
  - rewrite (ulong_small (n - ret)) by lia. eexists _, _, _, _, (n - ret). split; [done|].
    split; [lia|]. do 2 (split; [done|]). split; [apply repr_out; [done|lia]|]. split; [right; split; [done|lia]|]. split; [lia|by exists d, c].
Qed.

(** ** Properties *)

Lemma init_ok buffer size e : 1 <= e -> 0 <= size -> size + e <= 2 ^ 32 -> size <= zlen buffer ->
  match size / e with
  | 0 => __kfifo_init buffer size e = None
  | 1 => exists f, __kfifo_init buffer size e = Some (f, - EINVAL)
  | m => exists f, __kfifo_init buffer size e = Some (f, 0) /\ mask f + 1 = 2 ^ Z.log2 m /\ esize f = e /\ repr f []
  end.
Proof.
  intros He Hs Hb Hbuf. unfold __kfifo_init. rewrite (proj2 (Z.eqb_neq _ _)) by lia.
  pose proof (Z.div_mod size e ltac:(lia)). pose proof (Z.mod_pos_bound size e ltac:(lia)).
  assert (Hm : 0 <= size / e < 2 ^ 32) by (split; [apply Z.div_pos; lia|apply Z.div_lt_upper_bound; nia]).
  destruct (decide (size / e = 0)) as [->|]; [done|]. destruct (decide (size / e = 1)) as [->|]; [by eexists|].
  assert (H2 : 2 <= size / e) by lia. rewrite round_size_ok by lia. cbn [mbind option_bind].
  pose proof (Z.log2_spec (size / e) ltac:(lia)) as [Hlo Hhi]. pose proof (Z.log2_nonneg (size / e)).
  assert (Hl1 : 1 <= Z.log2 (size / e)) by (apply Z.log2_le_pow2; lia).
  assert (Hge : 2 ^ 1 <= 2 ^ Z.log2 (size / e)) by (apply Z.pow_le_mono_r; lia).
  rewrite (proj2 (Z.ltb_ge _ _)) by lia.
  assert (G : exists f, Some ({| in_ := 0; out := 0; mask := 2 ^ Z.log2 (size / e) - 1; esize := e; data := Some buffer |}, 0)
    = Some (f, 0) /\ mask f + 1 = 2 ^ Z.log2 (size / e) /\ esize f = e /\ repr f []).
  { eexists. split; [done|]. cbn [mask esize]. split; [lia|]. split; [done|]. apply repr_fresh; [|lia|nia|nia].
    exists (Z.log2 (size / e)). split; [|done]. split; [lia|]. apply pow2_small; lia. }
  destruct (size / e) as [|[| |]|]; [lia|exact G|exact G|lia|lia].
Qed.

Lemma alloc_ok kmalloc size e : (forall n d, kmalloc n = Some d -> zlen d = n) ->
  1 <= e -> 2 <= size < 2 ^ 32 -> 2 ^ Z.log2 size * e + e <= 2 ^ 32 ->
  match kmalloc (2 ^ Z.log2 size * e) with
  | None => exists f, __kfifo_alloc kmalloc size e = Some (f, - ENOMEM) /\ data f = None
  | Some _ => exists f, __kfifo_alloc kmalloc size e = Some (f, 0) /\ mask f + 1 = 2 ^ Z.log2 size /\ esize f = e /\ repr f []
  end.
Proof.
  intros Hk He Hs Hb. unfold __kfifo_alloc. rewrite round_size_ok by lia. cbn [mbind option_bind].
  assert (H1 : 1 <= Z.log2 size) by (apply Z.log2_le_pow2; lia).
  assert (Hge : 2 ^ 1 <= 2 ^ Z.log2 size) by (apply Z.pow_le_mono_r; lia).
  pose proof (Z.log2_spec size ltac:(lia)) as [Hlo Hhi]. rewrite (proj2 (Z.ltb_ge _ _)), u32_small by lia.
  destruct (kmalloc _) as [d|] eqn:E; [|by eexists]. apply Hk in E.
  eexists. split; [done|]. cbn [mask esize]. split; [lia|]. split; [done|]. apply repr_fresh; [|lia|lia|lia].
  exists (Z.log2 size). split; [|done]. split; [lia|]. apply pow2_small; lia.
Qed.

(** a fifo over a given buffer, or one that is allocated, is an empty
    queue whose capacity is the largest power of two of elements that fits; a single element is
    refused with -EINVAL, a failed allocation with -ENOMEM, and for less than one
    element the rounding shifts by a negative count. *)
Theorem kfifo_creates kmalloc buffer bytes size e : (forall n d, kmalloc n = Some d -> zlen d = n) -> 1 <= e ->
  0 <= bytes -> bytes + e <= 2 ^ 32 -> bytes <= zlen buffer -> 2 <= size < 2 ^ 32 -> 2 ^ Z.log2 size * e + e <= 2 ^ 32 ->
  match bytes / e with
  | 0 => __kfifo_init buffer bytes e = None
  | 1 => exists f, __kfifo_init buffer bytes e = Some (f, - EINVAL)
  | m => exists f, __kfifo_init buffer bytes e = Some (f, 0) /\ mask f + 1 = 2 ^ Z.log2 m /\ esize f = e /\ repr f []
  end /\
  match kmalloc (2 ^ Z.log2 size * e) with
  | None => exists f, __kfifo_alloc kmalloc size e = Some (f, - ENOMEM) /\ data f = None
  | Some _ => exists f, __kfifo_alloc kmalloc size e = Some (f, 0) /\ mask f + 1 = 2 ^ Z.log2 size /\ esize f = e /\ repr f []
  end.
Proof. intros Hk He Hb1 Hb2 Hb3 Hs1 Hs2. split; [by apply init_ok|by apply alloc_ok]. Qed.

Definition alloc_zero (n : Z) : option (list Z) := if n <? 0 then None else Some (replicate (Z.to_nat n) 0).

Lemma alloc_zero_len n d : alloc_zero n = Some d -> zlen d = n.
Proof. unfold alloc_zero. bcase; intros [=<-]. unfold zlen. rewrite length_replicate. lia. Qed.

Lemma kfifo_creates_witness : exists f, __kfifo_init [1; 2; 3; 4; 5] 5 1 = Some (f, 0) /\ mask f + 1 = 2 ^ Z.log2 5 /\ esize f = 1 /\ repr f [].
Proof.
  apply (kfifo_creates alloc_zero [1; 2; 3; 4; 5] 5 4 1 alloc_zero_len); try lia; [change (5 <= 5); lia|cbn; lia].
Defined.

(** C6: the fifo refines a queue of bytes, whatever the values of its wrapping
    indices: __kfifo_in() appends the first elements of the buffer, as many as
    asked for and free; __kfifo_out() moves the oldest ones, as many as asked for and stored, to
    the buffer, and __kfifo_out_peek() copies them; no other byte of the
    buffer changes. *)
Theorem kfifo_refines_queue f q : repr f q ->
  (forall buf len, 0 <= len -> let n := len `min` (mask f + 1 - kfifo_len f) in n * esize f <= zlen buf ->
     exists f', __kfifo_in f buf len = Some (f', n) /\ mask f' = mask f /\ esize f' = esize f /\
                repr f' (q ++ take (Z.to_nat (n * esize f)) buf)) /\
  (forall buf len, 0 <= len -> let n := len `min` kfifo_len f in n * esize f <= zlen buf ->
     let buf' := take (Z.to_nat (n * esize f)) q ++ drop (Z.to_nat (n * esize f)) buf in
     __kfifo_out_peek f buf len = Some (buf', n) /\
     exists f', __kfifo_out f buf len = Some (f', buf', n) /\ mask f' = mask f /\ esize f' = esize f /\
                repr f' (drop (Z.to_nat (n * esize f)) q)).
Proof.
  intros Hr. split.
  - intros buf len. by apply in_ok.
  - intros buf len Hlen n Hn buf'. split; [by apply peek_ok|by apply out_ok].
Qed.

(** A fifo of 4 two-byte elements whose indices are about to wrap. *)
Definition wrapped_fifo : __kfifo :=
  {| in_ := 0; out := 2 ^ 32 - 1; mask := 3; esize := 2; data := Some [0; 0; 0; 0; 0; 0; 8; 9] |}.

Lemma wrapped_fifo_repr : repr wrapped_fifo [8; 9].
Proof.
  split; [|split; [done|]].
  - split; [exists 2; split; [lia|done]|]. unfold wrapped_fifo, ring_size; cbn [mask esize in_ out].
    do 4 (split; [lia|]). split; [vm_compute; discriminate|]. eexists. split; [done|]. vm_compute. discriminate.
  - eexists. split; [done|]. intros j Hj. change (zlen [8; 9]) with 2 in Hj.
    destruct (decide (j = 0)) as [->|]; [done|]. replace j with 1 by lia. done.
Qed.

Lemma kfifo_refines_queue_witness : exists f',
  __kfifo_in wrapped_fifo [1; 2; 3; 4; 5; 6; 7; 8] 4 = Some (f', 3) /\ repr f' [8; 9; 1; 2; 3; 4; 5; 6].
Proof.
  destruct (kfifo_refines_queue wrapped_fifo [8; 9] wrapped_fifo_repr) as [Hin _].
  destruct (Hin [1; 2; 3; 4; 5; 6; 7; 8] 4) as (f' & H & _ & _ & Hr); [lia|vm_compute; discriminate|].
  exists f'. split; [exact H|exact Hr].
Defined.

(** C39: the copies to and from user space refine the queue even when they
    fault: of the [c] bytes that got over before the fault exactly the elements that are complete, [c / esize], are appended or
    removed, and the result is -EFAULT unless these are all that was asked for
    and possible.  What is stored in *copied is the number of bytes asked for less the number of elements not copied. *)
Theorem kfifo_user_refines_queue cfrom cto f q : CopyFromUser cfrom -> CopyToUser cto -> repr f q ->
  (forall from len, 0 <= len -> let n := (len / esize f) `min` (mask f + 1 - kfifo_len f) in
     exists f' copied err m, __kfifo_from_user cfrom f from len = Some (f', copied, err) /\ 0 <= m <= n /\
       m * esize f <= zlen from /\ repr f' (q ++ take (Z.to_nat (m * esize f)) from) /\
       ((err = 0 /\ m = n) \/ (err = - EFAULT /\ m < n)) /\ copied = n * esize f - (n - m) /\
       exists d c, data f = Some d /\ bytes_in cfrom f d from ((in_ f * esize f) mod ring_size f) (n * esize f) = Some c /\
         0 <= c <= n * esize f /\ m = c / esize f) /\
  (forall to len, 0 <= len -> let n := (len / esize f) `min` kfifo_len f in
     exists f' to' copied err m, __kfifo_to_user cto f to len = Some (f', to', copied, err) /\ 0 <= m <= n /\
       take (Z.to_nat (m * esize f)) to' = take (Z.to_nat (m * esize f)) q /\ zlen to' = zlen to /\
       repr f' (drop (Z.to_nat (m * esize f)) q) /\
       ((err = 0 /\ m = n) \/ (err = - EFAULT /\ m < n)) /\ copied = n * esize f - (n - m) /\
       exists d c, data f = Some d /\ bytes_out cto f d to ((out f * esize f) mod ring_size f) (n * esize f) = Some c /\
         0 <= c <= n * esize f /\ m = c / esize f).
Proof.
  intros Hfrom Hto Hr. split.
  - intros from len. by apply from_user_ok.
  - intros to len. by apply to_user_ok.
Qed.

Lemma kfifo_user_refines_queue_witness : exists f',
  __kfifo_from_user copy_available wrapped_fifo [1; 2; 3] 6 = Some (f', 4, - EFAULT) /\ repr f' [8; 9; 1; 2].
Proof.
  destruct (kfifo_user_refines_queue copy_available copy_available wrapped_fifo [8; 9] _ _ wrapped_fifo_repr) as [Hin _].
  destruct (Hin [1; 2; 3] 6) as (f' & copied & err & m & H & _ & _ & Hr & He & -> & d & c & Hd & Hc & _ & Hm); [lia|].
  injection Hd as <-. vm_compute in Hc. injection Hc as <-. change (m = 1) in Hm. subst m.
  destruct He as [[_ He]|[-> _]]; [discriminate He|]. exists f'. split; [exact H|exact Hr].
Defined.

(** *copied is documented as the number of bytes copied, but after a fault
    it is the number of bytes asked for less the number of elements not copied: here
    3 of 6 bytes are copied, one element of two bytes is stored, and *copied is 4. *)
Theorem kfifo_copied_mixes_units : exists f',
  __kfifo_from_user copy_available wrapped_fifo [1; 2; 3] 6 = Some (f', 4, - EFAULT) /\ kfifo_len f' = 2.
Proof. eexists. split; [vm_compute; reflexivity|reflexivity]. Qed.

(** C32: a record fifo refines a queue of records: __kfifo_in_r() appends the
    record or, when it does not fit with its header, stores nothing and returns 0;
    __kfifo_len_r() is the length of the oldest record; __kfifo_out_r() removes it and
    returns as much of it as fits the buffer, __kfifo_out_peek_r() leaves
    it, __kfifo_skip_r() drops it; on an empty fifo the reads return 0. *)
Theorem kfifo_records_refine recsize f rs : recsize = 1 \/ recsize = 2 -> repr_r recsize f rs ->
  (forall buf len, 0 <= len <= zlen buf -> len < 2 ^ (8 * recsize) ->
     if mask f + 1 - kfifo_len f <? len + recsize then __kfifo_in_r f buf len recsize = Some (f, 0)
     else exists f', __kfifo_in_r f buf len recsize = Some (f', len) /\ mask f' = mask f /\
                     repr_r recsize f' (rs ++ [take (Z.to_nat len) buf])) /\
  (forall buf len, 0 <= len ->
     match rs with
     | [] => __kfifo_out_r f buf len recsize = Some (f, buf, 0) /\ __kfifo_out_peek_r f buf len recsize = Some (buf, 0)
     | r :: rs' =>
         let n := len `min` zlen r in n <= zlen buf ->
         let buf' := take (Z.to_nat n) r ++ drop (Z.to_nat n) buf in
         __kfifo_len_r f recsize = Some (zlen r) /\
         __kfifo_out_peek_r f buf len recsize = Some (buf', n) /\
         exists f', __kfifo_out_r f buf len recsize = Some (f', buf', n) /\
                    __kfifo_skip_r f recsize = Some f' /\ repr_r recsize f' rs'
     end).
Proof.
  intros Hrec Hr. split; [intros buf len; by apply in_r_ok|].
  intros buf len Hlen. destruct rs as [|r rs'].
  - unfold __kfifo_out_r, __kfifo_out_peek_r. by rewrite (repr_r_nil recsize f Hr), Z.eqb_refl.
  - intros n Hn buf'. unfold __kfifo_out_r, __kfifo_out_peek_r.
    rewrite (proj2 (Z.eqb_neq _ _)) by (by eapply repr_r_nonempty).
    rewrite (out_copy_r_ok recsize Hrec f r rs' buf len Hr Hlen Hn). cbn [mbind option_bind].
    destruct (repr_r_cons recsize Hrec f r rs' Hr) as (_ & Hp & Hrep). unfold __kfifo_len_r, __kfifo_skip_r. rewrite Hp.
    cbn [mbind option_bind]. split; [done|]. split; [done|]. by eexists.
Qed.

Definition record_fifo : __kfifo :=
  {| in_ := 4; out := 2; mask := 3; esize := 1; data := Some [0; 0; 1; 5] |}.

Lemma record_fifo_repr : repr_r 1 record_fifo [[5]].
Proof.
  split; [|split; [done|by repeat constructor]]. split; [|split; [done|]].
  - split; [exists 2; split; [lia|done]|]. unfold record_fifo, ring_size; cbn [mask esize in_ out].
    do 4 (split; [lia|]). split; [vm_compute; discriminate|]. eexists. split; [done|]. vm_compute. discriminate.
  - eexists. split; [done|]. intros j Hj. change (zlen _) with 2 in Hj.
    destruct (decide (j = 0)) as [->|]; [done|]. replace j with 1 by lia. done.
Qed.

Lemma kfifo_records_refine_witness : exists f',
  __kfifo_in_r record_fifo [7] 1 1 = Some (f', 1) /\ repr_r 1 f' [[5]; [7]].
Proof.
  destruct (kfifo_records_refine 1 record_fifo [[5]] (or_introl eq_refl) record_fifo_repr) as [Hin _].
  destruct (Hin [7] 1) as (f' & H & _ & Hr); [change (0 <= 1 <= 1); lia|cbn; lia|].
  exists f'. split; [exact H|exact Hr].
Defined.

(** __kfifo_in_r() does not limit the length of a record to what its
    header can hold: a record of 256 bytes in a fifo with one-byte headers is stored
    with the length 0, and its bytes are then read as records. *)
Theorem kfifo_in_r_long_record : exists f f',
  __kfifo_init (replicate 512 0) 512 1 = Some (f, 0) /\
  __kfifo_in_r f (replicate 256 7) 256 1 = Some (f', 256) /\
  __kfifo_len_r f' 1 = Some 0 /\
  exists f'', __kfifo_out_r f' [] 256 1 = Some (f'', [], 0) /\ __kfifo_len_r f'' 1 = Some 7.
Proof. do 2 eexists. do 3 (split; [vm_compute; reflexivity|]). eexists. split; [vm_compute; reflexivity|reflexivity]. Qed.

(** ** Scatter lists: proofs *)

Section SglProofs.
Context (phys : Z -> Z) (Hphys : forall x, 0 <= phys x < 2 ^ 32).

(** The physical address of a byte. *)
Definition vphys (v : Z) : Z := ulong (phys (v / PAGE_SIZE) + v mod PAGE_SIZE).

(** The entries transfer the bytes at the virtual addresses [v .. w), in order. *)
Fixpoint maps (es : list sg_entry) (v w : Z) : Prop :=
  match es with
  | [] => v = w
  | (page, len, off) :: es' =>
      0 <= len /\ (forall k, 0 <= k < len -> ulong (phys page + off + k) = vphys (v + k)) /\ maps es' (v + len) w
  end.

Lemma maps_app es es' v w x : maps es v w -> maps es' w x -> maps (es ++ es') v x.
Proof using.
  revert v. induction es as [|[[page len] off] es IH]; intros v; cbn [app maps]; [by intros ->|].
  intros (? & ? & ?) ?. split_and!; [done..|]. by apply IH.
Qed.

Lemma maps_le es v w : maps es v w -> v <= w.
Proof using.
  revert v. induction es as [|[[page len] off] es IH]; intros v; cbn [maps]; [lia|]. intros (? & _ & H%IH). lia.
Qed.

(** The pages from [page] on are next to each other in physical memory. *)
Definition adjacent (page c : Z) : Prop :=
  forall k, 0 <= k <= c -> phys (page + k) = ulong (phys page + k * PAGE_SIZE).

Lemma entry_ok page c off len : adjacent page c -> 0 <= off < PAGE_SIZE -> off + len <= (c + 1) * PAGE_SIZE ->
  forall k, 0 <= k < len -> ulong (phys page + off + k) = vphys (page * PAGE_SIZE + off + k).
Proof using.
  intros Hadj Ho Hl k Hk. unfold vphys.
  replace (page * PAGE_SIZE + off + k) with (off + k + page * PAGE_SIZE) by lia. rewrite Z.div_add, Z.mod_add by done.
  unfold PAGE_SIZE in *. pose proof (Z.div_mod (off + k) 4096 ltac:(lia)). pose proof (Z.mod_pos_bound (off + k) 4096 ltac:(lia)).
  rewrite (Z.add_comm _ page), Hadj by lia. unfold ulong. rewrite Zplus_mod_idemp_l. f_equal. unfold PAGE_SIZE. lia.
Qed.

Definition sgl_inv (B LEN nents : Z) : sgl_state -> Prop := fun '(n, page, off, l, len, buf, avail, es) =>
  exists c, 0 <= c /\ l = c * PAGE_SIZE /\ 0 <= off < PAGE_SIZE /\ 0 <= len <= LEN /\ l - off <= len /\
    B + (LEN - len) = page * PAGE_SIZE + off /\ buf = page * PAGE_SIZE + B mod PAGE_SIZE + l /\
    0 <= n < nents /\ nents <= n + avail /\ zlen es = n /\ maps es B (B + (LEN - len)) /\ adjacent page c.

Lemma sgl_step B LEN nents s : 0 <= B -> 0 <= LEN -> B + LEN + 2 * PAGE_SIZE <= 2 ^ 32 -> sgl_inv B LEN nents s ->
  body_ok (sgl_body phys nents) (sgl_inv B LEN nents)
    (fun '(n, page, off, l, len, buf, avail, es) => (len - l + off) / PAGE_SIZE)
    (fun '(n, es) => zlen es = n /\ 0 < n <= nents /\ exists w, w <= B + LEN /\ (n < nents -> w = B + LEN) /\ maps es B w) s.
Proof using Hphys.
  intros HB HL Hb. destruct s as [[[[[[[n page] off] l] len] buf] avail] es].
  intros (c & Hc & -> & Ho & Hlen & Hll & Hcur & -> & Hn & Ha & Hes & Hm & Hadj).
  pose proof (Z.mod_pos_bound B PAGE_SIZE ltac:(done)) as HBm. unfold PAGE_SIZE in * |-.
  split; [unfold PAGE_SIZE; apply Z.div_pos; lia|]. unfold sgl_body, sg_set_page, virt_to_page. change PAGE_SIZE with 4096.
  rewrite (ulong_small (c * 4096 + 4096 - off)) by lia. destruct (Z.leb_spec (c * 4096 + 4096 - off) len).
  - rewrite !(u32_small (c * 4096 + 4096)), !(ulong_small (page * 4096 + _ + _ + _)) by lia.
    replace ((page * 4096 + B mod 4096 + c * 4096 + 4096) / 4096) with (page + (c + 1))
      by (apply (Z.div_unique _ _ _ (B mod 4096)); lia).
    destruct (Z.eqb_spec (phys page) (ulong (phys (page + (c + 1)) - (c * 4096 + 4096)))) as [E|]; cbn [negb].
    + split; [|apply Z.div_lt_upper_bound; [lia|]; pose proof (Z.div_mod (len - c * 4096 + off) 4096 ltac:(lia));
               pose proof (Z.mod_pos_bound (len - c * 4096 + off) 4096 ltac:(lia)); lia].
      exists (c + 1). unfold PAGE_SIZE. do 11 (split; [first [done|lia]|]). intros k Hk.
      destruct (decide (k = c + 1)) as [->|]; [|apply Hadj; lia]. unfold PAGE_SIZE. rewrite E. unfold ulong.
      rewrite Zplus_mod_idemp_l. rewrite <-(ulong_small (phys (page + (c + 1)))) at 1 by done. unfold ulong. f_equal. lia.
    + rewrite (u32_small (c * 4096 + 4096 - off)) by lia.
      assert (Hm' : maps (es ++ [(page, c * 4096 + 4096 - off, off)]) B (page * 4096 + 4096 * (c + 1))).
      { eapply maps_app; [exact Hm|]. cbn [maps]. split_and!; [lia| |lia]. intros k Hk. rewrite Hcur.
        apply (entry_ok page c off (c * 4096 + 4096 - off)); unfold PAGE_SIZE; done || lia. }
      rewrite (proj2 (Z.ltb_ge _ _)) by lia. cbn [mbind option_bind].
      destruct (Z.eqb_spec (n + 1) nents); cbn [orb].
      { split; [rewrite zlen_app; change (zlen [_]) with 1; lia|]. split; [lia|]. eexists. split; [|split; [lia|exact Hm']]. lia. }
      rewrite (proj2 (Z.eqb_neq _ _)), (u32_small (len - _)) by lia. split.
      * exists 0. unfold PAGE_SIZE. do 9 (split; [first [done|lia]|]).
        split; [rewrite zlen_app; change (zlen [_]) with 1; lia|]. split.
        -- replace (B + (LEN - (len - (c * 4096 + 4096 - off)))) with (page * 4096 + 4096 * (c + 1)) by lia. done.
        -- intros k Hk. replace k with 0 by lia. rewrite Z.add_0_r, Z.mul_0_l, Z.add_0_r, ulong_small; done.
      * rewrite Z.sub_0_r, Z.add_0_r. apply Z.div_lt_upper_bound; [lia|].
        pose proof (Z.div_mod (len - c * 4096 + off) 4096 ltac:(lia)).
        pose proof (Z.mod_pos_bound (len - c * 4096 + off) 4096 ltac:(lia)). lia.
  - rewrite (proj2 (Z.ltb_ge _ _)) by lia. cbn [mbind option_bind].
    split; [rewrite zlen_app; change (zlen [_]) with 1; lia|]. split; [lia|]. exists (B + LEN). split; [lia|]. split; [done|].
    eapply maps_app; [exact Hm|]. cbn [maps]. split_and!; [lia| |lia]. intros k Hk. rewrite Hcur.
    apply (entry_ok page c off len); unfold PAGE_SIZE; done || lia.
Qed.

Lemma setup_sgl_buf_ok avail B nents LEN : 0 <= B -> 0 <= LEN -> B + LEN + 2 * PAGE_SIZE <= 2 ^ 32 -> 0 <= nents <= avail ->
  exists n es w, setup_sgl_buf phys avail B nents LEN = Some (n, es) /\ zlen es = n /\ 0 <= n <= nents /\
    w <= B + LEN /\ (n < nents -> w = B + LEN) /\ maps es B w.
Proof using Hphys.
  intros HB HL Hb Hn. unfold setup_sgl_buf. destruct (Z.eqb_spec nents 0) as [->|Hn0].
  { exists 0, [], B. split; [done|]. split; [done|]. split; [lia|]. split; [lia|]. split; [lia|done]. }
  destruct (Z.eqb_spec LEN 0) as [->|HL0].
  { exists 0, [], B. split; [done|]. split; [done|]. split; [lia|]. split; [lia|]. split; [lia|done]. }
  pose proof (Z.mod_pos_bound B PAGE_SIZE ltac:(done)) as HBm. pose proof (Z.div_mod B PAGE_SIZE ltac:(done)).
  destruct (loop_total (sgl_body phys nents) _ _ _ (fun s => sgl_step B LEN nents s HB HL Hb)) with
    (bound := LEN / PAGE_SIZE + 3) (s := (0, virt_to_page B, offset_in_page B, 0, LEN, B, avail, @nil sg_entry))
    as ([n es] & -> & Hes & Hn' & w & Hw & Hfull & Hm).
  - exists 0. unfold virt_to_page, offset_in_page. rewrite Z.sub_diag. do 10 (split; [first [done|lia]|]). split; [cbn [maps]; lia|].
    intros k Hk. replace k with 0 by lia. rewrite Z.add_0_r, Z.mul_0_l, Z.add_0_r, ulong_small; done.
  - unfold offset_in_page, PAGE_SIZE in *. zlia.
  - exists n, es, w. split; [done|]. split; [done|]. split; [lia|]. done.
Qed.
End SglProofs.

(** C40: a DMA transfer is set up over a ring at the virtual address [addr]
    for exactly the bytes it is to move: in order, the entries of the scatter list transfer
    the physical images of the bytes from the index to the end of the ring and then of those at its
    beginning, unless they use up all the entries that the caller has. *)
Theorem kfifo_dma_maps_ring phys f addr avail nents len off : wf f -> (forall x, 0 <= phys x < 2 ^ 32) ->
  0 <= addr -> addr + ring_size f + 2 * PAGE_SIZE <= 2 ^ 32 -> 0 <= nents <= avail -> nents < 2 ^ 31 ->
  0 <= len <= mask f + 1 -> 0 <= off < 2 ^ 32 ->
  let i := (off * esize f) mod ring_size f in
  let w := len * esize f in
  let l := w `min` (ring_size f - i) in
  exists n es1 es2 w1 w2, setup_sgl phys f addr avail nents len off = Some (n, es1 ++ es2) /\
    zlen (es1 ++ es2) = n /\ 0 <= n <= nents /\
    maps phys es1 (addr + i) w1 /\ maps phys es2 addr w2 /\ w1 <= addr + i + l /\ w2 <= addr + (w - l) /\
    (n < nents -> w1 = addr + i + l /\ w2 = addr + (w - l)).
Proof.
  intros Hwf Hphys Ha Hb Hn Hn31 Hl Ho i w l. destruct (ring_split_ok f Hwf len off Hl Ho) as (Hsplit & Hi & Hw).
  pose proof (wf_bounds f Hwf) as (He & Hbb & _). fold i w in Hsplit, Hi, Hw. fold l in Hsplit. unfold setup_sgl. rewrite Hsplit.
  assert (Hl' : 0 <= l <= w /\ l <= ring_size f - i) by lia. clearbody i w l.
  assert (0 <= PAGE_SIZE <= 2 ^ 32) by done. rewrite (ulong_small (addr + i)) by lia.
  destruct (setup_sgl_buf_ok phys Hphys avail (addr + i) nents l) as (n1 & es1 & w1 & -> & Hz1 & Hn1 & Hw1 & Hf1 & Hm1); [lia..|].
  cbn [mbind option_bind]. rewrite u32_small by lia.
  destruct (setup_sgl_buf_ok phys Hphys (avail - n1) addr (nents - n1) (w - l)) as (n2 & es2 & w2 & -> & Hz2 & Hn2 & Hw2 & Hf2 & Hm2); [lia..|].
  cbn [mbind option_bind].
  rewrite u32_small by lia. exists (n1 + n2), es1, es2, w1, w2. split; [done|]. rewrite zlen_app.
  split; [lia|]. split; [lia|]. split; [done|]. split; [done|]. split; [lia|]. split; [lia|].
  intros Hlt. split; [apply Hf1; lia|apply Hf2; lia].
Qed.

(** The identity map of pages. *)
Definition phys_linear (x : Z) : Z := ulong (x * PAGE_SIZE).

Lemma phys_linear_range x : 0 <= phys_linear x < 2 ^ 32.
Proof. apply ulong_range. Qed.

Lemma wrapped_fifo_wf : wf wrapped_fifo.
Proof. apply wrapped_fifo_repr. Qed.

Lemma kfifo_dma_maps_ring_witness : exists n es1 es2 w1 w2,
  setup_sgl phys_linear wrapped_fifo 0x1ffc 4 4 3 (2 ^ 32 - 1) = Some (n, es1 ++ es2) /\
  maps phys_linear es1 (0x1ffc + 6) w1 /\ maps phys_linear es2 0x1ffc w2.
Proof.
  destruct (kfifo_dma_maps_ring phys_linear wrapped_fifo 0x1ffc 4 4 3 (2 ^ 32 - 1) wrapped_fifo_wf phys_linear_range)
    as (n & es1 & es2 & w1 & w2 & H & _ & _ & H1 & H2 & _);
    [lia|vm_compute; discriminate|lia|lia|cbn; lia|lia|].
  exists n, es1, es2, w1, w2. split; [exact H|]. split; [exact H1|exact H2].
Defined.

(** When the data ends with a page and the next page is elsewhere in physical
    memory, the list ends with an entry of length 0 for that next page. *)
Example sgl_empty_entry :
  setup_sgl_buf (fun page => ulong (page * 0x10000)) 2 0x1000 2 0x1000 = Some (2, [(1, 0x1000, 0); (2, 0, 0)]).
Proof. vm_compute. reflexivity. Qed.
