(* ===== verification/Kstrtox.v ===== *)
(** * Reading numbers: lib/kstrtox.c and the simple_strto functions of lib/vsprintf.c

    The kstrto functions convert a whole string into an integer of a given
    width and refuse everything else; the simple_strto functions convert as much of
    a string as looks like a number and return where they stopped.  A
    pointer into a string is the list of the bytes from it; the variable that
    receives a number is an argument and a result, so that it can be seen that it is
    not touched when a conversion fails.

    The theorems compare them with [unsigned_value] and [signed_value], the
    number that a text denotes. *)

From S2P Require Import Prelude Div64 CString Uaccess.

(** ** Definitions *)

(** The same test in _kstrtoull() and in simple_guess_base(): the base that the
    beginning of the text asks for. *)
Definition simple_guess_base (cp : list Z) : option Z :=
  c0 ← cp.[0];
  if c0 =? 48 (* 0 *) then
    c1 ← cp.[1];
    if _tolower c1 =? 120 (* x *) then
      c2 ← cp.[2];
      Some (if isxdigit c2 then 16 else 8)
    else Some 8
  else Some 10.

Definition skip_prefix (s : list Z) (base : Z) : option (list Z) :=
  if base =? 16 then
    c0 ← s.[0];
    if c0 =? 48 then
      c1 ← s.[1];
      Some (if _tolower c1 =? 120 then drop 2 s else s)
    else Some s
  else Some s.

Definition digit_val (c : Z) : option Z :=
  if (48 <=? c) && (c <=? 57) then Some (c - 48)
  else if (97 <=? _tolower c) && (_tolower c <=? 102) then Some (_tolower c - 97 + 10)
  else None.

(** The error that is returned, or the accumulator and whether there was a digit. *)
Fixpoint kstrtoull_digits (s : list Z) (base acc : Z) (ok : bool) : option (Z + Z * bool) :=
  match s with
  | [] => None
  | c :: s' =>
      if c =? 0 then Some (inr (acc, ok))
      else
        match digit_val c with
        | Some val =>
            if base <=? val then Some (inl (- EINVAL))
            else
              q ← div_u64 (u64 (2 ^ 64 - 1 - val)) base;
              if q <? acc then Some (inl (- ERANGE))
              else kstrtoull_digits s' base (u64 (acc * base + val)) true
        | None =>
            if c =? 10 then
              n ← s'.[0];
              if n =? 0 then Some (inr (acc, ok)) else Some (inl (- EINVAL))
            else Some (inl (- EINVAL))
        end
  end.

Definition _kstrtoull (s : list Z) (base res : Z) : option (Z * Z) :=
  base ← (if base =? 0 then simple_guess_base s else Some base);
  s ← skip_prefix s base;
  r ← kstrtoull_digits s base 0 false;
  match r with
  | inl e => Some (e, res)
  | inr (acc, ok) => if negb ok then Some (- EINVAL, res) else Some (0, acc)
  end.

Definition kstrtoull (s : list Z) (base res : Z) : option (Z * Z) :=
  c ← s.[0];
  _kstrtoull (if c =? 43 (* + *) then drop 1 s else s) base res.

Definition kstrtoll (s : list Z) (base res : Z) : option (Z * Z) :=
  c ← s.[0];
  if c =? 45 (* - *) then
    r ← _kstrtoull (drop 1 s) base 0;
    let '(rv, tmp) := r in
    if rv <? 0 then Some (rv, res)
    else if 0 <=? s64 (u64 (- tmp)) then Some (- ERANGE, res)
    else Some (0, s64 (u64 (- tmp)))
  else
    r ← kstrtoull s base 0;
    let '(rv, tmp) := r in
    if rv <? 0 then Some (rv, res)
    else if s64 tmp <? 0 then Some (- ERANGE, res)
    else Some (0, s64 tmp).

(** The conversions to narrower types differ in the type only: [cast] is the
    conversion to it, [parse] the one to the widest type. *)
Definition kstrto_narrow (parse : list Z -> Z -> Z -> option (Z * Z)) (cast : Z -> Z)
    (s : list Z) (base res : Z) : option (Z * Z) :=
  r ← parse s base 0;
  let '(rv, tmp) := r in
  if rv <? 0 then Some (rv, res)
  else if negb (tmp =? cast tmp) then Some (- ERANGE, res)
  else Some (0, tmp).

Definition _kstrtoul := kstrto_narrow kstrtoull ulong.
Definition _kstrtol := kstrto_narrow kstrtoll s32.
Definition kstrtouint := kstrto_narrow kstrtoull u32.
Definition kstrtoint := kstrto_narrow kstrtoll s32.
Definition kstrtou16 := kstrto_narrow kstrtoull u16.
Definition kstrtos16 := kstrto_narrow kstrtoll s16.
Definition kstrtou8 := kstrto_narrow kstrtoull u8.
Definition kstrtos8 := kstrto_narrow kstrtoll s8.

(** include/linux/kernel.h, for a [long] of 32 bits. *)
Definition kstrtoul := _kstrtoul.
Definition kstrtol := _kstrtol.

(** [size] is the size of the type in bytes; the contents of [buf], a
    variable of the function, before the copy are [buf]. *)
Definition kstrto_from_user (copy_from_user : list Z -> list Z -> Z -> option (list Z * Z))
    (g : list Z -> Z -> Z -> option (Z * Z)) (size : Z) (buf s : list Z) (count base res : Z) : option (Z * Z) :=
  let count := count `min` (1 + size * 8 + 1 + 1 - 1) in
  r ← copy_from_user buf s count;
  let '(buf, rest) := r in
  if truth rest then Some (- EFAULT, res)
  else
    buf ← buf.[count <- 0];
    g buf base res.

(** *** simple_strtoull() and its variants: the number and the rest of the text *)

Fixpoint simple_digits (cp : list Z) (base result : Z) : option (Z * list Z) :=
  match cp with
  | [] => None
  | c :: cp' =>
      if isxdigit c then
        let value := if isdigit c then c - 48 else _tolower c - 97 + 10 in
        if base <=? value then Some (result, cp)
        else simple_digits cp' base (u64 (result * base + value))
      else Some (result, cp)
  end.

Definition simple_strtoull (cp : list Z) (base : Z) : option (Z * list Z) :=
  base ← (if base =? 0 then simple_guess_base cp else Some base);
  cp ← skip_prefix cp base;
  simple_digits cp base 0.

Definition simple_strtoul (cp : list Z) (base : Z) : option (Z * list Z) :=
  r ← simple_strtoull cp base;
  let '(v, endp) := r in Some (ulong v, endp).

Definition simple_strtol (cp : list Z) (base : Z) : option (Z * list Z) :=
  c ← cp.[0];
  if c =? 45 then
    r ← simple_strtoul (drop 1 cp) base;
    let '(v, endp) := r in Some (s32 (ulong (- v)), endp)
  else
    r ← simple_strtoul cp base;
    let '(v, endp) := r in Some (s32 v, endp).

Definition simple_strtoll (cp : list Z) (base : Z) : option (Z * list Z) :=
  c ← cp.[0];
  if c =? 45 then
    r ← simple_strtoull (drop 1 cp) base;
    let '(v, endp) := r in Some (s64 (u64 (- v)), endp)
  else
    r ← simple_strtoull cp base;
    let '(v, endp) := r in Some (s64 v, endp).

(** ** What a text denotes *)

(** The value of the digits [t] in base [b] after those of the value [acc]. *)
Fixpoint value_from (b acc : Z) (t : list Z) : option Z :=
  match t with
  | [] => Some acc
  | c :: t' =>
      match digit_val c with
      | Some v => if v <? b then value_from b (acc * b + v) t' else None
      | None => None
      end
  end.

(** One newline at the end is accepted. *)
Fixpoint strip_newline (t : list Z) : list Z :=
  match t with
  | [] => []
  | c :: t' => match t' with [] => if c =? 10 then [] else [c] | _ => c :: strip_newline t' end
  end.

Definition numeral_value (b : Z) (t : list Z) : option Z :=
  match strip_newline t with [] => None | t' => value_from b 0 t' end.

Definition starts_0x (t : list Z) : bool :=
  match t with c0 :: c1 :: _ => (c0 =? 48) && (_tolower c1 =? 120) | _ => false end.

Definition starts_with (c : Z) (t : list Z) : bool :=
  match t with c0 :: _ => c0 =? c | _ => false end.

Definition chosen_base (base : Z) (t : list Z) : Z :=
  if base =? 0 then if starts_0x t then 16 else if starts_with 48 t then 8 else 10 else base.

Definition number_value (base : Z) (t : list Z) : option Z :=
  let b := chosen_base base t in
  if (b =? 16) && starts_0x t then numeral_value 16 (drop 2 t) else numeral_value b t.

Definition unsigned_value (base : Z) (t : list Z) : option Z :=
  number_value base (if starts_with 43 t then drop 1 t else t).

Definition signed_value (base : Z) (t : list Z) : option Z :=
  if starts_with 45 t then Z.opp <$> number_value base (drop 1 t) else unsigned_value base t.

(** What a conversion into a type does: it stores the number when there is
    one and it fits, and otherwise returns an error and stores nothing. *)
Definition parsed (v : option Z) (fits : Z -> bool) (res rv res' : Z) : Prop :=
  match v with
  | Some v => if fits v then rv = 0 /\ res' = v else rv = - ERANGE /\ res' = res
  | None => (rv = - EINVAL \/ rv = - ERANGE) /\ res' = res
  end.

(** ** Proofs: digits *)

(** The character classes and the tests of _kstrtoull() agree on what a digit is. *)
Lemma xdigit_val c : 0 <= c < 256 ->
  match digit_val c with
  | Some v => isxdigit c = true /\ (if isdigit c then c - 48 else _tolower c - 97 + 10) = v /\ 0 <= v < 16
  | None => isxdigit c = false
  end.
Proof.
  intros Hc. set (P := fun i => let c := Z.of_nat i in
    match digit_val c with
    | Some v => isxdigit c && ((if isdigit c then c - 48 else _tolower c - 97 + 10) =? v) && (0 <=? v) && (v <? 16)
    | None => negb (isxdigit c)
    end). assert (H : forallb P (seq 0 256) = true) by (vm_compute; reflexivity).
  pose proof (forallb_seq_lt P 256 H c ltac:(lia)) as Hp. unfold P in Hp. rewrite Z2Nat.id in Hp by lia. cbv zeta in Hp.
  destruct (digit_val c) as [v|]; [|by apply negb_true_iff].
  rewrite !andb_true_iff, Z.eqb_eq, Z.leb_le, Z.ltb_lt in Hp. tauto.
Qed.

Lemma digit_val_range c v : 0 <= c < 256 -> digit_val c = Some v -> 0 <= v < 16.
Proof. intros Hc Hv. pose proof (xdigit_val c Hc) as H. rewrite Hv in H. tauto. Qed.

Lemma strip_newline_cons c c' t : strip_newline (c :: c' :: t) = c :: strip_newline (c' :: t).
Proof. done. Qed.

Lemma str_strip t : str t -> str (strip_newline t).
Proof.
  induction t as [|c [|c' t] IH]; [done| |].
  - cbn. case_match; [constructor|done].
  - rewrite strip_newline_cons, !(str_cons c). tauto.
Qed.

Lemma value_from_ge b acc t v : 1 <= b -> 0 <= acc -> str t -> value_from b acc t = Some v -> acc <= v.
Proof.
  intros Hb. revert acc. induction t as [|c t IH]; intros acc Ha Ht; cbn [value_from]; [naive_solver lia|].
  apply str_cons in Ht as [Hc Ht]. destruct (digit_val c) as [d|] eqn:Hd; [|done].
  apply digit_val_range in Hd; [|lia]. bcase; [|done]. intros Hv. apply IH in Hv; [nia|nia|done].
Qed.

Lemma overflow_test b acc val : 1 <= b < 2 ^ 32 -> 0 <= val < 16 ->
  exists q, div_u64 (u64 (2 ^ 64 - 1 - val)) b = Some q /\ (q <? acc) = (2 ^ 64 <=? acc * b + val).
Proof.
  intros Hb Hv. rewrite u64_small by lia. rewrite div_u64_ok by lia. eexists. split; [done|].
  pose proof (Z.div_mod (2 ^ 64 - 1 - val) b ltac:(lia)). pose proof (Z.mod_pos_bound (2 ^ 64 - 1 - val) b ltac:(lia)).
  set (q := (2 ^ 64 - 1 - val) / b) in *. clearbody q. destruct (Z.ltb_spec q acc), (Z.leb_spec (2 ^ 64) (acc * b + val)); [done|nia|nia|done].
Qed.

Lemma digits_ok base rest t : 1 <= base < 2 ^ 32 -> str t -> forall acc ok, 0 <= acc < 2 ^ 64 ->
  exists r, kstrtoull_digits (t ++ 0 :: rest) base acc ok = Some r /\
    match value_from base acc (strip_newline t) with
    | Some v => r = if v <? 2 ^ 64 then inr (v, ok || negb (bool_decide (strip_newline t = []))) else inl (- ERANGE)
    | None => r = inl (- EINVAL) \/ r = inl (- ERANGE)
    end.
Proof.
  intros Hb. induction t as [|c t IH]; intros Ht acc ok Ha.
  { eexists. split; [done|]. cbn [strip_newline value_from]. rewrite (proj2 (Z.ltb_lt _ _)) by lia. by rewrite orb_false_r. }
  apply str_cons in Ht as [Hc Ht]. specialize (IH Ht). cbn [app kstrtoull_digits].
  rewrite (proj2 (Z.eqb_neq c 0)) by lia. destruct (digit_val c) as [val|] eqn:Hd.
  - assert (Hn : c <> 10) by (intros ->; done). pose proof (digit_val_range c val ltac:(lia) Hd) as Hv.
    assert (Hs : strip_newline (c :: t) = c :: strip_newline t).
    { destruct t; [|done]. cbn. by rewrite (proj2 (Z.eqb_neq c 10)). }
    rewrite Hs. cbn [value_from]. rewrite Hd. destruct (Z.leb_spec base val).
    { rewrite (proj2 (Z.ltb_ge _ _)) by lia. eauto. }
    rewrite (proj2 (Z.ltb_lt val base)) by lia. destruct (overflow_test base acc val) as (q & Hq & Ho); [done..|].
    rewrite Hq, bind_Some, Ho. destruct (Z.leb_spec (2 ^ 64) (acc * base + val)).
    + eexists. split; [done|]. destruct (value_from base (acc * base + val) (strip_newline t)) as [v|] eqn:Hvf; [|auto].
      apply value_from_ge in Hvf; [|lia|lia|by apply str_strip]. by rewrite (proj2 (Z.ltb_ge _ _)) by lia.
    + rewrite u64_small by nia. destruct (IH (acc * base + val) true) as (r & Hr & Hm); [nia|]. exists r. split; [done|].
      destruct (value_from _ _ _); [|done]. rewrite Hm. by rewrite orb_true_r.
  - destruct t as [|c' t].
    + cbn [strip_newline app]. destruct (Z.eqb_spec c 10).
      * rewrite arr_get_0, bind_Some. cbn. eexists. split; [done|]. rewrite (proj2 (Z.ltb_lt _ _)) by lia. by rewrite orb_false_r.
      * eexists. split; [done|]. cbn [value_from]. rewrite Hd. auto.
    + apply str_cons in Ht as [Hc' _]. rewrite strip_newline_cons. cbn [value_from app]. rewrite Hd, arr_get_0, bind_Some.
      rewrite (proj2 (Z.eqb_neq c' 0)) by lia. destruct (c =? 10); eauto.
Qed.

(** ** Proofs: whole texts *)

Lemma arr_get_1 {A} (x y : A) l : (x :: y :: l).[1] = Some y.
Proof. done. Qed.

Definition fits64 (v : Z) : bool := v <? 2 ^ 64.

Lemma numeral_ok base t rest res : 1 <= base < 2 ^ 32 -> str t ->
  exists rv res',
    (r ← kstrtoull_digits (t ++ 0 :: rest) base 0 false;
     match r with
     | inl e => Some (e, res)
     | inr (acc, ok) => if negb ok then Some (- EINVAL, res) else Some (0, acc)
     end) = Some (rv, res') /\ parsed (numeral_value base t) fits64 res rv res'.
Proof.
  intros Hb Ht. destruct (digits_ok base rest t Hb Ht 0 false) as (r & -> & Hr); [lia|]. rewrite bind_Some.
  unfold numeral_value, parsed, fits64. destruct (strip_newline t) as [|c t'] eqn:Hs.
  - cbn in Hr. subst r. cbn. eauto 10.
  - rewrite bool_decide_false in Hr by done. cbn [orb negb] in Hr. destruct (value_from base 0 (c :: t')) as [v|].
    + destruct (v <? 2 ^ 64); subst r; cbn; eauto.
    + destruct Hr as [-> | ->]; eauto 10.
Qed.

Definition third_xdigit (t : list Z) : bool :=
  match t with _ :: _ :: c2 :: _ => isxdigit c2 | _ => false end.

Lemma guess_ok t rest : simple_guess_base (t ++ 0 :: rest) =
  Some (if starts_0x t then if third_xdigit t then 16 else 8 else if starts_with 48 t then 8 else 10).
Proof.
  unfold simple_guess_base. destruct t as [|c0 [|c1 t]]; [done| |]; cbn [app].
  - rewrite arr_get_0, bind_Some. cbn [starts_0x starts_with]. by destruct (c0 =? 48).
  - rewrite arr_get_0, bind_Some. cbn [starts_0x starts_with]. destruct (c0 =? 48); [|done].
    rewrite arr_get_1, bind_Some. cbn [andb]. destruct (_tolower c1 =? 120); [|done].
    by destruct t.
Qed.

Lemma skip_ok t rest base : skip_prefix (t ++ 0 :: rest) base =
  Some ((if (base =? 16) && starts_0x t then drop 2 t else t) ++ 0 :: rest).
Proof.
  unfold skip_prefix. destruct (base =? 16); [|done]. cbn [andb]. destruct t as [|c0 [|c1 t]]; [done| |]; cbn [app].
  - rewrite arr_get_0, bind_Some. cbn [starts_0x]. by destruct (c0 =? 48).
  - rewrite arr_get_0, bind_Some. cbn [starts_0x]. destruct (c0 =? 48); [|done].
    rewrite arr_get_1, bind_Some. cbn [andb]. by destruct (_tolower c1 =? 120).
Qed.

(** "0x" without a digit behind it is not a number in any base. *)
Lemma no_third_digit t : str t -> starts_0x t = true -> third_xdigit t = false ->
  numeral_value 8 t = None /\ numeral_value 16 (drop 2 t) = None.
Proof.
  intros Ht. destruct t as [|c0 [|c1 t]]; [done..|]. cbn [starts_0x]. rewrite andb_true_iff, !Z.eqb_eq. intros [-> H1] H3.
  rewrite !str_cons in Ht. destruct Ht as (_ & Hc1 & Ht). unfold numeral_value. split.
  - rewrite strip_newline_cons. assert (Hx : digit_val c1 = None).
    { unfold digit_val. rewrite H1. destruct (Z.leb_spec 48 c1), (Z.leb_spec c1 57); cbn; try done.
      assert (c1 = 48 \/ c1 = 49 \/ c1 = 50 \/ c1 = 51 \/ c1 = 52 \/ c1 = 53 \/ c1 = 54 \/ c1 = 55 \/ c1 = 56 \/ c1 = 57) as Hd by lia.
      naive_solver. }
    assert (Hn : c1 <> 10) by (intros ->; done).
    cbn [value_from]. replace (digit_val 48) with (Some 0) by reflexivity. cbn [Z.ltb Z.compare Z.mul Z.add].
    destruct t; cbn [strip_newline]; [rewrite (proj2 (Z.eqb_neq c1 10)) by done|]; cbn [value_from]; by rewrite Hx.
  - cbn [drop]. rewrite drop_0. destruct t as [|c2 t]; [done|]. apply str_cons in Ht as [Hc2 _]. cbn [third_xdigit] in H3.
    pose proof (xdigit_val c2 ltac:(lia)) as Hx. destruct (digit_val c2) as [v|] eqn:Hv; [rewrite H3 in Hx; naive_solver|].
    destruct t; cbn [strip_newline]; [destruct (c2 =? 10); [done|]|]; cbn [value_from]; by rewrite Hv.
Qed.

Lemma kstrtoull_text t rest base res : 0 <= base < 2 ^ 32 -> str t ->
  exists rv res', _kstrtoull (t ++ 0 :: rest) base res = Some (rv, res') /\ parsed (number_value base t) fits64 res rv res'.
Proof.
  intros Hb Ht. unfold _kstrtoull, number_value, chosen_base.
  assert (Hd : str (drop 2 t)) by by apply Forall_drop. destruct (Z.eqb_spec base 0) as [->|Hb0].
  - rewrite guess_ok, bind_Some, skip_ok, bind_Some. destruct (starts_0x t) eqn:Hx.
    + destruct (third_xdigit t) eqn:H3; cbn [Z.eqb Pos.eqb andb]; [by apply numeral_ok|].
      destruct (no_third_digit t Ht Hx H3) as [H8 ->]. rewrite <-H8. by apply numeral_ok.
    + destruct (starts_with 48 t); cbn [Z.eqb Pos.eqb andb]; by apply numeral_ok.
  - rewrite bind_Some, skip_ok, bind_Some. destruct (Z.eqb_spec base 16) as [->|]; cbn [andb]; [|apply numeral_ok; [lia|done]].
    destruct (starts_0x t); apply numeral_ok; done.
Qed.

Lemma numeral_nonneg b t v : 1 <= b -> str t -> numeral_value b t = Some v -> 0 <= v.
Proof.
  intros Hb Ht. unfold numeral_value. pose proof (str_strip t Ht) as Hs.
  destruct (strip_newline t) as [|c t']; [done|]. intros Hv. apply value_from_ge in Hv; [done|lia|lia|done].
Qed.

Lemma number_nonneg base t v : 0 <= base -> str t -> number_value base t = Some v -> 0 <= v.
Proof.
  intros Hb Ht. unfold number_value, chosen_base. assert (Hd : str (drop 2 t)) by by apply Forall_drop.
  destruct (Z.eqb_spec base 0); repeat case_match; intros Hv; apply numeral_nonneg in Hv; try done; lia.
Qed.

(** ** Proofs: the conversions *)

Lemma parsed_ext v f g res rv res' : (forall x, v = Some x -> f x = g x) -> parsed v f res rv res' -> parsed v g res rv res'.
Proof. intros H. unfold parsed. destruct v as [x|]; [|done]. by rewrite (H x eq_refl). Qed.

Lemma text_head t rest : (t ++ 0 :: rest).[0] = Some (default 0 (head t)).
Proof. by destruct t. Qed.

Lemma starts_with_head c t : c <> 0 -> (default 0 (head t) =? c) = starts_with c t.
Proof. intros Hc. destruct t; [|done]. change ((0 =? c) = false). apply Z.eqb_neq. lia. Qed.

Lemma drop_text c t rest : starts_with c t = true -> drop 1 (t ++ 0 :: rest) = drop 1 t ++ 0 :: rest.
Proof. by destruct t. Qed.

Lemma kstrtoull_ok t rest base res : 0 <= base < 2 ^ 32 -> str t ->
  exists rv res', kstrtoull (t ++ 0 :: rest) base res = Some (rv, res') /\ parsed (unsigned_value base t) fits64 res rv res'.
Proof.
  intros Hb Ht. unfold kstrtoull, unsigned_value. rewrite text_head, bind_Some, starts_with_head by done.
  destruct (starts_with 43 t) eqn:Hp; [|by apply kstrtoull_text].
  rewrite (drop_text 43) by done. apply kstrtoull_text; [done|]. by apply Forall_drop.
Qed.

Definition fits_signed (t : list Z) (v : Z) : bool :=
  (- 2 ^ 63 <=? v) && (v <? 2 ^ 63) && negb (starts_with 45 t && (v =? 0)).

Lemma unsigned_nonneg base t v : 0 <= base -> str t -> unsigned_value base t = Some v -> 0 <= v.
Proof.
  intros Hb Ht. unfold unsigned_value. destruct (starts_with 43 t); [|by apply number_nonneg].
  apply number_nonneg; [done|]. by apply Forall_drop.
Qed.

Lemma s64_neg x : 0 <= x < 2 ^ 64 -> s64 (u64 (- x)) = if (0 <? x) && (x <=? 2 ^ 63) then - x else s64 (- x).
Proof. intros Hx. rewrite s64_u64. bcases; cbn; [|done..]. by rewrite s64_small by lia. Qed.

Lemma s64_neg_sign x : 0 <= x < 2 ^ 64 -> (0 <=? s64 (- x)) = negb ((0 <? x) && (x <=? 2 ^ 63)).
Proof. intros Hx. unfold s64. bcases; cbn; try done; zlia. Qed.

Lemma kstrtoll_ok t rest base res : 0 <= base < 2 ^ 32 -> str t ->
  exists rv res', kstrtoll (t ++ 0 :: rest) base res = Some (rv, res') /\ parsed (signed_value base t) (fits_signed t) res rv res'.
Proof.
  intros Hb Ht. unfold kstrtoll, signed_value, fits_signed. rewrite text_head, bind_Some, starts_with_head by done.
  destruct (starts_with 45 t) eqn:Hm.
  - rewrite (drop_text 45) by done. assert (Hd : str (drop 1 t)) by by apply Forall_drop.
    destruct (kstrtoull_text (drop 1 t) rest base 0 Hb Hd) as (rv & tmp & -> & Hp). rewrite bind_Some.
    destruct (number_value base (drop 1 t)) as [v|] eqn:Hv; unfold parsed, fits64 in *; cbn [fmap option_fmap option_map].
    + apply number_nonneg in Hv; [|lia|done]. rewrite s64_u64. destruct (Z.ltb_spec v (2 ^ 64)); destruct Hp as [-> ->]; cbn [Z.ltb Z.compare].
      * rewrite s64_neg_sign, <-s64_u64, s64_neg by lia. bcases; cbn; try lia; eauto.
      * change (- ERANGE <? 0) with true. bcases; cbn; eauto.
    + destruct Hp as [[-> | ->] _]; cbn; eauto 10.
  - destruct (kstrtoull_ok t rest base 0 Hb Ht) as (rv & tmp & -> & Hp). rewrite bind_Some.
    destruct (unsigned_value base t) as [v|] eqn:Hv; unfold parsed, fits64 in *.
    + apply unsigned_nonneg in Hv; [|lia|done]. destruct (Z.ltb_spec v (2 ^ 64)); destruct Hp as [-> ->]; cbn [Z.ltb Z.compare andb negb].
      * assert (Hs : s64 v = if v <? 2 ^ 63 then v else v - 2 ^ 64) by (unfold s64; bcases; zlia).
        rewrite Hs. bcases; cbn; try lia; eauto.
      * change (- ERANGE <? 0) with true. bcases; cbn; eauto.
    + destruct Hp as [[-> | ->] _]; cbn; eauto 10.
Qed.

Lemma narrow_ok parse cast s base res v fits rv tmp :
  parse s base 0 = Some (rv, tmp) -> parsed v fits 0 rv tmp ->
  exists rv' res', kstrto_narrow parse cast s base res = Some (rv', res') /\
    parsed v (fun x => fits x && (x =? cast x)) res rv' res'.
Proof.
  intros Hs Hp. unfold kstrto_narrow. rewrite Hs, bind_Some. unfold parsed in *. destruct v as [v|].
  - destruct (fits v); destruct Hp as [-> ->]; cbn; [|eauto]. destruct (v =? cast v); cbn; eauto.
  - destruct Hp as [[-> | ->] _]; cbn; eauto 10.
Qed.

(** What a conversion into a type of the values from [lo] to [hi] does. *)
Definition unsigned_conversion (hi : Z) (f : list Z -> Z -> Z -> option (Z * Z)) : Prop :=
  forall t rest base res, 0 <= base < 2 ^ 32 -> str t ->
    exists rv res', f (t ++ 0 :: rest) base res = Some (rv, res') /\
      parsed (unsigned_value base t) (fun v => v <? hi) res rv res'.

Definition signed_conversion (hi : Z) (f : list Z -> Z -> Z -> option (Z * Z)) : Prop :=
  forall t rest base res, 0 <= base < 2 ^ 32 -> str t ->
    exists rv res', f (t ++ 0 :: rest) base res = Some (rv, res') /\
      parsed (signed_value base t) (fun v => (- hi <=? v) && (v <? hi) && negb (starts_with 45 t && (v =? 0))) res rv res'.

Lemma unsigned_narrow hi cast : hi <= 2 ^ 64 -> (forall v, 0 <= v < 2 ^ 64 -> (v =? cast v) = (v <? hi)) ->
  unsigned_conversion hi (kstrto_narrow kstrtoull cast).
Proof.
  intros Hhi Hc t rest base res Hb Ht. destruct (kstrtoull_ok t rest base 0 Hb Ht) as (rv & tmp & Hk & Hp).
  destruct (narrow_ok _ cast _ _ res _ _ _ _ Hk Hp) as (rv' & res' & Hn & Hp'). exists rv', res'. split; [done|].
  eapply parsed_ext; [|done]. intros v Hv. apply unsigned_nonneg in Hv; [|lia|done]. cbn beta. unfold fits64.
  destruct (Z.ltb_spec v (2 ^ 64)); cbn [andb]; [by apply Hc|]. symmetry. apply Z.ltb_ge. lia.
Qed.

Lemma signed_narrow hi cast : hi <= 2 ^ 63 ->
  (forall v, - 2 ^ 63 <= v < 2 ^ 63 -> (v =? cast v) = (- hi <=? v) && (v <? hi)) ->
  signed_conversion hi (kstrto_narrow kstrtoll cast).
Proof.
  intros Hhi Hc t rest base res Hb Ht. destruct (kstrtoll_ok t rest base 0 Hb Ht) as (rv & tmp & Hk & Hp).
  destruct (narrow_ok _ cast _ _ res _ _ _ _ Hk Hp) as (rv' & res' & Hn & Hp'). exists rv', res'. split; [done|].
  eapply parsed_ext; [|done]. intros v _. cbn beta. unfold fits_signed.
  destruct (Z.leb_spec (- 2 ^ 63) v), (Z.ltb_spec v (2 ^ 63)); cbn [andb].
  - rewrite Hc by lia. apply andb_comm.
  - rewrite (proj2 (Z.ltb_ge v hi)) by lia. by rewrite andb_false_r.
  - by rewrite (proj2 (Z.leb_gt (- hi) v)) by lia.
  - by rewrite (proj2 (Z.leb_gt (- hi) v)) by lia.
Qed.

(** A copy of a whole text from user space, up to the size of the buffer. *)
Lemma from_user_text copy `{!CopyFromUser copy} g size buf s count base res : 0 < size ->
  zlen buf = 1 + size * 8 + 1 + 1 -> 0 <= count ->
  let n := count `min` (size * 8 + 2) in
  kstrto_from_user copy g size buf s count base res = Some (- EFAULT, res) \/
  n <= zlen s /\ exists rest, kstrto_from_user copy g size buf s count base res = g (take (Z.to_nat n) s ++ 0 :: rest) base res.
Proof.
  intros Hs Hbuf Hc n. unfold kstrto_from_user. replace (count `min` (1 + size * 8 + 1 + 1 - 1)) with n by lia.
  destruct (from_user_spec buf s n) as (dst & k & -> & Hk & Hl & Hsrc & Hget & _); [lia|]. rewrite bind_Some.
  destruct (truth k) eqn:Hz; [by left|]. apply truth_false in Hz. right. split; [lia|].
  rewrite arr_set_Some by lia. rewrite bind_Some. exists (drop (Z.to_nat (n + 1)) dst). f_equal.
  rewrite insert_take_drop by (unfold zlen in *; lia). f_equal; [|repeat f_equal; lia].
  apply arr_ext; rewrite zlen_take by lia; [by rewrite zlen_take by lia|]. intros i Hi.
  rewrite !arr_get_take by lia. apply Hget. lia.
Qed.

(** ** Proofs: the simple conversions *)

Fixpoint digit_prefix (b : Z) (t : list Z) : list Z :=
  match t with
  | [] => []
  | c :: t' =>
      match digit_val c with
      | Some v => if v <? b then c :: digit_prefix b t' else []
      | None => []
      end
  end.

Lemma simple_digits_ok b t rest : str t -> forall acc,
  exists v, value_from b acc (digit_prefix b t) = Some v /\
    simple_digits (t ++ 0 :: rest) b (u64 acc) = Some (u64 v, drop (length (digit_prefix b t)) t ++ 0 :: rest).
Proof.
  induction t as [|c t IH]; intros Ht acc; [by exists acc|].
  apply str_cons in Ht as [Hc Ht]. pose proof (xdigit_val c ltac:(lia)) as Hx.
  cbn [digit_prefix app simple_digits]. destruct (digit_val c) as [v|] eqn:Hd; [|rewrite Hx; by exists acc].
  destruct Hx as (-> & -> & Hv). destruct (Z.leb_spec b v).
  { rewrite (proj2 (Z.ltb_ge v b)) by lia. by exists acc. }
  rewrite (proj2 (Z.ltb_lt v b)) by lia. cbn [value_from length drop]. rewrite Hd, (proj2 (Z.ltb_lt v b)) by lia.
  destruct (IH Ht (acc * b + v)) as (w & Hw & Hs). exists w. split; [done|]. rewrite <-Hs. f_equal. unfold u64.
  by rewrite Z.add_mod, Z.mul_mod_idemp_l, <-Z.add_mod by done.
Qed.

(** The digits of a number that is accepted are all of the text. *)
Lemma value_digits b acc t v : value_from b acc t = Some v -> digit_prefix b t = t.
Proof.
  revert acc. induction t as [|c t IH]; intros acc; [done|]. cbn [value_from digit_prefix].
  destruct (digit_val c) as [d|]; [|done]. destruct (d <? b); [|done]. intros H. by rewrite (IH _ H).
Qed.

Lemma simple_numeral b t rest v : str t -> strip_newline t = t -> numeral_value b t = Some v ->
  simple_digits (t ++ 0 :: rest) b 0 = Some (u64 v, 0 :: rest).
Proof.
  intros Ht Hl. unfold numeral_value. rewrite Hl. destruct t as [|c t']; [done|]. intros Hv.
  destruct (simple_digits_ok b (c :: t') rest Ht 0) as (w & Hw & Hs).
  rewrite (value_digits _ _ _ _ Hv) in *. rewrite Hv in Hw. injection Hw as <-. change (u64 0) with 0 in Hs.
  rewrite Hs, drop_all. done.
Qed.

Lemma strip_drop2 t : strip_newline t = t -> strip_newline (drop 2 t) = drop 2 t.
Proof.
  destruct t as [|c0 [|c1 [|c2 t]]]; [done..|]. rewrite !strip_newline_cons. intros H. injection H as H. done.
Qed.

Lemma third_digit t v : str t -> starts_0x t = true -> numeral_value 16 (drop 2 t) = Some v -> third_xdigit t = true.
Proof.
  intros Ht Hx Hv. destruct (third_xdigit t) eqn:H3; [done|]. destruct (no_third_digit t Ht Hx H3) as [_ H16]. congruence.
Qed.

(** On a number that kstrtoull() accepts without a newline the simple
    conversion reads the whole text, modulo 2^64. *)
Lemma simple_strtoull_ok t rest base v : str t -> strip_newline t = t -> number_value base t = Some v ->
  simple_strtoull (t ++ 0 :: rest) base = Some (u64 v, 0 :: rest).
Proof.
  intros Ht Hl Hv. unfold simple_strtoull, number_value, chosen_base in *.
  assert (Hd : str (drop 2 t)) by by apply Forall_drop. pose proof (strip_drop2 t Hl) as Hld.
  destruct (Z.eqb_spec base 0).
  - rewrite guess_ok, bind_Some, skip_ok, bind_Some. destruct (starts_0x t) eqn:Hx.
    + change (16 =? 16) with true in Hv. cbn [andb] in Hv. rewrite (third_digit t v) by done. by apply simple_numeral.
    + destruct (starts_with 48 t); by apply simple_numeral.
  - rewrite bind_Some, skip_ok, bind_Some. destruct (Z.eqb_spec base 16) as [->|]; cbn [andb] in *; [|by apply simple_numeral].
    destruct (starts_0x t); by apply simple_numeral.
Qed.

Lemma unsigned_conversions : Forall (fun '(hi, f) => unsigned_conversion hi f)
  [(2 ^ 64, kstrtoull); (2 ^ 32, kstrtoul); (2 ^ 32, kstrtouint); (2 ^ 16, kstrtou16); (2 ^ 8, kstrtou8)].
Proof.
  repeat (apply List.Forall_cons); try apply List.Forall_nil.
  - intros t rest base res Hb Ht. by apply kstrtoull_ok.
  - apply unsigned_narrow; [lia|]. intros v Hv. unfold ulong, BITS_PER_LONG. bcases; try done; zlia.
  - apply unsigned_narrow; [lia|]. intros v Hv. unfold u32. bcases; try done; zlia.
  - apply unsigned_narrow; [lia|]. intros v Hv. unfold u16. bcases; try done; zlia.
  - apply unsigned_narrow; [lia|]. intros v Hv. unfold u8. bcases; try done; zlia.
Qed.

Lemma signed_conversions : Forall (fun '(hi, f) => signed_conversion hi f)
  [(2 ^ 63, kstrtoll); (2 ^ 31, kstrtol); (2 ^ 31, kstrtoint); (2 ^ 15, kstrtos16); (2 ^ 7, kstrtos8)].
Proof.
  repeat (apply List.Forall_cons); try apply List.Forall_nil.
  - intros t rest base res Hb Ht. by apply kstrtoll_ok.
  - apply signed_narrow; [lia|]. intros v Hv. unfold s32. bcases; try done; zlia.
  - apply signed_narrow; [lia|]. intros v Hv. unfold s32. bcases; try done; zlia.
  - apply signed_narrow; [lia|]. intros v Hv. unfold s16. bcases; try done; zlia.
  - apply signed_narrow; [lia|]. intros v Hv. unfold s8. bcases; try done; zlia.
Qed.

(** ** The properties *)

(** C19: on every text each kstrto function returns: when the text denotes a number
    that the type holds, it stores the number and returns 0; when the number
    does not fit, it returns -ERANGE; any other text is refused with -EINVAL or
    -ERANGE, and no error touches the result.  The one exception is a
    zero with a minus sign, which the signed conversions refuse. *)
Theorem kstrto_correct :
  Forall (fun '(hi, f) => unsigned_conversion hi f)
    [(2 ^ 64, kstrtoull); (2 ^ 32, kstrtoul); (2 ^ 32, kstrtouint); (2 ^ 16, kstrtou16); (2 ^ 8, kstrtou8)] /\
  Forall (fun '(hi, f) => signed_conversion hi f)
    [(2 ^ 63, kstrtoll); (2 ^ 31, kstrtol); (2 ^ 31, kstrtoint); (2 ^ 15, kstrtos16); (2 ^ 7, kstrtos8)].
Proof. split; [apply unsigned_conversions|apply signed_conversions]. Qed.

(** "+0x1f", with a newline. *)
Lemma kstrto_correct_witness : exists rv res',
  kstrtoull ([43; 48; 120; 49; 102; 10] ++ [0]) 0 5 = Some (rv, res') /\ rv = 0 /\ res' = 31.
Proof.
  destruct kstrto_correct as [Hu _]. apply List.Forall_inv in Hu.
  destruct (Hu [43; 48; 120; 49; 102; 10] [] 0 5) as (rv & res' & H & Hp); [lia| |].
  - unfold str. repeat (apply List.Forall_cons; [lia|]). apply List.Forall_nil.
  - exists rv, res'. split; [exact H|exact Hp].
Defined.

(** simple_strtoull() agrees with kstrtoull(): where the latter accepts a
    text without sign and newline, the former returns the same number and stops at
    the end of the text; and for any text it returns, with the
    value modulo 2^64 of the longest run of digits at its beginning. *)
Theorem simple_strtoull_agrees t rest base res res' : 0 <= base < 2 ^ 32 -> str t ->
  (strip_newline t = t -> _kstrtoull (t ++ 0 :: rest) base res = Some (0, res') ->
     simple_strtoull (t ++ 0 :: rest) base = Some (res', 0 :: rest)) /\
  (base <> 0 -> (base = 16 -> starts_0x t = false) ->
     exists v, value_from base 0 (digit_prefix base t) = Some v /\
       simple_strtoull (t ++ 0 :: rest) base = Some (u64 v, drop (length (digit_prefix base t)) t ++ 0 :: rest)).
Proof.
  intros Hb Ht. split.
  - intros Hs Hk. destruct (kstrtoull_text t rest base res Hb Ht) as (rv & r & Hr & Hp). rewrite Hk in Hr.
    injection Hr as <- <-. unfold parsed, fits64 in Hp. destruct (number_value base t) as [v|] eqn:Hv; [|naive_solver].
    destruct (Z.ltb_spec v (2 ^ 64)); [|naive_solver]. destruct Hp as [_ ->].
    rewrite (simple_strtoull_ok t rest base v) by done. apply number_nonneg in Hv; [|lia|done]. by rewrite u64_small by lia.
  - intros H0 H16. unfold simple_strtoull. rewrite (proj2 (Z.eqb_neq base 0)), bind_Some, skip_ok, bind_Some by done.
    destruct (Z.eqb_spec base 16) as [->|]; cbn [andb]; [rewrite H16 by done|]; apply (simple_digits_ok _ t rest Ht 0).
Qed.

Lemma simple_strtoull_agrees_witness : simple_strtoull [49; 50; 0; 7] 10 = Some (12, [0; 7]).
Proof.
  refine (proj1 (simple_strtoull_agrees [49; 50] [7] 10 5 12 _ _) _ _).
  - lia.
  - unfold str. repeat (apply List.Forall_cons; [lia|]). apply List.Forall_nil.
  - reflexivity.
  - vm_compute. reflexivity.
Defined.

(** A zero with a minus sign is refused, although it fits. *)
Example kstrtoll_minus_zero : kstrtoll [45; 48; 0] 10 5 = Some (- ERANGE, 5).
Proof. vm_compute. reflexivity. Qed.

(** More characters than the buffer of kstrtou8_from_user() holds are dropped
    silently: of "0000000000255" only the zeros are read. *)
Example kstrtou8_from_user_truncates :
  kstrto_from_user copy_available kstrtou8 1 (repeat 0 11) (repeat 48 10 ++ [50; 53; 53]) 13 10 5 = Some (0, 0).
Proof. vm_compute. reflexivity. Qed.
