(* ===== verification/VsprintfNum.v ===== *)
(** * Printing numbers and strings: number(), string() and put_dec() of lib/vsprintf.c

    The functions write through a pointer [buf] that may run past the end of
    the buffer, where nothing is stored any more: the state is the memory of the
    buffer together with the offset of [buf] in it, and [end_] is the offset of
    its end.  Offsets are not reduced to 32 bits.

    The theorems give the text that is written, [number_text] and
    [string_text], which does not depend on the buffer; [emits] stores a text. *)

From S2P Require Import Prelude Div64 CString.

(** ** Definitions *)

Definition ZEROPAD : Z := 1.
Definition SIGN : Z := 2.
Definition PLUS : Z := 4.
Definition SPACE : Z := 8.
Definition LEFT : Z := 16.
Definition SMALL : Z := 32.
Definition SPECIAL : Z := 64.

Inductive format_type :=
| FORMAT_TYPE_NONE
| FORMAT_TYPE_WIDTH
| FORMAT_TYPE_PRECISION
| FORMAT_TYPE_CHAR
| FORMAT_TYPE_STR
| FORMAT_TYPE_PTR
| FORMAT_TYPE_PERCENT_CHAR
| FORMAT_TYPE_INVALID
| FORMAT_TYPE_LONG_LONG
| FORMAT_TYPE_ULONG
| FORMAT_TYPE_LONG
| FORMAT_TYPE_UBYTE
| FORMAT_TYPE_BYTE
| FORMAT_TYPE_USHORT
| FORMAT_TYPE_SHORT
| FORMAT_TYPE_UINT
| FORMAT_TYPE_INT
| FORMAT_TYPE_NRCHARS
| FORMAT_TYPE_SIZE_T
| FORMAT_TYPE_PTRDIFF.

#[export] Instance format_type_eq_dec : EqDecision format_type.
Proof. solve_decision. Defined.

Record printf_spec := {
  type : format_type;
  flags : Z;
  base : Z;
  qualifier : Z;
  field_width : Z;
  precision : Z
}.

(** A test of a flag. *)
Definition has (fl bit : Z) : bool := truth (Z.land fl bit).

(** [if (buf < end) *buf = c; ++buf;] *)
Definition put (end_ c : Z) (st : list Z * Z) : option (list Z * Z) :=
  let '(m, buf) := st in
  if buf <? end_ then m ← m.[buf <- c]; Some (m, buf + 1) else Some (m, buf + 1).

(** [*buf++ = c] in an array of the caller. *)
Definition push (st : list Z * Z) (c : Z) : option (list Z * Z) :=
  let '(tmp, i) := st in
  tmp ← tmp.[i <- u8 c]; Some (tmp, i + 1).

Definition put_dec_trunc (buf : list Z * Z) (q : Z) : option (list Z * Z) :=
  let d1 := Z.land (Z.shiftr q 4) 0xf in
  let d2 := Z.land (Z.shiftr q 8) 0xf in
  let d3 := Z.shiftr q 12 in
  let d0 := u32 (6 * (d3 + d2 + d1) + Z.land q 0xf) in
  let q := Z.shiftr (u32 (d0 * 0xcd)) 11 in
  let d0 := u32 (d0 - 10 * q) in
  buf ← push buf (d0 + 48);
  let d1 := u32 (q + 9 * d3 + 5 * d2 + d1) in
  if negb (d1 =? 0) then
    let q := Z.shiftr (u32 (d1 * 0xcd)) 11 in
    let d1 := u32 (d1 - 10 * q) in
    buf ← push buf (d1 + 48);
    let d2 := u32 (q + 2 * d2) in
    if negb (d2 =? 0) || negb (d3 =? 0) then
      let q := Z.shiftr (u32 (d2 * 0xd)) 7 in
      let d2 := u32 (d2 - 10 * q) in
      buf ← push buf (d2 + 48);
      let d3 := u32 (q + 4 * d3) in
      if negb (d3 =? 0) then
        let q := Z.shiftr (u32 (d3 * 0xcd)) 11 in
        let d3 := u32 (d3 - 10 * q) in
        buf ← push buf (d3 + 48);
        if negb (q =? 0) then push buf (q + 48) else Some buf
      else Some buf
    else Some buf
  else Some buf.

Definition put_dec_full (buf : list Z * Z) (q : Z) : option (list Z * Z) :=
  let d1 := Z.land (Z.shiftr q 4) 0xf in
  let d2 := Z.land (Z.shiftr q 8) 0xf in
  let d3 := Z.shiftr q 12 in
  let d0 := u32 (6 * (d3 + d2 + d1) + Z.land q 0xf) in
  let q := Z.shiftr (u32 (d0 * 0xcd)) 11 in
  let d0 := u32 (d0 - 10 * q) in
  buf ← push buf (d0 + 48);
  let d1 := u32 (q + 9 * d3 + 5 * d2 + d1) in
  let q := Z.shiftr (u32 (d1 * 0xcd)) 11 in
  let d1 := u32 (d1 - 10 * q) in
  buf ← push buf (d1 + 48);
  let d2 := u32 (q + 2 * d2) in
  let q := Z.shiftr (u32 (d2 * 0xd)) 7 in
  let d2 := u32 (d2 - 10 * q) in
  buf ← push buf (d2 + 48);
  let d3 := u32 (q + 4 * d3) in
  let q := Z.shiftr (u32 (d3 * 0xcd)) 11 in
  let d3 := u32 (d3 - 10 * q) in
  buf ← push buf (d3 + 48);
  push buf (q + 48).

(** A 64-bit number is below 100000^4, so the loop is left in the fourth round. *)
Definition put_dec_body (st : list Z * Z * Z) : option (step (list Z * Z * Z) (list Z * Z)) :=
  let '(buf, num) := st in
  if num <? 100000 then buf ← put_dec_trunc buf num; Some (Done buf)
  else
    qr ← do_div num 100000;
    let '(num, rem) := qr in
    buf ← put_dec_full buf rem;
    Some (Next (buf, num)).

Definition put_dec (buf : list Z * Z) (num : Z) : option (list Z * Z) :=
  loop put_dec_body 5 (buf, num).

(** "0123456789ABCDEF" *)
Definition digits_ABC : list Z := [48; 49; 50; 51; 52; 53; 54; 55; 56; 57; 65; 66; 67; 68; 69; 70].

Definition radix_body (mask shift locase : Z) (st : list Z * Z * Z) : option (step (list Z * Z * Z) (list Z * Z)) :=
  let '(tmp, i, num) := st in
  d ← digits_ABC.[Z.land (u8 num) mask];
  r ← push (tmp, i) (Z.lor d locase);
  let '(tmp, i) := r in
  let num := Z.shiftr num shift in
  if negb (num =? 0) then Some (Next (tmp, i, num)) else Some (Done (tmp, i)).

(** The digits of [num] in [tmp], in reverse order. *)
Definition number_digits (num base locase : Z) : option (list Z * Z) :=
  let tmp := repeat 0 66 in
  if num =? 0 then push (tmp, 0) 48
  else if negb (base =? 10) then
    let mask := base - 1 in
    let shift := if base =? 16 then 4 else 3 in
    loop (radix_body mask shift locase) 66 (tmp, 0, num)
  else put_dec (tmp, 0) num.

(** The sign character (or 0), the magnitude and the width that is left. *)
Definition number_sign (num flags field_width : Z) : Z * Z * Z :=
  if has flags SIGN then
    if s64 num <? 0 then (45, u64 (- s64 num), s16 (field_width - 1))
    else if has flags PLUS then (43, num, s16 (field_width - 1))
    else if has flags SPACE then (32, num, s16 (field_width - 1))
    else (0, num, field_width)
  else (0, num, field_width).

(** [while (--spec.field_width >= 0)]: the width is an s16, so at most 2^15
    characters follow. *)
Definition pad_body (end_ c : Z) (st : list Z * Z * Z) : option (step (list Z * Z * Z) (list Z * Z * Z)) :=
  let '(buf, width) := st in
  let width := s16 (width - 1) in
  if 0 <=? width then buf ← put end_ c buf; Some (Next (buf, width)) else Some (Done (buf, width)).
Definition pad (end_ c : Z) (buf : list Z * Z) (width : Z) : option (list Z * Z * Z) :=
  loop (pad_body end_ c) (2 ^ 16 + 1) (buf, width).

Definition zeros_body (end_ i : Z) (st : list Z * Z * Z) : option (step (list Z * Z * Z) (list Z * Z)) :=
  let '(buf, precision) := st in
  let precision := s16 (precision - 1) in
  if i <=? precision then buf ← put end_ 48 buf; Some (Next (buf, precision)) else Some (Done buf).

Definition digits_body (end_ : Z) (tmp : list Z) (st : list Z * Z * Z) : option (step (list Z * Z * Z) (list Z * Z)) :=
  let '(buf, i) := st in
  let i := i - 1 in
  if 0 <=? i then c ← tmp.[i]; buf ← put end_ c buf; Some (Next (buf, i)) else Some (Done buf).

Definition number (buf : list Z * Z) (end_ num : Z) (spec : printf_spec) : option (list Z * Z) :=
  let need_pfx := has (flags spec) SPECIAL && negb (base spec =? 10) in
  let locase := Z.land (flags spec) SMALL in
  let flags := if has (flags spec) LEFT then Z.land (flags spec) (Z.lnot ZEROPAD) else flags spec in
  let '(sign, num, field_width) := number_sign num flags (field_width spec) in
  let field_width :=
    if need_pfx then
      let field_width := s16 (field_width - 1) in
      if base spec =? 16 then s16 (field_width - 1) else field_width
    else field_width in
  r ← number_digits num (base spec) locase;
  let '(tmp, i) := r in
  let precision := if precision spec <? i then s16 i else precision spec in
  let field_width := s16 (field_width - precision) in
  r ← (if negb (has flags (ZEROPAD + LEFT)) then pad end_ 32 buf field_width else Some (buf, field_width));
  let '(buf, field_width) := r in
  buf ← (if truth sign then put end_ sign buf else Some buf);
  buf ← (if need_pfx then
           buf ← put end_ 48 buf;
           if base spec =? 16 then put end_ (Z.lor 88 locase) buf else Some buf
         else Some buf);
  r ← (if negb (has flags LEFT) then pad end_ (if has flags ZEROPAD then 48 else 32) buf field_width
       else Some (buf, field_width));
  let '(buf, field_width) := r in
  buf ← loop (zeros_body end_ i) (2 ^ 16 + 1) (buf, precision);
  buf ← loop (digits_body end_ tmp) 67 (buf, i);
  r ← pad end_ 32 buf field_width;
  let '(buf, _) := r in
  Some buf.

(** "(null)" *)
Definition null_string : list Z := [40; 110; 117; 108; 108; 41; 0].

(** [while (len < spec.field_width--)] *)
Definition fill_body (end_ len : Z) (st : list Z * Z * Z) : option (step (list Z * Z * Z) (list Z * Z * Z)) :=
  let '(buf, width) := st in
  let width' := s16 (width - 1) in
  if len <? width then buf ← put end_ 32 buf; Some (Next (buf, width')) else Some (Done (buf, width')).
Definition fill (end_ len : Z) (buf : list Z * Z) (width : Z) : option (list Z * Z * Z) :=
  loop (fill_body end_ len) (2 ^ 16 + 1) (buf, width).

Definition copy_body (end_ len : Z) (s : list Z) (st : list Z * Z * Z) : option (step (list Z * Z * Z) (list Z * Z)) :=
  let '(buf, i) := st in
  if i <? len then
    c ← s.[i];
    buf ← put end_ c buf;
    Some (Next (buf, i + 1))
  else Some (Done buf).

(** [s] is the address [addr] and the bytes there. *)
Definition string (buf : list Z * Z) (end_ addr : Z) (s : list Z) (spec : printf_spec) : option (list Z * Z) :=
  let s := if addr <? PAGE_SIZE then null_string else s in
  len ← strnlen s (ulong (precision spec));
  let len := s32 len in
  r ← (if negb (has (flags spec) LEFT) then fill end_ len buf (field_width spec) else Some (buf, field_width spec));
  let '(buf, field_width) := r in
  buf ← loop (copy_body end_ len s) (len + 1) (buf, 0);
  r ← fill end_ len buf field_width;
  let '(buf, _) := r in
  Some buf.

(** ** The text of a conversion *)

(** Storing a character, and a text, where there is room. *)
Definition emit (end_ : Z) (st : list Z * Z) (c : Z) : list Z * Z :=
  (if snd st <? end_ then <[Z.to_nat (snd st) := c]> (fst st) else fst st, snd st + 1).
Definition emits (end_ : Z) (l : list Z) (st : list Z * Z) : list Z * Z := foldl (emit end_) st l.

Definition room (end_ : Z) (st : list Z * Z) : Prop := 0 <= snd st /\ end_ <= zlen (fst st).

(** The digits of [n] in base [b], the last one first. *)
Fixpoint digits (b : Z) (fuel : nat) (n : Z) : list Z :=
  match fuel with
  | O => []
  | S f => if n <? b then [n] else n mod b :: digits b f (n / b)
  end.

Definition digit_char (locase d : Z) : Z := if d <? 10 then 48 + d else 55 + d + locase.

(** 22 octal digits hold 64 bits. *)
Definition digits_text (b locase n : Z) : list Z := rev (digit_char locase <$> digits b 22 n).

Definition zeros (n : Z) : list Z := repeat 48 (Z.to_nat n).
Definition spaces (n : Z) : list Z := repeat 32 (Z.to_nat n).

Definition sign_text (num fl : Z) : list Z :=
  if has fl SIGN then if s64 num <? 0 then [45] else if has fl PLUS then [43] else if has fl SPACE then [32] else []
  else [].
Definition magnitude (num fl : Z) : Z := if has fl SIGN && (s64 num <? 0) then u64 (- s64 num) else num.

Definition prefix_text (spec : printf_spec) : list Z :=
  if has (flags spec) SPECIAL && negb (base spec =? 10)
  then 48 :: (if base spec =? 16 then [88 + Z.land (flags spec) SMALL] else []) else [].

(** Sign, prefix and digits in a field of [width] characters. *)
Definition layout (fl width : Z) (sign prefix body : list Z) : list Z :=
  let padding := width - zlen sign - zlen prefix - zlen body in
  if has fl LEFT then sign ++ prefix ++ body ++ spaces padding
  else if has fl ZEROPAD then sign ++ prefix ++ zeros padding ++ body
  else spaces padding ++ sign ++ prefix ++ body.

Definition number_text (num : Z) (spec : printf_spec) : list Z :=
  let fl := flags spec in
  let ds := digits_text (base spec) (Z.land fl SMALL) (magnitude num fl) in
  layout fl (field_width spec) (sign_text num fl) (prefix_text spec) (zeros (precision spec - zlen ds) ++ ds).

(** The part of the string [t] that the precision admits, if there is one. *)
Definition string_text (t : list Z) (spec : printf_spec) : list Z :=
  let t := if precision spec <? 0 then t else take (Z.to_nat (precision spec)) t in
  let padding := field_width spec - zlen t in
  if has (flags spec) LEFT then t ++ spaces padding else spaces padding ++ t.

(** ** Proofs: storing *)

Lemma put_ok end_ c st : room end_ st -> put end_ c st = Some (emit end_ st c).
Proof.
  destruct st as [m buf]. intros [H0 He]. cbn [fst snd] in *. unfold put, emit. cbn [fst snd].
  bcase; [|done]. by rewrite arr_set_Some by lia.
Qed.

Lemma room_emit end_ c st : room end_ st -> room end_ (emit end_ st c).
Proof.
  intros [H0 He]. unfold room, emit. cbn [fst snd]. split; [lia|]. case_match; [by rewrite zlen_insert|done].
Qed.

Lemma room_emits end_ l st : room end_ st -> room end_ (emits end_ l st).
Proof. revert st. induction l as [|c l IH]; intros st H; [done|]. apply IH. by apply room_emit. Qed.

Lemma emits_app end_ l k st : emits end_ (l ++ k) st = emits end_ k (emits end_ l st).
Proof. apply foldl_app. Qed.

Lemma emits_snoc end_ l c st : emits end_ (l ++ [c]) st = emit end_ (emits end_ l st) c.
Proof. apply emits_app. Qed.

Lemma repeat_snoc {A} (c : A) n : repeat c (S n) = repeat c n ++ [c].
Proof. apply repeat_cons. Qed.

Create HintDb room.
#[export] Hint Resolve room_emit room_emits : room.

Lemma s16_small x : - 2 ^ 15 <= x < 2 ^ 15 -> s16 x = x.
Proof. intros. unfold s16. rewrite Z.mod_small; lia. Qed.

(** The loops that print the same character: a counter that goes down to [lo]. *)
Lemma countdown_ok {R} end_ c lo (body : list Z * Z * Z -> option (step (list Z * Z * Z) R)) (fin : list Z * Z -> Z -> R) st w :
  (forall b v, room end_ b -> - 2 ^ 15 < v < 2 ^ 15 ->
     body (b, v) = Some (if lo <? v then Next (emit end_ b c, v - 1) else Done (fin b (v - 1)))) ->
  room end_ st -> 0 <= lo -> - 2 ^ 15 < w < 2 ^ 15 ->
  loop body (2 ^ 16 + 1) (st, w) = Some (fin (emits end_ (repeat c (Z.to_nat (w - lo))) st) (Z.min w lo - 1)).
Proof.
  intros Hbody Hr Hlo Hw.
  destruct (loop_total body
    (fun '(b, v) => - 2 ^ 15 < v <= w /\ (v = w \/ lo <= v) /\
       b = emits end_ (repeat c (Z.to_nat (w - lo) - Z.to_nat (v - lo))) st)
    (fun '(_, v) => Z.max (v - lo) 0) (fun r => r = fin (emits end_ (repeat c (Z.to_nat (w - lo))) st) (Z.min w lo - 1)))
    with (bound := 2 ^ 16 + 1) (s := (st, w)) as (r & -> & ->); [|split_and!; [lia..|by left|by rewrite Nat.sub_diag]|lia|done].
  intros [b v] (Hv & Hv' & ->). split; [lia|]. rewrite Hbody by (auto with room || lia). bcase.
  - split; [|lia]. split_and!; [lia..|].
    replace (Z.to_nat (w - lo) - Z.to_nat (v - 1 - lo))%nat with (S (Z.to_nat (w - lo) - Z.to_nat (v - lo))) by lia.
    by rewrite repeat_snoc, emits_snoc.
  - f_equal; [|lia]. f_equal. f_equal. lia.
Qed.

Lemma pad_ok end_ c st w : room end_ st -> - 2 ^ 15 < w < 2 ^ 15 ->
  pad end_ c st w = Some (emits end_ (repeat c (Z.to_nat w)) st, Z.min w 0 - 1).
Proof.
  intros Hr Hw. unfold pad. rewrite (countdown_ok end_ c 0 _ pair) by (done || lia || (
    intros b v Hb Hv; unfold pad_body; rewrite s16_small, put_ok by (done || lia); bcases; done)).
  by rewrite Z.sub_0_r.
Qed.

Lemma fill_ok end_ len st w : room end_ st -> 0 <= len -> - 2 ^ 15 < w < 2 ^ 15 ->
  fill end_ len st w = Some (emits end_ (spaces (w - len)) st, Z.min w len - 1).
Proof.
  intros Hr Hl Hw. unfold fill. by rewrite (countdown_ok end_ 32 len _ pair) by (done || lia || (
    intros b v Hb Hv; unfold fill_body; rewrite s16_small, put_ok by (done || lia); bcases; done)).
Qed.

Lemma zeros_ok end_ i st p : room end_ st -> 0 <= i -> - 2 ^ 15 < p < 2 ^ 15 ->
  loop (zeros_body end_ i) (2 ^ 16 + 1) (st, p) = Some (emits end_ (zeros (p - i)) st).
Proof.
  intros Hr Hi Hp. by rewrite (countdown_ok end_ 48 i _ (fun b _ => b)) by (done || lia || (
    intros b v Hb Hv; unfold zeros_body; rewrite s16_small, put_ok by (done || lia); bcases; done)).
Qed.

(** The characters of an array, forwards and backwards. *)
Lemma take_next {A} (l : list A) i c : l.[i] = Some c -> take (Z.to_nat (i + 1)) l = take (Z.to_nat i) l ++ [c].
Proof.
  intros [Hi Hc]%arr_get_Some. replace (Z.to_nat (i + 1)) with (S (Z.to_nat i)) by lia. by apply take_S_r.
Qed.

Lemma copy_ok end_ len s st : room end_ st -> 0 <= len <= zlen s ->
  loop (copy_body end_ len s) (len + 1) (st, 0) = Some (emits end_ (take (Z.to_nat len) s) st).
Proof.
  intros Hr Hl.
  destruct (loop_total (copy_body end_ len s)
    (fun '(b, i) => 0 <= i <= len /\ b = emits end_ (take (Z.to_nat i) s) st)
    (fun '(_, i) => len - i) (fun r => r = emits end_ (take (Z.to_nat len) s) st))
    with (bound := len + 1) (s := (st, 0)) as (r & -> & ->); [|by split; [lia|]|lia|done].
  intros [b i] (Hi & ->). split; [lia|]. unfold copy_body. bcase.
  - destruct (arr_get_is_Some s i) as [c Hc]; [lia|]. rewrite Hc, bind_Some, put_ok, bind_Some by auto with room.
    split; [|lia]. split; [lia|]. by rewrite (take_next s i c), emits_snoc.
  - by replace i with len by lia.
Qed.

Lemma digits_loop_ok end_ tmp i st : room end_ st -> 0 <= i <= zlen tmp -> i < 67 ->
  loop (digits_body end_ tmp) 67 (st, i) = Some (emits end_ (rev (take (Z.to_nat i) tmp)) st).
Proof.
  intros Hr Hi Hb.
  destruct (loop_total (digits_body end_ tmp)
    (fun '(b, j) => 0 <= j <= i /\ exists done_, rev (take (Z.to_nat i) tmp) = done_ ++ rev (take (Z.to_nat j) tmp) /\ b = emits end_ done_ st)
    (fun '(_, j) => j) (fun r => r = emits end_ (rev (take (Z.to_nat i) tmp)) st))
    with (bound := 67) (s := (st, i)) as (r & -> & ->); [|by split; [lia|exists []]|lia|done].
  intros [b j] (Hj & d & Hd & ->). split; [lia|]. unfold digits_body. bcase.
  - destruct (arr_get_is_Some tmp (j - 1)) as [c Hc]; [lia|]. rewrite Hc, bind_Some, put_ok, bind_Some by auto with room.
    split; [|lia]. split; [lia|]. exists (d ++ [c]). rewrite emits_snoc. split; [|done].
    rewrite Hd, <-app_assoc. f_equal. pose proof (take_next tmp (j - 1) c Hc) as Ht. rewrite Z.sub_add in Ht. by rewrite Ht, rev_unit.
  - replace j with 0 in Hd by lia. cbn in Hd. rewrite app_nil_r in Hd. by rewrite Hd.
Qed.

(** ** Proofs: digits *)

(** [st] is an array of [n] entries of which the first have been written: [l]. *)
Definition holds (n : Z) (l : list Z) (st : list Z * Z) : Prop :=
  snd st = zlen l /\ take (length l) (fst st) = l /\ zlen (fst st) = n.

Lemma push_ok n l c st : holds n l st -> zlen l < n -> exists st', push st c = Some st' /\ holds n (l ++ [u8 c]) st'.
Proof.
  destruct st as [tmp i]. intros (Hi & Ht & Hn) Hl. cbn [fst snd] in *. subst i. unfold push.
  rewrite arr_set_Some by (unfold zlen in *; lia). rewrite bind_Some. eexists. split; [done|]. unfold holds. cbn [fst snd].
  rewrite zlen_app, zlen_insert, length_app. split_and!; [done| |done]. cbn [length].
  assert (Hlen : (length l < length tmp)%nat) by (unfold zlen in *; lia).
  unfold zlen. rewrite Nat2Z.id, Nat.add_1_r. erewrite take_S_r by by apply list_lookup_insert_eq.
  by rewrite take_insert_ge, Ht by lia.
Qed.

Lemma digits_S b f n : digits b (S f) n = if n <? b then [n] else n mod b :: digits b f (n / b).
Proof. done. Qed.

Lemma digits_length b fuel n : 2 <= b -> 0 <= n -> (length (digits b fuel n) <= fuel)%nat.
Proof.
  intros Hb. revert n. induction fuel as [|f IH]; intros n Hn; [done|]. cbn [digits]. bcase; cbn [length]; [lia|].
  assert (0 <= n / b) by (apply Z.div_pos; lia). specialize (IH (n / b) ltac:(done)). lia.
Qed.

Lemma digits_fuel b f f' n : 2 <= b -> 0 <= n -> (0 < f)%nat -> (0 < f')%nat -> n < b ^ Z.of_nat f -> n < b ^ Z.of_nat f' ->
  digits b f n = digits b f' n.
Proof.
  intros Hb. revert f' n. induction f as [|f IH]; intros f' n Hn Hf Hf' H1 H2; [lia|]. destruct f' as [|f']; [lia|].
  cbn [digits]. bcase; [done|]. f_equal.
  rewrite Nat2Z.inj_succ, Z.pow_succ_r in H1, H2 by lia.
  apply IH; try apply Z.div_pos; try apply Z.div_lt_upper_bound; try lia.
  - destruct f; [cbn in H1; lia|lia].
  - destruct f'; [cbn in H2; lia|lia].
Qed.

Lemma digits_range b f n : 2 <= b -> 0 <= n -> Forall (fun d => 0 <= d < b) (digits b f n).
Proof.
  intros Hb. revert n. induction f as [|f IH]; intros n Hn; cbn [digits]; [constructor|].
  bcase; apply List.Forall_cons; [lia|constructor|apply Z.mod_pos_bound; lia|].
  apply IH. apply Z.div_pos; lia.
Qed.

(** ** Proofs: decimal conversion by multiplication *)

(** Division by ten as a multiplication and a shift. *)
Lemma mul205 x : 0 <= x < 400 -> Z.shiftr (u32 (x * 0xcd)) 11 = x / 10.
Proof. intros Hx. rewrite u32_small, Z.shiftr_div_pow2 by lia. zlia. Qed.
Lemma mul13 x : 0 <= x < 69 -> Z.shiftr (u32 (x * 0xd)) 7 = x / 10.
Proof. intros Hx. rewrite u32_small, Z.shiftr_div_pow2 by lia. zlia. Qed.

Lemma digit_rem x : 0 <= x < 400 -> u32 (x - 10 * (x / 10)) = x mod 10.
Proof. intros Hx. rewrite u32_small by zlia. zlia. Qed.

(** The number [q] below 100000 is [d0 + 16 d1 + 256 d2 + 4096 d3]; the carries
    [e1], [e2] and [e3] give its quotients by 10, 100 and 1000. *)
Section Decimal.
Context (q : Z) (Hq : 0 <= q < 100000).
Let d0 := q mod 16.
Let d1 := q / 16 mod 16.
Let d2 := q / 256 mod 16.
Let d3 := q / 4096.
Let e0 := 6 * (d3 + d2 + d1) + d0.
Let e1 := e0 / 10 + 9 * d3 + 5 * d2 + d1.
Let e2 := e1 / 10 + 2 * d2.
Let e3 := e2 / 10 + 4 * d3.

Lemma nibbles : Z.land q 0xf = d0 /\ Z.land (Z.shiftr q 4) 0xf = d1 /\ Z.land (Z.shiftr q 8) 0xf = d2 /\ Z.shiftr q 12 = d3.
Proof using.
  rewrite !Z.shiftr_div_pow2 by lia. unfold d0, d1, d2, d3.
  split_and!; try done; by rewrite (land_ones_mod _ 4) by lia.
Qed.

Lemma nibble_sum : q = d0 + 16 * d1 + 256 * d2 + 4096 * d3 /\ 0 <= d0 < 16 /\ 0 <= d1 < 16 /\ 0 <= d2 < 16 /\ 0 <= d3 <= 24.
Proof using Hq.
  unfold d0, d1, d2, d3. change 4096 with (16 * 16 * 16) at 1 2. change 256 with (16 * 16) at 1 2.
  rewrite <-!Z.div_div by lia. split_and!; zlia.
Qed.

Lemma carries :
  (0 <= e0 < 400 /\ q mod 10 = e0 mod 10) /\
  (0 <= e1 < 400 /\ q / 10 = e1 + 20 * d2 + 400 * d3 /\ q / 10 mod 10 = e1 mod 10) /\
  (0 <= e2 < 69 /\ q / 100 = e2 + 40 * d3 /\ q / 100 mod 10 = e2 mod 10) /\
  (0 <= e3 < 100 /\ q / 1000 = e3 /\ q / 10000 = e3 / 10).
Proof using Hq.
  pose proof nibble_sum as (Hs & H0 & H1 & H2 & H3). clearbody d0 d1 d2 d3.
  assert (E0 : q = 10 * (d1 + 25 * d2 + 409 * d3) + e0) by lia.
  assert (B0 : 0 <= e0 < 400) by lia. clearbody e0.
  assert (E1 : q / 10 = e1 + 20 * d2 + 400 * d3) by (unfold e1; zlia). assert (B1 : 0 <= e1 < 400) by (unfold e1; zlia).
  assert (M0 : q mod 10 = e0 mod 10) by zlia. clearbody e1.
  assert (E2 : q / 100 = e2 + 40 * d3) by (change 100 with (10 * 10); rewrite <-Z.div_div, E1 by lia; unfold e2; zlia).
  assert (B2 : 0 <= e2 < 69) by (unfold e2; zlia). assert (M1 : q / 10 mod 10 = e1 mod 10) by (rewrite E1; zlia). clearbody e2.
  assert (E3 : q / 1000 = e3) by (change 1000 with (100 * 10); rewrite <-Z.div_div, E2 by lia; unfold e3; zlia).
  assert (M2 : q / 100 mod 10 = e2 mod 10) by (rewrite E2; zlia). assert (B3 : 0 <= e3 < 100) by (rewrite <-E3; zlia).
  split_and!; try lia. change 10000 with (1000 * 10). rewrite <-Z.div_div by lia. by rewrite E3.
Qed.

Lemma put_dec_full_eq st : put_dec_full st q =
  (st ← push st (q mod 10 + 48); st ← push st (q / 10 mod 10 + 48); st ← push st (q / 100 mod 10 + 48);
   st ← push st (q / 1000 mod 10 + 48); push st (q / 10000 + 48)).
Proof using Hq.
  unfold put_dec_full. destruct nibbles as (-> & -> & -> & ->).
  pose proof carries as ((B0 & ->) & (B1 & _ & ->) & (B2 & _ & ->) & (B3 & -> & ->)).
  rewrite (u32_small (6 * _ + _)) by (fold e0; lia). fold e0. rewrite (mul205 e0), (digit_rem e0) by lia.
  rewrite (u32_small (e0 / 10 + _ + _ + _)) by (fold e1; lia). fold e1. rewrite (mul205 e1), (digit_rem e1) by lia.
  rewrite (u32_small (e1 / 10 + _)) by (fold e2; lia). fold e2. rewrite (mul13 e2), (digit_rem e2) by lia.
  rewrite (u32_small (e2 / 10 + _)) by (fold e3; lia). fold e3. rewrite (mul205 e3), (digit_rem e3) by lia. done.
Qed.

Lemma put_dec_trunc_eq st : put_dec_trunc st q =
  (st ← push st (q mod 10 + 48);
   if q / 10 =? 0 then Some st
   else
     st ← push st (q / 10 mod 10 + 48);
     if q / 100 =? 0 then Some st
     else
       st ← push st (q / 100 mod 10 + 48);
       if q / 1000 =? 0 then Some st
       else
         st ← push st (q / 1000 mod 10 + 48);
         if q / 10000 =? 0 then Some st else push st (q / 10000 + 48)).
Proof using Hq.
  unfold put_dec_trunc. destruct nibbles as (-> & -> & -> & ->).
  pose proof carries as ((B0 & ->) & (B1 & E1 & ->) & (B2 & E2 & ->) & (B3 & -> & ->)).
  pose proof nibble_sum as (_ & _ & D1 & D2 & D3). assert (F1 : 9 * d3 + 5 * d2 <= e1).
  { unfold e1. assert (0 <= e0 / 10) by (apply Z.div_pos; lia). lia. }
  rewrite (u32_small (6 * _ + _)) by (fold e0; lia). fold e0. rewrite (mul205 e0), (digit_rem e0) by lia.
  rewrite (u32_small (e0 / 10 + _ + _ + _)) by (fold e1; lia). fold e1. rewrite (mul205 e1), (digit_rem e1) by lia.
  rewrite (u32_small (e1 / 10 + _)) by (fold e2; lia). fold e2. rewrite (mul13 e2), (digit_rem e2) by lia.
  rewrite (u32_small (e2 / 10 + _)) by (fold e3; lia). fold e3. rewrite (mul205 e3), (digit_rem e3) by lia.
  replace (q / 10 =? 0) with (e1 =? 0) by (rewrite E1; bcases; done).
  replace (q / 100 =? 0) with ((e2 =? 0) && (d3 =? 0)) by (rewrite E2; bcases; done).
  destruct (push st _) as [st1|]; [|done]. rewrite !bind_Some. destruct (e1 =? 0); [done|]. cbn [negb].
  destruct (push st1 _) as [st2|]; [|done]. rewrite !bind_Some.
  destruct (e2 =? 0), (d3 =? 0); cbn [negb orb andb]; try done.
  all: destruct (push st2 _) as [st3|]; [|done]; rewrite !bind_Some; destruct (e3 =? 0); [done|]; cbn [negb].
  all: destruct (push st3 _) as [st4|]; [|done]; rewrite !bind_Some; by destruct (e3 / 10 =? 0).
Qed.
End Decimal.

(** A sequence of stores. *)
Fixpoint pushes (k : list Z) (st : list Z * Z) : option (list Z * Z) :=
  match k with
  | [] => Some st
  | c :: k' => st ← push st c; pushes k' st
  end.

Definition is_byte (c : Z) : Prop := 0 <= c < 256.

Lemma pushes_ok n l k st : holds n l st -> Forall is_byte k -> zlen l + zlen k <= n ->
  exists st', pushes k st = Some st' /\ holds n (l ++ k) st'.
Proof.
  revert l st. induction k as [|c k IH]; intros l st Hh Hk Hn; [rewrite app_nil_r; eauto|].
  inversion Hk as [|? ? Hc Hk']; subst. rewrite zlen_cons in Hn. pose proof (zlen_nonneg k).
  destruct (push_ok n l c st) as (st1 & Hp & Hh1); [done|lia|]. rewrite u8_small in Hh1 by done.
  destruct (IH (l ++ [c]) st1) as (st2 & Hs & Hh2); [done..|rewrite zlen_app; cbn; unfold zlen in *; cbn; lia|].
  exists st2. cbn [pushes]. rewrite Hp, bind_Some. split; [done|]. by rewrite <-app_assoc in Hh2.
Qed.

Lemma pushes_app k k' st : pushes (k ++ k') st = (st ← pushes k st; pushes k' st).
Proof.
  revert st. induction k as [|c k IH]; intros st; [done|]. cbn [app pushes].
  destruct (push st c) as [st'|]; [|done]. cbn [mbind option_bind]. apply IH.
Qed.

Definition dec_chars (ds : list Z) : list Z := (fun d => d + 48) <$> ds.

(** The five lowest digits of a number, whatever follows. *)
Lemma low_digits n f : 100000 <= n ->
  digits 10 (5 + f) n = [n mod 10; n / 10 mod 10; n / 100 mod 10; n / 1000 mod 10; n / 10000 mod 10] ++ digits 10 f (n / 100000).
Proof.
  intros Hn. change 100000 with (10 * 10 * 10 * 10 * 10) at 1. change 10000 with (10 * 10 * 10 * 10) at 1.
  change 1000 with (10 * 10 * 10) at 1. change 100 with (10 * 10) at 1. rewrite <-!Z.div_div by lia.
  cbn [Nat.add digits app].
  rewrite (proj2 (Z.ltb_ge n 10)), (proj2 (Z.ltb_ge (n / 10) 10)), (proj2 (Z.ltb_ge (n / 10 / 10) 10)),
    (proj2 (Z.ltb_ge (n / 10 / 10 / 10) 10)), (proj2 (Z.ltb_ge (n / 10 / 10 / 10 / 10) 10)) by zlia. done.
Qed.

Lemma put_dec_full_pushes q st : 0 <= q < 100000 ->
  put_dec_full st q = pushes (dec_chars [q mod 10; q / 10 mod 10; q / 100 mod 10; q / 1000 mod 10; q / 10000 mod 10]) st.
Proof.
  intros Hq. rewrite put_dec_full_eq by done. replace (q / 10000 mod 10) with (q / 10000) by zlia. cbn [dec_chars fmap list_fmap pushes].
  do 4 (destruct (push _ _) as [?|]; [|done]; rewrite !bind_Some). by destruct (push _ _).
Qed.

Lemma put_dec_trunc_pushes q st : 0 <= q < 100000 -> put_dec_trunc st q = pushes (dec_chars (digits 10 5 q)) st.
Proof.
  intros Hq. rewrite put_dec_trunc_eq by done.
  change 10000 with (10 * 10 * 10 * 10). change 1000 with (10 * 10 * 10). change 100 with (10 * 10). rewrite <-!Z.div_div by lia.
  cbn [digits].
  repeat match goal with |- context [?x / 10 =? 0] => replace (x / 10 =? 0) with (x <? 10) by (bcases; zlia) end.
  repeat match goal with |- context [if ?x <? 10 then _ else _] =>
    destruct (Z.ltb_spec x 10); cbn [dec_chars fmap list_fmap pushes];
    [rewrite ?(Z.mod_small x 10) by zlia; by repeat (destruct (push _ _) as [?|]; [rewrite !bind_Some|done])|] end.
  zlia.
Qed.

(** Reducing modulo 100000 keeps the five lowest digits. *)
Lemma low_digits_mod v : let r := v mod 100000 in
  [r mod 10; r / 10 mod 10; r / 100 mod 10; r / 1000 mod 10; r / 10000 mod 10] =
  [v mod 10; v / 10 mod 10; v / 100 mod 10; v / 1000 mod 10; v / 10000 mod 10].
Proof.
  intros r. assert (H : forall d k, 0 < d -> 0 < k -> k * 10 * d = 100000 -> r / d mod 10 = v / d mod 10).
  { intros d k Hd Hk Hp. unfold r. rewrite <-Hp. clear r Hp. rewrite (Z.div_mod v (k * 10 * d)) at 2 by nia.
    replace (k * 10 * d * (v / (k * 10 * d))) with (k * (v / (k * 10 * d)) * 10 * d) by ring.
    rewrite Z.div_add_l, Z.add_comm by lia. by rewrite Z.mod_add by lia. }
  pose proof (H 1 10000 eq_refl eq_refl eq_refl) as H1. rewrite !Z.div_1_r in H1.
  by rewrite H1, (H 10 1000), (H 100 100), (H 1000 10), (H 10000 1).
Qed.

Lemma dec_chars_bytes ds : Forall (fun d => 0 <= d < 10) ds -> Forall is_byte (dec_chars ds).
Proof. intros H. apply Forall_fmap. eapply Forall_impl; [|exact H]. intros d Hd. cbv beta in Hd. unfold compose, is_byte. lia. Qed.

Lemma put_dec_ok n l num st : holds n l st -> 0 <= num < 2 ^ 64 -> zlen l + 20 <= n ->
  exists st', put_dec st num = Some st' /\ holds n (l ++ dec_chars (digits 10 20 num)) st'.
Proof.
  intros Hh Hnum Hn. unfold put_dec.
  apply (loop_total put_dec_body
    (fun '(st', v) => exists k lo, (1 <= k <= 4)%nat /\ v = num / 10 ^ (20 - 5 * Z.of_nat k) /\
       digits 10 20 num = lo ++ digits 10 (5 * k) v /\ length lo = (20 - 5 * k)%nat /\ holds n (l ++ dec_chars lo) st')
    (fun '(_, v) => if v <? 10 ^ 5 then 0 else if v <? 10 ^ 10 then 1 else if v <? 10 ^ 15 then 2 else 3)).
  2: { exists 4%nat, []. split_and!; [lia|lia|by rewrite Z.div_1_r|done|done|by rewrite app_nil_r]. }
  2: { bcases. }
  intros [st' v] (k & lo & Hk & Hv & Hd & Hlo & Hst). split; [bcases|].
  assert (Hv0 : 0 <= v) by (subst v; apply Z.div_pos; lia).
  assert (Hzl : zlen (l ++ dec_chars lo) = zlen l + 20 - 5 * Z.of_nat k).
  { rewrite zlen_app. unfold zlen. unfold dec_chars. rewrite length_fmap, Hlo. lia. }
  unfold put_dec_body. change 100000 with (10 ^ 5). destruct (Z.ltb_spec v (10 ^ 5)) as [Hs|Hb].
  - rewrite put_dec_trunc_pushes by lia. rewrite (digits_fuel 10 (5 * k) 5 v) in Hd by (lia || (eapply Z.lt_le_trans; [exact Hs|apply Z.pow_le_mono_r; lia])).
    destruct (pushes_ok n (l ++ dec_chars lo) (dec_chars (digits 10 5 v)) st') as (st2 & -> & Hst2); [done| | |].
    + apply dec_chars_bytes, digits_range; lia.
    + pose proof (digits_length 10 5 v). unfold zlen, dec_chars in *. rewrite !length_fmap in *. lia.
    + rewrite bind_Some. rewrite Hd. unfold dec_chars in *. by rewrite fmap_app, app_assoc.
  - destruct k as [|[|k]]; [lia| |].
    { exfalso. subst v. change (20 - 5 * Z.of_nat 1) with 15 in Hb.
      assert (num / 10 ^ 15 < 10 ^ 5) by (apply Z.div_lt_upper_bound; lia). lia. }
    assert (Hvn : v <= num) by (subst v; apply Z.div_le_upper_bound; nia).
    rewrite do_div_ok, bind_Some by lia. pose proof (Z.mod_pos_bound v (10 ^ 5) ltac:(lia)) as Hm.
    rewrite put_dec_full_pushes by done. set (five := dec_chars _).
    destruct (pushes_ok n (l ++ dec_chars lo) five st') as (st2 & -> & Hst2); [done| |change (zlen five) with 5; lia|].
    { apply dec_chars_bytes. repeat constructor; zlia. }
    rewrite bind_Some. split.
    + exists (S k), (lo ++ [v mod 10; v / 10 mod 10; v / 100 mod 10; v / 1000 mod 10; v / 10000 mod 10]). split_and!; [lia|lia| | | |].
      * subst v. rewrite Z.div_div by lia. f_equal. rewrite <-Z.pow_add_r by lia. f_equal. lia.
      * rewrite Hd, <-app_assoc. f_equal. replace (5 * S (S k))%nat with (5 + 5 * S k)%nat by lia. by apply low_digits.
      * rewrite length_app. cbn. lia.
      * unfold five in Hst2. change (10 ^ 5) with 100000 in Hst2. rewrite low_digits_mod in Hst2.
        unfold dec_chars in *. by rewrite fmap_app, app_assoc.
    + assert (v / 10 ^ 5 < 10 ^ 15) by (apply Z.div_lt_upper_bound; lia).
      destruct (Z.ltb_spec (v / 10 ^ 5) (10 ^ 5)), (Z.ltb_spec (v / 10 ^ 5) (10 ^ 10)), (Z.ltb_spec (v / 10 ^ 5) (10 ^ 15)),
        (Z.ltb_spec v (10 ^ 10)), (Z.ltb_spec v (10 ^ 15)); zlia.
Qed.

(** ** Proofs: octal and hexadecimal digits *)

Lemma digit_char_eq locase d : locase = 0 \/ locase = 32 -> 0 <= d < 16 ->
  exists c, digits_ABC.[d] = Some c /\ u8 (Z.lor c locase) = digit_char locase d.
Proof.
  intros Hl Hd. assert (In d (Z.of_nat <$> seq 0 16)) as Hin.
  { apply in_map_iff. exists (Z.to_nat d). rewrite in_seq. lia. }
  cbn in Hin. destruct Hl as [-> | ->]; (do 16 (destruct Hin as [<-|Hin]; [eexists; split; reflexivity|])); done.
Qed.

Lemma digit_char_byte locase d : locase = 0 \/ locase = 32 -> 0 <= d < 16 -> is_byte (digit_char locase d).
Proof. intros Hl Hd. unfold is_byte, digit_char. bcases. Qed.

Lemma land_low num sh : 0 <= num -> 0 <= sh <= 8 -> Z.land (u8 num) (2 ^ sh - 1) = num mod 2 ^ sh.
Proof.
  intros Hn Hs. rewrite land_ones_mod by lia. unfold u8. apply Z.bits_inj'. intros i Hi.
  rewrite !testbit_mod_pow2 by lia. bcases; done.
Qed.

Lemma radix_ok sh locase num st : sh = 3 \/ sh = 4 -> locase = 0 \/ locase = 32 -> 0 < num < 2 ^ 64 -> holds 66 [] st ->
  exists st', loop (radix_body (2 ^ sh - 1) sh locase) 66 (fst st, snd st, num) = Some st' /\
    holds 66 (digit_char locase <$> digits (2 ^ sh) 22 num) st'.
Proof.
  intros Hsh Hl Hnum Hst. set (b := 2 ^ sh). assert (Hb : 8 <= b <= 16) by (unfold b; destruct Hsh as [-> | ->]; lia).
  apply (loop_total (radix_body (b - 1) sh locase)
    (fun '(tmp, i, v) => exists f lo, (f <= 22)%nat /\ 0 < v < 2 ^ 64 /\ v < b ^ Z.of_nat f /\ digits b 22 num = lo ++ digits b f v /\
       length lo = (22 - f)%nat /\ holds 66 (digit_char locase <$> lo) (tmp, i))
    (fun '(_, v) => Z.log2 v)).
  2: { exists 22%nat, []. split_and!; (done || lia). }
  2: { apply Z.log2_lt_pow2; lia. }
  intros [[tmp i] v] (f & lo & Hf & Hv & Hvf & Hd & Hlen & Hh). split; [apply Z.log2_nonneg|].
  pose proof (Z.mod_pos_bound v b ltac:(lia)) as Hm. unfold radix_body, b in *. rewrite land_low by lia.
  destruct (digit_char_eq locase (v mod 2 ^ sh)) as (c & -> & Hc); [done|lia|]. rewrite bind_Some.
  destruct f as [|f]; [cbn in Hvf; lia|].
  assert (Hzl : zlen (digit_char locase <$> lo) = 22 - Z.of_nat (S f)) by (unfold zlen; rewrite length_fmap, Hlen; lia).
  destruct (push_ok 66 _ (Z.lor c locase) _ Hh) as ([tmp' i'] & -> & Hh'); [lia|]. rewrite bind_Some, Hc in *.
  rewrite Z.shiftr_div_pow2 by lia. rewrite (digits_S _ f v) in Hd.
  destruct (Z.eqb_spec (v / 2 ^ sh) 0) as [Hz|Hz]; cbn [negb].
  - assert (Hsmall : v < 2 ^ sh) by (apply Z.div_small_iff in Hz; lia). rewrite Z.mod_small in Hh' by lia.
    rewrite (proj2 (Z.ltb_lt _ _) Hsmall) in Hd. by rewrite Hd, fmap_app.
  - assert (Hbig : 2 ^ sh <= v) by (apply Z.le_ngt; intros Hs; apply Hz; apply Z.div_small; lia).
    rewrite (proj2 (Z.ltb_ge _ _) Hbig) in Hd. assert (0 <= v / 2 ^ sh) by (apply Z.div_pos; lia). split.
    + exists f, (lo ++ [v mod 2 ^ sh]). split_and!; [lia|lia| | | | |].
      * apply Z.div_lt_upper_bound; nia.
      * apply Z.div_lt_upper_bound; [lia|]. by rewrite Nat2Z.inj_succ, Z.pow_succ_r in Hvf by lia.
      * by rewrite Hd, <-app_assoc.
      * rewrite length_app. cbn. lia.
      * by rewrite fmap_app.
    + rewrite <-Z.shiftr_div_pow2, Z.log2_shiftr by lia. assert (0 < Z.log2 v) by (apply Z.log2_pos; lia). lia.
Qed.

(** The digits of every number in the bases that are used. *)
Definition printf_base (b : Z) : Prop := b = 8 \/ b = 10 \/ b = 16.

Lemma number_digits_ok num b locase : printf_base b -> locase = 0 \/ locase = 32 -> 0 <= num < 2 ^ 64 ->
  exists tmp i, number_digits num b locase = Some (tmp, i) /\ rev (take (Z.to_nat i) tmp) = digits_text b locase num /\
    i = zlen (digits_text b locase num) /\ 1 <= i <= 22 /\ zlen tmp = 66.
Proof.
  intros Hb Hl Hn. assert (H0 : holds 66 [] (repeat 0 66, 0)) by done.
  assert (Hgoal : exists st, number_digits num b locase = Some st /\ holds 66 (digit_char locase <$> digits b 22 num) st).
  { unfold number_digits. destruct (Z.eqb_spec num 0) as [->|Hnz].
    - destruct (push_ok 66 [] 48 _ H0) as (st & -> & Hst); [done|]. exists st. split; [done|].
      destruct Hb as [-> | [-> | ->]]; exact Hst.
    - destruct Hb as [-> | [-> | ->]]; cbn [Z.eqb Pos.eqb negb].
      + apply (radix_ok 3 locase num _ ltac:(auto) Hl ltac:(lia) H0).
      + destruct (put_dec_ok 66 [] num _ H0 Hn) as (st & -> & Hst); [done|]. exists st. split; [done|].
        rewrite (digits_fuel 10 22 20) by lia. cbn [app] in Hst. unfold dec_chars in Hst. erewrite list_fmap_ext; [exact Hst|].
        intros k d Hd. pose proof (digits_range 10 20 num ltac:(lia) ltac:(lia)) as Hr. rewrite Forall_lookup in Hr.
        apply Hr in Hd. cbv beta in Hd. unfold digit_char. rewrite (proj2 (Z.ltb_lt d 10)) by lia. lia.
      + apply (radix_ok 4 locase num _ ltac:(auto) Hl ltac:(lia) H0). }
  destruct Hgoal as ([tmp i] & -> & Hi & Ht & Hlen). exists tmp, i. cbn [fst snd] in *. unfold digits_text.
  replace (Z.to_nat i) with (length (digit_char locase <$> digits b 22 num)) by (rewrite Hi; unfold zlen; lia). rewrite Ht.
  unfold zlen in *. rewrite length_rev, Hi, length_fmap. split_and!; try done; try lia.
  - rewrite (digits_S b 21). case_match; cbn [length]; lia.
  - pose proof (digits_length b 22 num). destruct Hb as [-> | [-> | ->]]; lia.
Qed.

(** ** Proofs: number() *)

Lemma land_bit x k : 0 <= k -> Z.land x (2 ^ k) = 0 \/ Z.land x (2 ^ k) = 2 ^ k.
Proof.
  intros Hk. destruct (Z.testbit x k) eqn:Hx; [right|left]; apply Z.bits_inj'; intros i Hi;
    rewrite Z.land_spec, ?Z.bits_0, Z.pow2_bits_eqb by done; destruct (Z.eqb_spec k i) as [->|]; rewrite ?Hx; try done;
    by rewrite andb_false_r.
Qed.

Lemma small_cases fl : Z.land fl SMALL = 0 \/ Z.land fl SMALL = 32.
Proof. apply (land_bit fl 5). lia. Qed.

Lemma lor_X fl : Z.lor 88 (Z.land fl SMALL) = 88 + Z.land fl SMALL.
Proof. by destruct (small_cases fl) as [-> | ->]. Qed.

(** Clearing ZEROPAD leaves the other flags. *)
Lemma has_clear fl bit : Z.land (Z.lnot ZEROPAD) bit = bit -> has (Z.land fl (Z.lnot ZEROPAD)) bit = has fl bit.
Proof. intros H. unfold has. by rewrite <-Z.land_assoc, H. Qed.

Lemma has_either fl : has fl (ZEROPAD + LEFT) = has fl ZEROPAD || has fl LEFT.
Proof.
  unfold has. change (ZEROPAD + LEFT) with (Z.lor ZEROPAD LEFT). rewrite Z.land_lor_distr_r. unfold truth.
  destruct (Z.eqb_spec (Z.land fl ZEROPAD) 0) as [->|H1]; cbn [negb orb]; [by rewrite Z.lor_0_l|].
  apply negb_true_iff, Z.eqb_neq. rewrite Z.lor_eq_0_iff. tauto.
Qed.

Lemma sign_len num fl : 0 <= zlen (sign_text num fl) <= 1.
Proof. unfold sign_text, zlen. repeat case_match; cbn; lia. Qed.

Lemma magnitude_range num fl : 0 <= num < 2 ^ 64 -> 0 <= magnitude num fl < 2 ^ 64.
Proof. intros Hn. unfold magnitude. case_match; [apply u64_range|done]. Qed.

Lemma number_sign_ok num fl fl' w : has fl' SIGN = has fl SIGN -> has fl' PLUS = has fl PLUS -> has fl' SPACE = has fl SPACE ->
  - 2 ^ 15 < w < 2 ^ 15 ->
  exists sg, number_sign num fl' w = (sg, magnitude num fl, w - zlen (sign_text num fl)) /\
    forall end_ st, room end_ st -> (if truth sg then put end_ sg st else Some st) = Some (emits end_ (sign_text num fl) st).
Proof.
  intros H1 H2 H3 Hw. unfold number_sign, magnitude, sign_text. rewrite H1, H2, H3, !s16_small by lia.
  destruct (has fl SIGN), (s64 num <? 0), (has fl PLUS), (has fl SPACE); cbn [andb]; eexists; (split;
    [f_equal; unfold zlen; cbn; lia|intros end_ st Hr; cbn; try rewrite put_ok by done; done]).
Qed.

Lemma prefix_ok spec end_ st : room end_ st ->
  (if has (flags spec) SPECIAL && negb (base spec =? 10) then
     buf ← put end_ 48 st;
     if base spec =? 16 then put end_ (Z.lor 88 (Z.land (flags spec) SMALL)) buf else Some buf
   else Some st) = Some (emits end_ (prefix_text spec) st).
Proof.
  intros Hr. unfold prefix_text. destruct (has (flags spec) SPECIAL && negb (base spec =? 10)); [|done].
  rewrite put_ok, bind_Some by done. destruct (base spec =? 16); [|done]. rewrite put_ok by auto with room. by rewrite lor_X.
Qed.

Lemma prefix_len spec : 0 <= zlen (prefix_text spec) <= 2.
Proof. unfold prefix_text, zlen. repeat case_match; cbn; lia. Qed.

Lemma prefix_width spec w : - 2 ^ 15 + 2 <= w < 2 ^ 15 ->
  (if has (flags spec) SPECIAL && negb (base spec =? 10) then if base spec =? 16 then s16 (s16 (w - 1) - 1) else s16 (w - 1) else w) =
  w - zlen (prefix_text spec).
Proof.
  intros Hw. rewrite (s16_small (w - 1)), (s16_small (w - 1 - 1)) by lia. unfold prefix_text, zlen.
  repeat case_match; cbn; lia.
Qed.

(** The counters of number() stay within 16 bits. *)
Definition widths_ok (spec : printf_spec) : Prop :=
  field_width spec < 2 ^ 15 /\ precision spec < 2 ^ 15 /\ - 2 ^ 15 + 7 <= field_width spec - Z.max (precision spec) 22.

Lemma number_ok st end_ num spec : room end_ st -> printf_base (base spec) -> 0 <= num < 2 ^ 64 -> widths_ok spec ->
  number st end_ num spec = Some (emits end_ (number_text num spec) st).
Proof.
  intros Hr Hb Hn (Hw1 & Hw2 & Hw3). unfold number.
  set (fl' := if has (flags spec) LEFT then _ else _).
  assert (Hfl : forall bit, Z.land (Z.lnot ZEROPAD) bit = bit -> has fl' bit = has (flags spec) bit).
  { intros bit Hbit. unfold fl'. destruct (has (flags spec) LEFT); [by apply has_clear|done]. }
  destruct (number_sign_ok num (flags spec) fl' (field_width spec)) as (sg & -> & Hsg); [by apply Hfl..|lia|].
  set (sign := sign_text num (flags spec)) in *. set (n := magnitude num (flags spec)).
  pose proof (sign_len num (flags spec) : 0 <= zlen sign <= 1) as Hsl.
  pose proof (magnitude_range num (flags spec) Hn : 0 <= n < 2 ^ 64) as Hnr.
  rewrite prefix_width by lia. pose proof (prefix_len spec) as Hpl. set (pfx := prefix_text spec) in *.
  destruct (number_digits_ok n (base spec) (Z.land (flags spec) SMALL)) as (tmp & i & -> & Hds & Hi & Hil & Htl); [done|apply small_cases|done|].
  rewrite bind_Some. assert (Hp : (if precision spec <? i then s16 i else precision spec) = Z.max (precision spec) i).
  { rewrite s16_small by lia. bcases. }
  rewrite Hp, s16_small by lia. set (ds := digits_text _ _ _) in *.
  set (w := field_width spec - zlen sign - zlen pfx - Z.max (precision spec) i).
  assert (Hbody : zlen (zeros (precision spec - zlen ds) ++ ds) = Z.max (precision spec) i).
  { rewrite zlen_app. unfold zeros, zlen at 1. rewrite repeat_length. lia. }
  transitivity (Some (emits end_ (
    (if negb (has fl' (ZEROPAD + LEFT)) then spaces w else []) ++ sign ++ pfx ++
    (if negb (has fl' LEFT) then repeat (if has fl' ZEROPAD then 48 else 32) (Z.to_nat (if negb (has fl' (ZEROPAD + LEFT)) then 0 else w)) else []) ++
    zeros (precision spec - zlen ds) ++ ds ++ (if has fl' LEFT then spaces w else [])) st)).
  - assert (Hz : zeros (Z.max (precision spec) i - i) = zeros (precision spec - zlen ds)) by (unfold zeros; f_equal; lia).
    assert (Hpad : forall c b v, room end_ b -> - 2 ^ 15 < v < 2 ^ 15 -> pad end_ c b v = Some (emits end_ (repeat c (Z.to_nat v)) b, Z.min v 0 - 1))
      by (intros; by apply pad_ok).
    destruct (has fl' (ZEROPAD + LEFT)) eqn:E1, (has fl' LEFT) eqn:E2; cbn [negb]; rewrite ?Hpad, ?bind_Some by (auto with room || lia);
      rewrite Hsg, bind_Some by auto with room; rewrite prefix_ok, bind_Some by auto with room; fold pfx;
      rewrite ?Hpad, ?bind_Some by (auto with room || lia).
    all: rewrite zeros_ok, bind_Some, digits_loop_ok, bind_Some, Hpad, bind_Some by (auto 12 with room || lia).
    all: rewrite Hz, Hds, !emits_app.
    all: unfold spaces; repeat match goal with |- context [repeat ?c (Z.to_nat ?v)] => replace (Z.to_nat v) with O by lia; cbn [repeat] end; try done.
    exfalso. by rewrite has_either, E2, orb_true_r in E1.
  - f_equal. f_equal. unfold number_text, layout. fold sign pfx n ds.
    rewrite Hbody. fold w. rewrite has_either, (Hfl LEFT) by done. unfold fl'.
    destruct (has (flags spec) LEFT); cbn [orb negb]; [by rewrite orb_true_r, <-app_assoc|].
    destruct (has (flags spec) ZEROPAD); cbn [orb negb app]; rewrite !app_nil_r; done.
Qed.

(** ** Proofs: string() *)

Lemma string_ok st end_ addr t rest spec : room end_ st -> PAGE_SIZE <= addr -> str t -> zlen t < 2 ^ 31 ->
  - 2 ^ 15 + 2 <= field_width spec < 2 ^ 15 -> - 2 ^ 15 <= precision spec < 2 ^ 15 ->
  string st end_ addr (t ++ 0 :: rest) spec = Some (emits end_ (string_text t spec) st).
Proof.
  intros Hr Ha Ht Hlt Hw Hp. unfold string. rewrite (proj2 (Z.ltb_ge addr PAGE_SIZE)) by lia.
  rewrite strnlen_ok, bind_Some by (done || (unfold ulong; apply Z.mod_pos_bound; done)).
  set (t' := if precision spec <? 0 then t else take (Z.to_nat (precision spec)) t).
  pose proof (zlen_nonneg t) as H0.
  assert (Hlen : ulong (precision spec) `min` zlen t = zlen t').
  { unfold t'. bcase.
    - assert (ulong (precision spec) = precision spec + 2 ^ 32) as ->; [unfold ulong, BITS_PER_LONG; zlia|lia].
    - rewrite ulong_small by lia. unfold zlen in *. rewrite length_take. lia. }
  assert (Htake : take (Z.to_nat (zlen t')) (t ++ 0 :: rest) = t' /\ zlen t' <= zlen t).
  { unfold t', zlen. bcase; rewrite Nat2Z.id; [by rewrite take_app_length|].
    rewrite length_take. split; [|lia]. rewrite take_app_le by lia. rewrite <-take_take. by rewrite (take_ge t (length t)). }
  destruct Htake as [Htake Hle]. rewrite Hlen, s32_small by (pose proof (zlen_nonneg t'); lia). pose proof (zlen_nonneg t').
  assert (Hcopy : forall b, room end_ b -> loop (copy_body end_ (zlen t') (t ++ 0 :: rest)) (zlen t' + 1) (b, 0) = Some (emits end_ t' b)).
  { intros b Hb. rewrite copy_ok, Htake; [done..|]. rewrite zlen_app, zlen_cons. pose proof (zlen_nonneg rest). lia. }
  unfold string_text. fold t'. cbv zeta. destruct (has (flags spec) LEFT); cbn [negb].
  - rewrite bind_Some, Hcopy, bind_Some, fill_ok, bind_Some by (auto with room || lia). by rewrite emits_app.
  - rewrite fill_ok, bind_Some, Hcopy, bind_Some, fill_ok, bind_Some by (auto with room || lia). rewrite emits_app.
    unfold spaces at 1. by replace (Z.to_nat (Z.min (field_width spec) (zlen t') - 1 - zlen t')) with O by lia.
Qed.

Lemma string_null st end_ addr s spec : room end_ st -> addr < PAGE_SIZE ->
  - 2 ^ 15 + 2 <= field_width spec < 2 ^ 15 -> - 2 ^ 15 <= precision spec < 2 ^ 15 ->
  string st end_ addr s spec = Some (emits end_ (string_text [40; 110; 117; 108; 108; 41] spec) st).
Proof.
  intros Hr Ha Hw Hp. transitivity (string st end_ PAGE_SIZE ([40; 110; 117; 108; 108; 41] ++ 0 :: []) spec).
  - unfold string. by rewrite (proj2 (Z.ltb_lt addr PAGE_SIZE)) by lia.
  - apply string_ok; try done; repeat constructor; lia.
Qed.

(** ** The properties *)

(** number() prints every 64-bit number in base 8, 10 and 16 as its digits, with
    sign, prefix, precision and padding as the flags say, and string() a string up to
    its precision, padded; both write below [end_] only and advance by the length of the text. *)
Theorem number_prints st end_ num spec addr t rest : room end_ st -> printf_base (base spec) -> 0 <= num < 2 ^ 64 -> widths_ok spec ->
  PAGE_SIZE <= addr -> str t -> zlen t < 2 ^ 31 -> - 2 ^ 15 <= precision spec ->
  number st end_ num spec = Some (emits end_ (number_text num spec) st) /\
  string st end_ addr (t ++ 0 :: rest) spec = Some (emits end_ (string_text t spec) st).
Proof.
  intros Hr Hb Hn Hw Ha Ht Hl Hp. split; [by apply number_ok|]. unfold widths_ok in Hw. apply string_ok; try done; lia.
Qed.

(** "%#-8x" of 255 and the string "ab", in a buffer of 4 characters. *)
Lemma number_prints_witness :
  let spec := {| type := FORMAT_TYPE_UINT; flags := 112; base := 16; qualifier := 255; field_width := 8; precision := -1 |} in
  number ([9; 9; 9; 9; 9], 0) 4 255 spec = Some ([48; 120; 102; 102; 9], 8) /\
  string ([9; 9; 9; 9; 9], 0) 4 8192 ([97; 98] ++ 0 :: []) spec = Some ([97; 98; 32; 32; 9], 8).
Proof.
  intros spec. apply (number_prints ([9; 9; 9; 9; 9], 0) 4 255 spec 8192 [97; 98] []); try done; try lia; [by right; right|repeat constructor].
Defined.

(** A precision near the limit of the 16-bit counters wraps the field width
    around: "%.32767d" of 5 prints 32768 spaces before its digits. *)
Example number_width_wraps :
  let spec := {| type := FORMAT_TYPE_INT; flags := SIGN; base := 10; qualifier := 255; field_width := -1; precision := 32767 |} in
  (fun r => snd r) <$> number ([], 0) 0 5 spec = Some 65535.
Proof. vm_compute. reflexivity. Qed.
