(* ===== verification/VsprintfPtr.v ===== *)
(** * Printing what a pointer points to: the %p formats of lib/vsprintf.c

    A pointer argument is an address together with the bytes found there.
    Each format builds its text in an array of its own, without looking at
    the end of it, and hands it to string(): the theorems show that the
    arrays are large enough and that the result is the text that the format
    stands for.  The names of symbols come from tables that the build
    generates, and the context of the caller (interrupts, capabilities) from
    the rest of the kernel: both are arguments.  The recursive format %pV
    has no result here. *)

From S2P Require Import Prelude CString VsprintfNum.

(** ** Definitions *)

(** "0123456789abcdef" *)
Definition hex_asc : list Z := [48; 49; 50; 51; 52; 53; 54; 55; 56; 57; 97; 98; 99; 100; 101; 102].

Definition hex_asc_lo (x : Z) : option Z := hex_asc.[Z.land x 0x0f].
Definition hex_asc_hi (x : Z) : option Z := hex_asc.[Z.shiftr (Z.land x 0xf0) 4].

Definition pack_hex_byte (buf : list Z * Z) (byte : Z) : option (list Z * Z) :=
  hi ← hex_asc_hi byte;
  buf ← push buf hi;
  lo ← hex_asc_lo byte;
  push buf lo.

(** [*p = '\0'] *)
Definition terminate (p : list Z * Z) : option (list Z) := (fst p).[snd p <- 0].

(** string() on an array of the caller, which is not in the first page. *)
Definition local_string (buf : list Z * Z) (end_ : Z) (s : list Z) (spec : printf_spec) : option (list Z * Z) :=
  string buf end_ PAGE_SIZE s spec.

(** *** Ethernet addresses *)

Definition mac_body (addr : list Z) (colons : bool) (separator : Z) (st : list Z * Z * Z) :
    option (step (list Z * Z * Z) (list Z * Z)) :=
  let '(p, i) := st in
  if i <? 6 then
    c ← addr.[i];
    p ← pack_hex_byte p c;
    p ← (if colons && negb (i =? 5) then push p separator else Some p);
    Some (Next (p, i + 1))
  else Some (Done p).

Definition mac_address_string (buf : list Z * Z) (end_ : Z) (addr : list Z) (spec : printf_spec) (fmt : list Z) :
    option (list Z * Z) :=
  f1 ← fmt.[1];
  let separator := if f1 =? 70 (* F *) then 45 else 58 in
  f0 ← fmt.[0];
  p ← loop (mac_body addr (f0 =? 77 (* M *)) separator) 7 ((repeat 0 18, 0), 0);
  mac_addr ← terminate p;
  local_string buf end_ mac_addr spec.

(** *** Internet addresses *)

Definition quad_body (temp : list Z) (st : list Z * Z * Z) : option (step (list Z * Z * Z) (list Z * Z)) :=
  let '(p, digits) := st in
  if digits =? 0 then Some (Done p)
  else
    c ← temp.[digits - 1];
    p ← push p c;
    Some (Next (p, digits - 1)).

(** One number of an address, with its digits reversed into place. *)
Definition ip4_quad (p : list Z * Z) (leading_zeros : bool) (c : Z) : option (list Z * Z) :=
  r ← put_dec_trunc (repeat 0 3, 0) c;
  let '(temp, digits) := r in
  p ← (if leading_zeros && (digits <? 3) then push p 48 else Some p);
  p ← (if leading_zeros && (digits <? 2) then push p 48 else Some p);
  loop (quad_body temp) 4 (p, digits).

Definition ip4_body (addr : list Z) (leading_zeros : bool) (step_ : Z) (st : list Z * Z * Z * Z) :
    option (step (list Z * Z * Z * Z) (list Z * Z)) :=
  let '(p, i, index) := st in
  if i <? 4 then
    c ← addr.[index];
    p ← ip4_quad p leading_zeros c;
    p ← (if i <? 3 then push p 46 else Some p);
    Some (Next (p, i + 1, index + step_))
  else Some (Done p).

Definition ip4_string (p : list Z * Z) (addr fmt : list Z) : option (list Z * Z) :=
  f0 ← fmt.[0];
  f2 ← fmt.[2];
  let '(index, step_) := if (f2 =? 104 (* h *)) || (f2 =? 108 (* l *)) then (3, -1) else (0, 1) in
  p ← loop (ip4_body addr (f0 =? 105 (* i *)) step_) 5 (p, 0, index);
  m ← terminate p;
  Some (m, snd p).

(** s6_addr32[i] and s6_addr16[i], on a little-endian machine. *)
Definition s6_addr16 (a : list Z) (i : Z) : option Z :=
  lo ← a.[2 * i]; hi ← a.[2 * i + 1]; Some (lo + 256 * hi).
Definition s6_addr32 (a : list Z) (i : Z) : option Z :=
  lo ← s6_addr16 a (2 * i); hi ← s6_addr16 a (2 * i + 1); Some (lo + 65536 * hi).

Definition htonl (x : Z) : Z :=
  Z.shiftl (Z.land x 0xff) 24 + Z.shiftl (Z.land x 0xff00) 8 + Z.shiftr (Z.land x 0xff0000) 8 + Z.shiftr (Z.land x 0xff000000) 24.
Definition ntohs (x : Z) : Z := Z.shiftl (Z.land x 0xff) 8 + Z.shiftr (Z.land x 0xff00) 8.

Definition ipv6_addr_v4mapped (a : list Z) : option bool :=
  w0 ← s6_addr32 a 0; w1 ← s6_addr32 a 1; w2 ← s6_addr32 a 2;
  Some (Z.lor (Z.lor w0 w1) (Z.lxor w2 (htonl 0x0000ffff)) =? 0).

Definition ipv6_addr_is_isatap (a : list Z) : option bool :=
  w2 ← s6_addr32 a 2;
  Some (Z.lor w2 (htonl 0x02000000) =? htonl 0x02005EFE).

(** [zerolength[i]]: how many words from the [i]th on are zero. *)
Definition zero_run_body (in6 : list Z) (range : Z) (st : Z * Z) : option (step (Z * Z) Z) :=
  let '(j, n) := st in
  if j <? range then
    w ← s6_addr16 in6 j;
    if negb (w =? 0) then Some (Done n) else Some (Next (j + 1, n + 1))
  else Some (Done n).

Definition zerolength_body (in6 : list Z) (range : Z) (st : Z * list Z) : option (step (Z * list Z) (list Z)) :=
  let '(i, zerolength) := st in
  if i <? range then
    z ← zerolength.[i];
    n ← loop (zero_run_body in6 range) 9 (i, z);
    zerolength ← zerolength.[i <- n];
    Some (Next (i + 1, zerolength))
  else Some (Done zerolength).

Definition longest_body (zerolength : list Z) (range : Z) (st : Z * Z * Z) : option (step (Z * Z * Z) (Z * Z)) :=
  let '(i, longest, colonpos) := st in
  if i <? range then
    z ← zerolength.[i];
    if longest <? z then Some (Next (i + 1, z, i)) else Some (Next (i + 1, longest, colonpos))
  else Some (Done (longest, colonpos)).

Definition hex_word (p : list Z * Z) (word : Z) : option (list Z * Z) :=
  let hi := Z.shiftr word 8 in
  let lo := Z.land word 0xff in
  if negb (hi =? 0) then
    p ← (if 0x0f <? hi then pack_hex_byte p hi else c ← hex_asc_lo hi; push p c);
    pack_hex_byte p lo
  else if 0x0f <? lo then pack_hex_byte p lo
  else c ← hex_asc_lo lo; push p c.

Definition ip6_emit_body (in6 : list Z) (range longest colonpos : Z) (st : list Z * Z * Z * bool) :
    option (step (list Z * Z * Z * bool) (list Z * Z * bool)) :=
  let '(p, i, needcolon) := st in
  if i <? range then
    if i =? colonpos then
      p ← (if needcolon || (i =? 0) then push p 58 else Some p);
      p ← push p 58;
      Some (Next (p, i + (longest - 1) + 1, false))
    else
      p ← (if needcolon then push p 58 else Some p);
      w ← s6_addr16 in6 i;
      p ← hex_word p (ntohs w);
      Some (Next (p, i + 1, true))
  else Some (Done (p, needcolon)).

Definition ip6_compressed_string (p : list Z * Z) (addr : list Z) : option (list Z * Z) :=
  in6 ← memcpy (repeat 0 16) addr 16;
  v4 ← ipv6_addr_v4mapped in6;
  useIPv4 ← (if v4 : bool then Some true else ipv6_addr_is_isatap in6);
  let range := if useIPv4 : bool then 6 else 8 in
  zerolength ← loop (zerolength_body in6 range) 9 (0, repeat 0 8);
  r ← loop (longest_body zerolength range) 9 (0, 1, -1);
  let '(longest, colonpos) := r in
  let colonpos := if longest =? 1 then -1 else colonpos in
  r ← loop (ip6_emit_body in6 range longest colonpos) 9 (p, 0, false);
  let '(p, needcolon) := r in
  p ← (if useIPv4 then
         p ← (if needcolon : bool then push p 58 else Some p);
         ip4_string p (drop 12 in6) [73; 52; 0]
       else Some p);
  m ← terminate p;
  Some (m, snd p).

Definition ip6_body (addr : list Z) (colons : bool) (st : list Z * Z * Z) : option (step (list Z * Z * Z) (list Z * Z)) :=
  let '(p, i) := st in
  if i <? 8 then
    c0 ← addr.[2 * i];
    p ← pack_hex_byte p c0;
    c1 ← addr.[2 * i + 1];
    p ← pack_hex_byte p c1;
    p ← (if colons && negb (i =? 7) then push p 58 else Some p);
    Some (Next (p, i + 1))
  else Some (Done p).

Definition ip6_string (p : list Z * Z) (addr fmt : list Z) : option (list Z * Z) :=
  f0 ← fmt.[0];
  p ← loop (ip6_body addr (f0 =? 73 (* I *))) 9 (p, 0);
  m ← terminate p;
  Some (m, snd p).

Definition ip6_addr_string (buf : list Z * Z) (end_ : Z) (addr : list Z) (spec : printf_spec) (fmt : list Z) :
    option (list Z * Z) :=
  let ip6_addr := (repeat 0 46, 0) in
  f0 ← fmt.[0];
  f2 ← (if f0 =? 73 then fmt.[2] else Some 0);
  r ← (if (f0 =? 73) && (f2 =? 99 (* c *)) then ip6_compressed_string ip6_addr addr else ip6_string ip6_addr addr fmt);
  local_string buf end_ (fst r) spec.

Definition ip4_addr_string (buf : list Z * Z) (end_ : Z) (addr : list Z) (spec : printf_spec) (fmt : list Z) :
    option (list Z * Z) :=
  r ← ip4_string (repeat 0 16, 0) addr fmt;
  local_string buf end_ (fst r) spec.

(** *** UUIDs *)

Definition uuid_be : list Z := [0; 1; 2; 3; 4; 5; 6; 7; 8; 9; 10; 11; 12; 13; 14; 15].
Definition uuid_le : list Z := [3; 2; 1; 0; 5; 4; 7; 6; 8; 9; 10; 11; 12; 13; 14; 15].

Definition uuid_body (addr index : list Z) (st : list Z * Z * Z) : option (step (list Z * Z * Z) (list Z * Z)) :=
  let '(p, i) := st in
  if i <? 16 then
    k ← index.[i];
    c ← addr.[k];
    p ← pack_hex_byte p c;
    p ← (if (i =? 3) || (i =? 5) || (i =? 7) || (i =? 9) then push p 45 else Some p);
    Some (Next (p, i + 1))
  else Some (Done p).

(** The loop that converts to upper case, up to the terminator. *)
Definition upper_body (st : list Z * Z) : option (step (list Z * Z) (list Z)) :=
  let '(uuid, p) := st in
  c ← uuid.[p];
  uuid ← uuid.[p <- toupper c];
  n ← uuid.[p + 1];
  if negb (n =? 0) then Some (Next (uuid, p + 1)) else Some (Done uuid).

Definition uuid_string (buf : list Z * Z) (end_ : Z) (addr : list Z) (spec : printf_spec) (fmt : list Z) :
    option (list Z * Z) :=
  f1 ← fmt.[1];
  let '(index, uc) :=
    if f1 =? 76 (* L *) then (uuid_le, true)
    else if f1 =? 108 (* l *) then (uuid_le, false)
    else if f1 =? 66 (* B *) then (uuid_be, true)
    else (uuid_be, false) in
  p ← loop (uuid_body addr index) 17 ((repeat 0 37, 0), 0);
  uuid ← terminate p;
  uuid ← (if uc : bool then loop upper_body 37 (uuid, 0) else Some uuid);
  local_string buf end_ uuid spec.

(** *** Resources *)

(** The 32-bit word at offset [off] of a structure. *)
Definition le32 (m : list Z) (off : Z) : option Z :=
  b0 ← m.[off]; b1 ← m.[off + 1]; b2 ← m.[off + 2]; b3 ← m.[off + 3];
  Some (b0 + 2 ^ 8 * b1 + 2 ^ 16 * b2 + 2 ^ 24 * b3).

Definition IORESOURCE_IO : Z := 0x100.
Definition IORESOURCE_MEM : Z := 0x200.
Definition IORESOURCE_IRQ : Z := 0x400.
Definition IORESOURCE_DMA : Z := 0x800.
Definition IORESOURCE_BUS : Z := 0x1000.
Definition IORESOURCE_PREFETCH : Z := 0x2000.
Definition IORESOURCE_MEM_64 : Z := 0x100000.
Definition IORESOURCE_WINDOW : Z := 0x200000.
Definition IORESOURCE_DISABLED : Z := 0x10000000.

Definition static_spec (flags base field_width precision : Z) : printf_spec :=
  {| type := FORMAT_TYPE_NONE; flags := flags; base := base; qualifier := 0; field_width := field_width; precision := precision |}.

Definition io_spec : printf_spec := static_spec (Z.lor (Z.lor SPECIAL SMALL) ZEROPAD) 16 6 (-1).
Definition mem_spec : printf_spec := static_spec (Z.lor (Z.lor SPECIAL SMALL) ZEROPAD) 16 10 (-1).
Definition bus_spec : printf_spec := static_spec (Z.lor SMALL ZEROPAD) 16 2 (-1).
Definition dec_spec : printf_spec := static_spec 0 10 0 (-1).
Definition str_spec : printf_spec := static_spec LEFT 0 (-1) 10.
Definition flag_spec : printf_spec := static_spec (Z.lor SPECIAL SMALL) 16 0 (-1).

Definition text_io : list Z := [105; 111; 32; 32].
Definition text_mem : list Z := [109; 101; 109; 32].
Definition text_irq : list Z := [105; 114; 113; 32].
Definition text_dma : list Z := [100; 109; 97; 32].
Definition text_bus : list Z := [98; 117; 115; 32].
Definition text_unknown : list Z := [63; 63; 63; 32].
Definition text_64bit : list Z := [32; 54; 52; 98; 105; 116].
Definition text_pref : list Z := [32; 112; 114; 101; 102].
Definition text_window : list Z := [32; 119; 105; 110; 100; 111; 119].
Definition text_disabled : list Z := [32; 100; 105; 115; 97; 98; 108; 101; 100].
Definition text_flags : list Z := [32; 102; 108; 97; 103; 115; 32].

(** The size of [sym]: two numbers of 12 characters and the longest text. *)
Definition sym_size : Z := Z.max (2 * 12 + 35) (2 * 12 + 8 + 17).

Definition resource_kind (rflags : Z) (decode : bool) : list Z * printf_spec * bool :=
  if has rflags IORESOURCE_IO then (text_io, io_spec, decode)
  else if has rflags IORESOURCE_MEM then (text_mem, mem_spec, decode)
  else if has rflags IORESOURCE_IRQ then (text_irq, dec_spec, decode)
  else if has rflags IORESOURCE_DMA then (text_dma, dec_spec, decode)
  else if has rflags IORESOURCE_BUS then (text_bus, bus_spec, decode)
  else (text_unknown, mem_spec, false).

Definition put_text (p : list Z * Z) (pend : Z) (t : list Z) : option (list Z * Z) :=
  local_string p pend (t ++ [0]) str_spec.

Definition resource_string (buf : list Z * Z) (end_ : Z) (res : list Z) (spec : printf_spec) (fmt : list Z) :
    option (list Z * Z) :=
  let pend := sym_size in
  f0 ← fmt.[0];
  p ← push (repeat 0 (Z.to_nat sym_size), 0) 91;
  rflags ← le32 res 12;
  let '(kind, specp, decode) := resource_kind rflags (f0 =? 82 (* R *)) in
  p ← put_text p pend kind;
  start ← le32 res 0;
  p ← number p pend start specp;
  rend ← le32 res 4;
  p ← (if negb (start =? rend) then p ← push p 45; number p pend rend specp else Some p);
  p ← (if decode : bool then
         p ← (if has rflags IORESOURCE_MEM_64 then put_text p pend text_64bit else Some p);
         p ← (if has rflags IORESOURCE_PREFETCH then put_text p pend text_pref else Some p);
         p ← (if has rflags IORESOURCE_WINDOW then put_text p pend text_window else Some p);
         if has rflags IORESOURCE_DISABLED then put_text p pend text_disabled else Some p
       else
         p ← put_text p pend text_flags;
         number p pend rflags flag_spec);
  p ← push p 93;
  sym ← terminate p;
  local_string buf end_ sym spec.

(** *** pointer() *)

(** What the rest of the kernel contributes: the text for an address and a
    format of the symbol tables, and the state that %pK looks at. *)
Record ptr_env := {
  symbol_text : Z -> Z -> list Z;
  in_interrupt : bool;
  kptr_restrict : Z;
  has_cap_syslog : bool
}.

Definition symbol_string (env : ptr_env) (buf : list Z * Z) (end_ ptr : Z) (spec : printf_spec) (ext : Z) : option (list Z * Z) :=
  local_string buf end_ (symbol_text env ptr ext ++ [0]) spec.

(** A pointer without a width is as wide as its digits, with the flags [extra]. *)
Definition default_width (spec : printf_spec) (extra : Z) : printf_spec :=
  if field_width spec =? -1
  then {| type := type spec; flags := Z.lor (flags spec) extra; base := base spec; qualifier := qualifier spec;
          field_width := 8; precision := precision spec |}
  else spec.

Definition set_hex (spec : printf_spec) : printf_spec :=
  {| type := type spec; flags := flags spec; base := 16; qualifier := qualifier spec;
     field_width := field_width spec; precision := precision spec |}.
Definition set_small (spec : printf_spec) : printf_spec :=
  {| type := type spec; flags := Z.lor (flags spec) SMALL; base := base spec; qualifier := qualifier spec;
     field_width := field_width spec; precision := precision spec |}.

Definition plain_pointer (buf : list Z * Z) (end_ ptr : Z) (spec : printf_spec) : option (list Z * Z) :=
  number buf end_ ptr (set_hex (default_width (set_small spec) ZEROPAD)).

Definition text_pK_error : list Z := [112; 75; 45; 101; 114; 114; 111; 114].

Definition pointer (env : ptr_env) (fmt : list Z) (buf : list Z * Z) (end_ ptr : Z) (mem : list Z) (spec : printf_spec) :
    option (list Z * Z) :=
  f0 ← fmt.[0];
  if (ptr =? 0) && negb (f0 =? 75 (* K *)) then local_string buf end_ null_string (default_width spec 0)
  else if (f0 =? 70 (* F *)) || (f0 =? 102 (* f *)) || (f0 =? 83 (* S *)) || (f0 =? 115 (* s *)) || (f0 =? 66 (* B *)) then
    symbol_string env buf end_ ptr spec f0
  else if (f0 =? 82 (* R *)) || (f0 =? 114 (* r *)) then resource_string buf end_ mem spec fmt
  else if (f0 =? 77 (* M *)) || (f0 =? 109 (* m *)) then mac_address_string buf end_ mem spec fmt
  else if (f0 =? 73 (* I *)) || (f0 =? 105 (* i *)) then
    f1 ← fmt.[1];
    if f1 =? 54 (* 6 *) then ip6_addr_string buf end_ mem spec fmt
    else if f1 =? 52 (* 4 *) then ip4_addr_string buf end_ mem spec fmt
    else plain_pointer buf end_ ptr spec
  else if f0 =? 85 (* U *) then uuid_string buf end_ mem spec fmt
  else if f0 =? 86 (* V *) then None
  else if f0 =? 75 (* K *) then
    if in_interrupt env then local_string buf end_ (text_pK_error ++ [0]) (default_width spec 0)
    else
      let ptr := if (kptr_restrict env =? 0) || ((kptr_restrict env =? 1) && has_cap_syslog env) then ptr else 0 in
      plain_pointer buf end_ ptr spec
  else plain_pointer buf end_ ptr spec.

(** ** The texts *)

Definition hex2 (b : Z) : list Z := [digit_char 32 (b / 16); digit_char 32 (b mod 16)].

(** The pieces with a separator between them. *)
Fixpoint join (sep : list Z) (ps : list (list Z)) : list Z :=
  match ps with
  | [] => []
  | p :: ps' => match ps' with [] => p | _ => p ++ sep ++ join sep ps' end
  end.

Definition mac_text (sep : list Z) (addr : list Z) : list Z := join sep (hex2 <$> take 6 addr).

Definition quad_text (leading_zeros : bool) (b : Z) : list Z :=
  let ds := digits_text 10 0 b in
  (if leading_zeros then zeros (3 - zlen ds) else []) ++ ds.
Definition ip4_text (leading_zeros reverse : bool) (addr : list Z) : list Z :=
  join [46] (quad_text leading_zeros <$> (if reverse then rev (take 4 addr) else take 4 addr)).

(** ** Proofs: building a text in an array *)

Lemma hex_asc_eq d : 0 <= d < 16 -> hex_asc.[d] = Some (digit_char 32 d).
Proof.
  intros Hd. assert (In d (Z.of_nat <$> seq 0 16)) as Hin.
  { apply in_map_iff. exists (Z.to_nat d). rewrite in_seq. lia. }
  cbn in Hin. do 16 (destruct Hin as [<-|Hin]; [reflexivity|]). done.
Qed.

Lemma hex_asc_lo_eq b : 0 <= b < 256 -> hex_asc_lo b = Some (digit_char 32 (b mod 16)).
Proof.
  intros Hb. unfold hex_asc_lo. change 0x0f with (2 ^ 4 - 1). rewrite land_ones_mod by lia. apply hex_asc_eq. zlia.
Qed.

Lemma hex_asc_hi_eq b : 0 <= b < 256 -> hex_asc_hi b = Some (digit_char 32 (b / 16)).
Proof.
  intros Hb. unfold hex_asc_hi. assert (Z.shiftr (Z.land b 0xf0) 4 = b / 16) as ->.
  - rewrite Z.shiftr_land. change (Z.shiftr 0xf0 4) with (2 ^ 4 - 1). rewrite land_ones_mod, Z.shiftr_div_pow2 by lia. zlia.
  - apply hex_asc_eq. zlia.
Qed.

Lemma pack_hex_byte_eq st b : 0 <= b < 256 -> pack_hex_byte st b = pushes (hex2 b) st.
Proof.
  intros Hb. unfold pack_hex_byte. rewrite hex_asc_hi_eq, bind_Some by done. cbn [pushes hex2].
  destruct (push st _) as [st'|]; [|done]. rewrite !bind_Some, hex_asc_lo_eq, bind_Some by done. by destruct (push st' _).
Qed.

Lemma hex2_bytes b : 0 <= b < 256 -> Forall is_byte (hex2 b).
Proof. intros Hb. repeat constructor; apply digit_char_byte; try auto; zlia. Qed.

(** The stores of a text, one call at a time. *)
Lemma push_if_ok (b : bool) c n l p : holds n l p -> is_byte c -> zlen l + (if b then 1 else 0) <= n ->
  exists p', (if b then push p c else Some p) = Some p' /\ holds n (l ++ if b then [c] else []) p'.
Proof.
  intros Hh Hc Hn. destruct b; [|rewrite app_nil_r; eauto].
  destruct (push_ok n l c p Hh) as (p' & -> & Hp); [lia|]. rewrite u8_small in Hp by exact Hc. eauto.
Qed.

Lemma pack_ok n l b p : holds n l p -> is_byte b -> zlen l + 2 <= n ->
  exists p', pack_hex_byte p b = Some p' /\ holds n (l ++ hex2 b) p'.
Proof. intros Hh Hb Hn. rewrite pack_hex_byte_eq by exact Hb. apply pushes_ok; [done|by apply hex2_bytes|exact Hn]. Qed.

(** A loop that stores a piece in each of its [k] rounds. *)
Section Pieces.
Context {St : Type} (mk : list Z * Z -> Z -> St) (body : St -> option (step St (list Z * Z))) (piece : Z -> list Z) (k n : Z).

Definition pieces (i : Z) : list Z := concat ((fun j => piece (Z.of_nat j)) <$> seq 0 (Z.to_nat i)).

Lemma pieces_next i : 0 <= i -> pieces (i + 1) = pieces i ++ piece i.
Proof.
  intros Hi. unfold pieces. replace (Z.to_nat (i + 1)) with (S (Z.to_nat i)) by lia.
  rewrite seq_S, fmap_app, concat_app. cbn. by rewrite app_nil_r, Z2Nat.id by lia.
Qed.

Hypothesis Hbody : forall l p i, 0 <= i < k -> holds n l p -> zlen l + zlen (piece i) <= n ->
  exists p', body (mk p i) = Some (Next (mk p' (i + 1))) /\ holds n (l ++ piece i) p'.
Hypothesis Hend : forall p, body (mk p k) = Some (Done p).
Hypothesis Hk : 0 <= k.

Lemma pieces_ok l p bound : holds n l p -> zlen l + zlen (pieces k) <= n -> k < bound ->
  exists p', loop body bound (mk p 0) = Some p' /\ holds n (l ++ pieces k) p'.
Proof using Hbody Hend Hk.
  intros Hh Hn Hb.
  assert (Hmono : forall m d, (Z.of_nat m + Z.of_nat d = k) -> zlen (pieces (Z.of_nat m)) <= zlen (pieces k)).
  { intros m d. revert m. induction d as [|d IH]; intros m Hm; [by replace (Z.of_nat m) with k by lia|].
    specialize (IH (S m) ltac:(lia)). rewrite Nat2Z.inj_succ in IH. unfold Z.succ in IH. rewrite pieces_next, zlen_app in IH by lia.
    pose proof (zlen_nonneg (piece (Z.of_nat m))). lia. }
  assert (Hsteps : forall m, Z.of_nat m <= k ->
    exists q, steps body m (mk p 0) = Some (mk q (Z.of_nat m)) /\ holds n (l ++ pieces (Z.of_nat m)) q).
  { induction m as [|m IH]; intros Hm; [exists p; by rewrite app_nil_r|].
    destruct IH as (q & Hq & Hh'); [lia|]. rewrite Nat2Z.inj_succ in *. unfold Z.succ in *.
    specialize (Hmono (S m) (Z.to_nat (k - Z.of_nat m - 1)) ltac:(lia)). rewrite Nat2Z.inj_succ in Hmono. unfold Z.succ in Hmono.
    rewrite pieces_next, zlen_app in Hmono by lia.
    destruct (Hbody _ q (Z.of_nat m) ltac:(lia) Hh') as (q' & Hp & Hh2); [rewrite zlen_app; lia|].
    exists q'. rewrite <-Nat.add_1_r, steps_add, Hq, bind_Some. cbn [steps]. rewrite Hp, bind_Some.
    split; [done|]. by rewrite pieces_next, app_assoc by lia. }
  destruct (Hsteps (Z.to_nat k)) as (q & Hq & Hh'); [lia|]. rewrite Z2Nat.id in * by lia. exists q. split; [|done].
  eapply loop_steps; [exact Hq|apply Hend|lia].
Qed.
End Pieces.

(** The array holds the text and its terminator. *)
Lemma terminate_ok n l p : holds n l p -> zlen l < n -> exists rest, terminate p = Some (l ++ 0 :: rest) /\ zlen (l ++ 0 :: rest) = n.
Proof.
  intros (Hi & Ht & Hn) Hl. destruct p as [m i]. cbn [fst snd] in *. subst i. unfold terminate. cbn [fst snd].
  rewrite arr_set_Some by (pose proof (zlen_nonneg l); lia). exists (drop (S (length l)) m).
  assert (Hlen : (length l < length m)%nat) by (unfold zlen in *; lia).
  assert (He : <[Z.to_nat (zlen l):=0]> m = l ++ 0 :: drop (S (length l)) m).
  { unfold zlen. rewrite Nat2Z.id, insert_take_drop by done. by rewrite Ht. }
  split; [by rewrite He|]. by rewrite <-He, zlen_insert.
Qed.

(** A spec that string() prints without overflowing its counters. *)
Definition string_spec_ok (spec : printf_spec) : Prop :=
  - 2 ^ 15 + 2 <= field_width spec < 2 ^ 15 /\ - 2 ^ 15 <= precision spec < 2 ^ 15.

Lemma local_string_ok st end_ t rest spec : room end_ st -> str t -> zlen t < 2 ^ 31 -> string_spec_ok spec ->
  local_string st end_ (t ++ 0 :: rest) spec = Some (emits end_ (string_text t spec) st).
Proof. intros Hr Ht Hl [Hw Hp]. by apply string_ok. Qed.

Lemma terminated_string n l p st end_ spec : holds n l p -> zlen l < n -> n < 2 ^ 31 -> str l -> room end_ st -> string_spec_ok spec ->
  (s ← terminate p; local_string st end_ s spec) = Some (emits end_ (string_text l spec) st).
Proof.
  intros Hh Hl Hn Hs Hr Hspec. destruct (terminate_ok n l p Hh Hl) as (rest & -> & _). rewrite bind_Some.
  apply local_string_ok; try done. lia.
Qed.

Lemma digit_char_str locase d : locase = 0 \/ locase = 32 -> 0 <= d < 16 -> 0 < digit_char locase d < 256.
Proof. intros Hl Hd. unfold digit_char. bcases. Qed.

Lemma hex2_str b : is_byte b -> str (hex2 b).
Proof. intros Hb. unfold is_byte in Hb. repeat constructor; apply digit_char_str; (auto || zlia). Qed.

Lemma join_str sep ps : str sep -> Forall str ps -> str (join sep ps).
Proof.
  intros Hs. induction ps as [|p [|p' ps] IH]; intros Hps; [constructor|by inversion Hps|].
  inversion Hps as [|? ? Hp Hps']; subst. cbn [join]. apply str_app. split; [done|]. apply str_app. auto.
Qed.

Lemma str_bytes t : str t -> Forall is_byte t.
Proof. intros H. eapply Forall_impl; [|exact H]. intros c Hc. cbv beta in Hc. unfold is_byte. lia. Qed.

(** *** Ethernet addresses *)

(** At least [n] bytes, as a concrete list followed by the rest. *)
Ltac first_bytes l H :=
  repeat (destruct l as [|? l]; [exfalso; unfold zlen in H; cbn in H; lia|]).

Definition mac_piece (addr : list Z) (colons : bool) (sep i : Z) : list Z :=
  (match addr.[i] with Some b => hex2 b | None => [] end) ++ (if colons && negb (i =? 5) then [sep] else []).

Lemma mac_pieces addr (c : bool) sp : 6 <= zlen addr ->
  pieces (mac_piece addr c sp) 6 = mac_text (if c then [sp] else []) addr /\ zlen (mac_text (if c then [sp] else []) addr) < 18.
Proof. intros H. first_bytes addr H. by destruct c. Qed.

Lemma mac_str (c : bool) sp addr : 0 < sp < 256 -> Forall is_byte addr -> str (mac_text (if c then [sp] else []) addr).
Proof.
  intros Hsp Ha. apply join_str; [destruct c; repeat constructor; lia|]. apply Forall_fmap. apply Forall_take.
  eapply Forall_impl; [|exact Ha]. intros b Hb. by apply hex2_str.
Qed.

Lemma mac_ok st end_ addr spec f0 f1 fmt : room end_ st -> string_spec_ok spec -> Forall is_byte addr -> 6 <= zlen addr ->
  let sep := if f0 =? 77 then [if f1 =? 70 then 45 else 58] else [] in
  mac_address_string st end_ addr spec (f0 :: f1 :: fmt) = Some (emits end_ (string_text (mac_text sep addr) spec) st).
Proof.
  intros Hr Hs Ha Hlen sep. unfold mac_address_string. change (_.[1]) with (Some f1). change ((f0 :: _).[0]) with (Some f0).
  rewrite !bind_Some. set (sp := if f1 =? 70 then 45 else 58) in *.
  assert (Hsp : 0 < sp < 256) by (unfold sp; case_match; lia).
  assert (Hpiece : forall i, 0 <= i < 6 -> exists b, addr.[i] = Some b /\ is_byte b).
  { intros i Hi. destruct (arr_get_is_Some addr i) as [b Hb]; [lia|]. exists b. split; [done|].
    apply arr_get_Some in Hb as [_ Hb]. exact (Forall_lookup_1 _ _ _ _ Ha Hb). }
  destruct (pieces_ok (fun p i => (p, i)) (mac_body addr (f0 =? 77) sp) (mac_piece addr (f0 =? 77) sp) 6 18) with
    (l := @nil Z) (p := (repeat 0 18, 0)) (bound := 7) as (p & -> & Hp); try (done || lia).
  - intros l p i Hi Hp Hl. unfold mac_body, mac_piece in *. rewrite (proj2 (Z.ltb_lt i 6)) by lia.
    destruct (Hpiece i Hi) as (b & Hg & Hb). rewrite Hg in *. rewrite bind_Some. rewrite zlen_app in Hl. change (zlen (hex2 b)) with 2 in Hl.
    destruct (pack_ok 18 l b p Hp Hb) as (p1 & -> & Hp1); [case_match; unfold zlen in *; cbn in *; lia|].
    destruct (push_if_ok ((f0 =? 77) && negb (i =? 5)) sp 18 _ p1 Hp1) as (p2 & Hq & Hp2);
      [unfold is_byte; lia|rewrite zlen_app; unfold zlen in *; case_match; cbn in *; lia|].
    rewrite bind_Some, Hq, bind_Some, app_assoc. eauto.
  - destruct (mac_pieces addr (f0 =? 77) sp) as [-> H]; [done|]. unfold zlen at 1. cbn [length]. lia.
  - rewrite bind_Some. cbn [app] in Hp. destruct (mac_pieces addr (f0 =? 77) sp Hlen) as [He Hl]. rewrite He in Hp.
    apply (terminated_string 18); try done. by apply mac_str.
Qed.


(** *** IPv4 addresses *)

Lemma quad_loop n temp l p d : holds n l p -> 0 <= d <= zlen temp -> d < 4 -> zlen l + d <= n -> Forall is_byte (take (Z.to_nat d) temp) ->
  exists p', loop (quad_body temp) 4 (p, d) = Some p' /\ holds n (l ++ rev (take (Z.to_nat d) temp)) p'.
Proof.
  intros Hh Hd Hd4 Hn Hb. set (piece := fun i => match temp.[d - 1 - i] with Some c => [c] | None => [] end).
  assert (Hget : forall i, 0 <= i < d -> exists c, temp.[d - 1 - i] = Some c /\ is_byte c).
  { intros i Hi. destruct (arr_get_is_Some temp (d - 1 - i)) as [c Hc]; [lia|]. exists c. split; [done|].
    rewrite <-(arr_get_take temp d) in Hc by lia. apply arr_get_Some in Hc as [_ Hc]. exact (Forall_lookup_1 _ _ _ _ Hb Hc). }
  assert (Hall : forall i, 0 <= i <= d -> pieces piece i ++ rev (take (Z.to_nat (d - i)) temp) = rev (take (Z.to_nat d) temp)).
  { intros i Hi. rewrite <-(Z2Nat.id i) by lia. assert (Hi' : Z.of_nat (Z.to_nat i) <= d) by lia. clear Hi. revert Hi'.
    generalize (Z.to_nat i) as m. induction m as [|m IH]; intros Hi; [by rewrite Z.sub_0_r|].
    rewrite <-IH by lia. rewrite Nat2Z.inj_succ. unfold Z.succ. rewrite pieces_next, <-app_assoc by lia. f_equal. unfold piece.
    destruct (Hget (Z.of_nat m)) as (c & Hc & _); [lia|]. rewrite Hc.
    replace (d - Z.of_nat m) with (d - 1 - Z.of_nat m + 1) by lia. rewrite (take_next temp _ c Hc), rev_unit.
    by replace (d - (Z.of_nat m + 1)) with (d - 1 - Z.of_nat m) by lia. }
  specialize (Hall d ltac:(lia)) as Ha. rewrite Z.sub_diag in Ha. cbn in Ha. rewrite app_nil_r in Ha. rewrite <-Ha.
  destruct (pieces_ok (fun p i => (p, d - i)) (quad_body temp) piece d n) with (l := l) (p := p) (bound := 4) as (p' & Hp & Hh'); try (done || lia).
  - intros l' q i Hi Hq Hl. unfold quad_body, piece in *. rewrite (proj2 (Z.eqb_neq (d - i) 0)) by lia.
    replace (d - i - 1) with (d - 1 - i) by lia. destruct (Hget i Hi) as (c & Hc & Hcb). rewrite Hc in *. rewrite bind_Some.
    destruct (push_if_ok true c n l' q Hq Hcb) as (q' & -> & Hq'); [exact Hl|]. rewrite bind_Some. exists q'.
    split; [|done]. do 3 f_equal. lia.
  - intros q. unfold quad_body. by rewrite Z.sub_diag.
  - rewrite Ha. unfold zlen in *. rewrite length_rev, length_take. lia.
  - exists p'. rewrite Z.sub_0_r in Hp. done.
Qed.

Lemma digits_byte b : is_byte b -> digits_text 10 0 b = rev (dec_chars (digits 10 3 b)) /\ 1 <= zlen (digits 10 3 b) <= 3.
Proof.
  intros Hb. unfold is_byte in Hb. unfold digits_text. rewrite (digits_fuel 10 22 3) by lia. split.
  - f_equal. apply list_fmap_ext. intros k d Hd. pose proof (digits_range 10 3 b ltac:(lia) ltac:(lia)) as Hr. rewrite Forall_lookup in Hr.
    apply Hr in Hd. cbv beta in Hd. unfold digit_char. rewrite (proj2 (Z.ltb_lt d 10)) by lia. lia.
  - pose proof (digits_length 10 3 b). unfold zlen. rewrite (digits_S 10 2 b) in *. case_match; cbn [length] in *; lia.
Qed.

Lemma quad_ok n l p b lz : holds n l p -> is_byte b -> zlen l + zlen (quad_text lz b) <= n ->
  exists p', ip4_quad p lz b = Some p' /\ holds n (l ++ quad_text lz b) p'.
Proof.
  intros Hh Hb Hn. unfold ip4_quad. destruct (digits_byte b Hb) as [Hd Hlen]. unfold is_byte in Hb.
  rewrite put_dec_trunc_pushes, (digits_fuel 10 5 3) by lia. set (ds := dec_chars (digits 10 3 b)) in *.
  assert (Hdl : zlen ds = zlen (digits 10 3 b)) by (unfold ds, dec_chars, zlen; by rewrite length_fmap).
  assert (Hdb : Forall is_byte ds) by (apply dec_chars_bytes, digits_range; lia).
  destruct (pushes_ok 3 [] ds (repeat 0 3, 0)) as ([temp dig] & -> & Ht); [done..|change (zlen []) with 0; lia|]. rewrite bind_Some.
  destruct Ht as (Hdig & Ht & Htl). cbn [app fst snd] in *.
  assert (Htk : take (Z.to_nat dig) temp = ds) by (rewrite Hdig; unfold zlen; by rewrite Nat2Z.id).
  assert (Hq : quad_text lz b = (if lz && (dig <? 3) then [48] else []) ++ (if lz && (dig <? 2) then [48] else []) ++ rev ds).
  { unfold quad_text. rewrite Hd. unfold zlen at 1. rewrite length_rev. change (Z.of_nat (length ds)) with (zlen ds). rewrite <-Hdig.
    assert (dig = 1 \/ dig = 2 \/ dig = 3) as [-> | [-> | ->]] by lia; by destruct lz. }
  rewrite Hq in Hn |- *. rewrite !zlen_app in Hn. assert (Hrl : zlen (rev ds) = dig) by (unfold zlen in *; rewrite length_rev; lia).
  destruct (push_if_ok (lz && (dig <? 3)) 48 n l p Hh) as (p1 & -> & H1);
    [done|destruct (lz && (dig <? 3)), (lz && (dig <? 2)); unfold zlen in *; cbn [length] in *; lia|]. rewrite bind_Some.
  destruct (push_if_ok (lz && (dig <? 2)) 48 n _ p1 H1) as (p2 & -> & H2);
    [done|rewrite zlen_app; destruct (lz && (dig <? 3)), (lz && (dig <? 2)); unfold zlen in *; cbn [length] in *; lia|]. rewrite bind_Some.
  destruct (quad_loop n temp _ p2 dig H2) as (p3 & -> & H3); [lia|lia|rewrite !zlen_app; lia| |].
  - by rewrite Htk.
  - exists p3. split; [done|]. by rewrite Htk, <-!app_assoc in H3.
Qed.

(** The index of the [i]th number, for each of the two directions. *)
Definition ip4_index (reverse : bool) (i : Z) : Z := if reverse then 3 - i else i.

Definition ip4_piece (addr : list Z) (lz reverse : bool) (i : Z) : list Z :=
  (match addr.[ip4_index reverse i] with Some b => quad_text lz b | None => [] end) ++ (if i <? 3 then [46] else []).

Lemma ip4_pieces addr lz reverse : 4 <= zlen addr -> pieces (ip4_piece addr lz reverse) 4 = ip4_text lz reverse addr.
Proof.
  intros H. destruct addr as [|a [|b [|c [|d addr]]]]; try (unfold zlen in H; cbn in H; lia).
  unfold ip4_piece, ip4_text. generalize (quad_text lz) as q. intros q. cbn [take]. rewrite take_0. destruct reverse.
  - transitivity (concat [q d ++ [46]; q c ++ [46]; q b ++ [46]; q a ++ []]); [reflexivity|].
    cbn. by rewrite <-!app_assoc, !app_nil_r.
  - transitivity (concat [q a ++ [46]; q b ++ [46]; q c ++ [46]; q d ++ []]); [reflexivity|].
    cbn. by rewrite <-!app_assoc, !app_nil_r.
Qed.

Lemma quad_len lz b : is_byte b -> 1 <= zlen (quad_text lz b) <= 3.
Proof.
  intros Hb. unfold quad_text. destruct (digits_byte b Hb) as [-> Hl]. unfold zeros, zlen, dec_chars in *.
  destruct lz; rewrite ?length_app, ?repeat_length, ?length_rev, ?length_fmap; cbn [length app]; rewrite ?length_rev, ?length_fmap; lia.
Qed.

Lemma ip4_len lz reverse addr : Forall is_byte addr -> 4 <= zlen addr -> zlen (ip4_text lz reverse addr) <= 15.
Proof.
  intros Ha H. first_bytes addr H. do 4 (inversion Ha as [|? ? ? Ha']; subst; clear Ha; rename Ha' into Ha).
  unfold ip4_text. destruct reverse; cbn [take rev app fmap list_fmap]; rewrite take_0; cbn [rev app join fmap list_fmap]; repeat rewrite ?zlen_app, ?zlen_cons;
    repeat match goal with H : is_byte ?b |- _ => pose proof (quad_len lz b H); clear H end; lia.
Qed.

(** The array holds the text and a terminator behind it. *)
Definition ended (n : Z) (l : list Z) (p : list Z * Z) : Prop := holds n l p /\ exists rest, fst p = l ++ 0 :: rest.

Lemma terminate_ended n l p : holds n l p -> zlen l < n -> exists m, terminate p = Some m /\ ended n l (m, snd p).
Proof.
  intros Hh Hl. destruct (terminate_ok n l p Hh Hl) as (rest & Ht & Hn). exists (l ++ 0 :: rest). split; [done|].
  split; [|by exists rest]. destruct Hh as (Hi & _). split_and!; [done|cbn [fst]; by rewrite take_app_length|done].
Qed.

Lemma ip4_string_ok n l p addr f0 f1 f2 fmt : holds n l p -> Forall is_byte addr -> 4 <= zlen addr ->
  let t := ip4_text (f0 =? 105) ((f2 =? 104) || (f2 =? 108)) addr in
  zlen l + zlen t < n -> exists p', ip4_string p addr (f0 :: f1 :: f2 :: fmt) = Some p' /\ ended n (l ++ t) p'.
Proof.
  intros Hh Ha Hlen t Hn. unfold ip4_string. change (_.[2]) with (Some f2). change ((f0 :: _).[0]) with (Some f0). rewrite !bind_Some.
  set (lz := f0 =? 105) in *. set (rv := (f2 =? 104) || (f2 =? 108)) in *.
  set (mk := fun (p : list Z * Z) i => (p, i, ip4_index rv i)).
  assert (Hsteps : forall p i, (p, i + 1, ip4_index rv i + (if rv then -1 else 1)) = mk p (i + 1)).
  { intros q i. unfold mk, ip4_index. destruct rv; do 2 f_equal; lia. }
  destruct (pieces_ok mk (ip4_body addr lz (if rv then -1 else 1)) (ip4_piece addr lz rv) 4 n) with (l := l) (p := p) (bound := 5)
    as (p' & Hp & Hh'); try (done || lia).
  - intros l' q i Hi Hq Hl. unfold mk, ip4_body, ip4_piece in *. rewrite (proj2 (Z.ltb_lt i 4)) by lia.
    destruct (arr_get_is_Some addr (ip4_index rv i)) as [b Hb]; [unfold ip4_index; destruct rv; lia|]. rewrite Hb in *.
    apply arr_get_Some in Hb as [_ Hb]. apply (Forall_lookup_1 _ _ _ _ Ha) in Hb. rewrite bind_Some. rewrite zlen_app in Hl.
    destruct (quad_ok n l' q b lz Hq Hb) as (q1 & -> & H1); [pose proof (zlen_nonneg (if i <? 3 then [46] else [])); lia|].
    rewrite bind_Some. destruct (push_if_ok (i <? 3) 46 n _ q1 H1) as (q2 & -> & H2);
      [done|rewrite zlen_app; destruct (i <? 3); unfold zlen in *; cbn [length] in *; lia|].
    rewrite bind_Some, Hsteps, app_assoc. eauto.
  - rewrite ip4_pieces by done. unfold t in Hn. lia.
  - rewrite ip4_pieces in Hh' by done. fold t in Hh'.
    destruct (terminate_ended n _ p' Hh') as (m & Hm & Hhm); [rewrite zlen_app; lia|].
    exists (m, snd p'). split; [|done]. unfold mk, ip4_index in Hp. destruct rv; cbn iota in Hp |- *; rewrite ?Z.sub_0_r in Hp;
      by rewrite Hp, bind_Some, Hm, bind_Some.
Qed.

(** *** IPv6 addresses *)

Definition ip6_text (colons : bool) (addr : list Z) : list Z :=
  join (if colons then [58] else []) ((fun i => hex2 (addr !!! (2 * i)%nat) ++ hex2 (addr !!! (2 * i + 1)%nat)) <$> seq 0 8).

Definition ip6_piece (addr : list Z) (colons : bool) (i : Z) : list Z :=
  (match addr.[2 * i] with Some b => hex2 b | None => [] end) ++
  (match addr.[2 * i + 1] with Some b => hex2 b | None => [] end) ++ (if colons && negb (i =? 7) then [58] else []).

Lemma ip6_pieces addr colons : 16 <= zlen addr -> pieces (ip6_piece addr colons) 8 = ip6_text colons addr /\ zlen (ip6_text colons addr) < 46.
Proof. intros H. first_bytes addr H. by destruct colons. Qed.

Lemma arr_get_byte addr i : Forall is_byte addr -> 0 <= i < zlen addr -> exists b, addr.[i] = Some b /\ is_byte b.
Proof.
  intros Ha Hi. destruct (arr_get_is_Some addr i Hi) as [b Hb]. exists b. split; [done|].
  apply arr_get_Some in Hb as [_ Hb]. exact (Forall_lookup_1 _ _ _ _ Ha Hb).
Qed.

Lemma ip6_string_ok n l p addr f0 fmt : holds n l p -> Forall is_byte addr -> 16 <= zlen addr ->
  let t := ip6_text (f0 =? 73) addr in
  zlen l + zlen t < n -> exists p', ip6_string p addr (f0 :: fmt) = Some p' /\ ended n (l ++ t) p'.
Proof.
  intros Hh Ha Hlen t Hn. unfold ip6_string. rewrite arr_get_0, bind_Some. destruct (ip6_pieces addr (f0 =? 73) Hlen) as [He _].
  destruct (pieces_ok pair (ip6_body addr (f0 =? 73)) (ip6_piece addr (f0 =? 73)) 8 n) with (l := l) (p := p) (bound := 9)
    as (p' & -> & Hh'); try (done || lia).
  - intros l' q i Hi Hq Hl. unfold ip6_body, ip6_piece in *. rewrite (proj2 (Z.ltb_lt i 8)) by lia.
    destruct (arr_get_byte addr (2 * i) Ha) as (b0 & Hb0 & H0); [lia|]. rewrite Hb0 in *.
    destruct (arr_get_byte addr (2 * i + 1) Ha) as (b1 & Hb1 & H1); [lia|]. rewrite Hb1 in *.
    rewrite !zlen_app in Hl. change (zlen (hex2 b0)) with 2 in Hl. change (zlen (hex2 b1)) with 2 in Hl.
    pose proof (zlen_nonneg (if (f0 =? 73) && negb (i =? 7) then [58] else [])) as Hc. rewrite !bind_Some.
    destruct (pack_ok n l' b0 q Hq H0) as (q1 & -> & Hq1); [lia|]. rewrite !bind_Some.
    destruct (pack_ok n _ b1 q1 Hq1 H1) as (q2 & -> & Hq2); [rewrite zlen_app; change (zlen (hex2 b0)) with 2; lia|]. rewrite bind_Some.
    destruct (push_if_ok ((f0 =? 73) && negb (i =? 7)) 58 n _ q2 Hq2) as (q3 & -> & Hq3);
      [done|rewrite !zlen_app; change (zlen (hex2 b0)) with 2; change (zlen (hex2 b1)) with 2; case_match; unfold zlen in *; cbn [length] in *; lia|].
    rewrite bind_Some, !app_assoc. eauto.
  - rewrite He. unfold t in Hn. lia.
  - rewrite He in Hh'. fold t in Hh'. rewrite bind_Some.
    destruct (terminate_ended n _ p' Hh') as (m & -> & Hhm); [rewrite zlen_app; lia|]. rewrite bind_Some. eauto.
Qed.

(** *** IPv6 addresses in their short form *)

(** The eight words of an address. *)
Definition ip6_words (addr : list Z) : list Z :=
  (fun i => 256 * addr !!! (2 * i)%nat + addr !!! (2 * i + 1)%nat) <$> seq 0 8.

Definition hexw (w : Z) : list Z := digits_text 16 32 w.

(** How many of the first words are zero. *)
Fixpoint zrun (ws : list Z) : Z :=
  match ws with
  | w :: ws' => if w =? 0 then 1 + zrun ws' else 0
  | [] => 0
  end.

(** The text of the words [ws] followed by the pieces [tail]: without two
    adjacent zeros all words are printed; otherwise the longest run of zeros
    is left out, the first one when there are several. *)
Inductive short_form (ws : list Z) (tail : list (list Z)) : list Z -> Prop :=
| short_plain : (forall i, zrun (drop i ws) <= 1) -> short_form ws tail (join [58] ((hexw <$> ws) ++ tail))
| short_run pos : let n := zrun (drop pos ws) in
    2 <= n -> (forall i, zrun (drop i ws) <= n) -> (forall i, (i < pos)%nat -> zrun (drop i ws) < n) ->
    short_form ws tail
      (join [58] (hexw <$> take pos ws) ++ [58; 58] ++ join [58] ((hexw <$> drop (pos + Z.to_nat n) ws) ++ tail)).

(** IPv4-mapped addresses and ISATAP addresses end in a dotted quad. *)
Definition embeds_ip4 (a : list Z) : bool :=
  bool_decide (take 12 a = [0; 0; 0; 0; 0; 0; 0; 0; 0; 0; 255; 255]) ||
  bool_decide (take 4 (drop 8 a) = [0; 0; 94; 254]) || bool_decide (take 4 (drop 8 a) = [2; 0; 94; 254]).

Lemma zrun_range ws : 0 <= zrun ws <= zlen ws.
Proof. induction ws as [|w ws IH]; cbn [zrun]; [done|]. rewrite zlen_cons. case_match; lia. Qed.

Lemma word_swap b0 b1 : is_byte b0 -> is_byte b1 -> ntohs (b0 + 256 * b1) = 256 * b0 + b1 /\ (b0 + 256 * b1 = 0 <-> 256 * b0 + b1 = 0).
Proof.
  unfold is_byte. intros H0 H1. split; [|lia]. unfold ntohs.
  rewrite Z.shiftr_land. change (Z.shiftr 0xff00 8) with (2 ^ 8 - 1). change 0xff with (2 ^ 8 - 1).
  rewrite !land_ones_mod, Z.shiftl_mul_pow2, Z.shiftr_div_pow2 by lia. zlia.
Qed.

Lemma s6_addr16_ok a i : Forall is_byte a -> zlen a = 16 -> 0 <= i < 8 ->
  exists w w', s6_addr16 a i = Some w' /\ ntohs w' = w /\ (w' = 0 <-> w = 0) /\ (ip6_words a).[i] = Some w /\ 0 <= w < 65536.
Proof.
  intros Ha Hl Hi. unfold s6_addr16. destruct (arr_get_byte a (2 * i) Ha) as (b0 & Hb0 & H0); [lia|].
  destruct (arr_get_byte a (2 * i + 1) Ha) as (b1 & Hb1 & H1); [lia|]. rewrite Hb0, Hb1, !bind_Some.
  destruct (word_swap b0 b1 H0 H1) as [Hs Hz]. exists (256 * b0 + b1), (b0 + 256 * b1). split_and!; try done; unfold is_byte in *; try lia.
  unfold ip6_words. rewrite arr_get_nat, list_lookup_fmap, lookup_seq_lt by lia. cbn [fmap option_fmap option_map]. f_equal.
  apply arr_get_Some in Hb0 as [_ Hb0], Hb1 as [_ Hb1].
  assert (a !!! (2 * (0 + Z.to_nat i))%nat = b0) as -> by (apply list_lookup_total_correct; rewrite <-Hb0; f_equal; lia).
  assert (a !!! (2 * (0 + Z.to_nat i) + 1)%nat = b1) as -> by (apply list_lookup_total_correct; rewrite <-Hb1; f_equal; lia). lia.
Qed.

Lemma digits_text_str b locase w : 2 <= b <= 16 -> locase = 0 \/ locase = 32 -> 0 <= w -> str (digits_text b locase w).
Proof.
  intros Hb Hl Hw. unfold digits_text, str. apply Forall_rev, Forall_fmap. eapply Forall_impl; [|apply digits_range; lia].
  intros d Hd. cbv beta in Hd. apply digit_char_str; [done|lia].
Qed.

Lemma hexw_str w : 0 <= w < 65536 -> str (hexw w) /\ 1 <= zlen (hexw w) <= 4.
Proof.
  intros Hw. split; [apply digits_text_str; (auto || lia)|]. unfold hexw, digits_text, zlen. rewrite (digits_fuel 16 22 4) by lia.
  rewrite length_rev, length_fmap. pose proof (digits_length 16 4 w). rewrite (digits_S 16 3 w) in *. case_match; cbn [length] in *; lia.
Qed.

Lemma hex_word_ok n l p w : holds n l p -> 0 <= w < 65536 -> zlen l + zlen (hexw w) <= n ->
  exists p', hex_word p w = Some p' /\ holds n (l ++ hexw w) p'.
Proof.
  intros Hh Hw Hn. assert (Heq : hex_word p w = pushes (hexw w) p).
  { unfold hex_word. change 0xff with (2 ^ 8 - 1). rewrite land_ones_mod, Z.shiftr_div_pow2 by lia. change (2 ^ 8) with 256.
    unfold hexw, digits_text. rewrite (digits_fuel 16 22 4) by lia. cbn [digits].
    assert (Hm : 0 <= w mod 256 < 256) by zlia. assert (Hd : 0 <= w / 256 < 256) by zlia.
    destruct (Z.eqb_spec (w / 256) 0) as [Hz|Hz]; cbn [negb].
    - destruct (Z.ltb_spec 15 (w mod 256)).
      + rewrite pack_hex_byte_eq by done. rewrite (proj2 (Z.ltb_ge w 16)), (proj2 (Z.ltb_lt (w / 16) 16)) by zlia.
        by replace (w mod 256) with w by zlia.
      + rewrite hex_asc_lo_eq, bind_Some, (proj2 (Z.ltb_lt w 16)) by zlia. cbn [fmap list_fmap rev app pushes].
        replace (w mod 256 mod 16) with w by zlia. by destruct (push _ _).
    - rewrite (proj2 (Z.ltb_ge w 16)), (proj2 (Z.ltb_ge (w / 16) 16)) by zlia. rewrite Z.div_div by lia. change (16 * 16) with 256.
      replace (w / 16 mod 16) with (w mod 256 / 16) by zlia. replace (w mod 16) with (w mod 256 mod 16) by zlia.
      destruct (Z.ltb_spec 15 (w / 256)).
      + rewrite pack_hex_byte_eq, (proj2 (Z.ltb_ge (w / 256) 16)), (proj2 (Z.ltb_lt (w / 256 / 16) 16)) by (done || zlia).
        change (rev _) with (hex2 (w / 256) ++ hex2 (w mod 256)). rewrite pushes_app.
        destruct (pushes _ p) as [p'|]; [|done]. rewrite !bind_Some. by apply pack_hex_byte_eq.
      + rewrite hex_asc_lo_eq, bind_Some, (proj2 (Z.ltb_lt (w / 256) 16)) by (done || lia). replace (w / 256 mod 16) with (w / 256) by zlia.
        cbn [fmap list_fmap rev app pushes]. destruct (push p _) as [p'|]; [|done]. rewrite !bind_Some. by apply pack_hex_byte_eq. }
  rewrite Heq. apply pushes_ok; try done. apply str_bytes, hexw_str. done.
Qed.

(** Words with colons between them. *)
Definition colon_words (l : list Z) : list Z := join [58] (hexw <$> l).

Lemma join_snoc sep ps p : join sep (ps ++ [p]) = join sep ps ++ (if bool_decide (ps = []) then [] else sep) ++ p.
Proof.
  induction ps as [|q [|q' ps] IH]; [done|done|]. cbn [app join] in *. rewrite IH. rewrite !bool_decide_false by done. by rewrite <-!app_assoc.
Qed.

Lemma colon_words_snoc l w : colon_words (l ++ [w]) = colon_words l ++ (if 0 <? zlen l then [58] else []) ++ hexw w.
Proof.
  unfold colon_words. rewrite fmap_app. cbn [fmap list_fmap]. rewrite join_snoc. do 2 f_equal. unfold zlen. by destruct l.
Qed.

Lemma colon_words_len l : Forall (fun w => 0 <= w < 65536) l -> zlen (colon_words l) <= Z.max 0 (5 * zlen l - 1).
Proof.
  induction l as [|w l IH] using rev_ind; intros H; [done|]. apply Forall_app in H as [Hl Hw]. inversion Hw as [|? ? Hw' _]; subst.
  specialize (IH Hl). pose proof (hexw_str w Hw') as [_ Hx]. rewrite colon_words_snoc, !zlen_app. pose proof (zlen_nonneg l).
  destruct (Z.ltb_spec 0 (zlen l)); unfold zlen in *; cbn [length] in *; lia.
Qed.

Section Compressed.
Context (a : list Z) (range : Z) (Ha : Forall is_byte a) (Hlen : zlen a = 16) (Hrange : range = 6 \/ range = 8).
Let ws := take (Z.to_nat range) (ip6_words a).
Let run_at (i : Z) : Z := zrun (drop (Z.to_nat i) ws).

Lemma ws_len : zlen ws = range.
Proof using Hrange. unfold ws, zlen, ip6_words. rewrite length_take, length_fmap, length_seq. lia. Qed.

Lemma ws_get i : 0 <= i < range ->
  exists w w', s6_addr16 a i = Some w' /\ ntohs w' = w /\ (w' = 0 <-> w = 0) /\ ws.[i] = Some w /\ 0 <= w < 65536.
Proof using Ha Hlen Hrange.
  intros Hi. destruct (s6_addr16_ok a i Ha Hlen) as (w & w' & H1 & H2 & H3 & H4 & H5); [lia|]. exists w, w'. split_and!; try done; try tauto; try lia.
  unfold ws. by rewrite arr_get_take by lia.
Qed.

Lemma drop_get {A} (l : list A) i x : l.[i] = Some x -> drop (Z.to_nat i) l = x :: drop (Z.to_nat (i + 1)) l.
Proof using.
  intros [Hi Hx]%arr_get_Some. rewrite (drop_S l x) by done. f_equal. f_equal. lia.
Qed.

Lemma run_step i : 0 <= i < range -> exists w', s6_addr16 a i = Some w' /\ run_at i = if w' =? 0 then 1 + run_at (i + 1) else 0.
Proof using Ha Hlen Hrange.
  intros Hi. destruct (ws_get i Hi) as (w & w' & -> & _ & Hz & Hg & _). exists w'. split; [done|]. unfold run_at.
  rewrite (drop_get ws i w Hg). cbn [zrun]. destruct (Z.eqb_spec w 0), (Z.eqb_spec w' 0); done || tauto.
Qed.

Lemma run_end i : range <= i -> run_at i = 0.
Proof using Hrange. intros Hi. unfold run_at. rewrite drop_ge; [done|]. pose proof ws_len as H. unfold zlen in H. lia. Qed.

Lemma zero_run_ok i z : 0 <= i <= range -> loop (zero_run_body a range) 9 (i, z) = Some (z + run_at i).
Proof using Ha Hlen Hrange.
  intros Hi. destruct (loop_total (zero_run_body a range) (fun '(j, n) => i <= j <= range /\ n + run_at j = z + run_at i)
    (fun '(j, _) => range - j) (fun r => r = z + run_at i)) with (bound := 9) (s := (i, z)) as (r & -> & ->); [|lia|lia|done].
  intros [j n] [Hj He]. split; [lia|]. unfold zero_run_body. bcase.
  - destruct (run_step j) as (w' & -> & Hr); [lia|]. rewrite bind_Some. rewrite Hr in He. destruct (w' =? 0); cbn [negb]; lia.
  - rewrite (run_end j) in He by lia. lia.
Qed.

Lemma zerolength_ok : exists zl, loop (zerolength_body a range) 9 (0, repeat 0 8) = Some zl /\
  forall i, 0 <= i < range -> zl.[i] = Some (run_at i).
Proof using Ha Hlen Hrange.
  apply (loop_total (zerolength_body a range)
    (fun '(i, zl) => 0 <= i <= range /\ zlen zl = 8 /\ (forall j, 0 <= j < i -> zl.[j] = Some (run_at j)) /\
       (forall j, i <= j < 8 -> zl.[j] = Some 0))
    (fun '(i, _) => range - i)); [|split_and!; [lia|lia|done|lia|]|lia].
  - intros [i zl] (Hi & Hz & Hlo & Hhi). split; [lia|]. unfold zerolength_body. bcase.
    + rewrite (Hhi i), bind_Some, zero_run_ok, bind_Some, arr_set_Some, bind_Some by lia. split; [|lia].
      split_and!; [lia|lia|by rewrite zlen_insert| |]; intros j Hj; rewrite arr_get_insert by lia; case_decide; subst; try lia; try done.
      * apply Hlo. lia.
      * apply Hhi. lia.
    + intros j Hj. apply Hlo. lia.
  - intros j Hj. rewrite arr_get_nat by lia. assert (Hn : (Z.to_nat j < 8)%nat) by lia. revert Hn. generalize (Z.to_nat j) as m.
    intros m Hm. do 8 (destruct m as [|m]; [done|]). lia.
Qed.

(** The first longest run. *)
Definition is_longest (longest colonpos bound : Z) : Prop :=
  1 <= longest /\ (forall j, 0 <= j < bound -> run_at j <= longest) /\
  ((longest = 1 /\ colonpos = -1) \/
   (2 <= longest /\ 0 <= colonpos < bound /\ run_at colonpos = longest /\ forall j, 0 <= j < colonpos -> run_at j < longest)).

Lemma longest_ok zl : (forall i, 0 <= i < range -> zl.[i] = Some (run_at i)) ->
  exists longest colonpos, loop (longest_body zl range) 9 (0, 1, -1) = Some (longest, colonpos) /\ is_longest longest colonpos range.
Proof using Hrange.
  intros Hzl. destruct (loop_total (longest_body zl range) (fun '(i, lg, cp) => 0 <= i <= range /\ is_longest lg cp i)
    (fun '(i, _, _) => range - i) (fun r => is_longest (fst r) (snd r) range)) with (bound := 9) (s := (0, 1, -1)) as ([lg cp] & -> & H);
    [| |lia|by exists lg, cp].
  - intros [[i lg] cp] (Hi & H1 & Hall & Hcase). split; [lia|]. unfold longest_body. bcase; [|by replace range with i by lia].
    rewrite Hzl, bind_Some by lia. destruct (Z.ltb_spec lg (run_at i)) as [Hlt|Hge].
    + split; [|lia]. split; [lia|]. split; [lia|]. split.
      * intros j Hj. destruct (decide (j = i)) as [->|]; [lia|]. specialize (Hall j). lia.
      * right. split_and!; [lia..|]. intros j Hj. specialize (Hall j). lia.
    + split; [|lia]. split; [lia|]. split; [done|]. split.
      * intros j Hj. destruct (decide (j = i)) as [->|]; [lia|]. apply Hall. lia.
      * destruct Hcase as [?|(? & ? & ? & ?)]; [by left|right]. split_and!; try lia; done.
  - split; [lia|]. split; [lia|]. split; [lia|]. by left.
Qed.

Lemma ws_words : Forall (fun w => 0 <= w < 65536) ws.
Proof using Ha Hlen Hrange.
  apply Forall_lookup. intros i w Hw. pose proof (lookup_lt_Some _ _ _ Hw) as Hi. pose proof ws_len as Hl. unfold zlen in Hl.
  destruct (ws_get (Z.of_nat i)) as (v & _ & _ & _ & _ & Hg & Hr); [lia|]. rewrite arr_get_nat, Nat2Z.id in Hg by lia. congruence.
Qed.

(** *** The loop that prints the words *)

Context (lg cp : Z) (Hbest : (lg = 1 /\ cp = -1) \/ (2 <= lg /\ 0 <= cp < range /\ run_at cp = lg)).

Definition slice (i j : Z) : list Z := take (Z.to_nat (j - i)) (drop (Z.to_nat i) ws).

(** What has been printed before the [i]th word, and whether a colon is due. *)
Definition sofar (i : Z) : list Z :=
  if (0 <=? cp) && (cp <? i) then colon_words (slice 0 cp) ++ [58; 58] ++ colon_words (slice (cp + lg) i)
  else colon_words (slice 0 i).
Definition colon_due (i : Z) : bool := if (0 <=? cp) && (cp <? i) then cp + lg <? i else 0 <? i.

Lemma slice_len i j : 0 <= i <= j -> j <= range -> zlen (slice i j) = j - i.
Proof using Hrange.
  intros Hi Hj. pose proof ws_len as Hl. unfold slice. rewrite zlen_take; [done|]. rewrite zlen_drop; lia.
Qed.

Lemma slice_next i j w : 0 <= i <= j -> ws.[j] = Some w -> slice i (j + 1) = slice i j ++ [w].
Proof using.
  intros Hi Hw. unfold slice. replace (j + 1 - i) with (j - i + 1) by lia. apply take_next.
  rewrite arr_get_drop by lia. by replace (i + (j - i)) with j by lia.
Qed.

Lemma slice_words i j : Forall (fun w => 0 <= w < 65536) (slice i j).
Proof using Ha Hlen Hrange. unfold slice. apply Forall_take, Forall_drop, ws_words. Qed.

Lemma run_fits : 0 <= cp -> cp + lg <= range.
Proof using Hbest Hrange.
  intros Hc. destruct Hbest as [|(_ & Hcp & Hr)]; [lia|]. unfold run_at in Hr. pose proof (zrun_range (drop (Z.to_nat cp) ws)) as H.
  rewrite zlen_drop, ws_len in H by (rewrite ws_len; lia). lia.
Qed.

Lemma sofar_len i : 0 <= i <= range -> (cp < i -> cp + lg <= i) -> zlen (sofar i) <= Z.max 0 (5 * i - 1).
Proof using Ha Hlen Hrange Hbest.
  intros Hi Hc. unfold sofar. destruct (Z.leb_spec 0 cp), (Z.ltb_spec cp i); cbn [andb].
  - rewrite !zlen_app. pose proof (colon_words_len _ (slice_words 0 cp)) as H1. pose proof (colon_words_len _ (slice_words (cp + lg) i)) as H2.
    rewrite slice_len in H1 by lia. rewrite slice_len in H2 by lia. unfold zlen at 2. cbn [length]. lia.
  - pose proof (colon_words_len _ (slice_words 0 i)) as H1. rewrite slice_len in H1 by lia. lia.
  - pose proof (colon_words_len _ (slice_words 0 i)) as H1. rewrite slice_len in H1 by lia. lia.
  - pose proof (colon_words_len _ (slice_words 0 i)) as H1. rewrite slice_len in H1 by lia. lia.
Qed.

Lemma sofar_next i w : 0 <= i < range -> i <> cp -> (cp < i -> cp + lg <= i) -> ws.[i] = Some w ->
  sofar (i + 1) = sofar i ++ (if colon_due i then [58] else []) ++ hexw w /\ colon_due (i + 1) = true.
Proof using Hrange Hbest.
  intros Hi Hne Hc Hw. unfold sofar, colon_due. destruct (Z.leb_spec 0 cp), (Z.ltb_spec cp i), (Z.ltb_spec cp (i + 1)); cbn [andb]; try lia.
  all: rewrite (slice_next _ i w), colon_words_snoc, slice_len by (done || lia); rewrite <-?app_assoc.
  all: split; [|apply Z.ltb_lt; lia].
  all: rewrite ?Z.sub_0_r; try done.
  do 4 f_equal. destruct (Z.ltb_spec 0 (i - (cp + lg))), (Z.ltb_spec (cp + lg) i); done || lia.
Qed.

Lemma sofar_skip : 0 <= cp -> sofar (cp + lg) = sofar cp ++ [58; 58] /\ colon_due (cp + lg) = false /\ colon_due cp || (cp =? 0) = true.
Proof using Hrange Hbest.
  intros Hc. unfold sofar, colon_due. rewrite (proj2 (Z.leb_le 0 cp)), (proj2 (Z.ltb_ge cp cp)), (proj2 (Z.ltb_lt cp (cp + lg))) by lia. cbn [andb].
  split_and!; [|apply Z.ltb_ge; lia|bcases; done].
  unfold slice at 2. rewrite Z.sub_diag. cbn [Z.to_nat]. rewrite take_0. unfold colon_words at 2. cbn [fmap list_fmap join]. by rewrite app_nil_r.
Qed.

Lemma emit_ok n p : holds n [] p -> 46 <= n ->
  exists p', loop (ip6_emit_body a range lg cp) 9 (p, 0, false) = Some (p', colon_due range) /\ holds n (sofar range) p'.
Proof using Ha Hlen Hrange Hbest.
  intros Hp Hn. pose proof run_fits as Hfit.
  destruct (loop_total (ip6_emit_body a range lg cp)
    (fun '(q, i, nc) => 0 <= i <= range /\ (cp < i -> cp + lg <= i) /\ nc = colon_due i /\ holds n (sofar i) q)
    (fun '(_, i, _) => range - i) (fun r => snd r = colon_due range /\ holds n (sofar range) (fst r)))
    with (bound := 9) (s := (p, 0, false)) as ([q nc] & -> & Hnc & Hq); [| |lia|cbn [fst snd] in *; subst nc; eauto].
  - intros [[q i] nc] (Hi & Hc & -> & Hq). split; [lia|]. unfold ip6_emit_body. pose proof (sofar_len i Hi Hc) as Hl. bcase.
    + destruct (Z.eqb_spec i cp) as [->|Hne].
      * destruct sofar_skip as (Hs & Hd & ->); [lia|].
        destruct (push_if_ok true 58 n _ q Hq) as (q1 & -> & H1); [done|lia|]. rewrite bind_Some.
        destruct (push_if_ok true 58 n _ q1 H1) as (q2 & -> & H2); [done|rewrite zlen_app; unfold zlen at 2; cbn [length]; lia|].
        rewrite bind_Some. replace (cp + (lg - 1) + 1) with (cp + lg) by lia. rewrite <-app_assoc in H2. rewrite Hs, Hd. split; [|lia].
        split_and!; (done || lia).
      * destruct (ws_get i) as (w & w' & Hw' & Hsw & _ & Hw & Hwr); [lia|]. destruct (sofar_next i w) as [Hs Hd]; [lia|done..|].
        pose proof (hexw_str w Hwr) as [_ Hx]. destruct (push_if_ok (colon_due i) 58 n _ q Hq) as (q1 & -> & H1); [done|case_match; lia|].
        rewrite bind_Some, Hw', bind_Some, Hsw.
        destruct (hex_word_ok n _ q1 w H1 Hwr) as (q2 & -> & H2); [|].
        { rewrite zlen_app. assert (zlen (if colon_due i then [58] else []) <= 1) by (by destruct (colon_due i)). lia. }
        rewrite bind_Some. rewrite <-app_assoc, <-Hs in H2. split; [|lia]. split_and!; [lia|lia|lia|done|done].
    + replace range with i by lia. done.
  - unfold colon_due, sofar. assert ((0 <=? cp) && (cp <? 0) = false) as -> by (bcases; done). split_and!; (done || lia).
Qed.
End Compressed.

Lemma isatap_word w : (Z.lor w 2 =? 0xFE5E0002) = (w =? 0xFE5E0000) || (w =? 0xFE5E0002).
Proof.
  assert (Hl : Z.lor w 2 = w + 2 - Z.land w 2) by (pose proof (Z.add_lor_land w 2); lia). rewrite Hl.
  destruct (Z.eqb_spec w 0xFE5E0000) as [->|H0]; [done|]. destruct (Z.eqb_spec w 0xFE5E0002) as [->|H2]; [done|].
  apply Z.eqb_neq. destruct (land_bit w 1) as [Hb|Hb]; [lia| |]; change (2 ^ 1) with 2 in Hb; rewrite Hb; cbn; lia.
Qed.

Lemma embeds_ok a : Forall is_byte a -> zlen a = 16 ->
  exists v, ipv6_addr_v4mapped a = Some v /\ (if v then Some true else ipv6_addr_is_isatap a) = Some (embeds_ip4 a).
Proof.
  intros Ha Hl. destruct a as [|b0 [|b1 [|b2 [|b3 [|b4 [|b5 [|b6 [|b7 [|b8 [|b9 [|b10 [|b11 a]]]]]]]]]]]]; try (unfold zlen in Hl; cbn in Hl; lia).
  do 12 (inversion Ha as [|? ? ? Ha']; subst; clear Ha; rename Ha' into Ha). unfold is_byte in *. clear Hl Ha.
  set (w0 := b0 + 256 * b1 + 65536 * (b2 + 256 * b3)). set (w1 := b4 + 256 * b5 + 65536 * (b6 + 256 * b7)).
  set (w2 := b8 + 256 * b9 + 65536 * (b10 + 256 * b11)).
  exists (Z.lor (Z.lor w0 w1) (Z.lxor w2 0xffff0000) =? 0). split; [done|].
  assert (Hi : forall l, ipv6_addr_is_isatap (b0 :: b1 :: b2 :: b3 :: b4 :: b5 :: b6 :: b7 :: b8 :: b9 :: b10 :: b11 :: l) = Some ((w2 =? 0xFE5E0000) || (w2 =? 0xFE5E0002))).
  { intros l. rewrite <-isatap_word. done. }
  rewrite Hi. unfold embeds_ip4. cbn [take drop]. rewrite !take_0.
  assert (Hm : (Z.lor (Z.lor w0 w1) (Z.lxor w2 0xffff0000) =? 0) =
    bool_decide ([b0; b1; b2; b3; b4; b5; b6; b7; b8; b9; b10; b11] = [0; 0; 0; 0; 0; 0; 0; 0; 0; 0; 255; 255])).
  { apply eq_true_iff_eq. rewrite Z.eqb_eq, bool_decide_eq_true, !Z.lor_eq_0_iff, Z.lxor_eq_0_iff. split.
    - intros [[E0 E1] E2]. unfold w0, w1, w2 in *. repeat f_equal; lia.
    - intros E. injection E as -> -> -> -> -> -> -> -> -> -> -> ->. done. }
  rewrite Hm. assert (Hw : forall v x0 x1 x2 x3, is_byte x0 -> is_byte x1 -> is_byte x2 -> is_byte x3 ->
    v = x0 + 256 * x1 + 65536 * (x2 + 256 * x3) -> (w2 =? v) = bool_decide ([b8; b9; b10; b11] = [x0; x1; x2; x3])).
  { unfold is_byte. intros v x0 x1 x2 x3 ? ? ? ? ->. apply eq_true_iff_eq. rewrite Z.eqb_eq, bool_decide_eq_true. split.
    - intros E. unfold w2 in E. repeat f_equal; lia.
    - intros E. injection E as -> -> -> ->. done. }
  rewrite (Hw 0xFE5E0000 0 0 94 254), (Hw 0xFE5E0002 2 0 94 254) by (unfold is_byte; lia).
  by destruct (bool_decide ([b0; b1; b2; b3; b4; b5; b6; b7; b8; b9; b10; b11] = _)).
Qed.

(** The words that are printed in hexadecimal, and the quad behind them. *)
Definition hex_part (a : list Z) : list Z := take (if embeds_ip4 a then 6 else 8) (ip6_words a).
Definition quad_part (a : list Z) : list (list Z) := if embeds_ip4 a then [ip4_text false false (drop 12 a)] else [].

(** The text before the quad, with the quad behind it, is the short form. *)
Lemma short_form_ok a range lg cp : range = (if embeds_ip4 a then 6 else 8) -> is_longest a range lg cp range ->
  short_form (hex_part a) (quad_part a)
    (sofar a range lg cp range ++
     (if embeds_ip4 a then (if colon_due lg cp range then [58] else []) ++ ip4_text false false (drop 12 a) else [])).
Proof.
  intros Hr (H1 & Hall & Hcase). assert (Hrange : range = 6 \/ range = 8) by (destruct (embeds_ip4 a); auto).
  assert (Hws : take (Z.to_nat range) (ip6_words a) = hex_part a) by (unfold hex_part; rewrite Hr; by destruct (embeds_ip4 a)).
  pose proof (ws_len a range Hrange) as Hwl. unfold is_longest in *. unfold sofar, slice. rewrite Hws in *. set (ws := hex_part a) in *.
  assert (Hout : forall i, (Z.to_nat range <= i)%nat -> zrun (drop i ws) = 0) by (intros i Hi; rewrite drop_ge; [done|unfold zlen in Hwl; lia]).
  assert (Hle : forall i, zrun (drop i ws) <= lg).
  { intros i. destruct (decide (Z.of_nat i < range)); [|rewrite Hout; lia]. rewrite <-(Nat2Z.id i). apply Hall. lia. }
  assert (Htail : forall l, colon_words l ++ (if embeds_ip4 a then (if 0 <? zlen l then [58] else []) ++ ip4_text false false (drop 12 a) else []) =
    join [58] ((hexw <$> l) ++ quad_part a)).
  { intros l. unfold quad_part. destruct (embeds_ip4 a); [|by rewrite !app_nil_r]. rewrite join_snoc. do 2 f_equal. by destruct l. }
  destruct Hcase as [[-> ->]|(Hlg & Hcp & Hrun & Hfirst)].
  - cbn [Z.leb Z.compare andb]. unfold colon_due. cbn [Z.leb Z.compare andb]. rewrite Z.sub_0_r. cbn [Z.to_nat]. rewrite drop_0.
    rewrite take_ge by (unfold zlen in Hwl; lia). rewrite <-Hwl, Htail. apply short_plain. done.
  - unfold colon_due. rewrite (proj2 (Z.leb_le 0 cp)), (proj2 (Z.ltb_lt cp range)) by lia. cbn [andb].
    assert (Hdl : zlen (drop (Z.to_nat (cp + lg)) ws) = Z.max 0 (range - (cp + lg))) by (unfold zlen in *; rewrite length_drop; lia).
    replace (cp + lg <? range) with (0 <? zlen (drop (Z.to_nat (cp + lg)) ws)) by (rewrite Hdl; bcases; done).
    rewrite (take_ge (drop (Z.to_nat (cp + lg)) ws)) by (unfold zlen in Hdl; lia). rewrite <-!app_assoc, Htail, Z.sub_0_r, drop_0.
    replace (Z.to_nat (cp + lg)) with (Z.to_nat cp + Z.to_nat (zrun (drop (Z.to_nat cp) ws)))%nat by lia.
    apply short_run; rewrite Hrun; [done..|]. intros i Hi. rewrite <-(Nat2Z.id i). apply Hfirst. lia.
Qed.

Lemma ip6_compressed_ok addr p : holds 46 [] p -> Forall is_byte addr -> 16 <= zlen addr ->
  exists p' t, ip6_compressed_string p addr = Some p' /\ ended 46 t p' /\ zlen t < 46 /\ short_form (hex_part (take 16 addr)) (quad_part (take 16 addr)) t.
Proof.
  intros Hp Hb Hl. unfold ip6_compressed_string. change 16 with (Z.of_nat 16). rewrite memcpy_ok, bind_Some by (rewrite ?repeat_length; unfold zlen in *; lia).
  rewrite (drop_ge (repeat 0 16)), app_nil_r by done. set (a := take 16 addr).
  assert (Ha : Forall is_byte a) by by apply Forall_take.
  assert (Hlen : zlen a = 16) by (unfold a; apply (zlen_take addr 16); lia).
  destruct (embeds_ok a Ha Hlen) as (v & -> & Hv). rewrite bind_Some, Hv, bind_Some. set (u := embeds_ip4 a) in *.
  set (range := if u then 6 else 8). assert (Hrange : range = 6 \/ range = 8) by (unfold range; destruct u; auto).
  destruct (zerolength_ok a range Ha Hlen Hrange) as (zl & -> & Hzl). rewrite bind_Some.
  destruct (longest_ok a range Hrange zl Hzl) as (lg & cp & -> & Hbest). rewrite bind_Some.
  replace (if lg =? 1 then -1 else cp) with cp by (destruct Hbest as (_ & _ & [[-> ->]|(? & _)]); [done|bcases]).
  destruct (emit_ok a range Ha Hlen Hrange lg cp) with (n := 46) (p := p) as (p1 & -> & H1); [|done|done|].
  { destruct Hbest as (_ & _ & [?|(? & ? & ? & _)]); [by left|by right]. }
  rewrite bind_Some. pose proof (short_form_ok a range lg cp eq_refl Hbest) as Hsf. fold u in Hsf.
  assert (Hs : zlen (sofar a range lg cp range) <= Z.max 0 (5 * range - 1)).
  { destruct Hbest as (_ & _ & Hc). assert (Hb' : (lg = 1 /\ cp = -1) \/ (2 <= lg /\ 0 <= cp < range /\ zrun (drop (Z.to_nat cp) (take (Z.to_nat range) (ip6_words a))) = lg))
      by (destruct Hc as [?|(? & ? & ? & _)]; [by left|by right]).
    apply (sofar_len a range Ha Hlen Hrange lg cp Hb'); [lia|]. pose proof (run_fits a range Hrange lg cp Hb'). lia. }
  set (tx := sofar a range lg cp range) in *. destruct u.
  - destruct (push_if_ok (colon_due lg cp range) 58 46 tx p1 H1) as (p2 & -> & H2); [done|case_match; lia|]. rewrite bind_Some.
    assert (Hd : Forall is_byte (drop 12 a)) by by apply Forall_drop.
    assert (Hd4 : zlen (drop 12 a) = 4) by (change 12%nat with (Z.to_nat 12); rewrite zlen_drop; lia).
    pose proof (ip4_len false false (drop 12 a) Hd ltac:(lia)) as Hq.
    assert (Hc : zlen (if colon_due lg cp range then [58] else []) <= 1) by (by destruct (colon_due lg cp range)).
    destruct (ip4_string_ok 46 _ p2 (drop 12 a) 73 52 0 [] H2 Hd) as (p3 & -> & H3 & _); [lia|cbn [Z.eqb Pos.eqb orb]; rewrite zlen_app; lia|].
    cbn [Z.eqb Pos.eqb orb] in H3. rewrite bind_Some, <-app_assoc in *.
    destruct (terminate_ended 46 _ p3 H3) as (m & -> & H4); [rewrite !zlen_app; lia|]. rewrite bind_Some.
    eexists _, _. split; [done|]. split; [exact H4|]. split; [rewrite !zlen_app; lia|done].
  - rewrite bind_Some. destruct (terminate_ended 46 _ p1 H1) as (m & -> & H4); [lia|]. rewrite bind_Some.
    eexists _, tx. split; [done|]. split; [exact H4|]. split; [lia|]. by rewrite app_nil_r in Hsf.
Qed.

(** *** UUIDs *)

Definition uuid_text (index addr : list Z) : list Z :=
  let bs := (fun k => hex2 (addr !!! Z.to_nat k)) <$> index in
  join [45] [concat (take 4 bs); concat (take 2 (drop 4 bs)); concat (take 2 (drop 6 bs)); concat (take 2 (drop 8 bs)); concat (drop 10 bs)].

Definition uuid_piece (addr index : list Z) (i : Z) : list Z :=
  (match index.[i] with Some k => match addr.[k] with Some b => hex2 b | None => [] end | None => [] end) ++
  (if (i =? 3) || (i =? 5) || (i =? 7) || (i =? 9) then [45] else []).

Lemma uuid_pieces addr index : 16 <= zlen addr -> index = uuid_be \/ index = uuid_le ->
  pieces (uuid_piece addr index) 16 = uuid_text index addr /\ zlen (uuid_text index addr) = 36.
Proof. intros H Hi. first_bytes addr H. by destruct Hi as [-> | ->]. Qed.

Lemma uuid_str addr index : Forall is_byte addr -> 16 <= zlen addr -> index = uuid_be \/ index = uuid_le -> str (uuid_text index addr).
Proof.
  intros Ha H Hi. first_bytes addr H. do 16 (inversion Ha as [|? ? ? Ha']; subst; clear Ha; rename Ha' into Ha).
  assert (Hx : forall b, is_byte b -> 0 < digit_char 32 (b / 16) < 256 /\ 0 < digit_char 32 (b mod 16) < 256).
  { intros b Hb. unfold is_byte in Hb. split; apply digit_char_str; (auto || zlia). }
  destruct Hi as [-> | ->]; unfold str; cbn; repeat (apply List.Forall_cons; [lia || (apply Hx; assumption)|]); apply List.Forall_nil.
Qed.

Lemma toupper_range c : 0 < c < 256 -> 0 < toupper c < 256.
Proof.
  intros Hc. assert (H : forallb (fun i => let c := Z.of_nat i in (c =? 0) || ((0 <? toupper c) && (toupper c <? 256))) (seq 0 256) = true)
    by (vm_compute; reflexivity).
  pose proof (forallb_seq_lt _ 256 H c ltac:(lia)) as Hp. cbv beta zeta in Hp. rewrite Z2Nat.id in Hp by lia.
  rewrite orb_true_iff, andb_true_iff, Z.eqb_eq, !Z.ltb_lt in Hp. lia.
Qed.

Lemma upper_ok t rest : str t -> 0 < zlen t < 37 ->
  loop upper_body 37 (t ++ 0 :: rest, 0) = Some ((toupper <$> t) ++ 0 :: rest).
Proof.
  intros Ht Hl. destruct (loop_total upper_body
    (fun '(u, i) => 0 <= i < zlen t /\ u = (toupper <$> take (Z.to_nat i) t) ++ drop (Z.to_nat i) t ++ 0 :: rest)
    (fun '(_, i) => zlen t - i) (fun r => r = (toupper <$> t) ++ 0 :: rest)) with (bound := 37) (s := (t ++ 0 :: rest, 0))
    as (r & -> & ->); [|by split; [lia|]|lia|done].
  intros [u i] (Hi & ->). split; [lia|]. unfold upper_body. destruct (arr_get_is_Some t i) as [c Hc]; [lia|].
  assert (Hpl : zlen (toupper <$> take (Z.to_nat i) t) = i) by (unfold zlen in *; rewrite length_fmap, length_take; lia).
  rewrite (drop_get t i c Hc). set (pre := toupper <$> take (Z.to_nat i) t) in *.
  assert (Hget : forall k x, (pre ++ x :: k).[i] = Some x) by (intros k x; rewrite arr_get_app_r, Hpl, Z.sub_diag by lia; apply arr_get_0).
  cbn [app]. rewrite Hget, bind_Some, arr_set_Some by (rewrite zlen_app, zlen_cons; pose proof (zlen_nonneg (drop (Z.to_nat (i + 1)) t ++ 0 :: rest)); lia).
  rewrite bind_Some. assert (Hins : <[Z.to_nat i:=toupper c]> (pre ++ c :: drop (Z.to_nat (i + 1)) t ++ 0 :: rest) = (pre ++ [toupper c]) ++ drop (Z.to_nat (i + 1)) t ++ 0 :: rest).
  { rewrite <-app_assoc. replace (Z.to_nat i) with (length pre + 0)%nat by (unfold zlen in Hpl; lia). by rewrite insert_app_r. }
  rewrite Hins. rewrite arr_get_app_r by (rewrite zlen_app; unfold zlen at 2; cbn [length]; lia).
  replace (i + 1 - zlen (pre ++ [toupper c])) with 0 by (rewrite zlen_app; unfold zlen at 2; cbn [length]; lia).
  assert (Hpre : pre ++ [toupper c] = toupper <$> take (Z.to_nat (i + 1)) t) by (rewrite (take_next t i c Hc), fmap_app; done).
  rewrite Hpre. destruct (decide (i + 1 < zlen t)) as [Hlt|Hge].
  - destruct (arr_get_is_Some t (i + 1)) as [d Hd]; [lia|]. rewrite (drop_get t (i + 1) d Hd). cbn [app]. rewrite arr_get_0, bind_Some.
    apply arr_get_Some in Hd as [_ Hd]. pose proof (Forall_lookup_1 _ _ _ _ Ht Hd) as Hdr. cbv beta in Hdr.
    rewrite (proj2 (Z.eqb_neq d 0)) by lia. cbn [negb]. split; [|lia]. split; [lia|]. rewrite (drop_get t (i + 1) d) by (apply arr_get_Some; split; [lia|done]). done.
  - rewrite drop_ge by (unfold zlen in *; lia). cbn [app]. rewrite arr_get_0, bind_Some. cbn. rewrite take_ge by (unfold zlen in *; lia). done.
Qed.

Definition uuid_full (f1 : Z) (addr : list Z) : list Z :=
  if f1 =? 76 then toupper <$> uuid_text uuid_le addr
  else if f1 =? 108 then uuid_text uuid_le addr
  else if f1 =? 66 then toupper <$> uuid_text uuid_be addr
  else uuid_text uuid_be addr.

Lemma uuid_array addr index : Forall is_byte addr -> 16 <= zlen addr -> index = uuid_be \/ index = uuid_le ->
  exists p, loop (uuid_body addr index) 17 ((repeat 0 37, 0), 0) = Some p /\ holds 37 (uuid_text index addr) p.
Proof.
  intros Ha Hl Hidx. destruct (uuid_pieces addr index Hl Hidx) as [He Hlen].
  assert (Hget : forall i, 0 <= i < 16 -> exists k b, index.[i] = Some k /\ addr.[k] = Some b /\ is_byte b).
  { intros i Hi. assert (Hk : exists k, index.[i] = Some k /\ 0 <= k < 16).
    { rewrite arr_get_nat by lia. assert (Hn : (Z.to_nat i < 16)%nat) by lia. revert Hn. generalize (Z.to_nat i) as m. intros m Hm.
      destruct Hidx as [-> | ->]; (do 16 (destruct m as [|m]; [eexists; split; [reflexivity|lia]|])); lia. }
    destruct Hk as (k & Hk & Hkr). destruct (arr_get_byte addr k Ha) as (b & Hb & Hbb); [lia|]. eauto 6. }
  destruct (pieces_ok pair (uuid_body addr index) (uuid_piece addr index) 16 37) with (l := @nil Z) (p := (repeat 0 37, 0)) (bound := 17)
    as (p & Hp & Hh); try (done || lia).
  - intros l q i Hi Hq Hlq. unfold uuid_body, uuid_piece in *. rewrite (proj2 (Z.ltb_lt i 16)) by lia.
    destruct (Hget i Hi) as (k & b & Hk & Hb & Hbb). rewrite Hk, Hb in *. rewrite bind_Some, Hb, bind_Some. rewrite zlen_app in Hlq. change (zlen (hex2 b)) with 2 in Hlq.
    set (dash := (i =? 3) || (i =? 5) || (i =? 7) || (i =? 9)) in *. pose proof (zlen_nonneg (if dash then [45] else [])).
    destruct (pack_ok 37 l b q Hq Hbb) as (q1 & -> & H1); [lia|]. rewrite bind_Some.
    destruct (push_if_ok dash 45 37 _ q1 H1) as (q2 & -> & H2);
      [done|rewrite zlen_app; change (zlen (hex2 b)) with 2; destruct dash; unfold zlen in *; cbn [length] in *; lia|].
    rewrite bind_Some, app_assoc. eauto.
  - rewrite He, Hlen. done.
  - rewrite He in Hh. eauto.
Qed.

Lemma uuid_ok st end_ addr spec f0 f1 fmt : room end_ st -> string_spec_ok spec -> Forall is_byte addr -> 16 <= zlen addr ->
  uuid_string st end_ addr spec (f0 :: f1 :: fmt) = Some (emits end_ (string_text (uuid_full f1 addr) spec) st).
Proof.
  intros Hr Hs Ha Hl. unfold uuid_string. change (_.[1]) with (Some f1). rewrite bind_Some.
  assert (Hgen : forall index (uc : bool), index = uuid_be \/ index = uuid_le ->
    (p ← loop (uuid_body addr index) 17 ((repeat 0 37, 0), 0); uuid ← terminate p;
     uuid ← (if uc then loop upper_body 37 (uuid, 0) else Some uuid); local_string st end_ uuid spec) =
    Some (emits end_ (string_text (if uc then toupper <$> uuid_text index addr else uuid_text index addr) spec) st)).
  { intros index uc Hidx. destruct (uuid_array addr index Ha Hl Hidx) as (p & -> & Hp). rewrite bind_Some.
    destruct (uuid_pieces addr index Hl Hidx) as [_ Hlen]. pose proof (uuid_str addr index Ha Hl Hidx) as Hstr.
    destruct (terminate_ok 37 _ p Hp) as (rest & -> & _); [lia|]. rewrite bind_Some. destruct uc.
    - rewrite upper_ok, bind_Some by (done || lia). apply local_string_ok; try done.
      + apply Forall_fmap. eapply Forall_impl; [|exact Hstr]. intros c Hc. by apply toupper_range.
      + unfold zlen in *. rewrite length_fmap. lia.
    - rewrite bind_Some. apply local_string_ok; try done. lia. }
  unfold uuid_full. destruct (f1 =? 76); [exact (Hgen uuid_le true ltac:(auto))|].
  destruct (f1 =? 108); [exact (Hgen uuid_le false ltac:(auto))|].
  destruct (f1 =? 66); [exact (Hgen uuid_be true ltac:(auto))|exact (Hgen uuid_be false ltac:(auto))].
Qed.

(** *** Resources *)

Lemma emits_holds n l t st : holds n l st -> zlen l + zlen t <= n -> holds n (l ++ t) (emits n t st).
Proof.
  revert l st. induction t as [|c t IH]; intros l st Hh Hn; [by rewrite app_nil_r|].
  rewrite zlen_cons in Hn. pose proof (zlen_nonneg t). cbn [emits foldl]. change (foldl (emit n) ?s t) with (emits n t s).
  replace (l ++ c :: t) with ((l ++ [c]) ++ t) by (by rewrite <-app_assoc). apply IH; [|rewrite zlen_app; unfold zlen in *; cbn [length]; lia].
  destruct Hh as (Hi & Ht & Hlen). unfold emit. rewrite Hi, (proj2 (Z.ltb_lt (zlen l) n)) by lia. unfold holds. cbn [fst snd].
  rewrite zlen_app, zlen_insert, length_app. split_and!; [done| |done]. cbn [length].
  assert (Hll : (length l < length (fst st))%nat) by (unfold zlen in *; lia).
  unfold zlen. rewrite Nat2Z.id, Nat.add_1_r. erewrite take_S_r by by apply list_lookup_insert_eq.
  by rewrite take_insert_ge, Ht by lia.
Qed.

Lemma holds_room n l st : holds n l st -> room n st.
Proof. intros (Hi & _ & Hn). split; [rewrite Hi; apply zlen_nonneg|lia]. Qed.

Lemma repeat_zlen {A} (c : A) n : zlen (repeat c (Z.to_nat n)) = Z.max 0 n.
Proof. unfold zlen. rewrite repeat_length. lia. Qed.

Lemma layout_len fl w s p b : zlen (layout fl w s p b) = Z.max w (zlen s + zlen p + zlen b).
Proof.
  unfold layout, zeros, spaces. pose proof (zlen_nonneg s). pose proof (zlen_nonneg p). pose proof (zlen_nonneg b).
  repeat case_match; rewrite !zlen_app, repeat_zlen; lia.
Qed.

Lemma digits_text_len b locase n k : 2 <= b -> 0 <= n < b ^ Z.of_nat k -> (0 < k <= 22)%nat -> 1 <= zlen (digits_text b locase n) <= Z.of_nat k.
Proof.
  intros Hb Hn Hk. unfold digits_text, zlen. rewrite length_rev, length_fmap, (digits_fuel b 22 k); try lia.
  - pose proof (digits_length b k n Hb ltac:(lia)). destruct k as [|k]; [lia|]. rewrite (digits_S b k n) in *. case_match; cbn [length] in *; lia.
  - eapply Z.lt_le_trans; [apply Hn|]. apply Z.pow_le_mono_r; lia.
Qed.

Lemma repeat_str c n : 0 < c < 256 -> str (repeat c n).
Proof. intros Hc. induction n as [|n IH]; cbn; [constructor|]. by apply str_cons. Qed.

Lemma number_text_str num spec : printf_base (base spec) -> 0 <= num < 2 ^ 64 -> str (number_text num spec).
Proof.
  intros Hb Hn. unfold number_text, layout, zeros, spaces.
  assert (Hs : str (sign_text num (flags spec))) by (unfold sign_text; repeat case_match; repeat constructor).
  assert (Hp : str (prefix_text spec)).
  { unfold prefix_text. destruct (small_cases (flags spec)) as [-> | ->]; repeat case_match; repeat constructor. }
  assert (Hd : str (digits_text (base spec) (Z.land (flags spec) SMALL) (magnitude num (flags spec)))).
  { apply digits_text_str; [destruct Hb as [-> | [-> | ->]]; lia|apply small_cases|]. pose proof (magnitude_range num (flags spec) Hn). lia. }
  repeat case_match; repeat (apply str_app; split); try done; apply repeat_str; lia.
Qed.

Definition end_text (start rend : Z) (spec : printf_spec) : list Z := if start =? rend then [] else 45 :: number_text rend spec.

Definition attr_text (rflags : Z) (decode : bool) : list Z :=
  if decode then
    (if has rflags IORESOURCE_MEM_64 then text_64bit else []) ++ (if has rflags IORESOURCE_PREFETCH then text_pref else []) ++
    (if has rflags IORESOURCE_WINDOW then text_window else []) ++ (if has rflags IORESOURCE_DISABLED then text_disabled else [])
  else text_flags ++ number_text rflags flag_spec.

Definition resource_text (start rend rflags : Z) (R : bool) : list Z :=
  let '(kind, specp, decode) := resource_kind rflags R in
  [91] ++ kind ++ number_text start specp ++ end_text start rend specp ++ attr_text rflags decode ++ [93].

Lemma put_text_if_ok (b : bool) t l p : holds sym_size l p -> str t -> zlen t <= 10 -> zlen l + zlen t <= sym_size ->
  exists p', (if b then put_text p sym_size t else Some p) = Some p' /\ holds sym_size (l ++ if b then t else []) p'.
Proof.
  intros Hh Ht Hl Hn. destruct b; [|rewrite app_nil_r; eauto]. unfold put_text. rewrite local_string_ok; try done; try lia.
  - eexists. split; [done|]. assert (string_text t str_spec = t) as ->; [|by apply emits_holds].
    unfold string_text, spaces. cbn [precision str_spec static_spec field_width flags]. change (10 <? 0) with false. cbn iota.
    pose proof (zlen_nonneg t). rewrite take_ge by (unfold zlen in *; lia). replace (Z.to_nat (-1 - zlen t)) with O by lia. apply app_nil_r.
  - by eapply holds_room.
Qed.

(** The formats of the numbers of a resource. *)
Definition resource_spec (spec : printf_spec) : Prop := In spec [io_spec; mem_spec; bus_spec; dec_spec; flag_spec].

Lemma resource_number n spec l p : resource_spec spec -> 0 <= n < 2 ^ 32 -> holds sym_size l p -> zlen l + 10 <= sym_size ->
  exists p', number p sym_size n spec = Some p' /\ holds sym_size (l ++ number_text n spec) p' /\ str (number_text n spec) /\
    zlen (number_text n spec) <= 10.
Proof.
  intros Hs Hn Hh Hl.
  assert (Hspec : (base spec = 10 \/ base spec = 16) /\ widths_ok spec /\ sign_text n (flags spec) = [] /\ magnitude n (flags spec) = n /\
    zlen (prefix_text spec) + (if base spec =? 10 then 10 else 8) <= 10 /\ field_width spec <= 10 /\ precision spec = -1).
  { unfold widths_ok. repeat (destruct Hs as [<-|Hs]; [split_and!; (auto || done || lia)|]). done. }
  destruct Hspec as (Hb & Hw & Hsg & Hm & Hp & Hf & Hprec). assert (Hpb : printf_base (base spec)) by (unfold printf_base; tauto).
  rewrite number_ok; try done; [|by eapply holds_room|lia].
  assert (Hlen : zlen (number_text n spec) <= 10).
  { unfold number_text. rewrite layout_len, Hsg, Hm, Hprec, zlen_app. unfold zeros. rewrite repeat_zlen. change (zlen []) with 0.
    assert (1 <= zlen (digits_text (base spec) (Z.land (flags spec) SMALL) n) <= (if base spec =? 10 then 10 else 8)); [|lia].
    destruct Hb as [Hb | Hb]; rewrite Hb; [apply (digits_text_len _ _ _ 10)|apply (digits_text_len _ _ _ 8)]; lia. }
  eexists. split; [done|]. split_and!; [apply emits_holds; [done|lia]|apply number_text_str; [done|lia]|done].
Qed.

Lemma kind_ok rflags R : let '(kind, specp, _) := resource_kind rflags R in str kind /\ zlen kind = 4 /\ resource_spec specp.
Proof.
  unfold resource_kind, resource_spec. repeat case_match; simplify_eq; (split; [repeat constructor; lia|split; [done|cbn; tauto]]).
Qed.

Lemma le32_ok m off : Forall is_byte m -> 0 <= off -> off + 4 <= zlen m -> exists v, le32 m off = Some v /\ 0 <= v < 2 ^ 32.
Proof.
  intros Hm Ho Hl. unfold le32. destruct (arr_get_byte m off Hm) as (b0 & -> & H0); [lia|].
  destruct (arr_get_byte m (off + 1) Hm) as (b1 & -> & H1); [lia|]. destruct (arr_get_byte m (off + 2) Hm) as (b2 & -> & H2); [lia|].
  destruct (arr_get_byte m (off + 3) Hm) as (b3 & -> & H3); [lia|]. rewrite !bind_Some. eexists. split; [done|]. unfold is_byte in *. lia.
Qed.

Lemma sym_size_eq : sym_size = 59.
Proof. done. Qed.

Lemma resource_end start rend spec l p : resource_spec spec -> 0 <= rend < 2 ^ 32 -> holds sym_size l p -> zlen l + 11 <= sym_size ->
  exists p', (if negb (start =? rend) then p ← push p 45; number p sym_size rend spec else Some p) = Some p' /\
    holds sym_size (l ++ end_text start rend spec) p' /\ str (end_text start rend spec) /\ zlen (end_text start rend spec) <= 11.
Proof.
  intros Hs Hr Hh Hl. unfold end_text. destruct (start =? rend); cbn [negb].
  { rewrite app_nil_r. exists p. split_and!; try done. constructor. }
  destruct (push_if_ok true 45 _ l p Hh) as (p1 & -> & H1); [done|lia|]. rewrite bind_Some.
  destruct (resource_number rend spec _ p1 Hs Hr H1) as (p2 & -> & H2 & S2 & L2); [rewrite zlen_app; unfold zlen at 2; cbn [length]; lia|].
  exists p2. rewrite <-app_assoc in H2. split_and!; [done..|apply str_cons; split; [lia|done]|rewrite zlen_cons; lia].
Qed.

Lemma if_text_len (b : bool) (t : list Z) : zlen (if b then t else []) <= zlen t.
Proof. destruct b; [done|apply zlen_nonneg]. Qed.

Lemma if_text_str (b : bool) t : str t -> str (if b then t else []).
Proof. intros H. destruct b; [done|constructor]. Qed.

Lemma resource_attr rflags (decode : bool) l p : 0 <= rflags < 2 ^ 32 -> holds sym_size l p -> zlen l + 27 <= sym_size ->
  exists p',
    (if decode then
       p ← (if has rflags IORESOURCE_MEM_64 then put_text p sym_size text_64bit else Some p);
       p ← (if has rflags IORESOURCE_PREFETCH then put_text p sym_size text_pref else Some p);
       p ← (if has rflags IORESOURCE_WINDOW then put_text p sym_size text_window else Some p);
       if has rflags IORESOURCE_DISABLED then put_text p sym_size text_disabled else Some p
     else p ← put_text p sym_size text_flags; number p sym_size rflags flag_spec) = Some p' /\
    holds sym_size (l ++ attr_text rflags decode) p' /\ str (attr_text rflags decode) /\ zlen (attr_text rflags decode) <= 27.
Proof.
  intros Hr Hh Hl. unfold attr_text. destruct decode.
  - pose proof (if_text_len (has rflags IORESOURCE_MEM_64) text_64bit) as L1. pose proof (if_text_len (has rflags IORESOURCE_PREFETCH) text_pref) as L2.
    pose proof (if_text_len (has rflags IORESOURCE_WINDOW) text_window) as L3. pose proof (if_text_len (has rflags IORESOURCE_DISABLED) text_disabled) as L4.
    change (zlen text_64bit) with 6 in L1. change (zlen text_pref) with 5 in L2. change (zlen text_window) with 7 in L3. change (zlen text_disabled) with 9 in L4.
    destruct (put_text_if_ok (has rflags IORESOURCE_MEM_64) text_64bit l p Hh) as (p1 & -> & H1);
      [repeat constructor; lia|done|change (zlen text_64bit) with 6; lia|]. rewrite bind_Some.
    destruct (put_text_if_ok (has rflags IORESOURCE_PREFETCH) text_pref _ p1 H1) as (p2 & -> & H2);
      [repeat constructor; lia|done|rewrite zlen_app; change (zlen text_pref) with 5; lia|]. rewrite bind_Some.
    destruct (put_text_if_ok (has rflags IORESOURCE_WINDOW) text_window _ p2 H2) as (p3 & -> & H3);
      [repeat constructor; lia|done|rewrite !zlen_app; change (zlen text_window) with 7; lia|]. rewrite bind_Some.
    destruct (put_text_if_ok (has rflags IORESOURCE_DISABLED) text_disabled _ p3 H3) as (p4 & -> & H4);
      [repeat constructor; lia|done|rewrite !zlen_app; change (zlen text_disabled) with 9; lia|].
    exists p4. rewrite <-!app_assoc in H4. split_and!; [done|done| |rewrite !zlen_app; lia].
    repeat (apply str_app; split); apply if_text_str; repeat constructor; lia.
  - destruct (put_text_if_ok true text_flags l p Hh) as (p1 & -> & H1); [repeat constructor; lia|done|change (zlen text_flags) with 7; lia|]. rewrite bind_Some.
    destruct (resource_number rflags flag_spec (l ++ text_flags) p1) as (p2 & -> & H2 & S2 & L2); [cbn; tauto|done|done|rewrite zlen_app; change (zlen text_flags) with 7; lia|].
    exists p2. rewrite <-app_assoc in H2. split_and!; [done|done|apply str_app; split; [repeat constructor; lia|done]|rewrite zlen_app; change (zlen text_flags) with 7; lia].
Qed.

Lemma resource_ok st end_ res spec f0 fmt start rend rflags : room end_ st -> string_spec_ok spec ->
  Forall is_byte res -> 16 <= zlen res -> le32 res 0 = Some start -> le32 res 4 = Some rend -> le32 res 12 = Some rflags ->
  resource_string st end_ res spec (f0 :: fmt) = Some (emits end_ (string_text (resource_text start rend rflags (f0 =? 82)) spec) st).
Proof.
  intros Hr Hs Hb Hl H0 H4 H12. unfold resource_string, resource_text. rewrite arr_get_0, bind_Some.
  destruct (le32_ok res 0 Hb) as (v0 & E0 & R0); [lia..|]. destruct (le32_ok res 4 Hb) as (v4 & E4 & R4); [lia..|].
  destruct (le32_ok res 12 Hb) as (v12 & E12 & R12); [lia..|]. rewrite H0 in E0. rewrite H4 in E4. rewrite H12 in E12.
  injection E0 as <-. injection E4 as <-. injection E12 as <-. pose proof sym_size_eq as Hsz.
  destruct (push_if_ok true 91 sym_size [] (repeat 0 (Z.to_nat sym_size), 0)) as (p1 & -> & P1); [done..|].
  rewrite bind_Some, H12, bind_Some. pose proof (kind_ok rflags (f0 =? 82)) as Hk.
  destruct (resource_kind rflags (f0 =? 82)) as [[kind specp] decode]. destruct Hk as (Hks & Hkl & Hsp). cbn [app] in P1.
  destruct (put_text_if_ok true kind _ p1 P1) as (p2 & -> & P2); [done|lia|change (zlen [91]) with 1; lia|]. rewrite bind_Some, H0, bind_Some.
  destruct (resource_number start specp _ p2 Hsp R0 P2) as (p3 & -> & P3 & S3 & L3); [rewrite zlen_app; change (zlen [91]) with 1; lia|].
  rewrite bind_Some, H4, bind_Some.
  destruct (resource_end start rend specp _ p3 Hsp R4 P3) as (p4 & -> & P4 & S4 & L4); [rewrite !zlen_app; change (zlen [91]) with 1; lia|].
  rewrite bind_Some.
  destruct (resource_attr rflags decode _ p4 R12 P4) as (p5 & -> & P5 & S5 & L5); [rewrite !zlen_app; change (zlen [91]) with 1; lia|].
  rewrite bind_Some. destruct (push_if_ok true 93 _ _ p5 P5) as (p6 & -> & P6); [done|rewrite !zlen_app; change (zlen [91]) with 1; lia|].
  rewrite bind_Some. apply (terminated_string sym_size); try done.
  - rewrite <-!app_assoc in P6. exact P6.
  - cbn [app]. rewrite zlen_cons, !zlen_app. change (zlen [93]) with 1. lia.
  - cbn [app]. apply str_cons. split; [lia|]. repeat (apply str_app; split); try done. repeat constructor; lia.
Qed.

(** ** Proofs: pointer() *)

Definition char_at (fmt : list Z) (k : Z) : Z := default 0 fmt.[k].

(** How many bytes a format reads through the pointer. *)
Definition bytes_read (fmt : list Z) : Z :=
  let f0 := char_at fmt 0 in
  let f1 := char_at fmt 1 in
  if (f0 =? 82) || (f0 =? 114) || (f0 =? 85) then 16
  else if (f0 =? 77) || (f0 =? 109) then 6
  else if (f0 =? 73) || (f0 =? 105) then if f1 =? 54 then 16 else if f1 =? 52 then 4 else 0
  else 0.

Definition pointer_spec (spec : printf_spec) : printf_spec := set_hex (default_width (set_small spec) ZEROPAD).

(** The text that a pointer stands for in the format [fmt]. *)
Definition pointer_text (env : ptr_env) (fmt : list Z) (ptr : Z) (mem : list Z) (spec : printf_spec) (t : list Z) : Prop :=
  let f0 := char_at fmt 0 in
  let f1 := char_at fmt 1 in
  let f2 := char_at fmt 2 in
  let shows u := t = string_text u spec in
  let plain v := t = number_text v (pointer_spec spec) in
  if (ptr =? 0) && negb (f0 =? 75) then t = string_text [40; 110; 117; 108; 108; 41] (default_width spec 0)
  else if (f0 =? 70) || (f0 =? 102) || (f0 =? 83) || (f0 =? 115) || (f0 =? 66) then shows (symbol_text env ptr f0)
  else if (f0 =? 82) || (f0 =? 114) then
    exists start rend rflags, le32 mem 0 = Some start /\ le32 mem 4 = Some rend /\ le32 mem 12 = Some rflags /\
      shows (resource_text start rend rflags (f0 =? 82))
  else if (f0 =? 77) || (f0 =? 109) then shows (mac_text (if f0 =? 77 then [if f1 =? 70 then 45 else 58] else []) mem)
  else if (f0 =? 73) || (f0 =? 105) then
    if f1 =? 54 then
      if (f0 =? 73) && (f2 =? 99) then exists u, short_form (hex_part (take 16 mem)) (quad_part (take 16 mem)) u /\ shows u
      else shows (ip6_text (f0 =? 73) mem)
    else if f1 =? 52 then shows (ip4_text (f0 =? 105) ((f2 =? 104) || (f2 =? 108)) mem)
    else plain ptr
  else if f0 =? 85 then shows (uuid_full f1 mem)
  else if f0 =? 86 then False
  else if f0 =? 75 then
    if in_interrupt env then t = string_text text_pK_error (default_width spec 0)
    else plain (if (kptr_restrict env =? 0) || ((kptr_restrict env =? 1) && has_cap_syslog env) then ptr else 0)
  else plain ptr.

(** What the formats rely on: names are texts, and the memory can be read. *)
Record pointer_pre (env : ptr_env) (fmt : list Z) (ptr : Z) (mem : list Z) (spec : printf_spec) : Prop := {
  pre_symbol : forall v ext, str (symbol_text env v ext) /\ zlen (symbol_text env v ext) < 2 ^ 31;
  pre_fmt : exists w rest, fmt = w ++ 0 :: rest /\ str w;
  pre_ptr : 0 <= ptr < 2 ^ 32;
  pre_bytes : Forall is_byte mem;
  pre_mem : ptr <> 0 -> bytes_read fmt <= zlen mem;
  pre_spec : string_spec_ok spec;
  pre_widths : widths_ok (pointer_spec spec);
  pre_format : char_at fmt 0 <> 86
}.

Lemma default_width_ok spec extra : string_spec_ok spec -> string_spec_ok (default_width spec extra).
Proof. unfold string_spec_ok, default_width. case_match; cbn; lia. Qed.

(** The characters of a format, up to its terminator. *)
Lemma fmt_chars w rest : str w -> let fmt := w ++ 0 :: rest in
  fmt.[0] = Some (char_at fmt 0) /\ (char_at fmt 0 <> 0 -> exists r, fmt = char_at fmt 0 :: char_at fmt 1 :: r) /\
  (char_at fmt 0 <> 0 -> char_at fmt 1 <> 0 -> exists r, fmt = char_at fmt 0 :: char_at fmt 1 :: char_at fmt 2 :: r).
Proof.
  intros Hw fmt. unfold fmt. destruct w as [|c0 [|c1 [|c2 w]]]; (split; [done|]).
  - split; intros H; by destruct H.
  - split; [by exists rest|]. intros _ H. by destruct H.
  - split; [by exists (0 :: rest)|by exists rest].
  - split; [by exists (c2 :: w ++ 0 :: rest)|by exists (w ++ 0 :: rest)].
Qed.

Lemma plain_pointer_ok st end_ v spec : room end_ st -> 0 <= v < 2 ^ 32 -> widths_ok (pointer_spec spec) ->
  plain_pointer st end_ v spec = Some (emits end_ (number_text v (pointer_spec spec)) st).
Proof. intros Hr Hv Hw. apply number_ok; try done; [by right; right|lia]. Qed.

Lemma join_digits_str sep lz bs : str sep -> Forall is_byte bs -> str (join sep (quad_text lz <$> bs)).
Proof.
  intros Hs Hb. apply join_str; [done|]. apply Forall_fmap. eapply Forall_impl; [|exact Hb]. intros b Hbb. unfold compose, quad_text, is_byte in *.
  apply str_app. split; [|apply digits_text_str; (auto || lia)]. destruct lz; [apply repeat_str; lia|constructor].
Qed.

Lemma ip4_str lz rv addr : Forall is_byte addr -> str (ip4_text lz rv addr).
Proof.
  intros Ha. apply join_digits_str; [repeat constructor; lia|]. destruct rv; [apply Forall_rev|]; by apply Forall_take.
Qed.

Lemma ended_string n t p st end_ spec : ended n t p -> n < 2 ^ 31 -> str t -> room end_ st -> string_spec_ok spec ->
  local_string st end_ (fst p) spec = Some (emits end_ (string_text t spec) st).
Proof.
  intros [Hh [rest ->]] Hn Ht Hr Hs. destruct Hh as (_ & Htk & Hl). apply local_string_ok; try done.
  rewrite <-Htk. unfold zlen in *. rewrite length_take. lia.
Qed.

Lemma ip4_ok st end_ addr spec f0 f1 f2 fmt : room end_ st -> string_spec_ok spec -> Forall is_byte addr -> 4 <= zlen addr ->
  ip4_addr_string st end_ addr spec (f0 :: f1 :: f2 :: fmt) =
  Some (emits end_ (string_text (ip4_text (f0 =? 105) ((f2 =? 104) || (f2 =? 108)) addr) spec) st).
Proof.
  intros Hr Hs Ha Hl. unfold ip4_addr_string. pose proof (ip4_len (f0 =? 105) ((f2 =? 104) || (f2 =? 108)) addr Ha Hl) as Ht.
  destruct (ip4_string_ok 16 [] (repeat 0 16, 0) addr f0 f1 f2 fmt) as (p & -> & Hp); [done..|change (zlen []) with 0; lia|].
  rewrite bind_Some. eapply (ended_string 16); try done. by apply ip4_str.
Qed.

Lemma ip6_str c addr : Forall is_byte addr -> 16 <= zlen addr -> str (ip6_text c addr).
Proof.
  intros Ha Hl. apply join_str; [destruct c; repeat constructor; lia|]. apply Forall_fmap, Forall_forall. intros i Hi.
  apply in_seq in Hi. unfold compose.
  assert (Hb : forall k, (k < 16)%nat -> is_byte (addr !!! k)).
  { intros k Hk. destruct (lookup_lt_is_Some_2 addr k) as [b Hb]; [unfold zlen in Hl; lia|].
    rewrite (list_lookup_total_correct _ _ _ Hb). exact (Forall_lookup_1 _ _ _ _ Ha Hb). }
  apply str_app. split; apply hex2_str, Hb; lia.
Qed.

Lemma short_form_str ws tail t : Forall (fun w => 0 <= w < 65536) ws -> Forall str tail -> short_form ws tail t -> str t.
Proof.
  intros Hw Ht H. assert (Hc : str [58]) by (repeat constructor; lia).
  assert (Hx : forall l, Forall (fun w => 0 <= w < 65536) l -> Forall str (hexw <$> l)).
  { intros l Hl. apply Forall_fmap. eapply Forall_impl; [|exact Hl]. intros v Hv. by apply hexw_str. }
  destruct H.
  - apply join_str; [done|]. apply Forall_app. auto.
  - apply str_app. split; [apply join_str; [done|]; apply Hx; by apply Forall_take|]. cbn [app]. apply str_cons. split; [lia|].
    apply str_cons. split; [lia|]. apply join_str; [done|]. apply Forall_app. split; [|done]. apply Hx. by apply Forall_drop.
Qed.

Lemma hex_part_words a : Forall is_byte a -> zlen a = 16 -> Forall (fun w => 0 <= w < 65536) (hex_part a).
Proof.
  intros Ha Hl. unfold hex_part. destruct (embeds_ip4 a); [apply (ws_words a 6)|apply (ws_words a 8)]; auto.
Qed.

Lemma ip6_ok addr spec f0 f1 f2 fmt : string_spec_ok spec -> Forall is_byte addr -> 16 <= zlen addr ->
  exists u, (if (f0 =? 73) && (f2 =? 99) then short_form (hex_part (take 16 addr)) (quad_part (take 16 addr)) u else u = ip6_text (f0 =? 73) addr) /\
    forall st end_, room end_ st -> ip6_addr_string st end_ addr spec (f0 :: f1 :: f2 :: fmt) = Some (emits end_ (string_text u spec) st).
Proof.
  intros Hs Ha Hl. unfold ip6_addr_string. rewrite arr_get_0. change (_.[2]) with (Some f2). setoid_rewrite bind_Some.
  assert (Hf2 : (if f0 =? 73 then Some f2 else Some 0) = Some (if f0 =? 73 then f2 else 0)) by (by destruct (f0 =? 73)). rewrite Hf2. setoid_rewrite bind_Some.
  assert (Hsel : (f0 =? 73) && ((if f0 =? 73 then f2 else 0) =? 99) = (f0 =? 73) && (f2 =? 99)) by (by destruct (f0 =? 73)). rewrite Hsel.
  assert (Hta : Forall is_byte (take 16 addr)) by by apply Forall_take.
  assert (Htl : zlen (take 16 addr) = 16) by (apply (zlen_take addr 16); lia).
  destruct ((f0 =? 73) && (f2 =? 99)).
  - destruct (ip6_compressed_ok addr (repeat 0 46, 0)) as (p & u & -> & Hp & Hu & Hsf); [done..|]. exists u. split; [done|].
    intros st end_ Hr. rewrite bind_Some. apply (ended_string 46); try done. eapply short_form_str; [| |exact Hsf].
    + by apply hex_part_words.
    + unfold quad_part. destruct (embeds_ip4 (take 16 addr)); [|constructor]. apply List.Forall_cons; [|constructor].
      apply ip4_str. by apply Forall_drop.
  - exists (ip6_text (f0 =? 73) addr). split; [done|]. intros st end_ Hr. destruct (ip6_pieces addr (f0 =? 73) Hl) as [_ Hil].
    destruct (ip6_string_ok 46 [] (repeat 0 46, 0) addr f0 (f1 :: f2 :: fmt)) as (p & -> & Hp); [done..|].
    rewrite bind_Some. apply (ended_string 46); try done. by apply ip6_str.
Qed.

Lemma pointer_ok env fmt ptr mem spec : pointer_pre env fmt ptr mem spec ->
  exists t, pointer_text env fmt ptr mem spec t /\
    forall st end_, room end_ st -> pointer env fmt st end_ ptr mem spec = Some (emits end_ t st).
Proof.
  intros [Hsym (w & rest & -> & Hw) Hptr Hbytes Hmem Hs Hwd HV]. destruct (fmt_chars w rest Hw) as (H0 & H1 & H2).
  set (fmt := w ++ 0 :: rest) in *. unfold pointer, pointer_text, bytes_read in *. rewrite H0. setoid_rewrite bind_Some.
  set (f0 := char_at fmt 0) in *. set (f1 := char_at fmt 1) in *. set (f2 := char_at fmt 2) in *.
  destruct ((ptr =? 0) && negb (f0 =? 75)) eqn:Hnull.
  { eexists. split; [done|]. intros st end_ Hr. apply (local_string_ok st end_ [40; 110; 117; 108; 108; 41] []); try done.
    - repeat constructor; lia.
    - by apply default_width_ok. }
  assert (Hnz : negb (f0 =? 75) = true -> ptr <> 0).
  { intros Hk ->. rewrite Hk in Hnull. done. }
  destruct ((f0 =? 70) || (f0 =? 102) || (f0 =? 83) || (f0 =? 115) || (f0 =? 66)) eqn:Hsy.
  { eexists. split; [done|]. intros st end_ Hr. destruct (Hsym ptr f0) as [Hs1 Hs2]. by apply local_string_ok. }
  destruct ((f0 =? 82) || (f0 =? 114)) eqn:HR; [|destruct ((f0 =? 77) || (f0 =? 109)) eqn:HM; [|destruct ((f0 =? 73) || (f0 =? 105)) eqn:HI]].
  - rewrite orb_true_iff, !Z.eqb_eq in HR. assert (Hm : 16 <= zlen mem) by (apply Hmem, Hnz; bcases; done).
    destruct H1 as [r Hfmt]; [lia|]. destruct (le32_ok mem 0 Hbytes) as (v0 & E0 & _); [lia..|].
    destruct (le32_ok mem 4 Hbytes) as (v4 & E4 & _); [lia..|]. destruct (le32_ok mem 12 Hbytes) as (v12 & E12 & _); [lia..|].
    eexists. split; [exists v0, v4, v12; split_and!; done|]. intros st end_ Hr. rewrite Hfmt. by apply resource_ok.
  - rewrite orb_true_iff, !Z.eqb_eq in HM. destruct H1 as [r Hfmt]; [lia|]. eexists. split; [done|]. intros st end_ Hr. rewrite Hfmt.
    apply mac_ok; try done. rewrite (proj2 (Z.eqb_neq f0 85)) in Hmem by lia. apply Hmem, Hnz. bcases; done.
  - rewrite orb_true_iff, !Z.eqb_eq in HI. destruct H1 as [r Hfmt]; [lia|].
    assert (Hg1 : fmt.[1] = Some f1) by (by rewrite Hfmt). rewrite Hg1. setoid_rewrite bind_Some.
    specialize (Hmem (Hnz ltac:(bcases; done))). rewrite (proj2 (Z.eqb_neq f0 85)), orb_false_l in Hmem by lia.
    destruct (Z.eqb_spec f1 54) as [H6|H6]; [|destruct (Z.eqb_spec f1 52) as [H4|H4]].
    + destruct H2 as [r2 Hfmt2]; [lia..|]. destruct (ip6_ok mem spec f0 f1 f2 r2 Hs Hbytes Hmem) as (u & Hu & Ho).
      exists (string_text u spec). split; [|intros st end_ Hr; rewrite Hfmt2; by apply Ho].
      destruct ((f0 =? 73) && (f2 =? 99)); [by exists u|by rewrite Hu].
    + destruct H2 as [r2 Hfmt2]; [lia..|]. eexists. split; [done|]. intros st end_ Hr. rewrite Hfmt2. by apply ip4_ok.
    + eexists. split; [done|]. intros st end_ Hr. by apply plain_pointer_ok.
  - destruct (Z.eqb_spec f0 85) as [HU|_]; [|rewrite (proj2 (Z.eqb_neq f0 86)) by done; destruct (f0 =? 75)].
    + destruct H1 as [r Hfmt]; [lia|]. eexists. split; [done|]. intros st end_ Hr. rewrite Hfmt. apply uuid_ok; try done.
      apply Hmem, Hnz. bcases; done.
    + destruct (in_interrupt env); eexists; (split; [done|]); intros st end_ Hr.
      * apply local_string_ok; try done; [repeat constructor; lia|by apply default_width_ok].
      * apply plain_pointer_ok; try done. match goal with |- 0 <= (if ?b then _ else _) < _ => destruct b end; lia.
    + eexists. split; [done|]. intros st end_ Hr. by apply plain_pointer_ok.
Qed.

(** There is one short form. *)
Lemma short_form_unique ws tail t t' : short_form ws tail t -> short_form ws tail t' -> t = t'.
Proof.
  intros [Hp|pos n Hn Hmax Hfst]; intros [Hp'|pos' n' Hn' Hmax' Hfst']; [done|..].
  - specialize (Hp pos'). lia.
  - specialize (Hp' pos). lia.
  - assert (pos = pos') as <-; [|done].
    destruct (Nat.lt_trichotomy pos pos') as [H|[H|H]]; [|done|].
    + specialize (Hfst' _ H). specialize (Hmax pos'). lia.
    + specialize (Hfst _ H). specialize (Hmax' pos). lia.
Qed.

Lemma pointer_text_unique env fmt ptr mem spec t t' :
  pointer_text env fmt ptr mem spec t -> pointer_text env fmt ptr mem spec t' -> t = t'.
Proof.
  unfold pointer_text. repeat match goal with |- context [if ?b then _ else _] => destruct b end; try congruence.
  - intros (a & b & c & Ha & Hb & Hc & ->) (a' & b' & c' & Ha' & Hb' & Hc' & ->). congruence.
  - intros (u & Hu & ->) (u' & Hu' & ->). by rewrite (short_form_unique _ _ _ _ Hu Hu').
  - done.
Qed.

Lemma pointer_prints_text env fmt ptr mem spec t st end_ : pointer_pre env fmt ptr mem spec ->
  pointer_text env fmt ptr mem spec t -> room end_ st ->
  pointer env fmt st end_ ptr mem spec = Some (emits end_ t st).
Proof.
  intros Hpre Ht Hr. destruct (pointer_ok _ _ _ _ _ Hpre) as (t' & Ht' & Ho).
  rewrite (pointer_text_unique _ _ _ _ _ _ _ Ht Ht'). by apply Ho.
Qed.

(** ** The property *)

(** pointer() prints, for every format letter except V, the text of what the
    pointer refers to - a symbol, a resource, a MAC, IPv4, IPv6 or UUID address, the IPv6
    address in its unique shortest form - or the address itself; the characters
    stay within its local arrays and below [end_]. *)
Theorem pointer_prints env fmt ptr mem spec : pointer_pre env fmt ptr mem spec ->
  exists t, (forall t', pointer_text env fmt ptr mem spec t' <-> t' = t) /\
    forall st end_, room end_ st -> pointer env fmt st end_ ptr mem spec = Some (emits end_ t st).
Proof.
  intros Hpre. destruct (pointer_ok _ _ _ _ _ Hpre) as (t & Ht & Ho). exists t. split; [|exact Ho].
  intros t'. split; [|by intros ->]. intros Ht'. by apply (pointer_text_unique _ _ _ _ _ _ _ Ht' Ht).
Qed.

(** %pI6c of fe80::1 *)
Lemma pointer_prints_witness :
  let env := {| symbol_text := fun _ _ => []; kptr_restrict := 0; has_cap_syslog := true; in_interrupt := false |} in
  let spec := {| type := FORMAT_TYPE_PTR; flags := 0; base := 10; qualifier := 255; field_width := -1; precision := -1 |} in
  let addr := [254; 128; 0; 0; 0; 0; 0; 0; 0; 0; 0; 0; 0; 0; 0; 1] in
  exists t, pointer_text env [73; 54; 99; 0] 8192 addr spec t /\
    pointer env [73; 54; 99; 0] ([9; 9; 9; 9; 9; 9; 9; 9], 0) 8 8192 addr spec = Some (emits 8 t ([9; 9; 9; 9; 9; 9; 9; 9], 0)).
Proof.
  intros env spec addr. destruct (pointer_prints env [73; 54; 99; 0] 8192 addr spec) as (t & Ht & Ho).
  - split; try done; try lia.
    + intros v ext. split; [constructor|done].
    + exists [73; 54; 99], []. split; [done|]. repeat constructor.
    + repeat constructor; unfold is_byte; lia.
  - exists t. split; [by apply Ht|]. apply Ho. by vm_compute.
Defined.
