(* ===== verification/Vsprintf.v ===== *)
(** * Formatted output: format_decode(), vsnprintf() and its callers in lib/vsprintf.c

    The variable arguments are a list; reading one as another type than the
    one passed has no result.  On the 32-bit target int, long, size_t and
    pointers are passed as one word, so [AWord] stands for all integers of
    up to 32 bits.  A format is the list of its characters from the current
    one to the terminator and beyond.

    [formats] is what a format and its arguments mean: a text, and the values
    stored by %n.  The main theorem is that vsnprintf() produces this text,
    cut to the size of the buffer and terminated, and writes nothing else. *)

From S2P Require Import Prelude Div64 CString Kstrtox VsprintfNum VsprintfPtr.

(** ** Definitions *)

Inductive arg :=
| AWord (x : Z)
| ALongLong (x : Z)
| APtr (addr : Z) (mem : list Z).

Definition arg_word (args : list arg) : option (Z * list arg) :=
  match args with AWord x :: args' => Some (x, args') | _ => None end.
Definition arg_long_long (args : list arg) : option (Z * list arg) :=
  match args with ALongLong x :: args' => Some (x, args') | _ => None end.
Definition arg_ptr (args : list arg) : option (Z * list Z * list arg) :=
  match args with APtr addr mem :: args' => Some (addr, mem, args') | _ => None end.

(** *** Parsing a conversion: [n] characters have been read so far *)

Fixpoint skip_atoi (s : list Z) (i n : Z) : option (Z * list Z * Z) :=
  match s with
  | c :: s' => if isdigit c then skip_atoi s' (s32 (i * 10 + c - 48)) (n + 1) else Some (i, s, n)
  | [] => None
  end.

Definition set_type (spec : printf_spec) (x : format_type) : printf_spec :=
  {| type := x; flags := flags spec; base := base spec; qualifier := qualifier spec;
     field_width := field_width spec; precision := precision spec |}.
Definition set_flags (spec : printf_spec) (x : Z) : printf_spec :=
  {| type := type spec; flags := x; base := base spec; qualifier := qualifier spec;
     field_width := field_width spec; precision := precision spec |}.
Definition set_base (spec : printf_spec) (x : Z) : printf_spec :=
  {| type := type spec; flags := flags spec; base := x; qualifier := qualifier spec;
     field_width := field_width spec; precision := precision spec |}.
Definition set_qualifier (spec : printf_spec) (x : Z) : printf_spec :=
  {| type := type spec; flags := flags spec; base := base spec; qualifier := x;
     field_width := field_width spec; precision := precision spec |}.
Definition set_field_width (spec : printf_spec) (x : Z) : printf_spec :=
  {| type := type spec; flags := flags spec; base := base spec; qualifier := qualifier spec;
     field_width := x; precision := precision spec |}.
Definition set_precision (spec : printf_spec) (x : Z) : printf_spec :=
  {| type := type spec; flags := flags spec; base := base spec; qualifier := qualifier spec;
     field_width := field_width spec; precision := x |}.

(** The type of an integer conversion. *)
Definition integer_type (spec : printf_spec) : format_type :=
  let q := qualifier spec in
  let signed := has (flags spec) SIGN in
  if q =? 76 (* L *) then FORMAT_TYPE_LONG_LONG
  else if q =? 108 (* l *) then if signed then FORMAT_TYPE_LONG else FORMAT_TYPE_ULONG
  else if _tolower q =? 122 (* z *) then FORMAT_TYPE_SIZE_T
  else if q =? 116 (* t *) then FORMAT_TYPE_PTRDIFF
  else if q =? 72 (* H *) then if signed then FORMAT_TYPE_BYTE else FORMAT_TYPE_UBYTE
  else if q =? 104 (* h *) then if signed then FORMAT_TYPE_SHORT else FORMAT_TYPE_USHORT
  else if signed then FORMAT_TYPE_INT else FORMAT_TYPE_UINT.

Definition decode_type (fmt : list Z) (n : Z) (spec : printf_spec) : option (Z * printf_spec) :=
  let spec := set_base spec 10 in
  c ← fmt.[0];
  let integer spec := Some (n + 1, set_type spec (integer_type spec)) in
  if c =? 99 (* c *) then Some (n + 1, set_type spec FORMAT_TYPE_CHAR)
  else if c =? 115 (* s *) then Some (n + 1, set_type spec FORMAT_TYPE_STR)
  else if c =? 112 (* p *) then Some (n, set_type spec FORMAT_TYPE_PTR)
  else if c =? 110 (* n *) then Some (n + 1, set_type spec FORMAT_TYPE_NRCHARS)
  else if c =? 37 (* % *) then Some (n + 1, set_type spec FORMAT_TYPE_PERCENT_CHAR)
  else if c =? 111 (* o *) then integer (set_base spec 8)
  else if c =? 120 (* x *) then integer (set_base (set_flags spec (Z.lor (flags spec) SMALL)) 16)
  else if c =? 88 (* X *) then integer (set_base spec 16)
  else if (c =? 100 (* d *)) || (c =? 105 (* i *)) then integer (set_flags spec (Z.lor (flags spec) SIGN))
  else if c =? 117 (* u *) then integer spec
  else Some (n, set_type spec FORMAT_TYPE_INVALID).

(** [qualifier] is a u8, so -1 is 255. *)
Definition decode_qualifier (fmt : list Z) (n : Z) (spec : printf_spec) : option (Z * printf_spec) :=
  c ← fmt.[0];
  if (c =? 104 (* h *)) || (_tolower c =? 108 (* l *)) || (_tolower c =? 122 (* z *)) || (c =? 116 (* t *)) then
    c' ← fmt.[1];
    if (c =? c') && (c =? 108) then decode_type (drop 2 fmt) (n + 2) (set_qualifier spec 76)
    else if (c =? c') && (c =? 104) then decode_type (drop 2 fmt) (n + 2) (set_qualifier spec 72)
    else decode_type (drop 1 fmt) (n + 1) (set_qualifier spec c)
  else decode_type fmt n (set_qualifier spec 255).

Definition decode_precision (fmt : list Z) (n : Z) (spec : printf_spec) : option (Z * printf_spec) :=
  let spec := set_precision spec (-1) in
  c ← fmt.[0];
  if c =? 46 (* . *) then
    c' ← fmt.[1];
    if isdigit c' then
      r ← skip_atoi (drop 1 fmt) 0 (n + 1);
      let '(i, fmt, n) := r in
      let p := s16 i in
      decode_qualifier fmt n (set_precision spec (if p <? 0 then 0 else p))
    else if c' =? 42 (* * *) then Some (n + 2, set_type spec FORMAT_TYPE_PRECISION)
    else decode_qualifier (drop 1 fmt) (n + 1) spec
  else decode_qualifier fmt n spec.

(** The characters before the next conversion. *)
Fixpoint literal_len (fmt : list Z) (n : Z) : option Z :=
  match fmt with
  | c :: fmt' => if (c =? 0) || (c =? 37) then Some n else literal_len fmt' (n + 1)
  | [] => None
  end.

Definition flag_of (c : Z) : option Z :=
  if c =? 45 (* - *) then Some LEFT
  else if c =? 43 (* + *) then Some PLUS
  else if c =? 32 then Some SPACE
  else if c =? 35 (* # *) then Some SPECIAL
  else if c =? 48 (* 0 *) then Some ZEROPAD
  else None.

Fixpoint decode_flags (fmt : list Z) (fl n : Z) : option (Z * list Z * Z) :=
  match fmt with
  | c :: fmt' =>
      match flag_of c with
      | Some bit => decode_flags fmt' (Z.lor fl bit) (n + 1)
      | None => Some (fl, fmt, n)
      end
  | [] => None
  end.

Definition format_decode (fmt : list Z) (spec : printf_spec) : option (Z * printf_spec) :=
  if decide (type spec = FORMAT_TYPE_WIDTH) then
    let spec :=
      if field_width spec <? 0
      then set_flags (set_field_width spec (s16 (- field_width spec))) (Z.lor (flags spec) LEFT)
      else spec in
    decode_precision fmt 0 (set_type spec FORMAT_TYPE_NONE)
  else if decide (type spec = FORMAT_TYPE_PRECISION) then
    let spec := if precision spec <? 0 then set_precision spec 0 else spec in
    decode_qualifier fmt 0 (set_type spec FORMAT_TYPE_NONE)
  else
    let spec := set_type spec FORMAT_TYPE_NONE in
    n ← literal_len fmt 0;
    c ← fmt.[n];
    if negb (n =? 0) || (c =? 0) then Some (n, spec)
    else
      r ← decode_flags (drop 1 fmt) 0 1;
      let '(fl, fmt, n) := r in
      let spec := set_field_width (set_flags spec fl) (-1) in
      c ← fmt.[0];
      if isdigit c then
        r ← skip_atoi fmt 0 n;
        let '(i, fmt, n) := r in
        decode_precision fmt n (set_field_width spec (s16 i))
      else if c =? 42 (* * *) then Some (n + 1, set_type spec FORMAT_TYPE_WIDTH)
      else decode_precision fmt n spec.

(** *** vsnprintf() *)

(** [while (--spec.field_width > 0)] *)
Definition char_pad_body (end_ : Z) (st : list Z * Z * Z) : option (step (list Z * Z * Z) (list Z * Z * Z)) :=
  let '(str, width) := st in
  let width := s16 (width - 1) in
  if 0 <? width then str ← put end_ 32 str; Some (Next (str, width)) else Some (Done (str, width)).
Definition char_pad (end_ : Z) (str : list Z * Z) (width : Z) : option (list Z * Z * Z) :=
  loop (char_pad_body end_) (2 ^ 16 + 1) (str, width).

Definition put_char (end_ c : Z) (str : list Z * Z) (spec : printf_spec) : option (list Z * Z * Z) :=
  r ← (if negb (has (flags spec) LEFT) then char_pad end_ str (field_width spec) else Some (str, field_width spec));
  let '(str, width) := r in
  str ← put end_ (u8 c) str;
  char_pad end_ str width.

(** The characters between conversions. *)
Definition put_literal (end_ : Z) (old_fmt : list Z) (read : Z) (str : list Z * Z) : option (list Z * Z) :=
  let '(m, i) := str in
  if i <? end_ then
    m ← at_off m i (fun p => memcpy p old_fmt (if end_ - i <? read then end_ - i else read));
    Some (m, i + read)
  else Some (m, i + read).

(** The value of an integer conversion, as an unsigned long long. *)
Definition integer_arg (ty : format_type) (args : list arg) : option (Z * list arg) :=
  if decide (ty = FORMAT_TYPE_LONG_LONG) then r ← arg_long_long args; Some (u64 (fst r), snd r)
  else
    r ← arg_word args;
    let '(x, args) := r in
    Some (u64 (match ty with
               | FORMAT_TYPE_ULONG | FORMAT_TYPE_SIZE_T => ulong x
               | FORMAT_TYPE_LONG | FORMAT_TYPE_PTRDIFF => s32 x
               | FORMAT_TYPE_UBYTE => u8 x
               | FORMAT_TYPE_BYTE => s8 x
               | FORMAT_TYPE_USHORT => u16 x
               | FORMAT_TYPE_SHORT => s16 x
               | FORMAT_TYPE_INT => s32 x
               | _ => u32 x
               end), args).

Fixpoint skip_alnum (fmt : list Z) : option (list Z) :=
  match fmt with
  | c :: fmt' => if isalnum c then skip_alnum fmt' else Some fmt
  | [] => None
  end.

(** The state of the loop: the rest of the format, the arguments that are
    left, the specification, the output, and the values stored through the
    pointers of %n so far (all three kinds of %n store 32 bits). *)
Record printf_state := {
  p_fmt : list Z;
  p_args : list arg;
  p_spec : printf_spec;
  p_str : list Z * Z;
  p_stores : list (Z * Z)
}.

Definition convert (env : ptr_env) (end_ : Z) (old_fmt fmt : list Z) (read : Z) (args : list arg) (spec : printf_spec)
    (str : list Z * Z) (stores : list (Z * Z)) : option printf_state :=
  let next fmt args spec str stores :=
    {| p_fmt := fmt; p_args := args; p_spec := spec; p_str := str; p_stores := stores |} in
  match type spec with
  | FORMAT_TYPE_NONE =>
      str ← put_literal end_ old_fmt read str;
      Some (next fmt args spec str stores)
  | FORMAT_TYPE_WIDTH =>
      r ← arg_word args;
      Some (next fmt (snd r) (set_field_width spec (s16 (fst r))) str stores)
  | FORMAT_TYPE_PRECISION =>
      r ← arg_word args;
      Some (next fmt (snd r) (set_precision spec (s16 (fst r))) str stores)
  | FORMAT_TYPE_CHAR =>
      a ← arg_word args;
      r ← put_char end_ (fst a) str spec;
      let '(str, width) := r in
      Some (next fmt (snd a) (set_field_width spec width) str stores)
  | FORMAT_TYPE_STR =>
      a ← arg_ptr args;
      let '(addr, mem, args) := a in
      str ← string str end_ addr mem spec;
      Some (next fmt args spec str stores)
  | FORMAT_TYPE_PTR =>
      a ← arg_ptr args;
      let '(addr, mem, args) := a in
      str ← pointer env (drop 1 fmt) str end_ addr mem spec;
      fmt ← skip_alnum fmt;
      Some (next fmt args spec str stores)
  | FORMAT_TYPE_PERCENT_CHAR | FORMAT_TYPE_INVALID =>
      str ← put end_ 37 str;
      Some (next fmt args spec str stores)
  | FORMAT_TYPE_NRCHARS =>
      a ← arg_ptr args;
      let '(addr, _, args) := a in
      Some (next fmt args spec str (stores ++ [(addr, snd str)]))
  | _ =>
      a ← integer_arg (type spec) args;
      str ← number str end_ (fst a) spec;
      Some (next fmt (snd a) spec str stores)
  end.

Definition printf_body (env : ptr_env) (end_ : Z) (s : printf_state) : option (step printf_state printf_state) :=
  c ← (p_fmt s).[0];
  if c =? 0 then Some (Done s)
  else
    r ← format_decode (p_fmt s) (p_spec s);
    let '(read, spec) := r in
    s' ← convert env end_ (p_fmt s) (drop (Z.to_nat read) (p_fmt s)) read (p_args s) spec (p_str s) (p_stores s);
    Some (Next s').

Definition spec_0 : printf_spec :=
  {| type := FORMAT_TYPE_NONE; flags := 0; base := 0; qualifier := 0; field_width := 0; precision := 0 |}.

(** [buf] is the memory at the address [baddr].  A conversion reads a
    character unless the one before it was a width or a precision, so
    that the loop makes at most two rounds for each character. *)
Definition vsnprintf (env : ptr_env) (buf : list Z) (baddr size : Z) (fmt : list Z) (args : list arg) :
    option (list Z * Z * list (Z * Z)) :=
  if s32 size <? 0 then Some (buf, 0, [])
  else
    let size := if 2 ^ 32 <=? baddr + size then 2 ^ 32 - 1 - baddr else size in
    let end_ := size in
    s ← loop (printf_body env end_) (2 * zlen fmt + 2)
          {| p_fmt := fmt; p_args := args; p_spec := spec_0; p_str := (buf, 0); p_stores := [] |};
    let '(m, str) := p_str s in
    m ← (if 0 <? size then if str <? end_ then m.[str <- 0] else m.[end_ - 1 <- 0] else Some m);
    Some (m, s32 str, p_stores s).

(** The comparison of the int result with the size is unsigned. *)
Definition vscnprintf (env : ptr_env) (buf : list Z) (baddr size : Z) (fmt : list Z) (args : list arg) :
    option (list Z * Z * list (Z * Z)) :=
  r ← vsnprintf env buf baddr size fmt args;
  let '(m, i, stores) := r in
  if ulong i <? size then Some (m, i, stores)
  else if negb (size =? 0) then Some (m, s32 (size - 1), stores)
  else Some (m, 0, stores).

(** The functions with variable arguments pass them on. *)
Definition snprintf := vsnprintf.
Definition scnprintf := vscnprintf.
Definition vsprintf (env : ptr_env) (buf : list Z) (baddr : Z) := vsnprintf env buf baddr (2 ^ 31 - 1).
Definition sprintf := vsprintf.

(** ** What a format means *)

Definition char_text (x : Z) (spec : printf_spec) : list Z :=
  if has (flags spec) LEFT then u8 x :: spaces (field_width spec - 1) else spaces (field_width spec - 1) ++ [u8 x].

(** The width that is left over, which nothing prints. *)
Definition char_rest (spec : printf_spec) : Z :=
  let rest w := Z.min (w - 1) 0 in
  if has (flags spec) LEFT then rest (field_width spec) else rest (rest (field_width spec)).

Definition integer_conversion (ty : format_type) : bool :=
  match ty with
  | FORMAT_TYPE_NONE | FORMAT_TYPE_WIDTH | FORMAT_TYPE_PRECISION | FORMAT_TYPE_CHAR | FORMAT_TYPE_STR | FORMAT_TYPE_PTR
  | FORMAT_TYPE_PERCENT_CHAR | FORMAT_TYPE_INVALID | FORMAT_TYPE_NRCHARS => false
  | _ => true
  end.

(** One part of a format, of [read] characters: its text, the values it
    stores, and what follows it.  Widths and precisions that do not fit in
    the 16-bit counters are left out. *)
Inductive converts (env : ptr_env) (old_fmt : list Z) (read pos : Z) :
    list Z -> list arg -> printf_spec -> list Z -> list (Z * Z) -> list Z -> list arg -> printf_spec -> Prop :=
| conv_literal fmt args spec : type spec = FORMAT_TYPE_NONE ->
    converts env old_fmt read pos fmt args spec (take (Z.to_nat read) old_fmt) [] fmt args spec
| conv_width fmt args spec x : type spec = FORMAT_TYPE_WIDTH ->
    converts env old_fmt read pos fmt (AWord x :: args) spec [] [] fmt args (set_field_width spec (s16 x))
| conv_precision fmt args spec x : type spec = FORMAT_TYPE_PRECISION ->
    converts env old_fmt read pos fmt (AWord x :: args) spec [] [] fmt args (set_precision spec (s16 x))
| conv_char fmt args spec x : type spec = FORMAT_TYPE_CHAR -> - 2 ^ 15 + 2 <= field_width spec < 2 ^ 15 ->
    converts env old_fmt read pos fmt (AWord x :: args) spec (char_text x spec) [] fmt args
      (set_field_width spec (char_rest spec))
| conv_string fmt args spec addr t rest : type spec = FORMAT_TYPE_STR -> string_spec_ok spec ->
    PAGE_SIZE <= addr -> str t -> zlen t < 2 ^ 31 ->
    converts env old_fmt read pos fmt (APtr addr (t ++ 0 :: rest) :: args) spec (string_text t spec) [] fmt args spec
| conv_null fmt args spec addr mem : type spec = FORMAT_TYPE_STR -> string_spec_ok spec -> addr < PAGE_SIZE ->
    converts env old_fmt read pos fmt (APtr addr mem :: args) spec (string_text [40; 110; 117; 108; 108; 41] spec) [] fmt args spec
| conv_pointer fmt fmt' args spec addr mem t : type spec = FORMAT_TYPE_PTR -> pointer_pre env (drop 1 fmt) addr mem spec ->
    pointer_text env (drop 1 fmt) addr mem spec t -> skip_alnum fmt = Some fmt' ->
    converts env old_fmt read pos fmt (APtr addr mem :: args) spec t [] fmt' args spec
| conv_percent fmt args spec : type spec = FORMAT_TYPE_PERCENT_CHAR \/ type spec = FORMAT_TYPE_INVALID ->
    converts env old_fmt read pos fmt args spec [37] [] fmt args spec
| conv_nrchars fmt args spec addr mem : type spec = FORMAT_TYPE_NRCHARS ->
    converts env old_fmt read pos fmt (APtr addr mem :: args) spec [] [(addr, pos)] fmt args spec
| conv_integer fmt args args' spec num : integer_conversion (type spec) = true -> widths_ok spec ->
    integer_arg (type spec) args = Some (num, args') ->
    converts env old_fmt read pos fmt args spec (number_text num spec) [] fmt args' spec.

(** A format from [pos] characters of output on, whose parts satisfy [P]. *)
Inductive formats_with (env : ptr_env) (P : printf_spec -> list arg -> Prop) :
    Z -> list Z -> list arg -> printf_spec -> list Z -> list (Z * Z) -> Prop :=
| formats_end pos rest args spec : formats_with env P pos (0 :: rest) args spec [] []
| formats_part pos c rest args spec read spec' t st fmt' args' spec'' text stores :
    c <> 0 -> format_decode (c :: rest) spec = Some (read, spec') -> P spec' args ->
    converts env (c :: rest) read pos (drop (Z.to_nat read) (c :: rest)) args spec' t st fmt' args' spec'' ->
    formats_with env P (pos + zlen t) fmt' args' spec'' text stores ->
    formats_with env P pos (c :: rest) args spec (t ++ text) (st ++ stores).

Definition formats (env : ptr_env) := formats_with env (fun _ _ => True).

(** A text in a buffer of [size] characters. *)
Definition cut (buf : list Z) (size : Z) (t : list Z) : list Z :=
  if size =? 0 then buf
  else take (Z.to_nat (size - 1)) t ++ 0 :: drop (Z.to_nat (Z.min (zlen t) (size - 1) + 1)) buf.

(** ** Proofs: the output *)

Lemma emits_full end_ t m i : end_ <= i -> emits end_ t (m, i) = (m, i + zlen t).
Proof.
  revert i. induction t as [|c t IH]; intros i Hi; cbn; [by rewrite Z.add_0_r|]. unfold emit at 2. cbn [fst snd].
  rewrite (proj2 (Z.ltb_ge i end_)) by lia. unfold emits in IH. rewrite IH by lia. rewrite zlen_cons. f_equal. lia.
Qed.

Lemma emits_memory end_ t m i : 0 <= i <= end_ -> end_ <= zlen m ->
  emits end_ t (m, i) =
    (take (Z.to_nat i) m ++ take (Z.to_nat (end_ - i)) t ++ drop (Z.to_nat (i + Z.min (zlen t) (end_ - i))) m, i + zlen t).
Proof.
  intros Hi He. unfold zlen in *. induction t as [|c t IH] using rev_ind.
  - rewrite take_nil. cbn. rewrite Z.min_l, Z.add_0_r by lia. by rewrite take_drop.
  - rewrite emits_snoc, IH, length_app. cbn [length]. unfold emit. cbn [fst snd]. f_equal; [|lia]. bcase.
    + rewrite !Z.min_l by lia. rewrite (take_ge t), (take_ge (t ++ _)) by (rewrite ?length_app; cbn; lia).
      destruct (lookup_lt_is_Some_2 m (Z.to_nat (i + Z.of_nat (length t)))) as [x Hx]; [lia|].
      rewrite (drop_S m x _ Hx), insert_app_r_alt by (rewrite length_take; lia).
      rewrite length_take, Nat.min_l, insert_app_r_alt by lia.
      replace (Z.to_nat (i + Z.of_nat (length t)) - Z.to_nat i - length t)%nat with O by lia.
      cbn. rewrite <-app_assoc. cbn. repeat f_equal. lia.
    + rewrite !Z.min_r by lia. by rewrite take_app_le by lia.
Qed.

Lemma put_literal_ok end_ old_fmt read st : room end_ st -> 0 <= read <= zlen old_fmt ->
  put_literal end_ old_fmt read st = Some (emits end_ (take (Z.to_nat read) old_fmt) st).
Proof.
  destruct st as [m i]. intros [Hi He] Hr. cbn [fst snd] in *.
  assert (Hl : zlen (take (Z.to_nat read) old_fmt) = read) by (unfold zlen in *; rewrite length_take; lia).
  unfold put_literal. bcase; [|by rewrite emits_full, Hl by lia].
  rewrite emits_memory, Hl by lia. unfold at_off. rewrite !(proj2 (Z.leb_le _ _)) by lia. cbn [andb].
  set (k := if end_ - i <? read then _ else _). assert (Hk : k = Z.min read (end_ - i)) by (unfold k; bcases).
  rewrite <-(Z2Nat.id k), memcpy_ok by (unfold zlen in *; rewrite ?length_drop; lia). rewrite !bind_Some.
  f_equal. f_equal. f_equal. rewrite drop_drop, take_take. f_equal; f_equal; lia.
Qed.

Lemma char_pad_ok end_ st w : room end_ st -> - 2 ^ 15 < w < 2 ^ 15 ->
  char_pad end_ st w = Some (emits end_ (spaces (w - 1)) st, Z.min (w - 1) 0).
Proof.
  intros Hr Hw. unfold char_pad. rewrite (countdown_ok end_ 32 1 _ pair) by (done || lia || (
    intros b v Hb Hv; unfold char_pad_body; rewrite s16_small, put_ok by (done || lia); bcases; done)).
  unfold spaces. f_equal. f_equal. lia.
Qed.

Lemma spaces_neg n : n <= 0 -> spaces n = [].
Proof. intros H. unfold spaces. by replace (Z.to_nat n) with O by lia. Qed.

Lemma put_char_ok end_ x st spec : room end_ st -> - 2 ^ 15 + 2 <= field_width spec < 2 ^ 15 ->
  put_char end_ x st spec = Some (emits end_ (char_text x spec) st, char_rest spec).
Proof.
  intros Hr Hw. unfold put_char, char_text, char_rest. destruct (has (flags spec) LEFT); cbn [negb].
  - by rewrite bind_Some, put_ok, bind_Some, char_pad_ok by (auto with room || lia).
  - rewrite char_pad_ok, bind_Some, put_ok, bind_Some, char_pad_ok by (auto with room || lia).
    by rewrite (spaces_neg (_ - 1)), emits_snoc by lia.
Qed.

(** ** Proofs: format_decode() *)

Definition takes_arg (ty : format_type) : bool :=
  match ty with FORMAT_TYPE_WIDTH | FORMAT_TYPE_PRECISION => true | _ => false end.

(** What the parts of format_decode() promise: they read [n] to [n] + [len]
    characters, more than [n] where they ask for an argument, and set the
    base of a number. *)
Definition decoded (n len : Z) (r : Z * printf_spec) : Prop :=
  n + Z.b2z (takes_arg (type (snd r))) <= fst r <= n + len /\
  (integer_conversion (type (snd r)) = true -> printf_base (base (snd r))).

Lemma decoded_weaken n len n' len' r : decoded n len r -> n' <= n -> n + len <= n' + len' -> decoded n' len' r.
Proof. unfold decoded. intros [H1 H2] H3 H4. split; [lia|done]. Qed.

Lemma integer_type_ok spec : takes_arg (integer_type spec) = false.
Proof. unfold integer_type. by repeat case_match. Qed.

Lemma decode_type_ok fmt n spec r : decode_type fmt n spec = Some r -> decoded n (zlen fmt) r.
Proof.
  unfold decode_type. destruct fmt as [|c fmt]; [done|]. rewrite arr_get_0, bind_Some, zlen_cons.
  pose proof (zlen_nonneg fmt). unfold decoded, printf_base.
  repeat (case_match; [intros [= <-]; cbn; rewrite ?integer_type_ok; cbn; split; [lia|auto]|]).
  all: intros [= <-]; cbn; split; [lia|done].
Qed.

Lemma decode_qualifier_ok fmt n spec r : decode_qualifier fmt n spec = Some r -> decoded n (zlen fmt) r.
Proof.
  unfold decode_qualifier. destruct fmt as [|c fmt]; [done|]. rewrite arr_get_0, bind_Some.
  case_match; [|apply decode_type_ok]. destruct fmt as [|c' fmt]; [done|]. change ((c :: c' :: fmt).[1]) with (Some c'). rewrite bind_Some.
  rewrite !zlen_cons. repeat case_match; intros Hd%decode_type_ok; eapply decoded_weaken; try exact Hd; cbn [drop]; rewrite ?drop_0, ?zlen_cons; lia.
Qed.

Lemma skip_atoi_ok s i n r : skip_atoi s i n = Some r -> n <= snd r /\ snd r + zlen (snd (fst r)) = n + zlen s.
Proof.
  revert i n. induction s as [|c s IH]; intros i n; [done|]. cbn [skip_atoi]. case_match.
  - intros H1%IH. rewrite zlen_cons. lia.
  - intros [= <-]. cbn. lia.
Qed.

Lemma decode_precision_ok fmt n spec r : decode_precision fmt n spec = Some r -> decoded n (zlen fmt) r.
Proof.
  unfold decode_precision. destruct fmt as [|c fmt]; [done|]. rewrite arr_get_0, bind_Some.
  case_match; [|apply decode_qualifier_ok]. destruct fmt as [|c' fmt]; [done|]. change ((c :: c' :: fmt).[1]) with (Some c'). rewrite bind_Some.
  cbn [drop]. rewrite !zlen_cons. pose proof (zlen_nonneg fmt). case_match; [|case_match].
  - destruct (skip_atoi _ _ _) as [[[i f] k]|] eqn:E; [|done]. apply skip_atoi_ok in E. cbn [fst snd] in E. rewrite zlen_cons in E.
    rewrite bind_Some. intros Hd%decode_qualifier_ok. eapply decoded_weaken; [exact Hd|lia..].
  - intros [= <-]. unfold decoded. cbn. split; [lia|done].
  - intros Hd%decode_qualifier_ok. eapply decoded_weaken; [exact Hd|rewrite ?zlen_cons; lia..].
Qed.

Lemma literal_len_ok fmt n r : literal_len fmt n = Some r -> n <= r < n + zlen fmt.
Proof.
  revert n. induction fmt as [|c fmt IH]; intros n; [done|]. cbn [literal_len]. rewrite zlen_cons. pose proof (zlen_nonneg fmt). case_match.
  - intros [= <-]. lia.
  - intros H1%IH. lia.
Qed.

Lemma decode_flags_ok fmt fl n r : decode_flags fmt fl n = Some r -> n <= snd r /\ snd r + zlen (snd (fst r)) = n + zlen fmt.
Proof.
  revert fl n. induction fmt as [|c fmt IH]; intros fl n; [done|]. cbn [decode_flags]. case_match.
  - intros H1%IH. rewrite zlen_cons. lia.
  - intros [= <-]. cbn. lia.
Qed.

(** A part of the format is not empty, except after an argument. *)
Definition potential (fmt : list Z) (spec : printf_spec) : Z := 2 * zlen fmt + Z.b2z (takes_arg (type spec)).

Lemma format_decode_ok c rest spec r : c <> 0 -> format_decode (c :: rest) spec = Some r ->
  decoded (1 - Z.b2z (takes_arg (type spec))) (zlen (c :: rest) - 1 + Z.b2z (takes_arg (type spec))) r.
Proof.
  intros Hc. unfold format_decode. case_decide as HW; [|case_decide as HP].
  - rewrite HW. intros Hd%decode_precision_ok. eapply decoded_weaken; [exact Hd|cbn; lia..].
  - rewrite HP. intros Hd%decode_qualifier_ok. eapply decoded_weaken; [exact Hd|cbn; lia..].
  - assert (takes_arg (type spec) = false) as -> by (by destruct (type spec)). cbn [Z.b2z].
    destruct (literal_len _ _) as [n|] eqn:El; [|done]. apply literal_len_ok in El. rewrite bind_Some, zlen_cons in *.
    destruct ((c :: rest).[n]) as [c1|] eqn:Ec; [|done]. rewrite bind_Some. case_match eqn:E.
    + intros [= <-]. assert (n <> 0).
      { intros ->. rewrite arr_get_0 in Ec. injection Ec as <-. cbn in E. by apply Z.eqb_eq in E. }
      unfold decoded. cbn. split; [lia|done].
    + cbn [drop]. rewrite ?drop_0. destruct (decode_flags _ _ _) as [[[fl f] k]|] eqn:Ef; [|done]. apply decode_flags_ok in Ef. cbn [fst snd] in Ef.
      rewrite bind_Some. destruct f as [|c2 f]; [done|]. rewrite arr_get_0, bind_Some. case_match; [|case_match].
      * destruct (skip_atoi _ _ _) as [[[i g] k']|] eqn:Eg; [|done]. apply skip_atoi_ok in Eg. cbn [fst snd] in Eg.
        rewrite bind_Some. intros Hd%decode_precision_ok. eapply decoded_weaken; [exact Hd|lia..].
      * intros [= <-]. rewrite zlen_cons in Ef. pose proof (zlen_nonneg f). unfold decoded. cbn. split; [lia|done].
      * intros Hd%decode_precision_ok. eapply decoded_weaken; [exact Hd|lia..].
Qed.

(** ** Proofs: vsnprintf() *)

Lemma skip_alnum_len fmt fmt' : skip_alnum fmt = Some fmt' -> zlen fmt' <= zlen fmt.
Proof.
  induction fmt as [|c fmt IH]; [done|]. cbn [skip_alnum]. rewrite zlen_cons. case_match; [intros H1%IH; lia|].
  intros [= <-]. rewrite zlen_cons. lia.
Qed.

(** What follows a part of the format is not longer, and keeps its type. *)
Lemma converts_rest env old_fmt read pos fmt args spec t st fmt' args' spec' :
  converts env old_fmt read pos fmt args spec t st fmt' args' spec' -> zlen fmt' <= zlen fmt /\ type spec' = type spec.
Proof. destruct 1; try done. split; [by apply skip_alnum_len|done]. Qed.

Lemma integer_arg_range ty args num args' : integer_arg ty args = Some (num, args') -> 0 <= num < 2 ^ 64.
Proof.
  unfold integer_arg. case_decide.
  - destruct (arg_long_long args) as [[x l]|]; [|done]. intros [= <- _]. by apply Z.mod_pos_bound.
  - destruct (arg_word args) as [[x l]|]; [|done]. rewrite bind_Some. intros [= <- _]. by apply Z.mod_pos_bound.
Qed.

Lemma convert_ok env end_ old_fmt read pos fmt args spec t st fmt' args' spec' str stores :
  converts env old_fmt read pos fmt args spec t st fmt' args' spec' ->
  room end_ str -> snd str = pos -> 0 <= read <= zlen old_fmt ->
  (integer_conversion (type spec) = true -> printf_base (base spec)) ->
  convert env end_ old_fmt fmt read args spec str stores =
    Some {| p_fmt := fmt'; p_args := args'; p_spec := spec'; p_str := emits end_ t str; p_stores := stores ++ st |}.
Proof.
  intros Hc Hr Hpos Hread Hbase. unfold convert. rewrite <-?app_nil_r.
  destruct Hc as [fmt args spec E|fmt args spec x E|fmt args spec x E|fmt args spec x E Hw|fmt args spec addr t rest E [Hw Hp] Ha Ht Hl|
    fmt args spec addr mem E [Hw Hp] Ha|fmt fmt' args spec addr mem t E Hpre Ht Hsk|fmt args spec E|fmt args spec addr mem E|
    fmt args args' spec num Hi Hw Ha]; rewrite ?app_nil_r; try rewrite E.
  - by rewrite put_literal_ok, bind_Some by done.
  - done.
  - done.
  - cbn [arg_word]. by rewrite bind_Some, put_char_ok, bind_Some by done.
  - cbn [arg_ptr]. by rewrite bind_Some, string_ok, bind_Some by (done || lia).
  - cbn [arg_ptr]. by rewrite bind_Some, string_null, bind_Some by (done || lia).
  - cbn [arg_ptr]. by rewrite bind_Some, (pointer_prints_text env _ _ _ _ t), bind_Some, Hsk by done.
  - destruct E as [-> | ->]; by rewrite put_ok, bind_Some by done.
  - cbn [arg_ptr]. by rewrite bind_Some, Hpos.
  - pose proof (integer_arg_range _ _ _ _ Ha) as Hn. specialize (Hbase Hi).
    destruct (type spec); try done; by rewrite Ha, bind_Some, number_ok, bind_Some by done.
Qed.

Lemma emits_pos end_ t st : snd (emits end_ t st) = snd st + zlen t.
Proof.
  revert st. induction t as [|c t IH]; intros st; [cbn; by rewrite Z.add_0_r|].
  change (emits end_ (c :: t) st) with (emits end_ t (emit end_ st c)). rewrite IH, zlen_cons. unfold emit. cbn [snd]. lia.
Qed.

Lemma printf_body_part env end_ c rest args spec read spec' str stores : c <> 0 -> format_decode (c :: rest) spec = Some (read, spec') ->
  printf_body env end_ {| p_fmt := c :: rest; p_args := args; p_spec := spec; p_str := str; p_stores := stores |} =
    (s ← convert env end_ (c :: rest) (drop (Z.to_nat read) (c :: rest)) read args spec' str stores; Some (Next s)).
Proof.
  intros Hc Hd. unfold printf_body. cbn [p_fmt p_args p_spec p_str p_stores].
  by rewrite arr_get_0, bind_Some, (proj2 (Z.eqb_neq c 0)), Hd, bind_Some by done.
Qed.

Lemma potential_end rest spec : 0 <= potential (0 :: rest) spec.
Proof. unfold potential. rewrite zlen_cons. pose proof (zlen_nonneg rest). destruct (takes_arg _); cbn; lia. Qed.

(** Each part of the format lowers the potential. *)
Lemma potential_part env c rest args spec read pos spec' t st fmt' args' spec'' : c <> 0 ->
  format_decode (c :: rest) spec = Some (read, spec') ->
  converts env (c :: rest) read pos (drop (Z.to_nat read) (c :: rest)) args spec' t st fmt' args' spec'' ->
  0 <= read <= zlen (c :: rest) /\ (integer_conversion (type spec') = true -> printf_base (base spec')) /\
  potential fmt' spec'' + 1 <= potential (c :: rest) spec.
Proof.
  intros Hc Hd Hcv. destruct (format_decode_ok _ _ _ _ Hc Hd) as [Hread Hbase]. cbn [fst snd] in *.
  destruct (converts_rest _ _ _ _ _ _ _ _ _ _ _ _ Hcv) as [Hlen Hty]. unfold potential. rewrite Hty. unfold zlen in *. rewrite length_drop in Hlen.
  destruct (takes_arg (type spec)), (takes_arg (type spec')); cbn [Z.b2z] in *; split_and!; try done; lia.
Qed.

Lemma formats_steps env P end_ pos fmt args spec text stores : formats_with env P pos fmt args spec text stores ->
  forall str stores0, room end_ str -> snd str = pos ->
  exists n s, steps (printf_body env end_) n
      {| p_fmt := fmt; p_args := args; p_spec := spec; p_str := str; p_stores := stores0 |} = Some s /\
    Z.of_nat n <= potential fmt spec /\ printf_body env end_ s = Some (Done s) /\
    p_str s = emits end_ text str /\ p_stores s = stores0 ++ stores.
Proof.
  induction 1 as [pos rest args spec|pos c rest args spec read spec' t st fmt' args' spec'' text stores Hc Hd _ Hcv Hf IH];
    intros str stores0 Hr Hpos.
  - exists O. eexists. split; [done|]. pose proof (potential_end rest spec). cbn [p_str p_stores]. by rewrite app_nil_r.
  - destruct (potential_part _ _ _ _ _ _ _ _ _ _ _ _ _ Hc Hd Hcv) as (Hread & Hbase & Hpart).
    destruct (IH (emits end_ t str) (stores0 ++ st)) as (n & s & Hn & Hpot & Hdone & Hstr & Hst);
      [auto with room|by rewrite emits_pos, Hpos|].
    exists (S n), s. rewrite emits_app, app_assoc. split_and!; try done; [|lia].
    cbn [steps]. rewrite (printf_body_part env end_ c rest args spec read spec') by done.
    by rewrite (convert_ok _ _ _ _ _ _ _ _ _ _ _ _ _ str stores0 Hcv).
Qed.

Lemma formats_weaken env P pos fmt args spec text stores :
  formats_with env P pos fmt args spec text stores -> formats env pos fmt args spec text stores.
Proof. induction 1; [apply formats_end|by eapply formats_part]. Qed.

Lemma cut_memory buf size t : 0 < size <= zlen buf ->
  let '(m, str) := emits size t (buf, 0) in
  (if str <? size then m.[str <- 0] else m.[size - 1 <- 0]) = Some (cut buf size t).
Proof.
  intros Hs. rewrite emits_memory by lia. rewrite !Z.add_0_l, Z.sub_0_r. change (take (Z.to_nat 0) buf) with (@nil Z). cbn [app].
  unfold cut. rewrite (proj2 (Z.eqb_neq size 0)) by lia. unfold zlen in *. bcase.
  - rewrite !Z.min_l by lia. rewrite !take_ge by lia.
    destruct (lookup_lt_is_Some_2 buf (length t)) as [x Hx]; [lia|]. rewrite Nat2Z.id, (drop_S buf x) by done.
    rewrite arr_set_Some by (unfold zlen; rewrite length_app; cbn; lia).
    rewrite insert_app_r_alt, Nat2Z.id, Nat.sub_diag by lia. cbn. by replace (Z.to_nat (Z.of_nat (length t) + 1)) with (S (length t)) by lia.
  - rewrite !Z.min_r by lia. rewrite arr_set_Some by (unfold zlen; rewrite length_app, length_take; lia).
    replace (Z.to_nat (size - 1 + 1)) with (Z.to_nat size) by lia. f_equal.
    destruct (lookup_lt_is_Some_2 t (Z.to_nat (size - 1))) as [x Hx]; [lia|].
    replace (Z.to_nat size) with (S (Z.to_nat (size - 1))) at 1 by lia. rewrite (take_S_r t _ x), <-app_assoc by done.
    rewrite insert_app_r_alt by (rewrite length_take; lia). rewrite length_take, Nat.min_l, Nat.sub_diag by lia. done.
Qed.

(** The end of vsnprintf() and bstr_printf(). *)
Lemma finish_output buf size t : 0 <= size <= zlen buf ->
  let '(m, str) := emits size t (buf, 0) in
  (if 0 <? size then if str <? size then m.[str <- 0] else m.[size - 1 <- 0] else Some m) = Some (cut buf size t) /\ str = zlen t.
Proof.
  intros Hs. pose proof (emits_pos size t (buf, 0)) as Hpos. destruct (Z.eqb_spec size 0) as [->|Hz].
  - by rewrite emits_full by lia.
  - pose proof (cut_memory buf size t ltac:(lia)) as Hcut. destruct (emits size t (buf, 0)) as [m i].
    by rewrite (proj2 (Z.ltb_lt 0 size)) by lia.
Qed.

Lemma vsnprintf_ok env buf baddr size fmt args text stores :
  formats env 0 fmt args spec_0 text stores ->
  0 <= size < 2 ^ 31 -> size <= zlen buf -> baddr + size < 2 ^ 32 -> zlen text < 2 ^ 31 ->
  vsnprintf env buf baddr size fmt args = Some (cut buf size text, zlen text, stores).
Proof.
  intros Hf Hs Hb Ha Ht. unfold vsnprintf. rewrite s32_small, (proj2 (Z.ltb_ge size 0)) by lia.
  rewrite (proj2 (Z.leb_gt (2 ^ 32) _)) by lia. pose proof (zlen_nonneg text).
  destruct (formats_steps _ _ size _ _ _ _ _ _ Hf (buf, 0) []) as (n & s & Hn & Hpot & Hdone & Hstr & Hst); [split; cbn; lia|done|].
  rewrite (loop_steps _ n _ _ s s Hn Hdone), bind_Some by (unfold potential in Hpot; cbn in Hpot; lia). rewrite Hstr, Hst.
  pose proof (finish_output buf size text ltac:(lia)) as Hfin. destruct (emits size text (buf, 0)) as [m i]. destruct Hfin as [-> ->].
  by rewrite bind_Some, s32_small by lia.
Qed.

Lemma vscnprintf_ok env buf baddr size fmt args text stores :
  formats env 0 fmt args spec_0 text stores ->
  0 <= size < 2 ^ 31 -> size <= zlen buf -> baddr + size < 2 ^ 32 -> zlen text < 2 ^ 31 ->
  vscnprintf env buf baddr size fmt args = Some (cut buf size text, Z.max 0 (Z.min (zlen text) (size - 1)), stores).
Proof.
  intros Hf Hs Hb Ha Ht. unfold vscnprintf. rewrite (vsnprintf_ok _ _ _ _ _ _ _ _ Hf), bind_Some by done.
  pose proof (zlen_nonneg text). rewrite ulong_small by lia. bcase; [by replace (Z.max _ _) with (zlen text) by lia|].
  destruct (Z.eqb_spec size 0) as [->|Hz]; cbn [negb].
  - by replace (Z.max _ _) with 0 by lia.
  - rewrite s32_small by lia. by replace (Z.max _ _) with (size - 1) by lia.
Qed.

(** ** The properties *)


