(* ===== verification/PrintParse.v ===== *)
(** * Numbers printed by snprintf() and read back by the kstrto functions

    The composition of lib/vsprintf.c and lib/kstrtox.c: what a conversion of
    an integer prints is a text that denotes this integer. *)

From S2P Require Import Prelude Div64 CString Kstrtox VsprintfNum VsprintfPtr Vsprintf.

(** ** The digits *)

Lemma digit_val_char locase d : locase = 0 \/ locase = 32 -> 0 <= d < 16 -> digit_val (digit_char locase d) = Some d.
Proof.
  intros Hl Hd. assert (H : forallb (fun i => bool_decide (digit_val (digit_char locase (Z.of_nat i)) = Some (Z.of_nat i))) (seq 0 16) = true)
    by (destruct Hl as [-> | ->]; vm_compute; reflexivity).
  pose proof (forallb_seq_lt _ 16 H d ltac:(lia)) as Hp. cbv beta in Hp. rewrite Z2Nat.id, bool_decide_eq_true in Hp by lia. done.
Qed.

Lemma value_from_app b acc t t' : value_from b acc (t ++ t') = (v ← value_from b acc t; value_from b v t').
Proof.
  revert acc. induction t as [|c t IH]; intros acc; [done|]. cbn [value_from app].
  destruct (digit_val c) as [v|]; [|done]. destruct (v <? b); [apply IH|done].
Qed.

(** A character that stands for a digit of some base. *)
Definition digit_like (c : Z) : Prop := is_byte c /\ is_Some (digit_val c).

Section Digits.
Context (b locase : Z) (Hb : printf_base b) (Hl : locase = 0 \/ locase = 32).

Lemma value_digits_fuel f n : 0 <= n < b ^ Z.of_nat f -> (0 < f)%nat ->
  value_from b 0 (rev (digit_char locase <$> digits b f n)) = Some n.
Proof.
  assert (2 <= b <= 16) by (unfold printf_base in Hb; lia).
  revert n. induction f as [|f IH]; [lia|]. intros n Hn _. rewrite digits_S. bcase.
  - cbn. rewrite digit_val_char, (proj2 (Z.ltb_lt n b)) by lia. done.
  - rewrite fmap_cons. cbn [rev].
    assert (Hq : 0 <= n / b < b ^ Z.of_nat f).
    { split; [apply Z.div_pos; lia|]. apply Z.div_lt_upper_bound; [lia|]. rewrite <-Z.pow_succ_r by lia.
      replace (Z.succ (Z.of_nat f)) with (Z.of_nat (S f)) by lia. lia. }
    assert (0 < f)%nat. { destruct f; [|lia]. cbn in Hn. lia. }
    rewrite value_from_app, IH, bind_Some by done. pose proof (Z.mod_pos_bound n b ltac:(lia)). cbn [value_from].
    rewrite digit_val_char, (proj2 (Z.ltb_lt _ b)) by lia. f_equal. pose proof (Z.div_mod n b ltac:(lia)). lia.
Qed.

Lemma value_digits_text n : 0 <= n < 2 ^ 64 -> value_from b 0 (digits_text b locase n) = Some n.
Proof.
  intros Hn. apply value_digits_fuel; [|lia]. split; [lia|]. eapply Z.lt_le_trans; [apply Hn|].
  transitivity (8 ^ Z.of_nat 22); [done|]. apply Z.pow_le_mono_l. unfold printf_base in Hb. lia.
Qed.

(** All characters are digits. *)
Lemma digits_text_chars n : 0 <= n -> Forall digit_like (digits_text b locase n).
Proof.
  intros Hn. unfold digits_text. apply Forall_rev. apply Forall_fmap. unfold printf_base in Hb.
  assert (2 <= b) by lia. eapply List.Forall_impl; [|by apply (digits_range b 22 n)].
  intros d Hd. cbv beta in *. split; [apply digit_char_byte; [done|lia]|]. by rewrite digit_val_char by (done || lia).
Qed.

Lemma digits_text_ne n : digits_text b locase n <> [].
Proof.
  unfold digits_text. rewrite digits_S. intros H%(f_equal length). rewrite length_rev, length_fmap in H. case_match; done.
Qed.

End Digits.

(** The first digit is not 0, unless the number is. *)
Lemma digits_text_head b locase n f : 2 <= b <= 16 -> 0 <= n -> (0 < f)%nat -> n < b ^ Z.of_nat f ->
  head (rev (digit_char locase <$> digits b f n)) = Some 48 -> locase = 0 \/ locase = 32 -> n = 0.
Proof.
  intros Hb Hn Hf Hlt Hh Hl. revert n Hn Hf Hlt Hh. induction f as [|f IH]; [lia|]. intros n Hn _ Hlt. rewrite digits_S. bcase.
  - cbn. unfold digit_char. bcases; intros [= Heq]; lia.
  - rewrite fmap_cons. cbn [rev]. intros Hh. exfalso.
    assert (Hq : 1 <= n / b < b ^ Z.of_nat f).
    { split; [apply Z.div_le_lower_bound; lia|]. apply Z.div_lt_upper_bound; [lia|]. rewrite <-Z.pow_succ_r by lia.
      replace (Z.succ (Z.of_nat f)) with (Z.of_nat (S f)) by lia. lia. }
    assert (0 < f)%nat. { destruct f; [|lia]. cbn in Hq. lia. }
    assert (n / b = 0); [|lia]. apply IH; [lia..|].
    destruct (rev (digit_char locase <$> digits b f (n / b))) as [|c l] eqn:E; [|done].
    apply (f_equal length) in E. rewrite length_rev, length_fmap in E. destruct f; [lia|]. rewrite digits_S in E. case_match; done.
Qed.

(** ** Texts that denote a number *)

(** None of them is a sign, a newline or the x of a prefix. *)
Lemma digit_like_not c : digit_like c -> 0 < c < 256 /\ c <> 10 /\ c <> 43 /\ c <> 45 /\ _tolower c <> 120.
Proof.
  intros [Hc Hd]. set (P := fun i => let c := Z.of_nat i in
    negb (bool_decide (is_Some (digit_val c))) || (0 <? c) && negb (c =? 10) && negb (c =? 43) && negb (c =? 45) && negb (_tolower c =? 120)).
  assert (H : forallb P (seq 0 256) = true) by (vm_compute; reflexivity).
  pose proof (forallb_seq_lt P 256 H c Hc) as Hp. unfold P in Hp. unfold is_byte in Hc. rewrite Z2Nat.id in Hp by lia. cbv zeta in Hp.
  rewrite bool_decide_eq_true_2 in Hp by done. cbn [negb orb] in Hp. rewrite !andb_true_iff, !negb_true_iff, Z.ltb_lt, !Z.eqb_neq in Hp. tauto.
Qed.

Lemma strip_newline_id t : Forall digit_like t -> strip_newline t = t.
Proof.
  induction 1 as [|c t Hc Ht IH]; [done|]. destruct t as [|c' t]; [|by rewrite strip_newline_cons, IH].
  apply digit_like_not in Hc. cbn. by rewrite (proj2 (Z.eqb_neq c 10)) by tauto.
Qed.

Lemma no_0x t : Forall digit_like t -> starts_0x t = false.
Proof.
  intros Ht. destruct t as [|c [|c' t]]; [done..|]. inversion_clear Ht as [|?? _ Ht']. inversion_clear Ht' as [|?? Hc _].
  apply digit_like_not in Hc. cbn. by rewrite (proj2 (Z.eqb_neq (_tolower c') 120)), andb_false_r by tauto.
Qed.

Lemma no_sign t : Forall digit_like t -> starts_with 43 t = false /\ starts_with 45 t = false.
Proof.
  intros Ht. destruct t as [|c t]; [done|]. apply List.Forall_inv in Ht. apply digit_like_not in Ht. cbn. split; apply Z.eqb_neq; tauto.
Qed.

Lemma digits_str t : Forall digit_like t -> str t.
Proof. intros Ht. eapply List.Forall_impl; [|exact Ht]. intros c Hc%digit_like_not. tauto. Qed.

Lemma numeral_digits b locase n : printf_base b -> locase = 0 \/ locase = 32 -> 0 <= n < 2 ^ 64 ->
  numeral_value b (digits_text b locase n) = Some n.
Proof.
  intros Hb Hl Hn. unfold numeral_value. rewrite strip_newline_id by (apply digits_text_chars; [done..|lia]).
  destruct (digits_text b locase n) as [|c t] eqn:E; [by apply digits_text_ne in E|]. rewrite <-E. by apply value_digits_text.
Qed.

(** The base that reads back what a conversion prints: its own, or the base
    that the prefix gives. *)
Definition reading_base (pb : Z) (spec : printf_spec) : Prop :=
  pb = base spec \/ pb = 0 /\ (base spec = 10 \/ has (flags spec) SPECIAL = true).

Definition unsigned_text (spec : printf_spec) (n : Z) : list Z :=
  prefix_text spec ++ digits_text (base spec) (Z.land (flags spec) SMALL) n.

Section Read.
Context (pb : Z) (spec : printf_spec) (n : Z).
Context (Hb : printf_base (base spec)) (Hpb : reading_base pb spec) (Hn : 0 <= n < 2 ^ 64).

Let ds := digits_text (base spec) (Z.land (flags spec) SMALL) n.

Lemma ds_chars : Forall digit_like ds.
Proof. apply digits_text_chars; [done|apply small_cases|lia]. Qed.

Lemma ds_value : numeral_value (base spec) ds = Some n.
Proof. apply numeral_digits; [done|apply small_cases|done]. Qed.

Lemma decimal_zero : base spec = 10 -> starts_with 48 ds = true -> numeral_value 8 ds = Some n.
Proof.
  intros H10 Hs. assert (n = 0) as Hz.
  { apply (digits_text_head 10 (Z.land (flags spec) SMALL) n 22); try lia; [|apply small_cases].
    unfold ds, digits_text in Hs. rewrite H10 in Hs. destruct (rev _) as [|c l]; [done|]. cbn in *. f_equal. lia. }
  unfold ds. by rewrite Hz, H10.
Qed.

Lemma octal_zero : base spec = 8 -> numeral_value 8 (48 :: ds) = Some n.
Proof.
  intros H8. assert (Hf : Forall digit_like (48 :: ds)).
  { constructor; [|apply ds_chars]. split; [unfold is_byte; lia|by exists 0]. }
  pose proof ds_value as Hv. unfold numeral_value in *. rewrite strip_newline_id in Hv by apply ds_chars.
  rewrite strip_newline_id by done. rewrite H8 in Hv. by destruct ds.
Qed.

Lemma number_value_text : number_value pb (unsigned_text spec n) = Some n.
Proof.
  unfold unsigned_text, prefix_text. fold ds. pose proof ds_chars as Hc. pose proof ds_value as Hv.
  destruct (has (flags spec) SPECIAL) eqn:Hs; cbn [andb]; [destruct (Z.eqb_spec (base spec) 10) as [E|E]; cbn [negb]|].
  2: destruct (Z.eqb_spec (base spec) 16) as [E16|E16]; cbn [app].
  - unfold number_value, chosen_base. rewrite no_0x, andb_false_r by done. cbn [app]. bcase; [|].
    + destruct (starts_with 48 ds) eqn:H48; [by apply decimal_zero|by rewrite <-E].
    + destruct Hpb as [-> |[-> _]]; [done|lia].
  - assert (Hx : starts_0x (48 :: 88 + Z.land (flags spec) SMALL :: ds) = true).
    { cbn. destruct (small_cases (flags spec)) as [-> | ->]; done. }
    unfold number_value, chosen_base. rewrite Hx. assert (Hp : (if pb =? 0 then 16 else pb) = 16).
    { destruct Hpb as [-> |[-> _]]; [by rewrite E16|done]. }
    rewrite Hp. cbn [Z.eqb Pos.eqb andb drop]. by rewrite <-E16.
  - assert (E8 : base spec = 8) by (destruct Hb as [?|[?|?]]; done).
    assert (Hx : starts_0x (48 :: ds) = false).
    { apply no_0x. constructor; [|done]. split; [unfold is_byte; lia|by exists 0]. }
    unfold number_value, chosen_base. rewrite Hx, andb_false_r. cbn [starts_with]. replace (if pb =? 0 then _ else pb) with 8; [by apply octal_zero|].
    destruct Hpb as [-> |[-> _]]; [by rewrite E8|done].
  - unfold number_value, chosen_base. cbn [app]. rewrite no_0x, andb_false_r by done. bcase.
    + destruct Hpb as [Heq|[_ [H10|?]]]; [destruct Hb as [?|[?|?]]; lia| |congruence].
      destruct (starts_with 48 ds) eqn:H48; [by apply decimal_zero|by rewrite <-H10].
    + destruct Hpb as [-> |[-> _]]; [done|lia].
Qed.

Lemma unsigned_text_no_sign : starts_with 43 (unsigned_text spec n) = false /\ starts_with 45 (unsigned_text spec n) = false.
Proof.
  unfold unsigned_text, prefix_text. fold ds. case_match; [done|]. apply no_sign, ds_chars.
Qed.

Lemma unsigned_text_str : str (unsigned_text spec n).
Proof.
  unfold unsigned_text, prefix_text. fold ds. apply str_app. split; [|apply digits_str, ds_chars].
  repeat case_match; repeat constructor; destruct (small_cases (flags spec)) as [-> | ->]; lia.
Qed.

Lemma unsigned_text_len : zlen (unsigned_text spec n) <= 24.
Proof.
  unfold unsigned_text. rewrite zlen_app. pose proof (prefix_len spec). unfold digits_text, zlen. rewrite length_rev, length_fmap.
  pose proof (digits_length (base spec) 22 n). destruct Hb as [?|[?|?]]; unfold zlen in *; lia.
Qed.
End Read.

(** ** One conversion without width and precision *)

Record plain_format (fmt : list Z) (spec : printf_spec) : Prop := {
  plain_nonempty : (fmt !!! 0%nat) <> 0;
  plain_decode : format_decode fmt spec_0 = Some (zlen fmt - 1, spec);
  plain_end : drop (Z.to_nat (zlen fmt - 1)) fmt = [0];
  plain_integer : integer_conversion (type spec) = true;
  plain_widths : field_width spec = -1 /\ precision spec = -1
}.

Lemma zeros_neg n : n <= 0 -> zeros n = [].
Proof. intros H. unfold zeros. by replace (Z.to_nat n) with O by lia. Qed.

Lemma number_text_plain num spec : field_width spec = -1 -> precision spec = -1 ->
  number_text num spec = sign_text num (flags spec) ++ unsigned_text spec (magnitude num (flags spec)).
Proof.
  intros Hw Hp. unfold number_text, layout, unsigned_text. set (ds := digits_text _ _ _).
  pose proof (zlen_nonneg ds). pose proof (sign_len num (flags spec)). pose proof (prefix_len spec).
  rewrite Hw, Hp, zeros_neg by lia. cbn [app]. rewrite spaces_neg, zeros_neg by lia. cbn [app]. rewrite app_nil_r. by repeat case_match.
Qed.

Lemma snprintf_plain env buf baddr size fmt spec a num : plain_format fmt spec -> printf_base (base spec) ->
  integer_arg (type spec) [a] = Some (num, []) ->
  26 <= size <= zlen buf -> size < 2 ^ 31 -> baddr + size < 2 ^ 32 ->
  let t := sign_text num (flags spec) ++ unsigned_text spec (magnitude num (flags spec)) in
  exists rest, snprintf env buf baddr size fmt [a] = Some (t ++ 0 :: rest, zlen t, []).
Proof.
  intros [Hc Hd Hz Hi [Hw Hp]] Hb Ha Hsz Hs Haddr t. pose proof (integer_arg_range _ _ _ _ Ha) as Hn.
  assert (Hlen : zlen t < 26).
  { unfold t. rewrite zlen_app. pose proof (sign_len num (flags spec)).
    pose proof (unsigned_text_len spec (magnitude num (flags spec)) Hb (magnitude_range _ _ Hn)). lia. }
  destruct fmt as [|c fmt]; [done|]. unfold snprintf. rewrite (vsnprintf_ok _ _ _ _ _ _ t []); [|..|lia]; try lia.
  - unfold cut. rewrite (proj2 (Z.eqb_neq size 0)) by lia. rewrite take_ge by (unfold zlen in *; lia). by eexists.
  - rewrite <-(app_nil_r t). unfold t. rewrite <-number_text_plain by done.
    apply (formats_part env _ 0 c fmt [a] spec_0 (zlen (c :: fmt) - 1) spec _ [] [0] [] spec [] []); [done..| |constructor].
    rewrite Hz. constructor; [done| |done]. unfold widths_ok. rewrite Hw, Hp. lia.
Qed.

(** ** Printing and reading *)

Definition reads_back (fmt : list Z) (mk : Z -> arg) (pb : Z) (parse : list Z -> Z -> Z -> option (Z * Z)) (cast : Z -> Z) : Prop :=
  forall env buf baddr size x res, 26 <= size <= zlen buf -> size < 2 ^ 31 -> baddr + size < 2 ^ 32 ->
    exists buf' len, snprintf env buf baddr size fmt [mk x] = Some (buf', len, []) /\ parse buf' pb res = Some (0, cast x).

Lemma unsigned_reads_back fmt mk pb parse cast spec hi : plain_format fmt spec -> printf_base (base spec) ->
  has (flags spec) SIGN = false -> reading_base pb spec -> unsigned_conversion hi parse -> hi <= 2 ^ 64 ->
  (forall x, integer_arg (type spec) [mk x] = Some (cast x, []) /\ 0 <= cast x < hi) ->
  reads_back fmt mk pb parse cast.
Proof.
  intros Hf Hb Hs Hpb Hparse Hhi Harg env buf baddr size x res Hsz H31 Haddr. destruct (Harg x) as [Ha Hx].
  destruct (snprintf_plain env buf baddr size fmt spec (mk x) _ Hf Hb Ha Hsz H31 Haddr) as [rest Hp].
  unfold sign_text, magnitude in Hp. rewrite Hs in Hp. cbn [andb app] in Hp. eexists _, _. split; [exact Hp|].
  assert (H64 : 0 <= cast x < 2 ^ 64) by lia.
  destruct (Hparse (unsigned_text spec (cast x)) rest pb res) as (rv & res' & -> & Hv).
  { destruct Hb as [?|[?|?]], Hpb as [?|[? _]]; lia. }
  { by apply unsigned_text_str. }
  unfold unsigned_value in Hv. destruct (unsigned_text_no_sign spec (cast x) Hb H64) as [H43 _].
  rewrite H43, number_value_text in Hv by done. cbn in Hv. rewrite (proj2 (Z.ltb_lt _ hi)) in Hv by lia. by destruct Hv as [-> ->].
Qed.

Lemma signed_reads_back fmt mk pb parse cast spec hi : plain_format fmt spec -> base spec = 10 ->
  flags spec = SIGN -> pb = 10 \/ pb = 0 -> signed_conversion hi parse -> hi <= 2 ^ 63 ->
  (forall x, integer_arg (type spec) [mk x] = Some (u64 (cast x), []) /\ - hi <= cast x < hi) ->
  reads_back fmt mk pb parse cast.
Proof.
  intros Hf H10 Hs Hpb Hparse Hhi Harg env buf baddr size x res Hsz H31 Haddr. destruct (Harg x) as [Ha Hx].
  assert (Hb : printf_base (base spec)) by (unfold printf_base; lia).
  assert (Hrb : reading_base pb spec) by (unfold reading_base; lia).
  destruct (snprintf_plain env buf baddr size fmt spec (mk x) _ Hf Hb Ha Hsz H31 Haddr) as [rest Hp]. eexists _, _. split; [exact Hp|].
  unfold sign_text, magnitude. rewrite Hs. change (has SIGN SIGN) with true. change (has SIGN PLUS) with false. change (has SIGN SPACE) with false.
  cbn [andb]. rewrite s64_u64, s64_small by lia. set (t := _ ++ unsigned_text spec _).
  assert (H64 : 0 <= (if cast x <? 0 then u64 (- cast x) else u64 (cast x)) < 2 ^ 64) by (case_match; by apply Z.mod_pos_bound).
  destruct (unsigned_text_no_sign spec _ Hb H64) as [H43 H45].
  destruct (Hparse t rest pb res) as (rv & res' & -> & Hv).
  - lia.
  - apply str_app. split; [case_match; repeat constructor; lia|by apply unsigned_text_str].
  - unfold signed_value, unsigned_value, t in Hv. destruct (Z.ltb_spec (cast x) 0); cbn [app starts_with drop Z.eqb Pos.eqb] in Hv.
    + rewrite drop_0, number_value_text in Hv by done. cbn in Hv. rewrite u64_small, Z.opp_involutive in Hv by lia.
      rewrite (proj2 (Z.leb_le _ _)), (proj2 (Z.ltb_lt _ hi)), (proj2 (Z.eqb_neq _ 0)) in Hv by lia. by destruct Hv as [-> ->].
    + rewrite H45, H43, number_value_text in Hv by done. cbn in Hv. rewrite u64_small in Hv by lia.
      rewrite (proj2 (Z.leb_le _ _)), (proj2 (Z.ltb_lt _ hi)) in Hv by lia. by destruct Hv as [-> ->].
Qed.

Ltac plain_format_tac := split; [done|vm_compute; reflexivity|done|done|done].

(** ** The properties *)

(** C15: a number that snprintf() prints is the number that the kstrto function of its
    type reads from the buffer: in decimal with its sign, in hexadecimal and octal
    with and without prefix, for all values of the 8, 16, 32 and 64-bit types. *)
Theorem print_then_parse :
  Forall (fun '(fmt, mk, pb, parse, cast) => reads_back fmt mk pb parse cast)
    [([37; 100; 0] (* %d *), AWord, 10, kstrtoint, s32);
     ([37; 100; 0] (* %d *), AWord, 0, kstrtoint, s32);
     ([37; 108; 100; 0] (* %ld *), AWord, 10, kstrtol, s32);
     ([37; 104; 100; 0] (* %hd *), AWord, 10, kstrtos16, s16);
     ([37; 104; 104; 100; 0] (* %hhd *), AWord, 10, kstrtos8, s8);
     ([37; 108; 108; 100; 0] (* %lld *), ALongLong, 10, kstrtoll, s64)] /\
  Forall (fun '(fmt, mk, pb, parse, cast) => reads_back fmt mk pb parse cast)
    [([37; 117; 0] (* %u *), AWord, 10, kstrtouint, u32);
     ([37; 120; 0] (* %x *), AWord, 16, kstrtouint, u32);
     ([37; 35; 120; 0] (* %#x *), AWord, 0, kstrtouint, u32);
     ([37; 35; 111; 0] (* %#o *), AWord, 0, kstrtouint, u32);
     ([37; 108; 117; 0] (* %lu *), AWord, 0, kstrtoul, ulong);
     ([37; 104; 117; 0] (* %hu *), AWord, 10, kstrtou16, u16);
     ([37; 104; 104; 117; 0] (* %hhu *), AWord, 10, kstrtou8, u8);
     ([37; 108; 108; 117; 0] (* %llu *), ALongLong, 0, kstrtoull, u64);
     ([37; 35; 108; 108; 120; 0] (* %#llx *), ALongLong, 0, kstrtoull, u64)].
Proof.
  pose proof unsigned_conversions as Hu. pose proof signed_conversions as Hs.
  repeat match goal with H : Forall _ (_ :: _) |- _ => inversion_clear H end.
  split; repeat (apply List.Forall_cons); try apply List.Forall_nil.
  all: first
    [eapply signed_reads_back; [plain_format_tac|reflexivity|reflexivity|lia|eassumption|lia|]
    |eapply unsigned_reads_back; [plain_format_tac|unfold printf_base; cbn; lia|reflexivity|unfold reading_base; cbn; auto|eassumption|lia|]].
  all: intros x; cbv [type integer_arg decide decide_rel format_type_eq_dec]; cbn.
  all: split; [|unfold s8, s16, s32, s64, u8, u16, u32, u64, ulong, BITS_PER_LONG; zlia].
  all: f_equal; f_equal; unfold u8, u16, u32, u64, ulong, s64, BITS_PER_LONG; zlia.
Qed.

(** "%d" of -42 *)
Lemma print_then_parse_witness :
  let env := {| symbol_text := fun _ _ => []; kptr_restrict := 0; has_cap_syslog := true; in_interrupt := false |} in
  exists buf len, snprintf env (repeat 0 30) 4096 30 [37; 100; 0] [AWord (2 ^ 32 - 42)] = Some (buf, len, []) /\
    kstrtoint buf 10 7 = Some (0, -42).
Proof.
  intros env. destruct print_then_parse as [Hs _]. apply List.Forall_inv in Hs.
  apply (Hs env (repeat 0 30) 4096 30 (2 ^ 32 - 42) 7); vm_compute; intuition discriminate.
Defined.

(** A size_t conversion with a sign reads its argument as unsigned: "%zd" of -1
    prints 4294967295. *)
Example snprintf_zd_unsigned :
  let env := {| symbol_text := fun _ _ => []; kptr_restrict := 0; has_cap_syslog := true; in_interrupt := false |} in
  (fun r => take 11 (fst (fst r))) <$> snprintf env (repeat 9 30) 4096 30 [37; 122; 100; 0] [AWord (2 ^ 32 - 1)] =
    Some [52; 50; 57; 52; 57; 54; 55; 50; 57; 53; 0].
Proof. vm_compute. reflexivity. Qed.
