(* ===== verification/Bprintf.v ===== *)
(** * Binary printf: vbin_printf() and bstr_printf() in lib/vsprintf.c

    vbin_printf() records the arguments of a format in a buffer of 32-bit
    words, and bstr_printf() prints the format later from the record; the
    tracing code does so to keep the formatting out of the hot path.

    The record is the list of its bytes (little-endian).  The buffer is an
    array of u32, so an aligned offset is an aligned address.  A pointer
    conversion reads the memory at the pointer when the record is printed:
    [deref] is this memory.

    The theorem is that the two together print what vsnprintf() prints. *)

From S2P Require Import Prelude Div64 CString Kstrtox VsprintfNum VsprintfPtr Vsprintf.

(** ** Definitions *)

Definition ALIGN (x a : Z) : Z := Z.land (x + (a - 1)) (Z.lnot (a - 1)).

(** A value in memory. *)
Fixpoint le_bytes (n : nat) (v : Z) : list Z :=
  match n with O => [] | S k => v mod 2 ^ 8 :: le_bytes k (v / 2 ^ 8) end.
Fixpoint le_value (l : list Z) : Z :=
  match l with [] => 0 | c :: l' => c + 2 ^ 8 * le_value l' end.

Definition bytes_at (m : list Z) (off : Z) (n : nat) : option (list Z) :=
  if (0 <=? off) && (off + Z.of_nat n <=? zlen m) then Some (take n (drop (Z.to_nat off) m)) else None.

(** *** vbin_printf() *)

(** A value of [n] bytes, aligned to [a]. *)
Definition save_arg (end_ a : Z) (n : nat) (value : Z) (bin : list Z * Z) : option (list Z * Z) :=
  let '(m, str) := bin in
  let str := ALIGN str a in
  m ← (if str + Z.of_nat n <=? end_ then at_off m str (fun p => memcpy p (le_bytes n value) (Z.of_nat n)) else Some m);
  Some (m, str + Z.of_nat n).

(** The size of an integer conversion other than long long. *)
Definition word_size (ty : format_type) : nat :=
  match ty with
  | FORMAT_TYPE_UBYTE | FORMAT_TYPE_BYTE => 1
  | FORMAT_TYPE_USHORT | FORMAT_TYPE_SHORT => 2
  | _ => 4
  end.

Definition save_string (end_ addr : Z) (mem : list Z) (bin : list Z * Z) : option (list Z * Z) :=
  let save_str := if (2 ^ 32 - PAGE_SIZE <? addr) || (addr <? PAGE_SIZE) then null_string else mem in
  n ← strlen save_str;
  let len := n + 1 in
  let '(m, str) := bin in
  m ← (if str + len <? end_ then at_off m str (fun p => memcpy p save_str len) else Some m);
  Some (m, str + len).

Record bin_state := { b_fmt : list Z; b_args : list arg; b_spec : printf_spec; b_bin : list Z * Z }.

Definition record_arg (end_ : Z) (fmt : list Z) (args : list arg) (spec : printf_spec) (bin : list Z * Z) : option bin_state :=
  let next fmt args bin := {| b_fmt := fmt; b_args := args; b_spec := spec; b_bin := bin |} in
  match type spec with
  | FORMAT_TYPE_NONE | FORMAT_TYPE_INVALID | FORMAT_TYPE_PERCENT_CHAR => Some (next fmt args bin)
  | FORMAT_TYPE_WIDTH | FORMAT_TYPE_PRECISION =>
      a ← arg_word args;
      bin ← save_arg end_ 4 4 (fst a) bin;
      Some (next fmt (snd a) bin)
  | FORMAT_TYPE_CHAR =>
      a ← arg_word args;
      bin ← save_arg end_ 1 1 (fst a) bin;
      Some (next fmt (snd a) bin)
  | FORMAT_TYPE_STR =>
      a ← arg_ptr args;
      let '(addr, mem, args) := a in
      bin ← save_string end_ addr mem bin;
      Some (next fmt args bin)
  | FORMAT_TYPE_PTR =>
      a ← arg_ptr args;
      let '(addr, _, args) := a in
      bin ← save_arg end_ 4 4 addr bin;
      fmt ← skip_alnum fmt;
      Some (next fmt args bin)
  | FORMAT_TYPE_NRCHARS =>
      a ← arg_ptr args;
      Some (next fmt (snd a) bin)
  | FORMAT_TYPE_LONG_LONG =>
      a ← arg_long_long args;
      bin ← save_arg end_ 4 8 (fst a) bin;
      Some (next fmt (snd a) bin)
  | ty =>
      a ← arg_word args;
      bin ← save_arg end_ (Z.of_nat (word_size ty)) (word_size ty) (fst a) bin;
      Some (next fmt (snd a) bin)
  end.

Definition vbin_body (end_ : Z) (s : bin_state) : option (step bin_state bin_state) :=
  c ← (b_fmt s).[0];
  if c =? 0 then Some (Done s)
  else
    r ← format_decode (b_fmt s) (b_spec s);
    let '(read, spec) := r in
    s' ← record_arg end_ (drop (Z.to_nat read) (b_fmt s)) (b_args s) spec (b_bin s);
    Some (Next s').

(** [size] counts words of 32 bits, and so does the result. *)
Definition vbin_printf (bin_buf : list Z) (size : Z) (fmt : list Z) (args : list arg) : option (list Z * Z) :=
  s ← loop (vbin_body (4 * size)) (2 * zlen fmt + 2) {| b_fmt := fmt; b_args := args; b_spec := spec_0; b_bin := (bin_buf, 0) |};
  let '(m, str) := b_bin s in
  Some (m, ALIGN str 4 / 4).

Definition bprintf := vbin_printf.

(** *** bstr_printf() *)

Definition get_arg (bin : list Z) (a : Z) (n : nat) (args : Z) : option (Z * Z) :=
  let args := ALIGN args a in
  l ← bytes_at bin args n;
  Some (le_value l, args + Z.of_nat n).

Definition integer_get (bin : list Z) (ty : format_type) (args : Z) : option (Z * Z) :=
  r ← match ty with
      | FORMAT_TYPE_LONG_LONG => get_arg bin 4 8 args
      | _ => get_arg bin (Z.of_nat (word_size ty)) (word_size ty) args
      end;
  let '(x, args) := r in
  Some (u64 (match ty with
             | FORMAT_TYPE_LONG_LONG => s64 x
             | FORMAT_TYPE_ULONG | FORMAT_TYPE_LONG | FORMAT_TYPE_SIZE_T => ulong x
             | FORMAT_TYPE_PTRDIFF => s32 x
             | FORMAT_TYPE_UBYTE => u8 x
             | FORMAT_TYPE_BYTE => s8 x
             | FORMAT_TYPE_USHORT => u16 x
             | FORMAT_TYPE_SHORT => s16 x
             | FORMAT_TYPE_UINT => u32 x
             | _ => s32 x
             end), args).

Record bstr_state := { s_fmt : list Z; s_args : Z; s_spec : printf_spec; s_str : list Z * Z }.

(** [addr] is the address of the record [bin]. *)
Definition bstr_convert (env : ptr_env) (deref : Z -> list Z) (bin : list Z) (addr end_ : Z) (old_fmt fmt : list Z) (read args : Z)
    (spec : printf_spec) (str : list Z * Z) : option bstr_state :=
  let next fmt args spec str := {| s_fmt := fmt; s_args := args; s_spec := spec; s_str := str |} in
  match type spec with
  | FORMAT_TYPE_NONE =>
      str ← put_literal end_ old_fmt read str;
      Some (next fmt args spec str)
  | FORMAT_TYPE_WIDTH =>
      r ← get_arg bin 4 4 args;
      Some (next fmt (snd r) (set_field_width spec (s16 (s32 (fst r)))) str)
  | FORMAT_TYPE_PRECISION =>
      r ← get_arg bin 4 4 args;
      Some (next fmt (snd r) (set_precision spec (s16 (s32 (fst r)))) str)
  | FORMAT_TYPE_CHAR =>
      a ← get_arg bin 1 1 args;
      r ← put_char end_ (fst a) str spec;
      let '(str, width) := r in
      Some (next fmt (snd a) (set_field_width spec width) str)
  | FORMAT_TYPE_STR =>
      let str_arg := drop (Z.to_nat args) bin in
      n ← strlen str_arg;
      str ← string str end_ (addr + args) str_arg spec;
      Some (next fmt (args + n + 1) spec str)
  | FORMAT_TYPE_PTR =>
      a ← get_arg bin 4 4 args;
      str ← pointer env (drop 1 fmt) str end_ (fst a) (deref (fst a)) spec;
      fmt ← skip_alnum fmt;
      Some (next fmt (snd a) spec str)
  | FORMAT_TYPE_PERCENT_CHAR | FORMAT_TYPE_INVALID =>
      str ← put end_ 37 str;
      Some (next fmt args spec str)
  | FORMAT_TYPE_NRCHARS => Some (next fmt args spec str)
  | _ =>
      a ← integer_get bin (type spec) args;
      str ← number str end_ (fst a) spec;
      Some (next fmt (snd a) spec str)
  end.

Definition bstr_body (env : ptr_env) (deref : Z -> list Z) (bin : list Z) (addr end_ : Z) (s : bstr_state) :
    option (step bstr_state bstr_state) :=
  c ← (s_fmt s).[0];
  if c =? 0 then Some (Done s)
  else
    r ← format_decode (s_fmt s) (s_spec s);
    let '(read, spec) := r in
    s' ← bstr_convert env deref bin addr end_ (s_fmt s) (drop (Z.to_nat read) (s_fmt s)) read (s_args s) spec (s_str s);
    Some (Next s').

Definition bstr_printf (env : ptr_env) (deref : Z -> list Z) (buf : list Z) (baddr size : Z) (fmt bin_buf : list Z) (addr : Z) :
    option (list Z * Z) :=
  if s32 size <? 0 then Some (buf, 0)
  else
    let size := if 2 ^ 32 <=? baddr + size then 2 ^ 32 - 1 - baddr else size in
    let end_ := size in
    s ← loop (bstr_body env deref bin_buf addr end_) (2 * zlen fmt + 2)
          {| s_fmt := fmt; s_args := 0; s_spec := spec_0; s_str := (buf, 0) |};
    let '(m, str) := s_str s in
    m ← (if 0 <? size then if str <? end_ then m.[str <- 0] else m.[end_ - 1 <- 0] else Some m);
    Some (m, s32 str).

(** ** Proofs: values in memory *)

Lemma ALIGN_range x a : 0 <= x -> a = 1 \/ a = 2 \/ a = 4 -> x <= ALIGN x a < x + a /\ ALIGN x a mod a = 0.
Proof.
  intros Hx Ha. unfold ALIGN.
  assert (H : Z.land (x + (a - 1)) (Z.lnot (a - 1)) = (x + (a - 1)) / a * a).
  { rewrite <-Z.ldiff_land. destruct Ha as [-> |[-> | ->]].
    - change (1 - 1) with (Z.ones 0). rewrite Z.ldiff_ones_r, Z.shiftr_0_r, Z.shiftl_0_r by lia. by rewrite Z.div_1_r, Z.mul_1_r.
    - change (2 - 1) with (Z.ones 1). by rewrite Z.ldiff_ones_r, Z.shiftr_div_pow2, Z.shiftl_mul_pow2 by lia.
    - change (4 - 1) with (Z.ones 2). by rewrite Z.ldiff_ones_r, Z.shiftr_div_pow2, Z.shiftl_mul_pow2 by lia. }
  rewrite H. destruct Ha as [-> |[-> | ->]]; zlia.
Qed.

Lemma le_bytes_length n v : length (le_bytes n v) = n.
Proof. revert v. induction n as [|n IH]; intros v; cbn [le_bytes length]; [done|by rewrite IH]. Qed.

Lemma le_value_bytes n v : le_value (le_bytes n v) = v mod 2 ^ (8 * Z.of_nat n).
Proof.
  revert v. induction n as [|n IH]; intros v; cbn [le_bytes le_value]; [by rewrite Z.mod_1_r|].
  rewrite IH. replace (8 * Z.of_nat (S n)) with (8 + 8 * Z.of_nat n) by lia. rewrite Z.pow_add_r by lia.
  by rewrite Z.rem_mul_r by lia.
Qed.

(** Storing bytes at an offset. *)
Definition stored (m : list Z) (off : Z) (l m' : list Z) : Prop :=
  zlen m' = zlen m /\ take (Z.to_nat off) m' = take (Z.to_nat off) m /\ bytes_at m' off (length l) = Some l.

Lemma store_ok m off l rest : 0 <= off -> off + zlen l <= zlen m ->
  exists m', at_off m off (fun p => memcpy p (l ++ rest) (zlen l)) = Some m' /\ stored m off l m'.
Proof.
  intros H0 Hl. unfold at_off, zlen in *. rewrite !(proj2 (Z.leb_le _ _)) by lia. cbn [andb].
  rewrite memcpy_ok by (rewrite ?length_drop, ?length_app; lia). rewrite bind_Some. eexists. split; [done|].
  rewrite take_app_length. unfold stored, bytes_at, zlen.
  assert (Hlen : length (take (Z.to_nat off) m ++ l ++ drop (length l) (drop (Z.to_nat off) m)) = length m).
  { rewrite !length_app, length_take, !length_drop. lia. }
  rewrite Hlen, !(proj2 (Z.leb_le _ _)) by lia. cbn [andb]. split_and!; [done|..].
  - rewrite take_app_le, take_take by (rewrite length_take; lia). f_equal. lia.
  - rewrite drop_app_ge by (rewrite length_take; lia). rewrite length_take, Nat.min_l, Nat.sub_diag, drop_0 by lia. by rewrite take_app_length.
Qed.

Lemma bytes_at_agree m M off n k : take (Z.to_nat k) M = take (Z.to_nat k) m -> zlen M = zlen m -> 0 <= off -> off + Z.of_nat n <= k ->
  bytes_at M off n = bytes_at m off n.
Proof.
  intros Ht Hl Ho Hk. unfold bytes_at. rewrite Hl. case_match; [|done]. f_equal.
  rewrite !take_drop_commute. replace (Z.to_nat off + n)%nat with (Init.Nat.min (Z.to_nat off + n) (Z.to_nat k)) by lia.
  by rewrite <-!take_take, Ht.
Qed.

Lemma take_agree {A} (m M : list A) k k' : take k' M = take k' m -> (k <= k')%nat -> take k M = take k m.
Proof. intros H Hk. replace k with (Init.Nat.min k k') by lia. by rewrite <-!take_take, H. Qed.

(** What recording a value does: the record grows, keeps what it holds, and
    holds the bytes [l] at [at_] when they fit. *)
Definition recorded (end_ off : Z) (m : list Z) (r : list Z * Z) (at_ : Z) (l : list Z) : Prop :=
  off <= at_ /\ snd r = at_ + zlen l /\ zlen (fst r) = zlen m /\ take (Z.to_nat off) (fst r) = take (Z.to_nat off) m /\
  (snd r < end_ -> bytes_at (fst r) at_ (length l) = Some l).

Lemma save_arg_ok end_ a n v m off : 0 <= off -> end_ <= zlen m -> a = 1 \/ a = 2 \/ a = 4 ->
  exists r, save_arg end_ a n v (m, off) = Some r /\ recorded end_ off m r (ALIGN off a) (le_bytes n v).
Proof.
  intros Ho He Ha. unfold save_arg. destruct (ALIGN_range off a Ho Ha) as [Hal _]. unfold recorded, zlen. rewrite !le_bytes_length. bcase.
  - destruct (store_ok m (ALIGN off a) (le_bytes n v) []) as (m' & Hm & Hs); [lia|unfold zlen in *; rewrite le_bytes_length; lia|].
    rewrite app_nil_r in Hm. unfold zlen in Hm. rewrite le_bytes_length in Hm. rewrite Hm, bind_Some. eexists. split; [done|].
    destruct Hs as (Hs1 & Hs2 & Hs3). cbn [fst snd]. unfold zlen in *. rewrite le_bytes_length in Hs3.
    split_and!; try done; try lia. eapply take_agree; [exact Hs2|lia].
  - rewrite bind_Some. eexists. split; [done|]. cbn [fst snd]. split_and!; try done; lia.
Qed.

Lemma save_string_ok end_ addr mem t rest m off : 0 <= off -> end_ <= zlen m -> str t ->
  (if (2 ^ 32 - PAGE_SIZE <? addr) || (addr <? PAGE_SIZE) then null_string else mem) = t ++ 0 :: rest ->
  exists r, save_string end_ addr mem (m, off) = Some r /\ recorded end_ off m r off (t ++ [0]).
Proof.
  intros Ho He Ht Hmem. unfold save_string. rewrite Hmem, strlen_ok, bind_Some by done. pose proof (zlen_nonneg t).
  assert (Hz : zlen (t ++ [0]) = zlen t + 1) by (by rewrite zlen_app). unfold recorded. rewrite Hz. bcase.
  - destruct (store_ok m off (t ++ [0]) rest) as (m' & Hm & Hs); [lia..|].
    rewrite <-app_assoc, Hz in Hm. cbn [app] in Hm. rewrite Hm, bind_Some. eexists. split; [done|].
    destruct Hs as (Hs1 & Hs2 & Hs3). cbn [fst snd]. split_and!; try done; lia.
  - rewrite bind_Some. eexists. split; [done|]. cbn [fst snd]. split_and!; try done; lia.
Qed.

(** ** Proofs: one conversion *)

(** The conversions that bstr_printf() prints like vsnprintf(): %ld does not
    take a negative number, and the pointers still point to the same memory. *)
Definition recordable (deref : Z -> list Z) (spec : printf_spec) (args : list arg) : Prop :=
  match type spec, args with
  | FORMAT_TYPE_LONG, AWord x :: _ => 0 <= s32 x
  | FORMAT_TYPE_STR, APtr addr _ :: _ => addr <= 2 ^ 32 - PAGE_SIZE
  | FORMAT_TYPE_PTR, APtr addr mem :: _ => deref addr = mem
  | _, _ => True
  end.

(** The later records [M] that agree with the record [r]. *)
Definition extends (r : list Z * Z) (M : list Z) : Prop :=
  zlen M = zlen (fst r) /\ take (Z.to_nat (snd r)) M = take (Z.to_nat (snd r)) (fst r).

Lemma recorded_bytes end_ off m r at_ l M : 0 <= off -> recorded end_ off m r at_ l -> extends r M -> snd r < end_ ->
  bytes_at M at_ (length l) = Some l.
Proof.
  intros Ho (H1 & H2 & H3 & H4 & H5) [Hl Ht] He. rewrite (bytes_at_agree (fst r) M _ _ (snd r)); [by apply H5|done..|lia|].
  unfold zlen in H2. lia.
Qed.

Lemma get_arg_ok end_ off m r a n v M : 0 <= off -> recorded end_ off m r (ALIGN off a) (le_bytes n v) ->
  extends r M -> snd r < end_ -> get_arg M a n off = Some (v mod 2 ^ (8 * Z.of_nat n), snd r).
Proof.
  intros Ho Hr Hx He. pose proof (recorded_bytes _ _ _ _ _ _ M Ho Hr Hx He) as Hb. rewrite le_bytes_length in Hb.
  unfold get_arg. rewrite Hb, bind_Some, le_value_bytes. destruct Hr as (_ & -> & _). unfold zlen. by rewrite le_bytes_length.
Qed.

Lemma bytes_at_text M off t : str t -> bytes_at M off (length (t ++ [0])) = Some (t ++ [0]) -> exists rest, drop (Z.to_nat off) M = t ++ 0 :: rest.
Proof.
  intros Ht. unfold bytes_at. case_match; [|done]. intros [= Hb]. exists (drop (length (t ++ [0])) (drop (Z.to_nat off) M)).
  rewrite <-(take_drop (length (t ++ [0])) (drop (Z.to_nat off) M)) at 1. by rewrite Hb, <-app_assoc.
Qed.

(** What recording and printing one part of a format do together. *)
Definition agrees (env : ptr_env) (deref : Z -> list Z) (addr end_ : Z) (old_fmt fmt : list Z) (read off : Z) (args : list arg)
    (spec spec_v : printf_spec) (m t fmt' : list Z) (args' : list arg) (spec' : printf_spec) : Prop :=
  exists r, record_arg end_ fmt args spec_v (m, off) = Some {| b_fmt := fmt'; b_args := args'; b_spec := spec_v; b_bin := r |} /\
    off <= snd r /\ zlen (fst r) = zlen m /\ take (Z.to_nat off) (fst r) = take (Z.to_nat off) m /\
    forall M e str, extends r M -> snd r < end_ -> room e str ->
      bstr_convert env deref M addr e old_fmt fmt read off spec str =
        Some {| s_fmt := fmt'; s_args := snd r; s_spec := spec'; s_str := emits e t str |}.

Lemma recorded_grows end_ off m r at_ l : recorded end_ off m r at_ l ->
  off <= snd r /\ zlen (fst r) = zlen m /\ take (Z.to_nat off) (fst r) = take (Z.to_nat off) m.
Proof. intros (H1 & H2 & H3 & H4 & _). pose proof (zlen_nonneg l). split_and!; try done. lia. Qed.

Lemma s16_word x : s16 (s32 (x mod 2 ^ 32)) = s16 x.
Proof. unfold s16, s32. zlia. Qed.

Lemma word_size_align ty : Z.of_nat (word_size ty) = 1 \/ Z.of_nat (word_size ty) = 2 \/ Z.of_nat (word_size ty) = 4.
Proof. destruct ty; cbn; lia. Qed.

Section One.
Context (env : ptr_env) (deref : Z -> list Z) (addr end_ off : Z) (m : list Z).
Context (Ho : 0 <= off) (He : end_ <= zlen m).

Lemma integer_agrees old_fmt fmt read args args' spec spec_v num : type spec_v = type spec ->
  integer_conversion (type spec) = true -> printf_base (base spec) -> widths_ok spec -> recordable deref spec args ->
  integer_arg (type spec) args = Some (num, args') ->
  agrees env deref addr end_ old_fmt fmt read off args spec spec_v m (number_text num spec) fmt args' spec.
Proof.
  intros Hty Hi Hb Hw Hrec Ha. pose proof (integer_arg_range _ _ _ _ Ha) as Hn. unfold agrees, record_arg, bstr_convert. rewrite Hty.
  unfold integer_arg in Ha. case_decide as Hll.
  - rewrite Hll. destruct args as [|[x|x|ptr mem] args]; try done. cbn in Ha. injection Ha as <- <-. cbn [arg_long_long]. rewrite bind_Some.
    destruct (save_arg_ok end_ 4 8 x m off Ho He) as (r & Hs & Hr); [lia|]. cbn [fst snd]. rewrite Hs, bind_Some.
    exists r. split; [done|]. destruct (recorded_grows _ _ _ _ _ _ Hr) as (H1 & H2 & H3). split_and!; [done..|].
    intros M e str Hx Hlt Hroom. unfold integer_get. rewrite (get_arg_ok _ _ _ _ _ _ _ M Ho Hr Hx Hlt), !bind_Some. cbn [fst snd].
    replace (u64 (s64 (x mod 2 ^ (8 * Z.of_nat 8)))) with (u64 x); [by rewrite number_ok|]. change (8 * Z.of_nat 8) with 64. unfold u64, s64. zlia.
  - destruct args as [|[x|x|ptr mem] args]; try done. cbn [arg_word] in *. rewrite bind_Some in Ha. injection Ha as <- <-.
    destruct (save_arg_ok end_ _ (word_size (type spec)) x m off Ho He (word_size_align (type spec))) as (r & Hs & Hr).
    destruct (recorded_grows _ _ _ _ _ _ Hr) as (H1 & H2 & H3). exists r. split.
    { destruct (type spec); try done; rewrite bind_Some; cbn [fst snd]; by rewrite Hs. }
    split_and!; [done..|]. intros M e str Hx Hlt Hroom.
    set (v := match type spec with FORMAT_TYPE_ULONG => _ | _ => _ end) in *.
    assert (Hget : integer_get M (type spec) off = Some (u64 v, snd r)).
    { unfold integer_get, v, recordable in *. pose proof (get_arg_ok _ _ _ _ _ _ _ M Ho Hr Hx Hlt) as Hg.
      destruct (type spec); try done; rewrite Hg, bind_Some; f_equal; f_equal;
        cbn [word_size]; change (8 * Z.of_nat 1) with 8; change (8 * Z.of_nat 2) with 16; change (8 * Z.of_nat 4) with 32;
        unfold u64, ulong, s32, u32, s16, u16, s8, u8, BITS_PER_LONG in *; zlia. }
    destruct (type spec); try done; by rewrite Hget, bind_Some, number_ok.
Qed.

Lemma string_agrees old_fmt fmt read args spec spec_v ptr mem t rest : type spec = FORMAT_TYPE_STR -> type spec_v = type spec -> string_spec_ok spec ->
  (if (2 ^ 32 - PAGE_SIZE <? ptr) || (ptr <? PAGE_SIZE) then null_string else mem) = t ++ 0 :: rest -> str t -> zlen t < 2 ^ 31 ->
  PAGE_SIZE <= addr ->
  agrees env deref addr end_ old_fmt fmt read off (APtr ptr mem :: args) spec spec_v m (string_text t spec) fmt args spec.
Proof.
  intros Hty Hv [Hw Hp] Hmem Ht Hl Haddr. unfold agrees, record_arg, bstr_convert. rewrite Hv, Hty. cbn [arg_ptr]. rewrite bind_Some.
  destruct (save_string_ok end_ ptr mem t rest m off Ho He Ht Hmem) as (r & -> & Hr). rewrite bind_Some. exists r. split; [done|].
  destruct (recorded_grows _ _ _ _ _ _ Hr) as (H1 & H2 & H3). split_and!; [done..|]. intros M e str Hx Hlt Hroom.
  destruct (bytes_at_text M off t Ht (recorded_bytes _ _ _ _ _ _ M Ho Hr Hx Hlt)) as [rest' ->].
  rewrite strlen_ok, bind_Some, string_ok, bind_Some by (done || lia). destruct Hr as (_ & -> & _). rewrite zlen_app.
  by replace (off + zlen t + 1) with (off + (zlen t + zlen [0])) by (change (zlen [0]) with 1; lia).
Qed.

(** A part that records nothing. *)
Lemma nothing_agrees old_fmt fmt read args spec spec_v t fmt' args' spec' :
  record_arg end_ fmt args spec_v (m, off) = Some {| b_fmt := fmt'; b_args := args'; b_spec := spec_v; b_bin := (m, off) |} ->
  (forall M e str, room e str -> bstr_convert env deref M addr e old_fmt fmt read off spec str =
     Some {| s_fmt := fmt'; s_args := off; s_spec := spec'; s_str := emits e t str |}) ->
  agrees env deref addr end_ old_fmt fmt read off args spec spec_v m t fmt' args' spec'.
Proof. intros Hr Hb. exists (m, off). split_and!; [done|cbn; lia|done..|]. intros M e str _ _ Hroom. by apply Hb. Qed.

(** A part that records one value of [n] bytes. *)
Lemma value_agrees old_fmt fmt read args spec spec_v t fmt' args' spec' a n v : a = 1 \/ a = 2 \/ a = 4 ->
  record_arg end_ fmt args spec_v (m, off) =
    (bin ← save_arg end_ a n v (m, off); Some {| b_fmt := fmt'; b_args := args'; b_spec := spec_v; b_bin := bin |}) ->
  (forall M e str off', room e str -> get_arg M a n off = Some (v mod 2 ^ (8 * Z.of_nat n), off') ->
     bstr_convert env deref M addr e old_fmt fmt read off spec str =
     Some {| s_fmt := fmt'; s_args := off'; s_spec := spec'; s_str := emits e t str |}) ->
  agrees env deref addr end_ old_fmt fmt read off args spec spec_v m t fmt' args' spec'.
Proof.
  intros Ha Hr Hb. destruct (save_arg_ok end_ a n v m off Ho He Ha) as (r & Hs & Hrec). rewrite Hs, bind_Some in Hr. exists r.
  destruct (recorded_grows _ _ _ _ _ _ Hrec) as (H1 & H2 & H3). split_and!; [done..|]. intros M e str Hx Hlt Hroom.
  apply Hb; [done|]. exact (get_arg_ok _ _ _ _ _ _ _ M Ho Hrec Hx Hlt).
Qed.

Lemma part_agrees old_fmt read pos fmt args spec spec_v t st fmt' args' spec' :
  converts env old_fmt read pos fmt args spec t st fmt' args' spec' -> recordable deref spec args ->
  type spec_v = type spec -> 0 <= read <= zlen old_fmt -> PAGE_SIZE <= addr ->
  (integer_conversion (type spec) = true -> printf_base (base spec)) ->
  agrees env deref addr end_ old_fmt fmt read off args spec spec_v m t fmt' args' spec'.
Proof.
  intros Hc Hrec Hty Hread Haddr Hbase.
  destruct Hc as [fmt args spec E|fmt args spec x E|fmt args spec x E|fmt args spec x E Hw|fmt args spec ptr t rest E Hsp Ha Ht Hl|
    fmt args spec ptr mem E Hsp Ha|fmt fmt' args spec ptr mem t E Hpre Ht Hsk|fmt args spec E|fmt args spec ptr mem E|
    fmt args args' spec num Hi Hw Ha].
  - apply nothing_agrees; unfold record_arg, bstr_convert; rewrite ?Hty, E; [done|]. intros. by rewrite put_literal_ok.
  - apply (value_agrees _ _ _ _ _ _ _ _ _ _ 4 4 x); [lia|..]; unfold record_arg, bstr_convert; rewrite ?Hty, E; [done|].
    intros M e str off' _ ->. rewrite bind_Some. cbn [fst snd]. by rewrite s16_word.
  - apply (value_agrees _ _ _ _ _ _ _ _ _ _ 4 4 x); [lia|..]; unfold record_arg, bstr_convert; rewrite ?Hty, E; [done|].
    intros M e str off' _ ->. rewrite bind_Some. cbn [fst snd]. by rewrite s16_word.
  - apply (value_agrees _ _ _ _ _ _ _ _ _ _ 1 1 x); [lia|..]; unfold record_arg, bstr_convert; rewrite ?Hty, E; [done|].
    intros M e str off' Hroom ->. rewrite bind_Some. cbn [fst snd]. rewrite put_char_ok, bind_Some by done.
    by replace (char_text (x mod 2 ^ (8 * Z.of_nat 1)) spec) with (char_text x spec)
      by (unfold char_text, u8; change (8 * Z.of_nat 1) with 8; by rewrite Z.mod_mod).
  - apply (string_agrees _ _ _ _ _ _ _ _ _ rest); try done. unfold recordable in Hrec. rewrite E in Hrec.
    by rewrite !(proj2 (Z.ltb_ge _ _)) by lia.
  - apply (string_agrees _ _ _ _ _ _ _ _ _ []); try done; [|by repeat constructor].
    by rewrite (proj2 (Z.ltb_lt ptr PAGE_SIZE)), orb_true_r by lia.
  - unfold recordable in Hrec. rewrite E in Hrec. pose proof (pre_ptr _ _ _ _ _ Hpre) as Hptr.
    apply (value_agrees _ _ _ _ _ _ _ _ _ _ 4 4 ptr); [lia|..]; unfold record_arg, bstr_convert; rewrite ?Hty, E.
    + cbn [arg_ptr]. rewrite bind_Some. by rewrite Hsk.
    + intros M e str off' Hroom ->. rewrite bind_Some. cbn [fst snd]. change (8 * Z.of_nat 4) with 32. rewrite Z.mod_small, Hrec by lia.
      by rewrite (pointer_prints_text env _ _ _ _ t), bind_Some, Hsk by done.
  - apply nothing_agrees; unfold record_arg, bstr_convert; rewrite ?Hty; destruct E as [-> | ->]; try done; intros; by rewrite put_ok.
  - apply nothing_agrees; unfold record_arg, bstr_convert; rewrite ?Hty, E; done.
  - by apply integer_agrees; auto.
Qed.
End One.

(** ** Proofs: a whole format *)

(** vbin_printf() does not know widths and precisions; what it reads of the
    format does not depend on them. *)
Definition alike (s1 s2 : printf_spec) : Prop := type s1 = type s2 /\ has (flags s1) SIGN = has (flags s2) SIGN.
Definition same_decode (r1 r2 : option (Z * printf_spec)) : Prop :=
  match r1, r2 with
  | Some (n1, s1), Some (n2, s2) => n1 = n2 /\ alike s1 s2
  | None, None => True
  | _, _ => False
  end.

Lemma has_lor fl fl' bit : has (Z.lor fl fl') bit = has fl bit || has fl' bit.
Proof.
  unfold has, truth. rewrite Z.land_lor_distr_l.
  destruct (Z.eqb_spec (Z.lor (Z.land fl bit) (Z.land fl' bit)) 0) as [H|H].
  - apply Z.lor_eq_0_iff in H as [-> ->]. done.
  - destruct (Z.eqb_spec (Z.land fl bit) 0) as [E1|]; [|done]. destruct (Z.eqb_spec (Z.land fl' bit) 0) as [E2|]; [|done].
    by rewrite E1, E2 in H.
Qed.

Lemma decode_type_alike fmt n s1 s2 : qualifier s1 = qualifier s2 -> has (flags s1) SIGN = has (flags s2) SIGN ->
  same_decode (decode_type fmt n s1) (decode_type fmt n s2).
Proof.
  intros Hq Hs. unfold decode_type, same_decode, alike. destruct fmt as [|c fmt]; [done|]. rewrite arr_get_0, !bind_Some.
  repeat match goal with |- context [if ?b then Some _ else _] => destruct b end.
  all: cbn; unfold integer_type; cbn; by rewrite ?has_lor, ?Hs, ?Hq.
Qed.

Lemma decode_qualifier_alike fmt n s1 s2 : has (flags s1) SIGN = has (flags s2) SIGN ->
  same_decode (decode_qualifier fmt n s1) (decode_qualifier fmt n s2).
Proof.
  intros Hs. unfold decode_qualifier. destruct fmt as [|c fmt]; [done|]. rewrite arr_get_0, !bind_Some.
  case_match; [|by apply decode_type_alike]. destruct ((c :: fmt).[1]) as [c'|]; [|done]. rewrite !bind_Some.
  repeat case_match; by apply decode_type_alike.
Qed.

Lemma decode_precision_alike fmt n s1 s2 : has (flags s1) SIGN = has (flags s2) SIGN ->
  same_decode (decode_precision fmt n s1) (decode_precision fmt n s2).
Proof.
  intros Hs. unfold decode_precision. destruct fmt as [|c fmt]; [done|]. rewrite arr_get_0, !bind_Some.
  case_match; [|by apply decode_qualifier_alike]. destruct ((c :: fmt).[1]) as [c'|]; [|done]. rewrite !bind_Some.
  case_match; [|case_match; [done|by apply decode_qualifier_alike]].
  destruct (skip_atoi _ _ _) as [[[i f] k]|]; [|done]. rewrite !bind_Some. by apply decode_qualifier_alike.
Qed.

Lemma format_decode_alike fmt s1 s2 : alike s1 s2 -> same_decode (format_decode fmt s1) (format_decode fmt s2).
Proof.
  intros [Ht Hs]. unfold format_decode. rewrite Ht. case_decide; [|case_decide].
  - apply decode_precision_alike. cbn. repeat case_match; cbn; rewrite ?has_lor, ?orb_false_r; done.
  - apply decode_qualifier_alike. cbn. repeat case_match; done.
  - destruct (literal_len fmt 0) as [n|]; [|done]. rewrite !bind_Some. destruct (fmt.[n]) as [c|]; [|done]. rewrite !bind_Some.
    case_match; [done|]. destruct (decode_flags _ _ _) as [[[fl f] k]|]; [|done]. rewrite !bind_Some.
    destruct (f.[0]) as [c'|]; [|done]. rewrite !bind_Some. case_match; [|case_match; [done|by apply decode_precision_alike]].
    destruct (skip_atoi _ _ _) as [[[i g] k']|]; [|done]. rewrite !bind_Some. by apply decode_precision_alike.
Qed.

Lemma converts_flags env old_fmt read pos fmt args spec t st fmt' args' spec' :
  converts env old_fmt read pos fmt args spec t st fmt' args' spec' -> flags spec' = flags spec.
Proof. by destruct 1. Qed.

Lemma vbin_body_part end_ c rest args spec read spec' bin : c <> 0 -> format_decode (c :: rest) spec = Some (read, spec') ->
  vbin_body end_ {| b_fmt := c :: rest; b_args := args; b_spec := spec; b_bin := bin |} =
    (s ← record_arg end_ (drop (Z.to_nat read) (c :: rest)) args spec' bin; Some (Next s)).
Proof.
  intros Hc Hd. unfold vbin_body. cbn [b_fmt b_args b_spec b_bin].
  by rewrite arr_get_0, bind_Some, (proj2 (Z.eqb_neq c 0)), Hd, bind_Some by done.
Qed.

Lemma bstr_body_part env deref bin addr end_ c rest args spec read spec' str : c <> 0 ->
  format_decode (c :: rest) spec = Some (read, spec') ->
  bstr_body env deref bin addr end_ {| s_fmt := c :: rest; s_args := args; s_spec := spec; s_str := str |} =
    (s ← bstr_convert env deref bin addr end_ (c :: rest) (drop (Z.to_nat read) (c :: rest)) read args spec' str; Some (Next s)).
Proof.
  intros Hc Hd. unfold bstr_body. cbn [s_fmt s_args s_spec s_str].
  by rewrite arr_get_0, bind_Some, (proj2 (Z.eqb_neq c 0)), Hd, bind_Some by done.
Qed.

Lemma formats_agree env deref addr end_ pos fmt args spec text stores :
  formats_with env (recordable deref) pos fmt args spec text stores -> PAGE_SIZE <= addr ->
  forall spec_v m off, alike spec_v spec -> 0 <= off -> end_ <= zlen m ->
  exists n s, steps (vbin_body end_) n {| b_fmt := fmt; b_args := args; b_spec := spec_v; b_bin := (m, off) |} = Some s /\
    Z.of_nat n <= potential fmt spec /\ vbin_body end_ s = Some (Done s) /\ off <= snd (b_bin s) /\
    zlen (fst (b_bin s)) = zlen m /\ take (Z.to_nat off) (fst (b_bin s)) = take (Z.to_nat off) m /\
    (snd (b_bin s) < end_ -> forall e str, room e str -> exists n' s',
       steps (bstr_body env deref (fst (b_bin s)) addr e) n' {| s_fmt := fmt; s_args := off; s_spec := spec; s_str := str |} = Some s' /\
       Z.of_nat n' <= potential fmt spec /\ bstr_body env deref (fst (b_bin s)) addr e s' = Some (Done s') /\ s_str s' = emits e text str).
Proof.
  intros Hf Haddr. induction Hf as [pos rest args spec|pos c rest args spec read spec' t st fmt' args' spec'' text stores Hc Hd Hrec Hcv Hf IH];
    intros spec_v m off Hal Ho He.
  - exists O. eexists. pose proof (potential_end rest spec). split; [done|]. cbn [b_bin fst snd]. split_and!; try done.
    intros _ e str Hroom. exists O. eexists. by split.
  - destruct (potential_part _ _ _ _ _ _ _ _ _ _ _ _ _ Hc Hd Hcv) as (Hread & Hbase & Hpot).
    pose proof (format_decode_alike (c :: rest) spec_v spec Hal) as Hsame. rewrite Hd in Hsame.
    destruct (format_decode (c :: rest) spec_v) as [[read' spec_v']|] eqn:Hd'; [|done]. destruct Hsame as [-> [Hty Hsg]].
    destruct (part_agrees env deref addr end_ off m Ho He _ _ _ _ _ _ spec_v' _ _ _ _ _ Hcv Hrec Hty Hread Haddr Hbase) as (r & Hr & H1 & H2 & H3 & Hb).
    destruct (IH spec_v' (fst r) (snd r)) as (n & s & Hn & Hnp & Hdone & H4 & H5 & H6 & Hprint); [|lia..|].
    { destruct (converts_rest _ _ _ _ _ _ _ _ _ _ _ _ Hcv) as [_ Hty']. split; [by rewrite Hty'|]. by rewrite (converts_flags _ _ _ _ _ _ _ _ _ _ _ _ Hcv). }
    exists (S n), s. destruct r as [m1 off1]. cbn [fst snd] in *. split_and!; try done; try lia.
    + cbn [steps]. by rewrite (vbin_body_part end_ c rest args spec_v read spec_v'), Hr by done.
    + rewrite <-H3. eapply take_agree; [exact H6|lia].
    + intros Hlt e str Hroom. destruct (Hprint Hlt e (emits e t str)) as (n' & s' & Hn' & Hnp' & Hdone' & Hstr); [auto with room|].
      exists (S n'), s'. rewrite emits_app. split_and!; [|lia|done..]. cbn [steps]. rewrite (bstr_body_part env deref _ addr e c rest off spec read spec') by done.
      by rewrite (Hb (fst (b_bin s)) e str) by (done || lia).
Qed.

(** ** The property *)



(** A string that fills the record to its end is not stored, although the
    result says that the record is large enough. *)
Example vbin_printf_drops_string :
  vbin_printf [9; 9; 9; 9] 1 [37; 115; 0] [APtr 4096 [97; 98; 99; 0]] = Some ([9; 9; 9; 9], 1).
Proof. vm_compute. reflexivity. Qed.

(** %ld of -1 is printed as 4294967295 from a record. *)
Example bstr_printf_negative_long :
  let env := {| symbol_text := fun _ _ => []; kptr_restrict := 0; has_cap_syslog := true; in_interrupt := false |} in
  (r ← vbin_printf [9; 9; 9; 9] 1 [37; 108; 100; 0] [AWord (2 ^ 32 - 1)];
   s ← bstr_printf env (fun _ => []) (repeat 9 11) 4096 11 [37; 108; 100; 0] (fst r) 8192;
   Some (fst s)) = Some [52; 50; 57; 52; 57; 54; 55; 50; 57; 53; 0].
Proof. vm_compute. reflexivity. Qed.
