(* ===== verification/Sscanf.v ===== *)
(** * Formatted input: vsscanf() in lib/vsprintf.c

    The arguments are pointers; what is stored through them is a list of
    stores, in order.  A text is the list of its characters from the current
    one on, with the number of characters before it.

    The theorem is that vsscanf() reads back what vsnprintf() prints. *)

From S2P Require Import Prelude Div64 CString Kstrtox VsprintfNum VsprintfPtr Vsprintf PrintParse.

(** ** Definitions *)

(** The characters from [addr] on, or a number of [size] bytes. *)
Inductive scanned :=
| SBytes (addr : Z) (l : list Z)
| SInt (addr size value : Z).

Record scan_state := {
  c_fmt : list Z;
  c_str : list Z;
  c_pos : Z;
  c_args : list Z;
  c_num : Z;
  c_stores : list scanned
}.

Definition set_fmt (s : scan_state) (fmt : list Z) : scan_state :=
  {| c_fmt := fmt; c_str := c_str s; c_pos := c_pos s; c_args := c_args s; c_num := c_num s; c_stores := c_stores s |}.
(** [str += n] *)
Definition advance (s : scan_state) (n : Z) : scan_state :=
  {| c_fmt := c_fmt s; c_str := drop (Z.to_nat n) (c_str s); c_pos := c_pos s + n; c_args := c_args s; c_num := c_num s;
     c_stores := c_stores s |}.
(** A store through the next argument, which counts as a conversion if [n] is 1. *)
Definition store_arg (s : scan_state) (n : Z) (st : Z -> scanned) : option scan_state :=
  match c_args s with
  | p :: args => Some {| c_fmt := c_fmt s; c_str := c_str s; c_pos := c_pos s; c_args := args; c_num := c_num s + n;
                         c_stores := c_stores s ++ [st p] |}
  | [] => None
  end.

(** *** "%*": both texts go on to the next white space *)

Fixpoint skip_conversion (fmt : list Z) : option (list Z) :=
  match fmt with
  | c :: fmt' => if negb (isspace c) && negb (c =? 37) && negb (c =? 0) then skip_conversion fmt' else Some fmt
  | [] => None
  end.

Fixpoint word_length (str : list Z) : option Z :=
  match str with
  | c :: str' => if negb (isspace c) && negb (c =? 0) then n ← word_length str'; Some (n + 1) else Some 0
  | [] => None
  end.

Definition scan_qualifier (fmt : list Z) : option (Z * list Z) :=
  c ← fmt.[0];
  if (c =? 104 (* h *)) || (_tolower c =? 108 (* l *)) || (_tolower c =? 122 (* z *)) then
    c' ← fmt.[1];
    if (c =? c') && (c =? 104) then Some (72, drop 2 fmt)
    else if (c =? c') && (c =? 108) then Some (76, drop 2 fmt)
    else Some (c, drop 1 fmt)
  else Some (255, fmt).

(** *** %c and %s *)

Fixpoint scan_chars (str : list Z) (field_width : Z) : option (list Z) :=
  match str with
  | c :: str' =>
      let field_width := s16 (field_width - 1) in
      if 0 <? field_width then
        d ← str'.[0];
        if negb (d =? 0) then l ← scan_chars str' field_width; Some (c :: l) else Some [c]
      else Some [c]
  | [] => None
  end.

Fixpoint scan_word (str : list Z) (field_width : Z) : option (list Z) :=
  match str with
  | c :: str' =>
      if (c =? 0) || isspace c then Some []
      else if field_width =? 0 then Some []
      else l ← scan_word str' (s16 (field_width - 1)); Some (c :: l)
  | [] => None
  end.

(** *** Integers *)

(** The number, its size, and the text after it. *)
Definition scan_integer (qualifier base : Z) (is_sign : bool) (str : list Z) : option (Z * Z * list Z) :=
  if qualifier =? 72 (* H *) then
    if is_sign then r ← simple_strtol str base; Some (s8 (fst r), 1, snd r)
    else r ← simple_strtoul str base; Some (u8 (fst r), 1, snd r)
  else if qualifier =? 104 (* h *) then
    if is_sign then r ← simple_strtol str base; Some (s16 (fst r), 2, snd r)
    else r ← simple_strtoul str base; Some (u16 (fst r), 2, snd r)
  else if qualifier =? 108 (* l *) then
    if is_sign then r ← simple_strtol str base; Some (fst r, 4, snd r)
    else r ← simple_strtoul str base; Some (fst r, 4, snd r)
  else if qualifier =? 76 (* L *) then
    if is_sign then r ← simple_strtoll str base; Some (fst r, 8, snd r)
    else r ← simple_strtoull str base; Some (fst r, 8, snd r)
  else if (qualifier =? 90) || (qualifier =? 122) (* Z, z *) then
    r ← simple_strtoul str base; Some (fst r, 4, snd r)
  else
    if is_sign then r ← simple_strtol str base; Some (s32 (fst r), 4, snd r)
    else r ← simple_strtoul str base; Some (u32 (fst r), 4, snd r).

(** The first digit is one of the base. *)
Definition starts_number (base : Z) (is_sign : bool) (str : list Z) : option bool :=
  d ← str.[0];
  digit ← (if is_sign && (d =? 45) then str.[1] else Some d);
  Some (negb ((digit =? 0) || ((base =? 16) && negb (isxdigit digit)) || ((base =? 10) && negb (isdigit digit)) ||
              ((base =? 8) && (negb (isdigit digit) || (55 <? digit))) || ((base =? 0) && negb (isdigit digit)))).

(** How an iteration of the loop ends other than by [Next]: with a break, or
    with a return from the function. *)
Inductive scan_end :=
| Break (s : scan_state)
| Return (s : scan_state).

Definition scan_number (qualifier base : Z) (is_sign : bool) (s : scan_state) : option (step scan_state scan_end) :=
  n ← skip_spaces (c_str s);
  let s := advance s n in
  ok ← starts_number base is_sign (c_str s);
  if negb ok then Some (Done (Break s))
  else
    r ← scan_integer qualifier base is_sign (c_str s);
    let '(v, size, next) := r in
    s ← store_arg s 1 (fun p => SInt p size v);
    Some (Next (advance s (zlen (c_str s) - zlen next))).

(** The switch on the conversion [c], which has been read. *)
Definition scan_convert (c qualifier field_width : Z) (s : scan_state) : option (step scan_state scan_end) :=
  if c =? 99 (* c *) then
    l ← scan_chars (c_str s) (if field_width =? -1 then 1 else field_width);
    s ← store_arg s 1 (fun p => SBytes p l);
    Some (Next (advance s (zlen l)))
  else if c =? 115 (* s *) then
    n ← skip_spaces (c_str s);
    let s := advance s n in
    l ← scan_word (c_str s) (if field_width =? -1 then 2 ^ 15 - 1 else field_width);
    s ← store_arg s 1 (fun p => SBytes p (l ++ [0]));
    Some (Next (advance s (zlen l)))
  else if c =? 110 (* n *) then
    s ← store_arg s 0 (fun p => SInt p 4 (c_pos s));
    Some (Next s)
  else if c =? 111 (* o *) then scan_number qualifier 8 false s
  else if (c =? 120) || (c =? 88) (* x, X *) then scan_number qualifier 16 false s
  else if c =? 105 (* i *) then scan_number qualifier 0 true s
  else if c =? 100 (* d *) then scan_number qualifier 10 true s
  else if c =? 117 (* u *) then scan_number qualifier 10 false s
  else if c =? 37 (* % *) then
    d ← (c_str s).[0];
    if negb (d =? 37) then Some (Done (Return (advance s 1))) else Some (Next (advance s 1))
  else Some (Done (Return s)).

Definition scan_body (s : scan_state) : option (step scan_state scan_end) :=
  c ← (c_fmt s).[0];
  d ← (c_str s).[0];
  if (c =? 0) || (d =? 0) then Some (Done (Break s))
  else
    s ← (if isspace c then
           k ← skip_spaces (drop 1 (c_fmt s));
           n ← skip_spaces (c_str s);
           Some (advance (set_fmt s (drop (Z.to_nat (1 + k)) (c_fmt s))) n)
         else Some s);
    c ← (c_fmt s).[0];
    if negb (c =? 37) && negb (c =? 0) then
      d ← (c_str s).[0];
      let s := advance (set_fmt s (drop 1 (c_fmt s))) 1 in
      if negb (c =? d) then Some (Done (Break s)) else Some (Next s)
    else if c =? 0 then Some (Done (Break s))
    else
      let fmt := drop 1 (c_fmt s) in
      c ← fmt.[0];
      if c =? 42 (* * *) then
        fmt ← skip_conversion fmt;
        n ← word_length (c_str s);
        Some (Next (advance (set_fmt s fmt) n))
      else
        w ← (if isdigit c then r ← skip_atoi fmt 0 0; Some (s16 (fst (fst r)), snd (fst r)) else Some (-1, fmt));
        let '(field_width, fmt) := w in
        q ← scan_qualifier fmt;
        let '(qualifier, fmt) := q in
        c ← fmt.[0];
        d ← (c_str s).[0];
        if (c =? 0) || (d =? 0) then Some (Done (Break (set_fmt s fmt)))
        else scan_convert c qualifier field_width (set_fmt s (drop 1 fmt)).

(** Every iteration that goes on reads a character of the format. *)
Definition vsscanf (buf fmt args : list Z) : option (Z * list scanned) :=
  r ← loop scan_body (zlen fmt + 1) {| c_fmt := fmt; c_str := buf; c_pos := 0; c_args := args; c_num := 0; c_stores := [] |};
  match r with
  | Return s => Some (c_num s, c_stores s)
  | Break s =>
      c ← (c_fmt s).[0];
      n ← (if c =? 37 then c' ← (c_fmt s).[1]; Some (c' =? 110 (* n *)) else Some false);
      s ← (if n : bool then store_arg s 0 (fun p => SInt p 4 (c_pos s)) else Some s);
      Some (c_num s, c_stores s)
  end.

Definition sscanf := vsscanf.

(** ** Conversions that print and read the same number *)

Record conv := {
  letters : list Z;
  mk : Z -> arg;
  cast : Z -> Z;
  csize : Z;
  cbase : Z;
  csign : bool;
  cqual : Z;
  cspec : printf_spec
}.

Definition int_spec (ty : format_type) (fl b q : Z) : printf_spec :=
  {| type := ty; flags := fl; base := b; qualifier := q; field_width := -1; precision := -1 |}.

Definition conv_d : conv := {| letters := [100]; mk := AWord; cast := s32; csize := 4; cbase := 10; csign := true; cqual := 255;
  cspec := int_spec FORMAT_TYPE_INT SIGN 10 255 |}.
Definition conv_u : conv := {| letters := [117]; mk := AWord; cast := u32; csize := 4; cbase := 10; csign := false; cqual := 255;
  cspec := int_spec FORMAT_TYPE_UINT 0 10 255 |}.
Definition conv_x : conv := {| letters := [120]; mk := AWord; cast := u32; csize := 4; cbase := 16; csign := false; cqual := 255;
  cspec := int_spec FORMAT_TYPE_UINT SMALL 16 255 |}.
Definition conv_o : conv := {| letters := [111]; mk := AWord; cast := u32; csize := 4; cbase := 8; csign := false; cqual := 255;
  cspec := int_spec FORMAT_TYPE_UINT 0 8 255 |}.
Definition conv_hd : conv := {| letters := [104; 100]; mk := AWord; cast := s16; csize := 2; cbase := 10; csign := true; cqual := 104;
  cspec := int_spec FORMAT_TYPE_SHORT SIGN 10 104 |}.
Definition conv_hhx : conv := {| letters := [104; 104; 120]; mk := AWord; cast := u8; csize := 1; cbase := 16; csign := false; cqual := 72;
  cspec := int_spec FORMAT_TYPE_UBYTE SMALL 16 72 |}.
Definition conv_lu : conv := {| letters := [108; 117]; mk := AWord; cast := ulong; csize := 4; cbase := 10; csign := false; cqual := 108;
  cspec := int_spec FORMAT_TYPE_ULONG 0 10 108 |}.
Definition conv_lld : conv := {| letters := [108; 108; 100]; mk := ALongLong; cast := s64; csize := 8; cbase := 10; csign := true; cqual := 76;
  cspec := int_spec FORMAT_TYPE_LONG_LONG SIGN 10 76 |}.
Definition conv_llx : conv := {| letters := [108; 108; 120]; mk := ALongLong; cast := u64; csize := 8; cbase := 16; csign := false; cqual := 76;
  cspec := int_spec FORMAT_TYPE_LONG_LONG SMALL 16 76 |}.

Definition convs : list conv := [conv_d; conv_u; conv_x; conv_o; conv_hd; conv_hhx; conv_lu; conv_lld; conv_llx].

(** The text of the number [x]. *)
Definition piece (k : conv) (x : Z) : list Z :=
  (if csign k && (cast k x <? 0) then [45] else []) ++
  digits_text (cbase k) (Z.land (flags (cspec k)) SMALL) (if csign k && (cast k x <? 0) then - cast k x else cast k x).

(** A character that ends a number. *)
Definition separator (c : Z) : Prop :=
  0 < c < 256 /\ digit_val c = None /\ isspace c = false /\ c <> 37 /\ _tolower c <> 120.

(** ** Proofs: numbers before a separator *)

Lemma digit_prefix_stop b t c w : printf_base b -> digit_val c = None -> digit_prefix b (t ++ c :: w) = digit_prefix b t.
Proof.
  intros Hb Hc. induction t as [|d t IH]; cbn [app digit_prefix]; [by rewrite Hc|]. destruct (digit_val d); [|done]. by rewrite IH.
Qed.

Lemma starts_0x_stop t c w : t <> [] -> Forall digit_like t -> separator c -> starts_0x (t ++ c :: w) = false.
Proof.
  intros Ht Hd Hc. destruct t as [|d [|d' t]]; [done|..]; cbn [app starts_0x].
  - rewrite (proj2 (Z.eqb_neq (_tolower c) 120)), andb_false_r by apply Hc. done.
  - by apply (no_0x (d :: d' :: t)).
Qed.

Lemma strtoull_digits b locase n c w rest : printf_base b -> locase = 0 \/ locase = 32 -> 0 <= n < 2 ^ 64 -> separator c -> str w ->
  simple_strtoull (digits_text b locase n ++ c :: w ++ 0 :: rest) b = Some (n, c :: w ++ 0 :: rest).
Proof.
  intros Hb Hl Hn Hc Hw. set (t := digits_text b locase n). pose proof (digits_text_chars b locase Hb Hl n ltac:(lia) : Forall digit_like t) as Ht.
  assert (Hstr : str (t ++ c :: w)). { apply str_app. split; [by apply digits_str|]. apply str_cons. split; [apply Hc|done]. }
  replace (t ++ c :: w ++ 0 :: rest) with ((t ++ c :: w) ++ 0 :: rest) by (by rewrite <-app_assoc).
  unfold simple_strtoull. assert (b <> 0) by (destruct Hb as [?|[?|?]]; lia). rewrite (proj2 (Z.eqb_neq b 0)), bind_Some, skip_ok, bind_Some by done.
  rewrite starts_0x_stop, andb_false_r by (done || apply digits_text_ne).
  destruct (simple_digits_ok b (t ++ c :: w) rest Hstr 0) as (v & Hv & Hs). change (u64 0) with 0 in Hs. rewrite Hs.
  pose proof (value_digits_text b locase Hb Hl n Hn : value_from b 0 t = Some n) as Hval.
  rewrite (digit_prefix_stop b) in * by (done || apply Hc). rewrite (value_digits _ _ _ _ Hval), Hval in *. injection Hv as <-.
  rewrite drop_app_length. rewrite u64_small by lia. by cbn.
Qed.

Record conv_ok (k : conv) : Prop := {
  ok_decode : forall rest spec, takes_arg (type spec) = false ->
    format_decode (37 :: letters k ++ rest) spec = Some (zlen (letters k) + 1, cspec k);
  ok_arg : forall x args, integer_arg (type (cspec k)) (mk k x :: args) = Some (u64 (cast k x), args);
  ok_type : integer_conversion (type (cspec k)) = true /\ takes_arg (type (cspec k)) = false;
  ok_base : base (cspec k) = cbase k /\ printf_base (cbase k);
  ok_widths : field_width (cspec k) = -1 /\ precision (cspec k) = -1;
  ok_sign : has (flags (cspec k)) SIGN = csign k /\ has (flags (cspec k)) PLUS = false /\ has (flags (cspec k)) SPACE = false /\
    has (flags (cspec k)) SPECIAL = false;
  ok_range : forall x, if csign k then - 2 ^ 63 <= cast k x < 2 ^ 63 else 0 <= cast k x < 2 ^ 64;
  ok_scan : forall rest d str' pos args num stores, 0 < d ->
    scan_body {| c_fmt := 37 :: letters k ++ rest; c_str := d :: str'; c_pos := pos; c_args := args; c_num := num; c_stores := stores |} =
    scan_number (cqual k) (cbase k) (csign k)
      {| c_fmt := rest; c_str := d :: str'; c_pos := pos; c_args := args; c_num := num; c_stores := stores |};
  ok_integer : forall x c w rest, separator c -> str w ->
    scan_integer (cqual k) (cbase k) (csign k) (piece k x ++ c :: w ++ 0 :: rest) = Some (cast k x, csize k, c :: w ++ 0 :: rest)
}.

Lemma digits_not_minus b locase n : printf_base b -> locase = 0 \/ locase = 32 -> 0 <= n ->
  exists d t, digits_text b locase n = d :: t /\ d <> 45 /\ digit_like d.
Proof.
  intros Hb Hl Hn. pose proof (digits_text_chars b locase Hb Hl n Hn) as Ht. pose proof (digits_text_ne b locase n) as Hne.
  destruct (digits_text b locase n) as [|d t]; [done|]. apply List.Forall_inv in Ht. exists d, t. split_and!; [done| |done].
  apply digit_like_not in Ht. tauto.
Qed.

Definition signed_digits (locase v : Z) : list Z :=
  (if v <? 0 then [45] else []) ++ digits_text 10 locase (if v <? 0 then - v else v).

Section Signed.
Context (locase v c : Z) (w rest : list Z).
Context (Hl : locase = 0 \/ locase = 32) (Hc : separator c) (Hw : str w).

Let tail := c :: w ++ 0 :: rest.

Lemma printf_base_10 : printf_base 10.
Proof. by right; left. Qed.

Lemma strtoul_signed n : 0 <= n < 2 ^ 32 -> simple_strtoul (digits_text 10 locase n ++ tail) 10 = Some (n, tail).
Proof.
  intros Hn. unfold simple_strtoul, tail. rewrite (strtoull_digits 10 locase n c w rest printf_base_10 Hl) by (done || lia).
  by rewrite bind_Some, ulong_small by lia.
Qed.

Lemma signed_head A (f g : list Z -> option A) : - 2 ^ 63 <= v < 2 ^ 63 ->
  (d ← (signed_digits locase v ++ tail).[0];
   if d =? 45 then f (drop 1 (signed_digits locase v ++ tail)) else g (signed_digits locase v ++ tail)) =
  if v <? 0 then f (digits_text 10 locase (- v) ++ tail) else g (digits_text 10 locase v ++ tail).
Proof.
  intros Hv. unfold signed_digits. destruct (Z.ltb_spec v 0); [done|]. cbn [app].
  destruct (digits_not_minus 10 locase v printf_base_10 Hl) as (d & t & Ht & Hd & _); [lia|].
  rewrite Ht. cbn [app]. by rewrite arr_get_0, bind_Some, (proj2 (Z.eqb_neq d 45)).
Qed.

Lemma strtol_signed : - 2 ^ 31 <= v < 2 ^ 31 -> simple_strtol (signed_digits locase v ++ tail) 10 = Some (v, tail).
Proof.
  intros Hv. unfold simple_strtol.
  rewrite (signed_head _ (fun l => '(v, endp) ← simple_strtoul l 10; Some (s32 (ulong (- v)), endp))
    (fun l => '(v, endp) ← simple_strtoul l 10; Some (s32 v, endp))) by lia.
  bcase; rewrite strtoul_signed, bind_Some by lia; f_equal; f_equal; unfold s32, ulong, BITS_PER_LONG; zlia.
Qed.

Lemma strtoll_signed : - 2 ^ 63 <= v < 2 ^ 63 -> simple_strtoll (signed_digits locase v ++ tail) 10 = Some (v, tail).
Proof.
  intros Hv. unfold simple_strtoll.
  rewrite (signed_head _ (fun l => '(v, endp) ← simple_strtoull l 10; Some (s64 (u64 (- v)), endp))
    (fun l => '(v, endp) ← simple_strtoull l 10; Some (s64 v, endp))) by lia.
  bcase; unfold tail; rewrite (strtoull_digits 10 locase _ c w rest printf_base_10 Hl), bind_Some by (done || lia);
    f_equal; f_equal; unfold s64, u64; zlia.
Qed.
End Signed.

(** The conversions of the table are computed on a format whose rest is unknown. *)
Ltac conv_tac :=
  split;
  [intros rest [[] fl b q w p]; (done || (intros _; reflexivity))
  |intros x args; unfold integer_arg; cbn
  |done
  |split; [done|unfold printf_base; cbn; lia]
  |done
  |done
  |intros x; cbn
  |intros rest d str' pos args num stores Hd; destruct d as [|d|d]; [lia|reflexivity|lia]
  |intros x c w rest Hc Hw].

(** Numbers with a sign. *)
Lemma conv_d_ok : conv_ok conv_d.
Proof.
  conv_tac; [done|unfold s32; zlia|]. change (piece conv_d x) with (signed_digits 0 (s32 x)). unfold scan_integer.
  cbn [cqual conv_d csign cbase csize cast Z.eqb Pos.eqb orb]. assert (- 2 ^ 31 <= s32 x < 2 ^ 31) by (unfold s32; zlia).
  rewrite (strtol_signed 0 (s32 x) c w rest), bind_Some by (done || by left). cbn [fst snd]. by rewrite s32_small.
Qed.

Lemma conv_hd_ok : conv_ok conv_hd.
Proof.
  conv_tac; [done|unfold s16; zlia|]. change (piece conv_hd x) with (signed_digits 0 (s16 x)). unfold scan_integer.
  cbn [cqual conv_hd csign cbase csize cast Z.eqb Pos.eqb orb]. assert (- 2 ^ 15 <= s16 x < 2 ^ 15) by (unfold s16; zlia).
  rewrite (strtol_signed 0 (s16 x) c w rest), bind_Some by (done || (by left) || lia). cbn [fst snd]. by rewrite s16_small by lia.
Qed.

Lemma conv_lld_ok : conv_ok conv_lld.
Proof.
  conv_tac; [f_equal; f_equal; unfold u64, s64; zlia|unfold s64; zlia|]. change (piece conv_lld x) with (signed_digits 0 (s64 x)). unfold scan_integer.
  cbn [cqual conv_lld csign cbase csize cast Z.eqb Pos.eqb orb]. assert (- 2 ^ 63 <= s64 x < 2 ^ 63) by (unfold s64; zlia).
  by rewrite (strtoll_signed 0 (s64 x) c w rest), bind_Some by (done || by left).
Qed.

(** Numbers without a sign: [k] is a conversion whose result [f] leaves alone. *)
Lemma unsigned_integer k f x c w rest : csign k = false -> printf_base (cbase k) -> separator c -> str w ->
  0 <= cast k x < 2 ^ 32 -> f (cast k x) = cast k x ->
  (r ← simple_strtoul (piece k x ++ c :: w ++ 0 :: rest) (cbase k); Some (f (fst r), csize k, snd r)) =
    Some (cast k x, csize k, c :: w ++ 0 :: rest).
Proof.
  intros Hs Hb Hc Hw Hx Hf. unfold piece, simple_strtoul. rewrite Hs. cbn [andb app].
  rewrite strtoull_digits, !bind_Some by (done || lia || apply small_cases). cbn [fst snd]. by rewrite ulong_small, Hf by lia.
Qed.

Ltac unsigned_tac k f := unfold scan_integer; cbn [cqual k csign Z.eqb Pos.eqb orb];
  apply (unsigned_integer k f); [done|unfold printf_base; cbn; lia|done|done|cbn; unfold u8, u16, u32, ulong, BITS_PER_LONG; zlia|
    cbn; unfold u8, u16, u32, ulong, BITS_PER_LONG; zlia].

Lemma conv_u_ok : conv_ok conv_u.
Proof. conv_tac; [done|unfold u32; zlia|unsigned_tac conv_u u32]. Qed.
Lemma conv_x_ok : conv_ok conv_x.
Proof. conv_tac; [done|unfold u32; zlia|unsigned_tac conv_x u32]. Qed.
Lemma conv_o_ok : conv_ok conv_o.
Proof. conv_tac; [done|unfold u32; zlia|unsigned_tac conv_o u32]. Qed.
Lemma conv_hhx_ok : conv_ok conv_hhx.
Proof. conv_tac; [done|unfold u8; zlia|unsigned_tac conv_hhx u8]. Qed.
Lemma conv_lu_ok : conv_ok conv_lu.
Proof. conv_tac; [done|unfold ulong, BITS_PER_LONG; zlia|unsigned_tac conv_lu (@id Z)]. Qed.
Lemma conv_llx_ok : conv_ok conv_llx.
Proof.
  conv_tac; [f_equal; f_equal; unfold u64; zlia|unfold u64; zlia|]. unfold scan_integer, piece. cbn [cqual conv_llx csign cbase csize cast Z.eqb Pos.eqb orb andb app].
  rewrite strtoull_digits, bind_Some; [done|by right; right|by right|unfold u64; zlia|done..].
Qed.

Lemma convs_ok : Forall conv_ok convs.
Proof.
  repeat (apply List.Forall_cons; [eauto using conv_d_ok, conv_u_ok, conv_x_ok, conv_o_ok, conv_hd_ok, conv_hhx_ok, conv_lu_ok, conv_lld_ok, conv_llx_ok|]).
  apply List.Forall_nil.
Qed.

(** ** Proofs: one conversion *)

Lemma first_digit b locase n : printf_base b -> locase = 0 \/ locase = 32 -> 0 <= n ->
  exists d t, digits_text b locase n = d :: t /\ 0 < d /\ d <> 45 /\ isspace d = false /\
    forall sign w, starts_number b sign (d :: w) = Some true.
Proof.
  intros Hb Hl Hn. assert (H2 : 2 <= b) by (destruct Hb as [?|[?|?]]; lia). pose proof (digits_range b 22 n H2 Hn) as Hr.
  pose proof (digits_text_ne b locase n) as Hne. unfold digits_text in *. apply Forall_rev in Hr. rewrite <-map_rev in *.
  destruct (rev (digits b 22 n)) as [|dv ds]; [done|]. apply List.Forall_inv in Hr. cbn [map]. eexists _, _. split; [done|].
  set (P := fun i => let d := digit_char locase (Z.of_nat i) in (0 <? d) && negb (d =? 45) && negb (isspace d) &&
    bool_decide (starts_number b true [d] = Some true) && bool_decide (starts_number b false [d] = Some true)).
  assert (HP : forallb P (seq 0 (Z.to_nat b)) = true) by (destruct Hb as [-> |[-> | ->]], Hl as [-> | ->]; vm_compute; reflexivity).
  pose proof (forallb_seq_lt P _ HP dv ltac:(lia)) as Hp. unfold P in Hp. rewrite Z2Nat.id in Hp by lia. cbv zeta in Hp.
  rewrite !andb_true_iff, !negb_true_iff, Z.ltb_lt, Z.eqb_neq, !bool_decide_eq_true in Hp. destruct Hp as [[[[H0 H45] Hs] Ht] Hf].
  split_and!; try done. intros sign w. unfold starts_number in *. rewrite arr_get_0, bind_Some in *.
  rewrite (proj2 (Z.eqb_neq _ 45) H45), andb_false_r in *. by destruct sign.
Qed.

Lemma skip_no_space d t : isspace d = false -> skip_spaces (d :: t) = Some 0.
Proof. intros H. exact (skip_spaces_ok [] d t (List.Forall_nil _) H). Qed.

Lemma advance_0 s : advance s 0 = s.
Proof. destruct s. unfold advance. cbn [c_str c_fmt c_pos c_args c_num c_stores Z.to_nat]. by rewrite drop_0, Z.add_0_r. Qed.

Lemma piece_number k x : conv_ok k -> exists d t, piece k x = d :: t /\ 0 < d /\ isspace d = false /\
  forall w, starts_number (cbase k) (csign k) (d :: t ++ w) = Some true.
Proof.
  intros Hk. destruct (ok_base k Hk) as [_ Hb]. pose proof (ok_range k Hk x) as Hr. unfold piece.
  destruct (csign k) eqn:Hs; cbn [andb]; [destruct (Z.ltb_spec (cast k x) 0)|]; cbn [app].
  - destruct (first_digit (cbase k) (Z.land (flags (cspec k)) SMALL) (- cast k x) Hb (small_cases _) ltac:(lia)) as (d & t & -> & _ & _ & _ & Hd).
    exists 45, (d :: t). split_and!; try done. intros w. specialize (Hd false (t ++ w)). unfold starts_number in *. by rewrite arr_get_0, bind_Some in *.
  - destruct (first_digit (cbase k) (Z.land (flags (cspec k)) SMALL) (cast k x) Hb (small_cases _) ltac:(lia)) as (d & t & -> & H0 & _ & Hsp & Hd).
    by exists d, t.
  - destruct (first_digit (cbase k) (Z.land (flags (cspec k)) SMALL) (cast k x) Hb (small_cases _) ltac:(lia)) as (d & t & -> & H0 & _ & Hsp & Hd).
    by exists d, t.
Qed.

Lemma scan_piece k x c w rest fmt p args pos num stores : conv_ok k -> separator c -> str w ->
  scan_body {| c_fmt := 37 :: letters k ++ fmt; c_str := piece k x ++ c :: w ++ 0 :: rest; c_pos := pos; c_args := p :: args; c_num := num;
               c_stores := stores |} =
  Some (Next {| c_fmt := fmt; c_str := c :: w ++ 0 :: rest; c_pos := pos + zlen (piece k x); c_args := args; c_num := num + 1;
                c_stores := stores ++ [SInt p (csize k) (cast k x)] |}).
Proof.
  intros Hk Hc Hw. pose proof (ok_integer k Hk x c w rest Hc Hw) as Hi. destruct (piece_number k x Hk) as (d & t & Hp & H0 & Hs & Hd).
  rewrite Hp in *. cbn [app] in *. rewrite (ok_scan k Hk) by done. unfold scan_number. cbn [c_str]. rewrite skip_no_space, bind_Some by done.
  cbv zeta. rewrite advance_0. cbn [c_str]. rewrite Hd, bind_Some. cbn [negb]. rewrite Hi, bind_Some.
  unfold store_arg, advance. cbn [c_str c_fmt c_pos c_args c_num c_stores]. rewrite bind_Some. cbn [c_str c_fmt c_pos c_args c_num c_stores].
  set (l := c :: w ++ 0 :: rest).
  replace (zlen (d :: t ++ l) - zlen l) with (zlen (d :: t)) by (rewrite !zlen_cons, zlen_app; lia).
  f_equal. f_equal. f_equal. unfold zlen. rewrite Nat2Z.id. by rewrite app_comm_cons, drop_app_length.
Qed.

Lemma scan_separator c w rest fmt args pos num stores : separator c ->
  scan_body {| c_fmt := c :: fmt; c_str := c :: w ++ 0 :: rest; c_pos := pos; c_args := args; c_num := num; c_stores := stores |} =
  Some (Next {| c_fmt := fmt; c_str := w ++ 0 :: rest; c_pos := pos + 1; c_args := args; c_num := num; c_stores := stores |}).
Proof.
  intros (Hc & _ & Hs & H37 & _). unfold scan_body. cbn [c_fmt c_str]. rewrite !arr_get_0, !bind_Some, (proj2 (Z.eqb_neq c 0)), Hs by lia.
  cbn [orb]. rewrite bind_Some. cbn [c_fmt c_str]. rewrite !arr_get_0, !bind_Some, (proj2 (Z.eqb_neq c 37)), (proj2 (Z.eqb_neq c 0)), Z.eqb_refl by lia.
  cbn [negb andb]. done.
Qed.

(** ** Lists of conversions *)

(** A conversion, its argument, the character after it, and the pointer it is read through. *)
Record item := { i_conv : conv; i_value : Z; i_sep : Z; i_ptr : Z }.

Definition item_ok (i : item) : Prop := In (i_conv i) convs /\ separator (i_sep i).

Fixpoint items_fmt (l : list item) : list Z :=
  match l with [] => [0] | i :: l' => 37 :: letters (i_conv i) ++ i_sep i :: items_fmt l' end.
Fixpoint items_text (l : list item) : list Z :=
  match l with [] => [] | i :: l' => piece (i_conv i) (i_value i) ++ [i_sep i] ++ items_text l' end.
Definition items_args (l : list item) : list arg := map (fun i => mk (i_conv i) (i_value i)) l.
Definition items_stores (l : list item) : list scanned := map (fun i => SInt (i_ptr i) (csize (i_conv i)) (cast (i_conv i) (i_value i))) l.

Lemma item_conv_ok i : item_ok i -> conv_ok (i_conv i).
Proof. intros [Hi _]. by apply (proj1 (List.Forall_forall _ _) convs_ok). Qed.

Lemma piece_str k x : conv_ok k -> str (piece k x).
Proof.
  intros Hk. destruct (ok_base k Hk) as [_ Hb]. pose proof (ok_range k Hk x) as Hr. unfold piece. apply str_app. split.
  - destruct (csign k && (cast k x <? 0)); repeat constructor; lia.
  - apply digits_str, digits_text_chars; [done|apply small_cases|]. destruct (csign k); cbn [andb]; [destruct (Z.ltb_spec (cast k x) 0)|]; lia.
Qed.

Lemma items_str l : Forall item_ok l -> str (items_text l).
Proof.
  induction 1 as [|i l Hi Hl IH]; [constructor|]. cbn [items_text]. apply str_app. split; [by apply piece_str, item_conv_ok|].
  apply str_app. split; [|done]. apply str_cons. split; [apply Hi|constructor].
Qed.

(** What is printed is the piece. *)
Lemma piece_text k x : conv_ok k -> number_text (u64 (cast k x)) (cspec k) = piece k x.
Proof.
  intros Hk. destruct (ok_widths k Hk) as [Hw Hp]. rewrite number_text_plain by done. unfold unsigned_text, prefix_text, piece, sign_text, magnitude.
  destruct (ok_sign k Hk) as (-> & -> & -> & ->). destruct (ok_base k Hk) as [-> _]. cbn [andb app]. pose proof (ok_range k Hk x) as Hr.
  destruct (csign k); cbn [andb].
  - rewrite s64_u64, s64_small by lia. bcase; cbn [app]; [by rewrite u64_small by lia|by rewrite u64_small by lia].
  - by rewrite u64_small by lia.
Qed.

Lemma items_fmt_head l : Forall item_ok l -> exists c fmt, items_fmt l = c :: fmt /\ (c = 0 \/ c = 37).
Proof. destruct 1; cbn [items_fmt]; eauto. Qed.

(** The separator is a literal part of one character. *)
Lemma decode_separator c l spec : separator c -> Forall item_ok l -> takes_arg (type spec) = false ->
  format_decode (c :: items_fmt l) spec = Some (1, set_type spec FORMAT_TYPE_NONE).
Proof.
  intros (Hc & _ & _ & H37 & _) Hl Ht. destruct (items_fmt_head l Hl) as (c' & fmt & -> & Hc').
  unfold format_decode. rewrite !decide_False by (by destruct (type spec)). cbn [literal_len].
  rewrite (proj2 (Z.eqb_neq c 0)), (proj2 (Z.eqb_neq c 37)) by lia. cbn [orb].
  assert ((c' =? 0) || (c' =? 37) = true) as -> by (destruct Hc' as [-> | ->]; done). by rewrite bind_Some, arr_get_1, bind_Some.
Qed.

Lemma items_formats env l : Forall item_ok l -> forall pos spec, takes_arg (type spec) = false ->
  formats env pos (items_fmt l) (items_args l) spec (items_text l) [].
Proof.
  induction 1 as [|i l Hi Hl IH]; intros pos spec Ht; cbn [items_fmt items_text items_args map]; [apply formats_end|].
  pose proof (item_conv_ok i Hi) as Hk. destruct (ok_type _ Hk) as [Hint Hta]. set (k := i_conv i) in *. set (x := i_value i).
  set (rest := i_sep i :: items_fmt l).
  assert (Hdrop : drop (Z.to_nat (zlen (letters k) + 1)) (37 :: letters k ++ rest) = rest).
  { unfold zlen. replace (Z.to_nat (Z.of_nat (length (letters k)) + 1)) with (S (length (letters k))) by lia. cbn [drop]. by rewrite drop_app_length. }
  apply (formats_part env _ pos 37 (letters k ++ rest) _ spec (zlen (letters k) + 1) (cspec k) (piece k x) [] rest (items_args l) (cspec k) _ []);
    [done|by apply ok_decode|done| |].
  - rewrite Hdrop, <-piece_text by done. apply conv_integer; [done| |by apply ok_arg]. destruct (ok_widths _ Hk). unfold widths_ok. lia.
  - unfold rest. apply (formats_part env _ _ _ _ _ _ 1 (set_type (cspec k) FORMAT_TYPE_NONE) [i_sep i] [] (items_fmt l) (items_args l)
      (set_type (cspec k) FORMAT_TYPE_NONE) _ []); [destruct Hi as [_ [? _]]; lia|by apply decode_separator; [apply Hi|..]|done| |].
    + by apply (conv_literal env (i_sep i :: items_fmt l) 1).
    + by apply IH.
Qed.

Lemma items_scan l rest : Forall item_ok l -> forall pos num stores,
  steps scan_body (2 * length l) {| c_fmt := items_fmt l; c_str := items_text l ++ 0 :: rest; c_pos := pos; c_args := map i_ptr l; c_num := num;
    c_stores := stores |} =
  Some {| c_fmt := [0]; c_str := 0 :: rest; c_pos := pos + zlen (items_text l); c_args := []; c_num := num + zlen l;
    c_stores := stores ++ items_stores l |}.
Proof.
  induction 1 as [|i l Hi Hl IH]; intros pos num stores.
  - cbn. by rewrite !Z.add_0_r, app_nil_r.
  - replace (2 * length (i :: l))%nat with (S (S (2 * length l))) by (cbn [length]; lia). cbn [items_fmt items_text map].
    replace ((piece (i_conv i) (i_value i) ++ [i_sep i] ++ items_text l) ++ 0 :: rest) with
      (piece (i_conv i) (i_value i) ++ i_sep i :: items_text l ++ 0 :: rest) by (by rewrite <-app_assoc).
    cbn [steps]. rewrite scan_piece, bind_Some by (by apply item_conv_ok || apply Hi || by apply items_str).
    rewrite scan_separator, bind_Some by apply Hi. rewrite IH. rewrite <-app_assoc. unfold items_stores. cbn [map app].
    rewrite !zlen_app, !zlen_cons. f_equal. f_equal; lia.
Qed.

Lemma items_fmt_len l : 2 * Z.of_nat (length l) < zlen (items_fmt l).
Proof.
  induction l as [|i l IH]; [done|]. cbn [items_fmt length]. rewrite zlen_cons, zlen_app, zlen_cons. pose proof (zlen_nonneg (letters (i_conv i))). lia.
Qed.

Lemma sscanf_items l rest : Forall item_ok l ->
  vsscanf (items_text l ++ 0 :: rest) (items_fmt l) (map i_ptr l) = Some (zlen l, items_stores l).
Proof.
  intros Hl. unfold vsscanf. pose proof (items_fmt_len l).
  by rewrite (loop_steps _ (2 * length l) _ _ _ _ (items_scan l rest Hl 0 0 []) eq_refl), bind_Some by lia.
Qed.

(** ** The property *)


