(* ===== verification/RbTree.v ===== *)
(** * Red-black trees: lib/rbtree.c and include/linux/rbtree.h

    The nodes live in a memory that maps addresses to nodes; NULL is 0, and
    reading or writing through a pointer to no node has no result.  A node
    holds the address of its parent and its colour in one word.

    This file has the operations, and what they do to the tree that a memory
    represents, one step at a time: reading a node, changing a colour, a
    rotation.  The files RbInsert.v, RbErase.v and RbWalk.v build on them. *)

From stdpp Require Import list gmap.
From S2P Require Import Prelude.

(** ** Definitions *)

Record rb_node := { rb_parent_color : Z; rb_right : Z; rb_left : Z }.

Definition RB_RED : Z := 0.
Definition RB_BLACK : Z := 1.

(** The memory and the root pointer. *)
Record rb_root := { mem : gmap Z rb_node; root : Z }.

Definition rb_parent (r : rb_node) : Z := Z.land (rb_parent_color r) (Z.lnot 3).
Definition rb_color (r : rb_node) : Z := Z.land (rb_parent_color r) 1.
Definition rb_is_red (r : rb_node) : bool := negb (truth (rb_color r)).
Definition rb_is_black (r : rb_node) : bool := truth (rb_color r).

Definition with_pc (r : rb_node) (pc : Z) : rb_node := {| rb_parent_color := pc; rb_right := rb_right r; rb_left := rb_left r |}.
Definition with_right (r : rb_node) (p : Z) : rb_node := {| rb_parent_color := rb_parent_color r; rb_right := p; rb_left := rb_left r |}.
Definition with_left (r : rb_node) (p : Z) : rb_node := {| rb_parent_color := rb_parent_color r; rb_right := rb_right r; rb_left := p |}.

(** Loads and stores. *)
Definition node_at (s : rb_root) (p : Z) : option rb_node := mem s !! p.
Definition update (s : rb_root) (p : Z) (f : rb_node -> rb_node) : option rb_root :=
  r ← node_at s p; Some {| mem := <[p := f r]> (mem s); root := root s |}.
Definition set_root (s : rb_root) (p : Z) : rb_root := {| mem := mem s; root := p |}.

Definition rb_set_red (s : rb_root) (p : Z) : option rb_root :=
  update s p (fun r => with_pc r (Z.land (rb_parent_color r) (Z.lnot 1))).
Definition rb_set_black (s : rb_root) (p : Z) : option rb_root :=
  update s p (fun r => with_pc r (Z.lor (rb_parent_color r) 1)).
Definition rb_set_parent (s : rb_root) (rb p : Z) : option rb_root :=
  update s rb (fun r => with_pc r (Z.lor (Z.land (rb_parent_color r) 3) p)).
Definition rb_set_color (s : rb_root) (rb color : Z) : option rb_root :=
  update s rb (fun r => with_pc r (Z.lor (Z.land (rb_parent_color r) (Z.lnot 1)) color)).
Definition set_left (s : rb_root) (p v : Z) : option rb_root := update s p (fun r => with_left r v).
Definition set_right (s : rb_root) (p v : Z) : option rb_root := update s p (fun r => with_right r v).

(** The test of a child that may be NULL. *)
Definition red_child (s : rb_root) (p : Z) : option bool :=
  if p =? 0 then Some false else r ← node_at s p; Some (rb_is_red r).
Definition black_child (s : rb_root) (p : Z) : option bool :=
  if p =? 0 then Some true else r ← node_at s p; Some (rb_is_black r).

(** Where *rb_link points to. *)
Inductive link := LinkRoot | LinkLeft (p : Z) | LinkRight (p : Z).

Definition set_link (s : rb_root) (l : link) (v : Z) : option rb_root :=
  match l with
  | LinkRoot => Some (set_root s v)
  | LinkLeft p => set_left s p v
  | LinkRight p => set_right s p v
  end.

Definition rb_link_node (s : rb_root) (node parent : Z) (rb_link : link) : option rb_root :=
  s ← update s node (fun _ => {| rb_parent_color := parent; rb_right := 0; rb_left := 0 |});
  set_link s rb_link node.

Definition rb_init_node (s : rb_root) (rb : Z) : option rb_root :=
  s ← update s rb (fun _ => {| rb_parent_color := 0; rb_right := 0; rb_left := 0 |});
  rb_set_parent s rb rb.

(** In both rotations, and wherever a node is replaced by another one. *)
Definition replace_child (s : rb_root) (parent old new : Z) : option rb_root :=
  if truth parent then
    p ← node_at s parent;
    if old =? rb_left p then set_left s parent new else set_right s parent new
  else Some (set_root s new).

Definition __rb_rotate_left (s : rb_root) (node : Z) : option rb_root :=
  n ← node_at s node;
  let right := rb_right n in
  let parent := rb_parent n in
  r ← node_at s right;
  s ← set_right s node (rb_left r);
  s ← (if truth (rb_left r) then rb_set_parent s (rb_left r) node else Some s);
  s ← set_left s right node;
  s ← rb_set_parent s right parent;
  s ← replace_child s parent node right;
  rb_set_parent s node right.

(** The mirror image compares with the right child first. *)
Definition replace_child' (s : rb_root) (parent old new : Z) : option rb_root :=
  if truth parent then
    p ← node_at s parent;
    if old =? rb_right p then set_right s parent new else set_left s parent new
  else Some (set_root s new).

Definition __rb_rotate_right (s : rb_root) (node : Z) : option rb_root :=
  n ← node_at s node;
  let left := rb_left n in
  let parent := rb_parent n in
  l ← node_at s left;
  s ← set_left s node (rb_right l);
  s ← (if truth (rb_right l) then rb_set_parent s (rb_right l) node else Some s);
  s ← set_right s left node;
  s ← rb_set_parent s left parent;
  s ← replace_child' s parent node left;
  rb_set_parent s node left.

(** ** The tree in memory *)

Inductive color := Red | Black.
#[export] Instance color_eq_dec : EqDecision color.
Proof. solve_decision. Defined.

Definition color_bit (c : color) : Z := match c with Red => RB_RED | Black => RB_BLACK end.

(** A tree whose nodes are identified by their addresses. *)
Inductive tree := Leaf | Node (c : color) (l : tree) (a : Z) (r : tree).

Definition addr (t : tree) : Z := match t with Leaf => 0 | Node _ _ a _ => a end.

(** The nodes in order. *)
Fixpoint inorder (t : tree) : list Z :=
  match t with Leaf => [] | Node _ l a r => inorder l ++ a :: inorder r end.

(** Node addresses are not NULL and leave room for the colour. *)
Definition valid_addr (a : Z) : Prop := 0 < a /\ a mod 4 = 0.

Definition node_of (parent : Z) (c : color) (l r : Z) : rb_node :=
  {| rb_parent_color := parent + color_bit c; rb_right := r; rb_left := l |}.

(** What a tree occupies in memory: its nodes, each with its contents. *)
Fixpoint entries (t : tree) (parent : Z) : list (Z * rb_node) :=
  match t with
  | Leaf => []
  | Node c l a r => (a, node_of parent c (addr l) (addr r)) :: entries l a ++ entries r a
  end.

(** The way from a subtree to the root: each frame is a node with its other child. *)
Inductive frame :=
| FL (c : color) (a : Z) (r : tree)  (* the subtree is the left child *)
| FR (l : tree) (c : color) (a : Z). (* the subtree is the right child *)

Definition plug1 (t : tree) (f : frame) : tree :=
  match f with FL c a r => Node c t a r | FR l c a => Node c l a t end.
Definition plug (C : list frame) (t : tree) : tree := foldl plug1 t C.

Definition frame_addr (f : frame) : Z := match f with FL _ a _ => a | FR _ _ a => a end.
Definition up (C : list frame) : Z := match C with [] => 0 | f :: _ => frame_addr f end.

(** What is around a subtree at the address [p]. *)
Fixpoint entries_above (C : list frame) (p : Z) : list (Z * rb_node) :=
  match C with
  | [] => []
  | FL c a r :: C' => (a, node_of (up C') c p (addr r)) :: entries r a ++ entries_above C' a
  | FR l c a :: C' => (a, node_of (up C') c (addr l) p) :: entries l a ++ entries_above C' a
  end.

(** The memory holds the nodes [P], and [F] everywhere else. *)
Record owns (s : rb_root) (F : gmap Z rb_node) (P : list (Z * rb_node)) : Prop := {
  own_nodup : NoDup P.*1;
  own_valid : Forall valid_addr P.*1;
  own_lookup : forall k n, (k, n) ∈ P -> mem s !! k = Some n;
  own_rest : forall k, k ∉ P.*1 -> mem s !! k = F !! k
}.

(** The memory represents a tree, seen from the subtree [t] below [C]. *)
Definition at_subtree (F : gmap Z rb_node) (s : rb_root) (C : list frame) (t : tree) : Prop :=
  owns s F (entries t (up C) ++ entries_above C (addr t)) /\ root s = addr (plug C t).

(** The memory represents the tree [t]. *)
Definition represents (F : gmap Z rb_node) (s : rb_root) (t : tree) : Prop := at_subtree F s [] t.

(** ** Proofs: permutations of lists made of [::] and [++] *)

Lemma perm_cons_at {A} (x : A) l l1 l2 : l ≡ₚ l1 ++ l2 -> x :: l ≡ₚ l1 ++ x :: l2.
Proof. intros ->. apply Permutation_middle. Qed.

Lemma perm_app_at {A} (k l l1 l2 : list A) : l ≡ₚ l1 ++ l2 -> k ++ l ≡ₚ l1 ++ k ++ l2.
Proof. intros ->. apply Permutation_app_swap_app. Qed.

Ltac app_norm := repeat first [rewrite <-app_assoc | progress cbn [app]].

(** Finds the first part of the left side on the right side. *)
Ltac perm_find part acc R :=
  lazymatch R with
  | part :: ?R' => constr:((acc, R'))
  | part ++ ?R' => constr:((acc, R'))
  | ?x :: ?R' => perm_find part constr:(acc ++ [x]) R'
  | ?x ++ ?R' => perm_find part constr:(acc ++ x) R'
  end.

Ltac perm_step :=
  lazymatch goal with
  | |- [] ≡ₚ [] => reflexivity
  | |- ?x :: ?l ≡ₚ ?R =>
      let T := type of x in
      let p := perm_find x constr:(@nil T) R in
      lazymatch p with (?acc, ?R') =>
        transitivity (acc ++ x :: R'); [|by app_norm];
        apply perm_cons_at; app_norm
      end
  | |- ?k ++ ?l ≡ₚ ?R =>
      let T := lazymatch type of k with list ?T => T end in
      let p := perm_find k constr:(@nil T) R in
      lazymatch p with (?acc, ?R') =>
        transitivity (acc ++ k ++ R'); [|by app_norm];
        apply perm_app_at; app_norm
      end
  end.

(** [++ []] is put at the end of both sides, so that the last part is like the others. *)
Ltac perm := app_norm; match goal with |- ?l ≡ₚ ?r => rewrite <-(app_nil_r l), <-(app_nil_r r) end; app_norm; repeat perm_step.

(** ** Proofs: memory *)

Lemma owns_perm s F P Q : owns s F P -> P ≡ₚ Q -> owns s F Q.
Proof.
  intros [H1 H2 H3 H4] HP. split.
  - by rewrite <-HP.
  - by rewrite <-HP.
  - intros k n. rewrite <-HP. apply H3.
  - intros k. rewrite <-HP. apply H4.
Qed.

Lemma owns_load s F k n P : owns s F ((k, n) :: P) -> node_at s k = Some n.
Proof. intros H. apply (own_lookup _ _ _ H). left. Qed.

Lemma owns_update s F k n P f : owns s F ((k, n) :: P) ->
  exists s', update s k f = Some s' /\ owns s' F ((k, f n) :: P) /\ root s' = root s.
Proof.
  intros H. unfold update. rewrite (owns_load _ _ _ _ _ H), bind_Some. eexists. split; [done|]. split; [|done].
  destruct H as [H1 H2 H3 H4]. cbn [fmap list_fmap fst] in *. apply list.NoDup_cons in H1 as [Hk H1]. split; cbn [mem fmap list_fmap fst].
  - by apply list.NoDup_cons.
  - done.
  - intros j m Hj. apply elem_of_cons in Hj as [[= -> ->]|Hj]; [by rewrite lookup_insert_eq|].
    rewrite lookup_insert_ne; [apply H3; by right|]. intros <-. destruct Hk. apply list_elem_of_fmap. by exists (k, m).
  - intros j Hj. rewrite lookup_insert_ne; [by apply H4|]. intros <-. destruct Hj. left.
Qed.

(** ** Proofs: the word that holds the parent and the colour *)

Section Word.
Context (p : Z) (c : color) (Hp : p mod 4 = 0).

Let pc := p + color_bit c.

Lemma land_lnot3 x : Z.land x (Z.lnot 3) = x / 4 * 4.
Proof. rewrite <-Z.ldiff_land. change 3 with (Z.ones 2). by rewrite Z.ldiff_ones_r, Z.shiftr_div_pow2, Z.shiftl_mul_pow2 by lia. Qed.

Lemma land_lnot1 x : Z.land x (Z.lnot 1) = x / 2 * 2.
Proof. rewrite <-Z.ldiff_land. change 1 with (Z.ones 1). by rewrite Z.ldiff_ones_r, Z.shiftr_div_pow2, Z.shiftl_mul_pow2 by lia. Qed.

Lemma land_1 x : Z.land x 1 = x mod 2.
Proof. change 1 with (Z.ones 1). by rewrite Z.land_ones. Qed.

Lemma land_3 x : Z.land x 3 = x mod 4.
Proof. change 3 with (Z.ones 2). by rewrite Z.land_ones. Qed.

Lemma pc_parent : Z.land pc (Z.lnot 3) = p.
Proof. rewrite land_lnot3. unfold pc, color_bit, RB_RED, RB_BLACK. destruct c; zlia. Qed.

Lemma pc_color : Z.land pc 1 = color_bit c.
Proof. rewrite land_1. unfold pc, color_bit, RB_RED, RB_BLACK. destruct c; zlia. Qed.

Lemma pc_set_red : Z.land pc (Z.lnot 1) = p + color_bit Red.
Proof. rewrite land_lnot1. unfold pc, color_bit, RB_RED, RB_BLACK. destruct c; zlia. Qed.

Lemma pc_set_black : Z.lor pc 1 = p + color_bit Black.
Proof. pose proof (Z.add_lor_land pc 1) as H. rewrite land_1 in H. unfold pc, color_bit, RB_RED, RB_BLACK in *. destruct c; zlia. Qed.

Lemma pc_set_parent q : q mod 4 = 0 -> Z.lor (Z.land pc 3) q = q + color_bit c.
Proof.
  intros Hq. pose proof (Z.add_lor_land (Z.land pc 3) q) as H. rewrite <-Z.land_assoc, (Z.land_comm 3 q), (land_3 q), Hq, Z.land_0_r, (land_3 pc) in H.
  rewrite land_3. unfold pc, color_bit, RB_RED, RB_BLACK in *. destruct c; zlia.
Qed.

Lemma pc_set_color c' : Z.lor (Z.land pc (Z.lnot 1)) (color_bit c') = p + color_bit c'.
Proof. rewrite pc_set_red. unfold color_bit, RB_RED, RB_BLACK. destruct c'; [by rewrite Z.lor_0_r|]. pose proof (Z.add_lor_land (p + 0) 1) as H. rewrite land_1 in H. zlia. Qed.
End Word.

(** ** Proofs: reading and writing nodes *)

Lemma is_red_node p c l r : p mod 4 = 0 -> rb_is_red (node_of p c l r) = bool_decide (c = Red).
Proof. intros Hp. unfold rb_is_red, rb_color. cbn [node_of rb_parent_color]. rewrite pc_color by done. by destruct c. Qed.

Lemma is_black_node p c l r : p mod 4 = 0 -> rb_is_black (node_of p c l r) = bool_decide (c = Black).
Proof. intros Hp. unfold rb_is_black, rb_color. cbn [node_of rb_parent_color]. rewrite pc_color by done. by destruct c. Qed.

Lemma parent_node p c l r : p mod 4 = 0 -> rb_parent (node_of p c l r) = p.
Proof. intros Hp. unfold rb_parent. by apply pc_parent. Qed.

Section Owns.
Context (s : rb_root) (F : gmap Z rb_node).

Lemma owns_valid k n P : owns s F ((k, n) :: P) -> valid_addr k.
Proof. intros H. by apply (Forall_inv (own_valid _ _ _ H)). Qed.

Lemma own_set_red k p c l r P : owns s F ((k, node_of p c l r) :: P) -> p mod 4 = 0 ->
  exists s', rb_set_red s k = Some s' /\ owns s' F ((k, node_of p Red l r) :: P) /\ root s' = root s.
Proof.
  intros H Hp. destruct (owns_update _ _ _ _ _ (fun r => with_pc r (Z.land (rb_parent_color r) (Z.lnot 1))) H) as (s' & Hs & Ho & Hr).
  exists s'. split; [done|]. split; [|done]. unfold with_pc in Ho. cbn [node_of rb_parent_color rb_left rb_right] in Ho. by rewrite pc_set_red in Ho.
Qed.

Lemma own_set_black k p c l r P : owns s F ((k, node_of p c l r) :: P) -> p mod 4 = 0 ->
  exists s', rb_set_black s k = Some s' /\ owns s' F ((k, node_of p Black l r) :: P) /\ root s' = root s.
Proof.
  intros H Hp. destruct (owns_update _ _ _ _ _ (fun r => with_pc r (Z.lor (rb_parent_color r) 1)) H) as (s' & Hs & Ho & Hr).
  exists s'. split; [done|]. split; [|done]. unfold with_pc in Ho. cbn [node_of rb_parent_color rb_left rb_right] in Ho. by rewrite pc_set_black in Ho.
Qed.

Lemma own_set_color k p c l r c' P : owns s F ((k, node_of p c l r) :: P) -> p mod 4 = 0 ->
  exists s', rb_set_color s k (color_bit c') = Some s' /\ owns s' F ((k, node_of p c' l r) :: P) /\ root s' = root s.
Proof.
  intros H Hp. destruct (owns_update _ _ _ _ _ (fun r => with_pc r (Z.lor (Z.land (rb_parent_color r) (Z.lnot 1)) (color_bit c'))) H) as (s' & Hs & Ho & Hr).
  exists s'. split; [done|]. split; [|done]. unfold with_pc in Ho. cbn [node_of rb_parent_color rb_left rb_right] in Ho. by rewrite pc_set_color in Ho.
Qed.

Lemma own_set_parent k p c l r q P : owns s F ((k, node_of p c l r) :: P) -> p mod 4 = 0 -> q mod 4 = 0 ->
  exists s', rb_set_parent s k q = Some s' /\ owns s' F ((k, node_of q c l r) :: P) /\ root s' = root s.
Proof.
  intros H Hp Hq. destruct (owns_update _ _ _ _ _ (fun r => with_pc r (Z.lor (Z.land (rb_parent_color r) 3) q)) H) as (s' & Hs & Ho & Hr).
  exists s'. split; [done|]. split; [|done]. unfold with_pc in Ho. cbn [node_of rb_parent_color rb_left rb_right] in Ho. by rewrite pc_set_parent in Ho.
Qed.

Lemma own_set_left k p c l r q P : owns s F ((k, node_of p c l r) :: P) ->
  exists s', set_left s k q = Some s' /\ owns s' F ((k, node_of p c q r) :: P) /\ root s' = root s.
Proof. intros H. exact (owns_update _ _ _ _ _ (fun r => with_left r q) H). Qed.

Lemma own_set_right k p c l r q P : owns s F ((k, node_of p c l r) :: P) ->
  exists s', set_right s k q = Some s' /\ owns s' F ((k, node_of p c l q) :: P) /\ root s' = root s.
Proof. intros H. exact (owns_update _ _ _ _ _ (fun r => with_right r q) H). Qed.
End Owns.

(** ** Proofs: moving in the tree *)

Lemma addr_plug C t t' : addr t = addr t' -> addr (plug C t) = addr (plug C t').
Proof. revert t t'. induction C as [|[] C IH]; intros t t' H; [done|by apply IH..]. Qed.

Lemma addr_plug_cons f C t t' : addr (plug (f :: C) t) = addr (plug (f :: C) t').
Proof. apply (addr_plug C). by destruct f. Qed.

Section Move.
Context (F : gmap Z rb_node) (s : rb_root) (C : list frame).

Lemma move_left c l a r : at_subtree F s C (Node c l a r) <-> at_subtree F s (FL c a r :: C) l.
Proof.
  unfold at_subtree. change (plug (FL c a r :: C) l) with (plug C (Node c l a r)). cbn [entries entries_above up frame_addr addr].
  split; intros [Ho Hr]; (split; [|done]); (eapply owns_perm; [exact Ho|perm]).
Qed.

Lemma move_right c l a r : at_subtree F s C (Node c l a r) <-> at_subtree F s (FR l c a :: C) r.
Proof.
  unfold at_subtree. change (plug (FR l c a :: C) r) with (plug C (Node c l a r)). cbn [entries entries_above up frame_addr addr].
  split; intros [Ho Hr]; (split; [|done]); (eapply owns_perm; [exact Ho|perm]).
Qed.

Lemma move_up f t : at_subtree F s (f :: C) t <-> at_subtree F s C (plug1 t f).
Proof. destruct f; cbn [plug1]; [symmetry; apply move_left|symmetry; apply move_right]. Qed.
End Move.

Lemma move_top F s C t : at_subtree F s C t <-> represents F s (plug C t).
Proof.
  unfold represents. revert t. induction C as [|f C IH]; intros t; [done|]. rewrite move_up. apply IH.
Qed.

(** The address above a subtree is that of a node, or NULL. *)
Lemma up_valid s F C p P : owns s F (P ++ entries_above C p) -> C = [] /\ up C = 0 \/ valid_addr (up C).
Proof.
  destruct C as [|f C]; [by left|]. intros Ho. right. apply (owns_valid s F _ (match f with FL c a r => node_of (up C) c p (addr r) | FR l c a => node_of (up C) c (addr l) p end)
    (match f with FL c a r => P ++ entries r a ++ entries_above C a | FR l c a => P ++ entries l a ++ entries_above C a end)).
  eapply owns_perm; [exact Ho|]. destruct f; cbn [entries_above up frame_addr]; perm.
Qed.

Lemma up_mod s F C p P : owns s F (P ++ entries_above C p) -> up C mod 4 = 0.
Proof. intros [[_ ->]|[_ H]]%up_valid; done. Qed.

(** ** Proofs: reading the node of a subtree *)

Lemma at_node F s C c l a r : at_subtree F s C (Node c l a r) ->
  valid_addr a /\ up C mod 4 = 0 /\ node_at s a = Some (node_of (up C) c (addr l) (addr r)).
Proof.
  intros [Ho _]. pose proof (up_mod _ _ _ _ _ Ho) as Hu. cbn [entries addr app] in Ho.
  split_and!; [by eapply owns_valid|done|by eapply owns_load].
Qed.

Lemma addr_zero F s C t : at_subtree F s C t -> addr t = 0 -> t = Leaf.
Proof. intros H Ha. destruct t as [|c l a r]; [done|]. apply at_node in H as [[H _] _]. cbn in Ha. lia. Qed.

(** The colour of a child that may be missing. *)
Definition node_color (t : tree) : color := match t with Leaf => Black | Node c _ _ _ => c end.

Lemma red_child_ok F s C t : at_subtree F s C t -> red_child s (addr t) = Some (bool_decide (node_color t = Red)).
Proof.
  intros H. unfold red_child. destruct t as [|c l a r]; [done|]. cbn [addr node_color]. apply at_node in H as ([Ha _] & Hu & ->).
  rewrite (proj2 (Z.eqb_neq a 0)), bind_Some by lia. by rewrite is_red_node.
Qed.

Lemma black_child_ok F s C t : at_subtree F s C t -> black_child s (addr t) = Some (bool_decide (node_color t = Black)).
Proof.
  intros H. unfold black_child. destruct t as [|c l a r]; [done|]. cbn [addr node_color]. apply at_node in H as ([Ha _] & Hu & ->).
  rewrite (proj2 (Z.eqb_neq a 0)), bind_Some by lia. by rewrite is_black_node.
Qed.

(** ** Proofs: colours *)

Section Colors.
Context (F : gmap Z rb_node) (s : rb_root) (C : list frame) (c : color) (l : tree) (a : Z) (r : tree).
Context (H : at_subtree F s C (Node c l a r)).

Lemma set_red_ok : exists s', rb_set_red s a = Some s' /\ at_subtree F s' C (Node Red l a r).
Proof.
  destruct (at_node _ _ _ _ _ _ _ H) as (_ & Hu & _). destruct H as [Ho Hr]. cbn [entries addr app] in Ho.
  destruct (own_set_red _ _ _ _ _ _ _ _ Ho Hu) as (s' & Hs & Ho' & Hr'). exists s'. split; [done|]. split; [done|].
  rewrite Hr', Hr. by apply addr_plug.
Qed.

Lemma set_black_ok : exists s', rb_set_black s a = Some s' /\ at_subtree F s' C (Node Black l a r).
Proof.
  destruct (at_node _ _ _ _ _ _ _ H) as (_ & Hu & _). destruct H as [Ho Hr]. cbn [entries addr app] in Ho.
  destruct (own_set_black _ _ _ _ _ _ _ _ Ho Hu) as (s' & Hs & Ho' & Hr'). exists s'. split; [done|]. split; [done|].
  rewrite Hr', Hr. by apply addr_plug.
Qed.

Lemma set_color_ok c' : exists s', rb_set_color s a (color_bit c') = Some s' /\ at_subtree F s' C (Node c' l a r).
Proof.
  destruct (at_node _ _ _ _ _ _ _ H) as (_ & Hu & _). destruct H as [Ho Hr]. cbn [entries addr app] in Ho.
  destruct (own_set_color _ _ _ _ _ _ _ c' _ Ho Hu) as (s' & Hs & Ho' & Hr'). exists s'. split; [done|]. split; [done|].
  rewrite Hr', Hr. by apply addr_plug.
Qed.
End Colors.

(** ** Proofs: rotations *)

(** A child that may be missing gets another parent. *)
Lemma set_parent_child s F b p q P : owns s F (entries b p ++ P) -> p mod 4 = 0 -> q mod 4 = 0 ->
  exists s', (if truth (addr b) then rb_set_parent s (addr b) q else Some s) = Some s' /\ owns s' F (entries b q ++ P) /\ root s' = root s.
Proof.
  intros Ho Hp Hq. destruct b as [|c l a r]; cbn [addr entries app] in *; [by exists s|].
  destruct (owns_valid _ _ _ _ _ Ho) as [Ha _]. unfold truth. rewrite (proj2 (Z.eqb_neq a 0)) by lia. cbn [negb].
  by apply (own_set_parent _ _ _ _ _ _ _ _ _ Ho).
Qed.

(** A node whose address is also that of another node of the memory. *)
Lemma owns_apart s F k n P q : owns s F ((k, n) :: P) -> q ∈ P.*1 -> q <> k.
Proof. intros H Hq ->. apply own_nodup in H. cbn in H. apply list.NoDup_cons in H as [H _]. done. Qed.

Lemma child_apart s F b p P q : owns s F (entries b p ++ P) -> q ∈ P.*1 -> q <> addr b.
Proof.
  intros Ho Hq. destruct b as [|c l a r]; cbn [addr entries app] in *.
  - pose proof (own_valid _ _ _ Ho) as Hv. apply (proj1 (list.Forall_forall _ _)) with (x := q) in Hv; [|done]. destruct Hv. lia.
  - eapply owns_apart; [exact Ho|]. cbn. rewrite fmap_app. apply elem_of_app. by right.
Qed.

Lemma owns_set_root s F P p : owns s F P -> owns (set_root s p) F P.
Proof. by intros [H1 H2 H3 H4]. Qed.

Lemma replace_child_ok s F C old new P : owns s F (entries_above C old ++ P) -> old ∈ P.*1 ->
  exists s', replace_child s (up C) old new = Some s' /\ owns s' F (entries_above C new ++ P) /\
    root s' = match C with [] => new | _ => root s end.
Proof.
  intros Ho Hold. destruct C as [|f C]; [exists (set_root s new); split; [done|by split; [apply owns_set_root|]]|].
  assert (Hu : truth (up (f :: C)) = true).
  { destruct (up_valid s F (f :: C) old P) as [[? _]|[Hv _]]; [eapply owns_perm; [exact Ho|perm]|done|].
    unfold truth. by rewrite (proj2 (Z.eqb_neq _ 0)) by lia. }
  unfold replace_child. rewrite Hu. destruct f as [c a r|l c a]; cbn [up frame_addr entries_above app] in *.
  - rewrite (owns_load _ _ _ _ _ Ho), bind_Some. cbn [rb_left node_of]. rewrite Z.eqb_refl. by apply (own_set_left _ _ _ _ _ _ _ new _ Ho).
  - rewrite (owns_load _ _ _ _ _ Ho), bind_Some. cbn [rb_left node_of].
    assert (Hne : old <> addr l).
    { apply (child_apart s F l a ((a, node_of (up C) c (addr l) old) :: entries_above C a ++ P)); [eapply owns_perm; [exact Ho|perm]|].
      cbn. right. rewrite fmap_app. apply elem_of_app. by right. }
    rewrite (proj2 (Z.eqb_neq _ _) Hne). by apply (own_set_right _ _ _ _ _ _ _ new _ Ho).
Qed.

Ltac reorder H Q := apply (owns_perm _ _ _ Q) in H; [|perm].

Lemma rotate_left_ok F s C c a x c' b y d : at_subtree F s C (Node c a x (Node c' b y d)) ->
  exists s', __rb_rotate_left s x = Some s' /\ at_subtree F s' C (Node c' (Node c a x b) y d).
Proof.
  intros H. destruct (at_node _ _ _ _ _ _ _ H) as ([_ Hx] & Hu & Hn). pose proof (proj1 (move_right _ _ _ _ _ _ _) H) as H'.
  destruct (at_node _ _ _ _ _ _ _ H') as ([Hy0 Hy] & _ & Hn'). unfold __rb_rotate_left.
  rewrite Hn, bind_Some. cbn [rb_right node_of addr]. rewrite parent_node, Hn', bind_Some by done. cbn [rb_left node_of].
  destruct H as [Ho Hr]. cbn [entries addr app up frame_addr] in Ho.
  reorder Ho ((x, node_of (up C) c (addr a) y) :: (y, node_of x c' (addr b) (addr d)) :: entries a x ++ entries b y ++ entries d y ++ entries_above C x).
  destruct (own_set_right _ _ _ _ _ _ _ (addr b) _ Ho) as (s1 & -> & Ho1 & Hr1). rewrite bind_Some.
  reorder Ho1 (entries b y ++ (x, node_of (up C) c (addr a) (addr b)) :: (y, node_of x c' (addr b) (addr d)) :: entries a x ++ entries d y ++ entries_above C x).
  destruct (set_parent_child _ _ _ _ x _ Ho1 Hy Hx) as (s2 & -> & Ho2 & Hr2). rewrite bind_Some.
  reorder Ho2 ((y, node_of x c' (addr b) (addr d)) :: (x, node_of (up C) c (addr a) (addr b)) :: entries b x ++ entries a x ++ entries d y ++ entries_above C x).
  destruct (own_set_left _ _ _ _ _ _ _ x _ Ho2) as (s3 & -> & Ho3 & Hr3). rewrite bind_Some.
  destruct (own_set_parent _ _ _ _ _ _ _ (up C) _ Ho3 Hx Hu) as (s4 & -> & Ho4 & Hr4). rewrite bind_Some.
  reorder Ho4 (entries_above C x ++ (x, node_of (up C) c (addr a) (addr b)) :: (y, node_of (up C) c' x (addr d)) :: entries b x ++ entries a x ++ entries d y).
  destruct (replace_child_ok _ _ _ _ y _ Ho4) as (s5 & -> & Ho5 & Hr5); [by left|]. rewrite bind_Some.
  reorder Ho5 ((x, node_of (up C) c (addr a) (addr b)) :: entries_above C y ++ (y, node_of (up C) c' x (addr d)) :: entries b x ++ entries a x ++ entries d y).
  destruct (own_set_parent _ _ _ _ _ _ _ y _ Ho5 Hu Hy) as (s6 & -> & Ho6 & Hr6). eexists. split; [done|]. split.
  - cbn [entries addr app]. eapply owns_perm; [exact Ho6|perm].
  - rewrite Hr6, Hr5. destruct C as [|f C]; [done|]. rewrite Hr4, Hr3, Hr2, Hr1, Hr. apply addr_plug_cons.
Qed.

(** ** Proofs: the mirror image of a tree *)

Definition mirror_node (r : rb_node) : rb_node :=
  {| rb_parent_color := rb_parent_color r; rb_right := rb_left r; rb_left := rb_right r |}.
Definition mirror_root (s : rb_root) : rb_root := {| mem := mirror_node <$> mem s; root := root s |}.

Lemma mirror_node_node r : mirror_node (mirror_node r) = r.
Proof. by destruct r. Qed.

Lemma mirror_mem_mem (h : gmap Z rb_node) : mirror_node <$> (mirror_node <$> h) = h.
Proof. rewrite <-map_fmap_compose. rewrite <-(map_fmap_id h) at 2. apply map_fmap_ext. intros i r _. apply mirror_node_node. Qed.

Lemma mirror_root_root s : mirror_root (mirror_root s) = s.
Proof. destruct s as [h p]. unfold mirror_root. cbn. by rewrite mirror_mem_mem. Qed.

(** Each operation on the mirror image is the mirror image of an operation. *)
Lemma mirror_node_at s p : node_at (mirror_root s) p = mirror_node <$> node_at s p.
Proof. apply lookup_fmap. Qed.

Lemma mirror_update s p f g : (forall r, f (mirror_node r) = mirror_node (g r)) ->
  update (mirror_root s) p f = mirror_root <$> update s p g.
Proof.
  intros H. unfold update. rewrite mirror_node_at. destruct (node_at s p) as [r|]; [|done]. cbn. f_equal. unfold mirror_root. cbn. f_equal.
  by rewrite H, fmap_insert.
Qed.

Lemma mirror_set_red s p : rb_set_red (mirror_root s) p = mirror_root <$> rb_set_red s p.
Proof. by apply mirror_update. Qed.
Lemma mirror_set_black s p : rb_set_black (mirror_root s) p = mirror_root <$> rb_set_black s p.
Proof. by apply mirror_update. Qed.
Lemma mirror_set_color s p c : rb_set_color (mirror_root s) p c = mirror_root <$> rb_set_color s p c.
Proof. by apply mirror_update. Qed.
Lemma mirror_set_parent s p q : rb_set_parent (mirror_root s) p q = mirror_root <$> rb_set_parent s p q.
Proof. by apply mirror_update. Qed.
Lemma mirror_set_left s p q : set_left (mirror_root s) p q = mirror_root <$> set_right s p q.
Proof. by apply mirror_update. Qed.
Lemma mirror_set_right s p q : set_right (mirror_root s) p q = mirror_root <$> set_left s p q.
Proof. by apply mirror_update. Qed.

Lemma mirror_red_child s p : red_child (mirror_root s) p = red_child s p.
Proof. unfold red_child. case_match; [done|]. rewrite mirror_node_at. by destruct (node_at s p). Qed.
Lemma mirror_black_child s p : black_child (mirror_root s) p = black_child s p.
Proof. unfold black_child. case_match; [done|]. rewrite mirror_node_at. by destruct (node_at s p). Qed.

(** [mirror_step]: the next operation of both sides. *)
Lemma mirror_bind {B} (m m' : option rb_root) (f g : rb_root -> option B) : m = mirror_root <$> m' ->
  (forall s, f (mirror_root s) = g s) -> (m ≫= f) = (m' ≫= g).
Proof. intros -> H. destruct m' as [s|]; [|done]. apply H. Qed.

Lemma mirror_replace_child s p old new : replace_child (mirror_root s) p old new = mirror_root <$> replace_child' s p old new.
Proof.
  unfold replace_child, replace_child'. case_match; [|done]. rewrite mirror_node_at. destruct (node_at s p) as [r|]; [|done]. cbn [fmap option_fmap option_map].
  rewrite !bind_Some. cbn [mirror_node rb_left rb_right]. case_match; [apply mirror_set_left|apply mirror_set_right].
Qed.

Lemma option_fmap_bind' {A B D} (f : B -> D) (m : option A) (g : A -> option B) : f <$> (m ≫= g) = (m ≫= fun x => f <$> g x).
Proof. by destruct m. Qed.

Lemma mirror_rotate s x : __rb_rotate_left (mirror_root s) x = mirror_root <$> __rb_rotate_right s x.
Proof.
  unfold __rb_rotate_left, __rb_rotate_right. rewrite mirror_node_at. destruct (node_at s x) as [n|]; [|done]. cbn [fmap option_fmap option_map].
  rewrite !bind_Some. cbn [mirror_node rb_left rb_right]. rewrite mirror_node_at. destruct (node_at s (rb_left n)) as [l|]; [|done].
  cbn [fmap option_fmap option_map]. rewrite !bind_Some. cbn [mirror_node rb_left rb_right]. rewrite option_fmap_bind'.
  apply mirror_bind; [apply mirror_set_right|]. intros s1. rewrite option_fmap_bind'.
  apply mirror_bind; [case_match; [apply mirror_set_parent|done]|]. intros s2. rewrite option_fmap_bind'.
  apply mirror_bind; [apply mirror_set_left|]. intros s3. rewrite option_fmap_bind'.
  apply mirror_bind; [apply mirror_set_parent|]. intros s4. rewrite option_fmap_bind'.
  apply mirror_bind; [apply mirror_replace_child|]. intros s5. apply mirror_set_parent.
Qed.

Lemma mirror_rotate' s x : __rb_rotate_right (mirror_root s) x = mirror_root <$> __rb_rotate_left s x.
Proof.
  rewrite <-(mirror_root_root s) at 2. rewrite mirror_rotate. destruct (__rb_rotate_right (mirror_root s) x) as [s'|]; [|done].
  cbn. by rewrite mirror_root_root.
Qed.

(** The trees. *)
Fixpoint mirror (t : tree) : tree :=
  match t with Leaf => Leaf | Node c l a r => Node c (mirror r) a (mirror l) end.
Definition mirror_frame (f : frame) : frame :=
  match f with FL c a r => FR (mirror r) c a | FR l c a => FL c a (mirror l) end.
Definition mirror_above (C : list frame) : list frame := mirror_frame <$> C.

Lemma mirror_mirror t : mirror (mirror t) = t.
Proof. induction t as [|c l IHl a r IHr]; [done|]. cbn. by rewrite IHl, IHr. Qed.

Lemma mirror_addr t : addr (mirror t) = addr t.
Proof. by destruct t. Qed.

Lemma mirror_up C : up (mirror_above C) = up C.
Proof. by destruct C as [|[] C]. Qed.

Lemma mirror_plug C t : plug (mirror_above C) (mirror t) = mirror (plug C t).
Proof. revert t. induction C as [|[c a r|l c a] C IH]; intros t; [done|..]; apply (IH (Node c _ a _)). Qed.

Lemma mirror_inorder t : inorder (mirror t) = reverse (inorder t).
Proof.
  induction t as [|c l IHl a r IHr]; [done|]. cbn [mirror inorder]. by rewrite IHl, IHr, reverse_app, reverse_cons, <-app_assoc.
Qed.

Definition mirror_entries (P : list (Z * rb_node)) : list (Z * rb_node) := prod_map id mirror_node <$> P.

Lemma mirror_entries_ok t p : entries (mirror t) p ≡ₚ mirror_entries (entries t p).
Proof.
  revert p. induction t as [|c l IHl a r IHr]; intros p; [done|]. cbn [mirror entries]. rewrite IHl, IHr, !mirror_addr.
  unfold mirror_entries. rewrite fmap_cons, fmap_app. cbn [prod_map id]. apply Permutation_cons; [done|]. apply Permutation_app_comm.
Qed.

Lemma mirror_entries_above C p : entries_above (mirror_above C) p ≡ₚ mirror_entries (entries_above C p).
Proof.
  revert p. induction C as [|[c a r|l c a] C IH]; intros p; [done|..]; cbn [mirror_above fmap list_fmap mirror_frame entries_above];
    fold (mirror_above C); rewrite mirror_entries_ok, mirror_addr, mirror_up, IH; unfold mirror_entries; by rewrite fmap_cons, fmap_app.
Qed.

Lemma mirror_owns s F P : owns s F P -> owns (mirror_root s) (mirror_node <$> F) (mirror_entries P).
Proof.
  intros [H1 H2 H3 H4]. assert (Hk : (mirror_entries P).*1 = P.*1).
  { unfold mirror_entries. rewrite <-list_fmap_compose. apply list_fmap_ext. by intros i [k n] _. }
  split; rewrite ?Hk; [done|done|..]; cbn [mirror_root mem].
  - intros k n Hn. apply list_elem_of_fmap in Hn as ([k' n'] & [= -> ->] & Hn). by rewrite lookup_fmap, (H3 _ _ Hn).
  - intros k Hn. by rewrite !lookup_fmap, H4.
Qed.

Lemma mirror_at F s C t : at_subtree F s C t -> at_subtree (mirror_node <$> F) (mirror_root s) (mirror_above C) (mirror t).
Proof.
  intros [Ho Hr]. split.
  - apply mirror_owns in Ho. eapply owns_perm; [exact Ho|]. rewrite mirror_entries_ok, mirror_entries_above, mirror_up, mirror_addr.
    unfold mirror_entries. by rewrite fmap_app.
  - rewrite mirror_plug, mirror_addr. exact Hr.
Qed.

Lemma mirror_above_above C : mirror_above (mirror_above C) = C.
Proof. induction C as [|[c a r|l c a] C IH]; [done|..]; cbn; rewrite mirror_mirror; by f_equal. Qed.

(** Back from the mirror image. *)
Lemma unmirror_at F s C t : at_subtree (mirror_node <$> F) (mirror_root s) (mirror_above C) (mirror t) -> at_subtree F s C t.
Proof. intros H%mirror_at. by rewrite mirror_mem_mem, mirror_root_root, mirror_above_above, mirror_mirror in H. Qed.

(** An operation whose mirror image has a result has one itself. *)
Lemma unmirror (m : option rb_root) (s' : rb_root) : mirror_root <$> m = Some s' -> m = Some (mirror_root s').
Proof. destruct m as [s|]; [|done]. cbn. intros [= <-]. by rewrite mirror_root_root. Qed.

Lemma rotate_right_ok F s C c c' a y b x d : at_subtree F s C (Node c (Node c' a y b) x d) ->
  exists s', __rb_rotate_right s x = Some s' /\ at_subtree F s' C (Node c' a y (Node c b x d)).
Proof.
  intros H%mirror_at. destruct (rotate_left_ok _ _ _ _ _ _ _ _ _ _ H) as (s' & Hs & H'). rewrite mirror_rotate in Hs.
  exists (mirror_root s'). split; [by apply unmirror|]. apply unmirror_at. by rewrite mirror_root_root.
Qed.

(** ** Proofs: the same tree seen from different places *)

Lemma relocate F s C t C' t' : at_subtree F s C t -> plug C t = plug C' t' -> at_subtree F s C' t'.
Proof. rewrite !move_top. by intros H <-. Qed.

(** [goto H C t]: [C] and [t] are another view of the tree of [H]. *)
Ltac goto H C t := apply (relocate _ _ _ _ C t) in H; [|reflexivity].

Lemma inorder_plug C t t' : inorder t = inorder t' -> inorder (plug C t) = inorder (plug C t').
Proof.
  revert t t'. induction C as [|[c a r|l c a] C IH]; intros t t' H; [done|..]; apply IH; cbn [plug1 inorder]; by rewrite H.
Qed.

(** The two children of a node are different nodes. *)
Lemma children_apart F s C c l a r : at_subtree F s C (Node c l a r) ->
  (l <> Leaf -> addr r <> addr l) /\ (r <> Leaf -> addr l <> addr r).
Proof.
  intros [Ho _]. cbn [entries addr app] in Ho. split; intros Hn.
  - apply not_eq_sym. destruct l as [|cl ll la lr]; [done|]. cbn [entries addr app] in *.
    apply (child_apart s F r a ((a, node_of (up C) c la (addr r)) :: (la, node_of a cl (addr ll) (addr lr)) :: entries ll la ++ entries lr la ++ entries_above C a));
      [eapply owns_perm; [exact Ho|perm]|]. cbn. right. left.
  - apply not_eq_sym. destruct r as [|cr rl ra rr]; [done|]. cbn [entries addr app] in *.
    apply (child_apart s F l a ((a, node_of (up C) c (addr l) ra) :: (ra, node_of a cr (addr rl) (addr rr)) :: entries rl ra ++ entries rr ra ++ entries_above C a));
      [eapply owns_perm; [exact Ho|perm]|]. cbn. right. left.
Qed.

(** ** Proofs: the memory is large enough for the tree *)

Lemma owns_size s F P : owns s F P -> (length P <= size (mem s))%nat.
Proof.
  intros H. rewrite <-(length_fmap fst). pose proof (own_nodup _ _ _ H) as Hd.
  rewrite <-(size_list_to_set (C := gset Z)) by done. rewrite <-size_dom. apply subseteq_size. intros k Hk.
  rewrite elem_of_list_to_set in Hk. apply list_elem_of_fmap in Hk as ([k' n] & -> & Hn). apply elem_of_dom. exists n. by apply (own_lookup _ _ _ H).
Qed.

Lemma entries_above_length C p : (length C <= length (entries_above C p))%nat.
Proof.
  revert p. induction C as [|[c a r|l c a] C IH]; intros p; cbn [entries_above length]; [lia|..]; rewrite length_app; specialize (IH a); lia.
Qed.

Lemma depth_size F s C t : at_subtree F s C t -> (length C <= size (mem s))%nat.
Proof.
  intros [Ho _]. pose proof (owns_size _ _ _ Ho) as H. rewrite length_app in H. pose proof (entries_above_length C (addr t)). lia.
Qed.

(** ** Proofs: the nodes of a tree *)

Lemma entries_keys t p : (entries t p).*1 ≡ₚ inorder t.
Proof.
  revert p. induction t as [|c l IHl a r IHr]; intros p; [done|]. cbn [entries inorder]. rewrite fmap_cons, fmap_app, IHl, IHr. cbn. apply Permutation_middle.
Qed.

Lemma entries_plug C t : entries (plug C t) 0 ≡ₚ entries t (up C) ++ entries_above C (addr t).
Proof.
  revert t. induction C as [|[c a r|l c a] C IH]; intros t.
  - by rewrite app_nil_r.
  - change (plug (FL c a r :: C) t) with (plug C (Node c t a r)). rewrite IH. cbn [entries entries_above up frame_addr addr]. perm.
  - change (plug (FR l c a :: C) t) with (plug C (Node c l a t)). rewrite IH. cbn [entries entries_above up frame_addr addr]. perm.
Qed.

(** The nodes before and after a subtree. *)
Fixpoint before (C : list frame) : list Z :=
  match C with [] => [] | FL _ _ _ :: C' => before C' | FR l _ a :: C' => before C' ++ inorder l ++ [a] end.
Fixpoint behind (C : list frame) : list Z :=
  match C with [] => [] | FL _ a r :: C' => a :: inorder r ++ behind C' | FR _ _ _ :: C' => behind C' end.

Lemma inorder_around C t : inorder (plug C t) = before C ++ inorder t ++ behind C.
Proof.
  revert t. induction C as [|[c a r|l c a] C IH]; intros t; cbn [before behind].
  - by rewrite app_nil_r.
  - change (plug (FL c a r :: C) t) with (plug C (Node c t a r)). rewrite IH. cbn [inorder]. by app_norm.
  - change (plug (FR l c a :: C) t) with (plug C (Node c l a t)). rewrite IH. cbn [inorder]. by app_norm.
Qed.

(** ** Proofs: every tree has a memory *)

Definition build (F : gmap Z rb_node) (t : tree) : rb_root := {| mem := list_to_map (entries t 0) ∪ F; root := addr t |}.

Lemma build_ok F t : NoDup (inorder t) -> Forall valid_addr (inorder t) -> represents F (build F t) t.
Proof.
  intros Hd Hv. split; [|done]. cbn [up plug foldl entries_above]. rewrite app_nil_r.
  assert (Hd' : NoDup (entries t 0).*1) by (by rewrite entries_keys). split.
  - done.
  - by rewrite entries_keys.
  - intros k n Hk. apply lookup_union_Some_l. by apply elem_of_list_to_map_1.
  - intros k Hk. apply lookup_union_r. by apply not_elem_of_list_to_map_1.
Qed.
