(* ===== verification/RbInsert.v ===== *)
(** * Red-black trees: insertion (rb_insert_color() in lib/rbtree.c)

    The invariant of a red-black tree, and that linking a new node with
    rb_link_node() and calling rb_insert_color() gives a red-black tree with
    the same nodes in the same order, and the new one. *)

From stdpp Require Import list gmap.
From S2P Require Import Prelude RbTree.

(** ** Definitions *)

(** One side of the loop: the parent is the left child of the grandparent. *)
Definition insert_left (s : rb_root) (node parent gparent uncle : Z) : option (rb_root * Z) :=
  u ← red_child s uncle;
  if u : bool then
    s ← rb_set_black s uncle;
    s ← rb_set_black s parent;
    s ← rb_set_red s gparent;
    Some (s, gparent)
  else
    p ← node_at s parent;
    r ← (if rb_right p =? node then s ← __rb_rotate_left s parent; Some (s, node, parent) else Some (s, parent, node));
    let '(s, parent, node) := r in
    s ← rb_set_black s parent;
    s ← rb_set_red s gparent;
    s ← __rb_rotate_right s gparent;
    Some (s, node).

Definition insert_right (s : rb_root) (node parent gparent uncle : Z) : option (rb_root * Z) :=
  u ← red_child s uncle;
  if u : bool then
    s ← rb_set_black s uncle;
    s ← rb_set_black s parent;
    s ← rb_set_red s gparent;
    Some (s, gparent)
  else
    p ← node_at s parent;
    r ← (if rb_left p =? node then s ← __rb_rotate_right s parent; Some (s, node, parent) else Some (s, parent, node));
    let '(s, parent, node) := r in
    s ← rb_set_black s parent;
    s ← rb_set_red s gparent;
    s ← __rb_rotate_left s gparent;
    Some (s, node).

Definition insert_body (st : rb_root * Z) : option (step (rb_root * Z) rb_root) :=
  let '(s, node) := st in
  n ← node_at s node;
  let parent := rb_parent n in
  red ← red_child s parent;
  if negb red then s ← rb_set_black s (root s); Some (Done s)
  else
    p ← node_at s parent;
    let gparent := rb_parent p in
    g ← node_at s gparent;
    st ← (if parent =? rb_left g then insert_left s node parent gparent (rb_right g)
          else insert_right s node parent gparent (rb_left g));
    Some (Next st).

(** The node moves towards the root, so that the number of nodes bounds the
    iterations. *)
Definition rb_insert_color (s : rb_root) (node : Z) : option rb_root :=
  loop insert_body (Z.of_nat (size (mem s)) + 1) (s, node).

(** ** The invariant of a red-black tree *)

(** [c] is the colour of the root and [n] the number of black nodes on every
    way to a leaf. *)
Inductive is_rb : tree -> color -> nat -> Prop :=
| rb_leaf : is_rb Leaf Black 0
| rb_red l a r n : is_rb l Black n -> is_rb r Black n -> is_rb (Node Red l a r) Red n
| rb_black l a r c c' n : is_rb l c n -> is_rb r c' n -> is_rb (Node Black l a r) Black (S n).

Definition rb_tree (t : tree) : Prop := exists n, is_rb t Black n.

(** What is around a subtree of [n] black levels; the colour is that of the
    node above, if there is one. *)
Inductive is_above : list frame -> option color -> nat -> Prop :=
| above_root n : is_above [] None n
| above_red_l a r C n : is_rb r Black n -> is_above C (Some Black) n -> is_above (FL Red a r :: C) (Some Red) n
| above_red_r l a C n : is_rb l Black n -> is_above C (Some Black) n -> is_above (FR l Red a :: C) (Some Red) n
| above_black_l a r c C p n : is_rb r c n -> is_above C p (S n) -> is_above (FL Black a r :: C) (Some Black) n
| above_black_r l a c C p n : is_rb l c n -> is_above C p (S n) -> is_above (FR l Black a :: C) (Some Black) n.

Create HintDb rb.
#[export] Hint Constructors is_rb is_above : rb.

(** ** Proofs: the invariant *)

Lemma is_rb_color t c n : is_rb t c n -> node_color t = c.
Proof. by destruct 1. Qed.

(** A subtree that fits makes the whole tree a red-black tree, except perhaps for a
    red root. *)
Lemma plug_rb C p n : is_above C p n -> forall t c, is_rb t c n -> (p = Some Red -> c = Black) ->
  exists c' m, is_rb (plug C t) c' m /\ (C <> [] -> c' = Black).
Proof.
  induction 1 as [n|a r C n Hr HC IH|l a C n Hl HC IH|a r cr C p n Hr HC IH|l a cl C p n Hl HC IH]; intros t c Ht Hc.
  - exists c, n. by split.
  - rewrite (Hc eq_refl) in Ht. destruct (IH (Node Red t a r) Red) as (c' & m & Hm & Hb); [auto with rb|done|].
    exists c', m. split; [done|]. intros _. apply Hb. by inversion HC.
  - rewrite (Hc eq_refl) in Ht. destruct (IH (Node Red l a t) Red) as (c' & m & Hm & Hb); [auto with rb|done|].
    exists c', m. split; [done|]. intros _. apply Hb. by inversion HC.
  - destruct (IH (Node Black t a r) Black) as (c' & m & Hm & Hb); [eauto with rb|done|]. exists c', m. split; [done|]. intros _.
    destruct C as [|f C]; [by inversion Hm|by apply Hb].
  - destruct (IH (Node Black l a t) Black) as (c' & m & Hm & Hb); [eauto with rb|done|]. exists c', m. split; [done|]. intros _.
    destruct C as [|f C]; [by inversion Hm|by apply Hb].
Qed.

(** Conversely, every subtree of a red-black tree fits into what is around it. *)
Lemma unplug_rb C t c n : is_rb (plug C t) c n -> (C <> [] -> c = Black) ->
  exists p m c', is_above C p m /\ is_rb t c' m /\ (p = Some Red -> c' = Black).
Proof.
  revert t c n. induction C as [|f C IH]; intros t c n H Hc; [by eauto 10 with rb|].
  destruct (IH (plug1 t f) c n H) as (p & m & c' & HC & Ht & Hp); [naive_solver|].
  destruct f as [cf a r|l cf a]; cbn [plug1] in Ht; inversion Ht; subst.
  - exists (Some Red), m, Black. split_and!; [|done..]. constructor; [done|].
    destruct p as [[]|]; [by specialize (Hp eq_refl)|done|]. inversion HC; subst. cbn in H. inversion H; subst. by specialize (Hc ltac:(done)).
  - eexists (Some Black), _, _. split_and!; [by econstructor|done|done].
  - exists (Some Red), m, Black. split_and!; [|done..]. constructor; [done|].
    destruct p as [[]|]; [by specialize (Hp eq_refl)|done|]. inversion HC; subst. cbn in H. inversion H; subst. by specialize (Hc ltac:(done)).
  - eexists (Some Black), _, _. split_and!; [by econstructor|done|done].
Qed.

(** Blackening the root. *)
Lemma blacken_rb l a r c c0 n : is_rb (Node c l a r) c0 n -> rb_tree (Node Black l a r).
Proof. inversion 1; subst; eexists; eauto with rb. Qed.

(** ** Proofs: one iteration *)

(** The uncle [u] is red: the three nodes change their colours. *)
Lemma insert_recolor F s C2 (X P u : tree) (C1 : list frame) g ul ux ur p pl pr :
  P = Node Red pl p pr -> u = Node Red ul ux ur ->
  C1 = [FL Black g u] \/ C1 = [FR u Black g] ->
  at_subtree F s (C1 ++ C2) P ->
  exists s', (s ← rb_set_black s ux; s ← rb_set_black s p; s ← rb_set_red s g; Some (s, g)) = Some (s', g) /\
    at_subtree F s' C2 (match C1 with
                        | FL _ _ _ :: _ => Node Red (Node Black pl p pr) g (Node Black ul ux ur)
                        | _ => Node Red (Node Black ul ux ur) g (Node Black pl p pr)
                        end).
Proof.
  intros -> -> [-> | ->] H; cbn [app] in H.
  - goto H (FR (Node Red pl p pr) Black g :: C2) (Node Red ul ux ur). destruct (set_black_ok _ _ _ _ _ _ _ H) as (s1 & -> & H1). rewrite bind_Some.
    goto H1 (FL Black g (Node Black ul ux ur) :: C2) (Node Red pl p pr). destruct (set_black_ok _ _ _ _ _ _ _ H1) as (s2 & -> & H2). rewrite bind_Some.
    goto H2 C2 (Node Black (Node Black pl p pr) g (Node Black ul ux ur)). destruct (set_red_ok _ _ _ _ _ _ _ H2) as (s3 & -> & H3). by exists s3.
  - goto H (FL Black g (Node Red pl p pr) :: C2) (Node Red ul ux ur). destruct (set_black_ok _ _ _ _ _ _ _ H) as (s1 & -> & H1). rewrite bind_Some.
    goto H1 (FR (Node Black ul ux ur) Black g :: C2) (Node Red pl p pr). destruct (set_black_ok _ _ _ _ _ _ _ H1) as (s2 & -> & H2). rewrite bind_Some.
    goto H2 C2 (Node Black (Node Black ul ux ur) g (Node Black pl p pr)). destruct (set_red_ok _ _ _ _ _ _ _ H2) as (s3 & -> & H3). by exists s3.
Qed.

(** The uncle is black, the parent on the left: a rotation to the right. *)
Lemma insert_rotate_right F s C2 X p ps g u : at_subtree F s C2 (Node Black (Node Red X p ps) g u) ->
  exists s', (s ← rb_set_black s p; s ← rb_set_red s g; __rb_rotate_right s g) = Some s' /\
    at_subtree F s' C2 (Node Black X p (Node Red ps g u)).
Proof.
  intros H. goto H (FL Black g u :: C2) (Node Red X p ps). destruct (set_black_ok _ _ _ _ _ _ _ H) as (s1 & -> & H1). rewrite bind_Some.
  goto H1 C2 (Node Black (Node Black X p ps) g u). destruct (set_red_ok _ _ _ _ _ _ _ H1) as (s2 & -> & H2). rewrite bind_Some.
  by apply rotate_right_ok.
Qed.

(** What the loop maintains: the node is red, and the tree is a red-black tree
    except that the node above may be red too. *)
Record inserting (F : gmap Z rb_node) (L : list Z) (s : rb_root) (x : Z) (C : list frame) (l r : tree) (p : option color) (n : nat) : Prop := {
  ins_at : at_subtree F s C (Node Red l x r);
  ins_left : is_rb l Black n;
  ins_right : is_rb r Black n;
  ins_above : is_above C p n;
  ins_order : inorder (plug C (Node Red l x r)) = L
}.

Lemma is_rb_not_red t c n : is_rb t c n -> node_color t <> Red -> is_rb t Black n.
Proof. intros H Hc. by destruct H; eauto with rb. Qed.

Lemma is_rb_red t c n : is_rb t c n -> node_color t = Red -> exists l a r, t = Node Red l a r /\ is_rb l Black n /\ is_rb r Black n.
Proof. intros H Hc. destruct H; [done|by eauto 10|done]. Qed.

Lemma bind_then3 {A B} (m : option A) (f g : A -> option A) (h : A -> option B) t :
  (x ← m; y ← f x; g y) = Some t -> (x ← m; y ← f x; z ← g y; h z) = h t.
Proof. destruct m as [x|]; [|done]. rewrite !bind_Some. destruct (f x) as [y|]; [|done]. rewrite !bind_Some. by intros ->. Qed.

(** The result of an iteration that goes on. *)
Definition goes_on (F : gmap Z rb_node) (L : list Z) (C : list frame) (r : option (rb_root * Z)) : Prop :=
  exists s' x' C' l' r' p' n', r = Some (s', x') /\ inserting F L s' x' C' l' r' p' n' /\ (length C' < length C)%nat.

(** The parent is the left child, and the node its left child or its right child. *)
Lemma insert_left_ok F L s x l r n p ps g u cu C2 p2 C : inserting F L s x C l r (Some Red) n ->
  C = FL Red p ps :: FL Black g u :: C2 \/ C = FR ps Red p :: FL Black g u :: C2 ->
  is_rb ps Black n -> is_rb u cu n -> is_above C2 p2 (S n) ->
  goes_on F L C (insert_left s x p g (addr u)).
Proof.
  intros [Hat Hl Hr Hab HL] HC Hps Hu HC2. unfold insert_left. set (P := match C with FL _ _ _ :: _ => Node Red (Node Red l x r) p ps | _ => Node Red ps p (Node Red l x r) end).
  assert (HP : at_subtree F s (FL Black g u :: C2) P) by (destruct HC as [-> | ->]; by apply move_up in Hat).
  assert (HPn : exists pl pr, P = Node Red pl p pr /\ is_rb (Node Black pl p pr) Black (S n)) by (destruct HC as [-> | ->]; eauto 10 with rb).
  destruct HPn as (pl & pr & EP & HPb).
  assert (HLP : inorder (plug C2 (Node Black P g u)) = L) by (rewrite <-HL; destruct HC as [-> | ->]; done).
  assert (Huat : at_subtree F s (FR P Black g :: C2) u) by exact (relocate _ _ _ _ (FR P Black g :: C2) u HP eq_refl).
  rewrite (red_child_ok _ _ _ _ Huat), bind_Some. destruct (decide (node_color u = Red)) as [Hred|Hred].
  - rewrite bool_decide_eq_true_2 by done. destruct (is_rb_red _ _ _ Hu Hred) as (ul & ux & ur & -> & Hul & Hur). cbn [addr].
    destruct (insert_recolor F s C2 (Node Red l x r) P _ [FL Black g (Node Red ul ux ur)] g ul ux ur p pl pr EP eq_refl (or_introl eq_refl) HP) as (s' & -> & H').
    exists s', g, C2, (Node Black pl p pr), (Node Black ul ux ur), p2, (S n). split; [done|]. split; [|destruct HC as [-> | ->]; cbn; lia].
    split; [done|done|eauto with rb|done|]. rewrite <-HLP, EP. by apply inorder_plug.
  - rewrite bool_decide_eq_false_2 by done. pose proof (is_rb_not_red _ _ _ Hu Hred) as Hub. rewrite EP in HP.
    destruct (at_node _ _ _ _ _ _ _ HP) as (_ & _ & ->). rewrite bind_Some. cbn [rb_right node_of]. destruct (children_apart _ _ _ _ _ _ _ HP) as [Hne1 Hne2].
    destruct HC as [-> | ->]; injection EP as <- <-; cbn [addr] in *.
    + rewrite (proj2 (Z.eqb_neq (addr ps) x)), bind_Some by (by apply Hne1). apply (move_up F s C2 (FL Black g u)) in HP.
      destruct (insert_rotate_right _ _ _ _ _ _ _ _ HP) as (s' & Hs & H'). exists s', x, (FL Black p (Node Red ps g u) :: C2), l, r, (Some Black), n.
      split; [|split; [split; [by apply (move_left F s' C2)|done|done|econstructor; eauto with rb|]|cbn; lia]].
      * exact (bind_then3 _ _ _ (fun s => Some (s, x)) s' Hs).
      * rewrite <-HL. cbn. apply (inorder_plug C2). cbn [inorder plug1]. by app_norm.
    + rewrite Z.eqb_refl. destruct (rotate_left_ok _ _ _ _ _ _ _ _ _ _ HP) as (s0 & -> & H0). rewrite !bind_Some.
      apply (move_up F s0 C2 (FL Black g u)) in H0. destruct (insert_rotate_right _ _ _ _ _ _ _ _ H0) as (s' & Hs & H').
      exists s', p, (FL Black x (Node Red r g u) :: C2), ps, l, (Some Black), n.
      split; [|split; [split; [by apply (move_left F s' C2)|done|done|econstructor; eauto with rb|]|cbn; lia]].
      * exact (bind_then3 _ _ _ (fun s => Some (s, p)) s' Hs).
      * rewrite <-HL. cbn. apply (inorder_plug C2). cbn [inorder plug1]. by app_norm.
Qed.

(** The mirror image. *)
Lemma mirror_insert s x p g u : insert_left (mirror_root s) x p g u = prod_map mirror_root id <$> insert_right s x p g u.
Proof.
  unfold insert_left, insert_right. rewrite mirror_red_child. destruct (red_child s u) as [[]|]; [| |done]; rewrite !bind_Some.
  - rewrite option_fmap_bind'. apply mirror_bind; [apply mirror_set_black|]. intros s1. rewrite option_fmap_bind'.
    apply mirror_bind; [apply mirror_set_black|]. intros s2. rewrite option_fmap_bind'. apply mirror_bind; [apply mirror_set_red|done].
  - rewrite mirror_node_at. destruct (node_at s p) as [n|]; [|done]. cbn [fmap option_fmap option_map]. rewrite !bind_Some.
    cbn [mirror_node rb_right]. set (tail := fun (rot : rb_root -> Z -> option rb_root) (r : rb_root * Z * Z) =>
      let '(s, parent, node) := r in s ← rb_set_black s parent; s ← rb_set_red s g; s ← rot s g; Some (s, node)).
    assert (Htail : forall s p x, tail __rb_rotate_right (mirror_root s, p, x) = prod_map mirror_root id <$> tail __rb_rotate_left (s, p, x)).
    { intros s1 p1 x1. unfold tail. rewrite option_fmap_bind'. apply mirror_bind; [apply mirror_set_black|]. intros s2. rewrite option_fmap_bind'.
      apply mirror_bind; [apply mirror_set_red|]. intros s3. rewrite option_fmap_bind'. apply mirror_bind; [apply mirror_rotate'|done]. }
    case_match.
    + rewrite mirror_rotate. destruct (__rb_rotate_right s p) as [s1|]; [|done]. cbn [fmap option_fmap option_map]. rewrite !bind_Some. apply Htail.
    + rewrite !bind_Some. apply Htail.
Qed.

Lemma mirror_is_rb t c n : is_rb t c n -> is_rb (mirror t) c n.
Proof. induction 1; cbn [mirror]; eauto with rb. Qed.

Lemma mirror_is_above C p n : is_above C p n -> is_above (mirror_above C) p n.
Proof. induction 1; cbn; try (econstructor; eauto using mirror_is_rb); eauto with rb. Qed.

Lemma mirror_inserting F L s x C l r p n : inserting F L s x C l r p n ->
  inserting (mirror_node <$> F) (reverse L) (mirror_root s) x (mirror_above C) (mirror r) (mirror l) p n.
Proof.
  intros [H1 H2 H3 H4 H5]. split; [by apply mirror_at in H1|by apply mirror_is_rb..|by apply mirror_is_above|].
  change (Node Red (mirror r) x (mirror l)) with (mirror (Node Red l x r)). by rewrite mirror_plug, mirror_inorder, H5.
Qed.

Lemma insert_right_ok F L s x l r n p ps g u cu C2 p2 C : inserting F L s x C l r (Some Red) n ->
  C = FR ps Red p :: FR u Black g :: C2 \/ C = FL Red p ps :: FR u Black g :: C2 ->
  is_rb ps Black n -> is_rb u cu n -> is_above C2 p2 (S n) ->
  goes_on F L C (insert_right s x p g (addr u)).
Proof.
  intros H%mirror_inserting HC Hps Hu HC2.
  destruct (insert_left_ok _ _ _ _ _ _ n p (mirror ps) g (mirror u) cu (mirror_above C2) p2 _ H) as (s' & x' & C' & l' & r' & p' & n' & Hs & H' & Hlen).
  - destruct HC as [-> | ->]; [by left|by right].
  - by apply mirror_is_rb.
  - by apply mirror_is_rb.
  - by apply mirror_is_above.
  - rewrite mirror_addr, mirror_insert in Hs. destruct (insert_right s x p g (addr u)) as [[s1 x1]|]; [|done]. injection Hs as <- ->.
    apply mirror_inserting in H'. rewrite mirror_mem_mem, mirror_root_root, reverse_involutive in H'.
    exists s1, x', (mirror_above C'), (mirror r'), (mirror l'), p', n'. split_and!; [done|done|]. unfold mirror_above in *. by rewrite !length_fmap in *.
Qed.

(** ** Proofs: the whole loop *)

Lemma plug_not_leaf C t : t <> Leaf -> plug C t <> Leaf.
Proof. revert t. induction C as [|f C IH]; intros t Ht; [done|]. apply IH. by destruct f. Qed.

(** The node above is red: the loop goes on, nearer to the root. *)
Lemma insert_red F L s x C l r n : inserting F L s x C l r (Some Red) n ->
  exists s' x' C' l' r' p' n', insert_body (s, x) = Some (Next (s', x')) /\ inserting F L s' x' C' l' r' p' n' /\ (length C' < length C)%nat.
Proof.
  intros H. pose proof (ins_at _ _ _ _ _ _ _ _ _ H) as Hat. destruct (at_node _ _ _ _ _ _ _ Hat) as (_ & Hu & Hn).
  assert (Hgo : forall res, goes_on F L C res -> exists s' x' C' l' r' p' n', (st ← res; Some (Next st : step (rb_root * Z) rb_root)) = Some (Next (s', x')) /\
    inserting F L s' x' C' l' r' p' n' /\ (length C' < length C)%nat).
  { intros res (s' & x' & C' & l' & r' & p' & n' & -> & H'). eauto 10. }
  unfold insert_body. rewrite Hn, bind_Some, parent_node by done.
  pose proof (ins_above _ _ _ _ _ _ _ _ _ H) as Hab. inversion Hab as [| a ps C1 n1 Hps HC1|ps a C1 n1 Hps HC1| |]; subst; cbn [up frame_addr].
  all: apply move_up in Hat; cbn [plug1] in Hat;
    rewrite (red_child_ok _ _ _ _ Hat : red_child s a = _), bind_Some; cbn [node_color]; rewrite bool_decide_eq_true_2 by done; cbn [negb];
    destruct (at_node _ _ _ _ _ _ _ Hat) as (_ & Hu1 & ->); rewrite bind_Some, parent_node by done;
    inversion HC1 as [| | |g u cu C2 p2 n2 Hub HC2|u g cu C2 p2 n2 Hub HC2]; subst; cbn [up frame_addr] in *;
    apply move_up in Hat; cbn [plug1] in Hat; destruct (at_node _ _ _ _ _ _ _ Hat) as (_ & _ & ->); rewrite bind_Some; cbn [rb_left rb_right node_of addr];
    destruct (children_apart _ _ _ _ _ _ _ Hat) as [Hne1 Hne2]; cbn [addr] in *.
  - rewrite Z.eqb_refl. eapply Hgo, insert_left_ok; [done|by left|done..].
  - rewrite (proj2 (Z.eqb_neq _ _) (not_eq_sym (Hne2 ltac:(done)))). eapply Hgo, insert_right_ok; [done|by right|done..].
  - rewrite Z.eqb_refl. eapply Hgo, insert_left_ok; [done|by right|done..].
  - rewrite (proj2 (Z.eqb_neq _ _) (not_eq_sym (Hne2 ltac:(done)))). eapply Hgo, insert_right_ok; [done|by left|done..].
Qed.

(** The node above is black, or there is none: the tree is finished. *)
Lemma insert_done F L s x C l r p n : inserting F L s x C l r p n -> p <> Some Red ->
  exists s' t, insert_body (s, x) = Some (Done s') /\ represents F s' t /\ rb_tree t /\ inorder t = L.
Proof.
  intros [Hat Hl Hr Hab HL] Hp. destruct (at_node _ _ _ _ _ _ _ Hat) as (_ & Hu & Hn). unfold insert_body. rewrite Hn, bind_Some, parent_node by done.
  assert (Hred : red_child s (up C) = Some false).
  { inversion Hab; subst; try done; cbn [up frame_addr]; apply move_up in Hat; cbn [plug1] in Hat; apply (red_child_ok _ _ _ _ Hat). }
  rewrite Hred, bind_Some. cbn [negb].
  destruct (plug_rb C p n Hab (Node Red l x r) Red) as (c & m & Hrb & _); [eauto with rb|done|].
  pose proof (proj1 (move_top _ _ _ _) Hat) as Htop. pose proof (proj2 Htop : root s = addr (plug C (Node Red l x r))) as Hroot. rewrite Hroot.
  destruct (plug C (Node Red l x r)) as [|ct tl a tr] eqn:E.
  { by apply plug_not_leaf in E. }
  cbn [addr]. destruct (set_black_ok _ _ _ _ _ _ _ Htop) as (s' & -> & H'). rewrite bind_Some.
  exists s', (Node Black tl a tr). split_and!; [done|done|by eapply blacken_rb|done].
Qed.

Lemma insert_color_ok F L s x C l r p n : inserting F L s x C l r p n ->
  exists s' t, rb_insert_color s x = Some s' /\ represents F s' t /\ rb_tree t /\ inorder t = L.
Proof.
  intros H. pose proof (depth_size _ _ _ _ (ins_at _ _ _ _ _ _ _ _ _ H)) as Hd. unfold rb_insert_color.
  generalize (size (mem s)) as bound, Hd. clear Hd. intros bound Hd.
  assert (Hsteps : forall k s x C l r p n, inserting F L s x C l r p n -> (length C <= k)%nat ->
    exists j st s' t, steps insert_body j (s, x) = Some st /\ (j <= k)%nat /\ insert_body st = Some (Done s') /\ represents F s' t /\ rb_tree t /\ inorder t = L).
  { clear. induction k as [k IH] using lt_wf_ind. intros s x C l r p n H Hk. destruct (decide (p = Some Red)) as [->|Hp].
    - destruct (insert_red _ _ _ _ _ _ _ _ H) as (s1 & x1 & C1 & l1 & r1 & p1 & n1 & Hb & H1 & Hlt).
      destruct (IH (length C1) ltac:(lia) _ _ _ _ _ _ _ H1 (le_n _)) as (j & st & s' & t & Hst & Hj & Hres).
      exists (S j), st, s', t. split; [|split; [lia|done]]. cbn [steps]. by rewrite Hb.
    - destruct (insert_done _ _ _ _ _ _ _ _ _ H Hp) as (s' & t & Hb & Hres). exists O, (s, x), s', t. split_and!; [done|lia|done|apply Hres..]. }
  destruct (Hsteps bound s x C l r p n H Hd) as (j & st & s' & t & Hst & Hj & Hdone & Hres). exists s', t. split; [|done].
  by rewrite (loop_steps _ j _ _ st s' Hst Hdone) by lia.
Qed.

(** ** Proofs: linking a new node *)

(** The place of a new node below [C]. *)
Definition link_of (C : list frame) : link :=
  match C with [] => LinkRoot | FL _ a _ :: _ => LinkLeft a | FR _ _ a :: _ => LinkRight a end.

Lemma owns_add s F P k n n0 : owns s F P -> k ∉ P.*1 -> valid_addr k -> F !! k = Some n0 ->
  exists s', update s k (fun _ => n) = Some s' /\ owns s' F ((k, n) :: P) /\ root s' = root s.
Proof.
  intros [H1 H2 H3 H4] Hk Hv HF. unfold update, node_at. rewrite H4, HF, bind_Some by done. eexists. split; [done|]. split; [|done].
  split; cbn [mem fmap list_fmap fst].
  - by apply list.NoDup_cons.
  - by constructor.
  - intros j m [[= -> ->]|Hj]%elem_of_cons; [by rewrite lookup_insert_eq|]. rewrite lookup_insert_ne; [by apply H3|].
    intros <-. destruct Hk. apply list_elem_of_fmap. by exists (k, m).
  - intros j Hj. apply not_elem_of_cons in Hj as [Hj1 Hj2]. rewrite lookup_insert_ne by done. by apply H4.
Qed.

Lemma link_ok F s C x n0 : at_subtree F s C Leaf -> valid_addr x -> x ∉ inorder (plug C Leaf) -> F !! x = Some n0 ->
  exists s', rb_link_node s x (up C) (link_of C) = Some s' /\ at_subtree F s' C (Node Red Leaf x Leaf).
Proof.
  intros H Hx Hin HF. pose proof (up_mod _ _ _ _ _ (proj1 H)) as Hu.
  assert (Hk : x ∉ (entries_above C 0).*1).
  { by rewrite <-(entries_keys _ 0), entries_plug in Hin. }
  destruct H as [Ho Hr]. cbn [entries addr app] in Ho.
  destruct (owns_add s F _ x (node_of (up C) Red 0 0) n0 Ho Hk Hx HF) as (s1 & Hs1 & Ho1 & Hr1).
  unfold rb_link_node. assert (Hnode : {| rb_parent_color := up C; rb_right := 0; rb_left := 0 |} = node_of (up C) Red 0 0).
  { unfold node_of, color_bit, RB_RED. by rewrite Z.add_0_r. }
  rewrite Hnode, Hs1, bind_Some.
  destruct C as [|[c a r|l c a] C]; cbn [link_of set_link up frame_addr entries_above] in *.
  - exists (set_root s1 x). split; [done|]. split; [|done]. by apply owns_set_root.
  - reorder Ho1 ((a, node_of (up C) c 0 (addr r)) :: (x, node_of a Red 0 0) :: entries r a ++ entries_above C a).
    destruct (own_set_left _ _ _ _ _ _ _ x _ Ho1) as (s2 & -> & Ho2 & Hr2). exists s2. split; [done|]. split.
    + cbn [entries addr app entries_above up frame_addr]. eapply owns_perm; [exact Ho2|perm].
    + rewrite Hr2, Hr1, Hr. apply addr_plug_cons.
  - reorder Ho1 ((a, node_of (up C) c (addr l) 0) :: (x, node_of a Red 0 0) :: entries l a ++ entries_above C a).
    destruct (own_set_right _ _ _ _ _ _ _ x _ Ho1) as (s2 & -> & Ho2 & Hr2). exists s2. split; [done|]. split.
    + cbn [entries addr app entries_above up frame_addr]. eapply owns_perm; [exact Ho2|perm].
    + rewrite Hr2, Hr1, Hr. apply addr_plug_cons.
Qed.

(** ** The property *)

Fixpoint height (t : tree) : nat := match t with Leaf => 0 | Node _ l _ r => S (Nat.max (height l) (height r)) end.

(** The tree is balanced: its height is at most twice the logarithm of its size. *)
Lemma is_rb_size t c n : is_rb t c n -> (2 ^ n <= length (inorder t) + 1)%nat.
Proof.
  induction 1 as [|l a r n Hl IHl Hr IHr|l a r c c' n Hl IHl Hr IHr]; cbn [inorder]; [done|..]; rewrite length_app; cbn [length]; [lia|].
  cbn [Nat.pow]. lia.
Qed.

Lemma is_rb_height t c n : is_rb t c n -> (height t <= 2 * n + match c with Red => 1 | Black => 0 end)%nat.
Proof.
  induction 1 as [|l a r n Hl IHl Hr IHr|l a r c c' n Hl IHl Hr IHr]; cbn [height]; [done|..].
  - lia.
  - destruct c, c'; lia.
Qed.

(** C10: linking a new node at any free place of a red-black tree and calling
    rb_insert_color() terminates without a wild access and gives a red-black tree again -
    no red node below a red one, the same number of black nodes on every way down, a black
    root, hence a height of at most twice the logarithm of the size - whose
    nodes are the old ones in the old order with the new one at its place; memory
    outside of the tree and the new node is left alone. *)
Theorem rb_insert_correct F s C x n0 :
  represents F s (plug C Leaf) -> rb_tree (plug C Leaf) -> valid_addr x -> x ∉ inorder (plug C Leaf) -> F !! x = Some n0 ->
  exists s1 s2 t, rb_link_node s x (up C) (link_of C) = Some s1 /\ rb_insert_color s1 x = Some s2 /\
    represents F s2 t /\ rb_tree t /\ inorder t = before C ++ x :: behind C /\
    inorder (plug C Leaf) = before C ++ behind C /\ (2 ^ height t <= (length (inorder t) + 1) ^ 2)%nat.
Proof.
  intros H [m Hrb] Hx Hin HF. apply move_top in H. destruct (link_ok F s C x n0 H Hx Hin HF) as (s1 & Hs1 & H1).
  destruct (unplug_rb C Leaf Black m Hrb) as (p & n & c & HC & Hl & _); [done|]. inversion Hl; subst.
  destruct (insert_color_ok F (before C ++ x :: behind C) s1 x C Leaf Leaf p 0) as (s2 & t & Hs2 & Ht & Hb & Ho).
  { split; [done|auto with rb|auto with rb|done|]. by rewrite inorder_around. }
  exists s1, s2, t. split_and!; try done; [by rewrite inorder_around|].
  destruct Hb as [k Hk]. pose proof (is_rb_size _ _ _ Hk) as H2. apply is_rb_height in Hk.
  transitivity (2 ^ (2 * k))%nat; [apply Nat.pow_le_mono_r; lia|]. rewrite Nat.mul_comm, Nat.pow_mul_r. by apply Nat.pow_le_mono_l.
Qed.

(** A third node goes below the second, and the tree is rotated. *)
Lemma rb_insert_correct_witness :
  let F := {[ 12 := {| rb_parent_color := 0; rb_right := 0; rb_left := 0 |} ]} in
  let C := [FR Leaf Red 8; FR Leaf Black 4] in
  exists s1 s2 t, rb_link_node (build F (plug C Leaf)) 12 8 (LinkRight 8) = Some s1 /\ rb_insert_color s1 12 = Some s2 /\
    represents F s2 t /\ rb_tree t /\ inorder t = [4; 8; 12] /\ inorder (plug C Leaf) = [4; 8] /\ (2 ^ height t <= 16)%nat.
Proof.
  intros F C.
  assert (Hrep : represents F (build F (plug C Leaf)) (plug C Leaf)) by (apply build_ok; [apply (bool_decide_unpack _); vm_compute; done|repeat constructor; lia]).
  assert (Hrb : rb_tree (plug C Leaf)) by (exists 1%nat; cbn; eauto with rb).
  assert (Hx : valid_addr 12) by done.
  assert (Hin : 12 ∉ inorder (plug C Leaf)) by (apply (bool_decide_unpack _); vm_compute; done).
  destruct (rb_insert_correct F _ C 12 _ Hrep Hrb Hx Hin eq_refl) as (s1 & s2 & t & H1 & H2 & H3 & H4 & H5 & H6 & H7).
  exists s1, s2, t. split_and!; [done..|]. by rewrite H5 in H7.
Defined.
