(* ===== verification/RbErase.v ===== *)
(** * Red-black trees: removal (rb_erase() in lib/rbtree.c)

    A node with two children is replaced by its successor, which has at most
    one; where a black node is missing afterwards, __rb_erase_color() restores
    the balance.  The theorem is that the result is a red-black tree with the
    other nodes in the same order. *)

From stdpp Require Import list gmap.
From S2P Require Import Prelude RbTree RbInsert.

(** ** Definitions *)

(** [if (node) rb_set_black(node);] *)
Definition finish_erase (s : rb_root) (node : Z) : option rb_root :=
  if truth node then rb_set_black s node else Some s.

(** [(!a || rb_is_black(a)) && (!b || rb_is_black(b))] *)
Definition both_black (s : rb_root) (a b : Z) : option bool :=
  ba ← black_child s a;
  if ba : bool then black_child s b else Some false.

(** The brother [other] is red: it becomes the node above the parent. *)
Definition red_brother_left (s : rb_root) (parent other : Z) : option (rb_root * Z) :=
  s ← rb_set_black s other;
  s ← rb_set_red s parent;
  s ← __rb_rotate_left s parent;
  p ← node_at s parent;
  Some (s, rb_right p).

(** The right child of the brother is black: the other one takes the brother's place. *)
Definition near_nephew_left (s : rb_root) (parent other : Z) (o : rb_node) : option (rb_root * Z) :=
  s ← rb_set_black s (rb_left o);
  s ← rb_set_red s other;
  s ← __rb_rotate_right s other;
  p ← node_at s parent;
  Some (s, rb_right p).

(** The right child of the brother is red: the last rotation. *)
Definition far_nephew_left (s : rb_root) (parent other : Z) : option (step (rb_root * Z * Z) rb_root) :=
  p ← node_at s parent;
  s ← rb_set_color s other (rb_color p);
  s ← rb_set_black s parent;
  o ← node_at s other;
  s ← rb_set_black s (rb_right o);
  s ← __rb_rotate_left s parent;
  s ← finish_erase s (root s);
  Some (Done s).

(** The node is the left child of its parent [p]. *)
Definition erase_left (s : rb_root) (parent : Z) (p : rb_node) : option (step (rb_root * Z * Z) rb_root) :=
  o ← node_at s (rb_right p);
  r ← (if rb_is_red o then red_brother_left s parent (rb_right p) else Some (s, rb_right p));
  let '(s, other) := r in
  o ← node_at s other;
  b ← both_black s (rb_left o) (rb_right o);
  if b : bool then
    s ← rb_set_red s other;
    n ← node_at s parent;
    Some (Next (s, parent, rb_parent n))
  else
    b ← black_child s (rb_right o);
    r ← (if b : bool then near_nephew_left s parent other o else Some (s, other));
    let '(s, other) := r in
    far_nephew_left s parent other.

(** The brother [other] is red: it becomes the node above the parent. *)
Definition red_brother_right (s : rb_root) (parent other : Z) : option (rb_root * Z) :=
  s ← rb_set_black s other;
  s ← rb_set_red s parent;
  s ← __rb_rotate_right s parent;
  p ← node_at s parent;
  Some (s, rb_left p).

(** The left child of the brother is black: the other one takes the brother's place. *)
Definition near_nephew_right (s : rb_root) (parent other : Z) (o : rb_node) : option (rb_root * Z) :=
  s ← rb_set_black s (rb_right o);
  s ← rb_set_red s other;
  s ← __rb_rotate_left s other;
  p ← node_at s parent;
  Some (s, rb_left p).

(** The left child of the brother is red: the last rotation. *)
Definition far_nephew_right (s : rb_root) (parent other : Z) : option (step (rb_root * Z * Z) rb_root) :=
  p ← node_at s parent;
  s ← rb_set_color s other (rb_color p);
  s ← rb_set_black s parent;
  o ← node_at s other;
  s ← rb_set_black s (rb_left o);
  s ← __rb_rotate_right s parent;
  s ← finish_erase s (root s);
  Some (Done s).

(** The node is the right child of its parent [p]. *)
Definition erase_right (s : rb_root) (parent : Z) (p : rb_node) : option (step (rb_root * Z * Z) rb_root) :=
  o ← node_at s (rb_left p);
  r ← (if rb_is_red o then red_brother_right s parent (rb_left p) else Some (s, rb_left p));
  let '(s, other) := r in
  o ← node_at s other;
  b ← both_black s (rb_left o) (rb_right o);
  if b : bool then
    s ← rb_set_red s other;
    n ← node_at s parent;
    Some (Next (s, parent, rb_parent n))
  else
    b ← black_child s (rb_left o);
    r ← (if b : bool then near_nephew_right s parent other o else Some (s, other));
    let '(s, other) := r in
    far_nephew_right s parent other.

Definition erase_body (st : rb_root * Z * Z) : option (step (rb_root * Z * Z) rb_root) :=
  let '(s, node, parent) := st in
  b ← black_child s node;
  if negb (b && negb (node =? root s)) then s ← finish_erase s node; Some (Done s)
  else
    p ← node_at s parent;
    if rb_left p =? node then erase_left s parent p else erase_right s parent p.

(** Each iteration that goes on moves towards the root, except that the first
    case adds one level before the node moves up. *)
Definition __rb_erase_color (s : rb_root) (node parent : Z) : option rb_root :=
  loop erase_body (Z.of_nat (size (mem s)) + 1) (s, node, parent).

(** [while ((left = node->rb_left) != NULL) node = left;] *)
Definition leftmost_body (s : rb_root) (node : Z) : option (step Z Z) :=
  n ← node_at s node;
  if truth (rb_left n) then Some (Next (rb_left n)) else Some (Done node).
Definition leftmost (s : rb_root) (node : Z) : option Z := loop (leftmost_body s) (Z.of_nat (size (mem s)) + 1) node.

(** The node has at most one child. *)
Definition erase_single (s : rb_root) (node child : Z) : option rb_root :=
  n ← node_at s node;
  let parent := rb_parent n in
  let color := rb_color n in
  s ← (if truth child then rb_set_parent s child parent else Some s);
  s ← (if truth parent then
         p ← node_at s parent;
         if rb_left p =? node then set_left s parent child else set_right s parent child
       else Some (set_root s child));
  if color =? RB_BLACK then __rb_erase_color s child parent else Some s.

(** The node has two children: its successor leaves its own place - the middle of
    the block - and takes that of the node. *)
Definition detach (s : rb_root) (old node child parent : Z) : option (rb_root * Z) :=
  if parent =? old then Some (s, node)
  else
    s ← (if truth child then rb_set_parent s child parent else Some s);
    s ← set_left s parent child;
    o ← node_at s old;
    s ← set_right s node (rb_right o);
    s ← rb_set_parent s (rb_right o) node;
    Some (s, parent).
Definition take_place (s : rb_root) (old node : Z) : option rb_root :=
  o ← node_at s old;
  s ← update s node (fun r => with_pc r (rb_parent_color o));
  s ← set_left s node (rb_left o);
  rb_set_parent s (rb_left o) node.
Definition erase_double (s : rb_root) (old : Z) : option rb_root :=
  o ← node_at s old;
  node ← leftmost s (rb_right o);
  s ← (if truth (rb_parent o) then
         p ← node_at s (rb_parent o);
         if rb_left p =? old then set_left s (rb_parent o) node else set_right s (rb_parent o) node
       else Some (set_root s node));
  n ← node_at s node;
  let child := rb_right n in
  let color := rb_color n in
  r ← detach s old node child (rb_parent n);
  let '(s, parent) := r in
  s ← take_place s old node;
  if color =? RB_BLACK then __rb_erase_color s child parent else Some s.

Definition rb_erase (s : rb_root) (node : Z) : option rb_root :=
  n ← node_at s node;
  if negb (truth (rb_left n)) then erase_single s node (rb_right n)
  else if negb (truth (rb_right n)) then erase_single s node (rb_left n)
  else erase_double s node.

(** ** Proofs: one iteration *)

(** What the loop maintains: one black node is missing in the subtree [t],
    whose root may be red. *)
Record erasing (F : gmap Z rb_node) (L : list Z) (s : rb_root) (C : list frame) (t : tree) (p : option color) (n : nat) : Prop := {
  er_at : at_subtree F s C t;
  er_above : is_above C p (S n);
  er_order : inorder (plug C t) = L;
  er_focus : is_rb t Black n \/ exists l a r c c', t = Node Red l a r /\ is_rb l c n /\ is_rb r c' n
}.

(** The tree is finished. *)
Definition finished (F : gmap Z rb_node) (L : list Z) (s : rb_root) : Prop :=
  exists t, represents F s t /\ rb_tree t /\ inorder t = L.

(** Blackening a node of the tree, or nothing. *)
Lemma finish_root F L s C t p n c : at_subtree F s C t -> is_above C p n -> is_rb t c n -> (p = Some Red -> c = Black) ->
  inorder (plug C t) = L -> exists s', finish_erase s (root s) = Some s' /\ finished F L s'.
Proof.
  intros Hat HC Ht Hc HL. destruct (plug_rb C p n HC t c Ht Hc) as (c' & m & Hrb & _). apply move_top in Hat.
  pose proof (proj2 Hat : root s = addr (plug C t)) as Hr. unfold finish_erase. rewrite Hr.
  destruct (plug C t) as [|ct l a r] eqn:E.
  - exists s. split; [done|]. exists Leaf. split_and!; [done|eexists; eauto with rb|done].
  - destruct (at_node _ _ _ _ _ _ _ Hat) as ([Ha _] & _). cbn [addr]. unfold truth. rewrite (proj2 (Z.eqb_neq a 0)) by lia. cbn [negb].
    destruct (set_black_ok _ _ _ _ _ _ _ Hat) as (s' & -> & H'). exists s'. split; [done|]. exists (Node Black l a r).
    split_and!; [done|by eapply blacken_rb|done].
Qed.

(** The address of a subtree is not that of the root. *)
Lemma root_apart F s f C t : at_subtree F s (f :: C) t -> addr t <> root s.
Proof.
  intros [Ho Hr]. rewrite Hr. apply not_eq_sym. apply (child_apart s F t (up (f :: C)) (entries_above (f :: C) (addr t))); [done|]. clear Ho Hr.
  change (plug (f :: C) t) with (plug C (plug1 t f)). revert f t. induction C as [|g C IH]; intros f t.
  - destruct f; left.
  - change (plug (g :: C) (plug1 t f)) with (plug C (plug1 (plug1 t f) g)).
    specialize (IH g (plug1 t f)). assert (Hf : addr (plug1 t f) = frame_addr f) by (by destruct f). rewrite Hf in IH.
    destruct f; cbn [entries_above frame_addr] in *; rewrite fmap_cons, fmap_app; right; apply elem_of_app; by right.
Qed.

Lemma erase_done F L s C t p n : erasing F L s C t p n -> node_color t = Red \/ C = [] ->
  exists s', erase_body (s, addr t, up C) = Some (Done s') /\ finished F L s'.
Proof.
  intros [Hat HC HL Ht] Hstop. unfold erase_body. rewrite (black_child_ok _ _ _ _ Hat), bind_Some.
  assert (Hexit : bool_decide (node_color t = Black) && negb (addr t =? root s) = false).
  { destruct Hstop as [Hred|HC0]; [by rewrite Hred|]. pose proof (proj2 Hat) as Hr. rewrite HC0 in Hr. cbn in Hr. by rewrite Hr, Z.eqb_refl, andb_false_r. }
  rewrite Hexit. cbn [negb]. destruct Ht as [Ht|(l & a & r & c & c' & -> & Hl & Hr)].
  - assert (HC0 : C = []) by (destruct Hstop as [Hred|?]; [|done]; apply is_rb_color in Ht; congruence).
    subst C. pose proof (proj2 Hat : root s = addr t) as Hroot. rewrite <-Hroot.
    destruct (finish_root F L s [] t None n Black Hat (above_root n) Ht) as (s' & -> & Hf); [done..|]. rewrite bind_Some. by exists s'.
  - destruct (at_node _ _ _ _ _ _ _ Hat) as ([Ha _] & _). unfold finish_erase, truth. cbn [addr]. rewrite (proj2 (Z.eqb_neq a 0)) by lia. cbn [negb].
    destruct (set_black_ok _ _ _ _ _ _ _ Hat) as (s' & -> & H'). rewrite bind_Some. exists s'. split; [done|].
    destruct (plug_rb C p (S n) HC (Node Black l a r) Black) as (c1 & m & Hrb & Hb); [eauto with rb|done|].
    exists (plug C (Node Black l a r)). split_and!; [exact (proj1 (move_top _ _ _ _) H')|exists m|rewrite <-HL; by apply inorder_plug].
    destruct C as [|f C]; [cbn in *; inversion Hrb; by subst|]. specialize (Hb ltac:(done)). by subst c1.
Qed.

(** *** The node is a left child *)

Lemma red_brother_ok F s C t p wl x wr : at_subtree F s C (Node Black t p (Node Red wl x wr)) ->
  exists s', red_brother_left s p x = Some (s', addr wl) /\ at_subtree F s' C (Node Black (Node Red t p wl) x wr).
Proof.
  intros H. unfold red_brother_left. goto H (FR t Black p :: C) (Node Red wl x wr).
  destruct (set_black_ok _ _ _ _ _ _ _ H) as (s1 & -> & H1). rewrite bind_Some. goto H1 C (Node Black t p (Node Black wl x wr)).
  destruct (set_red_ok _ _ _ _ _ _ _ H1) as (s2 & -> & H2). rewrite bind_Some.
  destruct (rotate_left_ok _ _ _ _ _ _ _ _ _ _ H2) as (s3 & -> & H3). rewrite bind_Some. exists s3. split; [|done].
  goto H3 (FL Black x wr :: C) (Node Red t p wl). destruct (at_node _ _ _ _ _ _ _ H3) as (_ & _ & ->). done.
Qed.

Lemma near_nephew_ok F s C c t p a y b x wr o : at_subtree F s C (Node c t p (Node Black (Node Red a y b) x wr)) -> rb_left o = y ->
  exists s', near_nephew_left s p x o = Some (s', y) /\ at_subtree F s' C (Node c t p (Node Black a y (Node Red b x wr))).
Proof.
  intros H <-. unfold near_nephew_left. goto H (FL Black x wr :: FR t c p :: C) (Node Red a (rb_left o) b).
  destruct (set_black_ok _ _ _ _ _ _ _ H) as (s1 & -> & H1). rewrite bind_Some. goto H1 (FR t c p :: C) (Node Black (Node Black a (rb_left o) b) x wr).
  destruct (set_red_ok _ _ _ _ _ _ _ H1) as (s2 & -> & H2). rewrite bind_Some.
  destruct (rotate_right_ok _ _ _ _ _ _ _ _ _ _ H2) as (s3 & -> & H3). rewrite bind_Some. exists s3.
  goto H3 C (Node c t p (Node Black a (rb_left o) (Node Red b x wr))). destruct (at_node _ _ _ _ _ _ _ H3) as (_ & _ & ->). done.
Qed.

(** The black nodes that the node [p] of the colour [c] expects of its children. *)
Definition expects (C : list frame) (c : color) (n : nat) : Prop :=
  match c with Red => is_above C (Some Black) n | Black => exists q, is_above C q (S n) end.

Lemma far_nephew_ok F L s C c t p wl x zl z zr n cl : at_subtree F s C (Node c t p (Node Black wl x (Node Red zl z zr))) ->
  expects C c (S n) -> is_rb t Black n -> is_rb wl cl n -> is_rb zl Black n -> is_rb zr Black n ->
  inorder (plug C (Node c t p (Node Black wl x (Node Red zl z zr)))) = L ->
  exists s', far_nephew_left s p x = Some (Done s') /\ finished F L s'.
Proof.
  intros H HC Ht Hwl Hzl Hzr HL. unfold far_nephew_left. destruct (at_node _ _ _ _ _ _ _ H) as (_ & Hu & ->). rewrite bind_Some.
  assert (Hcol : rb_color (node_of (up C) c (addr t) (addr (Node Black wl x (Node Red zl z zr)))) = color_bit c) by (by apply pc_color). rewrite Hcol.
  goto H (FR t c p :: C) (Node Black wl x (Node Red zl z zr)).
  destruct (set_color_ok _ _ _ _ _ _ _ H c) as (s1 & -> & H1). rewrite bind_Some. goto H1 C (Node c t p (Node c wl x (Node Red zl z zr))).
  destruct (set_black_ok _ _ _ _ _ _ _ H1) as (s2 & -> & H2). rewrite bind_Some. goto H2 (FR t Black p :: C) (Node c wl x (Node Red zl z zr)).
  destruct (at_node _ _ _ _ _ _ _ H2) as (_ & _ & ->). rewrite bind_Some. cbn [rb_right node_of addr].
  goto H2 (FR wl c x :: FR t Black p :: C) (Node Red zl z zr).
  destruct (set_black_ok _ _ _ _ _ _ _ H2) as (s3 & -> & H3). rewrite bind_Some. goto H3 C (Node Black t p (Node c wl x (Node Black zl z zr))).
  destruct (rotate_left_ok _ _ _ _ _ _ _ _ _ _ H3) as (s4 & -> & H4). rewrite bind_Some.
  assert (Hin : inorder (plug C (Node c (Node Black t p wl) x (Node Black zl z zr))) = L).
  { rewrite <-HL. apply inorder_plug. cbn [inorder]. by app_norm. }
  destruct c; cbn [expects] in HC.
  - destruct (finish_root F L s4 C _ (Some Black) (S n) Red H4 HC) as (s5 & -> & Hf); [eauto with rb|done|done|]. rewrite bind_Some. by exists s5.
  - destruct HC as [q HC]. destruct (finish_root F L s4 C _ q (S (S n)) Black H4 HC) as (s5 & -> & Hf); [eauto with rb|done|done|]. rewrite bind_Some. by exists s5.
Qed.

(** What an iteration gives: the loop goes on one level higher, or at a red
    node, or the tree is finished. *)
Definition erase_step (F : gmap Z rb_node) (L : list Z) (C : list frame) (r : option (step (rb_root * Z * Z) rb_root)) : Prop :=
  (exists s' C' t' p' n', r = Some (Next (s', addr t', up C')) /\ erasing F L s' C' t' p' n' /\
     (S (length C') = length C \/ node_color t' = Red)) \/
  (exists s', r = Some (Done s') /\ finished F L s').

(** The part of the code after the test for a red brother. *)
Definition rest_left (s : rb_root) (parent other : Z) : option (step (rb_root * Z * Z) rb_root) :=
  o ← node_at s other;
  b ← both_black s (rb_left o) (rb_right o);
  if b : bool then
    s ← rb_set_red s other;
    n ← node_at s parent;
    Some (Next (s, parent, rb_parent n))
  else
    b ← black_child s (rb_right o);
    r ← (if b : bool then near_nephew_left s parent other o else Some (s, other));
    let '(s, other) := r in
    far_nephew_left s parent other.

Lemma both_black_ok F s C c l x r : at_subtree F s C (Node c l x r) ->
  both_black s (addr l) (addr r) = Some (bool_decide (node_color l = Black) && bool_decide (node_color r = Black)) /\
  black_child s (addr r) = Some (bool_decide (node_color r = Black)) /\ black_child s (addr l) = Some (bool_decide (node_color l = Black)).
Proof.
  intros H. pose proof (black_child_ok _ _ _ _ (proj1 (move_left _ _ _ _ _ _ _) H)) as Hl.
  pose proof (black_child_ok _ _ _ _ (proj1 (move_right _ _ _ _ _ _ _) H)) as Hr. unfold both_black. rewrite Hl, Hr, bind_Some.
  split; [|done]. by destruct (bool_decide (node_color l = Black)).
Qed.

Lemma rest_left_ok F L s C c t p wl x wr n cl cr : at_subtree F s C (Node c t p (Node Black wl x wr)) ->
  expects C c (S n) -> is_rb t Black n -> is_rb wl cl n -> is_rb wr cr n ->
  inorder (plug C (Node c t p (Node Black wl x wr))) = L ->
  (exists s' t' p' n', rest_left s p x = Some (Next (s', addr t', up C)) /\ erasing F L s' C t' p' n' /\ node_color t' = c) \/
  (exists s', rest_left s p x = Some (Done s') /\ finished F L s').
Proof.
  intros H HC Ht Hwl Hwr HL. unfold rest_left. goto H (FR t c p :: C) (Node Black wl x wr).
  destruct (at_node _ _ _ _ _ _ _ H) as (_ & _ & ->). rewrite bind_Some. cbn [rb_left rb_right node_of].
  destruct (both_black_ok _ _ _ _ _ _ _ H) as (-> & -> & _). rewrite !bind_Some.
  rewrite (is_rb_color _ _ _ Hwl), (is_rb_color _ _ _ Hwr). destruct cr; [|destruct cl];
    rewrite ?(bool_decide_eq_false_2 (Red = Black)), ?(bool_decide_eq_true_2 (Black = Black)), ?andb_false_r by done; cbn [andb].
  - right. destruct (is_rb_red _ _ _ Hwr (is_rb_color _ _ _ Hwr)) as (zl & z & zr & -> & Hzl & Hzr). rewrite bind_Some.
    goto H C (Node c t p (Node Black wl x (Node Red zl z zr))). by apply (far_nephew_ok F L s C c t p wl x zl z zr n cl).
  - right. destruct (is_rb_red _ _ _ Hwl (is_rb_color _ _ _ Hwl)) as (a & y & b & -> & Ha & Hb). goto H C (Node c t p (Node Black (Node Red a y b) x wr)).
    destruct (near_nephew_ok F s C c t p a y b x wr _ H (eq_refl : rb_left (node_of p Black y (addr wr)) = y)) as (s1 & Hs1 & H1). cbn [addr up frame_addr] in *.
    rewrite Hs1, bind_Some. apply (far_nephew_ok F L s1 C c t p a y b x wr n Black H1); try done. rewrite <-HL. apply inorder_plug. cbn [inorder]. by app_norm.
  - left. destruct (set_red_ok _ _ _ _ _ _ _ H) as (s1 & -> & H1). rewrite bind_Some. goto H1 C (Node c t p (Node Red wl x wr)).
    destruct (at_node _ _ _ _ _ _ _ H1) as (_ & Hu & ->). rewrite bind_Some, parent_node by done.
    assert (Hin : inorder (plug C (Node c t p (Node Red wl x wr))) = L) by (rewrite <-HL; by apply inorder_plug).
    destruct c; cbn [expects] in HC.
    + exists s1, (Node Red t p (Node Red wl x wr)), (Some Black), n. split; [done|]. split; [|done]. split; [done..|]. right. eauto 10 with rb.
    + destruct HC as [q HC]. exists s1, (Node Black t p (Node Red wl x wr)), q, (S n). split; [done|]. split; [|done]. split; [done..|]. left. eauto with rb.
Qed.

Lemma erase_left_ok F L s c p w C t q n : at_subtree F s (FL c p w :: C) t -> is_above (FL c p w :: C) q (S n) -> is_rb t Black n ->
  inorder (plug (FL c p w :: C) t) = L ->
  erase_step F L (FL c p w :: C) (erase_left s p (node_of (up C) c (addr t) (addr w))).
Proof.
  intros H HC Ht HL. unfold erase_left. cbn [rb_right node_of].
  assert (Hw : exists cw, is_rb w cw (S n) /\ expects C c (S n) /\ (c = Red -> cw = Black)).
  { inversion HC; subst; cbn [expects]; eexists; split_and!; eauto; done. }
  destruct Hw as (cw & Hw & Hexp & Hcw). apply move_up in H. cbn [plug1] in H. inversion Hw as [|wl x wr m Hwl Hwr|wl x wr cl cr m Hwl Hwr]; subst; cbn [addr].
  - assert (c = Black) as -> by (destruct c; [by specialize (Hcw eq_refl)|done]). destruct Hexp as [q' Hexp].
    pose proof (proj1 (move_right _ _ _ _ _ _ _) H) as Hx. destruct (at_node _ _ _ _ _ _ _ Hx) as (_ & Hu & ->).
    rewrite bind_Some, is_red_node, bool_decide_eq_true_2 by done.
    destruct (red_brother_ok _ _ _ _ _ _ _ _ H) as (s1 & -> & H1). rewrite bind_Some. goto H1 (FL Black x wr :: C) (Node Red t p wl).
    inversion Hwl as [| |a y b ca cb k Ha Hb]; subst. cbn [addr].
    destruct (rest_left_ok F (inorder (plug (FL Black p (Node Red (Node Black a y b) x wr) :: C) t)) s1 (FL Black x wr :: C) Red t p a y b n ca cb H1) as [Hn|Hd];
      [by econstructor|done..| | |].
    + apply (inorder_plug C). cbn [inorder plug1]. by app_norm.
    + left. destruct Hn as (s' & t' & p' & n' & Hr & He & Hc'). exists s', (FL Black x wr :: C), t', p', n'. split; [exact Hr|]. split; [done|by right].
    + right. exact Hd.
  - pose proof (proj1 (move_right _ _ _ _ _ _ _) H) as Hx. destruct (at_node _ _ _ _ _ _ _ Hx) as (_ & Hu & ->).
    rewrite bind_Some, is_red_node, bool_decide_eq_false_2, bind_Some by done.
    destruct (rest_left_ok F (inorder (plug (FL c p (Node Black wl x wr) :: C) t)) s C c t p wl x wr n cl cr H) as [Hn|Hd]; [done..| |].
    + left. destruct Hn as (s' & t' & p' & n' & Hr & He & Hc'). exists s', C, t', p', n'. split; [exact Hr|]. split; [done|by left].
    + right. exact Hd.
Qed.

(** *** The node is a right child: the mirror image *)

Definition mirror_step (r : step (rb_root * Z * Z) rb_root) : step (rb_root * Z * Z) rb_root :=
  match r with Next (s, node, parent) => Next (mirror_root s, node, parent) | Done s => Done (mirror_root s) end.

Lemma mirror_finish s p : finish_erase (mirror_root s) p = mirror_root <$> finish_erase s p.
Proof. unfold finish_erase. case_match; [apply mirror_set_black|done]. Qed.

Lemma mirror_red_brother s p x : red_brother_left (mirror_root s) p x = prod_map mirror_root id <$> red_brother_right s p x.
Proof.
  unfold red_brother_left, red_brother_right. rewrite option_fmap_bind'. apply mirror_bind; [apply mirror_set_black|]. intros s1.
  rewrite option_fmap_bind'. apply mirror_bind; [apply mirror_set_red|]. intros s2.
  rewrite option_fmap_bind'. apply mirror_bind; [apply mirror_rotate|]. intros s3. rewrite mirror_node_at. by destruct (node_at s3 p).
Qed.

Lemma mirror_near_nephew s p x o : near_nephew_left (mirror_root s) p x (mirror_node o) = prod_map mirror_root id <$> near_nephew_right s p x o.
Proof.
  unfold near_nephew_left, near_nephew_right. rewrite option_fmap_bind'. apply mirror_bind; [apply mirror_set_black|]. intros s1.
  rewrite option_fmap_bind'. apply mirror_bind; [apply mirror_set_red|]. intros s2.
  rewrite option_fmap_bind'. apply mirror_bind; [apply mirror_rotate'|]. intros s3. rewrite mirror_node_at. by destruct (node_at s3 p).
Qed.

Lemma mirror_far_nephew s p x : far_nephew_left (mirror_root s) p x = mirror_step <$> far_nephew_right s p x.
Proof.
  unfold far_nephew_left, far_nephew_right. rewrite mirror_node_at. destruct (node_at s p) as [n|]; [|done]. cbn [fmap option_fmap option_map].
  rewrite !bind_Some. change (rb_color (mirror_node n)) with (rb_color n).
  rewrite option_fmap_bind'. apply mirror_bind; [apply mirror_set_color|]. intros s1.
  rewrite option_fmap_bind'. apply mirror_bind; [apply mirror_set_black|]. intros s2.
  rewrite mirror_node_at. destruct (node_at s2 x) as [o|]; [|done]. cbn [fmap option_fmap option_map]. rewrite !bind_Some.
  rewrite option_fmap_bind'. apply mirror_bind; [apply mirror_set_black|]. intros s3.
  rewrite option_fmap_bind'. apply mirror_bind; [apply mirror_rotate|]. intros s4.
  rewrite option_fmap_bind'. apply mirror_bind; [apply mirror_finish|done].
Qed.

(** The two sides test the children of the brother in the same order, so that
    this is an equation only where both have a result. *)
Lemma mirror_erase s parent p r : erase_left (mirror_root s) parent (mirror_node p) = Some r -> erase_right s parent p = Some (mirror_step r).
Proof.
  unfold erase_left, erase_right. cbn [mirror_node rb_right]. rewrite mirror_node_at. destruct (node_at s (rb_left p)) as [o|]; [|done].
  cbn [fmap option_fmap option_map]. rewrite !bind_Some. change (rb_is_red (mirror_node o)) with (rb_is_red o).
  assert (H1 : (if rb_is_red o then red_brother_left (mirror_root s) parent (rb_left p) else Some (mirror_root s, rb_left p)) =
    prod_map mirror_root id <$> (if rb_is_red o then red_brother_right s parent (rb_left p) else Some (s, rb_left p)))
    by (case_match; [apply mirror_red_brother|done]).
  rewrite H1. clear H1. destruct (if rb_is_red o then _ else _) as [[s1 x]|]; [|done]. cbn [fmap option_fmap option_map prod_map id fst snd]. rewrite !bind_Some.
  rewrite mirror_node_at. destruct (node_at s1 x) as [o1|]; [|done]. cbn [fmap option_fmap option_map]. rewrite !bind_Some.
  cbn [mirror_node rb_left rb_right]. unfold both_black. rewrite !mirror_black_child.
  set (tail := fun b : bool => r ← (if b then near_nephew_left (mirror_root s1) parent x (mirror_node o1) else Some (mirror_root s1, x));
    let '(s, other) := r in far_nephew_left s parent other).
  assert (Htail : forall b, tail b = Some r -> (r ← (if b : bool then near_nephew_right s1 parent x o1 else Some (s1, x));
    let '(s, other) := r in far_nephew_right s parent other) = Some (mirror_step r)).
  { intros b. unfold tail. destruct b.
    - rewrite mirror_near_nephew. destruct (near_nephew_right s1 parent x o1) as [[s2 y]|]; [|done]. cbn [fmap option_fmap option_map prod_map id fst snd].
      rewrite !bind_Some, mirror_far_nephew. destruct (far_nephew_right s2 parent y) as [r'|]; [|done]. cbn. intros [= <-].
      destruct r' as [[[s3 a] b]|s3]; cbn; by rewrite mirror_root_root.
    - rewrite !bind_Some, mirror_far_nephew. destruct (far_nephew_right s1 parent x) as [r'|]; [|done]. cbn. intros [= <-].
      destruct r' as [[[s3 a] b]|s3]; cbn; by rewrite mirror_root_root. }
  destruct (black_child s1 (rb_left o1)) as [[]|], (black_child s1 (rb_right o1)) as [[]|]; rewrite ?bind_Some; try done; try apply Htail.
  rewrite mirror_set_red. destruct (rb_set_red s1 x) as [s2|]; [|done]. cbn [fmap option_fmap option_map]. rewrite !bind_Some, mirror_node_at.
  destruct (node_at s2 parent) as [n|]; [|done]. cbn. intros [= <-]. cbn. by rewrite mirror_root_root.
Qed.

Lemma mirror_finished F L s : finished (mirror_node <$> F) (reverse L) s -> finished F L (mirror_root s).
Proof.
  intros (t & Hat & [n Hn] & HL). exists (mirror t). apply mirror_at in Hat. rewrite mirror_mem_mem in Hat. split_and!.
  - exact Hat.
  - exists n. by apply mirror_is_rb.
  - by rewrite mirror_inorder, HL, reverse_involutive.
Qed.

Lemma mirror_color t : node_color (mirror t) = node_color t.
Proof. by destruct t. Qed.

Lemma mirror_erasing F L s C t p n : erasing (mirror_node <$> F) (reverse L) s C t p n ->
  erasing F L (mirror_root s) (mirror_above C) (mirror t) p n.
Proof.
  intros [H1 H2 H3 H4]. apply mirror_at in H1. rewrite mirror_mem_mem in H1. split; [done|by apply mirror_is_above| |].
  - by rewrite mirror_plug, mirror_inorder, H3, reverse_involutive.
  - destruct H4 as [H4|(l & a & r & c & c' & -> & Hl & Hr)]; [left; by apply mirror_is_rb|]. right. cbn [mirror].
    eexists _, _, _, c', c. split_and!; [done|by apply mirror_is_rb..].
Qed.

Lemma erase_right_ok F L s c p w C t q n : at_subtree F s (FR w c p :: C) t -> is_above (FR w c p :: C) q (S n) -> is_rb t Black n ->
  inorder (plug (FR w c p :: C) t) = L ->
  erase_step F L (FR w c p :: C) (erase_right s p (node_of (up C) c (addr w) (addr t))).
Proof.
  intros H%mirror_at HC%mirror_is_above Ht%mirror_is_rb HL.
  destruct (erase_left_ok _ (reverse L) _ c p (mirror w) (mirror_above C) (mirror t) q n H HC Ht) as [Hn|Hd].
  - by rewrite <-HL, <-mirror_inorder, <-mirror_plug.
  - rewrite mirror_up, !mirror_addr in Hn. destruct Hn as (s' & C' & t' & p' & n' & Hr & He & Hlen). left.
    exists (mirror_root s'), (mirror_above C'), (mirror t'), p', n'. split; [|split].
    + rewrite mirror_addr, mirror_up. by apply (mirror_erase s p (node_of (up C) c (addr w) (addr t))) in Hr.
    + by apply mirror_erasing.
    + rewrite mirror_color. unfold mirror_above in *. cbn [length] in *. rewrite length_fmap in *. tauto.
  - rewrite mirror_up, !mirror_addr in Hd. destruct Hd as (s' & Hr & Hf). right. exists (mirror_root s'). split; [by apply (mirror_erase s p (node_of (up C) c (addr w) (addr t))) in Hr|].
    by apply mirror_finished.
Qed.

(** ** Proofs: __rb_erase_color() *)

Lemma erase_go F L s f C t p n : erasing F L s (f :: C) t p n -> node_color t = Black -> erase_step F L (f :: C) (erase_body (s, addr t, up (f :: C))).
Proof.
  intros [Hat HC HL Ht] Hb. unfold erase_body. rewrite (black_child_ok _ _ _ _ Hat), bind_Some, Hb, bool_decide_eq_true_2 by done.
  rewrite (proj2 (Z.eqb_neq _ _) (root_apart _ _ _ _ _ Hat)). cbn [andb negb].
  assert (Htb : is_rb t Black n) by (destruct Ht as [?|(?&?&?&?&?& -> &_)]; done).
  pose proof Hat as Hp. apply move_up in Hp. destruct f as [c a r|l c a]; cbn [plug1 up frame_addr] in *.
  - destruct (at_node _ _ _ _ _ _ _ Hp) as (_ & _ & ->). rewrite bind_Some. cbn [rb_left node_of]. rewrite Z.eqb_refl. by eapply erase_left_ok.
  - destruct (at_node _ _ _ _ _ _ _ Hp) as (_ & _ & ->). rewrite bind_Some. cbn [rb_left node_of].
    assert (Hne : addr l <> addr t).
    { destruct (children_apart _ _ _ _ _ _ _ Hp) as [H1 _]. apply not_eq_sym. apply H1. inversion HC as [| | | |]; subst; by destruct l; try inversion select (is_rb Leaf _ _). }
    rewrite (proj2 (Z.eqb_neq _ _) Hne). by eapply erase_right_ok.
Qed.

Lemma erase_color_ok F L s C t p n : erasing F L s C t p n -> exists s', __rb_erase_color s (addr t) (up C) = Some s' /\ finished F L s'.
Proof.
  intros H. pose proof (depth_size _ _ _ _ (er_at _ _ _ _ _ _ _ H)) as Hd. unfold __rb_erase_color.
  generalize (size (mem s)) as bound, Hd. clear Hd. intros bound Hd.
  assert (Hsteps : forall k s C t p n, erasing F L s C t p n -> length C = k ->
    exists j st s', steps erase_body j (s, addr t, up C) = Some st /\ (j <= k)%nat /\ erase_body st = Some (Done s') /\ finished F L s').
  { clear. induction k as [k IH] using lt_wf_ind. intros s C t p n H Hk. destruct (decide (node_color t = Red \/ C = [])) as [Hstop|Hgo].
    - destruct (erase_done _ _ _ _ _ _ _ H Hstop) as (s' & Hb & Hf). exists O, (s, addr t, up C), s'. split_and!; [done|lia|done..].
    - destruct C as [|f C]; [tauto|]. assert (Hb : node_color t = Black) by (destruct (node_color t); tauto).
      destruct (erase_go _ _ _ _ _ _ _ _ H Hb) as [(s1 & C1 & t1 & p1 & n1 & Hr & He & Hlen)|(s' & Hr & Hf)].
      + destruct (decide (node_color t1 = Red)) as [Hred|Hred].
        * destruct (erase_done _ _ _ _ _ _ _ He (or_introl Hred)) as (s' & Hb1 & Hf). exists 1%nat, (s1, addr t1, up C1), s'.
          split_and!; [cbn [steps]; by rewrite Hr|cbn in Hk; lia|done..].
        * destruct Hlen as [Hlen|?]; [|done]. destruct (IH (length C1) ltac:(lia) _ _ _ _ _ He eq_refl) as (j & st & s' & Hst & Hj & Hres).
          exists (S j), st, s'. split; [cbn [steps]; by rewrite Hr|]. split; [lia|done].
      + exists O, (s, addr t, up (f :: C)), s'. split_and!; [done|lia|done..]. }
  destruct (Hsteps _ s C t p n H eq_refl) as (j & st & s' & Hst & Hj & Hdone & Hf). exists s'. split; [|done].
  by rewrite (loop_steps _ j _ _ st s' Hst Hdone) by lia.
Qed.

(** ** Proofs: taking a node out *)

(** A node that leaves the tree belongs to the rest of the memory. *)
Lemma owns_drop s F k n P : owns s F ((k, n) :: P) -> owns s (<[k := n]> F) P.
Proof.
  intros H. pose proof (owns_load _ _ _ _ _ H) as Hk. destruct H as [H1 H2 H3 H4]. cbn in *. apply list.NoDup_cons in H1 as [Hn H1]. split.
  - done.
  - by apply list.Forall_cons in H2 as [_ H2].
  - intros j m Hj. apply H3. by right.
  - intros j Hj. destruct (decide (k = j)) as [<-|Hne]; [by rewrite lookup_insert_eq|]. rewrite lookup_insert_ne by done. apply H4.
    by apply not_elem_of_cons.
Qed.

(** What is left to do when a node of the colour [cy] has been taken out above [t]. *)
Lemma recolor_ok F L s C t p m cy : at_subtree F s C t -> is_above C p m ->
  match cy with Red => is_rb t Black m | Black => exists n c, m = S n /\ is_rb t c n end -> inorder (plug C t) = L ->
  exists s', (if color_bit cy =? RB_BLACK then __rb_erase_color s (addr t) (up C) else Some s) = Some s' /\ finished F L s'.
Proof.
  intros Hat HC Ht HL. destruct cy; cbn [color_bit Z.eqb].
  - exists s. split; [done|]. destruct (plug_rb C p m HC t Black Ht) as (c & k & Hrb & Hb); [done|].
    exists (plug C t). split_and!; [exact (proj1 (move_top _ _ _ _) Hat)| |done]. exists k. destruct C as [|f C].
    + cbn in *. pose proof (is_rb_color _ _ _ Hrb) as E. pose proof (is_rb_color _ _ _ Ht) as E'. by rewrite <-E', E.
    + by rewrite (Hb ltac:(done)) in Hrb.
  - destruct Ht as (n & c & -> & Ht). change (RB_BLACK =? RB_BLACK) with true. apply (erase_color_ok F L s C t p n). split; [done..|].
    destruct Ht as [|l a r n Hl Hr|l a r c1 c2 n Hl Hr]; [left; auto with rb| |left; eauto with rb]. right. eauto 10.
Qed.

(** The replacement in the parent of a node. *)
Lemma replace_child_eq s parent old new :
  (if truth parent then
     p ← node_at s parent;
     if rb_left p =? old then set_left s parent new else set_right s parent new
   else Some (set_root s new)) = replace_child s parent old new.
Proof. unfold replace_child. case_match; [|done]. destruct (node_at s parent) as [p|]; [|done]. rewrite !bind_Some. by rewrite Z.eqb_sym. Qed.

Lemma replace_root C t t' s s' : root s = addr (plug C t) -> root s' = match C with [] => addr t' | _ => root s end -> root s' = addr (plug C t').
Proof. intros Hr Hr'. destruct C as [|f C]; [done|]. rewrite Hr', Hr. apply addr_plug_cons. Qed.

Lemma erase_single_ok F s C c l x r child p m : at_subtree F s C (Node c l x r) -> l = Leaf /\ child = r \/ r = Leaf /\ child = l ->
  is_above C p m -> is_rb (Node c l x r) c m ->
  exists n s', node_at s x = Some n /\ erase_single s x (addr child) = Some s' /\ finished (<[x := n]> F) (before C ++ inorder child ++ behind C) s'.
Proof.
  intros Hat Hch HC Hrb. destruct (at_node _ _ _ _ _ _ _ Hat) as ([_ Hx] & Hu & Hn). exists (node_of (up C) c (addr l) (addr r)). unfold erase_single. rewrite Hn, bind_Some, parent_node by done.
  assert (Hcol : rb_color (node_of (up C) c (addr l) (addr r)) = color_bit c) by (by apply pc_color). rewrite Hcol.
  destruct Hat as [Ho Hr]. cbn [entries addr app] in Ho. set (nx := node_of (up C) c (addr l) (addr r)) in *.
  assert (Hoc : owns s F (entries child x ++ (x, nx) :: entries_above C x)) by (destruct Hch as [[-> ->]|[-> ->]]; (eapply owns_perm; [exact Ho|cbn [entries app]; perm])).
  destruct (set_parent_child _ _ _ _ (up C) _ Hoc Hx Hu) as (s1 & -> & Ho1 & Hr1). rewrite bind_Some, replace_child_eq.
  reorder Ho1 (entries_above C x ++ (x, nx) :: entries child (up C)).
  destruct (replace_child_ok _ _ _ _ (addr child) _ Ho1) as (s2 & -> & Ho2 & Hr2); [by left|]. rewrite bind_Some.
  reorder Ho2 ((x, nx) :: entries child (up C) ++ entries_above C (addr child)). apply owns_drop in Ho2.
  destruct (recolor_ok (<[x := nx]> F) (before C ++ inorder child ++ behind C) s2 C child p m c) as (s' & Hs' & Hf).
  - split; [done|]. rewrite Hr1 in Hr2. by eapply replace_root.
  - done.
  - inversion Hrb as [|? ? ? ? Hl' Hr'|? ? ? c1 c2 k Hl' Hr']; subst.
    + by destruct Hch as [[-> ->]|[-> ->]].
    + exists k. destruct Hch as [[-> ->]|[-> ->]]; eauto.
  - apply inorder_around.
  - exists s'. split_and!; [done|exact Hs'|exact Hf].
Qed.

(** ** Proofs: the successor *)

Lemma truth_addr F s C t : at_subtree F s C t -> t <> Leaf -> truth (addr t) = true.
Proof. intros H Ht. unfold truth. destruct (Z.eqb_spec (addr t) 0) as [E|]; [|done]. by apply (addr_zero _ _ _ _ H) in E. Qed.

(** The leftmost node of a subtree is reached through left children only. *)
Definition goes_left (D : list frame) : Prop := Forall (fun f => exists c a r, f = FL c a r) D.

Lemma leftmost_steps F s t : forall C, t <> Leaf -> at_subtree F s C t ->
  exists D c y r, t = plug D (Node c Leaf y r) /\ goes_left D /\ steps (leftmost_body s) (length D) (addr t) = Some y /\ leftmost_body s y = Some (Done y).
Proof.
  induction t as [|c l IH a r _]; intros C Ht Hat; [done|]. destruct (at_node _ _ _ _ _ _ _ Hat) as (Ha & _ & Hn).
  assert (l = Leaf \/ l <> Leaf) as [->|Hl] by (destruct l; auto).
  - exists [], c, a, r. split_and!; [done|by constructor|done|]. unfold leftmost_body. by rewrite Hn.
  - pose proof Hat as Hat'. goto Hat' (FL c a r :: C) l. destruct (IH _ Hl Hat') as (D & c' & y & r' & E & HD & Hs & Hb).
    exists (D ++ [FL c a r]), c', y, r'. split_and!.
    + unfold plug in *. by rewrite foldl_app, <-E.
    + apply Forall_app. split; [done|]. repeat constructor. eauto.
    + assert (Hnext : leftmost_body s a = Some (Next (addr l))).
      { unfold leftmost_body. rewrite Hn, bind_Some. cbn [node_of rb_left]. by rewrite (truth_addr _ _ _ _ Hat'). }
      rewrite length_app, Nat.add_comm. cbn [length steps Nat.add addr]. by rewrite Hnext.
    + done.
Qed.

Lemma leftmost_ok F s C t : t <> Leaf -> at_subtree F s C t ->
  exists D c y r, t = plug D (Node c Leaf y r) /\ goes_left D /\ leftmost s (addr t) = Some y.
Proof.
  intros Ht Hat. destruct (leftmost_steps _ _ _ _ Ht Hat) as (D & c & y & r & E & HD & Hs & Hb). exists D, c, y, r. split_and!; [done..|].
  unfold leftmost. rewrite (loop_steps _ _ _ _ _ _ Hs Hb); [done|]. rewrite E in Hat.
  apply (relocate _ _ _ _ (D ++ C) (Node c Leaf y r)) in Hat; [|unfold plug; by rewrite foldl_app].
  apply depth_size in Hat. rewrite length_app in Hat. lia.
Qed.

Lemma before_left D C : goes_left D -> before (D ++ C) = before C.
Proof. induction 1 as [|f D (c & a & r & ->) _ IH]; [done|]. cbn [app before]. exact IH. Qed.

(** Part of a path: the nodes of [D] above the address [p], below [par]. *)
Definition up_to (D : list frame) (par : Z) : Z := match D with [] => par | f :: _ => frame_addr f end.
Definition top (D : list frame) (p : Z) : Z := foldl (fun _ f => frame_addr f) p D.
Fixpoint segment (D : list frame) (p par : Z) : list (Z * rb_node) :=
  match D with
  | [] => []
  | FL c a r :: D' => (a, node_of (up_to D' par) c p (addr r)) :: entries r a ++ segment D' a par
  | FR l c a :: D' => (a, node_of (up_to D' par) c (addr l) p) :: entries l a ++ segment D' a par
  end.

Lemma up_app D C : up (D ++ C) = up_to D (up C).
Proof. by destruct D. Qed.

Lemma above_segment D C p : entries_above (D ++ C) p = segment D p (up C) ++ entries_above C (top D p).
Proof.
  revert p. induction D as [|[c a r|l c a] D IH]; intros p; [done|..]; cbn [app entries_above segment]; rewrite up_app, IH; by app_norm.
Qed.

Lemma segment_keys D p par p' par' : (segment D p par).*1 = (segment D p' par').*1.
Proof. revert p p'. induction D as [|[c a r|l c a] D IH]; intros p p'; [done|..]; cbn; rewrite !fmap_app; by rewrite (IH a a). Qed.

Lemma top_addr D t : addr (plug D t) = top D (addr t).
Proof. destruct D as [|f D _] using rev_ind; [done|]. unfold plug, top. rewrite !foldl_app. by destruct f. Qed.

Lemma top_any D p q : D <> [] -> top D p = top D q.
Proof. by destruct D. Qed.

(** Giving the path another parent. *)
Lemma segment_set_parent F D p par q : forall s P, D <> [] -> owns s F (segment D p par ++ P) -> par mod 4 = 0 -> q mod 4 = 0 ->
  exists s', rb_set_parent s (top D p) q = Some s' /\ owns s' F (segment D p q ++ P) /\ root s' = root s.
Proof.
  revert p. induction D as [|f D IH]; intros p s P HD Ho Hpar Hq; [done|]. assert (D = [] \/ D <> []) as [->|HD'] by (destruct D; auto).
  - destruct f as [c a r|l c a]; cbn [segment app up_to top foldl frame_addr] in *; by apply (own_set_parent _ _ _ _ _ _ _ _ _ Ho).
  - assert (Hup : up_to D par = up_to D q) by (by destruct D).
    change (top (f :: D) p) with (top D (frame_addr f)).
    destruct f as [c a r|l c a]; cbn [segment frame_addr] in *; rewrite Hup in Ho.
    + reorder Ho (segment D a par ++ (a, node_of (up_to D q) c p (addr r)) :: entries r a ++ P).
      destruct (IH _ _ _ HD' Ho Hpar Hq) as (s' & Hs & Ho' & Hr). exists s'. split_and!; [done| |done]. eapply owns_perm; [exact Ho'|perm].
    + reorder Ho (segment D a par ++ (a, node_of (up_to D q) c (addr l) p) :: entries l a ++ P).
      destruct (IH _ _ _ HD' Ho Hpar Hq) as (s' & Hs & Ho' & Hr). exists s'. split_and!; [done| |done]. eapply owns_perm; [exact Ho'|perm].
Qed.

(** The successor leaves its place, ... *)
Lemma detach_ok F s D cy y ry x nx Q : goes_left D -> rb_right nx = top D y ->
  owns s F ((y, node_of (up_to D x) cy 0 (addr ry)) :: entries ry y ++ segment D y x ++ (x, nx) :: Q) ->
  exists s', detach s x y (addr ry) (up_to D x) = Some (s', up_to D y) /\ root s' = root s /\
    owns s' F ((y, node_of (up_to D x) cy 0 (addr (plug D ry))) :: entries ry (up_to D y) ++ segment D (addr ry) y ++ (x, nx) :: Q).
Proof.
  intros HD Hnx Ho. unfold detach. destruct HD as [|f D (c & a & r & ->) HD]; cbn [up_to] in *.
  { rewrite Z.eqb_refl. by exists s. }
  cbn [segment frame_addr] in Ho. cbn [frame_addr]. destruct (owns_valid _ _ _ _ _ Ho) as [_ Hy].
  reorder Ho ((a, node_of (up_to D x) c y (addr r)) :: (y, node_of a cy 0 (addr ry)) :: entries ry y ++ entries r a ++ segment D a x ++ (x, nx) :: Q).
  destruct (owns_valid _ _ _ _ _ Ho) as [_ Ha].
  assert (Hax : x <> a) by (eapply owns_apart; [exact Ho|]; cbn; rewrite !fmap_app; set_solver).
  rewrite (proj2 (Z.eqb_neq a x)) by done.
  reorder Ho (entries ry y ++ (a, node_of (up_to D x) c y (addr r)) :: (y, node_of a cy 0 (addr ry)) :: entries r a ++ segment D a x ++ (x, nx) :: Q).
  destruct (set_parent_child _ _ _ _ a _ Ho Hy Ha) as (s1 & -> & Ho1 & Hr1). rewrite bind_Some.
  reorder Ho1 ((a, node_of (up_to D x) c y (addr r)) :: (y, node_of a cy 0 (addr ry)) :: entries ry a ++ entries r a ++ segment D a x ++ (x, nx) :: Q).
  destruct (own_set_left _ _ _ _ _ _ _ (addr ry) _ Ho1) as (s2 & -> & Ho2 & Hr2). rewrite bind_Some.
  apply (owns_perm _ _ _ ((x, nx) :: (y, node_of a cy 0 (addr ry)) :: entries ry a ++ segment (FL c a r :: D) (addr ry) x ++ Q)) in Ho2;
    [|cbn [segment]; perm].
  rewrite (owns_load _ _ _ _ _ Ho2), bind_Some. destruct (owns_valid _ _ _ _ _ Ho2) as [_ Hx].
  reorder Ho2 ((y, node_of a cy 0 (addr ry)) :: (x, nx) :: entries ry a ++ segment (FL c a r :: D) (addr ry) x ++ Q).
  destruct (own_set_right _ _ _ _ _ _ _ (rb_right nx) _ Ho2) as (s3 & -> & Ho3 & Hr3). rewrite bind_Some.
  assert (Htop : rb_right nx = top (FL c a r :: D) (addr ry)) by done. rewrite Htop in *.
  reorder Ho3 (segment (FL c a r :: D) (addr ry) x ++ (y, node_of a cy 0 (top (FL c a r :: D) (addr ry))) :: (x, nx) :: entries ry a ++ Q).
  destruct (segment_set_parent _ (FL c a r :: D) _ _ y _ _ ltac:(done) Ho3 Hx Hy) as (s4 & -> & Ho4 & Hr4). rewrite bind_Some.
  exists s4. split_and!; [done|congruence|]. rewrite top_addr. eapply owns_perm; [exact Ho4|perm].
Qed.

(** ... and takes that of the node. *)
Lemma take_place_ok F s p cy b y u c l b' x Q : l <> Leaf -> u mod 4 = 0 ->
  owns s F ((y, node_of p cy 0 b) :: (x, node_of u c (addr l) b') :: entries l x ++ Q) ->
  exists s', take_place s x y = Some s' /\ root s' = root s /\
    owns s' F ((y, node_of u c (addr l) b) :: (x, node_of u c (addr l) b') :: entries l y ++ Q).
Proof.
  intros Hl Hu Ho. unfold take_place. destruct (owns_valid _ _ _ _ _ Ho) as [_ Hy].
  reorder Ho ((x, node_of u c (addr l) b') :: (y, node_of p cy 0 b) :: entries l x ++ Q). destruct (owns_valid _ _ _ _ _ Ho) as [_ Hx].
  rewrite (owns_load _ _ _ _ _ Ho), bind_Some. reorder Ho ((y, node_of p cy 0 b) :: (x, node_of u c (addr l) b') :: entries l x ++ Q).
  destruct (owns_update _ _ _ _ _ (fun r => with_pc r (rb_parent_color (node_of u c (addr l) b'))) Ho) as (s1 & -> & Ho1 & Hr1). rewrite bind_Some.
  change (with_pc (node_of p cy 0 b) _) with (node_of u c 0 b) in Ho1.
  destruct (own_set_left _ _ _ _ _ _ _ (addr l) _ Ho1) as (s2 & Hs2 & Ho2 & Hr2). cbn [node_of rb_left] in *. rewrite Hs2, bind_Some.
  reorder Ho2 (entries l x ++ (y, node_of u c (addr l) b) :: (x, node_of u c (addr l) b') :: Q).
  destruct l as [|cl ll la lr]; [done|]. cbn [entries addr app] in *.
  destruct (own_set_parent _ _ _ _ _ _ _ y _ Ho2 Hx Hy) as (s3 & -> & Ho3 & Hr3).
  exists s3. split_and!; [done|congruence|]. eapply owns_perm; [exact Ho3|perm].
Qed.

Lemma is_above_rename D l c x y C p m : is_above (D ++ FR l c x :: C) p m -> is_above (D ++ FR l c y :: C) p m.
Proof.
  revert p m. induction D as [|f D IH]; intros p m H; cbn [app] in *; inversion H; subst; eauto with rb.
Qed.

Lemma plug_app D C t : plug (D ++ C) t = plug C (plug D t).
Proof. apply foldl_app. Qed.

(** The successor [y] of [x] takes its place. *)
Lemma successor_moves F s C c l x D cy y ry : at_subtree F s C (Node c l x (plug D (Node cy Leaf y ry))) -> l <> Leaf -> goes_left D ->
  exists s1 s2 s3, replace_child s (up C) x y = Some s1 /\ node_at s1 y = Some (node_of (up_to D x) cy 0 (addr ry)) /\ up_to D x mod 4 = 0 /\
    detach s1 x y (addr ry) (up_to D x) = Some (s2, up_to D y) /\ take_place s2 x y = Some s3 /\
    at_subtree (<[x := node_of (up C) c (addr l) (addr (plug D (Node cy Leaf y ry)))]> F) s3 (D ++ FR l c y :: C) ry.
Proof.
  intros Hat Hl HD. destruct (at_node _ _ _ _ _ _ _ Hat) as (_ & Hu & _).
  apply (relocate _ _ _ _ (D ++ FR l c x :: C) (Node cy Leaf y ry)) in Hat; [|by rewrite plug_app].
  destruct (at_node _ _ _ _ _ _ _ Hat) as (_ & Hp & _). rewrite up_app in Hp. destruct Hat as [Ho Hr]. rewrite above_segment, up_app in Ho.
  cbn [entries addr app up frame_addr entries_above] in *. rewrite top_addr. cbn [addr]. set (nx := node_of (up C) c (addr l) (top D y)) in *.
  set (ny := node_of (up_to D x) cy 0 (addr ry)) in *.
  reorder Ho (entries_above C x ++ (x, nx) :: (y, ny) :: entries ry y ++ segment D y x ++ entries l x).
  destruct (replace_child_ok _ _ _ _ y _ Ho) as (s1 & Hs1 & Ho1 & Hr1); [by left|].
  reorder Ho1 ((y, ny) :: entries ry y ++ segment D y x ++ (x, nx) :: entries l x ++ entries_above C y).
  pose proof (owns_load _ _ _ _ _ Ho1) as Hy. destruct (detach_ok _ _ _ _ _ _ _ nx _ HD eq_refl Ho1) as (s2 & Hs2 & Hr2 & Ho2).
  reorder Ho2 ((y, node_of (up_to D x) cy 0 (addr (plug D ry))) :: (x, nx) :: entries l x ++ entries ry (up_to D y) ++ segment D (addr ry) y ++ entries_above C y).
  destruct (take_place_ok _ _ _ _ _ _ _ _ _ _ _ _ Hl Hu Ho2) as (s3 & Hs3 & Hr3 & Ho3). exists s1, s2, s3. split_and!; [done..|]. split.
  - rewrite up_app, above_segment. cbn [up frame_addr entries_above]. rewrite top_addr in Ho3. fold nx in Ho3. apply owns_drop.
    eapply owns_perm; [exact Ho3|perm].
  - rewrite plug_app in *. cbn [plug] in *. rewrite Hr3, Hr2. apply (replace_root C (Node c l x (plug D (Node cy Leaf y ry))) (Node c l y (plug D ry)) s s1); done.
Qed.

Lemma erase_double_ok F s C c l x r m : at_subtree F s C (Node c l x r) -> l <> Leaf -> r <> Leaf -> is_rb (plug C (Node c l x r)) Black m ->
  exists n s', node_at s x = Some n /\ erase_double s x = Some s' /\ finished (<[x := n]> F) (before C ++ (inorder l ++ inorder r) ++ behind C) s'.
Proof.
  intros Hat Hl Hr Hrb. destruct (at_node _ _ _ _ _ _ _ Hat) as (_ & Hu & Hn). exists (node_of (up C) c (addr l) (addr r)).
  unfold erase_double. rewrite Hn, bind_Some. cbn [node_of rb_right]. rewrite parent_node by done.
  pose proof Hat as Hatr. goto Hatr (FR l c x :: C) r. destruct (leftmost_ok _ _ _ _ Hr Hatr) as (D & cy & y & ry & -> & HD & ->).
  rewrite bind_Some, replace_child_eq.
  destruct (successor_moves _ _ _ _ _ _ _ _ _ _ Hat Hl HD) as (s1 & s2 & s3 & -> & Hy & Hp & Hs2 & Hs3 & H3).
  rewrite bind_Some, Hy, bind_Some, parent_node by done. cbn [node_of rb_right]. rewrite Hs2, bind_Some, Hs3, bind_Some.
  assert (Hcol : rb_color (node_of (up_to D x) cy 0 (addr ry)) = color_bit cy) by (by apply pc_color). rewrite Hcol.
  change (Node c l x (plug D (Node cy Leaf y ry))) with (plug [FR l c x] (plug D (Node cy Leaf y ry))) in Hrb.
  rewrite <-!plug_app in Hrb. destruct (unplug_rb _ _ _ _ Hrb) as (p & k & c' & HC & Ht & _); [done|]. cbn [app] in HC.
  apply (is_above_rename _ _ _ _ y) in HC.
  destruct (recolor_ok _ (before C ++ (inorder l ++ inorder (plug D (Node cy Leaf y ry))) ++ behind C) _ _ _ _ _ cy H3 HC) as (s' & Hs' & Hf).
  - inversion Ht as [|? ? ? ? Hl' Hr'|? ? ? c1 c2 j Hl' Hr']; subst; eauto.
  - rewrite plug_app, inorder_around. cbn [plug foldl plug1 before behind]. rewrite !inorder_around. cbn [inorder].
    pose proof (before_left D [] HD) as Hb. rewrite app_nil_r in Hb. rewrite Hb. cbn [before]. by app_norm.
  - exists s'. rewrite up_app in Hs'. split_and!; [done|exact Hs'|exact Hf].
Qed.

(** C1: Erasing a node of a red-black tree always succeeds: the loops end, no
    pointer that is not to a node of the tree is followed, and the result
    represents a tree that is again a red-black tree - black root, no two red
    nodes in a row, as many black nodes on every path - with the same nodes in the
    same order, but for the one that was erased. Everything else in memory, the
    erased node included, is as it was. *)
Theorem rb_erase_correct F s C c l x r : represents F s (plug C (Node c l x r)) -> rb_tree (plug C (Node c l x r)) ->
  exists s' t n, rb_erase s x = Some s' /\ represents (<[x := n]> F) s' t /\ node_at s x = Some n /\ rb_tree t /\
    inorder (plug C (Node c l x r)) = before C ++ (inorder l ++ x :: inorder r) ++ behind C /\
    inorder t = before C ++ (inorder l ++ inorder r) ++ behind C.
Proof.
  intros Hrep [m Hrb]. pose proof (proj2 (move_top _ _ _ _) Hrep) as Hat.
  destruct (at_node _ _ _ _ _ _ _ Hat) as (_ & Hu & Hn).
  enough (exists n s', node_at s x = Some n /\ rb_erase s x = Some s' /\ finished (<[x := n]> F) (before C ++ (inorder l ++ inorder r) ++ behind C) s')
    as (n & s' & H1 & H2 & t & H3 & H4 & H5).
  { exists s', t, n. split_and!; [done..| |done]. apply inorder_around. }
  unfold rb_erase. rewrite Hn, bind_Some, <-Hn. cbn [node_of rb_left rb_right].
  destruct (unplug_rb _ _ _ _ Hrb) as (p & k & c' & HC & Ht & _); [done|].
  assert (c' = c) as -> by (by inversion Ht).
  destruct l as [|cl ll la lr].
  { destruct (erase_single_ok _ _ _ _ _ _ _ r _ _ Hat (or_introl (conj eq_refl eq_refl)) HC Ht) as (n & s' & Hres). by exists n, s'. }
  pose proof Hat as Hl. goto Hl (FL c x r :: C) (Node cl ll la lr). rewrite (truth_addr _ _ _ _ Hl) by done. cbn [negb].
  destruct r as [|cr rl ra rr].
  { destruct (erase_single_ok _ _ _ _ _ _ _ (Node cl ll la lr) _ _ Hat (or_intror (conj eq_refl eq_refl)) HC Ht) as (n & s' & Hres).
    exists n, s'. cbn [inorder app]. by rewrite app_nil_r. }
  pose proof Hat as Hr. goto Hr (FR (Node cl ll la lr) c x :: C) (Node cr rl ra rr). rewrite (truth_addr _ _ _ _ Hr) by done. cbn [negb].
  by apply (erase_double_ok _ _ _ c _ _ _ m).
Qed.

(** The root of a tree of four nodes is erased: its successor takes its place. *)
Lemma rb_erase_correct_witness :
  let T := Node Black (Node Black Leaf 4 Leaf) 8 (Node Black Leaf 12 (Node Red Leaf 16 Leaf)) in
  exists s' t n, rb_erase (build ∅ T) 8 = Some s' /\ represents (<[8 := n]> ∅) s' t /\ node_at (build ∅ T) 8 = Some n /\ rb_tree t /\
    inorder T = [4; 8; 12; 16] /\ inorder t = [4; 12; 16].
Proof.
  intros T.
  assert (Hrep : represents ∅ (build ∅ T) T) by (apply build_ok; [apply (bool_decide_unpack _); vm_compute; done|repeat constructor; lia]).
  assert (Hrb : rb_tree T) by (exists 2%nat; unfold T; eauto 10 with rb).
  destruct (rb_erase_correct ∅ _ [] Black (Node Black Leaf 4 Leaf) 8 (Node Black Leaf 12 (Node Red Leaf 16 Leaf)) Hrep Hrb) as (s' & t & n & H1 & H2 & H3 & H4 & H5 & H6).
  exists s', t, n. split_and!; done.
Defined.
