(* ===== verification/RbWalk.v ===== *)
(** * RbWalk: walking over a red-black tree, and replacing a node

    lib/rbtree.c: rb_first(), rb_last(), rb_next() and rb_prev() return the
    neighbours of a node in the order of the tree; rb_replace_node() puts one node at
    the place of another; rb_augment_path() and its callers call a function of the
    user for the nodes whose subtree has changed. *)

From stdpp Require Import list gmap.
From S2P Require Import Prelude RbTree RbInsert RbErase.
Open Scope Z_scope.

(** ** Operations *)

(** A NULL result is 0. *)
Definition rb_first (s : rb_root) : option Z := if truth (root s) then leftmost s (root s) else Some 0.

Definition rightmost_body (s : rb_root) (node : Z) : option (step Z Z) :=
  n ← node_at s node;
  if truth (rb_right n) then Some (Next (rb_right n)) else Some (Done node).
Definition rightmost (s : rb_root) (node : Z) : option Z := loop (rightmost_body s) (Z.of_nat (size (mem s)) + 1) node.

Definition rb_last (s : rb_root) : option Z := if truth (root s) then rightmost s (root s) else Some 0.

(** [while ((parent = rb_parent(node)) && node == parent->rb_right) node = parent;] *)
Definition next_body (s : rb_root) (node : Z) : option (step Z Z) :=
  n ← node_at s node;
  let parent := rb_parent n in
  if truth parent then
    p ← node_at s parent;
    if node =? rb_right p then Some (Next parent) else Some (Done parent)
  else Some (Done parent).
Definition rb_next (s : rb_root) (node : Z) : option Z :=
  n ← node_at s node;
  if rb_parent n =? node then Some 0
  else if truth (rb_right n) then leftmost s (rb_right n)
  else loop (next_body s) (Z.of_nat (size (mem s)) + 1) node.

Definition prev_body (s : rb_root) (node : Z) : option (step Z Z) :=
  n ← node_at s node;
  let parent := rb_parent n in
  if truth parent then
    p ← node_at s parent;
    if node =? rb_left p then Some (Next parent) else Some (Done parent)
  else Some (Done parent).
Definition rb_prev (s : rb_root) (node : Z) : option Z :=
  n ← node_at s node;
  if rb_parent n =? node then Some 0
  else if truth (rb_left n) then rightmost s (rb_left n)
  else loop (prev_body s) (Z.of_nat (size (mem s)) + 1) node.

(** [*new = *victim] is the last statement. *)
Definition rb_replace_node (s : rb_root) (victim new : Z) : option rb_root :=
  v ← node_at s victim;
  s ← replace_child s (rb_parent v) victim new;
  v ← node_at s victim;
  s ← (if truth (rb_left v) then rb_set_parent s (rb_left v) new else Some s);
  v ← node_at s victim;
  s ← (if truth (rb_right v) then rb_set_parent s (rb_right v) new else Some s);
  v ← node_at s victim;
  update s new (fun _ => v).

(** ** Augmented trees: operations *)

(** [func] is the function of the user, of type rb_augment_f: it may read the nodes, and changes the
    user's own data [A]. *)
Section Augment.
Context {A : Type} (func : rb_root -> Z -> A -> A).

(** The block from the label [up] to [goto up]. *)
Definition augment_body (s : rb_root) (st : Z * A) : option (step (Z * A) A) :=
  let '(node, data) := st in
  let data := func s node data in
  n ← node_at s node;
  let parent := rb_parent n in
  if negb (truth parent) then Some (Done data)
  else
    p ← node_at s parent;
    if (node =? rb_left p) && truth (rb_right p) then Some (Next (parent, func s (rb_right p) data))
    else if truth (rb_left p) then Some (Next (parent, func s (rb_left p) data))
    else Some (Next (parent, data)).
Definition rb_augment_path (s : rb_root) (node : Z) (data : A) : option A :=
  loop (augment_body s) (Z.of_nat (size (mem s)) + 1) (node, data).

Definition rb_augment_insert (s : rb_root) (node : Z) (data : A) : option A :=
  n ← node_at s node;
  let node := if truth (rb_left n) then rb_left n else if truth (rb_right n) then rb_right n else node in
  rb_augment_path s node data.

Definition rb_augment_erase_end (s : rb_root) (node : Z) (data : A) : option A :=
  if truth node then rb_augment_path s node data else Some data.
End Augment.

Definition rb_augment_erase_begin (s : rb_root) (node : Z) : option Z :=
  n ← node_at s node;
  if negb (truth (rb_right n)) && negb (truth (rb_left n)) then Some (rb_parent n)
  else if negb (truth (rb_right n)) then Some (rb_left n)
  else if negb (truth (rb_left n)) then Some (rb_right n)
  else
    deepest ← rb_next s node;
    d ← node_at s deepest;
    if truth (rb_right d) then Some (rb_right d)
    else if negb (rb_parent d =? node) then Some (rb_parent d)
    else Some deepest.

(** ** Proofs: the neighbours of a node *)

(** Where a node of a given position is. *)
Lemma find_node t a : forall C P Q, inorder t = P ++ a :: Q ->
  exists D c l r, plug C t = plug D (Node c l a r) /\ before D ++ inorder l = before C ++ P /\ inorder r ++ behind D = Q ++ behind C.
Proof.
  induction t as [|c l IHl b r IHr]; intros C P Q E; cbn [inorder] in E; [by destruct P|].
  assert (Hhere : a = b -> P = inorder l -> Q = inorder r -> exists D c' l' r', plug C (Node c l b r) = plug D (Node c' l' a r') /\
    before D ++ inorder l' = before C ++ P /\ inorder r' ++ behind D = Q ++ behind C) by (intros -> -> ->; by exists C, c, l, r).
  apply app_eq_inv in E as [(k & E1 & E2)|(k & E1 & E2)]; destruct k as [|a' k]; cbn [app] in E2; injection E2 as <- E2.
  - apply Hhere; [done|by rewrite app_nil_r in E1|done].
  - destruct (IHl (FL c b r :: C) P k E1) as (D & c' & l' & r' & H1 & H2 & H3). exists D, c', l', r'. split_and!; [done..|].
    rewrite H3, E2. cbn [behind]. by app_norm.
  - apply Hhere; [done|by rewrite app_nil_r in E1|done].
  - destruct (IHr (FR l c b :: C) k Q E2) as (D & c' & l' & r' & H1 & H2 & H3). exists D, c', l', r'. split_and!; [done| |done].
    rewrite H2, E1. cbn [before]. by app_norm.
Qed.

(** The leftmost node is the first one. *)
Lemma leftmost_first F s C t : at_subtree F s C t -> t <> Leaf -> leftmost s (addr t) = Some (default 0 (head (inorder t))).
Proof.
  intros H Ht. destruct (leftmost_ok _ _ _ _ Ht H) as (D & c & y & r & -> & HD & ->). rewrite inorder_around.
  pose proof (before_left D [] HD) as Hb. rewrite app_nil_r in Hb. by rewrite Hb.
Qed.

(** Going up: the first node to the right. *)
Lemma next_steps F s C : forall t, at_subtree F s C t -> t <> Leaf -> exists n u, steps (next_body s) n (addr t) = Some u /\
  (n <= length C)%nat /\ next_body s u = Some (Done (default 0 (head (behind C)))).
Proof.
  induction C as [|f C IH]; intros t H Ht; (destruct t as [|c l a r]; [done|]); destruct (at_node _ _ _ _ _ _ _ H) as (_ & Hu & Hn); cbn [addr].
  - exists 0%nat, a. split_and!; [done|done|]. unfold next_body. by rewrite Hn, bind_Some, parent_node.
  - destruct f as [cf b q|q cf b]; cbn [up frame_addr] in *.
    + goto H C (Node cf (Node c l a r) b q). destruct (at_node _ _ _ _ _ _ _ H) as ([Hb _] & _ & Hnb).
      exists 0%nat, a. split_and!; [done|cbn; lia|]. unfold next_body. rewrite Hn, bind_Some, parent_node by done.
      unfold truth. rewrite (proj2 (Z.eqb_neq b 0)) by lia. cbn [negb]. rewrite Hnb, bind_Some. cbn [node_of rb_right].
      rewrite (proj2 (Z.eqb_neq a (addr q))); [done|]. apply not_eq_sym. by apply (children_apart _ _ _ _ _ _ _ H).
    + goto H C (Node cf q b (Node c l a r)). destruct (at_node _ _ _ _ _ _ _ H) as ([Hb _] & _ & Hnb).
      destruct (IH _ H ltac:(done)) as (n & u & Hs & Hl & Hd). exists (S n), u. split_and!; [|cbn; lia|done].
      assert (Hnext : next_body s a = Some (Next b)).
      { unfold next_body. rewrite Hn, bind_Some, parent_node by done. unfold truth. rewrite (proj2 (Z.eqb_neq b 0)) by lia. cbn [negb].
        rewrite Hnb, bind_Some. cbn [node_of rb_right addr]. by rewrite Z.eqb_refl. }
      cbn [steps]. by rewrite Hnext.
Qed.

Lemma parent_apart F s C c l a r : at_subtree F s C (Node c l a r) -> up C <> a.
Proof.
  intros [Ho _] E. cbn [entries app] in Ho. destruct C as [|f C].
  - destruct (owns_valid _ _ _ _ _ Ho) as [Ha _]. cbn in E. lia.
  - apply (owns_apart _ _ _ _ _ a) in Ho; [done|]. rewrite fmap_app. apply elem_of_app. right. rewrite <-E. destruct f; cbn; left.
Qed.

Lemma next_ok F s t P a Q : represents F s t -> inorder t = P ++ a :: Q -> rb_next s a = Some (default 0 (head Q)).
Proof.
  intros H E. destruct (find_node t a [] P Q E) as (C & c & l & r & Ht & _ & HQ). cbn in Ht, HQ. rewrite app_nil_r in HQ. subst t Q. apply move_top in H.
  destruct (at_node _ _ _ _ _ _ _ H) as (_ & Hu & Hn). unfold rb_next. rewrite Hn, bind_Some, parent_node by done. cbn [node_of rb_right].
  rewrite (proj2 (Z.eqb_neq _ _) (parent_apart _ _ _ _ _ _ _ H)). assert (r = Leaf \/ r <> Leaf) as [->|Hr] by (destruct r; auto).
  - change (truth (addr Leaf)) with false. cbv iota. destruct (next_steps _ _ _ _ H ltac:(done)) as (n & u & Hs & Hl & Hd). apply depth_size in H.
    by rewrite (loop_steps _ _ _ _ _ _ Hs Hd) by lia.
  - goto H (FR l c a :: C) r. rewrite (truth_addr _ _ _ _ H) by done. rewrite (leftmost_first _ _ _ _ H) by done. 
    destruct (inorder r) eqn:E'; [|done]. destruct r; [done|]. by destruct (app_cons_not_nil _ _ _ (eq_sym E')).
Qed.

Lemma first_ok F s t : represents F s t -> rb_first s = Some (default 0 (head (inorder t))).
Proof.
  intros H. unfold rb_first. rewrite (proj2 H). cbn [plug foldl]. assert (t = Leaf \/ t <> Leaf) as [->|Ht] by (destruct t; auto); [done|].
  rewrite (truth_addr _ _ _ _ H) by done. by apply (leftmost_first _ _ _ _ H).
Qed.

(** *** The mirror image *)

Lemma mirror_size s : size (mem (mirror_root s)) = size (mem s).
Proof. apply map_size_fmap. Qed.

Lemma mirror_leftmost s p : leftmost (mirror_root s) p = rightmost s p.
Proof.
  unfold rightmost, leftmost. rewrite mirror_size. apply loop_ext. intros q. unfold leftmost_body, rightmost_body.
  rewrite mirror_node_at. by destruct (node_at s q).
Qed.

Lemma mirror_first s : rb_first (mirror_root s) = rb_last s.
Proof. unfold rb_first, rb_last. by rewrite mirror_leftmost. Qed.

Lemma mirror_next s p : rb_next (mirror_root s) p = rb_prev s p.
Proof.
  unfold rb_next, rb_prev. rewrite mirror_node_at. destruct (node_at s p) as [n|]; [|done]. cbn [fmap option_fmap option_map].
  rewrite !bind_Some. cbn [mirror_node rb_right rb_left]. change (rb_parent (mirror_node n)) with (rb_parent n). rewrite mirror_leftmost, mirror_size.
  do 2 (case_match; [done|]). apply loop_ext. intros q. unfold next_body, prev_body. rewrite mirror_node_at. destruct (node_at s q) as [m|]; [|done].
  cbn [fmap option_fmap option_map]. rewrite !bind_Some. change (rb_parent (mirror_node m)) with (rb_parent m). case_match; [|done].
  rewrite mirror_node_at. by destruct (node_at s (rb_parent m)).
Qed.

(** ** Proofs: replacing a node *)

Lemma above_keys C p q : (entries_above C p).*1 = (entries_above C q).*1.
Proof. by destruct C as [|[]]. Qed.

Lemma not_in_entries C t k p : k ∉ inorder (plug C t) -> k ∉ inorder t ++ (entries_above C p).*1.
Proof.
  rewrite <-(entries_keys _ 0), entries_plug, !fmap_app, (above_keys C (addr t) p), !entries_keys. done.
Qed.

Lemma replace_node_ok F s C c l v r new n0 : at_subtree F s C (Node c l v r) -> valid_addr new -> new ∉ inorder (plug C (Node c l v r)) -> F !! new = Some n0 ->
  exists n s', node_at s v = Some n /\ rb_replace_node s v new = Some s' /\ at_subtree (<[v := n]> F) s' C (Node c l new r).
Proof.
  intros Hat Hnew Hin HF. destruct (at_node _ _ _ _ _ _ _ Hat) as ([_ Hv] & Hu & Hn). destruct Hat as [Ho Hr]. cbn [entries addr] in Ho.
  set (nv := node_of (up C) c (addr l) (addr r)) in *. exists nv. unfold rb_replace_node. rewrite Hn, bind_Some. assert (rb_parent nv = up C) as -> by (by apply parent_node).
  reorder Ho (entries_above C v ++ (v, nv) :: entries l v ++ entries r v).
  destruct (replace_child_ok _ _ _ _ new _ Ho) as (s1 & -> & Ho1 & Hr1); [by left|]. rewrite bind_Some.
  reorder Ho1 ((v, nv) :: entries l v ++ entries r v ++ entries_above C new). rewrite (owns_load _ _ _ _ _ Ho1), bind_Some.
  reorder Ho1 (entries l v ++ (v, nv) :: entries r v ++ entries_above C new). destruct Hnew as [Hpos Hmod].
  destruct (set_parent_child _ _ _ _ new _ Ho1 Hv Hmod) as (s2 & Hs2 & Ho2 & Hr2). cbn [nv node_of rb_left rb_right]. rewrite Hs2, bind_Some.
  reorder Ho2 ((v, nv) :: entries r v ++ entries l new ++ entries_above C new). rewrite (owns_load _ _ _ _ _ Ho2), bind_Some.
  reorder Ho2 (entries r v ++ (v, nv) :: entries l new ++ entries_above C new).
  destruct (set_parent_child _ _ _ _ new _ Ho2 Hv Hmod) as (s3 & Hs3 & Ho3 & Hr3). cbn [nv node_of rb_left rb_right]. rewrite Hs3, bind_Some.
  reorder Ho3 ((v, nv) :: entries l new ++ entries r new ++ entries_above C new). rewrite (owns_load _ _ _ _ _ Ho3), bind_Some.
  destruct (owns_add _ _ _ new nv n0 Ho3) as (s4 & -> & Ho4 & Hr4); [|done..|].
  { apply (not_in_entries _ _ _ new) in Hin. cbn [inorder] in Hin. rewrite fmap_cons, !fmap_app, !entries_keys. set_solver. }
  exists s4. split; [done|]. split; [done|]. reorder Ho4 ((v, nv) :: (new, nv) :: entries l new ++ entries r new ++ entries_above C new). apply owns_drop in Ho4. split.
  - cbn [entries addr]. fold nv. eapply owns_perm; [exact Ho4|perm].
  - rewrite Hr4, Hr3, Hr2. by apply (replace_root C (Node c l v r) (Node c l new r) s s1).
Qed.

(** ** Proofs: augmented trees *)

(** The user keeps a value for each node that depends on the node and on the values of its
    children, and [func] computes it anew. *)
Section Values.
Context {V : Type} (combine : Z -> option V -> option V -> V).

Definition child_value (data : gmap Z V) (p : Z) : option V := if truth p then data !! p else None.
Definition recompute (s : rb_root) (node : Z) (data : gmap Z V) : gmap Z V :=
  match node_at s node with
  | Some n => <[node := combine node (child_value data (rb_left n)) (child_value data (rb_right n))]> data
  | None => data
  end.

(** The value of a whole subtree. *)
Fixpoint value (t : tree) : option V :=
  match t with Leaf => None | Node _ l a r => Some (combine a (value l) (value r)) end.

(** The values are right for all nodes of a subtree, or for all but the root. *)
Fixpoint valued (data : gmap Z V) (t : tree) : Prop :=
  match t with Leaf => True | Node _ l a r => data !! a = value t /\ valued data l /\ valued data r end.
Definition children_valued (data : gmap Z V) (t : tree) : Prop :=
  match t with Leaf => True | Node _ l a r => valued data l /\ valued data r end.
Definition sibling (f : frame) : tree := match f with FL _ _ r => r | FR l _ _ => l end.

Lemma valued_children data t : valued data t -> children_valued data t.
Proof. destruct t; cbn; tauto. Qed.

Lemma valued_agree data data' t : (forall k, k ∈ inorder t -> data' !! k = data !! k) -> valued data t -> valued data' t.
Proof.
  induction t as [|c l IHl a r IHr]; [done|]. cbn [inorder valued]. intros Hk (H1 & H2 & H3).
  rewrite Hk by set_solver. split_and!; [done|apply IHl; set_solver|apply IHr; set_solver].
Qed.

Lemma children_valued_agree data data' t : (forall k, k ∈ inorder t -> data' !! k = data !! k) -> children_valued data t -> children_valued data' t.
Proof.
  destruct t as [|c l a r]; [done|]. cbn [inorder children_valued]. intros Hk [H1 H2]. split; (eapply valued_agree; [|done]; set_solver).
Qed.

Lemma child_value_ok F s C t data : at_subtree F s C t -> valued data t -> child_value data (addr t) = value t.
Proof.
  intros H Hv. destruct t as [|c l a r]; [done|]. unfold child_value. rewrite (truth_addr _ _ _ _ H) by done. apply Hv.
Qed.

Lemma at_nodup F s C t : at_subtree F s C t -> NoDup (inorder (plug C t)).
Proof. intros [Ho _]. apply own_nodup in Ho. by rewrite <-entries_plug, entries_keys in Ho. Qed.

(** A subtree has no node in common with what is around it. *)
Lemma around_apart F s C t k : at_subtree F s C t -> k ∈ inorder t -> (k ∉ before C) /\ (k ∉ behind C).
Proof.
  intros H Hk. apply at_nodup in H. rewrite inorder_around in H. apply list.NoDup_app in H as (_ & H1 & H2). apply list.NoDup_app in H2 as (_ & H2 & _).
  split; [|by apply H2]. intros Hb. destruct (H1 _ Hb). apply elem_of_app. by left.
Qed.

Lemma sibling_around C f k : f ∈ C -> k ∈ inorder (sibling f) -> k ∈ before C \/ k ∈ behind C.
Proof.
  induction C as [|g C IH]; [by intros ?%elem_of_nil|]. intros [->|Hf]%elem_of_cons Hk.
  - destruct g; cbn [sibling before behind] in *; set_solver.
  - destruct (IH Hf Hk), g; cbn [before behind]; set_solver.
Qed.

(** One call of the user's function. *)
Lemma recompute_ok F s C t data : at_subtree F s C t -> t <> Leaf -> children_valued data t ->
  valued (recompute s (addr t) data) t /\ (forall k, k ∉ inorder t -> recompute s (addr t) data !! k = data !! k).
Proof.
  intros H Ht Hv. destruct t as [|c l a r]; [done|]. destruct (at_node _ _ _ _ _ _ _ H) as (_ & _ & Hn). cbn [addr]. unfold recompute. rewrite Hn.
  cbn [node_of rb_left rb_right]. destruct Hv as [Hl Hr]. pose proof H as H1. goto H1 (FL c a r :: C) l. pose proof H as H2. goto H2 (FR l c a :: C) r.
  rewrite (child_value_ok _ _ _ _ _ H1 Hl), (child_value_ok _ _ _ _ _ H2 Hr).
  assert (Ha : forall v k, k ∉ [a] -> (<[a := v]> data) !! k = data !! k) by (intros v k Hk; apply lookup_insert_ne; set_solver). split.
  - cbn [valued]. split_and!; [by rewrite lookup_insert_eq|..].
    + eapply valued_agree; [|exact Hl]. intros k Hk. apply Ha. apply (around_apart _ _ _ _ _ H1) in Hk as [_ Hk]. cbn [behind] in Hk. set_solver.
    + eapply valued_agree; [|exact Hr]. intros k Hk. apply Ha. apply (around_apart _ _ _ _ _ H2) in Hk as [Hk _]. cbn [before] in Hk. set_solver.
  - cbn [inorder]. intros k Hk. apply Ha. set_solver.
Qed.

(** What the loop maintains, and one iteration. *)
Definition stale (F : gmap Z rb_node) (s : rb_root) (data : gmap Z V) (C : list frame) (t : tree) : Prop :=
  at_subtree F s C t /\ t <> Leaf /\ children_valued data t /\ Forall (fun f => children_valued data (sibling f)) C.

Lemma stale_around F s C t data data' : at_subtree F s C t -> (forall k, k ∉ inorder t -> data' !! k = data !! k) ->
  Forall (fun f => children_valued data (sibling f)) C -> Forall (fun f => children_valued data' (sibling f)) C.
Proof.
  intros H Hk HC. rewrite list.Forall_forall in *. intros f Hf. eapply children_valued_agree; [|by apply HC]. intros k Hin.
  apply Hk. intros Ht. destruct (around_apart _ _ _ _ _ H Ht). by destruct (sibling_around _ _ _ Hf Hin).
Qed.
Lemma recompute_around F s C t u data : at_subtree F s C t -> t <> Leaf -> children_valued data t ->
  (forall k, k ∈ inorder u -> k ∈ before C \/ k ∈ behind C) -> valued data u -> valued (recompute s (addr t) data) u.
Proof.
  intros H Ht Hv Hu. apply valued_agree. intros k Hk. apply (recompute_ok _ _ _ _ _ H Ht Hv). intros Hin.
  destruct (around_apart _ _ _ _ _ H Hin). by destruct (Hu k Hk).
Qed.

Lemma stale_up F s data data' f C t : at_subtree F s (f :: C) t -> t <> Leaf -> Forall (fun f => children_valued data (sibling f)) C ->
  (forall k, k ∉ inorder (plug1 t f) -> data' !! k = data !! k) -> valued data' t -> valued data' (sibling f) -> stale F s data' C (plug1 t f).
Proof.
  intros H Ht HC Hk H1 H2. apply move_up in H. split_and!; [done|by destruct f|by destruct f|by eapply (stale_around _ _ _ (plug1 t f))].
Qed.

Lemma parent_frame F s f C t : at_subtree F s (f :: C) t -> t <> Leaf -> exists n, node_at s (addr t) = Some n /\ rb_parent n = frame_addr f.
Proof.
  intros H Ht. destruct t as [|c l a r]; [done|]. destruct (at_node _ _ _ _ _ _ _ H) as (_ & Hu & Hn). eexists. split; [exact Hn|by apply parent_node].
Qed.

Lemma parent_truth F s f C t : at_subtree F s (f :: C) t -> truth (frame_addr f) = true.
Proof. intros H. apply move_up in H. destruct f; by apply (truth_addr _ _ _ _ H). Qed.

Lemma path_step F s data f C t : stale F s data (f :: C) t -> exists data',
  augment_body recompute s (addr t, data) = Some (Next (frame_addr f, data')) /\ stale F s data' C (plug1 t f) /\
  (forall k, k ∉ inorder (plug1 t f) -> data' !! k = data !! k).
Proof.
  intros (H & Ht & Hv & HC). pose proof (recompute_ok _ _ _ _ _ H Ht Hv) as [Hv1 Hk1]. apply (stale_around _ _ _ _ _ _ H Hk1) in HC.
  set (data1 := recompute s (addr t) data) in *. pose proof (Forall_inv HC) as Hs. apply Forall_inv_tail in HC.
  destruct (parent_frame _ _ _ _ _ H Ht) as (n & Hn & Hp). unfold augment_body. fold data1. rewrite Hn, bind_Some, Hp.
  enough (exists data', (p ← node_at s (frame_addr f);
      if (addr t =? rb_left p) && truth (rb_right p) then Some (Next (frame_addr f, recompute s (rb_right p) data1))
      else if truth (rb_left p) then Some (Next (frame_addr f, recompute s (rb_left p) data1)) else Some (Next (frame_addr f, data1))) =
      Some (Next (R := gmap Z V) (frame_addr f, data')) /\ valued data' t /\ valued data' (sibling f) /\
      (forall k, k ∉ inorder (plug1 t f) -> data' !! k = data1 !! k)) as (data' & Hd & H1 & H2 & Hk).
  { exists data'. pose proof (parent_truth _ _ _ _ _ H) as Htr. rewrite Htr. cbn [negb]. split; [done|]. split; [by apply (stale_up _ _ data1)|].
    intros k Hk'. rewrite Hk, Hk1 by (try done; destruct f; cbn [plug1 inorder] in Hk'; set_solver). done. }
  destruct f as [c b r|l c b]; cbn [frame_addr plug1 sibling] in *; pose proof H as Hb; apply move_up in Hb; cbn [plug1] in Hb;
    destruct (at_node _ _ _ _ _ _ _ Hb) as (_ & _ & ->); rewrite bind_Some; cbn [node_of rb_left rb_right].
  - rewrite Z.eqb_refl. cbn [andb]. assert (r = Leaf \/ r <> Leaf) as [->|Hr] by (destruct r; auto).
    + change (truth (addr Leaf)) with false. cbv iota. rewrite (truth_addr _ _ _ _ H) by done. eexists. split; [done|].
      destruct (recompute_ok _ _ _ _ data1 H Ht) as [H1 H2]; [by apply valued_children|]. split_and!; [done..|].
      intros k Hk. apply H2. cbn [inorder] in Hk. set_solver.
    + pose proof Hb as Hq. goto Hq (FR t c b :: C) r. rewrite (truth_addr _ _ _ _ Hq) by done. eexists. split; [done|].
      destruct (recompute_ok _ _ _ _ data1 Hq Hr Hs) as [H1 H2]. split_and!; [apply (recompute_around _ _ _ _ _ _ Hq Hr Hs); [|done]; intros k; cbn [before]; set_solver|done|].
      intros k Hk. apply H2. cbn [inorder] in Hk. set_solver.
  - rewrite (proj2 (Z.eqb_neq (addr t) (addr l))); [|by apply not_eq_sym, (children_apart _ _ _ _ _ _ _ Hb)]. cbn [andb].
    assert (l = Leaf \/ l <> Leaf) as [->|Hl] by (destruct l; auto).
    + change (truth (addr Leaf)) with false. cbv iota. eexists. split; [done|]. by split_and!.
    + pose proof Hb as Hq. goto Hq (FL c b t :: C) l. rewrite (truth_addr _ _ _ _ Hq) by done. eexists. split; [done|].
      destruct (recompute_ok _ _ _ _ data1 Hq Hl Hs) as [H1 H2]. split_and!; [apply (recompute_around _ _ _ _ _ _ Hq Hl Hs); [|done]; intros k; cbn [behind]; set_solver|done|].
      intros k Hk. apply H2. cbn [inorder] in Hk. set_solver.
Qed.
Lemma path_steps F s C : forall t data, stale F s data C t -> exists n st data', steps (augment_body recompute s) n (addr t, data) = Some st /\
  (n <= length C)%nat /\ augment_body recompute s st = Some (Done data') /\ valued data' (plug C t) /\
  (forall k, k ∉ inorder (plug C t) -> data' !! k = data !! k).
Proof.
  induction C as [|f C IH]; intros t data Hst.
  - destruct Hst as (H & Ht & Hv & _). destruct (recompute_ok _ _ _ _ _ H Ht Hv) as [H1 H2]. exists 0%nat, (addr t, data). eexists.
    split_and!; [done|done| |exact H1|exact H2]. destruct t as [|c l a r]; [done|]. destruct (at_node _ _ _ _ _ _ _ H) as (_ & Hu & Hn).
    unfold augment_body. cbn [addr]. by rewrite Hn, bind_Some, parent_node.
  - destruct (path_step _ _ _ _ _ _ Hst) as (data1 & Hb & Hst1 & Hk1).
    destruct (IH _ _ Hst1) as (n & st & data' & Hs & Hn & Hd & Hv & Hk). exists (S n), st, data'. split_and!; [|cbn; lia|done|done|].
    + assert (addr (plug1 t f) = frame_addr f) as E by (by destruct f). rewrite E in Hs. cbn [steps]. by rewrite Hb.
    + intros k Hin. change (plug (f :: C) t) with (plug C (plug1 t f)) in Hin. rewrite Hk by done. apply Hk1.
      rewrite inorder_around in Hin. intros Hk'. apply Hin, elem_of_app. right. apply elem_of_app. by left.
Qed.

(** Walking up from a node brings all values of the tree up to date, if those below the nodes
    on the path and their siblings are. *)
Lemma augment_path_ok F s C t data : stale F s data C t -> exists data', rb_augment_path recompute s (addr t) data = Some data' /\
  valued data' (plug C t) /\ (forall k, k ∉ inorder (plug C t) -> data' !! k = data !! k).
Proof.
  intros Hst. destruct (path_steps _ _ _ _ _ Hst) as (n & st & data' & Hs & Hn & Hd & Hv & Hk). exists data'. split; [|done].
  unfold rb_augment_path. destruct Hst as [H _]. apply depth_size in H. by rewrite (loop_steps _ _ _ _ _ _ Hs Hd) by lia.
Qed.
End Values.

(** ** The properties *)

(** rb_replace_node() puts a new node at the place of another one: the tree has the
    same shape, colours and order, the new node in the place of the old one, and the
    old node is left with its contents. *)
Theorem rb_replace_node_correct F s C c l v r new n0 : represents F s (plug C (Node c l v r)) -> valid_addr new ->
  new ∉ inorder (plug C (Node c l v r)) -> F !! new = Some n0 ->
  exists n s', node_at s v = Some n /\ rb_replace_node s v new = Some s' /\ represents (<[v := n]> F) s' (plug C (Node c l new r)) /\
    inorder (plug C (Node c l new r)) = before C ++ (inorder l ++ new :: inorder r) ++ behind C.
Proof.
  intros H Hnew Hin HF. apply move_top in H. destruct (replace_node_ok _ _ _ _ _ _ _ _ _ H Hnew Hin HF) as (n & s' & Hn & Hs & H').
  exists n, s'. split_and!; [done|done|exact (proj1 (move_top _ _ _ _) H')|apply inorder_around].
Qed.

Lemma rb_replace_node_correct_witness :
  let F := {[ 20 := {| rb_parent_color := 0; rb_right := 0; rb_left := 0 |} ]} in
  let C := [FL Black 8 (Node Black Leaf 12 Leaf)] in
  exists n s', node_at (build F (plug C (Node Black Leaf 4 Leaf))) 4 = Some n /\ rb_replace_node (build F (plug C (Node Black Leaf 4 Leaf))) 4 20 = Some s' /\
    represents (<[4 := n]> F) s' (plug C (Node Black Leaf 20 Leaf)) /\ inorder (plug C (Node Black Leaf 20 Leaf)) = [20; 8; 12].
Proof.
  intros F C. assert (Hrep : represents F (build F (plug C (Node Black Leaf 4 Leaf))) (plug C (Node Black Leaf 4 Leaf)))
    by (apply build_ok; [apply (bool_decide_unpack _); vm_compute; done|repeat constructor; lia]).
  assert (Hin : 20 ∉ inorder (plug C (Node Black Leaf 4 Leaf))) by (apply (bool_decide_unpack _); vm_compute; done).
  exact (rb_replace_node_correct F _ C Black Leaf 4 Leaf 20 _ Hrep ltac:(done) Hin eq_refl).
Defined.

(** C30: walking over a tree in memory gives its nodes in order: rb_first() and
    rb_last() return the two ends, or NULL for an empty tree, and rb_next() and
    rb_prev() of a node the one behind and the one before it, or NULL at an end. None of
    them follows a wild pointer or loops for ever. *)
Theorem rb_walk_correct F s t : represents F s t ->
  rb_first s = Some (default 0 (head (inorder t))) /\ rb_last s = Some (default 0 (list.last (inorder t))) /\
  (forall P a Q, inorder t = P ++ a :: Q -> rb_next s a = Some (default 0 (head Q)) /\ rb_prev s a = Some (default 0 (list.last P))).
Proof.
  intros H. pose proof (mirror_at _ _ _ _ H) as Hm. change (mirror_above []) with (@nil frame) in Hm. split_and!.
  - by apply (first_ok F).
  - rewrite <-mirror_first, (first_ok _ _ _ Hm), mirror_inorder. by rewrite head_reverse.
  - intros P a Q E. split; [by apply (next_ok F s t P)|]. rewrite <-mirror_next.
    rewrite (next_ok _ _ _ (reverse Q) a (reverse P) Hm); [by rewrite head_reverse|]. rewrite mirror_inorder, E, reverse_app, reverse_cons. by rewrite <-app_assoc.
Qed.

Lemma rb_walk_correct_witness :
  let T := Node Black (Node Black Leaf 4 Leaf) 8 (Node Black Leaf 12 (Node Red Leaf 16 Leaf)) in
  rb_first (build ∅ T) = Some 4 /\ rb_last (build ∅ T) = Some 16 /\ rb_next (build ∅ T) 8 = Some 12 /\ rb_prev (build ∅ T) 12 = Some 8.
Proof.
  intros T.
  assert (Hrep : represents ∅ (build ∅ T) T) by (apply build_ok; [apply (bool_decide_unpack _); vm_compute; done|repeat constructor; lia]).
  destruct (rb_walk_correct ∅ (build ∅ T) T Hrep) as (H1 & H2 & H3). destruct (H3 [4] 8 [12; 16] eq_refl) as [H4 _].
  destruct (H3 [4; 8] 12 [16] eq_refl) as [_ H5]. split_and!; done.
Defined.
