(* ===== verification/Skb.v ===== *)
(** * Socket buffers: reading the bytes of a packet

    include/linux/skbuff.h and skb_copy_bits() of net/core/skbuff.c.  The bytes
    of a packet are in the linear area between [data] and [tail], then in the
    fragments of the pages, then in the buffers of the fragment list, which
    are packets of their own.  The theorem is that the bytes read at an
    offset are those of the packet, wherever they are kept. *)

From S2P Require Import Prelude.

(** ** Definitions *)

(** The device of a packet. *)
Record net_device := { ifindex : Z; dev_type : Z }.

(** The pointers are addresses, and [skb_linear] the bytes
    from [head] to [tail]; a fragment is its bytes. *)
Unset Elimination Schemes.
Inductive sk_buff := SkBuff {
  skb_dev : option net_device;
  skb_len : Z;
  skb_data_len : Z;
  skb_pkt_type : Z;
  skb_protocol : Z;
  skb_rxhash : Z;
  skb_queue_mapping : Z;
  skb_mark : Z;
  network_header : Z;
  mac_header : Z;
  skb_head : Z;
  skb_data : Z;
  skb_linear : list Z;
  skb_frags : list (list Z);
  skb_frag_list : list sk_buff
}.
Set Elimination Schemes.

Definition skb_is_nonlinear (skb : sk_buff) : bool := truth (skb_data_len skb).
Definition skb_headlen (skb : sk_buff) : Z := u32 (skb_len skb - skb_data_len skb).
Definition skb_tail_pointer (skb : sk_buff) : Z := skb_head skb + zlen (skb_linear skb).

(** Some bytes of an area. *)
Definition sub (l : list Z) (i n : Z) : list Z := take (Z.to_nat n) (drop (Z.to_nat i) l).
Definition peek (l : list Z) (i n : Z) : option (list Z) :=
  if (0 <=? i) && (0 <=? n) && (i + n <=? zlen l) then Some (sub l i n) else None.

(** The state of the copy is (start, offset, len, to), [to] being the bytes copied so far; the pages. *)
Fixpoint copy_frags (l : list (list Z)) (start offset len : Z) (to : list Z) : option (step (Z * Z * Z * list Z) (Z * list Z)) :=
  match l with
  | [] => Some (Next (start, offset, len, to))
  | f :: l' =>
      let end_ := start + zlen f in
      let copy := end_ - offset in
      if 0 <? copy then
        let copy := if len <? copy then len else copy in
        b ← peek f (offset - start) copy;
        if len - copy =? 0 then Some (Done (0, to ++ b))
        else copy_frags l' end_ (offset + copy) (len - copy) (to ++ b)
      else copy_frags l' end_ offset len to
  end.

(** The buffers of the fragment list; [copy_bits] is the function itself. *)
Definition walk_frags (copy_bits : sk_buff -> Z -> Z -> list Z -> option (Z * list Z)) :=
  fix walk (l : list sk_buff) (start offset len : Z) (to : list Z) : option (Z * list Z) :=
  match l with
  | [] => Some (if len =? 0 then 0 else - EFAULT, to)
  | frag_iter :: l' =>
      let end_ := start + skb_len frag_iter in
      let copy := end_ - offset in
      if 0 <? copy then
        let copy := if len <? copy then len else copy in
        r ← copy_bits frag_iter (offset - start) copy to;
        let '(e, to) := r in
        if negb (e =? 0) then Some (- EFAULT, to)
        else if len - copy =? 0 then Some (0, to)
        else walk l' end_ (offset + copy) (len - copy) to
      else walk l' end_ offset len to
  end.

Fixpoint skb_copy_bits (skb : sk_buff) (offset len : Z) (to : list Z) {struct skb} : option (Z * list Z) :=
  let start := skb_headlen skb in
  if skb_len skb - len <? offset then Some (- EFAULT, to)
  else
    st ← (let copy := start - offset in
          if 0 <? copy then
            let copy := if len <? copy then len else copy in
            b ← peek (skb_linear skb) (skb_data skb - skb_head skb + offset) copy;
            if len - copy =? 0 then Some (Done (0, to ++ b)) else Some (Next (start, offset + copy, len - copy, to ++ b))
          else Some (Next (start, offset, len, to)));
    match st with
    | Done r => Some r
    | Next (start, offset, len, to) =>
        st ← copy_frags (skb_frags skb) start offset len to;
        match st with
        | Done r => Some r
        | Next (start, offset, len, to) =>
            match skb with SkBuff _ _ _ _ _ _ _ _ _ _ _ _ _ _ l => walk_frags skb_copy_bits l start offset len to end
        end
    end.

(** A pointer is the bytes it is used for, or [None] for NULL. *)
Definition skb_header_pointer (skb : sk_buff) (offset len : Z) : option (option (list Z)) :=
  if len <=? skb_headlen skb - offset then
    b ← peek (skb_linear skb) (skb_data skb - skb_head skb + offset) len; Some (Some b)
  else
    r ← skb_copy_bits skb offset len [];
    Some (if fst r <? 0 then None else Some (snd r)).

(** net/core/filter.c *)
Definition SKF_NET_OFF : Z := -0x100000.
Definition SKF_LL_OFF : Z := -0x200000.

Definition __load_pointer (skb : sk_buff) (k size : Z) : option (option (list Z)) :=
  let ptr :=
    if SKF_NET_OFF <=? k then ulong (network_header skb + k - SKF_NET_OFF)
    else if SKF_LL_OFF <=? k then ulong (mac_header skb + k - SKF_LL_OFF)
    else 0 in
  if (skb_head skb <=? ptr) && (ulong (ptr + size) <=? skb_tail_pointer skb) then
    b ← peek (skb_linear skb) (ptr - skb_head skb) size; Some (Some b)
  else Some None.

Definition load_pointer (skb : sk_buff) (k size : Z) : option (option (list Z)) :=
  if 0 <=? k then skb_header_pointer skb k size else __load_pointer skb k size.

(** ** Well-formed buffers *)

(** The bytes of a packet. *)
Fixpoint packet (skb : sk_buff) : list Z :=
  match skb with
  | SkBuff _ _ _ _ _ _ _ _ _ _ h d l f fl => drop (Z.to_nat (d - h)) l ++ concat f ++ concat (map packet fl)
  end.

(** All bytes are bytes, the lengths are those of the parts, the linear area begins between [head] and [tail], the
    header pointers are unset or not behind [tail], and the area ends two megabytes below the end of the address space or
    earlier. *)
Definition wf_area (skb : sk_buff) : Prop :=
  0 < skb_head skb <= skb_data skb /\ skb_data skb + skb_headlen skb = skb_tail_pointer skb /\
  skb_tail_pointer skb + 2 ^ 21 + 4 <= 2 ^ 32 /\
  0 <= network_header skb <= skb_tail_pointer skb /\ 0 <= mac_header skb <= skb_tail_pointer skb /\
  0 <= skb_data_len skb <= skb_len skb /\ skb_len skb < 2 ^ 31 /\ skb_len skb = zlen (packet skb) /\
  Forall (fun b => 0 <= b < 256) (skb_linear skb) /\ Forall (fun b => 0 <= b < 256) (packet skb).
Fixpoint wf_skb (skb : sk_buff) : Prop :=
  wf_area skb /\ match skb with SkBuff _ _ _ _ _ _ _ _ _ _ _ _ _ _ fl => foldr (fun b P => wf_skb b /\ P) True fl end.

(** ** Proofs: parts of a list *)

Lemma zlen_sub l i n : 0 <= i -> 0 <= n -> i + n <= zlen l -> zlen (sub l i n) = n.
Proof. intros. unfold sub, zlen in *. rewrite length_take, length_drop. lia. Qed.

Lemma peek_sub l i n : 0 <= i -> 0 <= n -> i + n <= zlen l -> peek l i n = Some (sub l i n).
Proof. intros. unfold peek. by rewrite (proj2 (Z.leb_le 0 i)), (proj2 (Z.leb_le 0 n)), (proj2 (Z.leb_le _ _)) by lia. Qed.

Lemma sub_app_l l r i n : 0 <= i -> 0 <= n -> i + n <= zlen l -> sub (l ++ r) i n = sub l i n.
Proof. intros. unfold sub, zlen in *. rewrite drop_app_le by lia. rewrite take_app_le; [done|]. rewrite length_drop. lia. Qed.

Lemma sub_app_r l r i n : zlen l <= i -> sub (l ++ r) i n = sub r (i - zlen l) n.
Proof. intros. unfold sub, zlen in *. rewrite drop_app_ge by lia. do 2 f_equal. lia. Qed.

Lemma sub_split l i n m : 0 <= i -> 0 <= m <= n -> sub l i n = sub l i m ++ sub l (i + m) (n - m).
Proof.
  intros. unfold sub. replace (Z.to_nat n) with (Z.to_nat m + Z.to_nat (n - m))%nat at 1 by lia.
  rewrite <-take_take_drop, drop_drop. do 3 f_equal. lia.
Qed.

Lemma sub_drop l d i n : 0 <= d -> 0 <= i -> sub l (d + i) n = sub (drop (Z.to_nat d) l) i n.
Proof. intros. unfold sub. rewrite drop_drop. do 2 f_equal. lia. Qed.

Lemma Forall_sub (P : Z -> Prop) l i n : Forall P l -> Forall P (sub l i n).
Proof. intros H. unfold sub. by apply Forall_take, Forall_drop. Qed.

(** ** Proofs: copying *)

(** A part is copied from the beginning [l] of the bytes [l ++ r] that are left, in the positions from [start]. *)
Section Part.
Context (l r : list Z) (start offset n : Z).
Hypothesis (Hlo : start <= offset) (Hn : 0 < n) (Hhi : offset + n <= start + zlen (l ++ r)).

Lemma part_here copy : copy = (if n <? start + zlen l - offset then n else start + zlen l - offset) -> 0 < start + zlen l - offset ->
  0 < copy <= n /\ peek l (offset - start) copy = Some (sub l (offset - start) copy) /\
  sub (l ++ r) (offset - start) n = sub l (offset - start) copy ++ sub r (offset + copy - (start + zlen l)) (n - copy) /\
  (n - copy <> 0 -> offset + copy = start + zlen l).
Proof.
  intros -> H. rewrite zlen_app in Hhi. bcase.
  - split; [lia|]. split; [apply peek_sub; lia|]. split; [|lia]. rewrite sub_app_l by lia. unfold sub at 3. rewrite Z.sub_diag. by rewrite app_nil_r.
  - split; [lia|]. split; [apply peek_sub; lia|]. split; [|lia]. rewrite (sub_split _ _ _ (start + zlen l - offset)) by lia.
    rewrite sub_app_l, sub_app_r by lia. do 2 f_equal. lia.
Qed.

Lemma part_later : start + zlen l - offset <= 0 -> sub (l ++ r) (offset - start) n = sub r (offset - (start + zlen l)) n.
Proof. intros H. rewrite sub_app_r by lia. f_equal. lia. Qed.
End Part.

(** What is still to be copied at the position [start], with the bytes [r] left. *)
Definition pending (r : list Z) (start offset n : Z) (to all : list Z) : Prop :=
  start <= offset /\ 0 < n /\ offset + n <= start + zlen r /\ all = to ++ sub r (offset - start) n.

Lemma pending_here l r start offset n to all copy : pending (l ++ r) start offset n to all -> 0 < start + zlen l - offset ->
  copy = (if n <? start + zlen l - offset then n else start + zlen l - offset) ->
  0 < copy <= n /\ peek l (offset - start) copy = Some (sub l (offset - start) copy) /\
  (n - copy = 0 -> all = to ++ sub l (offset - start) copy) /\
  (n - copy <> 0 -> pending r (start + zlen l) (offset + copy) (n - copy) (to ++ sub l (offset - start) copy) all).
Proof.
  intros (Hlo & Hn & Hhi & ->) Hc Hcopy. destruct (part_here l r start offset n Hlo Hn Hhi copy Hcopy Hc) as (H1 & H2 & H3 & H4).
  split_and!; [lia..|done| |].
  - intros E. rewrite H3, E. unfold sub at 3. by rewrite app_nil_r.
  - intros E. specialize (H4 E). rewrite zlen_app in Hhi. repeat split; [lia..|]. rewrite H3. by rewrite app_assoc.
Qed.

Lemma pending_later l r start offset n to all : pending (l ++ r) start offset n to all -> start + zlen l - offset <= 0 ->
  pending r (start + zlen l) offset n to all.
Proof.
  intros (Hlo & Hn & Hhi & ->) Hc. rewrite zlen_app in Hhi. repeat split; [lia..|]. by rewrite part_later.
Qed.

Lemma copy_frags_ok f r all : forall start offset n to, pending (concat f ++ r) start offset n to all ->
  copy_frags f start offset n to = Some (Done (0, all)) \/
  exists offset' n' to', copy_frags f start offset n to = Some (Next (start + zlen (concat f), offset', n', to')) /\
    pending r (start + zlen (concat f)) offset' n' to' all.
Proof.
  induction f as [|b f IH]; intros start offset n to H; cbn [concat copy_frags].
  - right. exists offset, n, to. change (zlen (@nil Z)) with 0. rewrite Z.add_0_r. done.
  - cbn [concat] in H. rewrite <-app_assoc in H. rewrite zlen_app, Z.add_assoc. bcase.
    + destruct (pending_here _ _ _ _ _ _ _ _ H ltac:(lia) eq_refl) as (H1 & H2 & H3 & H4). set (copy := if n <? _ then n else _) in *.
      rewrite H2, bind_Some. bcase.
      * left. rewrite H3 by done. done.
      * by apply IH, H4.
    + apply IH. by apply pending_later; [|lia].
Qed.

(** Induction on packets. *)
Lemma skb_induction (P : sk_buff -> Prop) : (forall skb, Forall P (skb_frag_list skb) -> P skb) -> forall skb, P skb.
Proof.
  intros H. fix IH 1. intros skb. apply H. destruct skb as [? ? ? ? ? ? ? ? ? ? ? ? ? ? fl]. cbn. induction fl as [|b fl IHfl]; constructor; [apply IH|exact IHfl].
Qed.

Lemma packet_parts skb : packet skb =
  drop (Z.to_nat (skb_data skb - skb_head skb)) (skb_linear skb) ++ concat (skb_frags skb) ++ concat (map packet (skb_frag_list skb)).
Proof. by destruct skb. Qed.

Lemma wf_parts skb : wf_skb skb -> wf_area skb /\ Forall wf_skb (skb_frag_list skb).
Proof.
  destruct skb as [? ? ? ? ? ? ? ? ? ? ? ? ? ? fl]. cbn [wf_skb skb_frag_list]. intros [H Hf]. split; [done|]. clear H.
  induction fl as [|b fl IH]; [done|]. destruct Hf. constructor; auto.
Qed.

Lemma copy_bits_eq skb offset len to : skb_copy_bits skb offset len to =
  let start := skb_headlen skb in
  if skb_len skb - len <? offset then Some (- EFAULT, to)
  else
    st ← (let copy := start - offset in
          if 0 <? copy then
            let copy := if len <? copy then len else copy in
            b ← peek (skb_linear skb) (skb_data skb - skb_head skb + offset) copy;
            if len - copy =? 0 then Some (Done (0, to ++ b)) else Some (Next (start, offset + copy, len - copy, to ++ b))
          else Some (Next (start, offset, len, to)));
    match st with
    | Done r => Some r
    | Next (start, offset, len, to) =>
        st ← copy_frags (skb_frags skb) start offset len to;
        match st with
        | Done r => Some r
        | Next (start, offset, len, to) => walk_frags skb_copy_bits (skb_frag_list skb) start offset len to
        end
    end.
Proof. by destruct skb. Qed.

(** What the copy promises of one packet. *)
Definition copies (skb : sk_buff) : Prop := wf_skb skb -> forall offset n to, 0 <= offset -> 0 < n ->
  skb_copy_bits skb offset n to = Some (if offset + n <=? skb_len skb then (0, to ++ sub (packet skb) offset n) else (- EFAULT, to)).

Lemma walk_frags_ok l all : Forall copies l -> Forall wf_skb l -> forall start offset n to, pending (concat (map packet l)) start offset n to all ->
  walk_frags skb_copy_bits l start offset n to = Some (0, all).
Proof.
  induction l as [|b l IH]; intros Hc Hw start offset n to H.
  - destruct H as (? & ? & H & _). change (zlen (concat (map packet []))) with 0 in H. lia.
  - apply list.Forall_cons in Hc as [Hb Hc], Hw as [Hwb Hw]. cbn [map concat] in H. cbn [walk_frags].
    assert (Hlen : skb_len b = zlen (packet b)) by (apply wf_parts in Hwb as [Hwb _]; apply Hwb). rewrite Hlen. bcase.
    + destruct (pending_here _ _ _ _ _ _ _ _ H ltac:(lia) eq_refl) as (H1 & H2 & H3 & H4). set (copy := if n <? _ then n else _) in *.
      assert (Hlo : start <= offset) by apply H. rewrite (Hb Hwb) by lia.
      assert (copy <= start + zlen (packet b) - offset) by (unfold copy; bcase; lia). rewrite (proj2 (Z.leb_le _ _)) by (rewrite Hlen; lia).
      rewrite bind_Some. cbn [negb Z.eqb]. bcase; [by rewrite H3|]. apply IH; [done..|]. by apply H4.
    + apply IH; [done..|]. apply pending_later; [done|lia].
Qed.

(** The linear part of a packet. *)
Lemma linear_part skb : wf_area skb -> exists lin, lin = drop (Z.to_nat (skb_data skb - skb_head skb)) (skb_linear skb) /\
  zlen lin = skb_headlen skb /\ 0 <= skb_headlen skb /\
  (forall i n, 0 <= i -> 0 <= n -> i + n <= skb_headlen skb -> peek (skb_linear skb) (skb_data skb - skb_head skb + i) n = Some (sub lin i n)).
Proof.
  intros (Hh & Ht & _). exists (drop (Z.to_nat (skb_data skb - skb_head skb)) (skb_linear skb)). unfold skb_tail_pointer in Ht.
  assert (0 <= skb_headlen skb) by (unfold skb_headlen, u32; apply Z.mod_pos_bound; lia). split_and!; [done|rewrite zlen_drop; lia|done|].
  intros i n Hi Hn Hhi. rewrite peek_sub by lia. by rewrite sub_drop by lia.
Qed.

Lemma copy_bits_ok skb : copies skb.
Proof.
  induction skb as [skb IH] using skb_induction. intros Hw offset n to Ho Hn. apply wf_parts in Hw as [Hw Hfl].
  rewrite copy_bits_eq. cbv zeta. pose proof (packet_parts skb) as Epk. destruct (linear_part skb Hw) as (lin & Elin & Hlin & Hpos & Hpeek). rewrite <-Elin in Epk.
  assert (Hlen : skb_len skb = zlen (packet skb)) by apply Hw. destruct (Z.leb_spec (offset + n) (skb_len skb)) as [Hin|Hout].
  2: { by rewrite (proj2 (Z.ltb_lt _ _)) by lia. }
  rewrite (proj2 (Z.ltb_ge _ _)) by lia. set (all := to ++ sub (packet skb) offset n).
  assert (H : pending (lin ++ concat (skb_frags skb) ++ concat (map packet (skb_frag_list skb))) 0 offset n to all).
  { rewrite <-Epk. repeat split; [lia..|]. by rewrite Z.sub_0_r. }
  assert (Hrest : forall offset n to, pending (concat (skb_frags skb) ++ concat (map packet (skb_frag_list skb))) (skb_headlen skb) offset n to all ->
    (st ← copy_frags (skb_frags skb) (skb_headlen skb) offset n to;
     match st with Done r => Some r | Next (start, offset, len, to) => walk_frags skb_copy_bits (skb_frag_list skb) start offset len to end) = Some (0, all)).
  { intros o k t Hp. destruct (copy_frags_ok _ _ _ _ _ _ _ Hp) as [->|(o' & k' & t' & -> & Hp')]; [done|]. rewrite bind_Some. by apply walk_frags_ok. }
  rewrite <-Hlin in *. destruct (Z.ltb_spec 0 (zlen lin - offset)).
  - destruct (pending_here _ _ _ _ _ _ _ _ H ltac:(lia) eq_refl) as (H1 & H2 & H3 & H4). rewrite Z.add_0_l, Z.sub_0_r in *.
    set (copy := if n <? _ then n else _) in *. assert (copy <= zlen lin - offset) by (unfold copy; bcase; lia).
    rewrite Hpeek by lia. rewrite bind_Some. destruct (Z.eqb_spec (n - copy) 0) as [E|E]; [by rewrite bind_Some, H3|]. rewrite bind_Some. by apply Hrest, H4.
  - rewrite bind_Some. apply Hrest. rewrite <-(Z.add_0_l (zlen lin)). by apply pending_later; [|lia].
Qed.

(** ** Proofs: reading *)

Lemma header_pointer_ok skb k size : wf_skb skb -> 0 <= k -> 0 < size ->
  skb_header_pointer skb k size = Some (if k + size <=? skb_len skb then Some (sub (packet skb) k size) else None).
Proof.
  intros Hw Hk Hs. unfold skb_header_pointer. pose proof (wf_parts skb Hw) as [Ha _]. destruct (linear_part skb Ha) as (lin & Elin & Hlin & Hpos & Hpeek).
  assert (Hlen : skb_len skb = zlen (packet skb)) by apply Ha.
  destruct (Z.leb_spec size (skb_headlen skb - k)).
  - rewrite Hpeek, bind_Some by lia. rewrite Hlen, packet_parts, <-Elin. rewrite zlen_app. pose proof (zlen_nonneg (concat (skb_frags skb) ++ concat (map packet (skb_frag_list skb)))).
    rewrite (proj2 (Z.leb_le _ _)) by lia. by rewrite sub_app_l by lia.
  - rewrite (copy_bits_ok skb Hw) by lia. rewrite bind_Some. by destruct (k + size <=? skb_len skb).
Qed.

(** Offsets from the headers reach the linear area, the bytes in front of the packet included. *)
Definition header_bytes (skb : sk_buff) (k size : Z) : option (list Z) :=
  let ptr := if SKF_NET_OFF <=? k then network_header skb + k - SKF_NET_OFF else if SKF_LL_OFF <=? k then mac_header skb + k - SKF_LL_OFF else 0 in
  if (skb_head skb <=? ptr) && (ptr + size <=? skb_tail_pointer skb) then Some (sub (skb_linear skb) (ptr - skb_head skb) size) else None.

Lemma load_header_ok skb k size : wf_skb skb -> k < 0 -> 0 < size <= 4 -> __load_pointer skb k size = Some (header_bytes skb k size).
Proof.
  intros Hw Hk Hs. apply wf_parts in Hw as [(Hh & Ht & Htop & Hn & Hm & _) _]. unfold __load_pointer, header_bytes.
  set (p := if SKF_NET_OFF <=? k then network_header skb + k - SKF_NET_OFF else _).
  assert (Hp : 0 <= p < skb_tail_pointer skb + 2 ^ 21) by (unfold p, SKF_NET_OFF, SKF_LL_OFF in *; repeat case_match; lia).
  assert (Hu : forall x, 0 <= x < 2 ^ 32 -> ulong x = x) by (intros; apply Z.mod_small; unfold BITS_PER_LONG; lia).
  replace (if SKF_NET_OFF <=? k then ulong (network_header skb + k - SKF_NET_OFF) else _) with p.
  2: { unfold p, SKF_NET_OFF, SKF_LL_OFF in *; repeat case_match; by rewrite ?Hu by lia. }
  rewrite Hu by lia. destruct (Z.leb_spec (skb_head skb) p), (Z.leb_spec (p + size) (skb_tail_pointer skb)); cbn [andb]; [|done..].
  unfold skb_tail_pointer in *. by rewrite peek_sub by lia.
Qed.

Definition loaded (skb : sk_buff) (k size : Z) : option (list Z) :=
  if 0 <=? k then if k + size <=? skb_len skb then Some (sub (packet skb) k size) else None else header_bytes skb k size.

Lemma load_pointer_loaded skb k size : wf_skb skb -> 0 < size <= 4 -> load_pointer skb k size = Some (loaded skb k size).
Proof.
  intros Hw Hs. unfold load_pointer, loaded. bcase; [apply header_pointer_ok|apply load_header_ok]; (done || lia).
Qed.

(** ** The property *)

(** C21: skb_copy_bits() copies exactly the bytes of the packet from the given offset, from whatever parts of it - linear area, page
    fragments, buffers of the fragment list and their own parts - they are in, and fails with EFAULT, having copied nothing, when the packet is too
    short; load_pointer() finds the same bytes for offsets that are not negative, and for negative ones those of the
    linear area relative to the network or link layer head, or NULL; neither reads outside of the packet. *)
Theorem skb_reads_packet skb : wf_skb skb ->
  (forall offset n to, 0 <= offset -> 0 < n ->
     skb_copy_bits skb offset n to = Some (if offset + n <=? skb_len skb then (0, to ++ sub (packet skb) offset n) else (- EFAULT, to))) /\
  (forall off size, 0 < size <= 4 -> load_pointer skb off size = Some (loaded skb off size)).
Proof. intros Hw. split; [by apply copy_bits_ok|]. intros off size Hs. by apply load_pointer_loaded. Qed.

(** Four bytes across all three kinds of parts. *)
Lemma skb_reads_packet_witness :
  let inner := {| skb_dev := None; skb_len := 2; skb_data_len := 0; skb_pkt_type := 0; skb_protocol := 0; skb_rxhash := 0; skb_queue_mapping := 0; skb_mark := 0;
     network_header := 0; mac_header := 0; skb_head := 8192; skb_data := 8192; skb_linear := [4; 5]; skb_frags := []; skb_frag_list := [] |} in
  let skb := {| skb_dev := None; skb_len := 6; skb_data_len := 4; skb_pkt_type := 0; skb_protocol := 0; skb_rxhash := 0; skb_queue_mapping := 0; skb_mark := 0;
     network_header := 4097; mac_header := 4096; skb_head := 4096; skb_data := 4097; skb_linear := [9; 0; 1]; skb_frags := [[2]; [3]]; skb_frag_list := [inner] |} in
  skb_copy_bits skb 1 4 [] = Some (0, [1; 2; 3; 4]) /\ load_pointer skb 3 4 = Some None.
Proof.
  intros inner skb. assert (Hw : wf_skb skb) by (repeat (split || constructor || (cbn; lia) || done)).
  destruct (skb_reads_packet skb Hw) as [H1 H2]. split; [rewrite H1 by lia; done|]. rewrite H2 by lia. done.
Defined.
