(* ===== verification/Bpf.v ===== *)
(** * Socket filters: the checker and the interpreter of net/core/filter.c

    A process may attach a program to a socket which the kernel runs for every packet.
    sk_chk_filter() checks the program once and translates its codes;
    sk_run_filter() then runs it without any check of its own.  The theorems are that
    what the checker accepts runs to its end on every packet, reads only memory it
    has written and nothing outside of the program and the packet - except for the two instructions that search for netlink
    attributes, whose own tests do not suffice. *)

From S2P Require Import Prelude Arith Skb.

(** ** Programs (include/linux/filter.h) *)

Record sock_filter := { code : Z; jt : Z; jf : Z; k : Z }.

(** The enumeration of the translated codes, which begins with 1. *)
Inductive bpf_op :=
| BPF_S_RET_K | BPF_S_RET_A
| BPF_S_ALU_ADD_K | BPF_S_ALU_ADD_X | BPF_S_ALU_SUB_K | BPF_S_ALU_SUB_X | BPF_S_ALU_MUL_K | BPF_S_ALU_MUL_X | BPF_S_ALU_DIV_X
| BPF_S_ALU_AND_K | BPF_S_ALU_AND_X | BPF_S_ALU_OR_K | BPF_S_ALU_OR_X
| BPF_S_ALU_LSH_K | BPF_S_ALU_LSH_X | BPF_S_ALU_RSH_K | BPF_S_ALU_RSH_X | BPF_S_ALU_NEG
| BPF_S_LD_W_ABS | BPF_S_LD_H_ABS | BPF_S_LD_B_ABS | BPF_S_LD_W_LEN | BPF_S_LD_W_IND | BPF_S_LD_H_IND | BPF_S_LD_B_IND | BPF_S_LD_IMM
| BPF_S_LDX_W_LEN | BPF_S_LDX_B_MSH | BPF_S_LDX_IMM | BPF_S_MISC_TAX | BPF_S_MISC_TXA | BPF_S_ALU_DIV_K
| BPF_S_LD_MEM | BPF_S_LDX_MEM | BPF_S_ST | BPF_S_STX | BPF_S_JMP_JA
| BPF_S_JMP_JEQ_K | BPF_S_JMP_JEQ_X | BPF_S_JMP_JGE_K | BPF_S_JMP_JGE_X | BPF_S_JMP_JGT_K | BPF_S_JMP_JGT_X | BPF_S_JMP_JSET_K | BPF_S_JMP_JSET_X
| BPF_S_ANC_PROTOCOL | BPF_S_ANC_PKTTYPE | BPF_S_ANC_IFINDEX | BPF_S_ANC_NLATTR | BPF_S_ANC_NLATTR_NEST
| BPF_S_ANC_MARK | BPF_S_ANC_QUEUE | BPF_S_ANC_HATYPE | BPF_S_ANC_RXHASH | BPF_S_ANC_CPU.

#[export] Instance bpf_op_eq_dec : EqDecision bpf_op.
Proof. solve_decision. Defined.

Definition bpf_ops : list bpf_op :=
  [BPF_S_RET_K; BPF_S_RET_A;
   BPF_S_ALU_ADD_K; BPF_S_ALU_ADD_X; BPF_S_ALU_SUB_K; BPF_S_ALU_SUB_X; BPF_S_ALU_MUL_K; BPF_S_ALU_MUL_X; BPF_S_ALU_DIV_X;
   BPF_S_ALU_AND_K; BPF_S_ALU_AND_X; BPF_S_ALU_OR_K; BPF_S_ALU_OR_X;
   BPF_S_ALU_LSH_K; BPF_S_ALU_LSH_X; BPF_S_ALU_RSH_K; BPF_S_ALU_RSH_X; BPF_S_ALU_NEG;
   BPF_S_LD_W_ABS; BPF_S_LD_H_ABS; BPF_S_LD_B_ABS; BPF_S_LD_W_LEN; BPF_S_LD_W_IND; BPF_S_LD_H_IND; BPF_S_LD_B_IND; BPF_S_LD_IMM;
   BPF_S_LDX_W_LEN; BPF_S_LDX_B_MSH; BPF_S_LDX_IMM; BPF_S_MISC_TAX; BPF_S_MISC_TXA; BPF_S_ALU_DIV_K;
   BPF_S_LD_MEM; BPF_S_LDX_MEM; BPF_S_ST; BPF_S_STX; BPF_S_JMP_JA;
   BPF_S_JMP_JEQ_K; BPF_S_JMP_JEQ_X; BPF_S_JMP_JGE_K; BPF_S_JMP_JGE_X; BPF_S_JMP_JGT_K; BPF_S_JMP_JGT_X; BPF_S_JMP_JSET_K; BPF_S_JMP_JSET_X;
   BPF_S_ANC_PROTOCOL; BPF_S_ANC_PKTTYPE; BPF_S_ANC_IFINDEX; BPF_S_ANC_NLATTR; BPF_S_ANC_NLATTR_NEST;
   BPF_S_ANC_MARK; BPF_S_ANC_QUEUE; BPF_S_ANC_HATYPE; BPF_S_ANC_RXHASH; BPF_S_ANC_CPU].

Fixpoint position (o : bpf_op) (l : list bpf_op) : Z :=
  match l with [] => 0 | x :: l' => if bool_decide (x = o) then 0 else 1 + position o l' end.
Definition code_of (o : bpf_op) : Z := 1 + position o bpf_ops.
Definition op_of (c : Z) : option bpf_op := bpf_ops.[c - 1].

Definition BPF_LD : Z := 0x00.
Definition BPF_LDX : Z := 0x01.
Definition BPF_ST : Z := 0x02.
Definition BPF_STX : Z := 0x03.
Definition BPF_ALU : Z := 0x04.
Definition BPF_JMP : Z := 0x05.
Definition BPF_RET : Z := 0x06.
Definition BPF_MISC : Z := 0x07.
Definition BPF_W : Z := 0x00.
Definition BPF_H : Z := 0x08.
Definition BPF_B : Z := 0x10.
Definition BPF_IMM : Z := 0x00.
Definition BPF_ABS : Z := 0x20.
Definition BPF_IND : Z := 0x40.
Definition BPF_MEM : Z := 0x60.
Definition BPF_LEN : Z := 0x80.
Definition BPF_MSH : Z := 0xa0.
Definition BPF_ADD : Z := 0x00.
Definition BPF_SUB : Z := 0x10.
Definition BPF_MUL : Z := 0x20.
Definition BPF_DIV : Z := 0x30.
Definition BPF_OR : Z := 0x40.
Definition BPF_AND : Z := 0x50.
Definition BPF_LSH : Z := 0x60.
Definition BPF_RSH : Z := 0x70.
Definition BPF_NEG : Z := 0x80.
Definition BPF_JA : Z := 0x00.
Definition BPF_JEQ : Z := 0x10.
Definition BPF_JGT : Z := 0x20.
Definition BPF_JGE : Z := 0x30.
Definition BPF_JSET : Z := 0x40.
Definition BPF_K : Z := 0x00.
Definition BPF_X : Z := 0x08.
Definition BPF_A : Z := 0x10.
Definition BPF_TAX : Z := 0x00.
Definition BPF_TXA : Z := 0x80.
Definition BPF_MAXINSNS : Z := 4096.
Definition BPF_MEMWORDS : Z := 16.
Definition SKF_AD_OFF : Z := -0x1000.

(** ** Netlink attributes (include/net/netlink.h, lib/nlattr.c)

    An attribute is a length and a type, of 16 bits each, and its contents; [nla] is an
    address in the linear area of the packet. *)

Definition read_u16 (skb : sk_buff) (addr : Z) : option Z :=
  b ← peek (skb_linear skb) (addr - skb_head skb) 2;
  lo ← b.[0];
  hi ← b.[1];
  Some (lo + 256 * hi).
Definition nla_len_field (skb : sk_buff) (nla : Z) : option Z := read_u16 skb nla.
Definition nla_type (skb : sk_buff) (nla : Z) : option Z :=
  t ← read_u16 skb (ulong (nla + 2)); Some (Z.land t (Z.lnot 0xc000)).
Definition NLA_ALIGN (n : Z) : Z := Z.land (n + 4 - 1) (Z.lnot (4 - 1)).
Definition NLA_HDRLEN : Z := NLA_ALIGN 4.

Definition nla_ok (skb : sk_buff) (nla remaining : Z) : option bool :=
  if 4 <=? remaining then
    l ← nla_len_field skb nla; Some ((4 <=? l) && (l <=? remaining))
  else Some false.
Definition nla_next (skb : sk_buff) (nla remaining : Z) : option (Z * Z) :=
  l ← nla_len_field skb nla;
  let totlen := NLA_ALIGN l in
  Some (ulong (nla + totlen), remaining - totlen).

(** NULL is 0. *)
Definition nla_find_body (skb : sk_buff) (attrtype : Z) (st : Z * Z) : option (step (Z * Z) Z) :=
  let '(nla, rem) := st in
  ok ← nla_ok skb nla rem;
  if ok : bool then
    t ← nla_type skb nla;
    if t =? attrtype then Some (Done nla) else st ← nla_next skb nla rem; Some (Next st)
  else Some (Done 0).
Definition nla_find (skb : sk_buff) (head len attrtype : Z) : option Z :=
  loop (nla_find_body skb attrtype) (Z.max 0 len + 1) (head, len).
Definition nla_find_nested (skb : sk_buff) (nla attrtype : Z) : option Z :=
  l ← nla_len_field skb nla;
  nla_find skb (ulong (nla + NLA_HDRLEN)) (l - NLA_HDRLEN) attrtype.

(** ** The interpreter *)

(** What comes from the machine: the number of the processor, and what a shift by 32 bits or more gives, which
    C leaves open. *)
Record machine := { smp_processor_id : Z; shl_wide : Z -> Z -> Z; shr_wide : Z -> Z -> Z }.

(** [pc] is the index of the instruction that [fentry] points to. *)
Record bpf_state := { pc : Z; A : Z; X : Z; mem : list Z }.

Definition next (s : bpf_state) : bpf_state := {| pc := pc s + 1; A := A s; X := X s; mem := mem s |}.
Definition jump (s : bpf_state) (off : Z) : bpf_state := {| pc := pc s + off + 1; A := A s; X := X s; mem := mem s |}.
Definition set_A (s : bpf_state) (v : Z) : bpf_state := {| pc := pc s; A := v; X := X s; mem := mem s |}.
Definition set_X (s : bpf_state) (v : Z) : bpf_state := {| pc := pc s; A := A s; X := v; mem := mem s |}.
Definition set_mem (s : bpf_state) (i v : Z) : option bpf_state :=
  m ← (mem s).[i <- v]; Some {| pc := pc s; A := A s; X := X s; mem := m |}.

Definition shl (m : machine) (a n : Z) : Z := u32 (if n <? 32 then Z.shiftl a n else shl_wide m a n).
Definition shr (m : machine) (a n : Z) : Z := u32 (if n <? 32 then Z.shiftr a n else shr_wide m a n).

Definition ntohs (x : Z) : Z := Z.lor (Z.land (Z.shiftl x 8) 0xff00) (Z.land (Z.shiftr x 8) 0xff).

(** get_unaligned_be32(), get_unaligned_be16() and a byte. *)
Definition be_bytes (b : list Z) : Z := foldl (fun v x => v * 256 + x) 0 b.

(** The labels load_w, load_h and load_b. *)
Definition load (skb : sk_buff) (off size : Z) (s : bpf_state) : option (step bpf_state Z) :=
  ptr ← load_pointer skb off size;
  match ptr with
  | Some b => Some (Next (next (set_A s (be_bytes b))))
  | None => Some (Done 0)
  end.

Definition nlattr (skb : sk_buff) (s : bpf_state) : option (step bpf_state Z) :=
  if skb_is_nonlinear skb then Some (Done 0)
  else if u32 (skb_len skb - 4) <? A s then Some (Done 0)
  else
    nla ← nla_find skb (ulong (skb_data skb + A s)) (s32 (skb_len skb - A s)) (s32 (X s));
    Some (Next (next (set_A s (if truth nla then u32 (nla - skb_data skb) else 0)))).

Definition nlattr_nest (skb : sk_buff) (s : bpf_state) : option (step bpf_state Z) :=
  if skb_is_nonlinear skb then Some (Done 0)
  else if u32 (skb_len skb - 4) <? A s then Some (Done 0)
  else
    let nla := ulong (skb_data skb + A s) in
    l ← nla_len_field skb nla;
    if u32 (A s - skb_len skb) <? l then Some (Done 0)
    else
      nla ← nla_find_nested skb nla (s32 (X s));
      Some (Next (next (set_A s (if truth nla then u32 (nla - skb_data skb) else 0)))).

Definition run_op (m : machine) (skb : sk_buff) (f : sock_filter) (s : bpf_state) (o : bpf_op) : option (step bpf_state Z) :=
  let K := k f in
  let continue v := Some (Next (next (set_A s v))) in
  let branch (b : bool) := Some (Next (jump s (if b then jt f else jf f))) in
  match o with
  | BPF_S_ALU_ADD_X => continue (u32 (A s + X s))
  | BPF_S_ALU_ADD_K => continue (u32 (A s + K))
  | BPF_S_ALU_SUB_X => continue (u32 (A s - X s))
  | BPF_S_ALU_SUB_K => continue (u32 (A s - K))
  | BPF_S_ALU_MUL_X => continue (u32 (A s * X s))
  | BPF_S_ALU_MUL_K => continue (u32 (A s * K))
  | BPF_S_ALU_DIV_X => if X s =? 0 then Some (Done 0) else continue (A s / X s)
  | BPF_S_ALU_DIV_K => continue (reciprocal_divide (A s) K)
  | BPF_S_ALU_AND_X => continue (Z.land (A s) (X s))
  | BPF_S_ALU_AND_K => continue (Z.land (A s) K)
  | BPF_S_ALU_OR_X => continue (Z.lor (A s) (X s))
  | BPF_S_ALU_OR_K => continue (Z.lor (A s) K)
  | BPF_S_ALU_LSH_X => continue (shl m (A s) (X s))
  | BPF_S_ALU_LSH_K => continue (shl m (A s) K)
  | BPF_S_ALU_RSH_X => continue (shr m (A s) (X s))
  | BPF_S_ALU_RSH_K => continue (shr m (A s) K)
  | BPF_S_ALU_NEG => continue (u32 (- A s))
  | BPF_S_JMP_JA => Some (Next (jump s K))
  | BPF_S_JMP_JGT_K => branch (K <? A s)
  | BPF_S_JMP_JGE_K => branch (K <=? A s)
  | BPF_S_JMP_JEQ_K => branch (A s =? K)
  | BPF_S_JMP_JSET_K => branch (truth (Z.land (A s) K))
  | BPF_S_JMP_JGT_X => branch (X s <? A s)
  | BPF_S_JMP_JGE_X => branch (X s <=? A s)
  | BPF_S_JMP_JEQ_X => branch (A s =? X s)
  | BPF_S_JMP_JSET_X => branch (truth (Z.land (A s) (X s)))
  | BPF_S_LD_W_ABS => load skb (s32 K) 4 s
  | BPF_S_LD_H_ABS => load skb (s32 K) 2 s
  | BPF_S_LD_B_ABS => load skb (s32 K) 1 s
  | BPF_S_LD_W_LEN => continue (skb_len skb)
  | BPF_S_LDX_W_LEN => Some (Next (next (set_X s (skb_len skb))))
  | BPF_S_LD_W_IND => load skb (s32 (X s + K)) 4 s
  | BPF_S_LD_H_IND => load skb (s32 (X s + K)) 2 s
  | BPF_S_LD_B_IND => load skb (s32 (X s + K)) 1 s
  | BPF_S_LDX_B_MSH =>
      ptr ← load_pointer skb (s32 K) 1;
      match ptr with
      | Some b => Some (Next (next (set_X s (Z.shiftl (Z.land (be_bytes b) 0xf) 2))))
      | None => Some (Done 0)
      end
  | BPF_S_LD_IMM => continue K
  | BPF_S_LDX_IMM => Some (Next (next (set_X s K)))
  | BPF_S_LD_MEM => v ← (mem s).[K]; continue v
  | BPF_S_LDX_MEM => v ← (mem s).[K]; Some (Next (next (set_X s v)))
  | BPF_S_MISC_TAX => Some (Next (next (set_X s (A s))))
  | BPF_S_MISC_TXA => continue (X s)
  | BPF_S_RET_K => Some (Done K)
  | BPF_S_RET_A => Some (Done (A s))
  | BPF_S_ST => s ← set_mem s K (A s); Some (Next (next s))
  | BPF_S_STX => s ← set_mem s K (X s); Some (Next (next s))
  | BPF_S_ANC_PROTOCOL => continue (ntohs (skb_protocol skb))
  | BPF_S_ANC_PKTTYPE => continue (skb_pkt_type skb)
  | BPF_S_ANC_IFINDEX => match skb_dev skb with Some d => continue (u32 (ifindex d)) | None => Some (Done 0) end
  | BPF_S_ANC_MARK => continue (skb_mark skb)
  | BPF_S_ANC_QUEUE => continue (skb_queue_mapping skb)
  | BPF_S_ANC_HATYPE => match skb_dev skb with Some d => continue (dev_type d) | None => Some (Done 0) end
  | BPF_S_ANC_RXHASH => continue (skb_rxhash skb)
  | BPF_S_ANC_CPU => continue (u32 (smp_processor_id m))
  | BPF_S_ANC_NLATTR => nlattr skb s
  | BPF_S_ANC_NLATTR_NEST => nlattr_nest skb s
  end.

(** An unknown code returns 0. *)
Definition run_body (m : machine) (skb : sk_buff) (filter : list sock_filter) (s : bpf_state) : option (step bpf_state Z) :=
  f ← filter.[pc s];
  match op_of (code f) with
  | Some o => run_op m skb f s o
  | None => Some (Done 0)
  end.

(** [mem0] is what the array happens to hold.  All jumps go forward, so the number of
    instructions bounds the iterations. *)
Definition sk_run_filter (m : machine) (skb : sk_buff) (filter : list sock_filter) (mem0 : list Z) : option Z :=
  loop (run_body m skb filter) (zlen filter + 1) {| pc := 0; A := 0; X := 0; mem := mem0 |}.

(** ** The checker *)

(** The array [codes] of designated initialisers. *)
Definition code_table : list (Z * bpf_op) :=
  [(Z.lor BPF_ALU (Z.lor BPF_ADD BPF_K), BPF_S_ALU_ADD_K); (Z.lor BPF_ALU (Z.lor BPF_ADD BPF_X), BPF_S_ALU_ADD_X);
   (Z.lor BPF_ALU (Z.lor BPF_SUB BPF_K), BPF_S_ALU_SUB_K); (Z.lor BPF_ALU (Z.lor BPF_SUB BPF_X), BPF_S_ALU_SUB_X);
   (Z.lor BPF_ALU (Z.lor BPF_MUL BPF_K), BPF_S_ALU_MUL_K); (Z.lor BPF_ALU (Z.lor BPF_MUL BPF_X), BPF_S_ALU_MUL_X);
   (Z.lor BPF_ALU (Z.lor BPF_DIV BPF_X), BPF_S_ALU_DIV_X);
   (Z.lor BPF_ALU (Z.lor BPF_AND BPF_K), BPF_S_ALU_AND_K); (Z.lor BPF_ALU (Z.lor BPF_AND BPF_X), BPF_S_ALU_AND_X);
   (Z.lor BPF_ALU (Z.lor BPF_OR BPF_K), BPF_S_ALU_OR_K); (Z.lor BPF_ALU (Z.lor BPF_OR BPF_X), BPF_S_ALU_OR_X);
   (Z.lor BPF_ALU (Z.lor BPF_LSH BPF_K), BPF_S_ALU_LSH_K); (Z.lor BPF_ALU (Z.lor BPF_LSH BPF_X), BPF_S_ALU_LSH_X);
   (Z.lor BPF_ALU (Z.lor BPF_RSH BPF_K), BPF_S_ALU_RSH_K); (Z.lor BPF_ALU (Z.lor BPF_RSH BPF_X), BPF_S_ALU_RSH_X);
   (Z.lor BPF_ALU BPF_NEG, BPF_S_ALU_NEG);
   (Z.lor BPF_LD (Z.lor BPF_W BPF_ABS), BPF_S_LD_W_ABS); (Z.lor BPF_LD (Z.lor BPF_H BPF_ABS), BPF_S_LD_H_ABS);
   (Z.lor BPF_LD (Z.lor BPF_B BPF_ABS), BPF_S_LD_B_ABS); (Z.lor BPF_LD (Z.lor BPF_W BPF_LEN), BPF_S_LD_W_LEN);
   (Z.lor BPF_LD (Z.lor BPF_W BPF_IND), BPF_S_LD_W_IND); (Z.lor BPF_LD (Z.lor BPF_H BPF_IND), BPF_S_LD_H_IND);
   (Z.lor BPF_LD (Z.lor BPF_B BPF_IND), BPF_S_LD_B_IND); (Z.lor BPF_LD BPF_IMM, BPF_S_LD_IMM);
   (Z.lor BPF_LDX (Z.lor BPF_W BPF_LEN), BPF_S_LDX_W_LEN); (Z.lor BPF_LDX (Z.lor BPF_B BPF_MSH), BPF_S_LDX_B_MSH);
   (Z.lor BPF_LDX BPF_IMM, BPF_S_LDX_IMM); (Z.lor BPF_MISC BPF_TAX, BPF_S_MISC_TAX); (Z.lor BPF_MISC BPF_TXA, BPF_S_MISC_TXA);
   (Z.lor BPF_RET BPF_K, BPF_S_RET_K); (Z.lor BPF_RET BPF_A, BPF_S_RET_A); (Z.lor BPF_ALU (Z.lor BPF_DIV BPF_K), BPF_S_ALU_DIV_K);
   (Z.lor BPF_LD BPF_MEM, BPF_S_LD_MEM); (Z.lor BPF_LDX BPF_MEM, BPF_S_LDX_MEM); (BPF_ST, BPF_S_ST); (BPF_STX, BPF_S_STX);
   (Z.lor BPF_JMP BPF_JA, BPF_S_JMP_JA);
   (Z.lor BPF_JMP (Z.lor BPF_JEQ BPF_K), BPF_S_JMP_JEQ_K); (Z.lor BPF_JMP (Z.lor BPF_JEQ BPF_X), BPF_S_JMP_JEQ_X);
   (Z.lor BPF_JMP (Z.lor BPF_JGE BPF_K), BPF_S_JMP_JGE_K); (Z.lor BPF_JMP (Z.lor BPF_JGE BPF_X), BPF_S_JMP_JGE_X);
   (Z.lor BPF_JMP (Z.lor BPF_JGT BPF_K), BPF_S_JMP_JGT_K); (Z.lor BPF_JMP (Z.lor BPF_JGT BPF_X), BPF_S_JMP_JGT_X);
   (Z.lor BPF_JMP (Z.lor BPF_JSET BPF_K), BPF_S_JMP_JSET_K); (Z.lor BPF_JMP (Z.lor BPF_JSET BPF_X), BPF_S_JMP_JSET_X)].
Definition codes_size : Z := foldr (fun e n => Z.max (fst e + 1) n) 0 code_table.
Definition codes : list Z :=
  foldl (fun l e => <[Z.to_nat (fst e) := code_of (snd e)]> l) (repeat 0 (Z.to_nat codes_size)) code_table.

(** The switch on the offset of an absolute load, in the order of the source. *)
Definition ancillary (off : Z) : option bpf_op :=
  if off =? u32 (SKF_AD_OFF + 0) then Some BPF_S_ANC_PROTOCOL
  else if off =? u32 (SKF_AD_OFF + 4) then Some BPF_S_ANC_PKTTYPE
  else if off =? u32 (SKF_AD_OFF + 8) then Some BPF_S_ANC_IFINDEX
  else if off =? u32 (SKF_AD_OFF + 12) then Some BPF_S_ANC_NLATTR
  else if off =? u32 (SKF_AD_OFF + 16) then Some BPF_S_ANC_NLATTR_NEST
  else if off =? u32 (SKF_AD_OFF + 20) then Some BPF_S_ANC_MARK
  else if off =? u32 (SKF_AD_OFF + 24) then Some BPF_S_ANC_QUEUE
  else if off =? u32 (SKF_AD_OFF + 28) then Some BPF_S_ANC_HATYPE
  else if off =? u32 (SKF_AD_OFF + 32) then Some BPF_S_ANC_RXHASH
  else if off =? u32 (SKF_AD_OFF + 36) then Some BPF_S_ANC_CPU
  else None.

Definition is_branch (o : bpf_op) : bool :=
  match o with
  | BPF_S_JMP_JEQ_K | BPF_S_JMP_JEQ_X | BPF_S_JMP_JGE_K | BPF_S_JMP_JGE_X | BPF_S_JMP_JGT_K | BPF_S_JMP_JGT_X
  | BPF_S_JMP_JSET_X | BPF_S_JMP_JSET_K => true
  | _ => false
  end.

(** The checks of one instruction: an error, or the translated instruction. *)
Definition chk_insn (flen pc : Z) (ftest : sock_filter) : option (Z + sock_filter) :=
  if codes_size <=? code ftest then Some (inl (- EINVAL))
  else
    c ← codes.[code ftest];
    if c =? 0 then Some (inl (- EINVAL))
    else
      let set c k' := Some (inr {| code := c; jt := jt ftest; jf := jf ftest; k := k' |}) in
      match op_of c with
      | Some BPF_S_ALU_DIV_K =>
          if k ftest =? 0 then Some (inl (- EINVAL)) else R ← reciprocal_value (k ftest); set c R
      | Some (BPF_S_LD_MEM | BPF_S_LDX_MEM | BPF_S_ST | BPF_S_STX) =>
          if BPF_MEMWORDS <=? k ftest then Some (inl (- EINVAL)) else set c (k ftest)
      | Some BPF_S_JMP_JA =>
          if u32 (flen - pc - 1) <=? k ftest then Some (inl (- EINVAL)) else set c (k ftest)
      | Some (BPF_S_LD_W_ABS | BPF_S_LD_H_ABS | BPF_S_LD_B_ABS) =>
          match ancillary (k ftest) with Some o => set (code_of o) (k ftest) | None => set c (k ftest) end
      | Some o =>
          if is_branch o && ((flen <=? pc + jt ftest + 1) || (flen <=? pc + jf ftest + 1)) then Some (inl (- EINVAL))
          else set c (k ftest)
      | None => set c (k ftest)
      end.

Definition chk_body (flen : Z) (st : Z * list sock_filter) : option (step (Z * list sock_filter) (Z * list sock_filter)) :=
  let '(pc, filter) := st in
  if pc <? flen then
    f ← filter.[pc];
    r ← chk_insn flen pc f;
    match r with
    | inl e => Some (Done (e, filter))
    | inr f' => filter ← filter.[pc <- f']; Some (Next (pc + 1, filter))
    end
  else Some (Done (0, filter)).

(** [masks[i] &= memvalid] *)
Definition and_mask (masks : list Z) (i memvalid : Z) : option (list Z) :=
  m ← masks.[i]; masks.[i <- Z.land m memvalid].

Definition loads_body (filter : list sock_filter) (flen : Z) (st : Z * list Z * Z) : option (step (Z * list Z * Z) Z) :=
  let '(pc, masks, memvalid) := st in
  if pc <? flen then
    m ← masks.[pc];
    let memvalid := Z.land memvalid m in
    f ← filter.[pc];
    match op_of (code f) with
    | Some (BPF_S_ST | BPF_S_STX) => Some (Next (pc + 1, masks, u16 (Z.lor memvalid (Z.shiftl 1 (k f)))))
    | Some (BPF_S_LD_MEM | BPF_S_LDX_MEM) =>
        if negb (truth (Z.land memvalid (Z.shiftl 1 (k f)))) then Some (Done (- EINVAL)) else Some (Next (pc + 1, masks, memvalid))
    | Some BPF_S_JMP_JA => masks ← and_mask masks (pc + 1 + k f) memvalid; Some (Next (pc + 1, masks, u16 (Z.lnot 0)))
    | Some o =>
        if is_branch o then
          masks ← and_mask masks (pc + 1 + jt f) memvalid;
          masks ← and_mask masks (pc + 1 + jf f) memvalid;
          Some (Next (pc + 1, masks, u16 (Z.lnot 0)))
        else Some (Next (pc + 1, masks, memvalid))
    | None => Some (Next (pc + 1, masks, memvalid))
    end
  else Some (Done 0).

(** [alloc]: kmalloc() has the memory. *)
Definition check_load_and_stores (alloc : bool) (filter : list sock_filter) (flen : Z) : option Z :=
  if negb alloc then Some (- ENOMEM)
  else loop (loads_body filter flen) (flen + 1) (0, repeat 0xffff (Z.to_nat flen), 0).

(** The result and the translated program. *)
Definition sk_chk_filter (alloc : bool) (filter : list sock_filter) (flen : Z) : option (Z * list sock_filter) :=
  if (flen =? 0) || (BPF_MAXINSNS <? flen) then Some (- EINVAL, filter)
  else
    r ← loop (chk_body flen) (flen + 1) (0, filter);
    let '(e, filter) := r in
    if negb (e =? 0) then Some (e, filter)
    else
      f ← filter.[flen - 1];
      match op_of (code f) with
      | Some (BPF_S_RET_K | BPF_S_RET_A) => e ← check_load_and_stores alloc filter flen; Some (e, filter)
      | _ => Some (- EINVAL, filter)
      end.

(** ** Attaching a program to a socket *)

Record sk_filter := { fp_len : Z; fp_insns : list sock_filter; fp_refcnt : Z }.
Record sock := { sk_omem_alloc : Z; sk_filter_ptr : option sk_filter }.

(** The sizes of struct sock_filter and of the header of struct sk_filter. *)
Definition sizeof_sock_filter : Z := 8.
Definition sizeof_sk_filter : Z := 20.
Definition sk_filter_len (fp : sk_filter) : Z := fp_len fp * sizeof_sock_filter + sizeof_sk_filter.

Definition sock_kmalloc (optmem_max : Z) (alloc : bool) (sk : sock) (size : Z) : bool * sock :=
  if (u32 size <=? optmem_max) && (s32 (sk_omem_alloc sk + size) <? optmem_max) && alloc then
    (true, {| sk_omem_alloc := s32 (sk_omem_alloc sk + size); sk_filter_ptr := sk_filter_ptr sk |})
  else (false, sk).
Definition sock_kfree_s (sk : sock) (size : Z) : sock :=
  {| sk_omem_alloc := s32 (sk_omem_alloc sk - size); sk_filter_ptr := sk_filter_ptr sk |}.
Definition sk_filter_uncharge (sk : sock) (fp : sk_filter) : sock := sock_kfree_s sk (sk_filter_len fp).

(** A struct sock_filter in memory. *)
Definition decode_insn (b : list Z) : option sock_filter :=
  match b with
  | [c0; c1; t; f; k0; k1; k2; k3] => Some {| code := c0 + 256 * c1; jt := t; jf := f; k := k0 + 256 * (k1 + 256 * (k2 + 256 * k3)) |}
  | _ => None
  end.
Fixpoint decode_insns (n : nat) (b : list Z) : option (list sock_filter) :=
  match n with
  | O => Some []
  | S n' => f ← decode_insn (take 8 b); fs ← decode_insns n' (drop 8 b); Some (f :: fs)
  end.

(** [dst] is the allocated array before the copy; [src] the program in user space, or NULL. *)
Definition sk_attach_filter (copy_from_user : list Z -> list Z -> Z -> option (list Z * Z)) (optmem_max : Z) (alloc alloc_masks : bool)
    (dst : list Z) (fprog_len : Z) (src : option (list Z)) (sk : sock) : option (Z * sock) :=
  let fsize := u32 (sizeof_sock_filter * fprog_len) in
  match src with
  | None => Some (- EINVAL, sk)
  | Some src =>
      let '(ok, sk) := sock_kmalloc optmem_max alloc sk (fsize + sizeof_sk_filter) in
      if negb ok then Some (- ENOMEM, sk)
      else
        r ← copy_from_user dst src fsize;
        let '(bytes, rest) := r in
        if truth rest then Some (- EFAULT, sock_kfree_s sk (fsize + sizeof_sk_filter))
        else
          insns ← decode_insns (Z.to_nat fprog_len) bytes;
          r ← sk_chk_filter alloc_masks insns fprog_len;
          let '(err, insns) := r in
          let fp := {| fp_len := fprog_len; fp_insns := insns; fp_refcnt := 1 |} in
          if truth err then Some (err, sk_filter_uncharge sk fp)
          else
            let old_fp := sk_filter_ptr sk in
            let sk := {| sk_omem_alloc := sk_omem_alloc sk; sk_filter_ptr := Some fp |} in
            Some (0, match old_fp with Some old => sk_filter_uncharge sk old | None => sk end)
  end.

Definition sk_detach_filter (sk : sock) : Z * sock :=
  match sk_filter_ptr sk with
  | Some fp => (0, sk_filter_uncharge {| sk_omem_alloc := sk_omem_alloc sk; sk_filter_ptr := None |} fp)
  | None => (- ENOENT, sk)
  end.

(** ** Proofs: the translation *)

Lemma op_code o : op_of (code_of o) = Some o.
Proof. by destruct o. Qed.

Lemma codes_translate c x : codes.[c] = Some x -> x = 0 \/ exists o, op_of x = Some o.
Proof.
  assert (H : forallb (fun x => (x =? 0) || bool_decide (is_Some (op_of x))) codes = true) by (vm_compute; done).
  intros [_ Hx]%arr_get_Some. apply list_elem_of_lookup_2, list_elem_of_In in Hx. apply (proj1 (forallb_forall _ _) H), orb_true_iff in Hx as [?%Z.eqb_eq|[o ?]%bool_decide_eq_true]; eauto.
Qed.

Lemma codes_total c : 0 <= c < codes_size -> is_Some (codes.[c]).
Proof. intros Hc. apply arr_get_is_Some. assert (zlen codes = codes_size) as -> by (vm_compute; done). done. Qed.

(** What a program is made of. *)
Definition wf_insn (f : sock_filter) : Prop := 0 <= code f < 2 ^ 16 /\ 0 <= jt f < 2 ^ 8 /\ 0 <= jf f < 2 ^ 8 /\ 0 <= k f < 2 ^ 32.

(** What the first loop has checked of an instruction. *)
Definition checked (flen i : Z) (f : sock_filter) : Prop :=
  0 <= k f < 2 ^ 32 /\ exists o, op_of (code f) = Some o /\
    match o with
    | BPF_S_LD_MEM | BPF_S_LDX_MEM | BPF_S_ST | BPF_S_STX => 0 <= k f < BPF_MEMWORDS
    | BPF_S_JMP_JA => 0 <= k f /\ i + 1 + k f < flen
    | _ => if is_branch o then (0 <= jt f /\ i + 1 + jt f < flen) /\ (0 <= jf f /\ i + 1 + jf f < flen) else True
    end.

Lemma chk_insn_ok flen i f : 0 <= i < flen -> flen <= BPF_MAXINSNS -> wf_insn f ->
  chk_insn flen i f = Some (inl (- EINVAL)) \/ exists f', chk_insn flen i f = Some (inr f') /\ checked flen i f'.
Proof.
  intros Hi Hflen (Hc & Ht & Hf & Hk). unfold chk_insn. destruct (Z.leb_spec codes_size (code f)); [by left|].
  destruct (codes_total (code f)) as [c Hcode]; [lia|]. rewrite Hcode, bind_Some. destruct (Z.eqb_spec c 0) as [?|Hc0]; [by left|].
  apply codes_translate in Hcode as [?|[o Ho]]; [done|]. rewrite Ho.
  assert (Hdone : forall c' o' k', op_of c' = Some o' -> 0 <= k' < 2 ^ 32 ->
    match o' with
    | BPF_S_LD_MEM | BPF_S_LDX_MEM | BPF_S_ST | BPF_S_STX => 0 <= k' < BPF_MEMWORDS
    | BPF_S_JMP_JA => 0 <= k' /\ i + 1 + k' < flen
    | _ => if is_branch o' then (0 <= jt f /\ i + 1 + jt f < flen) /\ (0 <= jf f /\ i + 1 + jf f < flen) else True
    end -> exists f', Some (inr (A := Z) {| code := c'; jt := jt f; jf := jf f; k := k' |}) = Some (inr f') /\ checked flen i f').
  { intros c' o' k' Ho' Hk' H'. eexists. split; [done|]. split; [done|]. by exists o'. }
  destruct o; cbn [is_branch andb]; try (right; by apply (Hdone c _ _ Ho Hk)).
  all: try (destruct (Z.leb_spec BPF_MEMWORDS (k f)); [by left|]; right; apply (Hdone c _ _ Ho Hk); by split; [lia|]).
  all: try (destruct (Z.leb_spec flen (i + jt f + 1)), (Z.leb_spec flen (i + jf f + 1)); cbn [orb]; try (by left); right; apply (Hdone c _ _ Ho Hk); cbn; lia).
  all: try (destruct (ancillary (k f)) as [o|] eqn:Ea; [|right; by apply (Hdone c _ _ Ho Hk)]; right; apply (Hdone _ _ _ (op_code o) Hk); unfold ancillary in Ea;
    repeat case_match; by simplify_eq).
  - destruct (Z.eqb_spec (k f) 0); [by left|]. unfold reciprocal_value. rewrite (proj2 (Z.eqb_neq (k f) 0)), bind_Some by done. right. apply (Hdone c _ _ Ho); [apply u32_range|done].
  - assert (u32 (flen - i - 1) = flen - i - 1) as -> by (apply Z.mod_small; unfold BPF_MAXINSNS in *; lia).
    destruct (Z.leb_spec (flen - i - 1) (k f)); [by left|]. right. apply (Hdone c _ _ Ho Hk). lia.
Qed.

Definition all_checked (filter : list sock_filter) : Prop := forall i f, filter.[i] = Some f -> checked (zlen filter) i f.

Lemma chk_loop_ok filter flen : zlen filter = flen -> 0 < flen <= BPF_MAXINSNS -> Forall wf_insn filter ->
  exists e filter', loop (chk_body flen) (flen + 1) (0, filter) = Some (e, filter') /\
    (e = - EINVAL \/ e = 0 /\ zlen filter' = flen /\ all_checked filter').
Proof.
  intros Hlen Hflen Hwf.
  destruct (loop_total (chk_body flen)
    (fun '(i, l) => 0 <= i <= flen /\ zlen l = flen /\ (forall j f, j < i -> l.[j] = Some f -> checked flen j f) /\ (forall j, i <= j -> l.[j] = filter.[j]))
    (fun '(i, _) => flen - i) (fun '(e, l) => e = - EINVAL \/ e = 0 /\ zlen l = flen /\ all_checked l)) with (bound := flen + 1) (s := (0, filter)) as ([e l] & Hl & Hq).
  - intros [i l] (Hi & Hzl & Hdone & Hrest). unfold body_ok. split; [lia|]. unfold chk_body. destruct (Z.ltb_spec i flen).
    + destruct (arr_get_is_Some filter i) as [f Hf]; [lia|]. rewrite Hrest, Hf, bind_Some by lia.
      assert (Hwff : wf_insn f) by (apply arr_get_Some in Hf as [_ Hf]; by eapply Forall_lookup_1).
      destruct (chk_insn_ok flen i f) as [->|(f' & -> & Hck)]; [lia..|done|by left|]. rewrite bind_Some.
      unfold arr_set. rewrite (proj2 (Z.leb_le 0 i)), (proj2 (Z.ltb_lt i _)) by (unfold zlen in *; lia). cbn [andb]. rewrite bind_Some.
      split; [|lia]. split_and!; [lia..|by rewrite zlen_insert| |].
      * intros j g Hj. rewrite arr_get_insert by lia. case_decide; [by intros [= <-]; subst|]. apply Hdone. lia.
      * intros j Hj. rewrite arr_get_insert by lia. case_decide; [lia|]. apply Hrest. lia.
    + right. split_and!; [done|done|]. intros j f Hf. rewrite Hzl. apply Hdone; [|done]. apply arr_get_range in Hf. lia.
  - split_and!; [lia..| |done]. intros j f Hj Hf. apply arr_get_range in Hf. lia.
  - lia.
  - exists e, l. split; [done|exact Hq].
Qed.

(** ** Proofs: cells that have been written *)

(** A set of cells is a number, as in the source. *)
Definition bits_in (a b : Z) : Prop := forall i, Z.testbit a i = true -> Z.testbit b i = true.

Lemma bits_in_land_l a b : bits_in (Z.land a b) a.
Proof. intros i. rewrite Z.land_spec. by intros [? _]%andb_true_iff. Qed.
Lemma bits_in_land_r a b : bits_in (Z.land a b) b.
Proof. intros i. rewrite Z.land_spec. by intros [_ ?]%andb_true_iff. Qed.
Lemma bits_in_trans a b c : bits_in a b -> bits_in b c -> bits_in a c.
Proof. intros H1 H2 i Hi. auto. Qed.

Lemma land_bit_set v n : 0 <= n -> truth (Z.land v (Z.shiftl 1 n)) = true -> Z.testbit v n = true.
Proof.
  intros Hn H. destruct (Z.testbit v n) eqn:E; [done|]. unfold truth in H. rewrite (proj2 (Z.eqb_eq _ 0)) in H; [done|].
  apply Z.bits_inj'. intros i Hi. rewrite Z.land_spec, Z.shiftl_1_l, Z.pow2_bits_eqb, Z.bits_0 by done.
  destruct (Z.eqb_spec n i) as [<-|]; [by rewrite E|apply andb_false_r].
Qed.

(** The cells an instruction needs, those that are written behind it, and where it goes. *)
Definition reads_ok (v : Z) (f : sock_filter) (o : bpf_op) : Prop :=
  match o with BPF_S_LD_MEM | BPF_S_LDX_MEM => Z.testbit v (k f) = true | _ => True end.
Definition written (v : Z) (f : sock_filter) (o : bpf_op) : Z :=
  match o with BPF_S_ST | BPF_S_STX => u16 (Z.lor v (Z.shiftl 1 (k f))) | _ => v end.
Definition succs (i : Z) (f : sock_filter) (o : bpf_op) : list Z :=
  match o with
  | BPF_S_RET_K | BPF_S_RET_A => []
  | BPF_S_JMP_JA => [i + 1 + k f]
  | _ => if is_branch o then [i + 1 + jt f; i + 1 + jf f] else [i + 1]
  end.

(** What the second loop knows: the sets [V] of the instructions before [i], and [W], the bound of what comes. *)
Definition flow_upto (filter : list sock_filter) (V W : Z -> Z) (n : Z) : Prop := forall i f o, i < n -> filter.[i] = Some f -> op_of (code f) = Some o ->
  reads_ok (V i) f o /\ forall t, t ∈ succs i f o -> bits_in (W t) (written (V i) f o).

Definition mask_at (masks : list Z) (t : Z) : Z := default 0 (masks.[t]).
Definition window (V : Z -> Z) (n : Z) (masks : list Z) (memvalid : Z) (t : Z) : Z :=
  if t <? n then V t else if t =? n then Z.land memvalid (mask_at masks t) else mask_at masks t.

Definition masks_shrink (masks masks' : list Z) : Prop := zlen masks' = zlen masks /\ forall t, bits_in (mask_at masks' t) (mask_at masks t).

Lemma and_mask_ok masks i v : 0 <= i < zlen masks -> exists masks', and_mask masks i v = Some masks' /\ masks_shrink masks masks' /\ bits_in (mask_at masks' i) v.
Proof.
  intros Hi. unfold and_mask. destruct (arr_get_is_Some masks i Hi) as [m Hm]. rewrite Hm, bind_Some.
  unfold arr_set. rewrite (proj2 (Z.leb_le 0 i)), (proj2 (Z.ltb_lt i _)) by (unfold zlen in *; lia). cbn [andb]. eexists. split; [done|].
  assert (Hat : forall t, mask_at (<[Z.to_nat i := Z.land m v]> masks) t = if decide (t = i) then Z.land m v else mask_at masks t).
  { intros t. unfold mask_at. rewrite arr_get_insert by done. do 2 case_decide; done || lia. }
  split; [split|].
  - apply zlen_insert.
  - intros t. rewrite Hat. case_decide as Ht; [|by intros ?]. subst t. unfold mask_at. rewrite Hm. apply bits_in_land_l.
  - rewrite Hat, decide_True by done. apply bits_in_land_r.
Qed.

Lemma masks_shrink_trans a b c : masks_shrink a b -> masks_shrink b c -> masks_shrink a c.
Proof. intros [H1 H2] [H3 H4]. split; [congruence|]. intros t. eapply bits_in_trans; eauto. Qed.

(** The instruction [i] is processed: its set is [v], and [memvalid'] and [masks'] come out of it. *)
Lemma flow_step filter V i masks masks' memvalid memvalid' f o v : flow_upto filter V (window V i masks memvalid) i ->
  filter.[i] = Some f -> op_of (code f) = Some o -> masks_shrink masks masks' -> v = Z.land memvalid (mask_at masks i) -> reads_ok v f o ->
  (forall t, t ∈ succs i f o -> i < t /\ bits_in (if t =? i + 1 then Z.land memvalid' (mask_at masks' t) else mask_at masks' t) (written v f o)) ->
  exists V', V' i = v /\ (forall t, t < i -> V' t = V t) /\ flow_upto filter V' (window V' (i + 1) masks' memvalid') (i + 1).
Proof.
  intros Hflow Hf Ho [_ Hsh] -> Hr Hs. set (v := Z.land _ _) in *. exists (fun t => if t =? i then v else V t).
  split; [by rewrite Z.eqb_refl|]. split; [intros t Ht; by rewrite (proj2 (Z.eqb_neq t i)) by lia|].
  assert (Hw : forall t, i < t -> window (fun t => if t =? i then v else V t) (i + 1) masks' memvalid' t =
    if t =? i + 1 then Z.land memvalid' (mask_at masks' t) else mask_at masks' t).
  { intros t Ht. unfold window. by rewrite (proj2 (Z.ltb_ge t (i + 1))) by lia. }
  intros j g q Hj Hg Hq. destruct (Z.eqb_spec j i) as [->|Hne].
  - rewrite Hf in Hg. injection Hg as <-. rewrite Ho in Hq. injection Hq as <-. split; [done|].
    intros t Ht. destruct (Hs t Ht) as [Hlt Hb]. by rewrite Hw.
  - destruct (Hflow j g q ltac:(lia) Hg Hq) as [Hr' Hs']. split; [done|]. intros t Ht. eapply bits_in_trans; [|by apply Hs'].
    destruct (Z.lt_trichotomy t i) as [Hlt|[->|Hlt]].
    + unfold window. rewrite (proj2 (Z.ltb_lt t (i + 1))), (proj2 (Z.eqb_neq t i)), (proj2 (Z.ltb_lt t i)) by lia. by intros ?.
    + unfold window. rewrite (proj2 (Z.ltb_lt i (i + 1))), !Z.eqb_refl, (proj2 (Z.ltb_ge i i)) by lia. by intros ?.
    + rewrite Hw by done. unfold window. rewrite (proj2 (Z.ltb_ge t i)), (proj2 (Z.eqb_neq t i)) by lia.
      destruct (t =? i + 1); [|apply Hsh]. eapply bits_in_trans; [apply bits_in_land_r|apply Hsh].
Qed.

(** The end of a program that is checked. *)
Definition ends (filter : list sock_filter) : Prop :=
  exists f o, filter.[zlen filter - 1] = Some f /\ op_of (code f) = Some o /\ (o = BPF_S_RET_K \/ o = BPF_S_RET_A).

Lemma succs_range filter i f o t : all_checked filter -> ends filter -> filter.[i] = Some f -> op_of (code f) = Some o -> t ∈ succs i f o ->
  i < t < zlen filter.
Proof.
  intros Hck (fl & ol & Hfl & Hol & Hret) Hf Ho Ht. destruct (Hck i f Hf) as (_ & o' & Ho' & Hc). rewrite Ho in Ho'. injection Ho' as <-.
  pose proof (arr_get_range _ _ _ Hf) as Hi. assert (Hnext : t = i + 1 -> o <> BPF_S_RET_K -> o <> BPF_S_RET_A -> i < t < zlen filter).
  { intros -> H1 H2. enough (i <> zlen filter - 1) by lia. intros ->. rewrite Hfl in Hf. injection Hf as ->. rewrite Hol in Ho. injection Ho as ->. tauto. }
  destruct o; cbn [succs is_branch] in *; rewrite ?elem_of_cons, ?elem_of_nil in Ht; try (by apply Hnext; [tauto|done|done]); try tauto; try lia.
Qed.

Lemma masks_shrink_refl masks : masks_shrink masks masks.
Proof. split; [done|]. by intros t i. Qed.

Lemma loads_step filter i masks memvalid V : all_checked filter -> ends filter -> zlen masks = zlen filter -> 0 <= i < zlen filter ->
  flow_upto filter V (window V i masks memvalid) i ->
  loads_body filter (zlen filter) (i, masks, memvalid) = Some (Done (- EINVAL)) \/
  exists masks' memvalid' V', loads_body filter (zlen filter) (i, masks, memvalid) = Some (Next (i + 1, masks', memvalid')) /\ zlen masks' = zlen filter /\
    V' i = Z.land memvalid (mask_at masks i) /\ (forall t, t < i -> V' t = V t) /\ flow_upto filter V' (window V' (i + 1) masks' memvalid') (i + 1).
Proof.
  intros Hck Hend Hlen Hi Hflow. unfold loads_body. rewrite (proj2 (Z.ltb_lt i _)) by lia.
  destruct (arr_get_is_Some masks i) as [m Hm]; [lia|]. destruct (arr_get_is_Some filter i Hi) as [f Hf]. rewrite Hm, Hf, !bind_Some.
  assert (Em : Z.land memvalid m = Z.land memvalid (mask_at masks i)) by (unfold mask_at; by rewrite Hm). rewrite Em. set (v := Z.land _ (mask_at _ _)) in *.
  destruct (Hck i f Hf) as (_ & o & Ho & Hc). rewrite Ho. pose proof (succs_range filter i f o) as Hrange. specialize (fun t => Hrange t Hck Hend Hf Ho).
  assert (Hnext : forall masks' memvalid', masks_shrink masks masks' -> reads_ok v f o ->
    (forall t, t ∈ succs i f o -> bits_in (if t =? i + 1 then Z.land memvalid' (mask_at masks' t) else mask_at masks' t) (written v f o)) ->
    exists masks'' memvalid'' V', Some (Next (R := Z) (i + 1, masks', memvalid')) = Some (Next (i + 1, masks'', memvalid'')) /\ zlen masks'' = zlen filter /\
      V' i = v /\ (forall t, t < i -> V' t = V t) /\ flow_upto filter V' (window V' (i + 1) masks'' memvalid'') (i + 1)).
  { intros masks' memvalid' Hsh Hr Hs. destruct (flow_step filter V i masks masks' memvalid memvalid' f o v Hflow Hf Ho Hsh eq_refl Hr) as (V' & H1 & H2 & H3).
    - intros t Ht. split; [by apply Hrange|by apply Hs].
    - exists masks', memvalid', V'. split_and!; try done. by rewrite (proj1 Hsh). }
  assert (Hfall : forall memvalid', memvalid' = written v f o -> reads_ok v f o -> succs i f o = [i + 1] \/ succs i f o = [] ->
    exists masks'' memvalid'' V', Some (Next (R := Z) (i + 1, masks, memvalid')) = Some (Next (i + 1, masks'', memvalid'')) /\ zlen masks'' = zlen filter /\
      V' i = v /\ (forall t, t < i -> V' t = V t) /\ flow_upto filter V' (window V' (i + 1) masks'' memvalid'') (i + 1)).
  { intros memvalid' -> Hr Hsucc. apply Hnext; [apply masks_shrink_refl|done|]. intros t Ht. destruct Hsucc as [E|E]; rewrite E in Ht; [|by apply elem_of_nil in Ht].
    apply list_elem_of_singleton in Ht as ->. rewrite Z.eqb_refl. apply bits_in_land_l. }
  clear Hflow. destruct (is_branch o) eqn:Hb.
  { right. assert (Hc' : (0 <= jt f /\ i + 1 + jt f < zlen filter) /\ (0 <= jf f /\ i + 1 + jf f < zlen filter)) by (by destruct o).
    destruct (and_mask_ok masks (i + 1 + jt f) v) as (m1 & E1 & Hs1 & Hb1); [lia|].
    destruct (and_mask_ok m1 (i + 1 + jf f) v) as (m2 & E2 & Hs2 & Hb2); [rewrite (proj1 Hs1); lia|].
    assert (Hsucc : succs i f o = [i + 1 + jt f; i + 1 + jf f] /\ written v f o = v /\ reads_ok v f o) by (by destruct o). destruct Hsucc as (Es & Ew & Hr).
    destruct (Hnext m2 (u16 (Z.lnot 0))) as (x & y & z & Hx); [by eapply masks_shrink_trans|done| |].
    - rewrite Es, Ew. intros t Ht. rewrite !elem_of_cons, elem_of_nil in Ht.
      assert (bits_in (mask_at m2 t) v) by (destruct Ht as [->|[->|[]]]; [eapply bits_in_trans; [apply Hs2|done]|done]).
      destruct (t =? i + 1); [|done]. eapply bits_in_trans; [apply bits_in_land_r|done].
    - exists x, y, z. rewrite <-(proj1 Hx). split; [|apply Hx]. destruct o; try done; by rewrite E1, bind_Some, E2, bind_Some. }
  destruct o; try done; try (right; apply Hfall; first [done | by left | by right]).
  - destruct (truth (Z.land v (Z.shiftl 1 (k f)))) eqn:E; cbn [negb]; [|by left]. right. apply Hfall; [done| |by left]. cbn. apply land_bit_set; [apply Hc|done].
  - destruct (truth (Z.land v (Z.shiftl 1 (k f)))) eqn:E; cbn [negb]; [|by left]. right. apply Hfall; [done| |by left]. cbn. apply land_bit_set; [apply Hc|done].
  - right. destruct (and_mask_ok masks (i + 1 + k f) v) as (m1 & -> & Hs1 & Hb1); [lia|]. rewrite bind_Some. apply Hnext; [done..|].
    intros t Ht. cbn in Ht. apply list_elem_of_singleton in Ht as ->. cbn [written]. destruct (_ =? _); [|done]. eapply bits_in_trans; [apply bits_in_land_r|done].
Qed.

(** What the second loop has found out: the cells that are written whenever an instruction is reached. *)
Definition flow (filter : list sock_filter) (V : Z -> Z) : Prop := V 0 = 0 /\ forall i f o, filter.[i] = Some f -> op_of (code f) = Some o ->
  reads_ok (V i) f o /\ forall t, t ∈ succs i f o -> bits_in (V t) (written (V i) f o).

Lemma loads_ok filter : all_checked filter -> ends filter -> exists e, check_load_and_stores true filter (zlen filter) = Some e /\
  (e = - EINVAL \/ e = 0 /\ exists V, flow filter V).
Proof.
  intros Hck Hend. unfold check_load_and_stores. cbn [negb]. pose proof (zlen_nonneg filter) as Hpos.
  destruct (loop_total (loads_body filter (zlen filter))
    (fun '(i, masks, memvalid) => 0 <= i <= zlen filter /\ zlen masks = zlen filter /\
       exists V, flow_upto filter V (window V i masks memvalid) i /\ window V i masks memvalid 0 = 0)
    (fun '(i, _, _) => zlen filter - i) (fun e => e = - EINVAL \/ e = 0 /\ exists V, flow filter V))
    with (bound := zlen filter + 1) (s := (0, repeat 0xffff (Z.to_nat (zlen filter)), 0)) as (e & He & Hq).
  - intros [[i masks] memvalid] (Hi & Hlen & V & Hflow & H0). unfold body_ok. split; [lia|]. destruct (Z.ltb_spec i (zlen filter)).
    + destruct (loads_step filter i masks memvalid V Hck Hend Hlen ltac:(lia) Hflow) as [->|(masks' & memvalid' & V' & -> & Hlen' & H1 & H2 & Hflow')]; [by left|].
      split; [|lia]. split; [lia|]. split; [done|]. exists V'. split; [done|]. unfold window in *. rewrite (proj2 (Z.ltb_lt 0 (i + 1))) by lia.
      destruct (decide (i = 0)) as [->|]; [by rewrite H1|]. rewrite (proj2 (Z.ltb_lt 0 i)) in H0 by lia. rewrite H2 by lia. done.
    + unfold loads_body. rewrite (proj2 (Z.ltb_ge i _)) by lia. right. split; [done|]. exists V. split.
      * destruct Hend as (f & o & Hf & _). apply arr_get_range in Hf. unfold window in H0. by rewrite (proj2 (Z.ltb_lt 0 i)) in H0 by lia.
      * intros j f o Hf Ho. pose proof (arr_get_range _ _ _ Hf). destruct (Hflow j f o ltac:(lia) Hf Ho) as [Hr Hs]. split; [done|].
        intros t Ht. specialize (Hs t Ht). unfold window in Hs. pose proof (succs_range filter j f o t Hck Hend Hf Ho Ht).
        by rewrite (proj2 (Z.ltb_lt t i)) in Hs by lia.
  - split; [lia|]. split; [unfold zlen; rewrite repeat_length; lia|]. exists (fun _ => 0). split; [|done].
    intros j f o Hj Hf. apply arr_get_range in Hf. lia.
  - lia.
  - exists e. split; [done|exact Hq].
Qed.

(** What an accepted program is. *)
Definition accepted (filter : list sock_filter) : Prop := all_checked filter /\ ends filter /\ exists V, flow filter V.

Lemma chk_filter_ok alloc filter : Forall wf_insn filter -> exists e filter', sk_chk_filter alloc filter (zlen filter) = Some (e, filter') /\
  (e = 0 /\ zlen filter' = zlen filter /\ accepted filter' \/ e = - EINVAL \/ e = - ENOMEM /\ alloc = false).
Proof.
  intros Hwf. unfold sk_chk_filter. destruct ((zlen filter =? 0) || (BPF_MAXINSNS <? zlen filter)) eqn:E; [eexists _, _; split; [done|auto]|].
  apply orb_false_iff in E as [E1%Z.eqb_neq E2%Z.ltb_ge]. pose proof (zlen_nonneg filter).
  destruct (chk_loop_ok filter (zlen filter) eq_refl ltac:(lia) Hwf) as (e & filter' & -> & He). rewrite bind_Some.
  destruct He as [->|(-> & Hlen & Hck)]; [by eexists _, _; split; [done|auto]|]. cbn [negb Z.eqb].
  destruct (arr_get_is_Some filter' (zlen filter - 1)) as [f Hf]; [lia|]. rewrite Hf, bind_Some. rewrite <-Hlen in Hf.
  destruct (op_of (code f)) as [o|] eqn:Ho; [|by eexists _, _; split; [done|auto]].
  destruct (decide (o = BPF_S_RET_K \/ o = BPF_S_RET_A)) as [Hret|Hret].
  - assert (Hend : ends filter') by (by exists f, o). destruct alloc.
    + destruct (loads_ok filter' Hck Hend) as (e & He & Hq). rewrite Hlen in He. exists e, filter'. split; [by destruct Hret as [-> | ->]; rewrite He|].
      destruct Hq as [->|[-> HV]]; [auto|]. left. by split_and!.
    + exists (- ENOMEM), filter'. split; [by destruct Hret as [-> | ->]|auto].
  - exists (- EINVAL), filter'. split; [destruct o; try done; tauto|auto].
Qed.
