(* ===== verification/BpfRun.v ===== *)
(** * Socket filters: running a program that has been checked

    The proof that a program which sk_chk_filter() of Bpf.v has accepted runs
    to its end: every instruction has an effect that depends on the registers and on cells that
    are written, and moves on to one of the instructions behind it. *)

From S2P Require Import Prelude Arith Uaccess Skb Bpf.

(** ** Values of 32 bits *)

Definition is_u32 (x : Z) : Prop := 0 <= x < 2 ^ 32.

Lemma is_u32_wrap x : is_u32 (u32 x).
Proof. apply u32_range. Qed.

Lemma is_u32_log2 x : is_u32 x <-> 0 <= x /\ Z.log2 x < 32.
Proof.
  unfold is_u32. destruct (Z.eqb_spec x 0) as [->|]; [done|]. split; intros [? ?]; (split; [done|]).
  - apply Z.log2_lt_pow2; lia.
  - apply Z.log2_lt_pow2; lia.
Qed.

Lemma is_u32_mask a b : 0 <= a -> is_u32 b -> is_u32 (Z.land a b).
Proof.
  rewrite !is_u32_log2. intros Ha [Hb ?]. split; [apply Z.land_nonneg; lia|]. pose proof (Z.log2_land a b Ha Hb). lia.
Qed.

Lemma is_u32_land a b : is_u32 a -> is_u32 b -> is_u32 (Z.land a b).
Proof. intros [Ha _]. by apply is_u32_mask. Qed.

Lemma is_u32_lor a b : is_u32 a -> is_u32 b -> is_u32 (Z.lor a b).
Proof.
  rewrite !is_u32_log2. intros [Ha ?] [Hb ?]. split; [apply Z.lor_nonneg; lia|]. rewrite Z.log2_lor by done. lia.
Qed.

Lemma be_bytes_range b : Forall (fun x => 0 <= x < 256) b -> 0 <= be_bytes b < 256 ^ zlen b.
Proof.
  unfold be_bytes. induction b as [|x b IH] using rev_ind; intros H; [done|]. apply Forall_app in H as [Hb Hx]. apply Forall_inv in Hx.
  specialize (IH Hb). rewrite foldl_snoc, zlen_app. change (zlen [x]) with 1. rewrite Z.pow_add_r by (try apply zlen_nonneg; lia). lia.
Qed.

Lemma is_u32_ntohs x : 0 <= x -> is_u32 (ntohs x).
Proof.
  intros Hx. apply is_u32_lor; (apply is_u32_mask; [|done]); [by apply Z.shiftl_nonneg|by apply Z.shiftr_nonneg].
Qed.

(** The fields of the packet's head are of their types. *)
Definition wf_meta (skb : sk_buff) : Prop :=
  is_u32 (skb_pkt_type skb) /\ is_u32 (skb_protocol skb) /\ is_u32 (skb_rxhash skb) /\ is_u32 (skb_queue_mapping skb) /\ is_u32 (skb_mark skb) /\
  match skb_dev skb with Some d => is_u32 (dev_type d) | None => True end.

Lemma loaded_bytes skb off size b : wf_skb skb -> 0 < size <= 4 -> loaded skb off size = Some b -> is_u32 (be_bytes b).
Proof.
  intros Hw Hs Hb. apply wf_parts in Hw as [Ha _]. pose proof Ha as (Hh & Ht & _ & _ & _ & _ & _ & Hlen & Hlin & Hpk).
  assert (Hbytes : Forall (fun x => 0 <= x < 256) b /\ zlen b = size).
  { unfold loaded, header_bytes, skb_tail_pointer in *. repeat case_match; simplify_eq; (split; [by apply Forall_sub|]);
      (apply zlen_sub; [|lia|]); repeat match goal with H : (_ && _) = true |- _ => apply andb_true_iff in H as [?%Z.leb_le ?%Z.leb_le] | H : (_ <=? _) = true |- _ => apply Z.leb_le in H end; lia. }
  destruct Hbytes as [Hb' Hz]. pose proof (be_bytes_range b Hb') as Hr. rewrite Hz in Hr. unfold is_u32.
  pose proof (Z.pow_le_mono_r 256 size 4 ltac:(lia) ltac:(lia)). lia.
Qed.

(** ** Netlink attributes *)

Lemma read_u16_ok skb addr : wf_area skb -> skb_head skb <= addr -> addr + 2 <= skb_tail_pointer skb -> exists v, read_u16 skb addr = Some v /\ 0 <= v < 2 ^ 16.
Proof.
  intros Ha Hlo Hhi. unfold read_u16, skb_tail_pointer in *. rewrite peek_sub, bind_Some by lia.
  assert (Hb : Forall (fun b => 0 <= b < 256) (sub (skb_linear skb) (addr - skb_head skb) 2)) by (apply Forall_sub, Ha).
  assert (Hz : zlen (sub (skb_linear skb) (addr - skb_head skb) 2) = 2) by (apply zlen_sub; lia).
  destruct (sub _ _ _) as [|x [|y [|z l]]]; try (unfold zlen in Hz; cbn in Hz; lia). cbn. eexists. split; [done|].
  apply list.Forall_cons in Hb as [Hx Hb]. apply list.Forall_cons in Hb as [Hy _]. lia.
Qed.

Lemma align_range n : 4 <= n -> n <= NLA_ALIGN n < n + 4.
Proof.
  intros Hn. unfold NLA_ALIGN. change (Z.lnot (4 - 1)) with (Z.lnot (Z.ones 2)). rewrite <-Z.ldiff_land, Z.ldiff_ones_r by lia.
  rewrite Z.shiftr_div_pow2, Z.shiftl_mul_pow2 by lia. change (2 ^ 2) with 4. zlia.
Qed.

(** A search that begins within the packet stays there. *)
Lemma nla_find_ok skb nla rem attrtype : wf_area skb -> skb_head skb <= nla -> nla + rem <= skb_tail_pointer skb -> nla < 2 ^ 32 ->
  exists r, nla_find skb nla rem attrtype = Some r.
Proof.
  intros Ha Hlo Hhi Htop. assert (Hsp : skb_tail_pointer skb + 2 ^ 21 + 4 <= 2 ^ 32) by apply Ha. unfold nla_find.
  destruct (loop_total (nla_find_body skb attrtype) (fun '(p, n) => skb_head skb <= p /\ p + n <= skb_tail_pointer skb) (fun '(_, n) => Z.max 0 n) (fun _ => True))
    with (bound := Z.max 0 rem + 1) (s := (nla, rem)) as (r & Hr & _); [|done|lia|by exists r].
  assert (Hhead : 0 < skb_head skb) by apply Ha.
  intros [p n] [Hp Hn]. unfold body_ok. split; [lia|]. unfold nla_find_body, nla_ok, nla_type, nla_next, nla_len_field. destruct (Z.leb_spec 4 n); [|done].
  destruct (read_u16_ok skb p Ha) as (l & -> & Hl); [lia..|]. rewrite !bind_Some. destruct (Z.leb_spec 4 l), (Z.leb_spec l n); cbn [andb]; try done.
  rewrite (ulong_small (p + 2)) by lia. destruct (read_u16_ok skb (p + 2) Ha) as (t & -> & _); [lia..|]. rewrite !bind_Some. destruct (_ =? attrtype); [done|].
  pose proof (align_range l ltac:(lia)). rewrite ulong_small by lia. lia.
Qed.

(** The two searches need this of a packet: the first one, that the packet is not shorter than the head of an attribute; the second one is
    not safe on any packet whose attributes lie about their length. *)
Definition attrs_ok (skb : sk_buff) (o : bpf_op) : Prop :=
  match o with
  | BPF_S_ANC_NLATTR => skb_is_nonlinear skb = true \/ 4 <= skb_len skb
  | BPF_S_ANC_NLATTR_NEST => skb_is_nonlinear skb = true
  | _ => True
  end.

Lemma nlattr_found skb a x : wf_skb skb -> skb_is_nonlinear skb = false -> 4 <= skb_len skb -> is_u32 a -> a <= u32 (skb_len skb - 4) ->
  exists r, nla_find skb (ulong (skb_data skb + a)) (s32 (skb_len skb - a)) x = Some r.
Proof.
  intros Hw Hlin Hlen Ha Hle. apply wf_parts in Hw as [Hw _]. pose proof Hw as (Hh & Ht & Hsp & _ & _ & Hd & Hl & _).
  rewrite u32_small in Hle by lia. unfold is_u32 in Ha. unfold skb_is_nonlinear, truth in Hlin. apply negb_false_iff, Z.eqb_eq in Hlin.
  assert (Hhl : skb_headlen skb = skb_len skb) by (unfold skb_headlen; rewrite Hlin, u32_small by lia; lia). rewrite Hhl in Ht.
  rewrite ulong_small, s32_small by lia. apply nla_find_ok; [done|lia..].
Qed.

(** ** One instruction *)

(** The effect of an instruction that leaves the cells alone: a result, or the next state of the registers. *)
Definition effect : Type := (Z + Z * Z * Z)%type.
Definition apply_effect (e : effect) (m : list Z) : step bpf_state Z :=
  match e with inl r => Done r | inr (p, a, x) => Next {| pc := p; A := a; X := x; mem := m |} end.
Definition effect_ok (i : Z) (f : sock_filter) (o : bpf_op) (e : effect) : Prop :=
  match e with inl r => is_u32 r | inr (p, a, x) => p ∈ succs i f o /\ is_u32 a /\ is_u32 x end.

Definition uses_mem (o : bpf_op) : bool :=
  match o with BPF_S_LD_MEM | BPF_S_LDX_MEM | BPF_S_ST | BPF_S_STX => true | _ => false end.

Lemma load_effect skb off size i f o a x : wf_skb skb -> 0 < size <= 4 -> is_u32 x -> i + 1 ∈ succs i f o ->
  exists e, effect_ok i f o e /\ forall m, load skb off size {| pc := i; A := a; X := x; mem := m |} = Some (apply_effect e m).
Proof.
  intros Hw Hs Hx Hi. unfold load. rewrite load_pointer_loaded by done. destruct (loaded skb off size) as [b|] eqn:Hb.
  - exists (inr (i + 1, be_bytes b, x)). split; [|done]. split_and!; [done|by eapply loaded_bytes|done].
  - exists (inl 0). by split.
Qed.

Lemma succs_next i f o : is_branch o = false -> o <> BPF_S_JMP_JA -> o <> BPF_S_RET_K -> o <> BPF_S_RET_A -> i + 1 ∈ succs i f o.
Proof. intros. destruct o; try done; cbn; left. Qed.

Ltac solve_u32 := first [assumption | apply is_u32_wrap | apply is_u32_land; solve_u32 | apply is_u32_lor; solve_u32 | (unfold is_u32 in *; lia)].

Lemma op_effect mach skb i f o a x : wf_skb skb -> wf_meta skb -> attrs_ok skb o -> is_u32 (k f) -> is_u32 a -> is_u32 x -> uses_mem o = false ->
  exists e, effect_ok i f o e /\ forall m, run_op mach skb f {| pc := i; A := a; X := x; mem := m |} o = Some (apply_effect e m).
Proof.
  intros Hw (Hm1 & Hm2 & Hm3 & Hm4 & Hm5 & Hm6) Hattr Hk Ha Hx Ho.
  assert (Hlen : is_u32 (skb_len skb)) by (apply wf_parts in Hw as [(_ & _ & _ & _ & _ & Hd & Hl & _) _]; unfold is_u32; lia).
  assert (Hret : forall r, is_u32 r -> exists e, effect_ok i f o e /\ forall m, Some (Done (S := bpf_state) r) = Some (apply_effect e m)) by (intros r Hr; by exists (inl r)).
  assert (Hset : forall a' x', is_u32 a' -> is_u32 x' -> i + 1 ∈ succs i f o ->
    exists e, effect_ok i f o e /\ forall m, Some (Next (R := Z) {| pc := i + 1; A := a'; X := x'; mem := m |}) = Some (apply_effect e m))
    by (intros a' x' ? ? ?; by exists (inr (i + 1, a', x'))).
  assert (Hjmp : forall off, i + off + 1 ∈ succs i f o ->
    exists e, effect_ok i f o e /\ forall m, Some (Next (R := Z) {| pc := i + off + 1; A := a; X := x; mem := m |}) = Some (apply_effect e m))
    by (intros off ?; by exists (inr (i + off + 1, a, x))).
  destruct o; try done; unfold run_op, next, jump, set_A, set_X; cbn [A X mem pc].
  all: try (apply Hret; solve_u32).
  all: try (apply Hset; [solve_u32..|by apply succs_next]).
  all: try (apply Hjmp; cbn; rewrite ?elem_of_cons, ?elem_of_nil; repeat case_match; lia).
  all: try (apply load_effect; [done|lia|done|by apply succs_next]).
  - destruct (Z.eqb_spec x 0); [by apply Hret|]. apply Hset; [|done|by apply succs_next]. unfold is_u32 in *.
    split; [apply Z.div_pos; lia|]. apply (Z.le_lt_trans _ a); [apply Z.div_le_upper_bound; nia|lia].
  - rewrite load_pointer_loaded by (done || lia). cbn [mbind option_bind]. destruct (loaded skb (s32 (k f)) 1) as [b|] eqn:Hb; [|by apply Hret].
    apply Hset; [done| |by apply succs_next]. change 15 with (Z.ones 4). rewrite Z.land_ones, Z.shiftl_mul_pow2 by lia. unfold is_u32. zlia.
  - apply Hset; [|done|by apply succs_next]. apply is_u32_ntohs. apply Hm2.
  - destruct (skb_dev skb); [|by apply Hret]. apply Hset; [solve_u32|done|by apply succs_next].
  - unfold nlattr, next, set_A. cbn [A X pc mem]. destruct (skb_is_nonlinear skb) eqn:Hlin; [by apply Hret|]. destruct Hattr as [?|Hmin]; [congruence|].
    destruct (Z.ltb_spec (u32 (skb_len skb - 4)) a); [by apply Hret|]. destruct (nlattr_found skb a (s32 x) Hw Hlin Hmin Ha) as [r ->]; [done|].
    cbn [mbind option_bind]. apply Hset; [destruct (truth r); [apply is_u32_wrap|done]|done|by apply succs_next].
  - unfold nlattr_nest. cbn in Hattr. rewrite Hattr. by apply Hret.
  - destruct (skb_dev skb); [|by apply Hret]. apply Hset; [done|done|by apply succs_next].
Qed.

(** ** A whole run *)

(** Two arrays have the same contents in the cells of a set. *)
Definition agree (v : Z) (m m' : list Z) : Prop :=
  zlen m = BPF_MEMWORDS /\ zlen m' = BPF_MEMWORDS /\ Forall is_u32 m /\ forall i, 0 <= i < BPF_MEMWORDS -> Z.testbit v i = true -> m.[i] = m'.[i].

(** Two states that differ only in cells that are not written yet. *)
Definition similar (V : Z -> Z) (s s' : bpf_state) : Prop :=
  pc s' = pc s /\ A s' = A s /\ X s' = X s /\ is_u32 (A s) /\ is_u32 (X s) /\ agree (V (pc s)) (mem s) (mem s').

Lemma agree_sub v v' m m' : bits_in v' v -> agree v m m' -> agree v' m m'.
Proof. intros Hb (H1 & H2 & H3 & H4). split_and!; [done..|]. intros i Hi Ht. by apply H4, Hb. Qed.

Lemma arr_set_ok {T} (l : list T) i x : 0 <= i < zlen l -> l.[i <- x] = Some (<[Z.to_nat i := x]> l).
Proof. intros Hi. unfold arr_set. by rewrite (proj2 (Z.leb_le 0 i)), (proj2 (Z.ltb_lt i _)) by (unfold zlen in *; lia). Qed.

Lemma agree_store v m m' i x : 0 <= i < BPF_MEMWORDS -> is_u32 x -> agree v m m' ->
  agree (u16 (Z.lor v (Z.shiftl 1 i))) (<[Z.to_nat i := x]> m) (<[Z.to_nat i := x]> m').
Proof.
  intros Hi Hx (H1 & H2 & H3 & H4). split_and!; [by rewrite zlen_insert..|by apply Forall_insert|].
  intros j Hj Ht. rewrite !arr_get_insert by lia. case_decide as Hd; [done|]. apply H4; [done|].
  unfold u16 in Ht. rewrite Z.mod_pow2_bits_low, Z.lor_spec, Z.shiftl_1_l, Z.pow2_bits_eqb in Ht by (unfold BPF_MEMWORDS in *; lia).
  apply orb_true_iff in Ht as [?|?%Z.eqb_eq]; [done|lia].
Qed.

(** Instructions on a program that is accepted, in two similar states. *)
Lemma bpf_step mach skb filter V s s' : wf_skb skb -> wf_meta skb -> all_checked filter -> flow filter V ->
  (forall i f o, filter.[i] = Some f -> op_of (code f) = Some o -> attrs_ok skb o) -> 0 <= pc s < zlen filter -> similar V s s' ->
  (exists r, run_body mach skb filter s = Some (Done r) /\ run_body mach skb filter s' = Some (Done r) /\ is_u32 r) \/
  (exists t t', run_body mach skb filter s = Some (Next t) /\ run_body mach skb filter s' = Some (Next t') /\ similar V t t' /\
     exists f o, filter.[pc s] = Some f /\ op_of (code f) = Some o /\ pc t ∈ succs (pc s) f o).
Proof.
  intros Hw Hm Hck [_ Hflow] Hattr Hpc Hsim. destruct s as [i a x m], s' as [i' a' x' m']. unfold similar in Hsim. cbn [pc A X mem] in *. destruct Hsim as (-> & -> & -> & Ha & Hx & Hag).
  destruct (arr_get_is_Some filter i Hpc) as [f Hf]. destruct (Hck i f Hf) as (Hk & o & Ho & Hc). destruct (Hflow i f o Hf Ho) as [Hr Hs].
  unfold run_body. cbn [pc]. rewrite Hf, !bind_Some, Ho. pose proof (Hattr i f o Hf Ho) as Hat.
  assert (Hsim' : forall p a x m m', p ∈ succs i f o -> is_u32 a -> is_u32 x -> agree (written (V i) f o) m m' ->
    similar V {| pc := p; A := a; X := x; mem := m |} {| pc := p; A := a; X := x; mem := m' |}).
  { intros p b y n n' Hp Hb Hy Hn. unfold similar. cbn. split_and!; try done. eapply agree_sub; [by apply Hs|done]. }
  destruct (uses_mem o) eqn:Hu.
  - right. assert (Hn : i + 1 ∈ succs i f o) by (by destruct o; try done; apply succs_next). pose proof Hag as (Hz1 & Hz2 & Hu32 & Heq).
    assert (Hkm : 0 <= k f < BPF_MEMWORDS) by (by destruct o).
    assert (Hst : forall v, is_u32 v -> written (V i) f o = u16 (Z.lor (V i) (Z.shiftl 1 (k f))) ->
      similar V {| pc := i + 1; A := a; X := x; mem := <[Z.to_nat (k f) := v]> m |} {| pc := i + 1; A := a; X := x; mem := <[Z.to_nat (k f) := v]> m' |}).
    { intros v Hv E. apply Hsim'; [done..|]. rewrite E. by apply agree_store. }
    assert (Hld : Z.testbit (V i) (k f) = true -> exists v, m.[k f] = Some v /\ m'.[k f] = Some v /\ is_u32 v).
    { intros Ht. destruct (arr_get_is_Some m (k f)) as [v Hv]; [lia|]. exists v. rewrite <-Heq by done. split_and!; [done..|].
      apply arr_get_Some in Hv as [_ Hv]. by eapply Forall_lookup_1. }
    destruct o; try done; cbn [run_op set_mem mem A X].
    + destruct (Hld Hr) as (v & -> & -> & Hv). eexists _, _. rewrite !bind_Some. split_and!; [done|done| |by exists f, BPF_S_LD_MEM]. by apply Hsim'.
    + destruct (Hld Hr) as (v & -> & -> & Hv). eexists _, _. rewrite !bind_Some. split_and!; [done|done| |by exists f, BPF_S_LDX_MEM]. by apply Hsim'.
    + unfold set_mem. cbn [mem]. rewrite !arr_set_ok by lia. eexists _, _. rewrite !bind_Some. split_and!; [done|done|by apply Hst|by exists f, BPF_S_ST].
    + unfold set_mem. cbn [mem]. rewrite !arr_set_ok by lia. eexists _, _. rewrite !bind_Some. split_and!; [done|done|by apply Hst|by exists f, BPF_S_STX].
  - destruct (op_effect mach skb i f o a x Hw Hm Hat Hk Ha Hx Hu) as ([r|[[p b] y]] & He & Hrun); rewrite !Hrun; cbn [apply_effect].
    + left. by exists r.
    + right. destruct He as (Hp & Hb & Hy). eexists _, _. split_and!; [done|done| |by exists f, o]. apply Hsim'; [done..|].
      assert (written (V i) f o = V i) as -> by (by destruct o). done.
Qed.

Lemma run_steps_ok mach skb filter V : wf_skb skb -> wf_meta skb -> all_checked filter -> ends filter -> flow filter V ->
  (forall i f o, filter.[i] = Some f -> op_of (code f) = Some o -> attrs_ok skb o) ->
  forall n s s', 0 <= pc s -> zlen filter - pc s = Z.of_nat n -> (0 < n)%nat -> similar V s s' ->
  exists j t t' r, (j < n)%nat /\ steps (run_body mach skb filter) j s = Some t /\ steps (run_body mach skb filter) j s' = Some t' /\
    run_body mach skb filter t = Some (Done r) /\ run_body mach skb filter t' = Some (Done r) /\ is_u32 r.
Proof.
  intros Hw Hm Hck Hend Hflow Hattr. induction n as [n IH] using lt_wf_ind. intros s s' Hpc Hn Hpos Hsim.
  destruct (bpf_step mach skb filter V s s' Hw Hm Hck Hflow Hattr ltac:(lia) Hsim) as [(r & H1 & H2 & Hr)|(t & t' & H1 & H2 & Hsim' & f & o & Hf & Ho & Hin)].
  - exists O, s, s', r. by split_and!.
  - pose proof (succs_range filter (pc s) f o (pc t) Hck Hend Hf Ho Hin) as Hrange.
    destruct (IH (Z.to_nat (zlen filter - pc t)) ltac:(lia) t t' ltac:(lia) ltac:(lia) ltac:(lia) Hsim') as (j & u & u' & r & Hj & Hs & Hs' & Hrest).
    exists (S j), u, u', r. split; [lia|]. cbn [steps]. rewrite H1, H2. exact (conj Hs (conj Hs' Hrest)).
Qed.

(** The program may be run on the packet: the instructions that look for attributes find a packet they are safe on. *)
Definition runs_on (filter : list sock_filter) (skb : sk_buff) : Prop :=
  wf_skb skb /\ wf_meta skb /\ forall i f o, filter.[i] = Some f -> op_of (code f) = Some o -> attrs_ok skb o.

Lemma accepted_runs mach skb filter m m' : accepted filter -> runs_on filter skb -> zlen m = BPF_MEMWORDS -> zlen m' = BPF_MEMWORDS -> Forall is_u32 m ->
  exists r, sk_run_filter mach skb filter m = Some r /\ sk_run_filter mach skb filter m' = Some r /\ is_u32 r.
Proof.
  intros (Hck & Hend & V & Hflow) (Hw & Hmeta & Hattr) Hm Hm' Hu.
  assert (Hpos : 0 < zlen filter) by (destruct Hend as (f & o & Hf & _); apply arr_get_range in Hf; lia).
  destruct (run_steps_ok mach skb filter V Hw Hmeta Hck Hend Hflow Hattr (Z.to_nat (zlen filter))
    {| pc := 0; A := 0; X := 0; mem := m |} {| pc := 0; A := 0; X := 0; mem := m' |}) as (j & t & t' & r & Hj & H1 & H2 & H3 & H4 & Hr).
  - done.
  - cbn. lia.
  - lia.
  - unfold similar, agree. cbn [pc A X mem]. split_and!; try done. rewrite (proj1 Hflow). intros i Hi Ht. by rewrite Z.bits_0 in Ht.
  - exists r. unfold sk_run_filter. split_and!; [|by rewrite (loop_steps _ _ _ _ _ _ H2 H4) by lia|done].
    by rewrite (loop_steps _ _ _ _ _ _ H1 H3) by lia.
Qed.

(** ** The properties *)

(** C2: the checker always has a result, and rejects with EINVAL, or with ENOMEM when there is no memory for its table. A program it accepts
    can be run without any check on every packet: the run ends after at most as many steps
    as the program has instructions, never reads outside of the program, the scratch cells and the packet, and its result is a
    32-bit number that does not depend on what the scratch cells held before - no kernel memory leaks into it.
    The instructions that search for netlink attributes are excepted on packets shorter than 4 bytes, those for nested attributes always. *)
Theorem sk_filter_safe alloc filter : Forall wf_insn filter -> exists e filter', sk_chk_filter alloc filter (zlen filter) = Some (e, filter') /\
  (e = 0 \/ e = - EINVAL \/ e = - ENOMEM /\ alloc = false) /\
  (e = 0 -> forall mach skb m m', runs_on filter' skb -> zlen m = BPF_MEMWORDS -> zlen m' = BPF_MEMWORDS -> Forall is_u32 m ->
     exists r, sk_run_filter mach skb filter' m = Some r /\ sk_run_filter mach skb filter' m' = Some r /\ is_u32 r).
Proof.
  intros Hwf. destruct (chk_filter_ok alloc filter Hwf) as (e & filter' & He & Hcase). exists e, filter'. split; [done|].
  destruct Hcase as [(-> & _ & Hacc)|Hcase].
  - split; [by left|]. intros _ mach skb m m'. by apply accepted_runs.
  - split; [by right|]. intros ->. by destruct Hcase as [?|[? _]].
Qed.

(** ** What the checker does not see *)

(** A packet in one piece, at the address 4096. *)
Definition plain_packet (b : list Z) : sk_buff :=
  {| skb_dev := None; skb_len := zlen b; skb_data_len := 0; skb_pkt_type := 0; skb_protocol := 8; skb_rxhash := 0; skb_queue_mapping := 0; skb_mark := 0;
     network_header := 4096; mac_header := 4096; skb_head := 4096; skb_data := 4096; skb_linear := b; skb_frags := []; skb_frag_list := [] |}.
Definition stmt (c k' : Z) : sock_filter := {| code := c; jt := 0; jf := 0; k := k' |}.
Definition arm : machine := {| smp_processor_id := 0; shl_wide := fun _ _ => 0; shr_wide := fun _ _ => 0 |}.

(** Load the type of the protocol from an Ethernet head, keep packets of type 0x0800. *)
Definition only_ip : list sock_filter :=
  [stmt 0x28 12; {| code := 0x15; jt := 0; jf := 1; k := 0x800 |}; stmt 0x06 0xffff; stmt 0x06 0].

Definition only_ip_checked : list sock_filter :=
  [stmt (code_of BPF_S_LD_H_ABS) 12; {| code := code_of BPF_S_JMP_JEQ_K; jt := 0; jf := 1; k := 0x800 |};
   stmt (code_of BPF_S_RET_K) 0xffff; stmt (code_of BPF_S_RET_K) 0].
Definition ip_packet : list Z := repeat 0 12 ++ [8; 0; 0x45; 0].

Lemma plain_packet_wf b : Forall (fun x => 0 <= x < 256) b -> zlen b < 2 ^ 20 -> wf_skb (plain_packet b) /\ wf_meta (plain_packet b).
Proof.
  intros Hb Hl. pose proof (zlen_nonneg b). split; [|unfold wf_meta, is_u32; cbn; lia]. split; [change (wf_area (plain_packet b))|done].
  assert (Hp : packet (plain_packet b) = b) by (cbn; by rewrite app_nil_r, drop_0). unfold wf_area, skb_headlen, skb_tail_pointer. rewrite Hp.
  cbn [plain_packet skb_head skb_data skb_len skb_data_len skb_linear network_header mac_header]. unwrap. split_and!; (done || lia).
Qed.

Lemma sk_filter_safe_witness : sk_chk_filter true only_ip 4 = Some (0, only_ip_checked) /\
  exists r, sk_run_filter arm (plain_packet ip_packet) only_ip_checked (repeat 0 16) = Some r /\
    sk_run_filter arm (plain_packet ip_packet) only_ip_checked (repeat 1 16) = Some r /\ is_u32 r.
Proof.
  assert (Hc : sk_chk_filter true only_ip 4 = Some (0, only_ip_checked)) by (vm_compute; done). split; [done|].
  assert (Hwf : Forall wf_insn only_ip) by (repeat constructor; (lia || done)).
  destruct (sk_filter_safe true only_ip Hwf) as (e & filter' & He & _ & Hrun). change (zlen only_ip) with 4 in He. rewrite Hc in He. injection He as <- <-.
  apply (Hrun eq_refl); [|done|done|repeat constructor; (lia || done)].
  destruct (plain_packet_wf ip_packet) as [Hw Hm]; [repeat constructor; (lia || done)|done|]. split; [done|]. split; [done|].
  intros i f o Hf Ho. apply arr_get_Some in Hf as [_ Hf]. destruct (Z.to_nat i) as [|[|[|[|n]]]]; [..|done]; injection Hf as <-; injection Ho as <-; done.
Defined.


(** Division by a constant 1 is a multiplication by the reciprocal 2^32, which is 0 in 32 bits. *)
Example bpf_divides_by_one : exists filter', sk_chk_filter true [stmt 0x00 7; stmt 0x34 1; stmt 0x16 0] 3 = Some (0, filter') /\
  sk_run_filter arm (plain_packet []) filter' (repeat 0 16) = Some 0.
Proof. eexists. split; [vm_compute; reflexivity|vm_compute; reflexivity]. Qed.

(** ** Sockets *)

Lemma decode_ok n : forall b, Forall (fun x => 0 <= x < 256) b -> 8 * Z.of_nat n <= zlen b ->
  exists fs, decode_insns n b = Some fs /\ zlen fs = Z.of_nat n /\ Forall wf_insn fs.
Proof.
  induction n as [|n IH]; intros b Hb Hl; [by exists []|]. cbn [decode_insns].
  assert (Hlen : length (take 8 b) = 8%nat) by (rewrite length_take; unfold zlen in Hl; lia).
  assert (Hf : exists f, decode_insn (take 8 b) = Some f /\ wf_insn f).
  { pose proof (Forall_take _ 8 _ Hb) as Ht. destruct (take 8 b) as [|c0 [|c1 [|t [|f [|k0 [|k1 [|k2 [|k3 [|]]]]]]]]]; try done.
    repeat (apply list.Forall_cons in Ht as [? Ht]). eexists. split; [done|]. unfold wf_insn. cbn. lia. }
  destruct Hf as (f & -> & Hwf). rewrite bind_Some. destruct (IH (drop 8 b)) as (fs & -> & Hz & Hfs); [by apply Forall_drop| |].
  { change 8%nat with (Z.to_nat 8). rewrite zlen_drop by lia. lia. }
  rewrite bind_Some. exists (f :: fs). split; [done|]. rewrite zlen_cons. split; [lia|by constructor].
Qed.

(** What is charged to a socket: [base] for other options, and its filter, which has been accepted. *)
Definition filter_size (p : option sk_filter) : Z := match p with Some fp => sk_filter_len fp | None => 0 end.
Record sock_ok (optmem_max base : Z) (sk : sock) : Prop := {
  sock_charge : sk_omem_alloc sk = base + filter_size (sk_filter_ptr sk);
  sock_range : 0 <= base /\ sk_omem_alloc sk <= optmem_max /\ optmem_max + 2 ^ 20 < 2 ^ 31;
  sock_checked : forall fp, sk_filter_ptr sk = Some fp -> accepted (fp_insns fp) /\ fp_len fp = zlen (fp_insns fp) /\ 0 <= fp_len fp < 2 ^ 16
}.

Lemma filter_size_range optmem_max base sk : sock_ok optmem_max base sk -> 0 <= filter_size (sk_filter_ptr sk) < 2 ^ 20.
Proof.
  intros [_ _ H]. unfold filter_size. destruct (sk_filter_ptr sk) as [fp|]; [|lia]. destruct (H fp eq_refl) as (_ & _ & Hl).
  unfold sk_filter_len, sizeof_sock_filter, sizeof_sk_filter. lia.
Qed.

Section Attach.
Context (copy : list Z -> list Z -> Z -> option (list Z * Z)) `{!CopyFromUser copy} (optmem_max base : Z).

(** The program in user space arrives whole, or not at all. *)
Lemma copied_program dst b len : 0 <= len -> zlen dst = 8 * len -> Forall (fun x => 0 <= x < 256) b ->
  exists dst' n, copy dst b (8 * len) = Some (dst', n) /\
    (n <> 0 \/ n = 0 /\ exists fs, decode_insns (Z.to_nat len) dst' = Some fs /\ zlen fs = len /\ Forall wf_insn fs).
Proof.
  intros Hlen Hdst Hb. destruct (from_user_spec dst b (8 * len) ltac:(lia)) as (dst' & n & Hc & Hn & Hz & Hnb & Hcopy & _). exists dst', n. split; [done|].
  destruct (decide (n = 0)) as [->|]; [|by left]. right. split; [done|].
  assert (Hbytes : Forall (fun x => 0 <= x < 256) dst').
  { apply Forall_lookup_2. intros i x Hi. pose proof (lookup_lt_Some _ _ _ Hi).
    assert (Hi' : dst'.[Z.of_nat i] = Some x) by (rewrite arr_get_nat, Nat2Z.id by lia; done).
    rewrite Hcopy in Hi' by (unfold zlen in *; lia). apply arr_get_Some in Hi' as [_ Hi']. exact (Forall_lookup_1 _ _ _ _ Hb Hi'). }
  destruct (decode_ok (Z.to_nat len) dst' Hbytes) as (fs & Hfs & Hfl & Hwf); [lia|]. exists fs. rewrite Z2Nat.id in Hfl by lia. done.
Qed.

(** A charge is taken back. *)
Lemma uncharged sk size : 0 <= size < 2 ^ 20 -> sock_ok optmem_max base sk ->
  sock_kfree_s {| sk_omem_alloc := sk_omem_alloc sk + size; sk_filter_ptr := sk_filter_ptr sk |} size = sk.
Proof.
  intros Hs Hok. pose proof (filter_size_range _ _ _ Hok). destruct Hok as [Hch (Hb & Hle & Hmax) _]. unfold sock_kfree_s. cbn [sk_omem_alloc sk_filter_ptr].
  rewrite s32_small by lia. destruct sk as [o p]. cbn in *. f_equal. lia.
Qed.

(** The new program replaces the old one. *)
Lemma installed sk len fs : 0 <= len < 2 ^ 16 -> sock_ok optmem_max base sk -> sk_omem_alloc sk + (8 * len + 20) < optmem_max -> accepted fs -> zlen fs = len ->
  sock_ok optmem_max base (let sk1 := {| sk_omem_alloc := sk_omem_alloc sk + (8 * len + 20); sk_filter_ptr := Some {| fp_len := len; fp_insns := fs; fp_refcnt := 1 |} |} in
    match sk_filter_ptr sk with Some old => sk_filter_uncharge sk1 old | None => sk1 end).
Proof.
  intros Hlen Hok Hlt Hacc Hz. pose proof (filter_size_range _ _ _ Hok) as Hfs. destruct Hok as [Hch (Hb & Hle & Hmax) Hck].
  destruct (sk_filter_ptr sk) as [old|] eqn:Ep; cbn [filter_size] in *.
  - unfold sk_filter_uncharge, sock_kfree_s. cbn [sk_omem_alloc sk_filter_ptr]. rewrite s32_small by lia.
    split; cbn [sk_omem_alloc sk_filter_ptr filter_size]; [|lia|by intros fp [= <-]]. unfold sk_filter_len at 2. cbn [fp_len]. unfold sizeof_sock_filter, sizeof_sk_filter. lia.
  - split; cbn [sk_omem_alloc sk_filter_ptr filter_size]; [|lia|by intros fp [= <-]]. unfold sk_filter_len. cbn [fp_len]. unfold sizeof_sock_filter, sizeof_sk_filter. lia.
Qed.

Lemma attach_ok alloc alloc_masks sk dst len src :
  sock_ok optmem_max base sk -> 0 <= len < 2 ^ 16 -> zlen dst = 8 * len -> (forall b, src = Some b -> Forall (fun x => 0 <= x < 256) b) ->
  exists e sk', sk_attach_filter copy optmem_max alloc alloc_masks dst len src sk = Some (e, sk') /\ sock_ok optmem_max base sk' /\
     (e <> 0 /\ sk' = sk \/ e = 0 /\ exists fp, sk_filter_ptr sk' = Some fp /\ fp_len fp = len).
Proof.
  intros Hok Hlen Hdst Hsrc. pose proof (filter_size_range _ _ _ Hok) as Hfs. pose proof Hok as [Hch (Hb & Hle & Hmax) Hck].
  assert (Hfail : forall e, e <> 0 -> exists e' sk', Some (e, sk) = Some (e', sk') /\ sock_ok optmem_max base sk' /\
    (e' <> 0 /\ sk' = sk \/ e' = 0 /\ exists fp, sk_filter_ptr sk' = Some fp /\ fp_len fp = len)) by (intros e He; exists e, sk; auto).
  unfold sk_attach_filter, sizeof_sock_filter. destruct src as [b|]; [|by apply Hfail].
  rewrite u32_small by lia. unfold sock_kmalloc. change sizeof_sk_filter with 20. rewrite (u32_small (8 * len + 20)), s32_small by lia.
  destruct ((8 * len + 20 <=? optmem_max) && (sk_omem_alloc sk + (8 * len + 20) <? optmem_max) && alloc) eqn:E; cbn [negb]; [|by apply Hfail].
  apply andb_true_iff in E as [[E1%Z.leb_le E2%Z.ltb_lt]%andb_true_iff _]. pose proof (uncharged sk (8 * len + 20) ltac:(lia) Hok) as Hundo.
  destruct (copied_program dst b len ltac:(lia) Hdst (Hsrc b eq_refl)) as (dst' & n & -> & Hcase). rewrite bind_Some. unfold truth at 1.
  destruct Hcase as [Hn|(-> & fs & -> & Hz & Hwf)].
  { rewrite (proj2 (Z.eqb_neq n 0)) by done. cbn [negb]. rewrite Hundo. by apply Hfail. }
  cbn [Z.eqb negb]. rewrite bind_Some. destruct (chk_filter_ok alloc_masks fs Hwf) as (e & fs' & He & Hcase). rewrite Hz in He. rewrite He, bind_Some.
  destruct Hcase as [(-> & Hz' & Hacc)|Herr].
  - cbn [truth Z.eqb negb sk_filter_ptr sk_omem_alloc]. eexists _, _. split; [done|]. split; [apply installed; [done..|congruence]|]. right. split; [done|].
    destruct (sk_filter_ptr sk); by eexists.
  - assert (He0 : e <> 0) by (destruct Herr as [->|[-> _]]; done). unfold truth. rewrite (proj2 (Z.eqb_neq e 0)) by done. cbn [negb].
    unfold sk_filter_uncharge, sk_filter_len. cbn [fp_len]. change sizeof_sk_filter with 20. unfold sizeof_sock_filter. rewrite (Z.mul_comm len 8), Hundo. by apply Hfail.
Qed.

Lemma sk_detach_ok sk : sock_ok optmem_max base sk ->
  sock_ok optmem_max base (snd (sk_detach_filter sk)) /\ sk_filter_ptr (snd (sk_detach_filter sk)) = None /\
  (fst (sk_detach_filter sk) = 0 <-> is_Some (sk_filter_ptr sk)).
Proof.
  intros Hok. pose proof (filter_size_range _ _ _ Hok) as Hfs. pose proof Hok as [Hch (Hb & Hle & Hmax) Hck]. unfold sk_detach_filter.
  destruct (sk_filter_ptr sk) as [fp|] eqn:Ep; cbn [fst snd].
  - split_and!; [|done|by split; [eexists|]]. unfold sk_filter_uncharge, sock_kfree_s. cbn [sk_omem_alloc sk_filter_ptr filter_size] in *.
    rewrite s32_small by lia. split; cbn [sk_omem_alloc sk_filter_ptr filter_size]; [lia|lia|done].
  - split_and!; [done|done|]. split; [done|by intros [? ?]].
Qed.
End Attach.

(** C13: attaching a program to a socket either installs a program that the checker has accepted, releases the old one and
    charges the socket for the new one only, or fails with an error and leaves the socket exactly as it was; what the socket is charged is always the
    memory in use. Detaching gives the memory of the program back. *)
Theorem sk_attach_correct copy `{!CopyFromUser copy} optmem_max alloc alloc_masks base sk dst len src :
  sock_ok optmem_max base sk -> 0 <= len < 2 ^ 16 -> zlen dst = 8 * len -> (forall b, src = Some b -> Forall (fun x => 0 <= x < 256) b) ->
  (exists e sk', sk_attach_filter copy optmem_max alloc alloc_masks dst len src sk = Some (e, sk') /\ sock_ok optmem_max base sk' /\
     (e <> 0 /\ sk' = sk \/ e = 0 /\ exists fp, sk_filter_ptr sk' = Some fp /\ fp_len fp = len)) /\
  sock_ok optmem_max base (snd (sk_detach_filter sk)) /\ sk_filter_ptr (snd (sk_detach_filter sk)) = None /\
  (fst (sk_detach_filter sk) = 0 <-> is_Some (sk_filter_ptr sk)).
Proof. intros Hok Hlen Hdst Hsrc. split; [by apply attach_ok|by apply sk_detach_ok]. Qed.

Lemma sk_attach_correct_witness :
  let sk := {| sk_omem_alloc := 100; sk_filter_ptr := None |} in
  (exists e sk', sk_attach_filter copy_available 10240 true true (repeat 0 8) 1 (Some [6; 0; 0; 0; 255; 255; 0; 0]) sk = Some (e, sk') /\ sock_ok 10240 100 sk' /\
     (e <> 0 /\ sk' = sk \/ e = 0 /\ exists fp, sk_filter_ptr sk' = Some fp /\ fp_len fp = 1)) /\
  sock_ok 10240 100 (snd (sk_detach_filter sk)) /\ sk_filter_ptr (snd (sk_detach_filter sk)) = None /\ (fst (sk_detach_filter sk) = 0 <-> is_Some (sk_filter_ptr sk)).
Proof.
  intros sk. assert (Hok : sock_ok 10240 100 sk) by (split; cbn; [done|lia|done]).
  apply (sk_attach_correct copy_available 10240 true true 100 sk (repeat 0 8) 1 (Some [6; 0; 0; 0; 255; 255; 0; 0])); [done|lia|done|].
  intros b [= <-]. repeat constructor; (lia || done).
Defined.
