(* ===== verification/Buddy.v ===== *)
(** * The buddy allocator of mm/page_alloc.c

    A zone keeps its free memory in blocks of 2^order pages, aligned to their size, on one list per order and
    migration type.  A block that is freed is merged with its buddy, the other half of a block twice as large, as long as
    the buddy is free; a block that is too large for an allocation is halved.  The theorems
    are that the lists, the flags of the pages and the counters stay consistent and fully merged, and
    that the free pages are exactly those that should be. *)

From stdpp Require Import list gmap.
From S2P Require Import Prelude.

(** ** Definitions *)

Definition MAX_ORDER : Z := 11.
Definition MIGRATE_TYPES : Z := 5.
Definition PAGE_BUDDY_MAPCOUNT_VALUE : Z := -128.

(** The fields of struct page that the allocator uses.  [private] and first_page are one field, a union; [lru_prev] is
    page->lru.prev of a page that is not on a list.  A pointer to a struct page is the number of the page. *)
Record page := { page_mapcount : Z; private : Z; zone_id : Z; PageHead : bool; PageTail : bool; lru_prev : Z }.

Definition with_buddy (p : page) (mapcount priv : Z) : page :=
  {| page_mapcount := mapcount; private := priv; zone_id := zone_id p; PageHead := PageHead p; PageTail := PageTail p; lru_prev := lru_prev p |}.
Definition with_flags (p : page) (hd tl : bool) : page :=
  {| page_mapcount := page_mapcount p; private := private p; zone_id := zone_id p; PageHead := hd; PageTail := tl; lru_prev := lru_prev p |}.

(** A list is the numbers of its pages, the first one in front. *)
Record free_area := { free_list : list (list Z); nr_free : Z }.
Record zone := { mem_map : gmap Z page; areas : list free_area; zone_start_pfn : Z; spanned_pages : Z; pageblock_flags : list bool }.

Definition with_map (z : zone) (m : gmap Z page) : zone :=
  {| mem_map := m; areas := areas z; zone_start_pfn := zone_start_pfn z; spanned_pages := spanned_pages z; pageblock_flags := pageblock_flags z |}.
Definition with_areas (z : zone) (ar : list free_area) : zone :=
  {| mem_map := mem_map z; areas := ar; zone_start_pfn := zone_start_pfn z; spanned_pages := spanned_pages z; pageblock_flags := pageblock_flags z |}.
Definition set_page (z : zone) (pfn : Z) (p : page) : zone := with_map z (<[pfn := p]> (mem_map z)).

Definition PageBuddy (p : page) : bool := page_mapcount p =? PAGE_BUDDY_MAPCOUNT_VALUE.
Definition PageCompound (p : page) : bool := PageHead p || PageTail p.

Definition set_page_order (z : zone) (pfn order : Z) : option zone :=
  p ← mem_map z !! pfn; Some (set_page z pfn (with_buddy p PAGE_BUDDY_MAPCOUNT_VALUE order)).
Definition rmv_page_order (z : zone) (pfn : Z) : option zone :=
  p ← mem_map z !! pfn; Some (set_page z pfn (with_buddy p (-1) 0)).

(** list_del(&page->lru): the page leaves the list it is on. *)
Definition area_del (pfn : Z) (a : free_area) : free_area :=
  {| free_list := map (List.filter (fun q => negb (q =? pfn))) (free_list a); nr_free := nr_free a |}.
Definition lru_del (z : zone) (pfn : Z) : zone := with_areas z (map (area_del pfn) (areas z)).

(** list_add() and list_add_tail() on [zone->free_area[order].free_list[migratetype]]. *)
Definition add_to (z : zone) (pfn order mt : Z) (tail : bool) : option zone :=
  a ← (areas z).[order];
  l ← (free_list a).[mt];
  fl ← (free_list a).[mt <- if tail then l ++ [pfn] else pfn :: l];
  ar ← (areas z).[order <- {| free_list := fl; nr_free := nr_free a |}];
  Some (with_areas z ar).
Definition add_nr_free (z : zone) (order d : Z) : option zone :=
  a ← (areas z).[order];
  ar ← (areas z).[order <- {| free_list := free_list a; nr_free := ulong (nr_free a + d) |}];
  Some (with_areas z ar).

Definition __find_buddy_index (page_idx order : Z) : Z := Z.lxor page_idx (Z.shiftl 1 order).

(** pfn_valid_within() is 1: the configuration has no holes in zones. *)
Definition page_is_buddy (z : zone) (pg buddy order : Z) : option bool :=
  p ← mem_map z !! pg;
  b ← mem_map z !! buddy;
  Some ((zone_id p =? zone_id b) && PageBuddy b && (private b =? order)).

(** (zone, page, page_idx, buddy_idx, order) *)
Definition merge_state : Type := zone * Z * Z * Z * Z.
Definition buddy_merge_body (st : merge_state) : option (step merge_state merge_state) :=
  let '(z, pg, page_idx, buddy_idx, order) := st in
  if order <? MAX_ORDER - 1 then
    let buddy_idx := __find_buddy_index page_idx order in
    let buddy := pg + (buddy_idx - page_idx) in
    b ← page_is_buddy z pg buddy order;
    if negb b then Some (Done (z, pg, page_idx, buddy_idx, order))
    else
      let z := lru_del z buddy in
      z ← add_nr_free z order (-1);
      z ← rmv_page_order z buddy;
      let combined_idx := Z.land buddy_idx page_idx in
      Some (Next (z, pg + (combined_idx - page_idx), combined_idx, buddy_idx, order + 1))
  else Some (Done st).

(** The buddy of the next order is free: the block is put at the end of its list. *)
Definition next_order_free (z : zone) (pg page_idx buddy_idx order : Z) : option bool :=
  if order <? MAX_ORDER - 2 then
    let combined_idx := Z.land buddy_idx page_idx in
    let higher_page := pg + (combined_idx - page_idx) in
    let buddy_idx := __find_buddy_index combined_idx (order + 1) in
    let higher_buddy := pg + (buddy_idx - combined_idx) in
    page_is_buddy z higher_page higher_buddy (order + 1)
  else Some false.

(** bad_page() reports the page and takes its mark away. *)
Definition bad_page (z : zone) (pg : Z) : option zone := p ← mem_map z !! pg; Some (set_page z pg (with_buddy p (-1) (private p))).

Definition compound_order (z : zone) (pg : Z) : option Z :=
  p ← mem_map z !! pg;
  if PageHead p then lru_prev <$> mem_map z !! (pg + 1) else Some 0.

(** (zone, i, bad) *)
Definition destroy_body (pg nr_pages : Z) (st : zone * Z * Z) : option (step (zone * Z * Z) (Z * zone)) :=
  let '(z, i, bad) := st in
  if i <? nr_pages then
    p ← mem_map z !! (pg + i);
    r ← (if negb (PageTail p) || negb (private p =? pg) then z ← bad_page z pg; Some (z, s32 (bad + 1)) else Some (z, bad));
    let '(z, bad) := r in
    p ← mem_map z !! (pg + i);
    Some (Next (set_page z (pg + i) (with_flags p (PageHead p) false), i + 1, bad))
  else Some (Done (bad, z)).
Definition destroy_compound_page (z : zone) (pg order : Z) : option (Z * zone) :=
  let nr_pages := Z.shiftl 1 order in
  co ← compound_order z pg;
  p ← mem_map z !! pg;
  r ← (if negb (co =? order) || negb (PageHead p) then z ← bad_page z pg; Some (z, 1) else Some (z, 0));
  let '(z, bad) := r in
  p ← mem_map z !! pg;
  loop (destroy_body pg nr_pages) (nr_pages + 1) (set_page z pg (with_flags p false (PageTail p)), 1, bad).

(** The part of __free_one_page() behind the test for compound pages; [VM_BUG_ON] is empty. *)
Definition merge_and_list (z : zone) (pg order mt : Z) : option zone :=
  let page_idx := Z.land pg (Z.shiftl 1 MAX_ORDER - 1) in
  r ← loop buddy_merge_body MAX_ORDER (z, pg, page_idx, 0, order);
  let '(z, pg, page_idx, buddy_idx, order) := r in
  z ← set_page_order z pg order;
  tail ← next_order_free z pg page_idx buddy_idx order;
  z ← add_to z pg order mt tail;
  add_nr_free z order 1.
Definition __free_one_page (z : zone) (pg order mt : Z) : option zone :=
  p ← mem_map z !! pg;
  if PageCompound p then
    r ← destroy_compound_page z pg order;
    let '(bad, z) := r in
    if truth bad then Some z else merge_and_list z pg order mt
  else merge_and_list z pg order mt.

(** (zone, high): [size] is 2^high throughout and [area] that of the order [high]. *)
Definition expand_body (pg low mt : Z) (st : zone * Z) : option (step (zone * Z) zone) :=
  let '(z, high) := st in
  if low <? high then
    let high := high - 1 in
    let size := Z.shiftl 1 high in
    z ← add_to z (pg + size) high mt false;
    z ← add_nr_free z high 1;
    z ← set_page_order z (pg + size) high;
    Some (Next (z, high))
  else Some (Done z).
Definition expand (z : zone) (pg low high mt : Z) : option zone := loop (expand_body pg low mt) MAX_ORDER (z, high).

(** The result is the page, or [None] for NULL, and the zone. *)
Definition rmqueue_body (z : zone) (order mt : Z) (current_order : Z) : option (step Z (option Z * zone)) :=
  if current_order <? MAX_ORDER then
    a ← (areas z).[current_order];
    l ← (free_list a).[mt];
    match l with
    | [] => Some (Next (current_order + 1))
    | pg :: _ =>
        let z := lru_del z pg in
        z ← rmv_page_order z pg;
        z ← add_nr_free z current_order (-1);
        z ← expand z pg order current_order mt;
        Some (Done (Some pg, z))
    end
  else Some (Done (None, z)).
Definition __rmqueue_smallest (z : zone) (order mt : Z) : option (option Z * zone) :=
  loop (rmqueue_body z order mt) (MAX_ORDER + 1) order.

(** ** Consistent zones *)

(** The list of one order and migration type, the blocks of one order on all lists, and their counter. *)
Definition list_of (z : zone) (o mt : Z) : list Z := default [] (a ← (areas z).[o]; (free_list a).[mt]).
Definition blocks (z : zone) (o : Z) : list Z := default [] ((fun a => concat (free_list a)) <$> (areas z).[o]).
Definition nr_of (z : zone) (o : Z) : Z := default 0 (nr_free <$> (areas z).[o]).

Definition in_zone (zid : Z) (z : zone) (x : Z) : Prop := zone_id <$> mem_map z !! x = Some zid.

(** The page [p] is the head of a free block of the zone with the number [zid]. *)
Definition head (zid : Z) (z : zone) (p o : Z) : Prop :=
  exists g, mem_map z !! p = Some g /\ PageBuddy g = true /\ private g = o /\ zone_id g = zid.

Definition in_block (p o x : Z) : Prop := p <= x < p + 2 ^ o.
Definition free (zid : Z) (z : zone) (x : Z) : Prop := exists p o, head zid z p o /\ in_block p o x.

(** The other half of the block twice as large. *)
Definition buddy_of (p o : Z) : Z := Z.lxor p (2 ^ o).

(** A block of pages of the zone, aligned to its size. *)
Definition block (zid : Z) (z : zone) (p o : Z) : Prop :=
  0 <= p /\ 0 <= o < MAX_ORDER /\ p mod 2 ^ o = 0 /\ forall x, in_block p o x -> in_zone zid z x.

Definition shaped (z : zone) : Prop :=
  zlen (areas z) = MAX_ORDER /\ forall o a, (areas z).[o] = Some a -> zlen (free_list a) = MIGRATE_TYPES.

(** The map of the pages has no holes in the aligned blocks of MAX_ORDER_NR_PAGES pages, a page is
    marked exactly when it is on a list of its order, once, the counters count the blocks, and the blocks do not overlap. *)
Record wf_zone (zid : Z) (z : zone) : Prop := {
  w_shape : shaped z;
  w_map : forall p q, p / 2 ^ (MAX_ORDER - 1) = q / 2 ^ (MAX_ORDER - 1) -> is_Some (mem_map z !! p) -> is_Some (mem_map z !! q);
  w_heads : forall p o, head zid z p o <-> p ∈ blocks z o;
  w_nodup : forall o, NoDup (blocks z o);
  w_count : forall o, 0 <= o < MAX_ORDER -> nr_of z o = ulong (zlen (blocks z o));
  w_block : forall p o, head zid z p o -> block zid z p o;
  w_apart : forall p o q o' x, head zid z p o -> head zid z q o' -> in_block p o x -> in_block q o' x -> p = q
}.

(** No two buddies are both free. *)
Definition merged (zid : Z) (z : zone) : Prop :=
  forall p o, head zid z p o -> o < MAX_ORDER - 1 -> ~ head zid z (buddy_of p o) o.

Lemma in_zone_page zid z x : in_zone zid z x -> exists g, mem_map z !! x = Some g /\ zone_id g = zid.
Proof. unfold in_zone. intros (g & Hg & Hz)%fmap_Some. eauto. Qed.

(** ** Taking a block off the lists and putting one on *)

Definition block_del (z : zone) (p o : Z) : option zone := z ← add_nr_free (lru_del z p) o (-1); rmv_page_order z p.
Definition block_add (z : zone) (p o mt : Z) (tail : bool) : option zone :=
  z ← set_page_order z p o; z ← add_to z p o mt tail; add_nr_free z o 1.

(** The pages, their zones and the extent of the zone do not change. *)
Definition same_extent (z z' : zone) : Prop :=
  zone_start_pfn z' = zone_start_pfn z /\ spanned_pages z' = spanned_pages z /\ zlen (pageblock_flags z') = zlen (pageblock_flags z).
Definition same_zones (z z' : zone) : Prop :=
  (forall q, zone_id <$> mem_map z' !! q = zone_id <$> mem_map z !! q) /\ same_extent z z'.

Lemma same_extent_trans z1 z2 z3 : same_extent z1 z2 -> same_extent z2 z3 -> same_extent z1 z3.
Proof. unfold same_extent. intuition congruence. Qed.

Lemma area_Some z o : shaped z -> 0 <= o < MAX_ORDER -> exists a, (areas z).[o] = Some a /\ zlen (free_list a) = MIGRATE_TYPES.
Proof. intros [Hn Hs] Ho. destruct (arr_get_is_Some (areas z) o) as [a Ha]; [lia|]. eauto. Qed.

Lemma add_nr_free_ok z o d : shaped z -> 0 <= o < MAX_ORDER ->
  exists z', add_nr_free z o d = Some z' /\ mem_map z' = mem_map z /\ same_extent z z' /\ shaped z' /\ (forall o', blocks z' o' = blocks z o') /\
    (forall o', nr_of z' o' = if o' =? o then ulong (nr_of z o' + d) else nr_of z o') /\ (forall o' mt, list_of z' o' mt = list_of z o' mt).
Proof.
  intros Hs Ho. destruct (area_Some z o Hs Ho) as (a & Ha & Hl). destruct Hs as [Hn Hs].
  unfold add_nr_free. rewrite Ha, bind_Some, arr_set_Some, bind_Some by lia. eexists. split; [done|]. cbn [mem_map areas with_areas].
  unfold shaped, blocks, nr_of, list_of. cbn [areas with_areas]. rewrite zlen_insert. split_and!; try done.
  - intros o' a'. rewrite arr_get_insert by lia. case_decide; [|apply Hs]. by intros [= <-].
  - intros o'. rewrite arr_get_insert by lia. case_decide; [|done]. subst. by rewrite Ha.
  - intros o'. rewrite arr_get_insert by lia. case_decide; bcase; try done; try lia. subst. by rewrite Ha.
  - intros o' mt. rewrite arr_get_insert by lia. case_decide; [|done]. subst. by rewrite Ha.
Qed.

Lemma arr_get_map {A B} (f : A -> B) (l : list A) i : (map f l).[i] = f <$> l.[i].
Proof. unfold arr_get. bcase; [done|]. apply list_lookup_fmap. Qed.

Lemma filter_concat {A} (f : A -> bool) (ls : list (list A)) : concat (map (List.filter f) ls) = List.filter f (concat ls).
Proof. induction ls as [|l ls IH]; [done|]. simpl. by rewrite List.filter_app, IH. Qed.

Lemma lru_del_ok z p : shaped z ->
  shaped (lru_del z p) /\ (forall o, blocks (lru_del z p) o = List.filter (fun q => negb (q =? p)) (blocks z o)) /\
  (forall o, nr_of (lru_del z p) o = nr_of z o) /\
  (forall o mt, list_of (lru_del z p) o mt = List.filter (fun q => negb (q =? p)) (list_of z o mt)).
Proof.
  intros [Hn Hs]. unfold shaped, blocks, nr_of, list_of, lru_del. cbn [areas with_areas]. split_and!.
  - unfold zlen. rewrite length_map. apply Hn.
  - intros o a. rewrite arr_get_map. destruct (areas z).[o] as [b|] eqn:E; intros [= <-]. simpl. unfold zlen.
    rewrite length_map. by apply (Hs o).
  - intros o. rewrite arr_get_map. destruct (areas z).[o] as [b|]; [|done]. apply filter_concat.
  - intros o. rewrite arr_get_map. by destruct (areas z).[o].
  - intros o mt. rewrite arr_get_map. destruct (areas z).[o] as [b|]; [|done]. simpl. rewrite arr_get_map.
    by destruct (free_list b).[mt].
Qed.

Lemma concat_list_insert {A} (ls : list (list A)) k l l' x : ls !! k = Some l -> l' ≡ₚ x :: l -> concat (<[k := l']> ls) ≡ₚ x :: concat ls.
Proof.
  revert k. induction ls as [|m ls IH]; intros [|k] Hk Hl; try done; simpl in *.
  - injection Hk as ->. by rewrite Hl.
  - rewrite (IH _ Hk Hl). apply Permutation_sym, Permutation_middle.
Qed.

Lemma add_to_ok z p o mt tail : shaped z -> 0 <= o < MAX_ORDER -> 0 <= mt < MIGRATE_TYPES ->
  exists z', add_to z p o mt tail = Some z' /\ mem_map z' = mem_map z /\ same_extent z z' /\ shaped z' /\
    (forall o', blocks z' o' ≡ₚ if o' =? o then p :: blocks z o' else blocks z o') /\ (forall o', nr_of z' o' = nr_of z o') /\
    (forall o' mt', list_of z' o' mt' =
       if (o' =? o) && (mt' =? mt) then (if tail then list_of z o' mt' ++ [p] else p :: list_of z o' mt') else list_of z o' mt').
Proof.
  intros Hs Ho Hmt. destruct (area_Some z o Hs Ho) as (a & Ha & Hl). destruct Hs as [Hn Hs].
  destruct (arr_get_is_Some (free_list a) mt) as [l Hmtl]; [lia|].
  unfold add_to. rewrite Ha, bind_Some, Hmtl, bind_Some, (arr_set_Some (free_list a)), bind_Some, arr_set_Some, bind_Some by lia.
  eexists. split; [done|]. unfold shaped, blocks, nr_of, list_of. cbn [mem_map areas with_areas]. rewrite zlen_insert. split_and!; try done.
  - intros o' a'. rewrite arr_get_insert by lia. case_decide; [|apply Hs]. intros [= <-]. simpl. by rewrite zlen_insert.
  - intros o'. rewrite arr_get_insert by lia. case_decide; bcase; try done; try lia. subst. rewrite Ha. simpl.
    apply (concat_list_insert _ _ l); [by apply arr_get_Some in Hmtl as [_ ?]|]. destruct tail; [|done]. apply Permutation_sym, Permutation_cons_append.
  - intros o'. rewrite arr_get_insert by lia. case_decide; [|done]. subst. by rewrite Ha.
  - intros o' mt'. rewrite arr_get_insert by lia. case_decide; bcase; try done; try lia. subst. rewrite Ha. simpl.
    rewrite arr_get_insert by lia. case_decide; bcase; try done; try lia. subst. rewrite Hmtl. by destruct tail.
Qed.


Lemma same_zones_trans z1 z2 z3 : same_zones z1 z2 -> same_zones z2 z3 -> same_zones z1 z3.
Proof. intros [H1 E1] [H2 E2]. split; [|by eapply same_extent_trans]. intros q. by rewrite (H2 q), (H1 q). Qed.

Lemma same_zones_block zid z z' p o : same_zones z z' -> block zid z p o -> block zid z' p o.
Proof. intros [Hz _] (? & ? & ? & Hb). do 3 (split; [done|]). intros x Hx. unfold in_zone. rewrite (Hz x). by apply Hb. Qed.

Lemma same_zones_insert z z' p g g' : mem_map z !! p = Some g -> zone_id g' = zone_id g ->
  mem_map z' = <[p := g']> (mem_map z) -> same_extent z z' -> same_zones z z'.
Proof.
  intros Hp Hg Hm He. split; [|done]. intros q. rewrite Hm. destruct (decide (q = p)) as [->|Hq]; [|by rewrite lookup_insert_ne by congruence].
  rewrite lookup_insert_eq, Hp. simpl. by rewrite Hg.
Qed.

Lemma same_zones_map z z' q : same_zones z z' -> is_Some (mem_map z' !! q) <-> is_Some (mem_map z !! q).
Proof. intros [Hz _]. rewrite <- !(fmap_is_Some zone_id). by rewrite (Hz q). Qed.

Lemma head_insert zid z z' p g q o : mem_map z' = <[p := g]> (mem_map z) ->
  head zid z' q o <-> (q = p /\ PageBuddy g = true /\ private g = o /\ zone_id g = zid) \/ (q <> p /\ head zid z q o).
Proof.
  intros Hm. unfold head. rewrite Hm. destruct (decide (q = p)) as [->|Hq].
  - rewrite lookup_insert_eq. split; [intros (g' & [= <-] & ?); by left|]. intros [[_ ?]|[? _]]; [eauto|done].
  - rewrite lookup_insert_ne by congruence. split; [intros ?; by right|]. intros [[? _]|[_ ?]]; [done|eauto].
Qed.

Lemma head_fun zid z p o o' : head zid z p o -> head zid z p o' -> o = o'.
Proof. intros (g & Hg & _ & <- & _) (g' & Hg' & _ & <- & _). congruence. Qed.

Lemma head_in_zone zid z p o : head zid z p o -> in_zone zid z p.
Proof. intros (g & Hg & _ & _ & <-). unfold in_zone. by rewrite Hg. Qed.

Lemma blocks_range z p o : shaped z -> p ∈ blocks z o -> 0 <= o < MAX_ORDER.
Proof.
  intros [Hn _]. unfold blocks. destruct (areas z).[o] as [a|] eqn:E; [|by intros ?%not_elem_of_nil].
  apply arr_get_range in E. lia.
Qed.

(** A zone whose heads and lists change together stays consistent. *)
Lemma wf_changed zid z z' : wf_zone zid z -> same_zones z z' -> shaped z' ->
  (forall p o, head zid z' p o <-> p ∈ blocks z' o) -> (forall o, NoDup (blocks z' o)) ->
  (forall o, 0 <= o < MAX_ORDER -> nr_of z' o = ulong (zlen (blocks z' o))) ->
  (forall p o, head zid z' p o -> block zid z p o) ->
  (forall p o q o' x, head zid z' p o -> head zid z' q o' -> in_block p o x -> in_block q o' x -> p = q) -> wf_zone zid z'.
Proof.
  intros Hw Hz Hs Hh Hn Hc Hb Ha. split; try done.
  - intros p q Hpq. rewrite !(same_zones_map _ _ _ Hz). by apply (w_map _ _ Hw).
  - intros p o Hp. by apply (same_zones_block _ z), Hb.
Qed.

Lemma filter_del_Permutation (p : Z) (l : list Z) : NoDup l -> p ∈ l -> l ≡ₚ p :: List.filter (fun q => negb (q =? p)) l.
Proof.
  induction 1 as [|x l Hx Hn IH]; [by intros ?%not_elem_of_nil|]. intros [->|Hp]%elem_of_cons; simpl.
  - rewrite Z.eqb_refl. simpl. f_equiv. clear IH Hn. induction l as [|y l IH]; [done|]. apply not_elem_of_cons in Hx as [Hxy Hx].
    simpl. destruct (Z.eqb_spec y x); [congruence|]. simpl. by rewrite <- IH.
  - destruct (Z.eqb_spec x p) as [->|_]; [done|]. simpl. rewrite (IH Hp) at 1. apply Permutation_swap.
Qed.

Lemma elem_of_filter_del (p q : Z) (l : list Z) : q ∈ List.filter (fun x => negb (x =? p)) l <-> q ∈ l /\ q <> p.
Proof. rewrite !list_elem_of_In, List.filter_In, negb_true_iff, Z.eqb_neq. done. Qed.

Lemma filter_del_id (p : Z) (l : list Z) : p ∉ l -> List.filter (fun q => negb (q =? p)) l = l.
Proof.
  induction l as [|y l IH]; [done|]. intros [Hy Hl]%not_elem_of_cons. simpl. destruct (Z.eqb_spec y p); [congruence|]. simpl. by rewrite IH.
Qed.

Lemma NoDup_filter_del (p : Z) (l : list Z) : NoDup l -> NoDup (List.filter (fun q => negb (q =? p)) l).
Proof. rewrite !NoDup_ListNoDup. apply List.NoDup_filter. Qed.

Lemma ulong_add x d : ulong (ulong x + d) = ulong (x + d).
Proof. unfold ulong. apply Zplus_mod_idemp_l. Qed.

(** Taking a free block off the lists. *)
Lemma deleted_ok zid z z' p o g : wf_zone zid z -> head zid z p o -> mem_map z !! p = Some g ->
  mem_map z' = <[p := with_buddy g (-1) 0]> (mem_map z) -> same_extent z z' -> shaped z' ->
  (forall o', blocks z' o' ≡ₚ List.filter (fun q => negb (q =? p)) (blocks z o')) ->
  (forall o', nr_of z' o' = if o' =? o then ulong (nr_of z o' + -1) else nr_of z o') ->
  wf_zone zid z' /\ same_zones z z' /\ (forall q o', head zid z' q o' <-> head zid z q o' /\ q <> p).
Proof.
  intros Hw Hp Hg Hm He Hs Hb Hn. assert (Hz : same_zones z z') by (by apply (same_zones_insert z z' p g (with_buddy g (-1) 0))).
  assert (Hh : forall q o', head zid z' q o' <-> head zid z q o' /\ q <> p).
  { intros q o'. rewrite (head_insert zid z z' p (with_buddy g (-1) 0)) by done. cbn. naive_solver. }
  split; [|done]. apply (wf_changed zid z); try done.
  - intros q o'. by rewrite Hh, Hb, elem_of_filter_del, (w_heads _ _ Hw).
  - intros o'. rewrite Hb. apply NoDup_filter_del, (w_nodup _ _ Hw).
  - intros o' Ho'. unfold zlen. rewrite Hn, (Hb o'), (w_count _ _ Hw) by done. destruct (Z.eqb_spec o' o) as [->|Hne].
    + rewrite ulong_add. f_equal. apply (w_heads _ _ Hw) in Hp.
      pose proof (Permutation_length (filter_del_Permutation p _ (w_nodup _ _ Hw o) Hp)) as H. unfold zlen. simpl in H. lia.
    + by rewrite filter_del_id; [|intros ?%(w_heads _ _ Hw); eapply Hne, head_fun].
  - intros q o' [Hq _]%Hh. by apply (w_block _ _ Hw).
  - intros q o1 r o2 x [Hq _]%Hh [Hr _]%Hh. by apply (w_apart _ _ Hw).
Qed.

Lemma block_del_ok zid z p o : wf_zone zid z -> head zid z p o ->
  exists z', block_del z p o = Some z' /\ wf_zone zid z' /\ same_zones z z' /\
    (forall q o', head zid z' q o' <-> head zid z q o' /\ q <> p) /\
    (forall o' mt, list_of z' o' mt = List.filter (fun q => negb (q =? p)) (list_of z o' mt)) /\
    (forall x, x <> p -> mem_map z' !! x = mem_map z !! x).
Proof.
  intros Hw Hp. destruct (lru_del_ok z p (w_shape _ _ Hw)) as (Hs1 & Hb1 & Hn1 & Hl1).
  destruct (w_block _ _ Hw _ _ Hp) as (_ & Ho & _).
  destruct (add_nr_free_ok (lru_del z p) o (-1) Hs1 Ho) as (z2 & E2 & Hm2 & He2 & Hs2 & Hb2 & Hn2 & Hl2).
  pose proof Hp as (g & Hg & _ & _ & _). unfold block_del, rmv_page_order. rewrite E2, bind_Some, Hm2.
  change (mem_map (lru_del z p)) with (mem_map z). rewrite Hg, bind_Some. eexists. split; [done|].
  destruct (deleted_ok zid z (set_page z2 p (with_buddy g (-1) 0)) p o g) as (Hw' & Hz & Hh); try done.
  - unfold set_page. cbn [mem_map with_map]. by rewrite Hm2.
  - intros o'. rewrite <- Hb1, <- (Hb2 o'). done.
  - intros o'. rewrite <- !Hn1. apply Hn2.
  - do 3 (split; [done|]). split; [intros o' mt; rewrite <- Hl1; apply Hl2|].
    intros x Hx. unfold set_page. cbn [mem_map with_map]. by rewrite Hm2, lookup_insert_ne by congruence.
Qed.

Lemma in_block_head zid z p o : wf_zone zid z -> head zid z p o -> in_block p o p.
Proof. intros Hw Hp. destruct (w_block _ _ Hw _ _ Hp) as (_ & Ho & _). unfold in_block. pose proof (Z.pow_pos_nonneg 2 o). lia. Qed.

Lemma in_block_first p o : 0 <= o -> in_block p o p.
Proof. unfold in_block. pose proof (Z.pow_pos_nonneg 2 o). lia. Qed.

(** Putting a block of the zone on a list. *)
Lemma block_add_ok zid z p o mt tail : wf_zone zid z -> block zid z p o -> (forall x, in_block p o x -> ~ free zid z x) ->
  0 <= mt < MIGRATE_TYPES ->
  exists z', block_add z p o mt tail = Some z' /\ wf_zone zid z' /\ same_zones z z' /\
    (forall q o', head zid z' q o' <-> head zid z q o' \/ (q = p /\ o' = o)) /\
    (forall o' mt', list_of z' o' mt' =
       if (o' =? o) && (mt' =? mt) then (if tail then list_of z o' mt' ++ [p] else p :: list_of z o' mt') else list_of z o' mt') /\
    (forall x, x <> p -> mem_map z' !! x = mem_map z !! x).
Proof.
  intros Hw Hb Hd Hmt. pose proof Hb as (Hp0 & Ho & Ha & Hin).
  assert (Hp : ~ exists o', head zid z p o').
  { intros [o' Hp]. apply (Hd p); [apply in_block_first; lia|]. exists p, o'. split; [done|]. by apply (in_block_head zid z). }
  destruct (in_zone_page _ _ _ (Hin p (in_block_first p o ltac:(lia)))) as (g & Hg & Hzid).
  unfold block_add, set_page_order. rewrite Hg, !bind_Some.
  set (g' := with_buddy g _ o). set (z1 := set_page z p g').
  destruct (add_to_ok z1 p o mt tail) as (z2 & -> & Hm2 & He2 & Hs2 & Hb2 & Hn2 & Hl2); [apply (w_shape _ _ Hw)|done|done|].
  rewrite bind_Some. destruct (add_nr_free_ok z2 o 1 Hs2 Ho) as (z' & -> & Hm3 & He3 & Hs3 & Hb3 & Hn3 & Hl3).
  exists z'. split; [done|]. assert (Hm : mem_map z' = <[p := g']> (mem_map z)) by (by rewrite Hm3, Hm2).
  assert (Hz : same_zones z z') by (apply (same_zones_insert z z' p g g'); try done; by apply (same_extent_trans _ z2)).
  assert (Hh : forall q o', head zid z' q o' <-> head zid z q o' \/ (q = p /\ o' = o)).
  { intros q o'. rewrite (head_insert zid z z' p g' q o' Hm). cbn. split; [naive_solver|]. intros [Hq|[-> ->]]; [|by left].
    right. split; [|done]. intros ->. eauto. }
  assert (Hbs : forall o', blocks z' o' ≡ₚ if o' =? o then p :: blocks z o' else blocks z o') by (intros o'; rewrite Hb3; apply Hb2).
  split; [|split; [done|split; [done|split; [intros o' mt'; by rewrite Hl3, Hl2|intros x Hx; by rewrite Hm, lookup_insert_ne by congruence]]]].
  apply (wf_changed zid z); try done.
  - intros q o'. rewrite Hh, Hbs, (w_heads _ _ Hw). bcase; rewrite ?elem_of_cons; naive_solver.
  - intros o'. rewrite Hbs. bcase; [|apply (w_nodup _ _ Hw)]. constructor; [|apply (w_nodup _ _ Hw)].
    intros ?%(w_heads _ _ Hw). eauto.
  - intros o' Ho'. rewrite Hn3, Hn2. change (nr_of z1 o') with (nr_of z o'). rewrite (w_count _ _ Hw) by done.
    unfold zlen. rewrite (Hbs o'). bcase; [|done]. rewrite ulong_add. simpl. f_equal. lia.
  - intros q o' [Hq|[-> ->]]%Hh; [by apply (w_block _ _ Hw)|done].
  - intros q o1 r o2 x [Hq|[-> ->]]%Hh [Hr|[-> ->]]%Hh Hx Hx'; [by eapply (w_apart _ _ Hw)| | |done].
    + destruct (Hd x Hx'). by exists q, o1.
    + destruct (Hd x Hx). by exists r, o2.
Qed.

(** ** Buddies *)

Lemma buddy_involutive p o : buddy_of (buddy_of p o) o = p.
Proof. unfold buddy_of. by rewrite Z.lxor_assoc, Z.lxor_nilpotent, Z.lxor_0_r. Qed.

Lemma buddy_above p o : 0 <= p -> 0 <= o -> Z.testbit p o = false -> buddy_of p o = p + 2 ^ o /\ Z.land (buddy_of p o) p = p.
Proof.
  intros Hp Ho Hb. unfold buddy_of. split.
  - symmetry. apply Z.add_nocarry_lxor, Z.bits_inj'. intros i Hi. rewrite Z.land_spec, Z.pow2_bits_eqb, Z.bits_0 by lia.
    destruct (Z.eqb_spec o i) as [<-|_]; [by rewrite Hb|apply andb_false_r].
  - apply Z.bits_inj'. intros i Hi. rewrite Z.land_spec, Z.lxor_spec, Z.pow2_bits_eqb by lia.
    destruct (Z.eqb_spec o i) as [<-|_]; [by rewrite Hb|]. by destruct (Z.testbit p i).
Qed.

Lemma testbit_mod p o : 0 <= o -> p mod 2 ^ o = 0 -> p mod 2 ^ (o + 1) = if Z.testbit p o then 2 ^ o else 0.
Proof.
  intros Ho Ha. rewrite Z.testbit_odd, Z.shiftr_div_pow2, pow2_double by lia. pose proof (Z.pow_pos_nonneg 2 o).
  rewrite (Z.mul_comm 2), Z.rem_mul_r, Ha by lia. rewrite Zmod_odd. destruct (Z.odd _); lia.
Qed.

(** The buddy of an aligned block is the block before or after it, and the lower one of the two is their conjunction. *)
Lemma buddy_cases p o : 0 <= p -> 0 <= o -> p mod 2 ^ o = 0 ->
  (p mod 2 ^ (o + 1) = 0 /\ buddy_of p o = p + 2 ^ o /\ Z.land (buddy_of p o) p = p) \/
  (p mod 2 ^ (o + 1) = 2 ^ o /\ buddy_of p o = p - 2 ^ o /\ Z.land (buddy_of p o) p = p - 2 ^ o).
Proof.
  intros Hp Ho Ha. rewrite (testbit_mod p o Ho Ha). destruct (Z.testbit p o) eqn:Hb; [right|left].
  - assert (Hq : 0 <= buddy_of p o) by (apply Z.lxor_nonneg; pose proof (Z.pow_nonneg 2 o); lia).
    destruct (buddy_above (buddy_of p o) o Hq Ho) as [H1 H2].
    { unfold buddy_of. by rewrite Z.lxor_spec, Z.pow2_bits_true, Hb by lia. }
    rewrite buddy_involutive in H1, H2. rewrite Z.land_comm in H2. lia.
  - by destruct (buddy_above p o Hp Ho Hb).
Qed.

(** The same for the index of the page in its aligned block of 2^MAX_ORDER pages. *)
Lemma buddy_index pg o : 0 <= pg -> 0 <= o < MAX_ORDER -> pg mod 2 ^ o = 0 ->
  let idx := pg mod 2 ^ MAX_ORDER in
  pg + (__find_buddy_index idx o - idx) = buddy_of pg o /\
  pg + (Z.land (__find_buddy_index idx o) idx - idx) = Z.land (buddy_of pg o) pg /\
  Z.land (__find_buddy_index idx o) idx = Z.land (buddy_of pg o) pg mod 2 ^ MAX_ORDER.
Proof.
  intros Hp Ho Ha idx. unfold __find_buddy_index. rewrite Z.shiftl_1_l. change (Z.lxor idx (2 ^ o)) with (buddy_of idx o).
  assert (Hi : 0 <= idx < 2 ^ MAX_ORDER) by (apply Z.mod_pos_bound; done).
  assert (Hm : forall k, 0 <= k <= MAX_ORDER -> idx mod 2 ^ k = pg mod 2 ^ k).
  { intros k Hk. unfold idx. replace (2 ^ MAX_ORDER) with (2 ^ k * 2 ^ (MAX_ORDER - k)).
    - rewrite Z.rem_mul_r, Z.mul_comm, Z_mod_plus_full, Zmod_mod by (try apply Z.pow_nonzero; try apply Z.pow_pos_nonneg; lia). done.
    - rewrite <- Z.pow_add_r by lia. f_equal. lia. }
  pose proof (Hm o) as H1. pose proof (Hm (o + 1)) as H2. pose proof (Z.pow_pos_nonneg 2 o).
  destruct (buddy_cases pg o Hp) as [(E1 & -> & ->)|(E1 & -> & ->)]; [lia|done| |];
    (destruct (buddy_cases idx o) as [(E2 & -> & ->)|(E2 & -> & ->)]; [lia|lia|lia| |]); try lia.
  split_and!; try lia. apply Z.mod_unique with (pg / 2 ^ MAX_ORDER); [|unfold idx; rewrite (Z.mod_eq pg) by done; lia].
  left. assert (2 ^ o <= idx) by (rewrite <- E2; apply Z.mod_le; lia). lia.
Qed.

Lemma block_div c o k x : 0 <= o <= k -> c mod 2 ^ o = 0 -> in_block c o x -> x / 2 ^ k = c / 2 ^ k.
Proof.
  intros Ho Ha Hx. unfold in_block in Hx. pose proof (Z.pow_pos_nonneg 2 o). pose proof (Z.pow_pos_nonneg 2 (k - o)).
  replace (2 ^ k) with (2 ^ o * 2 ^ (k - o)) by (rewrite <- Z.pow_add_r by lia; f_equal; lia).
  rewrite <- !Z.div_div by lia. f_equal. symmetry. apply Z.div_unique with (x - c); [lia|]. rewrite (Z.div_mod c (2 ^ o)) at 2 by lia. lia.
Qed.

(** The lower buddy is the first page of the block twice as large, which is the two blocks. *)
Lemma combine_ok pg o : 0 <= pg -> 0 <= o -> pg mod 2 ^ o = 0 ->
  let c := Z.land (buddy_of pg o) pg in
  0 <= c /\ c mod 2 ^ (o + 1) = 0 /\ forall x, in_block c (o + 1) x <-> in_block pg o x \/ in_block (buddy_of pg o) o x.
Proof.
  intros Hp Ho Ha c. unfold in_block. pose proof (Z.pow_pos_nonneg 2 o). rewrite pow2_double by done.
  destruct (buddy_cases pg o Hp Ho Ha) as [(E & Hb & Hc)|(E & Hb & Hc)]; fold c in Hc; rewrite Hb, Hc.
  - split_and!; [done|by rewrite <- pow2_double|lia].
  - assert (2 ^ o <= pg) by (rewrite <- E; apply Z.mod_le; [done|rewrite pow2_double; lia]).
    split_and!; [lia| |lia]. rewrite <- pow2_double, Zminus_mod, E by done.
    rewrite (Z.mod_small (2 ^ o)) by (rewrite pow2_double; lia). rewrite Z.sub_diag. done.
Qed.

Lemma page_is_buddy_ok zid z pg q o : in_zone zid z pg -> is_Some (mem_map z !! q) ->
  exists b, page_is_buddy z pg q o = Some b /\ (b = true <-> head zid z q o).
Proof.
  intros (g & Hg & Hz)%in_zone_page [h Hh]. unfold page_is_buddy, head. rewrite Hg, Hh, !bind_Some.
  eexists. split; [done|]. rewrite !andb_true_iff, !Z.eqb_eq. naive_solver.
Qed.

(** While the blocks are merged, the block in hand is not free. *)
Definition in_hand (zid : Z) (z : zone) (pg o : Z) : Prop := block zid z pg o /\ forall x, in_block pg o x -> ~ free zid z x.

Definition merging (zid : Z) (z0 : zone) (pg0 o0 : Z) (st : merge_state) : Prop :=
  let '(z, pg, idx, _, o) := st in
  wf_zone zid z /\ merged zid z /\ same_zones z0 z /\ in_hand zid z pg o /\ idx = pg mod 2 ^ MAX_ORDER /\
  (forall x, free zid z x \/ in_block pg o x <-> free zid z0 x \/ in_block pg0 o0 x) /\
  (forall x, ~ (free zid z0 x \/ in_block pg0 o0 x) -> mem_map z !! x = mem_map z0 !! x).

Definition merge_done (zid : Z) (z0 : zone) (pg0 o0 : Z) (st : merge_state) : Prop :=
  merging zid z0 pg0 o0 st /\
  let '(z, pg, idx, b, o) := st in o < MAX_ORDER - 1 -> b = __find_buddy_index idx o /\ ~ head zid z (buddy_of pg o) o.

Lemma block_map zid z pg o c k q : wf_zone zid z -> block zid z pg o -> 0 <= k <= MAX_ORDER - 1 -> c mod 2 ^ k = 0 ->
  in_block c k pg -> in_block c k q -> is_Some (mem_map z !! q).
Proof.
  intros Hw (_ & Ho & _ & Hin) Hk Hc Hp Hq. apply (w_map _ _ Hw pg q); [rewrite (block_div c k _ pg), (block_div c k _ q) by done; done|].
  destruct (in_zone_page _ _ _ (Hin pg (in_block_first pg o ltac:(lia)))) as (g & -> & _). eauto.
Qed.

Lemma merge_free zid z z' pg o : wf_zone zid z -> head zid z (buddy_of pg o) o -> block zid z pg o ->
  (forall q o', head zid z' q o' <-> head zid z q o' /\ q <> buddy_of pg o) ->
  forall x, free zid z' x \/ in_block (Z.land (buddy_of pg o) pg) (o + 1) x <-> free zid z x \/ in_block pg o x.
Proof.
  intros Hw Hb (Hp & Ho & Ha & _) Hh x. destruct (combine_ok pg o Hp ltac:(lia) Ha) as (_ & _ & Hc). rewrite Hc. split.
  - intros [(q & o' & [Hq _]%Hh & Hx)|[Hx|Hx]]; [left; by exists q, o'|by right|left; by exists (buddy_of pg o), o].
  - intros [(q & o' & Hq & Hx)|Hx]; [|by right; left]. destruct (decide (q = buddy_of pg o)) as [->|Hne].
    + right. right. by destruct (head_fun _ _ _ _ _ Hb Hq).
    + left. exists q, o'. by rewrite Hh.
Qed.

Lemma merged_sub zid z z' : merged zid z -> (forall q o, head zid z' q o -> head zid z q o) -> merged zid z'.
Proof. intros Hm Hh p o Hp Ho Hb. by apply (Hm p o); auto. Qed.

(** The two blocks, once the buddy is off the lists, are one block that is not free. *)
Lemma combine_in_hand zid z z' pg o : wf_zone zid z -> wf_zone zid z' -> same_zones z z' -> o < MAX_ORDER - 1 ->
  in_hand zid z pg o -> head zid z (buddy_of pg o) o ->
  (forall q o', head zid z' q o' <-> head zid z q o' /\ q <> buddy_of pg o) ->
  in_hand zid z' (Z.land (buddy_of pg o) pg) (o + 1).
Proof.
  intros Hw Hw' Hz Ho [Hb Hd] Hy Hh. pose proof Hb as (Hp & Ho' & Ha & Hin). destruct (w_block _ _ Hw _ _ Hy) as (_ & _ & _ & Hiny).
  destruct (combine_ok pg o Hp ltac:(lia) Ha) as (Hc0 & Hca & Hc). split.
  - apply (same_zones_block _ z); [done|]. do 2 (split; [lia|]). split; [done|]. intros x [Hx|Hx]%Hc; auto.
  - intros x [Hx|Hx]%Hc (q & o' & [Hq Hne]%Hh & Hxq); [apply (Hd x Hx); by exists q, o'|].
    apply Hne. by apply (w_apart _ _ Hw q o' (buddy_of pg o) o x).
Qed.

Lemma merge_loop_ok zid z pg o : wf_zone zid z -> merged zid z -> in_hand zid z pg o ->
  exists st, loop buddy_merge_body MAX_ORDER (z, pg, pg mod 2 ^ MAX_ORDER, 0, o) = Some st /\ merge_done zid z pg o st.
Proof.
  intros Hw Hm Hh. apply (loop_total buddy_merge_body (merging zid z pg o) (fun st => MAX_ORDER - 1 - st.2)).
  - clear Hw Hm Hh. intros [[[[z1 p1] idx] b] o1] (Hw & Hm & Hsz & Hh & -> & Hf & Hk). unfold body_ok, buddy_merge_body. cbn [snd].
    pose proof Hh as [Hb _]. pose proof Hb as (Hp & Ho & Ha & Hin). split; [lia|]. set (idx := p1 mod 2 ^ MAX_ORDER).
    destruct (Z.ltb_spec o1 (MAX_ORDER - 1)) as [Hlt|Hge].
    2: { split; [by split_and!|]. lia. }
    destruct (buddy_index p1 o1 Hp Ho Ha) as (Hb1 & Hc1 & Hc2). fold idx in Hb1, Hc1, Hc2. cbv zeta. rewrite Hb1.
    destruct (page_is_buddy_ok zid z1 p1 (buddy_of p1 o1) o1) as (t & -> & Ht).
    { apply Hin, in_block_first. lia. }
    { destruct (combine_ok p1 o1 Hp ltac:(lia) Ha) as (_ & Hca & Hc).
      apply (block_map zid z1 p1 o1 (Z.land (buddy_of p1 o1) p1) (o1 + 1)); try done; try lia; apply Hc; [left|right]; apply in_block_first; lia. }
    rewrite bind_Some. destruct t; cbn [negb].
    + assert (Hy : head zid z1 (buddy_of p1 o1) o1) by (by apply Ht).
      destruct (block_del_ok zid z1 (buddy_of p1 o1) o1 Hw Hy) as (z' & E & Hw' & Hz & Hh' & _ & Hk'). unfold block_del in E.
      destruct (add_nr_free (lru_del z1 (buddy_of p1 o1)) o1 (-1)) as [z2|]; [|done]. cbn [mbind option_bind] in E |- *. rewrite E, Hc1, Hc2.
      split; [|cbn [snd]; lia]. split; [done|]. split; [apply (merged_sub _ z1); [done|apply Hh']|]. split; [by apply (same_zones_trans _ z1)|]. split; [by apply (combine_in_hand zid z1)|]. split; [done|].
      split; [intros x; rewrite <- Hf; by apply merge_free|]. intros x Hx. rewrite Hk'; [by apply Hk|]. intros ->. apply Hx, Hf. left.
      exists (buddy_of p1 o1), o1. split; [done|]. by apply (in_block_head zid z1).
    + split; [by split_and!|]. intros _. split; [done|]. intros Hy%Ht. done.
  - by split_and!.
  - cbn [snd]. destruct Hh as [(_ & ? & _) _]. lia.
Qed.

(** ** Freeing *)

Lemma page_is_buddy_total z p q o : is_Some (mem_map z !! p) -> is_Some (mem_map z !! q) -> exists b, page_is_buddy z p q o = Some b.
Proof. intros [g Hg] [h Hh]. unfold page_is_buddy. rewrite Hg, Hh. eauto. Qed.

(** Both pages that the look ahead to the next order reads exist. *)
Lemma higher_pages_exist zid z pg o : wf_zone zid z -> block zid z pg o -> o < MAX_ORDER - 2 ->
  let idx := pg mod 2 ^ MAX_ORDER in
  let combined := Z.land (__find_buddy_index idx o) idx in
  is_Some (mem_map z !! (pg + (combined - idx))) /\
  is_Some (mem_map z !! (pg + (__find_buddy_index combined (o + 1) - combined))).
Proof.
  intros Hw Hb Ho idx combined. pose proof Hb as (Hp & Ho' & Ha & _).
  destruct (buddy_index pg o Hp Ho' Ha) as (_ & H1 & H2). fold idx combined in H1, H2.
  destruct (combine_ok pg o Hp ltac:(lia) Ha) as (Hc0 & Hca & Hc). set (c := Z.land (buddy_of pg o) pg) in *.
  destruct (buddy_index c (o + 1) Hc0 ltac:(lia) Hca) as (H3 & _). cbv zeta in H3. rewrite <- H2 in H3.
  destruct (combine_ok c (o + 1) Hc0 ltac:(lia) Hca) as (_ & Hea & He). set (e := Z.land (buddy_of c (o + 1)) c) in *.
  assert (Hpc : in_block c (o + 1) pg) by (apply Hc; left; apply in_block_first; lia).
  rewrite H1. split; (apply (block_map zid z pg o e (o + 1 + 1)); try done; try lia; apply He).
  - by left.
  - left. apply in_block_first. lia.
  - by left.
  - right. unfold in_block in *. lia.
Qed.

Lemma set_page_order_Some zid z p o : block zid z p o -> exists z', set_page_order z p o = Some z' /\ same_zones z z'.
Proof.
  intros (_ & Ho & _ & Hin). destruct (in_zone_page _ _ _ (Hin p (in_block_first p o ltac:(lia)))) as (g & Hg & _). unfold set_page_order. rewrite Hg, bind_Some. eexists. split; [done|].
  eapply (same_zones_insert z _ p g _ Hg); [|reflexivity|done]. done.
Qed.

Lemma next_order_free_total zid z z' pg b o : wf_zone zid z -> block zid z pg o -> same_zones z z' ->
  (o < MAX_ORDER - 1 -> b = __find_buddy_index (pg mod 2 ^ MAX_ORDER) o) ->
  exists t, next_order_free z' pg (pg mod 2 ^ MAX_ORDER) b o = Some t.
Proof.
  intros Hw Hb Hz Hbi. unfold next_order_free. bcase; [|eauto]. rewrite Hbi by lia.
  destruct (higher_pages_exist zid z pg o) as [H1 H2]; [done..|]. apply page_is_buddy_total; by apply (same_zones_map z z').
Qed.

Lemma free_added zid z z' pg o : (forall q o', head zid z' q o' <-> head zid z q o' \/ (q = pg /\ o' = o)) ->
  forall x, free zid z' x <-> free zid z x \/ in_block pg o x.
Proof.
  intros Hh x. split.
  - intros (q & o' & [Hq|[-> ->]]%Hh & Hx); [left; by exists q, o'|by right].
  - intros [(q & o' & Hq & Hx)|Hx]; [exists q, o'|exists pg, o]; (split; [apply Hh|done]); [by left|by right].
Qed.

Lemma merged_added zid z z' pg o : merged zid z -> (o < MAX_ORDER - 1 -> ~ head zid z (buddy_of pg o) o) -> 0 <= o ->
  (forall q o', head zid z' q o' <-> head zid z q o' \/ (q = pg /\ o' = o)) -> merged zid z'.
Proof.
  intros Hm Hn Ho Hh q o' [Hq|[-> ->]]%Hh Hlt [Hb|[Hb Hbo]]%Hh.
  - by apply (Hm q o').
  - subst o'. apply (Hn Hlt). rewrite <- Hb. by rewrite buddy_involutive.
  - by apply Hn.
  - unfold buddy_of in Hb. assert (H : Z.testbit (Z.lxor pg (2 ^ o)) o = Z.testbit pg o) by (by rewrite Hb).
    rewrite Z.lxor_spec, Z.pow2_bits_true in H by done. by destruct (Z.testbit pg o).
Qed.

Lemma merge_and_list_ok zid z pg order mt :
  wf_zone zid z -> merged zid z -> in_hand zid z pg order -> 0 <= mt < MIGRATE_TYPES ->
  exists z', merge_and_list z pg order mt = Some z' /\ wf_zone zid z' /\ merged zid z' /\ same_zones z z' /\
    (forall x, free zid z' x <-> free zid z x \/ in_block pg order x) /\
    (forall x, ~ free zid z x -> ~ in_block pg order x -> mem_map z' !! x = mem_map z !! x).
Proof.
  intros Hw Hm [Hb Hd] Hmt. unfold merge_and_list. rewrite Z.shiftl_1_l, land_ones_mod by done.
  destruct (merge_loop_ok zid z pg order Hw Hm (conj Hb Hd)) as ([[[[z1 p1] idx] b] o1] & -> & (Hw1 & Hm1 & Hz1 & [Hb1 Hd1] & -> & Hf1 & Hk1) & Hnb).
  rewrite bind_Some.
  destruct (set_page_order_Some zid z1 p1 o1 Hb1) as (z2 & E2 & Hz2).
  destruct (next_order_free_total zid z1 z2 p1 b o1 Hw1 Hb1 Hz2 ltac:(tauto)) as [t Ht].
  destruct (block_add_ok zid z1 p1 o1 mt t Hw1 Hb1 Hd1 Hmt) as (z' & E & Hw' & Hz' & Hh & _ & Hk'). unfold block_add in E.
  rewrite E2, bind_Some in E |- *. rewrite Ht, bind_Some. exists z'. do 2 (split; [done|]). split; [|split; [by apply (same_zones_trans _ z1)|split]].
  - apply (merged_added zid z1 z' p1 o1); [done|tauto|apply Hb1|done].
  - intros x. rewrite (free_added _ _ _ _ _ Hh). apply Hf1.
  - intros x Hx Hx'. rewrite Hk'; [apply Hk1; tauto|]. intros ->. destruct (proj1 (Hf1 p1)); [right; apply in_block_first; apply Hb1|done..].
Qed.


(** *** Compound pages *)

Definition block_page (z : zone) (pg o : Z) : Prop := 0 <= o /\ forall x, in_block pg o x -> is_Some (mem_map z !! x).

(** What taking a compound page apart does to a page: not its zone, nor that it is not the head of a free block. *)
Definition kept (g g' : page) : Prop :=
  zone_id g' = zone_id g /\ private g' = private g /\ (page_mapcount g' = page_mapcount g \/ page_mapcount g' = -1).

(** The pages of the block before the [i]th have been taken apart. *)
Record cleared (z : zone) (pg o i : Z) (z' : zone) : Prop := {
  cl_areas : areas z' = areas z;
  cl_extent : same_extent z z';
  cl_in : forall x g', in_block pg o x -> mem_map z' !! x = Some g' -> exists g, mem_map z !! x = Some g /\ kept g g';
  cl_domain : forall x, is_Some (mem_map z !! x) -> is_Some (mem_map z' !! x);
  cl_rest : forall x, ~ in_block pg o x \/ pg + i <= x -> mem_map z' !! x = mem_map z !! x
}.

Lemma cleared_set z pg o i i' z' x g g' : cleared z pg o i z' -> in_block pg o x -> x < pg + i' -> i <= i' ->
  mem_map z' !! x = Some g -> kept g g' -> cleared z pg o i' (set_page z' x g').
Proof.
  intros [Ha He Hin Hd Hr] Hx Hlt Hi Hg Hk. split; try done.
  - intros y gy Hy. unfold set_page. cbn [mem_map with_map]. destruct (decide (y = x)) as [->|Hne].
    + rewrite lookup_insert_eq. intros [= <-]. destruct (Hin x g Hx Hg) as (g0 & Hg0 & H1 & H2 & H3). exists g0. split; [done|].
      destruct Hk as (K1 & K2 & K3). split_and!; [congruence|congruence|]. destruct K3 as [->| ->]; [done|by right].
    + rewrite lookup_insert_ne by congruence. by apply Hin.
  - intros y Hy. unfold set_page. cbn [mem_map with_map]. destruct (decide (y = x)) as [->|Hne]; [rewrite lookup_insert_eq; eauto|].
    rewrite lookup_insert_ne by congruence. auto.
  - intros y Hy. unfold set_page. cbn [mem_map with_map]. rewrite lookup_insert_ne; [apply Hr; destruct Hy; [by left|right; lia]|].
    intros ->. destruct Hy; [done|lia].
Qed.

Lemma cleared_refl z pg o : cleared z pg o 0 z.
Proof. split; try done. intros x g Hx Hg. exists g. split; [done|]. split_and!; try done. by left. Qed.

(** A block that is in hand stays so, in a zone that is as consistent as before. *)
Lemma cleared_ok zid z pg o i z' : wf_zone zid z -> in_hand zid z pg o -> cleared z pg o i z' ->
  wf_zone zid z' /\ same_zones z z' /\ forall q o', head zid z' q o' <-> head zid z q o'.
Proof.
  intros Hw [Hb Hd] [Ha He Hin Hdom Hr].
  assert (Hz : same_zones z z').
  { split; [|done]. intros q. destruct (decide (pg <= q < pg + 2 ^ o)) as [Hq|Hq]; [|by rewrite Hr by (by left)].
    destruct (mem_map z' !! q) as [g'|] eqn:E.
    - destruct (Hin q g' Hq E) as (g & -> & H & _). simpl. by rewrite H.
    - destruct (mem_map z !! q) as [g|] eqn:E0; [|done]. destruct (Hdom q); [eauto|congruence]. }
  assert (Hh : forall q o', head zid z' q o' <-> head zid z q o').
  { intros q o'. destruct (decide (pg <= q < pg + 2 ^ o)) as [Hq|Hq]; [|unfold head; by rewrite Hr by (by left)].
    assert (Hno : ~ head zid z q o').
    { intros Hq'. apply (Hd q Hq). exists q, o'. split; [done|]. by apply (in_block_head zid z). }
    split; [|done]. intros (g' & E & Hbud & Hp & Hzid). destruct (Hin q g' Hq E) as (g & Hg & H1 & H2 & [H3|H3]).
    - exists g. unfold PageBuddy in *. rewrite <- H1, <- H2, <- H3. done.
    - unfold PageBuddy in Hbud. by rewrite H3 in Hbud. }
  split; [|done]. unfold blocks, nr_of, shaped in *. apply (wf_changed zid z); try done.
  - unfold shaped. rewrite Ha. apply (w_shape _ _ Hw).
  - intros p o'. rewrite Hh. unfold blocks. rewrite Ha. apply (w_heads _ _ Hw).
  - intros o'. unfold blocks. rewrite Ha. apply (w_nodup _ _ Hw).
  - intros o' Ho'. unfold blocks, nr_of. rewrite Ha. by apply (w_count _ _ Hw).
  - intros p o' Hp%Hh. by apply (w_block _ _ Hw).
  - intros p o1 q o2 x Hp%Hh Hq%Hh. by apply (w_apart _ _ Hw).
Qed.

(** A compound page of 2^order pages: a head that has the order, and tails that point to it. *)
Definition tail_of (z : zone) (pg x : Z) : Prop := exists g, mem_map z !! x = Some g /\ PageTail g = true /\ private g = pg.
Definition tails (z : zone) (pg n : Z) : Prop := forall i, 1 <= i < n -> tail_of z pg (pg + i).
Definition whole (z : zone) (pg order : Z) : Prop :=
  (exists g, mem_map z !! pg = Some g /\ PageHead g = true) /\ compound_order z pg = Some order /\ tails z pg (2 ^ order).

Definition destroying (z : zone) (pg o : Z) (ok : bool) (st : zone * Z * Z) : Prop :=
  let '(z', i, bad) := st in
  1 <= i <= 2 ^ o /\ cleared z pg o i z' /\ 0 <= bad <= i /\ (bad = 0 <-> ok = true /\ tails z pg i).

Lemma bad_page_cleared z pg o i z' : cleared z pg o i z' -> block_page z pg o -> 1 <= i -> exists z'', bad_page z' pg = Some z'' /\ cleared z pg o i z''.
Proof.
  intros Hc [Ho Hp] Hi. unfold bad_page. destruct (cl_domain _ _ _ _ _ Hc pg) as [g Hg]; [apply Hp, in_block_first; lia|].
  rewrite Hg, bind_Some. eexists. split; [done|]. apply (cleared_set z pg o i i z' pg g); try done; try lia; [apply in_block_first; lia|].
  split_and!; try done. by right.
Qed.

Lemma tails_snoc z pg i : 1 <= i -> tails z pg (i + 1) <-> tails z pg i /\ tail_of z pg (pg + i).
Proof.
  intros Hi. split.
  - intros H. split; [intros j Hj|]; apply H; lia.
  - intros [H1 H2] j Hj. destruct (decide (j = i)) as [->|]; [done|]. apply H1. lia.
Qed.

Lemma tail_of_decides z pg x g : mem_map z !! x = Some g -> (negb (PageTail g) || negb (private g =? pg)) = false <-> tail_of z pg x.
Proof.
  intros Hg. unfold tail_of. rewrite orb_false_iff, !negb_false_iff, Z.eqb_eq. split; [eauto|]. intros (g' & Hg' & H). by simplify_eq.
Qed.

Lemma destroy_body_ok z pg o ok s : 0 <= o < MAX_ORDER -> block_page z pg o -> destroying z pg o ok s ->
  body_ok (destroy_body pg (2 ^ o)) (destroying z pg o ok) (fun s => 2 ^ o - s.1.2)
    (fun r => cleared z pg o (2 ^ o) r.2 /\ (r.1 = 0 <-> ok = true /\ tails z pg (2 ^ o))) s.
Proof.
  intros Ho Hb. destruct s as [[z1 i] bad]. intros (Hi & Hc & Hbad & Hok). unfold body_ok, destroy_body. cbn [fst snd]. split; [lia|].
  destruct (Z.ltb_spec i (2 ^ o)) as [Hlt|Hge]; [|replace i with (2 ^ o) in * by lia; done].
  assert (Hx : in_block pg o (pg + i)) by (unfold in_block; lia). destruct (proj2 Hb _ Hx) as [g Hg].
  assert (Hg1 : mem_map z1 !! (pg + i) = Some g) by (rewrite (cl_rest _ _ _ _ _ Hc); [done|right; lia]). rewrite Hg1, bind_Some.
  pose proof (tail_of_decides z pg (pg + i) g Hg) as Ht. pose proof (tails_snoc z pg i ltac:(lia)) as Hs.
  assert (2 ^ o <= 2 ^ 10) by (apply Z.pow_le_mono_r; unfold MAX_ORDER in Ho; lia).
  set (c := negb (PageTail g) || negb (private g =? pg)) in *.
  assert (exists z2 bad', (if c then z0 ← bad_page z1 pg; Some (z0, s32 (bad + 1)) else Some (z1, bad)) = Some (z2, bad') /\
    cleared z pg o i z2 /\ mem_map z2 !! (pg + i) = Some g /\ 0 <= bad' <= i + 1 /\ (bad' = 0 <-> bad = 0 /\ c = false)) as
    (z2 & bad' & -> & Hc2 & Hg2 & Hbad' & Hb0).
  { destruct c.
    - destruct (bad_page_cleared _ _ _ _ _ Hc Hb ltac:(lia)) as (z2 & -> & Hc2). exists z2, (bad + 1). cbn [mbind option_bind].
      rewrite s32_small by lia. do 2 (split; [done|]). split; [|split; [lia|split; [lia|by intros [_ ?]]]]. rewrite (cl_rest _ _ _ _ _ Hc2); [done|right; lia].
    - exists z1, bad. do 3 (split; [done|]). split; [lia|tauto]. }
  rewrite bind_Some, Hg2, bind_Some. split; [|cbn [fst snd]; lia]. split; [lia|]. split; [|split; [lia|]].
  - apply (cleared_set z pg o i (i + 1) z2 (pg + i) g); try done; try lia. split_and!; try done. by left.
  - rewrite Hb0, Hok, Hs, Ht. tauto.
Qed.

(** Taking a compound page apart succeeds exactly on a whole one. *)
Lemma destroy_compound_page_ok z pg o g : 0 <= o < MAX_ORDER -> block_page z pg o -> mem_map z !! pg = Some g -> (PageHead g = true -> 0 < o) ->
  exists r, destroy_compound_page z pg o = Some r /\ cleared z pg o (2 ^ o) r.2 /\ (r.1 = 0 <-> whole z pg o).
Proof.
  intros Ho Hb Hg Hpos. unfold destroy_compound_page, whole. rewrite Z.shiftl_1_l.
  assert (exists co, compound_order z pg = Some co) as [co Hco].
  { unfold compound_order. rewrite Hg, bind_Some. destruct (PageHead g); [|eauto]. specialize (Hpos eq_refl).
    destruct (proj2 Hb (pg + 1)) as [h ->]; [|simpl; eauto]. unfold in_block. pose proof (Z.pow_gt_1 2 o). lia. }
  rewrite Hco, bind_Some, Hg, bind_Some. set (c := negb (co =? o) || negb (PageHead g)).
  assert (Hc : c = false <-> co = o /\ PageHead g = true) by (unfold c; by rewrite orb_false_iff, !negb_false_iff, Z.eqb_eq).
  pose proof (in_block_first pg o ltac:(lia)) as Hx. pose proof (Z.pow_pos_nonneg 2 o).
  assert (H1 : cleared z pg o 1 z) by (destruct (cleared_refl z pg o); split; try done; intros x ?; done).
  assert (exists z1 bad, (if c then z0 ← bad_page z pg; Some (z0, 1) else Some (z, 0)) = Some (z1, bad) /\ cleared z pg o 1 z1 /\
    0 <= bad <= 1 /\ (bad = 0 <-> negb c = true)) as (z1 & bad & -> & Hc1 & Hbad & Hb0).
  { destruct c; [|exists z, 0; done]. destruct (bad_page_cleared _ _ _ _ _ H1 Hb ltac:(lia)) as (z1 & -> & Hc1). by exists z1, 1. }
  rewrite bind_Some. destruct (cl_domain _ _ _ _ _ Hc1 pg (mk_is_Some _ _ Hg)) as [g1 Hg1]. rewrite Hg1, bind_Some.
  destruct (loop_total (destroy_body pg (2 ^ o)) (destroying z pg o (negb c)) (fun s => 2 ^ o - s.1.2) _ (fun s => destroy_body_ok z pg o (negb c) s Ho Hb))
    with (bound := 2 ^ o + 1) (s := (set_page z1 pg (with_flags g1 false (PageTail g1)), 1, bad)) as (r & -> & Hr & Hr0).
  - split; [lia|]. split; [|split; [lia|]].
    + apply (cleared_set z pg o 1 1 z1 pg g1); try done; try lia. split_and!; try done. by left.
    + rewrite Hb0. split; [intros ?; split; [done|intros i Hi; lia]|tauto].
  - cbn [fst snd]. lia.
  - exists r. do 2 (split; [done|]). rewrite Hr0, negb_true_iff, Hc. split.
    + intros [[-> Hh] Ht]. split; [by exists g|done].
    + intros ((g' & Hg' & Hh) & [= ->] & Ht). simplify_eq. done.
Qed.

(** C3: Freeing an aligned block of pages of the zone that is not free always succeeds and reads no page
    outside the map.  It keeps the lists, the marks and the counters consistent and merges buddies until no two are
    both free.  No page that is neither free nor in the block is changed.  Exactly the pages of the block become free, unless its first page belongs to a compound page that is not whole: then nothing
    is freed. *)
Theorem free_one_page_correct zid z pg order mt g :
  wf_zone zid z -> merged zid z -> in_hand zid z pg order -> mem_map z !! pg = Some g -> (PageHead g = true -> 0 < order) ->
  0 <= mt < MIGRATE_TYPES ->
  exists z', __free_one_page z pg order mt = Some z' /\ wf_zone zid z' /\ merged zid z' /\ same_zones z z' /\
    (PageCompound g = false \/ whole z pg order -> forall x, free zid z' x <-> free zid z x \/ in_block pg order x) /\
    (PageCompound g = true -> ~ whole z pg order -> forall x, free zid z' x <-> free zid z x) /\
    (forall x, ~ free zid z x -> ~ in_block pg order x -> mem_map z' !! x = mem_map z !! x).
Proof.
  intros Hw Hm Hh Hg Hpos Hmt. unfold __free_one_page. rewrite Hg, bind_Some. destruct (PageCompound g).
  2: { destruct (merge_and_list_ok zid z pg order mt Hw Hm Hh Hmt) as (z' & -> & Hw' & Hm' & Hz' & Hf & Hk). exists z'. do 4 (split; [done|]). split; [auto|done]. }
  pose proof Hh as [(_ & Ho & _ & Hin) _].
  destruct (destroy_compound_page_ok z pg order g Ho) as ([bad z1] & -> & Hc & Hb); [|done|done|].
  { split; [lia|]. intros x Hx. destruct (in_zone_page _ _ _ (Hin x Hx)) as (y & -> & _). eauto. }
  destruct (cleared_ok _ _ _ _ _ _ Hw Hh Hc) as (Hw1 & Hz1 & Hh1). cbn [fst snd] in *. rewrite bind_Some.
  assert (Hf1 : forall x, free zid z1 x <-> free zid z x) by (intros x; unfold free; by setoid_rewrite Hh1).
  assert (Hm1 : merged zid z1) by (apply (merged_sub _ z); [done|apply Hh1]).
  destruct (truth bad) eqn:E; rewrite ?truth_true, ?truth_false in E.
  { exists z1. do 4 (split; [done|]). split; [intros [?|?]; [done|]; tauto|]. split; [done|]. intros x _ Hx. apply (cl_rest _ _ _ _ _ Hc). by left. }
  assert (Hh' : in_hand zid z1 pg order).
  { destruct Hh as [Hbl Hd]. split; [by apply (same_zones_block _ z)|]. intros x Hx. rewrite Hf1. by apply Hd. }
  destruct (merge_and_list_ok zid z1 pg order mt Hw1 Hm1 Hh' Hmt) as (z' & -> & Hw' & Hm' & Hz' & Hf & Hk). exists z'. do 3 (split; [done|]).
  split; [by apply (same_zones_trans _ z1)|]. split; [intros _ x; by rewrite Hf, Hf1|]. split; [intros _ Hn; tauto|].
  intros x Hx Hx'. rewrite Hk by (rewrite ?Hf1; done). apply (cl_rest _ _ _ _ _ Hc). by left.
Qed.

(** ** Allocating *)

Lemma list_of_blocks z o mt p : p ∈ list_of z o mt -> p ∈ blocks z o.
Proof.
  unfold list_of, blocks. destruct (areas z).[o] as [a|]; [|done]. simpl. destruct (free_list a).[mt] as [l|] eqn:E; [|by intros ?%not_elem_of_nil].
  simpl. intros Hp. apply arr_get_Some in E as [_ E]. rewrite list_elem_of_In, in_concat. exists l.
  rewrite <- !list_elem_of_In. split; [by eapply list_elem_of_lookup_2|done].
Qed.

Lemma concat_NoDup_once {A} (ls : list (list A)) i j l l' x : NoDup (concat ls) ->
  ls !! i = Some l -> ls !! j = Some l' -> x ∈ l -> x ∈ l' -> i = j.
Proof.
  revert i j. induction ls as [|m ls IH]; intros i j Hn; [done|]. simpl in Hn. apply list.NoDup_app in Hn as (_ & Hd & Hn).
  assert (Hin : forall k l, ls !! k = Some l -> x ∈ l -> x ∈ concat ls).
  { intros k l0 Hk Hx. rewrite list_elem_of_In, in_concat. exists l0. rewrite <- !list_elem_of_In. split; [by eapply list_elem_of_lookup_2|done]. }
  destruct i as [|i], j as [|j]; simpl; intros Hi Hj Hx Hx'; [done| | |f_equal; by apply IH].
  - injection Hi as ->. destruct (Hd x Hx). by eapply Hin.
  - injection Hj as ->. destruct (Hd x Hx'). by eapply Hin.
Qed.

(** A block is on one list only. *)
Lemma list_of_once zid z p o o' mt mt' : wf_zone zid z -> p ∈ list_of z o mt -> p ∈ list_of z o' mt' -> mt = mt'.
Proof.
  intros Hw Hp Hp'. assert (o = o') as <-.
  { apply (head_fun zid z p); by eapply (w_heads _ _ Hw), list_of_blocks. }
  pose proof (w_nodup _ _ Hw o) as Hn. unfold list_of, blocks in *. destruct (areas z).[o] as [a|]; [|by apply not_elem_of_nil in Hp].
  simpl in *. destruct (free_list a).[mt] as [l|] eqn:E; [|by apply not_elem_of_nil in Hp].
  destruct (free_list a).[mt'] as [l'|] eqn:E'; [|by apply not_elem_of_nil in Hp']. simpl in *.
  apply arr_get_Some in E as [? E], E' as [? E']. apply (concat_NoDup_once _ _ _ _ _ _ Hn E E') in Hp; [lia|done].
Qed.

Ltac zbind := cbn [mbind option_bind mem_map areas with_areas set_page with_map].

(** The parts of either operation may come in another order. *)
Lemma block_add_order z p o mt tail : block_add z p o mt tail =
  (z ← add_to z p o mt tail; z ← add_nr_free z o 1; set_page_order z p o).
Proof.
  unfold block_add, set_page_order, add_to, add_nr_free. destruct (mem_map z !! p) as [g|] eqn:Hg; zbind;
    (destruct (areas z).[o] as [a|]; [|done]); zbind; (destruct (free_list a).[mt]; [|done]); zbind;
    (destruct (arr_set (free_list a) _ _); [|done]); zbind; (destruct (arr_set (areas z) _ _) as [ar|]; [|done]); zbind;
    (destruct ar.[o]; [|done]); zbind; (destruct (arr_set ar _ _); [|done]); zbind; by rewrite Hg.
Qed.

Lemma block_del_order z p o : block_del z p o = (z ← rmv_page_order (lru_del z p) p; add_nr_free z o (-1)).
Proof.
  unfold block_del, rmv_page_order, add_nr_free. set (y := lru_del z p). destruct (mem_map y !! p) as [g|] eqn:Hg; zbind;
    (destruct (areas y).[o] as [a|]; [|done]); zbind; (destruct (arr_set (areas y) _ _); [|done]); zbind; by rewrite Hg.
Qed.

(** The halves of a block. *)
Lemma halves_ok zid z p o : 0 < o -> in_hand zid z p o ->
  in_hand zid z p (o - 1) /\ in_hand zid z (p + 2 ^ (o - 1)) (o - 1) /\ buddy_of (p + 2 ^ (o - 1)) (o - 1) = p /\
  forall x, in_block p o x <-> in_block p (o - 1) x \/ in_block (p + 2 ^ (o - 1)) (o - 1) x.
Proof.
  intros Ho [(Hp & Ho' & Ha & Hin) Hd]. pose proof (Z.pow_pos_nonneg 2 (o - 1)) as Hpos.
  pose proof (pow2_double (o - 1) ltac:(lia)) as E. replace (o - 1 + 1) with o in E by lia.
  assert (Ha' : p mod 2 ^ (o - 1) = 0).
  { rewrite E in Ha. apply Z.mod_divide in Ha; [|lia]. apply Z.mod_divide; [lia|]. destruct Ha as [k ->]. exists (2 * k). lia. }
  assert (Hx : forall x, in_block p o x <-> in_block p (o - 1) x \/ in_block (p + 2 ^ (o - 1)) (o - 1) x) by (intros x; unfold in_block; lia).
  split; [|split; [split|split; [|done]]].
  - split; [|intros x ?; apply Hd, Hx; by left]. do 2 (split; [lia|]). split; [done|]. intros x ?. apply Hin, Hx. by left.
  - do 2 (split; [lia|]). split; [by rewrite <- Zplus_mod_idemp_r, Z_mod_same_full, Z.add_0_r|]. intros x ?. apply Hin, Hx. by right.
  - intros x ?. apply Hd, Hx. by right.
  - destruct (buddy_cases p (o - 1) Hp ltac:(lia) Ha') as [(_ & <- & _)|(E2 & _)]; [apply buddy_involutive|].
    replace (o - 1 + 1) with o in E2 by lia. lia.
Qed.

(** [F] are the pages that are free or in hand, and the lists of the other types are those of [z0]. *)
Definition splitting (zid : Z) (F : Z -> Prop) (z0 : zone) (pg low mt : Z) (st : zone * Z) : Prop :=
  let '(z, high) := st in
  wf_zone zid z /\ merged zid z /\ same_zones z0 z /\ in_hand zid z pg high /\ low <= high /\
  (forall x, free zid z x \/ in_block pg high x <-> F x) /\
  (forall o mt', mt' <> mt -> list_of z o mt' = list_of z0 o mt') /\
  (forall x, ~ F x -> mem_map z !! x = mem_map z0 !! x).

Lemma halving_ok zid F z0 z pg low high mt : 0 <= mt < MIGRATE_TYPES -> 0 <= low -> splitting zid F z0 pg low mt (z, high) ->
  exists z', expand z pg low high mt = Some z' /\ splitting zid F z0 pg low mt (z', low).
Proof.
  intros Hmt Hlow HI. apply (loop_total (expand_body pg low mt) (splitting zid F z0 pg low mt) (fun st => st.2 - low)); [|done|].
  - clear z high HI. intros [z high] (Hw & Hm & Hsz & Hh & Hle & Hf & Hl & Hk). unfold body_ok, expand_body. cbn [snd]. split; [lia|].
    destruct (Z.ltb_spec low high) as [Hlt|Hge].
    2: { replace low with high in * by lia. by split_and!. }
    destruct (halves_ok zid z pg high ltac:(lia) Hh) as (Hlo & [Hb Hd] & Hbud & Hx). rewrite Z.shiftl_1_l.
    destruct (block_add_ok zid z (pg + 2 ^ (high - 1)) (high - 1) mt false Hw Hb Hd Hmt) as (z' & E & Hw' & Hz & Hh' & Hl' & Hk').
    rewrite block_add_order in E. cbv zeta.
    destruct (add_to z _ _ mt false) as [z1|]; [|done]. cbn [mbind option_bind] in E |- *.
    destruct (add_nr_free z1 _ 1) as [z2|]; [|done]. cbn [mbind option_bind] in E |- *. rewrite E. cbn [mbind option_bind snd].
    split; [|lia]. pose proof (free_added _ _ _ _ _ Hh') as Hf'. destruct Hlo as [Hbl Hdl]. split; [done|]. split; [|split; [by apply (same_zones_trans _ z)|split; [|split; [lia|split; [|split]]]]].
    + apply (merged_added zid z z' (pg + 2 ^ (high - 1)) (high - 1)); [done| |lia|done]. rewrite Hbud. intros _ Hp.
      apply (Hdl pg); [apply in_block_first; lia|]. exists pg, (high - 1). split; [done|]. apply in_block_first. lia.
    + split; [by apply (same_zones_block _ z)|]. intros x Hx1 [Hx2|Hx2]%Hf'; [by apply (Hdl x)|]. unfold in_block in *. lia.
    + intros x. rewrite Hf', <- Hf, Hx. tauto.
    + intros o mt' Hne. rewrite Hl', <- Hl by done. bcase; [|done]. bcase; [lia|done].
    + intros x HF. rewrite Hk'; [by apply Hk|]. intros ->. apply HF, Hf. right. apply Hx. right. apply in_block_first. lia.
  - cbn [snd]. destruct HI as (_ & _ & _ & [(_ & ? & _) _] & _). lia.
Qed.

(** What an allocation of 2^order pages from the lists of one migration type gives: the first block of the smallest
    order that has one, or nothing when no list has a block that is large enough. *)
Definition allocated (zid : Z) (z : zone) (order mt : Z) (r : option Z * zone) : Prop :=
  let '(pg, z') := r in
  wf_zone zid z' /\ merged zid z' /\ same_zones z z' /\ (forall o mt', mt' <> mt -> list_of z' o mt' = list_of z o mt') /\
  (forall x, ~ free zid z x -> mem_map z' !! x = mem_map z !! x) /\
  match pg with
  | None => z' = z /\ forall c, order <= c < MAX_ORDER -> list_of z c mt = []
  | Some pg =>
      (exists c rest, order <= c < MAX_ORDER /\ list_of z c mt = pg :: rest /\ forall c', order <= c' < c -> list_of z c' mt = []) /\
      block zid z pg order /\ (forall x, in_block pg order x -> free zid z x) /\
      forall x, free zid z' x <-> free zid z x /\ ~ in_block pg order x
  end.

(** A block that is taken off the lists is in hand. *)
Lemma taken zid z z' pg c : wf_zone zid z -> merged zid z -> head zid z pg c -> same_zones z z' ->
  (forall q o', head zid z' q o' <-> head zid z q o' /\ q <> pg) ->
  merged zid z' /\ in_hand zid z' pg c /\ forall x, free zid z' x \/ in_block pg c x <-> free zid z x.
Proof.
  intros Hw Hm Hp Hz Hh. split; [apply (merged_sub _ z); [done|apply Hh]|]. split.
  - split; [by apply (same_zones_block _ z), (w_block _ _ Hw)|]. intros x Hx (q & o & [Hq Hne]%Hh & Hxq).
    by apply Hne, (w_apart _ _ Hw q o pg c x).
  - intros x. split.
    + intros [(q & o & [Hq _]%Hh & Hx)|Hx]; [by exists q, o|by exists pg, c].
    + intros (q & o & Hq & Hx). destruct (decide (q = pg)) as [->|Hne]; [right; by destruct (head_fun _ _ _ _ _ Hq Hp)|].
      left. exists q, o. by rewrite Hh.
Qed.

Lemma smallest_taken zid z z' pg c mt rest : wf_zone zid z -> merged zid z -> list_of z c mt = pg :: rest ->
  block_del z pg c = Some z' -> forall low, low <= c -> splitting zid (free zid z) z pg low mt (z', c).
Proof.
  intros Hw Hm Hl E low Hle. assert (Hin : pg ∈ list_of z c mt) by (rewrite Hl; left).
  assert (Hp : head zid z pg c) by (by apply (w_heads _ _ Hw), (list_of_blocks _ _ mt)).
  destruct (block_del_ok zid z pg c Hw Hp) as (z1 & E1 & Hw' & Hz & Hh & Hls & Hk). rewrite E in E1. injection E1 as <-.
  destruct (taken zid z z' pg c) as (Hm' & Hhand & Hf); try done. do 6 (split; [done|]).
  split; [intros o mt' Hne; rewrite Hls; apply filter_del_id; intros Hpg; by apply Hne, (list_of_once zid z pg o c mt' mt)|].
  intros x HF. apply Hk. intros ->. apply HF. exists pg, c. split; [done|]. by apply (in_block_head zid z).
Qed.

Lemma expanded zid z z0 z' pg order mt : splitting zid (free zid z) z0 pg order mt (z', order) ->
  (forall x, in_block pg order x -> free zid z x) /\ forall x, free zid z' x <-> free zid z x /\ ~ in_block pg order x.
Proof.
  intros (_ & _ & _ & [_ Hd] & _ & Hf & _). split; intros x; rewrite <- Hf; [by right|]. split; [|tauto].
  intros Hx. split; [by left|]. intros Hb. by apply (Hd x).
Qed.

(** An allocation of 2^order pages from the lists of one type always comes to an end and keeps the zone consistent and merged and the lists of the other
    migration types and the pages that are not free as they were.  It takes the first block of the smallest order that has one on the lists of its type, gives an
    aligned block of free pages, and exactly these pages are no longer free; it gives no page only
    when none of these lists has a block of the order or a larger one, and then changes nothing. *)
Lemma rmqueue_smallest_ok zid z order mt :
  wf_zone zid z -> merged zid z -> 0 <= order < MAX_ORDER -> 0 <= mt < MIGRATE_TYPES ->
  exists r, __rmqueue_smallest z order mt = Some r /\ allocated zid z order mt r.
Proof.
  intros Hw Hm Ho Hmt.
  apply (loop_total (rmqueue_body z order mt)
    (fun c => order <= c <= MAX_ORDER /\ forall c', order <= c' < c -> list_of z c' mt = []) (fun c => MAX_ORDER - c)).
  2: { split; [lia|]. intros c Hc. lia. }
  2: lia.
  intros c [Hc Hempty]. unfold body_ok, rmqueue_body. split; [lia|]. destruct (Z.ltb_spec c MAX_ORDER) as [Hlt|Hge].
  2: { do 6 (split; [done|]). intros c' Hc'. apply Hempty. lia. }
  destruct (area_Some z c (w_shape _ _ Hw) ltac:(lia)) as (a & Ha & Hl). rewrite Ha, bind_Some.
  destruct (arr_get_is_Some (free_list a) mt) as [l Hmtl]; [lia|]. rewrite Hmtl, bind_Some.
  assert (El : list_of z c mt = l) by (unfold list_of; by rewrite Ha, bind_Some, Hmtl). destruct l as [|pg rest].
  { split; [|lia]. split; [lia|]. intros c' Hc'. destruct (decide (c' = c)) as [->|]; [done|]. apply Hempty. lia. }
  assert (Hp : head zid z pg c) by (apply (w_heads _ _ Hw), (list_of_blocks _ _ mt); rewrite El; left).
  destruct (block_del_ok zid z pg c Hw Hp) as (z1 & E & _). pose proof (smallest_taken _ _ _ _ _ _ _ Hw Hm El E order ltac:(lia)) as HI.
  rewrite block_del_order in E. destruct (rmv_page_order (lru_del z pg) pg) as [z2|]; [|done]. cbn [mbind option_bind] in E |- *.
  rewrite E. cbn [mbind option_bind]. destruct (halving_ok zid (free zid z) z z1 pg order c mt Hmt ltac:(lia) HI) as (z' & -> & HI'). rewrite bind_Some.
  pose proof HI' as (Hw' & Hm' & Hz' & [Hb' _] & _ & _ & Hls & Hk'). destruct (expanded _ _ _ _ _ _ _ HI') as [Hin Hf].
  do 5 (split; [done|]). split; [exists c, rest; split; [lia|done]|]. split; [|done].
  destruct Hb' as (? & ? & ? & _). do 3 (split; [done|]). intros x (q & o & Hq & Hx)%Hin. by apply (w_block _ _ Hw q o).
Qed.

(** ** A zone of 1024 pages *)

Definition idle_page : page := {| page_mapcount := -1; private := 0; zone_id := 0; PageHead := false; PageTail := false; lru_prev := 0 |}.
Definition full_zone : zone := {|
  mem_map := gset_to_gmap idle_page (list_to_set (seqZ 0 1024));
  areas := replicate 11 {| free_list := replicate 5 []; nr_free := 0 |};
  zone_start_pfn := 0; spanned_pages := 1024; pageblock_flags := replicate 32 false |}.
(** The same with all its pages free, as one block. *)
Definition idle_zone : zone := default full_zone (block_add full_zone 0 10 0 false).

Lemma full_zone_page x g : mem_map full_zone !! x = Some g <-> 0 <= x < 1024 /\ g = idle_page.
Proof. unfold full_zone. cbn [mem_map]. rewrite lookup_gset_to_gmap_Some, elem_of_list_to_set, elem_of_seqZ. naive_solver. Qed.

Lemma full_zone_head p o : ~ head 0 full_zone p o.
Proof. intros (g & [_ ->]%full_zone_page & Hb & _). done. Qed.

Lemma full_zone_areas o a : (areas full_zone).[o] = Some a -> a = {| free_list := replicate 5 []; nr_free := 0 |}.
Proof. intros [_ H]%arr_get_Some. by apply lookup_replicate in H as [-> _]. Qed.

Lemma full_zone_blocks o : blocks full_zone o = [].
Proof. unfold blocks. destruct (areas full_zone).[o] eqn:E; [|done]. apply full_zone_areas in E as ->. done. Qed.

Lemma full_zone_wf : wf_zone 0 full_zone /\ merged 0 full_zone /\ forall x, ~ free 0 full_zone x.
Proof.
  split_and!; [|intros p o []%full_zone_head|intros x (p & o & []%full_zone_head & _)]. split.
  - split; [done|]. intros o a ->%full_zone_areas. done.
  - intros p q Hpq [g [Hp _]%full_zone_page]. exists idle_page. apply full_zone_page. split; [|done].
    change (2 ^ (MAX_ORDER - 1)) with 1024 in Hpq. zlia.
  - intros p o. rewrite full_zone_blocks. split; [intros []%full_zone_head|intros []%not_elem_of_nil].
  - intros o. rewrite full_zone_blocks. constructor.
  - intros o Ho. rewrite full_zone_blocks. unfold nr_of. destruct (areas full_zone).[o] eqn:E; [|done]. by apply full_zone_areas in E as ->.
  - intros p o []%full_zone_head.
  - intros p o q o' x []%full_zone_head.
Qed.

Lemma full_zone_block p o : 0 <= p -> 0 <= o < MAX_ORDER -> p mod 2 ^ o = 0 -> p + 2 ^ o <= 1024 -> block 0 full_zone p o.
Proof.
  intros Hp Ho Ha Hle. do 3 (split; [done|]). intros x Hx. unfold in_zone, in_block in *. assert (E : mem_map full_zone !! x = Some idle_page).
  { apply full_zone_page. split; [lia|done]. }
  by rewrite E.
Qed.

Lemma idle_zone_wf : wf_zone 0 idle_zone /\ merged 0 idle_zone /\ same_zones full_zone idle_zone /\ (forall x, free 0 idle_zone x <-> 0 <= x < 1024).
Proof.
  destruct full_zone_wf as (Hw & Hm & Hf).
  destruct (block_add_ok 0 full_zone 0 10 0 false Hw) as (z' & E & Hw' & Hz' & Hh & _); [apply full_zone_block; (done || lia)|intros x _; apply Hf|done|].
  unfold idle_zone. rewrite E. change (default full_zone (Some z')) with z'. clear E. split; [exact Hw'|]. split; [|split; [exact Hz'|]].
  - apply (merged_added 0 full_zone z' 0 10 Hm); [|lia|exact Hh]. intros _. apply full_zone_head.
  - intros x. rewrite (free_added _ _ _ _ _ Hh). unfold in_block. split; [intros [H|H]; [by destruct (Hf x)|lia]|right; lia].
Qed.

Lemma free_one_page_correct_witness : exists z', __free_one_page full_zone 6 1 2 = Some z' /\ wf_zone 0 z' /\ merged 0 z' /\ same_zones full_zone z' /\
  (PageCompound idle_page = false \/ whole full_zone 6 1 -> forall x, free 0 z' x <-> free 0 full_zone x \/ in_block 6 1 x) /\
  (PageCompound idle_page = true -> ~ whole full_zone 6 1 -> forall x, free 0 z' x <-> free 0 full_zone x) /\
  (forall x, ~ free 0 full_zone x -> ~ in_block 6 1 x -> mem_map z' !! x = mem_map full_zone !! x).
Proof.
  destruct full_zone_wf as (Hw & Hm & Hf). apply (free_one_page_correct 0 full_zone 6 1 2 idle_page Hw Hm).
  - split; [apply full_zone_block; done|]. intros x _. apply Hf.
  - apply full_zone_page. split; [lia|reflexivity].
  - discriminate.
  - split; [lia|reflexivity].
Defined.

(** An allocation of eight pages splits the large block seven times, and freeing them merges all of it again. *)
Example buddy_splits_and_merges :
  ((fun r => (r.1, map (fun o => list_of r.2 o 0) [3; 4; 5; 6; 7; 8; 9; 10])) <$> __rmqueue_smallest idle_zone 3 0) =
    Some (Some 0, [[8]; [16]; [32]; [64]; [128]; [256]; [512]; []]) /\
  (__rmqueue_smallest idle_zone 3 0 ≫= fun r => (fun z => list_of z 10 0) <$> __free_one_page r.2 0 3 0) = Some [0].
Proof. vm_compute. split; reflexivity. Qed.

(** The look ahead to the next order adds the distance of the two larger blocks to the page instead of to the first page of its own larger
    block: page 0 goes to the end of its list because the block of the pages 2 and 3 is free, and page 1 does not. *)
Example look_ahead_misses_upper_half :
  let z := block_add full_zone 2 1 0 false ≫= fun z => block_add z 8 0 0 false in
  ((fun z => list_of z 0 0) <$> (z ≫= fun z => __free_one_page z 0 0 0)) = Some [8; 0] /\
  ((fun z => list_of z 0 0) <$> (z ≫= fun z => __free_one_page z 1 0 0)) = Some [1; 8].
Proof. vm_compute. split; reflexivity. Qed.
