(* ===== verification/BuddyAlloc.v ===== *)
(** * Falling back to other lists: the rest of the allocation in mm/page_alloc.c

    When the lists of the migration type that is asked for have no block, __rmqueue() takes the largest block of another type, moves the
    free pages around it to the lists of the type, and at last uses the reserve.  The theorems are
    that this keeps the zone of Buddy.v consistent, that it gives an aligned block of free pages and takes
    nothing else, and that it fails only when there is none; and that the migration type of a group of pages, kept in
    a bitmap, is what was last stored. *)

From stdpp Require Import list gmap.
From S2P Require Import Prelude Buddy.

(** ** Definitions *)

Definition MIGRATE_UNMOVABLE : Z := 0.
Definition MIGRATE_RECLAIMABLE : Z := 1.
Definition MIGRATE_MOVABLE : Z := 2.
Definition MIGRATE_RESERVE : Z := 3.

Definition pageblock_order : Z := MAX_ORDER - 1.
Definition pageblock_nr_pages : Z := Z.shiftl 1 pageblock_order.
Definition PB_migrate : Z := 0.
Definition PB_migrate_end : Z := PB_migrate + 3 - 1.
Definition NR_PAGEBLOCK_BITS : Z := PB_migrate_end + 1.

(** *** The migration types of the groups of pages *)

Definition with_pageblock_flags (z : zone) (f : list bool) : zone :=
  {| mem_map := mem_map z; areas := areas z; zone_start_pfn := zone_start_pfn z; spanned_pages := spanned_pages z; pageblock_flags := f |}.

Definition pfn_to_bitidx (z : zone) (pfn : Z) : Z :=
  Z.shiftr (ulong (pfn - zone_start_pfn z)) pageblock_order * NR_PAGEBLOCK_BITS.

(** (start_bitidx, value, flags) *)
Definition get_flags_body (bitmap : list bool) (bitidx end_bitidx : Z) (st : Z * Z * Z) : option (step (Z * Z * Z) Z) :=
  let '(start_bitidx, value, flags) := st in
  if start_bitidx <=? end_bitidx then
    b ← bitmap.[bitidx + start_bitidx];
    Some (Next (start_bitidx + 1, ulong (Z.shiftl value 1), if b : bool then Z.lor flags value else flags))
  else Some (Done flags).
Definition get_pageblock_flags_group (z : zone) (pfn start_bitidx end_bitidx : Z) : option Z :=
  loop (get_flags_body (pageblock_flags z) (pfn_to_bitidx z pfn) end_bitidx) 33 (start_bitidx, 1, 0).
Definition get_pageblock_migratetype (z : zone) (pfn : Z) : option Z := get_pageblock_flags_group z pfn PB_migrate PB_migrate_end.

(** (start_bitidx, value, bitmap) *)
Definition set_flags_body (flags bitidx end_bitidx : Z) (st : Z * Z * list bool) : option (step (Z * Z * list bool) (list bool)) :=
  let '(start_bitidx, value, bitmap) := st in
  if start_bitidx <=? end_bitidx then
    bitmap ← bitmap.[bitidx + start_bitidx <- truth (Z.land flags value)];
    Some (Next (start_bitidx + 1, ulong (Z.shiftl value 1), bitmap))
  else Some (Done bitmap).
Definition set_pageblock_flags_group (z : zone) (pfn flags start_bitidx end_bitidx : Z) : option zone :=
  with_pageblock_flags z <$> loop (set_flags_body flags (pfn_to_bitidx z pfn) end_bitidx) 33 (start_bitidx, 1, pageblock_flags z).

(** [disabled] is page_group_by_mobility_disabled. *)
Definition set_pageblock_migratetype (disabled : bool) (z : zone) (pfn migratetype : Z) : option zone :=
  set_pageblock_flags_group z pfn (if disabled then MIGRATE_UNMOVABLE else migratetype) PB_migrate PB_migrate_end.

(** (zone, nr_pageblocks, pageblock_page) *)
Definition change_body (disabled : bool) (mt : Z) (st : zone * Z * Z) : option (step (zone * Z * Z) zone) :=
  let '(z, nr_pageblocks, pg) := st in
  if truth nr_pageblocks then
    z ← set_pageblock_migratetype disabled z pg mt;
    Some (Next (z, nr_pageblocks - 1, pg + pageblock_nr_pages))
  else Some (Done z).
Definition change_pageblock_range (disabled : bool) (z : zone) (pg start_order mt : Z) : option zone :=
  let nr_pageblocks := Z.shiftl 1 (start_order - pageblock_order) in
  loop (change_body disabled mt) (nr_pageblocks + 1) (z, nr_pageblocks, pg).

(** *** Moving the free pages of a group to other lists *)

Definition list_move (z : zone) (pg order mt : Z) : option zone := add_to (lru_del z pg) pg order mt false.

(** (zone, page, pages_moved) *)
Definition move_body (end_page mt : Z) (st : zone * Z * Z) : option (step (zone * Z * Z) (Z * zone)) :=
  let '(z, pg, pages_moved) := st in
  if pg <=? end_page then
    p ← mem_map z !! pg;
    if negb (PageBuddy p) then Some (Next (z, pg + 1, pages_moved))
    else
      let order := private p in
      z ← list_move z pg order mt;
      Some (Next (z, pg + Z.shiftl 1 order, s32 (pages_moved + Z.shiftl 1 order)))
  else Some (Done (pages_moved, z)).
Definition move_freepages (z : zone) (start_page end_page mt : Z) : option (Z * zone) :=
  p ← mem_map z !! start_page;
  q ← mem_map z !! end_page;
  if negb (zone_id p =? zone_id q) then None
  else loop (move_body end_page mt) (Z.max 0 (end_page + 1 - start_page) + 1) (z, start_page, 0).

Definition move_freepages_block (z : zone) (pg mt : Z) : option (Z * zone) :=
  let start_pfn := Z.land pg (Z.lnot (pageblock_nr_pages - 1)) in
  let end_page := start_pfn + pageblock_nr_pages - 1 in
  let end_pfn := start_pfn + pageblock_nr_pages - 1 in
  let start_page := if start_pfn <? zone_start_pfn z then pg else start_pfn in
  if end_pfn >=? zone_start_pfn z + spanned_pages z then Some (0, z)
  else move_freepages z start_page end_page mt.

(** *** Taking a block of another type *)

(** The rows are filled up with MIGRATE_UNMOVABLE, the value 0. *)
Definition fallbacks : list (list Z) :=
  [[MIGRATE_RECLAIMABLE; MIGRATE_MOVABLE; MIGRATE_RESERVE; 0];
   [MIGRATE_UNMOVABLE; MIGRATE_MOVABLE; MIGRATE_RESERVE; 0];
   [MIGRATE_RECLAIMABLE; MIGRATE_UNMOVABLE; MIGRATE_RESERVE; 0];
   [MIGRATE_RESERVE; MIGRATE_RESERVE; MIGRATE_RESERVE; 0];
   [0; 0; 0; 0]].

(** The free pages around the page go to the type that is asked for; the result is the type of the rest of the block. *)
Definition claim_pageblock (disabled : bool) (z : zone) (current_order start_mt mt pg : Z) : option (Z * zone) :=
  if (Z.shiftr pageblock_order 1 <=? current_order) || (start_mt =? MIGRATE_RECLAIMABLE) || disabled then
    r ← move_freepages_block z pg start_mt;
    let '(pages, z) := r in
    z ← (if (Z.shiftl 1 (pageblock_order - 1) <=? ulong pages) || disabled then set_pageblock_migratetype disabled z pg start_mt
         else Some z);
    Some (start_mt, z)
  else Some (mt, z).

(** The part of __rmqueue_fallback() behind the test for an empty list. *)
Definition fallback_take (disabled : bool) (z : zone) (order current_order start_mt mt pg : Z) : option (Z * zone) :=
  z ← add_nr_free z current_order (-1);
  r ← claim_pageblock disabled z current_order start_mt mt pg;
  let '(mt, z) := r in
  let z := lru_del z pg in
  z ← rmv_page_order z pg;
  z ← (if pageblock_order <=? current_order then change_pageblock_range disabled z pg current_order start_mt else Some z);
  z ← expand z pg order current_order mt;
  Some (pg, z).

Definition fallback_types_body (disabled : bool) (z : zone) (order current_order start_mt : Z) (i : Z) :
    option (step Z (option (Z * zone))) :=
  if i <? MIGRATE_TYPES - 1 then
    row ← fallbacks.[start_mt];
    mt ← row.[i];
    if mt =? MIGRATE_RESERVE then Some (Next (i + 1))
    else
      a ← (areas z).[current_order];
      l ← (free_list a).[mt];
      match l with
      | [] => Some (Next (i + 1))
      | pg :: _ => r ← fallback_take disabled z order current_order start_mt mt pg; Some (Done (Some r))
      end
  else Some (Done None).
Definition fallback_body (disabled : bool) (z : zone) (order start_mt : Z) (current_order : Z) : option (step Z (option Z * zone)) :=
  if current_order >=? order then
    r ← loop (fallback_types_body disabled z order current_order start_mt) MIGRATE_TYPES 0;
    match r with
    | Some (pg, z) => Some (Done (Some pg, z))
    | None => Some (Next (current_order - 1))
    end
  else Some (Done (None, z)).
Definition __rmqueue_fallback (disabled : bool) (z : zone) (order start_mt : Z) : option (option Z * zone) :=
  loop (fallback_body disabled z order start_mt) (MAX_ORDER + 1) (MAX_ORDER - 1).

(** The second try, from the reserve, does not fall back again. *)
Definition __rmqueue (disabled : bool) (z : zone) (order mt : Z) : option (option Z * zone) :=
  r ← __rmqueue_smallest z order mt;
  match r with
  | (None, z) =>
      if negb (mt =? MIGRATE_RESERVE) then
        r ← __rmqueue_fallback disabled z order mt;
        match r with
        | (None, z) => __rmqueue_smallest z order MIGRATE_RESERVE
        | _ => Some r
        end
      else Some r
  | _ => Some r
  end.

(** ** The bitmap of the migration types *)

(** The zone is all pages from its start on, and its bitmap has bits for all their groups. *)
Definition spans (zid : Z) (z : zone) : Prop :=
  0 <= zone_start_pfn z /\ zone_start_pfn z + spanned_pages z < 2 ^ 32 /\
  (forall x, in_zone zid z x <-> zone_start_pfn z <= x < zone_start_pfn z + spanned_pages z) /\
  NR_PAGEBLOCK_BITS * ((spanned_pages z + (pageblock_nr_pages - 1)) / pageblock_nr_pages) <= zlen (pageblock_flags z).

(** The number of the group of a page in its zone. *)
Definition group (z : zone) (pfn : Z) : Z := (pfn - zone_start_pfn z) / pageblock_nr_pages.

Lemma pfn_to_bitidx_group zid z pfn : spans zid z -> in_zone zid z pfn ->
  pfn_to_bitidx z pfn = 3 * group z pfn /\ 0 <= group z pfn /\ 3 * group z pfn + 3 <= zlen (pageblock_flags z).
Proof.
  intros (H0 & H1 & Hin & Hlen) Hp%Hin. unfold pfn_to_bitidx, group. rewrite ulong_small by lia.
  rewrite Z.shiftr_div_pow2 by done. change NR_PAGEBLOCK_BITS with 3 in *. change pageblock_nr_pages with 1024 in *.
  change (2 ^ pageblock_order) with 1024. split; [lia|]. zlia.
Qed.

Definition group_bits (bm : list bool) (b f : Z) : list bool :=
  <[Z.to_nat (b + 2) := Z.testbit f 2]> (<[Z.to_nat (b + 1) := Z.testbit f 1]> (<[Z.to_nat (b + 0) := Z.testbit f 0]> bm)).

Lemma set_flags_step f b i bm : 0 <= i <= 2 -> 0 <= b -> b + 3 <= zlen bm ->
  set_flags_body f b PB_migrate_end (i, 2 ^ i, bm) = Some (Next (i + 1, 2 ^ (i + 1), <[Z.to_nat (b + i) := Z.testbit f i]> bm)).
Proof.
  intros Hi Hb Hlen. unfold set_flags_body, PB_migrate_end, PB_migrate. bcase; [|lia]. rewrite truth_testbit, arr_set_Some, bind_Some by lia.
  rewrite Z.shiftl_mul_pow2 by lia. rewrite <- Z.pow_add_r by lia. rewrite ulong_small; [done|].
  assert (2 ^ (i + 1) <= 2 ^ 3) by (apply Z.pow_le_mono_r; lia). pose proof (Z.pow_nonneg 2 (i + 1)). lia.
Qed.

Lemma set_flags_ok f b bm : 0 <= b -> b + 3 <= zlen bm ->
  loop (set_flags_body f b PB_migrate_end) 33 (PB_migrate, 1, bm) = Some (group_bits bm b f).
Proof.
  intros Hb Hlen. apply (loop_steps _ 3 33 _ (3, 8, group_bits bm b f)); [|done|done]. cbn [steps].
  change (PB_migrate, 1, bm) with (0, 2 ^ 0, bm). rewrite set_flags_step, bind_Some by lia. change (0 + 1) with 1.
  rewrite set_flags_step, bind_Some by (rewrite ?zlen_insert; lia). change (1 + 1) with 2.
  rewrite set_flags_step, bind_Some by (rewrite ?zlen_insert; lia). done.
Qed.

Lemma zlen_group_bits bm b f : zlen (group_bits bm b f) = zlen bm.
Proof. unfold group_bits. by rewrite !zlen_insert. Qed.

Lemma get_group_bits bm b f k : 0 <= b -> b + 3 <= zlen bm -> 0 <= k < 3 -> (group_bits bm b f).[b + k] = Some (Z.testbit f k).
Proof.
  intros Hb Hlen Hk. unfold group_bits. rewrite !arr_get_insert by (rewrite ?zlen_insert; lia).
  repeat case_decide; [by replace k with 2 by lia|by replace k with 1 by lia|by replace k with 0 by lia|lia].
Qed.

Lemma get_other_bits bm b f i : 0 <= b -> b + 3 <= zlen bm -> i < b \/ b + 3 <= i -> (group_bits bm b f).[i] = bm.[i].
Proof. intros Hb Hlen Hi. unfold group_bits. rewrite !arr_get_insert by (rewrite ?zlen_insert; lia). repeat case_decide; try lia. done. Qed.

Lemma get_flags_step bm b i f c : 0 <= i <= 2 -> bm.[b + i] = Some c ->
  get_flags_body bm b PB_migrate_end (i, 2 ^ i, f) = Some (Next (i + 1, 2 ^ (i + 1), Z.lor f (if c then 2 ^ i else 0))).
Proof.
  intros Hi Hc. unfold get_flags_body, PB_migrate_end, PB_migrate. bcase; [|lia]. rewrite Hc, bind_Some.
  rewrite Z.shiftl_mul_pow2 by lia. rewrite <- Z.pow_add_r by lia. rewrite ulong_small.
  - destruct c; [done|]. by rewrite Z.lor_0_r.
  - assert (2 ^ (i + 1) <= 2 ^ 3) by (apply Z.pow_le_mono_r; lia). pose proof (Z.pow_nonneg 2 (i + 1)). lia.
Qed.

(** Reading the bits of a group. *)
Lemma get_flags_ok bm b c0 c1 c2 : bm.[b + 0] = Some c0 -> bm.[b + 1] = Some c1 -> bm.[b + 2] = Some c2 ->
  loop (get_flags_body bm b PB_migrate_end) 33 (PB_migrate, 1, 0) = Some (b2z c0 + 2 * b2z c1 + 4 * b2z c2).
Proof.
  intros H0 H1 H2. apply (loop_steps _ 3 33 _ (3, 8, b2z c0 + 2 * b2z c1 + 4 * b2z c2)); [|done|done]. cbn [steps].
  change (PB_migrate, 1, 0) with (0, 2 ^ 0, 0). rewrite (get_flags_step bm b 0 0 c0 ltac:(lia) H0), bind_Some. change (0 + 1) with 1.
  rewrite (get_flags_step bm b 1 _ c1 ltac:(lia) H1), bind_Some. change (1 + 1) with 2.
  rewrite (get_flags_step bm b 2 _ c2 ltac:(lia) H2), bind_Some. by destruct c0, c1, c2.
Qed.

Lemma set_migratetype_ok disabled zid z p mt : spans zid z -> in_zone zid z p ->
  set_pageblock_migratetype disabled z p mt =
    Some (with_pageblock_flags z (group_bits (pageblock_flags z) (3 * group z p) (if disabled then 0 else mt))).
Proof.
  intros Hs Hp. destruct (pfn_to_bitidx_group zid z p Hs Hp) as (E & H0 & Hlen).
  unfold set_pageblock_migratetype, set_pageblock_flags_group. rewrite E, set_flags_ok by lia. done.
Qed.

Lemma three_bits f : 0 <= f < 8 -> b2z (Z.testbit f 0) + 2 * b2z (Z.testbit f 1) + 4 * b2z (Z.testbit f 2) = f.
Proof. intros Hf. assert (f ∈ seqZ 0 8) as H by (apply elem_of_seqZ; lia). repeat (apply elem_of_cons in H as [->|H]; [done|]). by apply not_elem_of_nil in H. Qed.

(** C33: The migration type of every page of a zone can be read.  After it is set for one page, it is the new one, or
    that of unmovable pages when grouping by mobility is disabled, for exactly the pages of the group of that page, and
    the old one for all others; the other parts of the zone do not change. *)
Theorem pageblock_migratetype_round_trip disabled zid z p mt :
  spans zid z -> in_zone zid z p -> 0 <= mt < 2 ^ 3 ->
  exists z', set_pageblock_migratetype disabled z p mt = Some z' /\
    z' = with_pageblock_flags z (pageblock_flags z') /\ zlen (pageblock_flags z') = zlen (pageblock_flags z) /\
    forall q, in_zone zid z q -> exists t, get_pageblock_migratetype z q = Some t /\
      get_pageblock_migratetype z' q = Some (if group z q =? group z p then (if disabled then MIGRATE_UNMOVABLE else mt) else t).
Proof.
  intros Hs Hp Hmt. destruct (pfn_to_bitidx_group zid z p Hs Hp) as (_ & Hp0 & Hplen). rewrite (set_migratetype_ok disabled zid) by done.
  eexists. split; [done|]. split; [done|]. cbn [pageblock_flags with_pageblock_flags]. split; [apply zlen_group_bits|]. intros q Hq.
  destruct (pfn_to_bitidx_group zid z q Hs Hq) as (E & H0 & Hlen). set (b := 3 * group z q) in *.
  destruct (arr_get_is_Some (pageblock_flags z) (b + 0)) as [c0 E0]; [lia|]. destruct (arr_get_is_Some (pageblock_flags z) (b + 1)) as [c1 E1]; [lia|].
  destruct (arr_get_is_Some (pageblock_flags z) (b + 2)) as [c2 E2]; [lia|]. eexists. unfold get_pageblock_migratetype, get_pageblock_flags_group.
  change (pfn_to_bitidx (with_pageblock_flags z _) q) with (pfn_to_bitidx z q). rewrite E, (get_flags_ok _ _ c0 c1 c2) by done. split; [done|].
  cbn [pageblock_flags with_pageblock_flags]. set (f := if disabled then 0 else mt). destruct (Z.eqb_spec (group z q) (group z p)) as [Hg|Hg].
  - subst b. rewrite Hg. rewrite (get_flags_ok _ _ (Z.testbit f 0) (Z.testbit f 1) (Z.testbit f 2)); [|by apply get_group_bits; lia..].
    rewrite three_bits; [done|]. unfold f. destruct disabled; lia.
  - rewrite (get_flags_ok _ _ c0 c1 c2); [done|..]; (rewrite get_other_bits by lia); done.
Qed.

(** ** Moving free blocks between the lists of an order *)

Record shuffled (z z' : zone) : Prop := {
  sh_map : mem_map z' = mem_map z;
  sh_extent : same_extent z z';
  sh_shape : shaped z';
  sh_blocks : forall o, blocks z' o ≡ₚ blocks z o;
  sh_nr : forall o, nr_of z' o = nr_of z o
}.

Definition listed (zid : Z) (z : zone) : Prop :=
  shaped z /\ (forall p o, head zid z p o <-> p ∈ blocks z o) /\ forall o, NoDup (blocks z o).

Lemma wf_listed zid z : wf_zone zid z -> listed zid z.
Proof. intros []. by split_and!. Qed.

Lemma shuffled_refl z : shaped z -> shuffled z z.
Proof. intros ?. by split. Qed.

Lemma shuffled_trans z1 z2 z3 : shuffled z1 z2 -> shuffled z2 z3 -> shuffled z1 z3.
Proof.
  intros [M1 E1 S1 B1 N1] [M2 E2 S2 B2 N2]. split; [congruence|by eapply same_extent_trans|done|..].
  - intros o. by rewrite B2, B1.
  - intros o. by rewrite N2, N1.
Qed.

Lemma shuffled_head zid z z' p o : shuffled z z' -> head zid z' p o <-> head zid z p o.
Proof. intros [M _ _ _ _]. unfold head. by rewrite M. Qed.

Lemma shuffled_listed zid z z' : shuffled z z' -> listed zid z -> listed zid z'.
Proof.
  intros H (_ & Hh & Hn). pose proof H as [M _ S B _]. split; [done|]. split.
  - intros p o. rewrite (shuffled_head zid z z') by done. by rewrite B.
  - intros o. by rewrite B.
Qed.

Lemma shuffled_flags z f : shaped z -> zlen f = zlen (pageblock_flags z) -> shuffled z (with_pageblock_flags z f).
Proof. intros Hs Hf. by split. Qed.

Lemma list_move_ok zid z p o mt : listed zid z -> head zid z p o -> 0 <= mt < MIGRATE_TYPES ->
  exists z', list_move z p o mt = Some z' /\ shuffled z z'.
Proof.
  intros (Hs & Hh & Hn) Hp Hmt. assert (Hin : p ∈ blocks z o) by (by apply Hh). pose proof (blocks_range _ _ _ Hs Hin) as Ho.
  destruct (lru_del_ok z p Hs) as (Hs1 & Hb1 & Hn1 & _).
  destruct (add_to_ok (lru_del z p) p o mt false Hs1 Ho Hmt) as (z' & E & Hm & He & Hs' & Hb & Hn' & _).
  exists z'. split; [done|]. split; [done|done|done| |intros o'; by rewrite Hn', Hn1].
  intros o'. rewrite Hb, Hb1. destruct (Z.eqb_spec o' o) as [->|Hne]; [symmetry; by apply filter_del_Permutation|].
  rewrite filter_del_id; [done|]. intros Hp'%Hh. by eapply Hne, head_fun.
Qed.

Definition moving (z : zone) (start_page : Z) (st : zone * Z * Z) : Prop := shuffled z st.1.1 /\ start_page <= st.1.2.

Lemma move_freepages_ok zid z s e mt : listed zid z -> 0 <= mt < MIGRATE_TYPES -> s <= e -> (forall x, s <= x <= e -> in_zone zid z x) ->
  exists r, move_freepages z s e mt = Some r /\ shuffled z r.2.
Proof.
  intros Hl Hmt Hse Hin. unfold move_freepages.
  destruct (in_zone_page _ _ _ (Hin s ltac:(lia))) as (g & Hg & Hgz). destruct (in_zone_page _ _ _ (Hin e ltac:(lia))) as (h & Hh & Hhz).
  rewrite Hg, bind_Some, Hh, bind_Some, Hgz, Hhz, Z.eqb_refl. cbn [negb].
  apply (loop_total (move_body e mt) (moving z s) (fun st => Z.max 0 (e + 1 - st.1.2))); [|split; [by apply shuffled_refl, Hl|done]|cbn [fst snd]; lia].
  intros [[z1 p] n] [Hs Hp]. cbn [fst snd] in Hs, Hp. unfold body_ok, move_body. cbn [fst snd]. split; [lia|]. bcase; [|done].
  destruct (in_zone_page _ _ _ (Hin p ltac:(lia))) as (y & Hy & Hyz). rewrite (sh_map _ _ Hs), Hy, bind_Some.
  destruct (PageBuddy y) eqn:E; cbn [negb]; [|split; [split; [done|cbn [fst snd]; lia]|cbn [fst snd]; lia]].
  assert (Hhd : head zid z1 p (private y)) by (apply (shuffled_head _ z); [done|]; exists y; done).
  destruct (list_move_ok zid z1 p (private y) mt) as (z2 & -> & Hs2); [by apply (shuffled_listed _ z)|done|done|]. rewrite bind_Some, Z.shiftl_1_l.
  destruct (shuffled_listed _ _ _ Hs Hl) as (Hsh & Hhb & _). pose proof (blocks_range _ _ _ Hsh (proj1 (Hhb _ _) Hhd)).
  pose proof (Z.pow_pos_nonneg 2 (private y)). split; [|cbn [fst snd]; lia]. split; [by apply (shuffled_trans _ z1)|cbn [fst snd]; lia].
Qed.

Lemma move_freepages_block_ok zid z pg mt : listed zid z -> spans zid z -> in_zone zid z pg -> 0 <= mt < MIGRATE_TYPES ->
  exists r, move_freepages_block z pg mt = Some r /\ shuffled z r.2.
Proof.
  intros Hl (H0 & H1 & Hin & _) Hp%Hin Hmt. unfold move_freepages_block. change pageblock_nr_pages with (2 ^ 10).
  assert (E : Z.land pg (Z.lnot (2 ^ 10 - 1)) = pg - pg mod 2 ^ 10).
  { change (2 ^ 10 - 1) with (Z.ones 10). rewrite <- Z.ldiff_land, Z.ldiff_ones_r, Z.shiftr_div_pow2, Z.shiftl_mul_pow2 by done.
    rewrite (Z.div_mod pg (2 ^ 10)) at 2 by done. lia. }
  rewrite E. set (s := pg - pg mod 2 ^ 10). assert (s <= pg < s + 2 ^ 10) by (unfold s; pose proof (Z.mod_pos_bound pg (2 ^ 10)); lia).
  set (sp := if s <? zone_start_pfn z then pg else s).
  assert (zone_start_pfn z <= sp < s + 2 ^ 10) by (unfold sp; bcase; lia).
  rewrite Z.geb_leb. bcase; [eexists; split; [done|]; by apply shuffled_refl, Hl|].
  apply (move_freepages_ok zid); [done|done|lia|]. intros x. rewrite Hin. lia.
Qed.

(** ** Falling back *)

Lemma same_zones_spans zid z z' : same_zones z z' -> spans zid z -> spans zid z'.
Proof.
  intros [Hz (E1 & E2 & E3)] (H0 & H1 & Hin & Hl). unfold spans, in_zone. rewrite E1, E2, E3. split_and!; [done|done| |done].
  intros x. rewrite (Hz x). apply Hin.
Qed.

Lemma shuffled_zones z z' : shuffled z z' -> same_zones z z'.
Proof. intros [M E _ _ _]. split; [|done]. intros q. by rewrite M. Qed.

Lemma set_migratetype_flags disabled zid z p mt : spans zid z -> in_zone zid z p ->
  exists f, set_pageblock_migratetype disabled z p mt = Some (with_pageblock_flags z f) /\ zlen f = zlen (pageblock_flags z).
Proof. intros Hs Hp. rewrite (set_migratetype_ok disabled zid) by done. eexists. split; [done|]. apply zlen_group_bits. Qed.

Lemma claim_pageblock_ok disabled zid z c start_mt mt pg : listed zid z -> spans zid z -> in_zone zid z pg ->
  0 <= start_mt < MIGRATE_TYPES -> 0 <= mt < MIGRATE_TYPES ->
  exists mt' z', claim_pageblock disabled z c start_mt mt pg = Some (mt', z') /\ shuffled z z' /\ 0 <= mt' < MIGRATE_TYPES.
Proof.
  intros Hl Hs Hp Hst Hmt. unfold claim_pageblock.
  destruct (_ || disabled); [|exists mt, z; split; [done|]; split; [by apply shuffled_refl, Hl|done]].
  destruct (move_freepages_block_ok zid z pg start_mt Hl Hs Hp Hst) as ([n z1] & -> & H1). cbn [snd] in H1. rewrite bind_Some.
  destruct (_ || disabled); [|exists start_mt, z1; done].
  destruct (set_migratetype_flags disabled zid z1 pg start_mt) as (f & -> & Hf).
  - by apply (same_zones_spans _ z), Hs; apply shuffled_zones.
  - unfold in_zone. by rewrite (sh_map _ _ H1).
  - rewrite bind_Some. eexists _, _. split; [done|]. split; [|done]. apply (shuffled_trans _ z1); [done|]. apply shuffled_flags; [apply H1|done].
Qed.

Lemma change_pageblock_range_ok disabled zid z pg c mt : spans zid z -> in_zone zid z pg -> c <= pageblock_order ->
  exists f, (if pageblock_order <=? c then change_pageblock_range disabled z pg c mt else Some z) = Some (with_pageblock_flags z f) /\
    zlen f = zlen (pageblock_flags z).
Proof.
  intros Hs Hp Hc. bcase; [|exists (pageblock_flags z); by destruct z]. replace c with pageblock_order by lia.
  destruct (set_migratetype_flags disabled zid z pg mt Hs Hp) as (f & E & Hf). exists f. split; [|done].
  unfold change_pageblock_range. rewrite Z.sub_diag. apply (loop_steps _ 1 2 _ (with_pageblock_flags z f, 0, pg + pageblock_nr_pages)); [|done|done].
  cbn [steps change_body truth]. change (truth (Z.shiftl 1 0)) with true. cbv iota. rewrite E. done.
Qed.

Lemma filter_del_proper p l l' : l ≡ₚ l' -> List.filter (fun q => negb (q =? p)) l ≡ₚ List.filter (fun q : Z => negb (q =? p)) l'.
Proof.
  induction 1 as [|x l l' _ IH|x y l|l1 l2 l3 _ IH1 _ IH2]; simpl; [done| | |by rewrite IH1].
  - destruct (negb _); [by f_equiv|done].
  - destruct (negb (x =? p)), (negb (y =? p)); try done. apply Permutation_swap.
Qed.

Lemma wf_flags zid z f : wf_zone zid z -> wf_zone zid (with_pageblock_flags z f).
Proof. intros []. by split. Qed.

(** What every allocation does to the zone, whatever the lists the block comes from. *)
Definition gives (zid : Z) (z : zone) (order pg : Z) (z' : zone) : Prop :=
  wf_zone zid z' /\ merged zid z' /\ same_zones z z' /\ (forall x, ~ free zid z x -> mem_map z' !! x = mem_map z !! x) /\
  block zid z pg order /\ (forall x, in_block pg order x -> free zid z x) /\
  forall x, free zid z' x <-> free zid z x /\ ~ in_block pg order x.

Lemma splitting_gives zid z z0 z' pg order mt : wf_zone zid z -> same_zones z z0 ->
  (forall x, ~ free zid z x -> mem_map z0 !! x = mem_map z !! x) ->
  splitting zid (free zid z) z0 pg order mt (z', order) -> gives zid z order pg z'.
Proof.
  intros Hw Hz Hk HI. destruct (expanded _ _ _ _ _ _ _ HI) as [Hin Hf]. destruct HI as (Hw' & Hm & Hz' & [(? & ? & ? & _) _] & _ & _ & _ & Hk').
  do 2 (split; [done|]). split; [by apply (same_zones_trans _ z0)|]. split; [intros x Hx; rewrite Hk' by done; by apply Hk|]. split; [|done].
  do 3 (split; [done|]). intros x (q & o & Hq & Hx)%Hin. by apply (w_block _ _ Hw q o).
Qed.

(** The counter and the lists change first and the page last, with the moves in between: as if the block had been taken off at once. *)
Lemma fallback_taken zid z z1 z2 pg c : wf_zone zid z -> head zid z pg c -> add_nr_free z c (-1) = Some z1 -> shuffled z1 z2 ->
  exists z3, rmv_page_order (lru_del z2 pg) pg = Some z3 /\ wf_zone zid z3 /\ same_zones z z3 /\
    (forall q o', head zid z3 q o' <-> head zid z q o' /\ q <> pg) /\ forall x, x <> pg -> mem_map z3 !! x = mem_map z !! x.
Proof.
  intros Hw Hp E1 [M E S B N]. destruct (w_block _ _ Hw _ _ Hp) as (_ & Hc & _).
  destruct (add_nr_free_ok z c (-1) (w_shape _ _ Hw) Hc) as (z1' & E1' & Hm1 & He1 & _ & Hb1 & Hn1 & _). rewrite E1 in E1'. injection E1' as <-.
  destruct (lru_del_ok z2 pg S) as (S3 & B3 & N3 & _). pose proof Hp as (g & Hg & _). unfold rmv_page_order.
  change (mem_map (lru_del z2 pg)) with (mem_map z2). rewrite M, Hm1, Hg, bind_Some. eexists. split; [done|].
  set (z3 := set_page _ _ _).
  assert (Hm3 : mem_map z3 = <[pg := with_buddy g (-1) 0]> (mem_map z)) by (unfold z3, set_page; cbn [mem_map with_map]; by rewrite <- Hm1, <- M).
  destruct (deleted_ok zid z z3 pg c g) as (Hw3 & Hz3 & Hh3); try done.
  - by apply (same_extent_trans _ z1).
  - intros o'. change (blocks z3 o') with (blocks (lru_del z2 pg) o'). rewrite B3. apply filter_del_proper. by rewrite B, Hb1.
  - intros o'. change (nr_of z3 o') with (nr_of (lru_del z2 pg) o'). rewrite N3, N. apply Hn1.
  - do 3 (split; [done|]). intros x Hx. by rewrite Hm3, lookup_insert_ne by congruence.
Qed.

Lemma fallback_take_ok disabled zid z order c start_mt mt pg : wf_zone zid z -> merged zid z -> spans zid z -> head zid z pg c ->
  0 <= order <= c -> 0 <= start_mt < MIGRATE_TYPES -> 0 <= mt < MIGRATE_TYPES ->
  exists z', fallback_take disabled z order c start_mt mt pg = Some (pg, z') /\ gives zid z order pg z'.
Proof.
  intros Hw Hm Hs Hp Hc Hst Hmt. pose proof (head_in_zone _ _ _ _ Hp) as Hin. destruct (w_block _ _ Hw _ _ Hp) as (_ & Hcr & _).
  destruct (add_nr_free_ok z c (-1) (w_shape _ _ Hw) Hcr) as (z1 & E1 & Hm1 & He1 & Hs1 & Hb1 & Hn1 & _).
  unfold fallback_take. rewrite E1, bind_Some.
  assert (Hz1 : same_zones z z1) by (split; [intros q; by rewrite Hm1|done]).
  assert (Hl1 : listed zid z1).
  { destruct (wf_listed _ _ Hw) as (_ & Hh & Hn). split; [done|]. split; [|intros o; by rewrite Hb1].
    intros p o. unfold head. rewrite Hm1, Hb1. apply Hh. }
  destruct (claim_pageblock_ok disabled zid z1 c start_mt mt pg Hl1) as (mt' & z2 & -> & Hs2 & Hmt'); [by apply (same_zones_spans _ z)| |done|done|].
  { unfold in_zone. by rewrite Hm1. }
  rewrite bind_Some. destruct (fallback_taken zid z z1 z2 pg c Hw Hp E1 Hs2) as (z3 & -> & Hw3 & Hz3 & Hh3 & Hk3). rewrite bind_Some.
  destruct (change_pageblock_range_ok disabled zid z3 pg c start_mt) as (f & -> & Hf).
  { by apply (same_zones_spans _ z). }
  { unfold in_zone. by rewrite (proj1 Hz3 pg). }
  { unfold pageblock_order. lia. }
  rewrite bind_Some. destruct (taken zid z z3 pg c Hw Hm Hp Hz3 Hh3) as (Hm3 & Hh & Hfr). set (z4 := with_pageblock_flags z3 f).
  assert (Hz4 : same_zones z3 z4) by (by split).
  destruct (halving_ok zid (free zid z) z4 z4 pg order c mt' Hmt' ltac:(lia)) as (z' & -> & HI).
  { split; [by apply wf_flags|]. do 2 (split; [done|]). split; [done|]. split; [lia|done]. }
  rewrite bind_Some. exists z'. split; [done|]. apply (splitting_gives zid z z4 z' pg order mt'); [done|by apply (same_zones_trans _ z3)| |done].
  intros x Hx. apply Hk3. intros ->. apply Hx. exists pg, c. split; [done|]. by apply (in_block_head zid z).
Qed.

Lemma fallbacks_rows start_mt i : 0 <= start_mt < MIGRATE_TYPES -> 0 <= i < MIGRATE_TYPES - 1 ->
  exists row mt, fallbacks.[start_mt] = Some row /\ row.[i] = Some mt /\ 0 <= mt < MIGRATE_TYPES.
Proof.
  unfold MIGRATE_TYPES. intros Hs Hi. assert (start_mt ∈ seqZ 0 5) as H by (apply elem_of_seqZ; lia). assert (i ∈ seqZ 0 4) as H' by (apply elem_of_seqZ; lia).
  cbv in H, H'. repeat (apply elem_of_cons in H as [->|H]); [..|by apply not_elem_of_nil in H];
    (repeat (apply elem_of_cons in H' as [->|H']); [..|by apply not_elem_of_nil in H']; by eexists _, _).
Qed.

(** The types that a type falls back to, apart from the reserve. *)
Definition falls_back (start_mt mt : Z) : Prop := exists row i, fallbacks.[start_mt] = Some row /\ row.[i] = Some mt /\ mt <> MIGRATE_RESERVE.

Lemma falls_back_all start_mt mt : 0 <= start_mt < MIGRATE_RESERVE -> 0 <= mt < MIGRATE_RESERVE -> mt <> start_mt -> falls_back start_mt mt.
Proof.
  unfold MIGRATE_RESERVE. intros Hs Hm Hne. assert (start_mt = 0 \/ start_mt = 1 \/ start_mt = 2) as [->|[->| ->]] by lia.
  - assert (mt = 1 \/ mt = 2) as [->| ->] by lia; [by exists [1; 2; 3; 0], 0|by exists [1; 2; 3; 0], 1].
  - assert (mt = 0 \/ mt = 2) as [->| ->] by lia; [by exists [0; 2; 3; 0], 0|by exists [0; 2; 3; 0], 1].
  - assert (mt = 0 \/ mt = 1) as [->| ->] by lia; [by exists [1; 0; 3; 0], 1|by exists [1; 0; 3; 0], 0].
Qed.

Lemma fallback_types_ok disabled zid z order c start_mt : wf_zone zid z -> merged zid z -> spans zid z ->
  0 <= order <= c -> c < MAX_ORDER -> 0 <= start_mt < MIGRATE_TYPES ->
  exists r, loop (fallback_types_body disabled z order c start_mt) MIGRATE_TYPES 0 = Some r /\
    match r with
    | Some (pg, z') => gives zid z order pg z'
    | None => forall mt, falls_back start_mt mt -> list_of z c mt = []
    end.
Proof.
  intros Hw Hm Hs Hc Hc' Hst.
  apply (loop_total (fallback_types_body disabled z order c start_mt)
    (fun i => 0 <= i <= 4 /\ forall row j mt, fallbacks.[start_mt] = Some row -> row.[j] = Some mt -> j < i -> mt <> MIGRATE_RESERVE -> list_of z c mt = [])
    (fun i => 4 - i)).
  2: { split; [lia|]. intros row j mt _ ?%arr_get_range. lia. }
  2: { done. }
  intros i [Hi Hempty]. unfold body_ok, fallback_types_body. split; [lia|]. destruct (Z.ltb_spec i (MIGRATE_TYPES - 1)) as [Hlt|Hge].
  2: { intros mt (row & j & Hrow & Hj & Hne). apply (Hempty row j); try done. pose proof (arr_get_range _ _ _ Hj) as H.
       assert (zlen row = 4); [|unfold MIGRATE_TYPES in *; lia]. apply arr_get_Some in Hrow as [_ Hrow].
       assert (Forall (fun row => zlen row = 4) fallbacks) as Hf by (repeat constructor). exact (Forall_lookup_1 _ _ _ _ Hf Hrow). }
  destruct (fallbacks_rows start_mt i Hst ltac:(lia)) as (row & mt & Hrow & Hj & Hmt). rewrite Hrow, bind_Some, Hj, bind_Some.
  assert (Hnext : (mt <> MIGRATE_RESERVE -> list_of z c mt = []) -> forall row' j mt', fallbacks.[start_mt] = Some row' -> row'.[j] = Some mt' ->
    j < i + 1 -> mt' <> MIGRATE_RESERVE -> list_of z c mt' = []).
  { intros H row' j mt' Hr Hj' Hlt' Hne. destruct (decide (j = i)) as [->|]; [|apply (Hempty row' j); try done; lia].
    simplify_eq. by apply H. }
  rewrite Hrow in Hnext. destruct (Z.eqb_spec mt MIGRATE_RESERVE) as [->|Hne]; [split; [split; [unfold MIGRATE_TYPES in *; lia|by apply Hnext]|lia]|].
  destruct (area_Some z c (w_shape _ _ Hw) ltac:(lia)) as (a & Ha & Hl). rewrite Ha, bind_Some.
  destruct (arr_get_is_Some (free_list a) mt) as [l Hmtl]; [lia|]. rewrite Hmtl, bind_Some.
  assert (El : list_of z c mt = l) by (unfold list_of; by rewrite Ha, bind_Some, Hmtl). destruct l as [|pg rest].
  { split; [split; [unfold MIGRATE_TYPES in *; lia|by apply Hnext]|lia]. }
  assert (Hp : head zid z pg c) by (apply (w_heads _ _ Hw), (list_of_blocks _ _ mt); rewrite El; left).
  destruct (fallback_take_ok disabled zid z order c start_mt mt pg) as (z' & -> & Hg); try done.
Qed.

Lemma rmqueue_fallback_ok disabled zid z order start_mt : wf_zone zid z -> merged zid z -> spans zid z ->
  0 <= order < MAX_ORDER -> 0 <= start_mt < MIGRATE_TYPES ->
  exists r, __rmqueue_fallback disabled z order start_mt = Some r /\
    match r with
    | (Some pg, z') => gives zid z order pg z'
    | (None, z') => z' = z /\ forall c mt, order <= c < MAX_ORDER -> falls_back start_mt mt -> list_of z c mt = []
    end.
Proof.
  intros Hw Hm Hs Ho Hst.
  apply (loop_total (fallback_body disabled z order start_mt)
    (fun c => order - 1 <= c < MAX_ORDER /\ forall c' mt, c < c' < MAX_ORDER -> falls_back start_mt mt -> list_of z c' mt = [])
    (fun c => c - (order - 1))).
  2: { split; [lia|]. intros c' mt Hc'. lia. }
  2: { unfold MAX_ORDER. lia. }
  intros c [Hc Hempty]. unfold body_ok, fallback_body. split; [lia|]. rewrite Z.geb_leb. destruct (Z.leb_spec order c) as [Hle|Hlt].
  2: { split; [done|]. intros c' mt Hc'. apply Hempty. lia. }
  destruct (fallback_types_ok disabled zid z order c start_mt Hw Hm Hs ltac:(lia) ltac:(lia) Hst) as (r & -> & Hr). rewrite bind_Some.
  destruct r as [[pg z']|]; [done|]. split; [|lia]. split; [lia|]. intros c' mt Hc' Hf.
  destruct (decide (c' = c)) as [->|]; [by apply Hr|]. apply Hempty; [lia|done].
Qed.

Definition rmqueue_result (zid : Z) (z : zone) (order mt : Z) (r : option Z * zone) : Prop :=
  match r with
  | (Some pg, z') => gives zid z order pg z' /\ spans zid z'
  | (None, z') => z' = z /\ forall c mt', order <= c < MAX_ORDER -> mt' = mt \/ (mt <> MIGRATE_RESERVE /\ 0 <= mt' <= MIGRATE_RESERVE) ->
      list_of z c mt' = []
  end.

Lemma rmqueue_ok disabled zid z order mt :
  wf_zone zid z -> merged zid z -> spans zid z -> 0 <= order < MAX_ORDER -> 0 <= mt <= MIGRATE_RESERVE ->
  exists r, __rmqueue disabled z order mt = Some r /\ rmqueue_result zid z order mt r.
Proof.
  intros Hw Hm Hs Ho Hmt.
  assert (Hsm : forall mt, 0 <= mt <= MIGRATE_RESERVE -> exists pg z', __rmqueue_smallest z order mt = Some (pg, z') /\
    match pg with Some pg => gives zid z order pg z' /\ spans zid z' | None => z' = z /\ forall c, order <= c < MAX_ORDER -> list_of z c mt = [] end).
  { intros m Hm'. destruct (rmqueue_smallest_ok zid z order m Hw Hm Ho) as ([pg z'] & E & Hw' & Hmg & Hz & _ & Hk & Hr); [unfold MIGRATE_RESERVE, MIGRATE_TYPES in *; lia|].
    exists pg, z'. split; [done|]. destruct pg as [pg|]; [|done]. destruct Hr as (_ & Hr).
    split; [|by apply (same_zones_spans _ z)]. do 3 (split; [done|]). done. }
  unfold __rmqueue. destruct (Hsm mt Hmt) as (pg & z' & -> & Hr). rewrite bind_Some. destruct pg as [pg|]; [eexists; split; done|].
  destruct Hr as [-> Hempty]. destruct (Z.eqb_spec mt MIGRATE_RESERVE) as [->|Hne]; cbn [negb].
  { eexists. split; [done|]. split; [done|]. intros c mt' Hc [->|[? _]]; [by apply Hempty|done]. }
  destruct (rmqueue_fallback_ok disabled zid z order mt Hw Hm Hs Ho) as ([pg z'] & -> & Hr); [unfold MIGRATE_RESERVE, MIGRATE_TYPES in *; lia|].
  rewrite bind_Some. destruct pg as [pg|]; [eexists; split; [done|]; split; [done|]; apply (same_zones_spans _ z); [apply Hr|done]|].
  destruct Hr as [-> Hfall]. destruct (Hsm MIGRATE_RESERVE ltac:(done)) as (pg & z' & -> & Hr). eexists. split; [done|].
  destruct pg as [pg|]; [done|]. destruct Hr as [-> Hres]. split; [done|]. intros c mt' Hc Hmt'.
  destruct (decide (mt' = mt)) as [->|Hne']; [by apply Hempty|]. destruct (decide (mt' = MIGRATE_RESERVE)) as [->|Hne3]; [by apply Hres|].
  apply Hfall; [done|]. destruct Hmt' as [->|[_ ?]]; [done|]. apply falls_back_all; unfold MIGRATE_RESERVE in *; lia.
Qed.

(** C4: An allocation of 2^order pages always comes to an end.  It gives an aligned block of free pages and makes exactly these
    no longer free; the lists, the marks and the counters stay consistent and no two buddies are both free.  It gives no
    page only when neither the lists of its own type nor, unless it asks for the reserve, those of the other types and of the reserve
    have a block of the order or a larger one, and then it changes nothing. *)
Theorem rmqueue_correct disabled zid z order mt :
  wf_zone zid z -> merged zid z -> spans zid z -> 0 <= order < MAX_ORDER -> 0 <= mt <= MIGRATE_RESERVE ->
  exists r, __rmqueue disabled z order mt = Some r /\ rmqueue_result zid z order mt r.
Proof. apply rmqueue_ok. Qed.

(** ** The zone of 1024 pages *)

Lemma full_zone_spans : spans 0 full_zone.
Proof.
  split; [done|]. split; [done|]. split; [|done]. intros x. unfold in_zone. split.
  - intros (g & [Hx _]%full_zone_page & _)%fmap_Some. exact Hx.
  - intros Hx. apply fmap_Some. exists idle_page. split; [|done]. by apply full_zone_page.
Qed.

Lemma pageblock_migratetype_witness : exists z', set_pageblock_migratetype false full_zone 5 2 = Some z' /\
  z' = with_pageblock_flags full_zone (pageblock_flags z') /\ zlen (pageblock_flags z') = zlen (pageblock_flags full_zone) /\
  forall q, in_zone 0 full_zone q -> exists t, get_pageblock_migratetype full_zone q = Some t /\
    get_pageblock_migratetype z' q = Some (if group full_zone q =? group full_zone 5 then 2 else t).
Proof.
  apply (pageblock_migratetype_round_trip false 0 full_zone 5 2); [exact full_zone_spans| |lia].
  apply full_zone_spans. split; [done|reflexivity].
Defined.

Lemma rmqueue_correct_witness : wf_zone 0 idle_zone /\ exists r, __rmqueue false idle_zone 3 2 = Some r /\ rmqueue_result 0 idle_zone 3 2 r.
Proof.
  destruct idle_zone_wf as (Hw & Hm & Hz & _). split; [exact Hw|].
  apply (rmqueue_correct false 0 idle_zone 3 2 Hw Hm (same_zones_spans 0 full_zone idle_zone Hz full_zone_spans)); split; done || lia.
Defined.

(** Movable pages are asked for and all free memory is unmovable: the whole group changes its type. *)
Example fallback_claims_group :
  ((fun r => (r.1, list_of r.2 3 2, list_of r.2 9 2, get_pageblock_migratetype r.2 700)) <$> __rmqueue false idle_zone 3 2) =
  Some (Some 0, [8], [512], Some 2).
Proof. vm_compute. reflexivity. Qed.
