(* ===== verification/Pcp.v ===== *)
(** * The lists of single pages that each processor keeps, in mm/page_alloc.c

    Single pages are freed to and taken from lists of the processor; these lists are filled from the buddy
    allocator by rmqueue_bulk() and emptied into it by free_pcppages_bulk(), several pages at a time.  The
    theorems are that both come to an end, that every page is either free in the buddy allocator or on the
    lists and never lost, and in which order the pages are taken and put. *)

From stdpp Require Import list gmap.
From S2P Require Import Prelude Buddy BuddyAlloc.

(** ** Definitions *)

Definition MIGRATE_PCPTYPES : Z := 3.

Record per_cpu_pages := { count : Z; high : Z; batch : Z; lists : list (list Z) }.

(** A zone with the members that its lock protects besides; [nr_free_pages] is the total of NR_FREE_PAGES over the processors. *)
Record zone_state := { zn : zone; all_unreclaimable : Z; pages_scanned : Z; nr_free_pages : Z }.

Definition with_lists (pcp : per_cpu_pages) (ls : list (list Z)) : per_cpu_pages :=
  {| count := count pcp; high := high pcp; batch := batch pcp; lists := ls |}.
Definition with_count (pcp : per_cpu_pages) (n : Z) : per_cpu_pages :=
  {| count := n; high := high pcp; batch := batch pcp; lists := lists pcp |}.

Definition lru_empty (l : list Z) : bool := match l with [] => true | _ => false end.

(** The first do loop: the next list that is not empty.  (migratetype, batch_free) *)
Definition next_list_body (ls : list (list Z)) (st : Z * Z) : option (step (Z * Z) (Z * Z)) :=
  let '(mt, batch_free) := st in
  let batch_free := s32 (batch_free + 1) in
  let mt := mt + 1 in
  let mt := if mt =? MIGRATE_PCPTYPES then 0 else mt in
  l ← ls.[mt];
  if lru_empty l then Some (Next (mt, batch_free)) else Some (Done (mt, batch_free)).

(** The second do loop: pages from the end of the list.  (zone, lists, to_free, batch_free) *)
Definition batch_body (mt : Z) (st : zone * list (list Z) * Z * Z) :
    option (step (zone * list (list Z) * Z * Z) (zone * list (list Z) * Z * Z)) :=
  let '(z, ls, to_free, batch_free) := st in
  l ← ls.[mt];
  pg ← l.[zlen l - 1];
  ls ← ls.[mt <- removelast l];
  p ← mem_map z !! pg;
  z ← __free_one_page z pg 0 (private p);
  let to_free := s32 (to_free - 1) in
  if truth to_free then
    let batch_free := s32 (batch_free - 1) in
    if truth batch_free && negb (lru_empty (removelast l)) then Some (Next (z, ls, to_free, batch_free))
    else Some (Done (z, ls, to_free, batch_free))
  else Some (Done (z, ls, to_free, batch_free)).

(** (zone, lists, migratetype, batch_free, to_free) *)
Definition bulk_body (st : zone * list (list Z) * Z * Z * Z) : option (step (zone * list (list Z) * Z * Z * Z) (zone * list (list Z))) :=
  let '(z, ls, mt, batch_free, to_free) := st in
  if truth to_free then
    r ← loop (next_list_body ls) (MIGRATE_PCPTYPES + 1) (mt, batch_free);
    let '(mt, batch_free) := r in
    let batch_free := if batch_free =? MIGRATE_PCPTYPES then to_free else batch_free in
    r ← loop (batch_body mt) (to_free + 1) (z, ls, to_free, batch_free);
    let '(z, ls, to_free, batch_free) := r in
    Some (Next (z, ls, mt, batch_free, to_free))
  else Some (Done (z, ls)).
Definition free_pcppages_bulk (s : zone_state) (cnt : Z) (pcp : per_cpu_pages) : option (zone_state * per_cpu_pages) :=
  r ← loop bulk_body (cnt + 1) (zn s, lists pcp, 0, 0, cnt);
  let '(z, ls) := r in
  Some ({| zn := z; all_unreclaimable := 0; pages_scanned := 0; nr_free_pages := nr_free_pages s + cnt |}, with_lists pcp ls).

(** The part of drain_pages() for one zone. *)
Definition drain_zone (s : zone_state) (pcp : per_cpu_pages) : option (zone_state * per_cpu_pages) :=
  if truth (count pcp) then
    r ← free_pcppages_bulk s (count pcp) pcp;
    let '(s, pcp) := r in
    Some (s, with_count pcp 0)
  else Some (s, pcp).

Definition set_page_private (z : zone) (pg v : Z) : option zone :=
  p ← mem_map z !! pg; Some (set_page z pg (with_buddy p (page_mapcount p) v)).

(** list_add() and list_add_tail() next to the member [pos] - 1 of the list, or to its anchor when [pos] is 0; the position
    of the new member is the second result. *)
Definition list_add_at (l : list Z) (pos pg : Z) (tail : bool) : list Z * Z :=
  let i := if tail then (if pos =? 0 then zlen l else pos - 1) else pos in
  (take (Z.to_nat i) l ++ pg :: drop (Z.to_nat i) l, i + 1).

(** (zone, i, list, position of [list]) *)
Definition bulk_fill_body (disabled : bool) (order cnt mt : Z) (cold : bool) (st : zone * Z * list Z * Z) :
    option (step (zone * Z * list Z * Z) (zone * Z * list Z)) :=
  let '(z, i, l, pos) := st in
  if i <? cnt then
    r ← __rmqueue disabled z order mt;
    match r with
    | (None, z) => Some (Done (z, i, l))
    | (Some pg, z) =>
        let '(l, pos) := list_add_at l pos pg cold in
        z ← set_page_private z pg mt;
        Some (Next (z, i + 1, l, pos))
    end
  else Some (Done (z, i, l)).
(** The result is the number of pages, the zone and the list. *)
Definition rmqueue_bulk (disabled : bool) (s : zone_state) (order cnt : Z) (l : list Z) (mt : Z) (cold : bool) : option (Z * zone_state * list Z) :=
  r ← loop (bulk_fill_body disabled order cnt mt cold) (cnt + 1) (zn s, 0, l, 0);
  let '(z, i, l) := r in
  Some (i, {| zn := z; all_unreclaimable := all_unreclaimable s; pages_scanned := pages_scanned s;
              nr_free_pages := nr_free_pages s - Z.shiftl i order |}, l).

(** ** Pages on the lists *)

(** A page that waits on a list: of the zone, not free, not part of a compound page, with the type of its group as its private data. *)
Definition waits (zid : Z) (z : zone) (p : Z) : Prop :=
  in_hand zid z p 0 /\ exists g, mem_map z !! p = Some g /\ PageCompound g = false /\ 0 <= private g < MIGRATE_TYPES.

Definition waiting (zid : Z) (z : zone) (ls : list (list Z)) : Prop :=
  zlen ls = MIGRATE_PCPTYPES /\ NoDup (concat ls) /\ forall p, p ∈ concat ls -> waits zid z p.

Lemma in_block_0 p x : in_block p 0 x <-> x = p.
Proof. unfold in_block. change (2 ^ 0) with 1. lia. Qed.

Lemma list_split_last (l : list Z) : l <> [] -> exists k p, l = k ++ [p] /\ l.[zlen l - 1] = Some p /\ removelast l = k.
Proof.
  intros Hl. destruct (exists_last Hl) as (k & p & ->). exists k, p. split; [done|]. split; [|apply removelast_last].
  rewrite arr_get_app_r by (rewrite zlen_app; simpl; change (zlen [p]) with 1; lia).
  rewrite zlen_app. change (zlen [p]) with 1. replace (zlen k + 1 - 1 - zlen k) with 0 by lia. done.
Qed.

Lemma concat_drop_last (ls : list (list Z)) i k p : ls !! i = Some (k ++ [p]) -> concat ls ≡ₚ p :: concat (<[i := k]> ls).
Proof.
  intros Hi. pose proof (lookup_lt_Some _ _ _ Hi).
  rewrite <- (concat_list_insert (<[i := k]> ls) i k (k ++ [p]) p); [by rewrite list_insert_insert_eq, list_insert_id|by apply list_lookup_insert_eq|].
  apply Permutation_sym, Permutation_cons_append.
Qed.

(** Freeing one page of the lists. *)
Lemma free_waiting zid z p g : wf_zone zid z -> merged zid z -> in_hand zid z p 0 -> mem_map z !! p = Some g -> PageCompound g = false ->
  0 <= private g < MIGRATE_TYPES ->
  exists z', __free_one_page z p 0 (private g) = Some z' /\ wf_zone zid z' /\ merged zid z' /\ same_zones z z' /\
    (forall x, free zid z' x <-> free zid z x \/ x = p) /\ (forall q, q <> p -> waits zid z q -> waits zid z' q).
Proof.
  intros Hw Hm Hh Hg Hc Hp. unfold __free_one_page. rewrite Hg, bind_Some, Hc.
  destruct (merge_and_list_ok zid z p 0 (private g) Hw Hm Hh Hp) as (z' & E & Hw' & Hm' & Hz & Hf & Hk).
  assert (Hf' : forall x, free zid z' x <-> free zid z x \/ x = p) by (intros x; by rewrite Hf, in_block_0).
  exists z'. do 5 (split; [done|]). intros q Hq ((Hb & Hd) & h & Hh' & Hc' & Hp'). split; [split; [by apply (same_zones_block _ z)|]|].
  - intros x Hx. rewrite Hf'. intros [Hx'| ->]; [by apply (Hd x)|]. rewrite in_block_0 in Hx. congruence.
  - exists h. split; [|done]. rewrite Hk; [done| |].
    + apply Hd. by apply in_block_0.
    + by rewrite in_block_0.
Qed.

(** The pages that have been freed, [freed], were on the lists, and those that are left are the fronts of the lists. *)
Definition progress (zid : Z) (z0 : zone) (ls0 : list (list Z)) (cnt : Z) (z : zone) (ls : list (list Z)) (to_free : Z) : Prop :=
  wf_zone zid z /\ merged zid z /\ same_zones z0 z /\ waiting zid z ls /\
  (forall m l, ls.[m] = Some l -> exists l0, ls0.[m] = Some l0 /\ l `prefix_of` l0) /\
  exists freed, concat ls0 ≡ₚ freed ++ concat ls /\ zlen freed = cnt - to_free /\ forall x, free zid z x <-> free zid z0 x \/ x ∈ freed.

Lemma progress_step zid z0 ls0 cnt z ls to_free m l : progress zid z0 ls0 cnt z ls to_free -> ls.[m] = Some l -> l <> [] ->
  exists pg ls' p z', l.[zlen l - 1] = Some pg /\ ls.[m <- removelast l] = Some ls' /\ ls'.[m] = Some (removelast l) /\ mem_map z !! pg = Some p /\
    __free_one_page z pg 0 (private p) = Some z' /\ progress zid z0 ls0 cnt z' ls' (to_free - 1).
Proof.
  intros (Hw & Hm & Hz & (Hlen & Hn & Hwt) & Hpre & freed & Hperm & Hfl & Hf) Hl Hne.
  destruct (list_split_last l Hne) as (k & pg & -> & -> & ->). pose proof (arr_get_range _ _ _ Hl) as Hr. rewrite arr_set_Some by done.
  pose proof Hl as [_ Hl']%arr_get_Some. pose proof (concat_drop_last _ _ _ _ Hl') as Hcat. set (ls' := <[Z.to_nat m := k]> ls) in *.
  destruct (Hwt pg) as (Hh & g & Hg & Hc & Hp); [rewrite Hcat; left|].
  destruct (free_waiting zid z pg g Hw Hm Hh Hg Hc Hp) as (z' & E & Hw' & Hm' & Hz' & Hf' & Hwt'). exists pg, ls', g, z'.
  do 2 (split; [done|]). split; [unfold ls'; rewrite arr_get_insert by done; by case_decide|]. do 2 (split; [done|]).
  split; [done|]. split; [done|]. split; [by apply (same_zones_trans _ z)|]. rewrite Hcat in Hn. apply list.NoDup_cons in Hn as [Hnin Hn]. split; [|split].
  - split; [by unfold ls'; rewrite zlen_insert|]. split; [done|]. intros p Hp'. apply Hwt'; [by intros ->|]. apply Hwt. rewrite Hcat. by right.
  - intros m' l'. unfold ls'. rewrite arr_get_insert by done. case_decide as Hmm; [|apply Hpre]. subst. intros [= <-].
    destruct (Hpre _ _ Hl) as (l0 & Hl0 & Hpr). exists l0. split; [done|]. etrans; [|exact Hpr]. by exists [pg].
  - exists (freed ++ [pg]). split; [by rewrite Hperm, Hcat, <- app_assoc|]. split; [rewrite zlen_app; change (zlen [pg]) with 1; lia|].
    intros x. rewrite Hf', Hf, elem_of_app, list_elem_of_singleton. tauto.
Qed.

(** ** Emptying the lists *)

Definition next_type (mt : Z) : Z := if mt + 1 =? MIGRATE_PCPTYPES then 0 else mt + 1.

(** The types from [mt] on, in turn, whose lists have been seen to be empty. *)
Definition seen (ls : list (list Z)) (mt bf : Z) (st : Z * Z) : Prop :=
  st = (mt, bf) \/ (st = (next_type mt, bf + 1) /\ ls.[next_type mt] = Some []) \/
  (st = (next_type (next_type mt), bf + 2) /\ ls.[next_type mt] = Some [] /\ ls.[next_type (next_type mt)] = Some []).

Lemma all_empty (ls : list (list Z)) mt : zlen ls = MIGRATE_PCPTYPES -> 0 <= mt < MIGRATE_PCPTYPES -> ls.[next_type mt] = Some [] ->
  ls.[next_type (next_type mt)] = Some [] -> ls.[next_type (next_type (next_type mt))] = Some [] -> concat ls = [].
Proof.
  intros Hlen Hmt. destruct ls as [|a [|b [|c [|]]]]; try done; [|unfold zlen, MIGRATE_PCPTYPES in Hlen; simpl in Hlen; lia].
  unfold MIGRATE_PCPTYPES in Hmt. assert (mt = 0 \/ mt = 1 \/ mt = 2) as [->|[->| ->]] by lia; cbn; intros [= ->] [= ->] [= ->]; done.
Qed.

Lemma next_list_ok ls mt bf : zlen ls = MIGRATE_PCPTYPES -> concat ls <> [] -> 0 <= mt < MIGRATE_PCPTYPES -> 0 <= bf < 2 ^ 30 ->
  exists mt' bf' l, loop (next_list_body ls) (MIGRATE_PCPTYPES + 1) (mt, bf) = Some (mt', bf') /\ 0 <= mt' < MIGRATE_PCPTYPES /\
    bf + 1 <= bf' <= bf + 3 /\ ls.[mt'] = Some l /\ l <> [].
Proof.
  intros Hlen Hne Hmt Hbf.
  assert (Hnext : forall m, 0 <= m < MIGRATE_PCPTYPES -> 0 <= next_type m < MIGRATE_PCPTYPES) by (intros m Hm; unfold next_type; bcase; lia).
  destruct (loop_total (next_list_body ls) (seen ls mt bf) (fun st => bf + 3 - st.2)
    (fun r => 0 <= r.1 < MIGRATE_PCPTYPES /\ bf + 1 <= r.2 <= bf + 3 /\ exists l, ls.[r.1] = Some l /\ l <> []))
    with (bound := MIGRATE_PCPTYPES + 1) (s := (mt, bf)) as ([mt' bf'] & E & H1 & H2 & l & H3 & H4).
  - intros [m b] Hs. assert (Hm : 0 <= m < MIGRATE_PCPTYPES /\ bf <= b <= bf + 2).
    { destruct Hs as [[= -> ->]|[[[= -> ->] _]|[[= -> ->] _]]]; split; auto; lia. }
    unfold body_ok, next_list_body. cbn [snd]. split; [lia|]. cbv zeta. change (if m + 1 =? MIGRATE_PCPTYPES then 0 else m + 1) with (next_type m).
    destruct (arr_get_is_Some ls (next_type m)) as [l Hl]; [rewrite Hlen; apply Hnext, Hm|]. rewrite Hl, bind_Some, s32_small by lia.
    destruct l as [|x l]; cbn [lru_empty fst snd]; [|split; [apply Hnext, Hm|]; split; [lia|by eexists]].
    split; [|lia]. destruct Hs as [[= -> ->]|[[[= -> ->] He]|[[= -> ->] [He1 He2]]]].
    + right. left. done.
    + right. right. split; [f_equal; lia|done].
    + destruct Hne. by apply (all_empty ls mt).
  - by left.
  - cbn [snd]. unfold MIGRATE_PCPTYPES. lia.
  - exists mt', bf', l. done.
Qed.

(** One round frees at least one page, and leaves the counter of the batch within bounds. *)
Lemma batch_ok zid z0 ls0 cnt z ls to_free bf mt l : progress zid z0 ls0 cnt z ls to_free -> ls.[mt] = Some l -> l <> [] ->
  0 < to_free < 2 ^ 31 -> 0 < bf < 2 ^ 31 ->
  exists z' ls' to_free' bf', loop (batch_body mt) (to_free + 1) (z, ls, to_free, bf) = Some (z', ls', to_free', bf') /\
    progress zid z0 ls0 cnt z' ls' to_free' /\ 0 <= to_free' < to_free /\ 0 <= bf' <= bf.
Proof.
  intros HP Hl Hne Htf Hbf.
  destruct (loop_total (batch_body mt)
    (fun '(z, ls, tf, b) => progress zid z0 ls0 cnt z ls tf /\ (exists l, ls.[mt] = Some l /\ l <> []) /\ 0 < tf <= to_free /\ 0 < b <= bf)
    (fun '(_, _, tf, _) => tf) (fun '(z, ls, tf, b) => progress zid z0 ls0 cnt z ls tf /\ 0 <= tf < to_free /\ 0 <= b <= bf))
    with (bound := to_free + 1) (s := (z, ls, to_free, bf)) as ([[[z' ls'] tf'] bf'] & E & H1 & H2 & H3).
  - clear z ls l HP Hl Hne. intros [[[z ls] tf] b] (HP & (l & Hl & Hne) & Htf' & Hb). split; [lia|]. unfold batch_body.
    destruct (progress_step _ _ _ _ _ _ _ _ _ HP Hl Hne) as (pg & ls' & p & z' & E1 & E2 & E3 & E4 & E5 & HP').
    rewrite Hl, bind_Some, E1, bind_Some, E2, bind_Some, E4, bind_Some, E5, bind_Some, !s32_small by lia.
    destruct (truth (tf - 1)) eqn:Et; rewrite ?truth_true, ?truth_false in Et; [|split; [done|lia]].
    destruct (truth (b - 1)) eqn:Eb; rewrite ?truth_true, ?truth_false in Eb; cbn [andb]; [|split; [done|lia]].
    destruct (removelast l) as [|x k]; cbn [lru_empty negb]; [split; [done|lia]|].
    split; [|lia]. split; [done|]. split; [by exists (x :: k)|lia].
  - split; [done|]. split; [by exists l|lia].
  - lia.
  - exists z', ls', tf', bf'. done.
Qed.

Lemma progress_left zid z0 ls0 cnt z ls to_free : progress zid z0 ls0 cnt z ls to_free -> cnt <= zlen (concat ls0) -> to_free <= zlen (concat ls).
Proof. intros (_ & _ & _ & _ & _ & freed & Hp & Hl & _) Hc. apply Permutation_length in Hp. rewrite length_app in Hp. unfold zlen in *. lia. Qed.

Lemma progress_refl zid z ls cnt : wf_zone zid z -> merged zid z -> waiting zid z ls -> progress zid z ls cnt z ls cnt.
Proof.
  intros Hw Hm Hwt. do 2 (split; [done|]). split; [done|]. split; [done|]. split; [intros m l Hl; by exists l|].
  exists []. split; [done|]. split; [change (zlen (@nil Z)) with 0; lia|]. intros x. rewrite elem_of_nil. tauto.
Qed.

Lemma bulk_loop_ok zid z0 ls0 cnt : wf_zone zid z0 -> merged zid z0 -> waiting zid z0 ls0 -> 0 <= cnt <= zlen (concat ls0) -> cnt < 2 ^ 27 ->
  exists r, loop bulk_body (cnt + 1) (z0, ls0, 0, 0, cnt) = Some r /\ progress zid z0 ls0 cnt r.1 r.2 0.
Proof.
  intros Hw Hm Hwt Hc Hc'.
  apply (loop_total bulk_body
    (fun '(z, ls, mt, bf, tf) => progress zid z0 ls0 cnt z ls tf /\ 0 <= mt < MIGRATE_PCPTYPES /\ 0 <= tf <= cnt /\ 0 <= bf <= cnt + 3 * (cnt - tf))
    (fun '(_, _, _, _, tf) => tf)).
  2: { split; [by apply progress_refl|]. unfold MIGRATE_PCPTYPES. lia. }
  2: lia.
  intros [[[[z ls] mt] bf] tf] (HP & Hmt & Htf & Hbf). split; [lia|]. unfold bulk_body.
  destruct (truth tf) eqn:Et; rewrite ?truth_true, ?truth_false in Et; [|subst tf; done].
  pose proof (progress_left _ _ _ _ _ _ _ HP ltac:(lia)) as Hleft. pose proof HP as (_ & _ & _ & (Hlen & _) & _).
  destruct (next_list_ok ls mt bf Hlen) as (mt' & bf' & l & -> & Hmt' & Hbf' & Hl & Hne); [|done|lia|].
  { intros E. rewrite E in Hleft. change (zlen (@nil Z)) with 0 in Hleft. lia. }
  rewrite bind_Some. set (bf2 := if bf' =? MIGRATE_PCPTYPES then tf else bf').
  assert (0 < bf2 <= cnt + 3 * (cnt - tf) + 3) by (unfold bf2; bcase; lia).
  destruct (batch_ok _ _ _ _ _ _ _ bf2 _ _ HP Hl Hne) as (z' & ls' & tf' & bf3 & -> & HP' & Htf' & Hbf3); [lia|lia|].
  rewrite bind_Some. split; [|lia]. split; [done|]. split; [done|]. lia.
Qed.

(** C26: Freeing [cnt] pages from the lists of a processor, when they have so many, always comes to an end.  It takes pages from the ends of the lists only and
    makes exactly these free; the zone stays consistent, no two buddies are both free, the pages that are left on the lists are as they were, and
    the count of free pages of the zone grows by [cnt]. *)
Theorem free_pcppages_bulk_correct zid s cnt pcp :
  wf_zone zid (zn s) -> merged zid (zn s) -> waiting zid (zn s) (lists pcp) -> 0 <= cnt <= zlen (concat (lists pcp)) -> cnt < 2 ^ 27 ->
  exists s' pcp' freed, free_pcppages_bulk s cnt pcp = Some (s', pcp') /\
    wf_zone zid (zn s') /\ merged zid (zn s') /\ waiting zid (zn s') (lists pcp') /\
    concat (lists pcp) ≡ₚ freed ++ concat (lists pcp') /\ zlen freed = cnt /\
    (forall m l', (lists pcp').[m] = Some l' -> exists l, (lists pcp).[m] = Some l /\ l' `prefix_of` l) /\
    (forall x, free zid (zn s') x <-> free zid (zn s) x \/ x ∈ freed) /\
    nr_free_pages s' = nr_free_pages s + cnt /\ all_unreclaimable s' = 0 /\ pages_scanned s' = 0 /\ count pcp' = count pcp.
Proof.
  intros Hw Hm Hwt Hc Hc'. destruct (bulk_loop_ok zid _ _ cnt Hw Hm Hwt Hc Hc') as ([z ls] & E & Hw' & Hm' & _ & Hwt' & Hpre & freed & Hp & Hl & Hf).
  unfold free_pcppages_bulk. rewrite E, bind_Some. eexists _, _, freed. split; [done|]. cbn. rewrite Z.sub_0_r in Hl. done.
Qed.

(** Draining frees every page of the lists. *)
Lemma drain_zone_ok zid s pcp : wf_zone zid (zn s) -> merged zid (zn s) -> waiting zid (zn s) (lists pcp) ->
  count pcp = zlen (concat (lists pcp)) -> count pcp < 2 ^ 27 ->
  exists s' pcp', drain_zone s pcp = Some (s', pcp') /\ wf_zone zid (zn s') /\ merged zid (zn s') /\ count pcp' = 0 /\ concat (lists pcp') = [] /\
    forall x, free zid (zn s') x <-> free zid (zn s) x \/ x ∈ concat (lists pcp).
Proof.
  intros Hw Hm Hwt Hc Hc'. unfold drain_zone. destruct (truth (count pcp)) eqn:Et; rewrite ?truth_true, ?truth_false in Et.
  - destruct (bulk_loop_ok zid _ _ (count pcp) Hw Hm Hwt) as ([z ls] & E & HP); [pose proof (zlen_nonneg (concat (lists pcp))); lia|done|].
    pose proof HP as (Hw' & Hm' & _ & _ & _ & freed & Hp & Hl & Hf). unfold free_pcppages_bulk. rewrite E, !bind_Some. eexists _, _. split; [done|]. cbn [zn lists count with_lists with_count fst snd] in *.
    assert (Hn : concat ls = []).
    { apply Permutation_length in Hp. rewrite length_app in Hp. unfold zlen in *. apply length_zero_iff_nil. lia. }
    do 3 (split; [done|]). split; [done|]. intros x. rewrite Hf. rewrite Hn, app_nil_r in Hp. by rewrite Hp.
  - exists s, pcp. do 3 (split; [done|]). split; [done|]. assert (Hn : concat (lists pcp) = []) by (apply zlen_nil_inv; lia). split; [done|].
    intros x. rewrite Hn, elem_of_nil. tauto.
Qed.

(** ** Filling the lists *)

(** The private data of a page that is not free may change. *)
Lemma set_page_private_ok zid z p v : wf_zone zid z -> merged zid z -> in_zone zid z p -> ~ free zid z p ->
  exists z' g, set_page_private z p v = Some z' /\ wf_zone zid z' /\ merged zid z' /\ same_zones z z' /\
    (forall x, free zid z' x <-> free zid z x) /\ mem_map z' !! p = Some g /\ private g = v /\
    (forall x, x <> p -> mem_map z' !! x = mem_map z !! x) /\ forall o mt, list_of z' o mt = list_of z o mt.
Proof.
  intros Hw Hm (g & Hg & Hz)%in_zone_page Hf. unfold set_page_private. rewrite Hg, bind_Some. set (g' := with_buddy g (page_mapcount g) v).
  eexists _, g'. split; [done|]. set (z' := set_page z p g'). assert (Hzz : same_zones z z') by (by apply (same_zones_insert z z' p g g')).
  assert (Hnb : PageBuddy g = false).
  { destruct (PageBuddy g) eqn:E; [|done]. destruct Hf. assert (Hp : head zid z p (private g)) by (by exists g).
    exists p, (private g). split; [done|]. by apply (in_block_head zid z). }
  assert (Hh : forall q o, head zid z' q o <-> head zid z q o).
  { intros q o. rewrite (head_insert zid z z' p g') by done. change (PageBuddy g') with (PageBuddy g). rewrite Hnb. split; [naive_solver|].
    intros Hq. right. split; [|done]. intros ->. destruct Hq as (g0 & Hg0 & Hb & _). congruence. }
  split; [|split; [apply (merged_sub _ z); [done|apply Hh]|split; [done|]]].
  - apply (wf_changed zid z); try done; try apply Hw.
    + intros q o. rewrite Hh. apply (w_heads _ _ Hw).
    + intros q o Hq%Hh. by apply (w_block _ _ Hw).
    + intros q o r o' x Hq%Hh Hr%Hh. by apply (w_apart _ _ Hw).
  - split; [intros x; unfold free; by setoid_rewrite Hh|]. split; [apply lookup_insert_eq|]. split; [done|]. split; [|done].
    intros x Hx. apply lookup_insert_ne. congruence.
Qed.

(** The blocks [ps] have been taken out of the free memory of [z0]. *)
Definition filled (zid : Z) (z0 : zone) (order mt : Z) (ps : list Z) (z : zone) : Prop :=
  wf_zone zid z /\ merged zid z /\ same_zones z0 z /\
  (forall p, p ∈ ps -> in_hand zid z p order /\ private <$> mem_map z !! p = Some mt) /\
  (forall p q x, p ∈ ps -> q ∈ ps -> in_block p order x -> in_block q order x -> p = q) /\ NoDup ps /\
  (forall x, free zid z0 x <-> free zid z x \/ exists p, p ∈ ps /\ in_block p order x) /\
  (forall x, ~ free zid z0 x -> mem_map z !! x = mem_map z0 !! x).

Lemma filled_add zid z0 order mt ps z pg z' : 0 <= order < MAX_ORDER -> filled zid z0 order mt ps z -> gives zid z order pg z' ->
  exists z'', set_page_private z' pg mt = Some z'' /\ filled zid z0 order mt (ps ++ [pg]) z''.
Proof.
  intros Ho (Hw & Hm & Hz & Hps & Hd & Hn & Hf & Hk) (Hw' & Hm' & Hz' & Hk' & Hb & Hin & Hf').
  pose proof Hb as (? & ? & ? & Hbz). pose proof (in_block_first pg order ltac:(lia)) as Hpg.
  destruct (set_page_private_ok zid z' pg mt Hw' Hm') as (z'' & g & E & Hw2 & Hm2 & Hz2 & Hf2 & Hg & Hgp & Hk2 & _).
  { unfold in_zone. rewrite (proj1 Hz' pg). by apply Hbz. }
  { rewrite Hf'. tauto. }
  assert (Hne : forall p, p ∈ ps -> forall x, in_block p order x -> in_block pg order x -> False).
  { intros p Hp x Hx Hx'. destruct (Hps p Hp) as [[_ Hd'] _]. by apply (Hd' x Hx), Hin. }
  exists z''. split; [done|]. do 2 (split; [done|]). split; [by do 2 (eapply same_zones_trans; [eassumption|])|]. split; [|split; [|split; [|split]]].
  - intros p [Hp| ->%list_elem_of_singleton]%elem_of_app.
    + destruct (Hps p Hp) as [[Hbp Hdp] Hpp]. split; [split|].
      * apply (same_zones_block _ z'); [done|]. by apply (same_zones_block _ z).
      * intros x Hx. rewrite Hf2, Hf'. intros [Hx' _]. by apply (Hdp x).
      * pose proof (in_block_first p order ltac:(lia)) as Hpp'.
        rewrite Hk2, Hk'; [done|by apply Hdp|]. intros ->. by apply (Hne pg Hp pg).
    + split; [split|by rewrite Hg; simpl; rewrite Hgp].
      * apply (same_zones_block _ z'); [done|]. by apply (same_zones_block _ z).
      * intros x Hx. rewrite Hf2, Hf'. tauto.
  - intros p q x [Hp| ->%list_elem_of_singleton]%elem_of_app [Hq| ->%list_elem_of_singleton]%elem_of_app Hx Hx'; [by apply (Hd p q x)| | |done].
    + by destruct (Hne p Hp x).
    + by destruct (Hne q Hq x).
  - apply list.NoDup_app. split; [done|]. split; [|apply list.NoDup_singleton]. intros p Hp ->%list_elem_of_singleton. by apply (Hne pg Hp pg).
  - intros x. rewrite Hf, Hf2, Hf'. setoid_rewrite elem_of_app. setoid_rewrite list_elem_of_singleton. split.
    + intros [Hx|(p & Hp & Hx)]; [|right; by exists p; split; [left|]].
      destruct (decide (pg <= x < pg + 2 ^ order)) as [Hi|Hi]; [right; by exists pg; split; [right|]|left; by split].
    + intros [[Hx _]|(p & [Hp| ->] & Hx)]; [by left|right; by exists p|left; by apply Hin].
  - intros x Hx. assert (~ free zid z x) by (intros ?; apply Hx, Hf; by left).
    rewrite Hk2, Hk' by (try done; intros ->; apply Hx, Hf; left; by apply Hin). by apply Hk.
Qed.

(** The list when the blocks [ps] have been put on it, and where the next one goes. *)
Definition put_on (l : list Z) (ps : list Z) (cold : bool) : list Z * Z :=
  if cold then (l ++ reverse ps, if lru_empty ps then 0 else zlen l + 1) else (ps ++ l, zlen ps).

Lemma put_next l ps pg cold : list_add_at (put_on l ps cold).1 (put_on l ps cold).2 pg cold = put_on l (ps ++ [pg]) cold.
Proof.
  assert (Hne : lru_empty (ps ++ [pg]) = false) by (by destruct ps). unfold put_on. destruct cold; cbn [fst snd]; unfold list_add_at.
  - rewrite Hne, reverse_snoc. destruct ps as [|p ps]; cbn [lru_empty].
    + cbn [Z.eqb]. rewrite reverse_nil, app_nil_r. unfold zlen. rewrite Nat2Z.id, take_ge, drop_ge by lia. done.
    + destruct (Z.eqb_spec (zlen l + 1) 0) as [E|_]; [pose proof (zlen_nonneg l); lia|]. replace (zlen l + 1 - 1) with (zlen l) by lia.
      unfold zlen. by rewrite Nat2Z.id, take_app_length, drop_app_length.
  - unfold zlen. rewrite Nat2Z.id, take_app_length, drop_app_length, <- app_assoc, length_app. simpl. f_equal. lia.
Qed.

(** The types whose lists an allocation of the type [mt] falls back to. *)
Definition may_use (mt mt' : Z) : Prop := mt' = mt \/ (mt <> MIGRATE_RESERVE /\ 0 <= mt' <= MIGRATE_RESERVE).

(** C27: Taking up to [cnt] blocks from the buddy allocator always comes to an end.  The blocks are aligned, do not overlap and were free; exactly their
    pages are no longer free, and no other page that was in use is changed.  They are put in front of the list in the order in which they were found, or,
    when cold pages are asked for, behind it in the opposite order, and marked with the type; fewer than [cnt] are found only when, at the end, neither the lists of
    the type nor, unless it is the reserve, those of any other type and of the reserve have a block of the order or a larger one.  The count of free pages falls by the number of pages taken. *)
Theorem rmqueue_bulk_correct disabled zid s order cnt l mt cold :
  wf_zone zid (zn s) -> merged zid (zn s) -> spans zid (zn s) -> 0 <= order < MAX_ORDER -> 0 <= mt <= MIGRATE_RESERVE -> 0 <= cnt ->
  exists ps s', rmqueue_bulk disabled s order cnt l mt cold = Some (zlen ps, s', if cold then l ++ reverse ps else ps ++ l) /\
    zlen ps <= cnt /\ filled zid (zn s) order mt ps (zn s') /\ nr_free_pages s' = nr_free_pages s - zlen ps * 2 ^ order /\
    (zlen ps < cnt -> forall c mt', order <= c < MAX_ORDER -> may_use mt mt' -> list_of (zn s') c mt' = []).
Proof.
  intros Hw Hm Hs Ho Hmt Hc. set (z0 := zn s) in *.
  destruct (loop_total (bulk_fill_body disabled order cnt mt cold)
    (fun '(z, i, k, pos) => exists ps, filled zid z0 order mt ps z /\ i = zlen ps /\ i <= cnt /\ (k, pos) = put_on l ps cold)
    (fun '(_, i, _, _) => cnt - i)
    (fun '(z, i, k) => exists ps, filled zid z0 order mt ps z /\ i = zlen ps /\ i <= cnt /\ k = (put_on l ps cold).1 /\
       (i < cnt -> forall c mt', order <= c < MAX_ORDER -> may_use mt mt' -> list_of z c mt' = [])))
    with (bound := cnt + 1) (s := (z0, 0, l, 0)) as ([[z i] k] & E & ps & HF & -> & Hle & -> & Hend).
  - intros [[[z i] k] pos] (ps & HF & -> & Hle & Hput). split; [lia|]. unfold bulk_fill_body.
    destruct (Z.ltb_spec (zlen ps) cnt) as [Hlt|Hge]; [|exists ps; rewrite <- Hput; do 4 (split; [done|]); lia].
    pose proof HF as (Hwz & Hmz & Hzz & _). destruct (rmqueue_ok disabled zid z order mt Hwz Hmz) as ([[pg|] z'] & -> & Hr); [by apply (same_zones_spans _ z0)|done|done| |].
    + destruct Hr as [Hg _]. destruct (filled_add zid z0 order mt ps z pg z' Ho HF Hg) as (z'' & Es & HF'). rewrite bind_Some.
      pose proof (put_next l ps pg cold) as Hp. rewrite <- Hput in Hp. cbn [fst snd] in Hp. rewrite Hp.
      destruct (put_on l (ps ++ [pg]) cold) as [k' pos'] eqn:Ek. rewrite Es, bind_Some. split; [|lia].
      exists (ps ++ [pg]). split; [done|]. rewrite zlen_app. change (zlen [pg]) with 1. split; [done|]. split; [lia|done].
    + rewrite bind_Some. destruct Hr as [-> Hempty]. exists ps. do 3 (split; [done|]). rewrite <- Hput. split; [done|]. intros _. exact Hempty.
  - exists []. split; [|split; [done|split; [done|unfold put_on; destruct cold; cbn; by rewrite ?app_nil_r]]].
    do 2 (split; [done|]). split; [done|]. split; [by intros p ?%not_elem_of_nil|]. split; [by intros p q x ?%not_elem_of_nil|]. split; [constructor|].
    split; [|done]. intros x. split; [by left|]. intros [?|(p & ?%not_elem_of_nil & _)]; done.
  - lia.
  - unfold rmqueue_bulk. fold z0. rewrite E, bind_Some. eexists ps, _. split; [unfold put_on; by destruct cold|]. cbn [zn nr_free_pages].
    split; [done|]. split; [done|]. split; [|done]. rewrite Z.shiftl_mul_pow2 by lia. done.
Qed.

(** ** The zone of 1024 pages *)

Definition state_of (z : zone) : zone_state := {| zn := z; all_unreclaimable := 1; pages_scanned := 7; nr_free_pages := 0 |}.
Definition some_pages : per_cpu_pages := {| count := 4; high := 6; batch := 2; lists := [[3]; [4; 5]; [9]] |}.

Lemma full_zone_waits p : 0 <= p < 1024 -> waits 0 full_zone p.
Proof.
  intros Hp. split; [split|].
  - apply full_zone_block; change (2 ^ 0) with 1; [lia|done|apply Z.mod_1_r|lia].
  - intros x _. apply full_zone_wf.
  - exists idle_page. split; [by apply full_zone_page|done].
Qed.

Lemma some_pages_waiting : waiting 0 full_zone (lists some_pages).
Proof.
  split; [done|]. split; [repeat (constructor; [rewrite list_elem_of_In; simpl; lia|]); constructor|].
  intros p Hp. apply full_zone_waits. rewrite list_elem_of_In in Hp. simpl in Hp. lia.
Qed.

Lemma free_pcppages_bulk_correct_witness : exists s' pcp' freed, free_pcppages_bulk (state_of full_zone) 3 some_pages = Some (s', pcp') /\
  wf_zone 0 (zn s') /\ merged 0 (zn s') /\ waiting 0 (zn s') (lists pcp') /\
  concat (lists some_pages) ≡ₚ freed ++ concat (lists pcp') /\ zlen freed = 3 /\
  (forall m l', (lists pcp').[m] = Some l' -> exists l, (lists some_pages).[m] = Some l /\ l' `prefix_of` l) /\
  (forall x, free 0 (zn s') x <-> free 0 full_zone x \/ x ∈ freed) /\
  nr_free_pages s' = 0 + 3 /\ all_unreclaimable s' = 0 /\ pages_scanned s' = 0 /\ count pcp' = 4.
Proof.
  destruct full_zone_wf as (Hw & Hm & _).
  apply (free_pcppages_bulk_correct 0 (state_of full_zone) 3 some_pages Hw Hm some_pages_waiting); [split; discriminate|reflexivity].
Defined.

Lemma rmqueue_bulk_correct_witness : exists ps s', rmqueue_bulk false (state_of idle_zone) 0 4 [77] 0 true = Some (zlen ps, s', [77] ++ reverse ps) /\
  zlen ps <= 4 /\ filled 0 idle_zone 0 0 ps (zn s') /\ nr_free_pages s' = 0 - zlen ps * 2 ^ 0 /\
  (zlen ps < 4 -> forall c mt', 0 <= c < MAX_ORDER -> may_use 0 mt' -> list_of (zn s') c mt' = []).
Proof.
  destruct idle_zone_wf as (Hw & Hm & Hz & _).
  apply (rmqueue_bulk_correct false 0 (state_of idle_zone) 0 4 [77] 0 true Hw Hm (same_zones_spans 0 full_zone idle_zone Hz full_zone_spans));
    [split; done|split; done|done].
Defined.

(** The pages come in the order of their numbers, and cold ones in the opposite order. *)
Example bulk_order :
  (snd <$> rmqueue_bulk false (state_of idle_zone) 0 4 [77] 0 false) = Some [0; 1; 2; 3; 77] /\
  (snd <$> rmqueue_bulk false (state_of idle_zone) 0 4 [77] 0 true) = Some [77; 3; 2; 1; 0].
Proof. vm_compute. split; reflexivity. Qed.

(** The lists take turns, a list gives as many pages as lists were looked at to find it. *)
Example bulk_turns :
  ((fun r => lists r.2) <$> free_pcppages_bulk (state_of full_zone) 2 some_pages) = Some [[3]; [4]; []].
Proof. vm_compute. reflexivity. Qed.
