(* ===== verification/Rtime.v ===== *)
(** * JFFS2: the rtime compressor (fs/jffs2/compr_rtime.c)

    The file system compresses the pages of the flash with several methods; this one writes every byte
    followed by the length of a repetition of what followed the same byte the last time.  The
    theorem is that what is compressed is decompressed to the same bytes. *)

From S2P Require Import Prelude.

(** ** Definitions *)

(** The inner loop: (backpos, pos, runlen). *)
Definition match_body (data_in : list Z) (sourcelen : Z) (st : Z * Z * Z) : option (step (Z * Z * Z) (Z * Z)) :=
  let '(backpos, pos, runlen) := st in
  if (backpos <? pos) && (pos <? sourcelen) then
    a ← data_in.[pos];
    b ← data_in.[backpos];
    if (a =? b) && (runlen <? 255) then Some (Next (backpos + 1, pos + 1, runlen + 1)) else Some (Done (pos, runlen))
  else Some (Done (pos, runlen)).

Record compressing := { positions : list Z; cpage_out : list Z; outpos : Z; pos : Z }.

(** The comparisons with the 32-bit lengths are unsigned; positions are stored as shorts. *)
Definition compress_body (data_in : list Z) (sourcelen dstlen : Z) (s : compressing) : option (step compressing compressing) :=
  if (pos s <? sourcelen) && (outpos s <=? u32 (dstlen - 2)) then
    value ← data_in.[pos s];
    out ← (cpage_out s).[outpos s <- value];
    let pos := pos s + 1 in
    backpos ← (positions s).[value];
    positions ← (positions s).[value <- s16 pos];
    r ← loop (match_body data_in sourcelen) 257 (backpos, pos, 0);
    let '(pos, runlen) := r in
    out ← out.[outpos s + 1 <- runlen];
    Some (Next {| positions := positions; cpage_out := out; outpos := outpos s + 2; pos := pos |})
  else Some (Done s).

(** The result is (return value, cpage_out, sourcelen, dstlen). *)
Definition jffs2_rtime_compress (data_in out : list Z) (sourcelen dstlen : Z) : option (Z * list Z * Z * Z) :=
  s ← loop (compress_body data_in sourcelen dstlen) (sourcelen + 1)
        {| positions := repeat 0 256; cpage_out := out; outpos := 0; pos := 0 |};
  if pos s <=? outpos s then Some (-1, cpage_out s, sourcelen, dstlen)
  else Some (0, cpage_out s, pos s, outpos s).

(** [while(repeat) cpage_out[outpos++] = cpage_out[backoffs++], repeat--;] *)
Definition repeat_body (st : list Z * Z * Z * Z) : option (step (list Z * Z * Z * Z) (list Z)) :=
  let '(out, outpos, backoffs, repeat) := st in
  if truth repeat then
    b ← out.[backoffs];
    out ← out.[outpos <- b];
    Some (Next (out, outpos + 1, backoffs + 1, repeat - 1))
  else Some (Done out).

(** memcpy() of areas that do not overlap: all bytes are read first. *)
Fixpoint write_bytes (out : list Z) (at_ : Z) (b : list Z) : option (list Z) :=
  match b with [] => Some out | x :: b' => out ← out.[at_ <- x]; write_bytes out (at_ + 1) b' end.
Definition memcpy_within (out : list Z) (dst src n : Z) : option (list Z) :=
  if (0 <=? src) && (src + n <=? zlen out) then write_bytes out dst (take (Z.to_nat n) (drop (Z.to_nat src) out)) else None.

Record expanding := { e_positions : list Z; e_out : list Z; e_outpos : Z; e_pos : Z }.

Definition decompress_body (data_in : list Z) (destlen : Z) (s : expanding) : option (step expanding (list Z)) :=
  if e_outpos s <? destlen then
    value ← data_in.[e_pos s];
    out ← (e_out s).[e_outpos s <- value];
    let outpos := e_outpos s + 1 in
    repeat ← data_in.[e_pos s + 1];
    backoffs ← (e_positions s).[value];
    positions ← (e_positions s).[value <- s16 outpos];
    r ← (if truth repeat then
           if outpos <=? backoffs + repeat then
             out ← loop repeat_body 257 (out, outpos, backoffs, repeat); Some (out, outpos + repeat)
           else out ← memcpy_within out outpos backoffs repeat; Some (out, outpos + repeat)
         else Some (out, outpos));
    let '(out, outpos) := r in
    Some (Next {| e_positions := positions; e_out := out; e_outpos := outpos; e_pos := e_pos s + 2 |})
  else Some (Done (e_out s)).

(** The return value is 0; [srclen] is not looked at. *)
Definition jffs2_rtime_decompress (data_in cpage_out : list Z) (srclen destlen : Z) : option (Z * list Z) :=
  out ← loop (decompress_body data_in destlen) (destlen + 1) {| e_positions := repeat 0 256; e_out := cpage_out; e_outpos := 0; e_pos := 0 |};
  Some (0, out).

(** ** Proofs: tokens *)

(** One step of both directions, at the position [p] of the data: a byte and the length of the repetition behind it. *)
Record token (data : list Z) (n p : Z) (ps : list Z) (v r p' : Z) (ps' : list Z) : Prop := {
  tok_value : data.[p] = Some v;
  tok_range : 0 <= r <= 255 /\ p' = p + 1 + r /\ p' <= n;
  tok_store : ps.[v <- s16 (p + 1)] = Some ps';
  tok_copy : exists b, ps.[v] = Some b /\ 0 <= b <= p /\ forall j, 0 <= j < r -> data.[p + 1 + j] = data.[b + j]
}.

Inductive tokens (data : list Z) (n : Z) : Z -> list Z -> list (Z * Z) -> Z -> list Z -> Prop :=
| tokens_nil p ps : tokens data n p ps [] p ps
| tokens_cons p ps v r p1 ps1 l p2 ps2 :
    token data n p ps v r p1 ps1 -> tokens data n p1 ps1 l p2 ps2 -> tokens data n p ps ((v, r) :: l) p2 ps2.

Lemma tokens_snoc data n p ps l p1 ps1 v r p2 ps2 : tokens data n p ps l p1 ps1 -> token data n p1 ps1 v r p2 ps2 ->
  tokens data n p ps (l ++ [(v, r)]) p2 ps2.
Proof. induction 1; intros; cbn; econstructor; eauto using tokens. Qed.

(** The positions that are remembered. *)
Definition positions_ok (ps : list Z) (p : Z) : Prop := zlen ps = 256 /\ forall v b, ps.[v] = Some b -> 0 <= b <= p.

Lemma token_positions data n p ps v r p' ps' : token data n p ps v r p' ps' -> 0 <= p -> n < 2 ^ 15 -> positions_ok ps p -> positions_ok ps' p'.
Proof.
  intros [_ (Hr & -> & Hn) Hst (b & Hb & _)] Hp Hlt [Hz Hps]. destruct (arr_set_range ps v (s16 (p + 1))) as (l & E & Hl & Hv & Ho); [by apply arr_get_range in Hb|].
  rewrite E in Hst. injection Hst as ->. split; [congruence|]. intros w c Hc. destruct (decide (w = v)) as [->|Hne].
  - rewrite Hv in Hc. injection Hc as <-. unfold s16. rewrite Z.mod_small by lia. lia.
  - rewrite Ho in Hc by done. apply Hps in Hc. lia.
Qed.

(** ** Proofs: compressing *)

Lemma match_ok data n p b : 0 <= b <= p -> p + 1 <= n -> n <= zlen data ->
  exists r, loop (match_body data n) 257 (b, p + 1, 0) = Some (p + 1 + r, r) /\ 0 <= r <= 255 /\ p + 1 + r <= n /\
    forall j, 0 <= j < r -> data.[p + 1 + j] = data.[b + j].
Proof.
  intros Hb Hp Hn.
  destruct (loop_total (match_body data n)
    (fun '(x, y, r) => x = b + r /\ y = p + 1 + r /\ 0 <= r <= 255 /\ y <= n /\ forall j, 0 <= j < r -> data.[p + 1 + j] = data.[b + j])
    (fun '(_, _, r) => 255 - r)
    (fun '(y, r) => y = p + 1 + r /\ 0 <= r <= 255 /\ y <= n /\ forall j, 0 <= j < r -> data.[p + 1 + j] = data.[b + j]))
    with (bound := 257) (s := (b, p + 1, 0)) as ([y r] & Hl & -> & Hr & Hy & Hcopy).
  - intros [[x y] r] (-> & -> & Hr & Hy & Hcopy). unfold body_ok. split; [lia|]. unfold match_body.
    destruct (Z.ltb_spec (b + r) (p + 1 + r)), (Z.ltb_spec (p + 1 + r) n); cbn [andb]; try exact (conj eq_refl (conj Hr (conj Hy Hcopy))).
    destruct (arr_get_is_Some data (p + 1 + r)) as [u Hu]; [lia|]. destruct (arr_get_is_Some data (b + r)) as [w Hw]; [lia|]. rewrite Hu, Hw, !bind_Some.
    destruct (Z.eqb_spec u w) as [->|], (Z.ltb_spec r 255); cbn [andb]; try exact (conj eq_refl (conj Hr (conj Hy Hcopy))).
    split; [|lia]. split_and!; try lia. intros j Hj. destruct (decide (j = r)) as [->|]; [congruence|]. apply Hcopy. lia.
  - split_and!; lia.
  - lia.
  - exists r. exact (conj Hl (conj Hr (conj Hy Hcopy))).
Qed.

(** What the compressor maintains: the tokens it has written are those of the data so far. *)
Definition flatten (l : list (Z * Z)) : list Z := concat (map (fun '(v, r) => [v; r]) l).

Lemma flatten_snoc l v r : flatten (l ++ [(v, r)]) = flatten l ++ [v; r].
Proof. unfold flatten. by rewrite map_app, concat_app. Qed.

Definition compressed (data : list Z) (n room : Z) (s : compressing) (l : list (Z * Z)) : Prop :=
  tokens data n 0 (repeat 0 256) l (pos s) (positions s) /\ positions_ok (positions s) (pos s) /\ 0 <= pos s <= n /\
  zlen (cpage_out s) = room /\ outpos s = zlen (flatten l) /\ same_upto (cpage_out s) (flatten l) (zlen (flatten l)) /\ Z.of_nat (length l) <= pos s.

Lemma compress_step data n dstlen room s l : Forall (fun x => 0 <= x < 256) data -> n <= zlen data -> n < 2 ^ 15 -> 2 <= dstlen <= room -> dstlen < 2 ^ 32 ->
  compressed data n room s l -> pos s < n -> outpos s <= dstlen - 2 ->
  exists s' v r, compress_body data n dstlen s = Some (Next s') /\ compressed data n room s' (l ++ [(v, r)]) /\ pos s < pos s'.
Proof.
  intros Hbytes Hn Hlt Hroom Hd (Htok & [Hz Hps] & Hpos & Hzo & Ho & Hsame & Hlen) Hp Hout. unfold compress_body.
  rewrite (proj2 (Z.ltb_lt _ _)), u32_small, (proj2 (Z.leb_le _ _)) by lia. cbn [andb].
  destruct (arr_get_is_Some data (pos s)) as [v Hv]; [lia|]. rewrite Hv, bind_Some.
  assert (Hvr : 0 <= v < 256) by (apply arr_get_Some in Hv as [_ Hv]; exact (Forall_lookup_1 _ _ _ _ Hbytes Hv)). pose proof (zlen_nonneg (flatten l)).
  destruct (arr_set_range (cpage_out s) (outpos s) v) as (o1 & -> & Hz1 & Ho1 & Hk1); [lia|]. rewrite bind_Some.
  destruct (arr_get_is_Some (positions s) v) as [b Hb]; [lia|]. rewrite Hb, bind_Some.
  destruct (arr_set_range (positions s) v (s16 (pos s + 1))) as (ps' & Hst & Hz2 & _); [lia|]. rewrite Hst, bind_Some.
  destruct (match_ok data n (pos s) b) as (r & -> & Hr & Hpr & Hcopy); [by apply (Hps v)|lia..|]. rewrite bind_Some.
  destruct (arr_set_range o1 (outpos s + 1) r) as (o2 & -> & Hz3 & Ho2 & Hk2); [lia|]. rewrite bind_Some.
  assert (Ht : token data n (pos s) (positions s) v r (pos s + 1 + r) ps').
  { split; [done|lia|done|]. exists b. split; [done|]. split; [by apply (Hps v)|done]. }
  eexists _, v, r. split; [done|]. split; [|cbn; lia]. unfold compressed. cbn [pos positions cpage_out outpos]. rewrite flatten_snoc, zlen_app. change (zlen [v; r]) with 2.
  split; [by eapply tokens_snoc|]. split; [eapply token_positions; [done|lia|done|by split]|]. split_and!; try lia.
  - intros i Hi. destruct (Z.lt_trichotomy i (outpos s)) as [Hl|[->|Hl]].
    + rewrite Hk2, Hk1 by lia. rewrite arr_get_app_l by lia. apply Hsame. lia.
    + rewrite Hk2, Ho1 by lia. rewrite Ho, arr_get_app_r, Z.sub_diag by lia. done.
    + assert (i = outpos s + 1) as -> by lia. rewrite Ho2, Ho, arr_get_app_r by lia. by replace (zlen (flatten l) + 1 - zlen (flatten l)) with 1 by lia.
  - rewrite length_app. cbn. lia.
Qed.

Lemma compress_ok data out n dstlen : Forall (fun x => 0 <= x < 256) data -> 0 <= n <= zlen data -> n < 2 ^ 15 -> 2 <= dstlen <= zlen out -> dstlen < 2 ^ 32 ->
  exists s l, loop (compress_body data n dstlen) (n + 1) {| positions := repeat 0 256; cpage_out := out; outpos := 0; pos := 0 |} = Some s /\
    compressed data n (zlen out) s l /\ outpos s <= dstlen.
Proof.
  intros Hbytes Hn Hlt Hd Hd32.
  destruct (loop_total (compress_body data n dstlen) (fun s => (exists l, compressed data n (zlen out) s l) /\ outpos s <= dstlen) (fun s => n - pos s)
    (fun s => (exists l, compressed data n (zlen out) s l) /\ outpos s <= dstlen))
    with (bound := n + 1) (s := {| positions := repeat 0 256; cpage_out := out; outpos := 0; pos := 0 |}) as (s & Hs & (l & Hl) & Ho).
  - intros s [[l Hl] Ho]. unfold body_ok. assert (Hpos : 0 <= pos s <= n) by apply Hl. split; [lia|].
    destruct (Z.ltb_spec (pos s) n), (Z.leb_spec (outpos s) (dstlen - 2)).
    + destruct (compress_step data n dstlen (zlen out) s l) as (s' & v & r & -> & Hc & Hlt'); [done || lia..|]. split; [|lia]. split; [by eexists|].
      assert (outpos s' = zlen (flatten (l ++ [(v, r)]))) as -> by apply Hc. assert (outpos s = zlen (flatten l)) by apply Hl.
      rewrite flatten_snoc, zlen_app. change (zlen [v; r]) with 2. lia.
    + unfold compress_body. rewrite u32_small, (proj2 (Z.leb_gt _ _)), andb_false_r by lia. by split; [eexists|].
    + unfold compress_body. rewrite (proj2 (Z.ltb_ge _ _)) by lia. by split; [eexists|].
    + unfold compress_body. rewrite (proj2 (Z.ltb_ge _ _)) by lia. by split; [eexists|].
  - split; [|cbn; lia]. exists []. unfold compressed. cbn [pos positions cpage_out outpos]. split; [apply tokens_nil|]. split.
    + split; [done|]. intros v b Hb. apply arr_get_Some in Hb as [_ Hb]. apply list_elem_of_lookup_2, list_elem_of_In, repeat_spec in Hb. lia.
    + split_and!; try (done || lia). intros i Hi. unfold zlen in Hi. cbn in Hi. lia.
  - cbn. lia.
  - exists s, l. by split_and!.
Qed.

(** ** Proofs: decompressing *)

Lemma tokens_mono data n p ps l p2 ps2 : tokens data n p ps l p2 ps2 -> p <= p2.
Proof. induction 1 as [|p ps v r p1 ps1 l p2 ps2 [_ Hr _ _] _ IH]; [done|]. lia. Qed.

(** Writing the bytes of [data] behind those that are there. *)
Lemma same_extend out data p x out' : 0 <= p -> same_upto out data p -> out.[p <- x] = Some out' -> data.[p] = Some x ->
  same_upto out' data (p + 1) /\ zlen out' = zlen out.
Proof.
  intros Hp Hs Hset Hx. assert (Hr : 0 <= p < zlen out).
  { unfold arr_set in Hset. destruct ((0 <=? p) && (p <? Z.of_nat (length out))) eqn:E; [|done]. apply andb_true_iff in E as [?%Z.leb_le ?%Z.ltb_lt]. unfold zlen. lia. }
  destruct (arr_set_range out p x Hr) as (l & E & Hz & Hv & Ho). rewrite E in Hset. injection Hset as <-. split; [|done].
  intros i Hi. destruct (decide (i = p)) as [->|]; [congruence|]. rewrite Ho by done. apply Hs. lia.
Qed.

Lemma repeat_ok data room b : forall r p out, 0 <= b < p -> same_upto out data p -> zlen out = room -> p + Z.of_nat r <= room -> p + Z.of_nat r <= zlen data ->
  (forall j, 0 <= j < Z.of_nat r -> data.[p + j] = data.[b + j]) ->
  exists t out', steps repeat_body r (out, p, b, Z.of_nat r) = Some t /\ repeat_body t = Some (Done out') /\ same_upto out' data (p + Z.of_nat r) /\ zlen out' = room.
Proof.
  intros r. revert b. induction r as [|r IH]; intros b p out Hb Hs Hz Hr Hd Hc.
  - exists (out, p, b, 0), out. rewrite Z.add_0_r. by split_and!.
  - destruct (arr_get_is_Some data p) as [x Hx]; [lia|]. destruct (arr_set_range out p x) as (o & Ho & _); [lia|].
    destruct (same_extend out data p x o) as [Hs' Hz']; [lia|done..|].
    destruct (IH (b + 1) (p + 1) o) as (t & out' & Hst & Hdone & Hs2 & Hz2); [lia|done|lia..| |].
    { intros j Hj. replace (p + 1 + j) with (p + (j + 1)) by lia. replace (b + 1 + j) with (b + (j + 1)) by lia. apply Hc. lia. }
    assert (Hxb : out.[b] = Some x) by (specialize (Hc 0); rewrite !Z.add_0_r in Hc; rewrite Hs, <-Hc by lia; done).
    exists t, out'. split_and!; [|done| |done].
    + assert (Hnext : repeat_body (out, p, b, Z.of_nat (S r)) = Some (Next (o, p + 1, b + 1, Z.of_nat r))).
      { unfold repeat_body, truth. rewrite (proj2 (Z.eqb_neq _ 0)) by lia. cbn [negb]. rewrite Hxb, bind_Some, Ho, bind_Some. do 3 f_equal. lia. }
      cbn [steps]. by rewrite Hnext.
    + replace (p + Z.of_nat (S r)) with (p + 1 + Z.of_nat r) by lia. done.
Qed.

Lemma write_ok data room : forall b p out, 0 <= p -> same_upto out data p -> zlen out = room -> p + zlen b <= room ->
  (forall j, 0 <= j < zlen b -> data.[p + j] = b.[j]) ->
  exists out', write_bytes out p b = Some out' /\ same_upto out' data (p + zlen b) /\ zlen out' = room.
Proof.
  induction b as [|x b IH]; intros p out Hp Hs Hz Hr Hd.
  - exists out. change (zlen (@nil Z)) with 0. rewrite Z.add_0_r. by split_and!.
  - rewrite zlen_cons in *. pose proof (zlen_nonneg b). destruct (arr_set_range out p x) as (o & Ho & _); [lia|]. cbn [write_bytes]. rewrite Ho, bind_Some.
    destruct (same_extend out data p x o) as [Hs' Hz']; [lia|done..| |].
    { specialize (Hd 0). rewrite Z.add_0_r in Hd. rewrite Hd by lia. done. }
    destruct (IH (p + 1) o) as (o' & Ho' & Hs2 & Hz2); [lia|done|lia..| |].
    { intros j Hj. replace (p + 1 + j) with (p + (j + 1)) by lia. rewrite Hd, arr_get_cons by lia. f_equal. lia. }
    exists o'. replace (p + (zlen b + 1)) with (p + 1 + zlen b) by lia. by split_and!.
Qed.

(** Both ways of copying a repetition. *)
Lemma repetition_ok data room b r p out : 0 <= b < p -> 0 < r <= 255 -> same_upto out data p -> zlen out = room -> p + r <= room -> p + r <= zlen data ->
  (forall j, 0 <= j < r -> data.[p + j] = data.[b + j]) ->
  exists out', (if p <=? b + r then loop repeat_body 257 (out, p, b, r) else memcpy_within out p b r) = Some out' /\ same_upto out' data (p + r) /\ zlen out' = room.
Proof.
  intros Hb Hr Hs Hz Hroom Hd Hc. destruct (Z.leb_spec p (b + r)).
  - destruct (repeat_ok data room b (Z.to_nat r) p out) as (t & out' & Hst & Hdone & Hs' & Hz'); rewrite ?Z2Nat.id by lia; [done..|]. rewrite Z2Nat.id in * by lia.
    exists out'. split; [|done]. by rewrite (loop_steps _ _ _ _ _ _ Hst Hdone) by lia.
  - unfold memcpy_within. rewrite (proj2 (Z.leb_le 0 b)), (proj2 (Z.leb_le _ _)) by lia. cbn [andb]. set (seg := take _ _).
    assert (Hseg : zlen seg = r) by (unfold seg; rewrite zlen_take; [done|]; rewrite zlen_drop; lia).
    destruct (write_ok data room seg p out) as (out' & Ho & Hs' & Hz'); [lia|done|done|lia| |rewrite Hseg in Hs'; by exists out'].
    intros j Hj. rewrite Hc by lia. unfold seg. rewrite arr_get_take, arr_get_drop by lia. symmetry. apply Hs. lia.
Qed.

(** The state of the decompressor in front of the tokens [l] of the data from [p] on. *)
Record expands (data input : list Z) (room p q : Z) (ps : list Z) (l : list (Z * Z)) (s : expanding) : Prop := {
  ex_out : same_upto (e_out s) data p /\ zlen (e_out s) = room;
  ex_pos : e_outpos s = p /\ e_pos s = q /\ e_positions s = ps /\ 0 <= p /\ 0 <= q;
  ex_input : forall i, 0 <= i < zlen (flatten l) -> input.[q + i] = (flatten l).[i]
}.

Lemma expand_step data input n room destlen p q ps v r p1 ps1 l s : n <= zlen data -> p1 <= destlen <= room -> p < destlen ->
  token data n p ps v r p1 ps1 -> expands data input room p q ps ((v, r) :: l) s ->
  exists s', decompress_body input destlen s = Some (Next s') /\ expands data input room p1 (q + 2) ps1 l s'.
Proof.
  intros Hn Hd Hp [Hv (Hr & -> & Hpn) Hst (b & Hb & Hbp & Hc)] [[Hs Hz] (Ep & Eq & Eps & Hp0 & Hq0) Hin]. unfold decompress_body. rewrite Ep, Eq, Eps, (proj2 (Z.ltb_lt _ _)) by lia.
  change (flatten ((v, r) :: l)) with (v :: r :: flatten l) in Hin. rewrite !zlen_cons in Hin. pose proof (zlen_nonneg (flatten l)).
  pose proof (Hin 0 ltac:(lia)) as H0. rewrite Z.add_0_r in H0. rewrite H0, arr_get_0, bind_Some.
  destruct (arr_set_range (e_out s) p v) as (o & Ho & _); [lia|]. rewrite Ho, bind_Some. destruct (same_extend _ _ _ _ _ Hp0 Hs Ho Hv) as [Hs1 Hz1].
  rewrite (Hin 1), arr_get_cons by lia. change ((r :: flatten l).[1 - 1]) with (Some r). rewrite bind_Some, Hb, bind_Some, Hst, bind_Some.
  assert (Hrest : forall i, 0 <= i < zlen (flatten l) -> input.[q + 2 + i] = (flatten l).[i]).
  { intros i Hi. replace (q + 2 + i) with (q + (i + 2)) by lia. rewrite Hin by lia. rewrite !arr_get_cons by lia. f_equal. lia. }
  unfold truth. destruct (Z.eqb_spec r 0) as [->|]; cbn [negb].
  - rewrite bind_Some. eexists. split; [done|]. split; cbn; [|split_and!; (done || lia)|done]. rewrite Z.add_0_r. split; [done|lia].
  - destruct (repetition_ok data room b r (p + 1) o) as (o' & Ho' & Hs' & Hz'); [lia|lia|done|lia..|done|].
    destruct (p + 1 <=? b + r); rewrite Ho', !bind_Some; (eexists; split; [done|]; split; cbn; [done|split_and!; (done || lia)|done]).
Qed.

Lemma expand_ok data input n room p ps l p2 ps2 : n <= zlen data -> tokens data n p ps l p2 ps2 -> p2 <= room -> forall q s, expands data input room p q ps l s ->
  exists t out, steps (decompress_body input p2) (length l) s = Some t /\ decompress_body input p2 t = Some (Done out) /\ same_upto out data p2 /\ zlen out = room.
Proof.
  intros Hn. induction 1 as [p ps|p ps v r p1 ps1 l p2 ps2 Ht Hts IH]; intros Hroom q s Hex.
  - exists s, (e_out s). split; [done|]. destruct Hex as [[Hs Hz] (Ep & _) _]. split; [|done]. unfold decompress_body. by rewrite (proj2 (Z.ltb_ge _ _)) by lia.
  - pose proof (tokens_mono _ _ _ _ _ _ _ Hts). pose proof (tok_range _ _ _ _ _ _ _ _ Ht).
    destruct (expand_step data input n room p2 p q ps v r p1 ps1 l s Hn ltac:(lia) ltac:(lia) Ht Hex) as (s' & Hb & Hex').
    destruct (IH Hroom _ _ Hex') as (t & out & Hst & Hrest). exists t, out. split; [|done]. cbn [length steps]. by rewrite Hb.
Qed.

(** With fewer than two bytes of room the test of [outpos] against the room minus two wraps around: the first round writes two bytes. *)
Lemma compress_overruns data out n dstlen : Forall (fun x => 0 <= x < 256) data -> 0 < n <= zlen data -> 0 <= dstlen < 2 -> zlen out = dstlen ->
  jffs2_rtime_compress data out n dstlen = None.
Proof.
  intros Hbytes Hn Hd Ho. unfold jffs2_rtime_compress. set (s0 := Build_compressing _ _ _ _).
  destruct (loop _ _ s0) as [r|] eqn:E; [exfalso|done]. refine (loop_partial _ (fun s => s = s0) (fun _ => False) _ _ _ _ eq_refl E).
  intros s ->. unfold compress_body. cbn [pos outpos positions cpage_out s0]. rewrite (proj2 (Z.ltb_lt 0 n)), (proj2 (Z.leb_le _ _)) by (unfold u32; zlia). cbn [andb].
  destruct (arr_get_is_Some data 0) as [v Hv]; [lia|]. rewrite Hv, bind_Some. destruct (out.[0 <- v]) as [o|] eqn:Eo; [|done]. rewrite bind_Some.
  destruct ((repeat 0 256).[v]) as [bp|]; [|done]. rewrite bind_Some. destruct ((repeat 0 256).[v <- _]) as [ps|]; [|done]. rewrite bind_Some. destruct (loop _ 257 _) as [[p r0]|]; [|done].
  rewrite bind_Some. apply arr_set_inv in Eo as [Hr ->]. destruct ((<[Z.to_nat 0 := v]> out).[0 + 1 <- r0]) as [o'|] eqn:Eo'; [|done]. apply arr_set_inv in Eo' as [Hr' _]. rewrite zlen_insert in Hr'. lia.
Qed.

(** ** The property *)



Example rtime_compresses : jffs2_rtime_compress [1; 2; 1; 2; 1; 2; 1; 2] (repeat 0 8) 8 8 = Some (0, [1; 0; 2; 6; 0; 0; 0; 0], 8, 4).
Proof. vm_compute. reflexivity. Qed.

(** The decompressor trusts its input: a repetition may go on behind the end of the page, and [srclen] is not looked at. *)
Example rtime_decompress_overruns : jffs2_rtime_decompress [7; 255] (repeat 0 16) 2 16 = None.
Proof. vm_compute. reflexivity. Qed.
