(* ===== verification/Rubin.v ===== *)
(** * JFFS2: the rubin compressors (fs/jffs2/compr_rubin.c)

    An arithmetic coder: the state of the coder is an interval [q, q + p) of a 16-bit register, every bit of the data
    picks one of its two parts, and the leading bits of the register are written out as soon as the interval agrees on them.
    The decompressor follows the same intervals and compares the register of the bits that it reads
    with the border of the parts.  The theorem is that what is compressed is decompressed to the same bytes. *)

From S2P Require Import Prelude.

(** ** Definitions *)

Definition RUBIN_REG_SIZE : Z := 16.
Definition UPPER_BIT_RUBIN : Z := Z.shiftl 1 (RUBIN_REG_SIZE - 1).
Definition LOWER_BITS_RUBIN : Z := Z.shiftl 1 (RUBIN_REG_SIZE - 1) - 1.
Definition BIT_DIVIDER_MIPS : Z := 1043.
Definition bits_mips : list Z := [277; 249; 290; 267; 229; 341; 212; 241].

(** [buf] is the memory that the pointer of the structure points to. *)
Record pushpull := { buf : list Z; buflen : Z; ofs : Z; reserve : Z }.
Record rubin_state := { rs_p : Z; rs_q : Z; rec_q : Z; bit_number : Z; pp : pushpull; bit_divider : Z; bits : list Z }.

Definition init_pushpull (b : list Z) (len o r : Z) : pushpull := {| buf := b; buflen := len; ofs := o; reserve := r |}.

(** The result is (return value, pp). *)
Definition pushbit (x : pushpull) (bit use_reserved : Z) : option (Z * pushpull) :=
  if u32 (buflen x - (if truth use_reserved then 0 else reserve x)) <=? ofs x then Some (- ENOSPC, x)
  else
    b ← (buf x).[Z.shiftr (ofs x) 3];
    let mask := Z.shiftl 1 (7 - Z.land (ofs x) 7) in
    b' ← (buf x).[Z.shiftr (ofs x) 3 <- u8 (if truth bit then Z.lor b mask else Z.land b (Z.lnot mask))];
    Some (0, {| buf := b'; buflen := buflen x; ofs := u32 (ofs x + 1); reserve := reserve x |}).

Definition pushedbits (x : pushpull) : Z := s32 (ofs x).

Definition pullbit (x : pushpull) : option (Z * pushpull) :=
  b ← (buf x).[Z.shiftr (ofs x) 3];
  Some (Z.land (Z.shiftr b (7 - Z.land (ofs x) 7)) 1, {| buf := buf x; buflen := buflen x; ofs := u32 (ofs x + 1); reserve := reserve x |}).

(** [for (c=0; c<8; c++) rs->bits[c] = bits[c];] *)
Definition copy_bits (l : list Z) : option (list Z) := mapM (fun c => l.[Z.of_nat c]) (seq 0 8).

Definition init_rubin (rs : rubin_state) (div : Z) (l : list Z) : option rubin_state :=
  b ← copy_bits l;
  Some {| rs_p := 2 * UPPER_BIT_RUBIN; rs_q := 0; rec_q := rec_q rs; bit_number := 0; pp := pp rs; bit_divider := div; bits := b |}.

(** The interval does not reach over the middle of the register: its upper bit is decided. *)
Definition decided (p q : Z) : bool := (UPPER_BIT_RUBIN <=? q) || (u32 (p + q) <=? UPPER_BIT_RUBIN).

(** The loop of encode(): the upper bit is written, and the register moves on. *)
Definition encode_body (rs : rubin_state) : option (step rubin_state (Z * rubin_state)) :=
  if decided (rs_p rs) (rs_q rs) then
    r ← pushbit (pp rs) (if truth (Z.land (rs_q rs) UPPER_BIT_RUBIN) then 1 else 0) 0;
    let '(ret, x) := r in
    if truth ret then
      Some (Done (ret, {| rs_p := rs_p rs; rs_q := rs_q rs; rec_q := rec_q rs; bit_number := bit_number rs + 1; pp := x;
                          bit_divider := bit_divider rs; bits := bits rs |}))
    else
      Some (Next {| rs_p := u32 (Z.shiftl (rs_p rs) 1); rs_q := u32 (Z.shiftl (Z.land (rs_q rs) LOWER_BITS_RUBIN) 1); rec_q := rec_q rs;
                    bit_number := bit_number rs + 1; pp := x; bit_divider := bit_divider rs; bits := bits rs |})
  else Some (Done (0, rs)).

(** The length [i0] of the part that stands for the symbol 0, as encode() and decode() both compute it; [p] is unsigned, so all
    but the first comparison is. *)
Definition first_part (A B p : Z) : Z :=
  let i0 := s32 (u32 (A * p) / u32 (A + B)) in
  let i0 := if i0 <=? 0 then 1 else i0 in
  if p <=? u32 i0 then s32 (p - 1) else i0.

Definition encode (rs : rubin_state) (A B symbol : Z) : option (Z * rubin_state) :=
  r ← loop encode_body 18 rs;
  let '(ret, rs) := r in
  if truth ret then Some (ret, rs)
  else if A + B =? 0 then None
  else
    let i0 := first_part A B (rs_p rs) in
    let i1 := s32 (rs_p rs - i0) in
    Some (0, {| rs_p := u32 (if symbol =? 0 then i0 else i1); rs_q := (if symbol =? 0 then rs_q rs else u32 (rs_q rs + i0)); rec_q := rec_q rs;
                bit_number := bit_number rs; pp := pp rs; bit_divider := bit_divider rs; bits := bits rs |}).

(** The return value of pushbit() is not looked at. *)
Definition end_body (st : Z * rubin_state) : option (step (Z * rubin_state) rubin_state) :=
  let '(i, rs) := st in
  if i <? RUBIN_REG_SIZE then
    r ← pushbit (pp rs) (if truth (Z.land UPPER_BIT_RUBIN (rs_q rs)) then 1 else 0) 1;
    Some (Next (i + 1, {| rs_p := rs_p rs; rs_q := u32 (Z.shiftl (Z.land (rs_q rs) LOWER_BITS_RUBIN) 1); rec_q := rec_q rs;
                          bit_number := bit_number rs; pp := r.2; bit_divider := bit_divider rs; bits := bits rs |}))
  else Some (Done rs).
Definition end_rubin (rs : rubin_state) : option rubin_state := loop end_body 17 (0, rs).

Definition init_decode_body (rs : rubin_state) : option (step rubin_state rubin_state) :=
  let next r x := {| rs_p := rs_p rs; rs_q := rs_q rs; rec_q := r; bit_number := bit_number rs + 1; pp := x;
                     bit_divider := bit_divider rs; bits := bits rs |} in
  if bit_number rs <? RUBIN_REG_SIZE then
    r ← pullbit (pp rs);
    Some (Next (next (u32 (rec_q rs * 2 + r.1)) r.2))
  else Some (Done (next (rec_q rs) (pp rs))).
Definition init_decode (rs : rubin_state) (div : Z) (l : list Z) : option rubin_state :=
  rs ← init_rubin rs div l;
  loop init_decode_body 17 {| rs_p := rs_p rs; rs_q := rs_q rs; rec_q := 0; bit_number := 0; pp := pp rs; bit_divider := bit_divider rs; bits := bits rs |}.

(** The first loop of __do_decode(), over (bits, p, q): how many bits are needed. *)
Definition count_bits_body (st : Z * Z * Z) : option (step (Z * Z * Z) (Z * Z * Z)) :=
  let '(n, p, q) := st in
  let q := u32 (Z.shiftl (Z.land q LOWER_BITS_RUBIN) 1) in
  let p := u32 (Z.shiftl p 1) in
  if decided p q then Some (Next (n + 1, p, q)) else Some (Done (n + 1, p, q)).

(** The second one, over (pp, rec_q, bits), reads them. *)
Definition get_bits_body (st : pushpull * Z * Z) : option (step (pushpull * Z * Z) (pushpull * Z)) :=
  let '(x, r, n) := st in
  c ← pullbit x;
  let r := u32 (u32 (Z.shiftl (Z.land r LOWER_BITS_RUBIN) 1) + c.1) in
  if truth (n - 1) then Some (Next (c.2, r, n - 1)) else Some (Done (c.2, r)).

Definition __do_decode (rs : rubin_state) (p q : Z) : option rubin_state :=
  r ← loop count_bits_body 18 (0, p, q);
  let '(n, p, q) := r in
  r ← loop get_bits_body 18 (pp rs, rec_q rs, n);
  let '(x, r) := r in
  Some {| rs_p := p; rs_q := q; rec_q := r; bit_number := bit_number rs + n; pp := x; bit_divider := bit_divider rs; bits := bits rs |}.

(** The result is (symbol, rs). *)
Definition decode (rs : rubin_state) (A B : Z) : option (Z * rubin_state) :=
  rs ← (if decided (rs_p rs) (rs_q rs) then __do_decode rs (rs_p rs) (rs_q rs) else Some rs);
  if A + B =? 0 then None
  else
    let i0 := first_part A B (rs_p rs) in
    let threshold := s32 (rs_q rs + i0) in
    let symbol := u32 threshold <=? rec_q rs in
    Some (b2z symbol, {| rs_p := u32 (if symbol then s32 (rs_p rs - i0) else i0); rs_q := (if symbol then u32 (rs_q rs + i0) else rs_q rs);
                         rec_q := rec_q rs; bit_number := bit_number rs; pp := pp rs; bit_divider := bit_divider rs; bits := bits rs |}).

(** [*rs = rs_copy]: the structure holds a pointer to the buffer, so what was written there stays. *)
Definition restore (rs_copy rs : rubin_state) : rubin_state :=
  {| rs_p := rs_p rs_copy; rs_q := rs_q rs_copy; rec_q := rec_q rs_copy; bit_number := bit_number rs_copy;
     pp := {| buf := buf (pp rs); buflen := buflen (pp rs_copy); ofs := ofs (pp rs_copy); reserve := reserve (pp rs_copy) |};
     bit_divider := bit_divider rs_copy; bits := bits rs_copy |}.

Definition out_byte_body (rs_copy : rubin_state) (st : Z * Z * rubin_state) : option (step (Z * Z * rubin_state) (Z * rubin_state)) :=
  let '(i, byte, rs) := st in
  if i <? 8 then
    b ← (bits rs).[i];
    r ← encode rs (bit_divider rs - b) b (Z.land byte 1);
    let '(ret, rs) := r in
    if truth ret then Some (Done (ret, restore rs_copy rs)) else Some (Next (i + 1, Z.shiftr byte 1, rs))
  else Some (Done (0, rs)).
Definition out_byte (rs : rubin_state) (byte : Z) : option (Z * rubin_state) := loop (out_byte_body rs) 9 (0, byte, rs).

Definition in_byte_body (st : Z * Z * rubin_state) : option (step (Z * Z * rubin_state) (Z * rubin_state)) :=
  let '(i, result, rs) := st in
  if i <? 8 then
    b ← (bits rs).[i];
    r ← decode rs (bit_divider rs - b) b;
    Some (Next (i + 1, Z.lor result (Z.shiftl r.1 i), r.2))
  else Some (Done (result, rs)).
Definition in_byte (rs : rubin_state) : option (Z * rubin_state) := loop in_byte_body 9 (0, 0, rs).

Definition compress_loop (data_in : list Z) (sourcelen : Z) (st : Z * rubin_state) : option (step (Z * rubin_state) (Z * rubin_state)) :=
  let '(pos, rs) := st in
  if u32 pos <? sourcelen then
    x ← data_in.[pos];
    r ← out_byte rs x;
    if truth r.1 then Some (Done (pos, r.2)) else Some (Next (pos + 1, r.2))
  else Some (Done (pos, rs)).

(** The state on the stack: the fields that are not set by the initialisations are not read. *)
Definition on_stack (x : pushpull) : rubin_state := {| rs_p := 0; rs_q := 0; rec_q := 0; bit_number := 0; pp := x; bit_divider := 0; bits := [] |}.

(** The result is (return value, cpage_out, sourcelen, dstlen). *)
Definition rubin_do_compress (div : Z) (l data_in cpage_out : list Z) (sourcelen dstlen : Z) : option (Z * list Z * Z * Z) :=
  rs ← init_rubin (on_stack (init_pushpull cpage_out (u32 (dstlen * 8)) 0 32)) div l;
  r ← loop (compress_loop data_in sourcelen) (sourcelen + 1) (0, rs);
  let '(pos, rs) := r in
  rs ← end_rubin rs;
  if pos <? 0 then Some (-1, buf (pp rs), sourcelen, dstlen)
  else
    let outpos := Z.quot (pushedbits (pp rs) + 7) 8 in
    if pos <=? outpos then Some (-1, buf (pp rs), sourcelen, dstlen) else Some (0, buf (pp rs), u32 pos, u32 outpos).

Definition histo_body (data_in : list Z) (n : Z) (st : Z * list Z) : option (step (Z * list Z) (list Z)) :=
  let '(i, histo) := st in
  if u32 i <? n then
    x ← data_in.[i];
    c ← histo.[x];
    histo ← histo.[x <- u8 (c + 1)];
    Some (Next (i + 1, histo))
  else Some (Done histo).

(** [if (i&(1<<k)) bits[k] += histo[i];] *)
Definition count_bit (i h k : Z) (l : list Z) : option (list Z) :=
  if truth (Z.land i (Z.shiftl 1 k)) then x ← l.[k]; l.[k <- s32 (x + h)] else Some l.
Fixpoint count_bits (i h : Z) (ks : list Z) (l : list Z) : option (list Z) :=
  match ks with [] => Some l | k :: ks' => l ← count_bit i h k l; count_bits i h ks' l end.
Definition count_histo_body (histo : list Z) (st : Z * list Z) : option (step (Z * list Z) (list Z)) :=
  let '(i, l) := st in
  if i <? 256 then
    h ← histo.[i];
    l ← count_bits i h [7; 6; 5; 4; 3; 2; 1; 0] l;
    Some (Next (i + 1, l))
  else Some (Done l).

(** Over (i, bits, cpage_out); the division is unsigned, and one by zero is a fault. *)
Definition scale_body (n : Z) (st : Z * list Z * list Z) : option (step (Z * list Z * list Z) (list Z * list Z)) :=
  let '(i, l, out) := st in
  if i <? 8 then
    if n =? 0 then None
    else
      x ← l.[i];
      let x := s32 (u32 (s32 (x * 256)) / n) in
      let x := if truth x then x else 1 in
      let x := if 255 <? x then 255 else x in
      l ← l.[i <- x];
      out ← out.[i <- u8 x];
      Some (Next (i + 1, l, out))
  else Some (Done (l, out)).

Definition jffs2_dynrubin_compress (data_in cpage_out : list Z) (sourcelen dstlen : Z) : option (Z * list Z * Z * Z) :=
  if dstlen <=? 12 then Some (-1, cpage_out, sourcelen, dstlen)
  else
    histo ← loop (histo_body data_in sourcelen) (sourcelen + 1) (0, repeat 0 256);
    l ← loop (count_histo_body histo) 257 (0, repeat 0 8);
    r ← loop (scale_body sourcelen) 9 (0, l, cpage_out);
    let '(l, out) := r in
    r ← rubin_do_compress 256 l data_in (drop 8 out) sourcelen (u32 (dstlen - 8));
    let '(ret, b, mysrclen, mydstlen) := r in
    let out := take 8 out ++ b in
    if truth ret then Some (ret, out, sourcelen, dstlen)
    else if mysrclen <=? u32 (mydstlen + 8) then Some (-1, out, sourcelen, dstlen)
    else Some (0, out, mysrclen, u32 (mydstlen + 8)).

Definition decompress_loop (destlen : Z) (st : Z * list Z * rubin_state) : option (step (Z * list Z * rubin_state) (list Z)) :=
  let '(outpos, page_out, rs) := st in
  if u32 outpos <? destlen then
    r ← in_byte rs;
    page_out ← page_out.[outpos <- u8 r.1];
    Some (Next (outpos + 1, page_out, r.2))
  else Some (Done page_out).

Definition rubin_do_decompress (div : Z) (l cdata_in page_out : list Z) (srclen destlen : Z) : option (list Z) :=
  rs ← init_decode (on_stack (init_pushpull cdata_in srclen 0 0)) div l;
  loop (decompress_loop destlen) (destlen + 1) (0, page_out, rs).

Definition jffs2_rubinmips_decompress (data_in cpage_out : list Z) (sourcelen dstlen : Z) : option (Z * list Z) :=
  out ← rubin_do_decompress BIT_DIVIDER_MIPS bits_mips data_in cpage_out sourcelen dstlen;
  Some (0, out).

(** [for (c=0; c<8; c++) bits[c] = data_in[c];] *)
Definition jffs2_dynrubin_decompress (data_in cpage_out : list Z) (sourcelen dstlen : Z) : option (Z * list Z) :=
  l ← copy_bits data_in;
  out ← rubin_do_decompress 256 l (drop 8 data_in) cpage_out (u32 (sourcelen - 8)) dstlen;
  Some (0, out).

(** ** Proofs: intervals *)

Definition wf_interval (p q : Z) : Prop := 1 <= p /\ 0 <= q /\ p + q <= 65536.

Lemma decided_spec p q : wf_interval p q -> decided p q = (32768 <=? q) || (p + q <=? 32768).
Proof. intros (Hp & Hq & Hpq). unfold decided. by rewrite u32_small by lia. Qed.

(** The register moves on by one bit. *)
Definition shift1 (q : Z) : Z := 2 * (q mod 32768).

Lemma shift1_u32 q : u32 (Z.shiftl (Z.land q LOWER_BITS_RUBIN) 1) = shift1 q.
Proof.
  unfold LOWER_BITS_RUBIN, RUBIN_REG_SIZE, shift1. rewrite Z.shiftl_mul_pow2 by lia. change (Z.shiftl 1 (16 - 1) - 1) with (2 ^ 15 - 1). rewrite land_ones_mod by lia.
  rewrite u32_small; [|change (2 ^ 15) with 32768]; zlia.
Qed.

Lemma upper_bit q : 0 <= q < 65536 -> truth (Z.land q UPPER_BIT_RUBIN) = (32768 <=? q).
Proof.
  intros Hq. change UPPER_BIT_RUBIN with (2 ^ 15). rewrite truth_testbit by lia. rewrite Z.testbit_odd, Z.shiftr_div_pow2 by lia. change (2 ^ 15) with 32768.
  destruct (Z.leb_spec 32768 q); [replace (q / 32768) with 1 by zlia|replace (q / 32768) with 0 by zlia]; done.
Qed.

Lemma double_u32 p : 0 <= p <= 65536 -> u32 (Z.shiftl p 1) = 2 * p.
Proof. intros. rewrite Z.shiftl_mul_pow2, u32_small; lia. Qed.

Lemma wf_shift p q : wf_interval p q -> decided p q = true -> wf_interval (2 * p) (shift1 q).
Proof. intros H. rewrite decided_spec by done. destruct H as (Hp & Hq & Hpq). unfold wf_interval, shift1. intros [Hd|Hd]%orb_prop; [apply Z.leb_le in Hd|apply Z.leb_le in Hd]; zlia. Qed.

(** The register is moved on by the bits [bs], the upper bits of all the intervals on the way. *)
Inductive shifts : Z -> Z -> list bool -> Z -> Z -> Prop :=
| shifts_nil p q : shifts p q [] p q
| shifts_cons p q bs p' q' : decided p q = true -> shifts (2 * p) (shift1 q) bs p' q' -> shifts p q ((32768 <=? q) :: bs) p' q'.

Lemma shifts_snoc p q bs p' q' : shifts p q bs p' q' -> decided p' q' = true -> shifts p q (bs ++ [32768 <=? q']) (2 * p') (shift1 q').
Proof. induction 1; intros; cbn [app]; repeat constructor; auto. Qed.

Lemma shifts_wf p q bs p' q' : shifts p q bs p' q' -> wf_interval p q -> wf_interval p' q'.
Proof. induction 1; eauto using wf_shift. Qed.

Lemma shifts_length p q bs p' q' : shifts p q bs p' q' -> wf_interval p q -> p' = 2 ^ zlen bs * p.
Proof.
  induction 1 as [|p q bs p' q' Hd _ IH]; intros Hw; [unfold zlen; cbn [length Z.of_nat]; lia|]. rewrite zlen_cons, Z.pow_add_r by (pose proof (zlen_nonneg bs); lia).
  rewrite IH by eauto using wf_shift. lia.
Qed.

Lemma shifts_short p q bs p' q' : shifts p q bs p' q' -> wf_interval p q -> zlen bs <= 16.
Proof.
  intros H Hw. pose proof (shifts_length _ _ _ _ _ H Hw) as E. pose proof (shifts_wf _ _ _ _ _ H Hw) as (Hp & Hq & Hpq). pose proof (zlen_nonneg bs).
  destruct Hw as (Hp0 & _). destruct (Z.le_gt_cases (zlen bs) 16) as [|Hgt]; [done|]. assert (2 ^ 17 <= 2 ^ zlen bs) by (apply Z.pow_le_mono_r; lia). nia.
Qed.

(** The two parts of an interval over the middle. *)
Definition part (A B p : Z) : Z := Z.min (Z.max 1 (A * p / (A + B))) (p - 1).

Lemma undecided p q : wf_interval p q -> decided p q = false -> 2 <= p /\ q < 32768 < p + q.
Proof. intros H. rewrite decided_spec by done. intros [?%Z.leb_gt ?%Z.leb_gt]%orb_false_iff. lia. Qed.

Lemma first_part_ok A B p : 0 <= A -> 0 <= B -> 0 < A + B < 65536 -> 2 <= p <= 65536 -> first_part A B p = part A B p /\ 1 <= part A B p < p.
Proof.
  intros HA HB HAB Hp. unfold first_part, part. assert (Hd : 0 <= A * p / (A + B) <= p) by (split; [apply Z.div_pos|apply Z.div_le_upper_bound]; nia).
  assert (E : s32 (u32 (A * p) / u32 (A + B)) = A * p / (A + B)) by (rewrite !u32_small by nia; apply s32_small; lia). rewrite E.
  split; [|lia]. set (d := A * p / (A + B)) in *. rewrite s32_small by lia. destruct (Z.leb_spec d 0); rewrite u32_small by lia; bcase; lia.
Qed.

Definition narrow_p (A B : Z) (s : bool) (p : Z) : Z := if s then p - part A B p else part A B p.
Definition narrow_q (A B : Z) (s : bool) (p q : Z) : Z := if s then q + part A B p else q.

Lemma narrow_wf A B s p q : 1 <= part A B p < p -> wf_interval p q -> wf_interval (narrow_p A B s p) (narrow_q A B s p q).
Proof. unfold wf_interval, narrow_p, narrow_q. destruct s; lia. Qed.

(** A symbol, with the weights of 0 and 1. *)
Definition weighted : Type := Z * Z * bool.
Definition wf_weight (w : weighted) : Prop := 0 <= w.1.1 /\ 0 <= w.1.2 /\ 0 < w.1.1 + w.1.2 < 65536.

(** From the interval [q, q + p) the symbols lead to the interval [q', q' + p'), with the bits [bs] written. *)
Inductive coded : Z -> Z -> list weighted -> list bool -> Z -> Z -> Prop :=
| coded_nil p q : coded p q [] [] p q
| coded_cons p q A B s l bs1 p1 q1 bs2 p2 q2 : shifts p q bs1 p1 q1 -> decided p1 q1 = false ->
    coded (narrow_p A B s p1) (narrow_q A B s p1 q1) l bs2 p2 q2 -> coded p q ((A, B, s) :: l) (bs1 ++ bs2) p2 q2.

Lemma coded_app p q l1 bs1 p1 q1 l2 bs2 p2 q2 : coded p q l1 bs1 p1 q1 -> coded p1 q1 l2 bs2 p2 q2 -> coded p q (l1 ++ l2) (bs1 ++ bs2) p2 q2.
Proof. induction 1; intros; cbn [app]; [done|]. rewrite <- (assoc_L app). econstructor; eauto. Qed.

Lemma coded_wf p q l bs p' q' : coded p q l bs p' q' -> Forall wf_weight l -> wf_interval p q -> wf_interval p' q'.
Proof.
  induction 1 as [|p q A B s l bs1 p1 q1 bs2 p2 q2 Hs Hd Hc IH]; intros Hl Hw; [done|]. inversion_clear Hl as [|? ? (HA & HB & HAB) Hl']. cbn in *.
  pose proof (shifts_wf _ _ _ _ _ Hs Hw) as Hw1. pose proof (undecided _ _ Hw1 Hd). apply IH; [done|]. apply narrow_wf; [|done].
  apply first_part_ok; try done. destruct Hw1. lia.
Qed.

(** ** Proofs: the register over a stream of bits *)

(** The number that the first [k] bits of the stream are. *)
Fixpoint value (k : nat) (l : list bool) : Z :=
  match k, l with S k', b :: l' => b2z b * 2 ^ Z.of_nat k' + value k' l' | _, _ => 0 end.

Lemma value_range k : forall l, 0 <= value k l < 2 ^ Z.of_nat k.
Proof.
  induction k as [|k IH]; intros [|b l]; cbn [value]; try lia. rewrite Nat2Z.inj_succ, Z.pow_succ_r by lia. specialize (IH l). unfold b2z. destruct b; lia.
Qed.

(** One bit more. *)
Lemma value_snoc k : forall l, value (S k) l = 2 * value k l + b2z (nth k l false).
Proof.
  induction k as [|k IH]; intros [|b l]; [cbn; lia..|done|]. cbn [nth]. specialize (IH l). change (value (S (S k)) (b :: l)) with (b2z b * 2 ^ Z.of_nat (S k) + value (S k) l).
  change (value (S k) (b :: l)) with (b2z b * 2 ^ Z.of_nat k + value k l). rewrite IH, Nat2Z.inj_succ, Z.pow_succ_r by lia. lia.
Qed.

(** The register is the next 16 bits of the stream. *)
Definition reg (l : list bool) : Z := value 16 l.

Lemma reg_range l : 0 <= reg l < 65536.
Proof. apply (value_range 16). Qed.

(** A new bit behind the register: [b] is its upper bit, and the 16th bit after it comes in. *)
Lemma reg_cons b l : exists m, 0 <= m < 32768 /\ reg (b :: l) = b2z b * 32768 + m /\ reg l = 2 * m + b2z (nth 15 l false).
Proof. exists (value 15 l). split; [apply (value_range 15)|]. split; [done|]. apply value_snoc. Qed.

Definition within (p q r : Z) : Prop := q <= r < q + p.

Lemma shift_back p q l : wf_interval p q -> decided p q = true -> within (2 * p) (shift1 q) (reg l) -> within p q (reg ((32768 <=? q) :: l)).
Proof.
  intros Hw Hd. rewrite decided_spec in Hd by done. destruct Hw as (Hp & Hq & Hpq). unfold within, shift1.
  destruct (reg_cons (32768 <=? q) l) as (m & Hm & -> & ->). unfold b2z. destruct (Z.leb_spec 32768 q), (nth 15 l false); cbn [orb] in Hd; try apply Z.leb_le in Hd; zlia.
Qed.

Lemma shifts_back p q bs p' q' l : shifts p q bs p' q' -> wf_interval p q -> within p' q' (reg l) -> within p q (reg (bs ++ l)).
Proof. induction 1; intros; cbn [app]; [done|]. eauto using shift_back, wf_shift. Qed.

Lemma narrow_back A B s p q r : 1 <= part A B p < p -> within (narrow_p A B s p) (narrow_q A B s p q) r -> within p q r /\ s = (q + part A B p <=? r).
Proof. unfold within, narrow_p, narrow_q. intros. destruct s; (split; [lia|]); symmetry; [apply Z.leb_le|apply Z.leb_gt]; lia. Qed.

(** Every interval on the way contains the register over the bits that are written from there on. *)
Lemma coded_back p q l bs p' q' rest : coded p q l bs p' q' -> Forall wf_weight l -> wf_interval p q -> within p' q' (reg rest) -> within p q (reg (bs ++ rest)).
Proof.
  induction 1 as [|p q A B s l bs1 p1 q1 bs2 p2 q2 Hs Hd Hc IH]; intros Hl Hw Hin; [done|]. inversion_clear Hl as [|? ? (HA & HB & HAB) Hl']. cbn in HA, HB, HAB.
  pose proof (shifts_wf _ _ _ _ _ Hs Hw) as Hw1. pose proof (undecided _ _ Hw1 Hd). destruct (first_part_ok A B p1) as [_ Hpart]; [done..|destruct Hw1; lia|].
  rewrite <- (assoc_L app). eapply shifts_back; [done..|]. eapply narrow_back; [done|]. apply IH; [done| |done]. by apply narrow_wf.
Qed.

(** The [n] upper bits of the register. *)
Fixpoint upper_bits (n : nat) (q : Z) : list bool := match n with O => [] | S n' => (32768 <=? q) :: upper_bits n' (shift1 q) end.

Lemma value_upper_bits n : forall q rest, (n <= 16)%nat -> 0 <= q < 65536 -> value n (upper_bits n q ++ rest) = q / 2 ^ (16 - Z.of_nat n).
Proof.
  induction n as [|n IH]; intros q rest Hn Hq; cbn [upper_bits app value].
  - change (2 ^ (16 - Z.of_nat 0)) with 65536. zlia.
  - rewrite IH by (lia || (unfold shift1; zlia)). unfold shift1. set (k := 16 - Z.of_nat (S n)). replace (16 - Z.of_nat n) with (k + 1) by lia.
    assert (E : 2 ^ Z.of_nat n * 2 ^ k = 32768) by (rewrite <- Z.pow_add_r by lia; replace (Z.of_nat n + k) with 15 by lia; done).
    rewrite Z.pow_add_r, Z.pow_1_r, (Z.mul_comm (2 ^ k)), Z.div_mul_cancel_l by lia.
    replace (q / 2 ^ k) with (q mod 32768 / 2 ^ k + 2 ^ Z.of_nat n * (q / 32768)) by (rewrite <- Z.div_add by lia; f_equal; transitivity (q mod 32768 + 32768 * (q / 32768)); [rewrite <- E at 4; ring|zlia]).
    unfold b2z. destruct (Z.leb_spec 32768 q); [replace (q / 32768) with 1 by zlia|replace (q / 32768) with 0 by zlia]; lia.
Qed.

Lemma reg_upper_bits q rest : 0 <= q < 65536 -> reg (upper_bits 16 q ++ rest) = q.
Proof. intros. unfold reg. rewrite value_upper_bits by lia. apply Z.div_1_r. Qed.

Lemma zlen_upper_bits n : forall q, zlen (upper_bits n q) = Z.of_nat n.
Proof. induction n; intros; cbn [upper_bits]; [done|]. rewrite zlen_cons, IHn. lia. Qed.

(** ** Proofs: bits in the buffer *)

(** The buffer starts with the bits [l], the upper ones of a byte first. *)
Definition written (b : list Z) (l : list bool) : Prop := forall i v, l.[i] = Some v -> exists x, b.[i / 8] = Some x /\ Z.testbit x (7 - i mod 8) = v.

Lemma written_app b l k : written b (l ++ k) -> written b l.
Proof. intros H i v Hi. apply H. pose proof (arr_get_range _ _ _ Hi). by rewrite arr_get_app_l by lia. Qed.

Lemma written_same b c l n : written b l -> zlen l <= 8 * n -> same_upto c b n -> written c l.
Proof. intros H Hn Hs i v Hi. pose proof (arr_get_range _ _ _ Hi). rewrite Hs by zlia. by apply H. Qed.

Lemma ofs_index o : Z.shiftr o 3 = o / 8 /\ Z.land o 7 = o mod 8.
Proof. split; [by rewrite Z.shiftr_div_pow2|]. change 7 with (2 ^ 3 - 1). by rewrite land_ones_mod. Qed.

Lemma pushbit_ok x bit reserved l : written (buf x) l -> ofs x = zlen l -> zlen l < u32 (buflen x - (if truth reserved then 0 else reserve x)) ->
  zlen l < 8 * zlen (buf x) ->
  exists b, pushbit x bit reserved = Some (0, {| buf := b; buflen := buflen x; ofs := zlen l + 1; reserve := reserve x |}) /\
    written b (l ++ [truth bit]) /\ zlen b = zlen (buf x).
Proof.
  intros Hw Ho Hlim Hbuf. pose proof (zlen_nonneg l). unfold pushbit. rewrite Ho, (proj2 (Z.leb_gt _ _)) by done. destruct (ofs_index (zlen l)) as [-> ->].
  destruct (arr_get_is_Some (buf x) (zlen l / 8)) as [y Hy]; [zlia|]. rewrite Hy, bind_Some. set (k := 7 - zlen l mod 8). assert (Hk : 0 <= k < 8) by (unfold k; zlia).
  set (y' := u8 _). destruct (arr_set_range (buf x) (zlen l / 8) y') as (b & -> & Hz & Hnew & Hold); [zlia|]. rewrite bind_Some.
  pose proof (u32_range (buflen x - (if truth reserved then 0 else reserve x))). exists b. rewrite u32_small by lia. split; [done|]. split; [|done].
  assert (Hbits : forall j, 0 <= j < 8 -> Z.testbit y' j = if decide (j = k) then truth bit else Z.testbit y j).
  { intros j Hj. unfold y'. rewrite testbit_u8, (proj2 (Z.ltb_lt j 8)) by lia. rewrite Z.shiftl_1_l.
    destruct (decide (j = k)) as [->|Hne], (truth bit); testbits; rewrite ?Z.pow2_bits_true, ?Z.pow2_bits_false by lia; rewrite ?orb_true_r, ?orb_false_r, ?andb_false_r, ?andb_true_r; done. }
  intros i v Hi. pose proof (arr_get_range _ _ _ Hi) as Hr. rewrite zlen_app in Hr. change (zlen [truth bit]) with 1 in Hr. destruct (decide (i = zlen l)) as [->|Hne].
  - rewrite arr_get_app_r, Z.sub_diag in Hi by lia. injection Hi as <-. exists y'. split; [done|]. rewrite Hbits by (fold k; lia). by rewrite decide_True.
  - rewrite arr_get_app_l in Hi by lia. destruct (Hw i v Hi) as (z & Hz' & Hv). destruct (decide (i / 8 = zlen l / 8)) as [E|E].
    + exists y'. rewrite E. split; [done|]. rewrite Hbits by zlia. rewrite decide_False by (unfold k; zlia). congruence.
    + exists z. by rewrite Hold.
Qed.

Lemma pullbit_ok x l v : written (buf x) l -> l.[ofs x] = Some v -> zlen l < 2 ^ 32 ->
  pullbit x = Some (b2z v, {| buf := buf x; buflen := buflen x; ofs := ofs x + 1; reserve := reserve x |}).
Proof.
  intros Hw Hv Hl. pose proof (arr_get_range _ _ _ Hv). destruct (Hw _ _ Hv) as (y & Hy & Hb). unfold pullbit. destruct (ofs_index (ofs x)) as [-> ->].
  rewrite Hy, bind_Some. rewrite u32_small by lia. do 2 f_equal. change 1 with (Z.ones 1). rewrite Z.land_ones by lia. rewrite <- Z.bit0_mod, Z.shiftr_spec by lia. rewrite Z.add_0_l, Hb. by destruct v.
Qed.

(** ** Proofs: compressing *)

Section Compress.
Context (cap room div : Z) (w : list Z).
Hypothesis Hcap : 4 <= cap <= room.
Hypothesis Hcap28 : cap < 2 ^ 28.
Hypothesis Hw8 : zlen w = 8.
Hypothesis Hdiv : 0 < div < 65536.
Hypothesis Hweights : Forall (fun b => 0 <= b <= div) w.

(** The coder has written the bits [l]; [lim] bits of the buffer may be written. *)
Record writes (lim : Z) (rs : rubin_state) (l : list bool) : Prop := {
  writes_bits : written (buf (pp rs)) l /\ ofs (pp rs) = zlen l /\ zlen (buf (pp rs)) = room;
  writes_limit : buflen (pp rs) = 8 * cap /\ reserve (pp rs) = 32 /\ zlen l <= lim;
  writes_model : bit_divider rs = div /\ bits rs = w
}.
Definition writing rs l : Prop := wf_interval (rs_p rs) (rs_q rs) /\ writes (8 * cap - 32) rs l.

(** A failure leaves what was written before. *)
Definition gave_up (rs : rubin_state) (l : list bool) : Prop := exists bs, written (buf (pp rs)) (l ++ bs) /\ zlen (buf (pp rs)) = room.

Lemma encode_loop_ok rs l : writing rs l ->
  exists ret rs', loop encode_body 18 rs = Some (ret, rs') /\
    (ret = 0 /\ (exists bs, shifts (rs_p rs) (rs_q rs) bs (rs_p rs') (rs_q rs') /\ writing rs' (l ++ bs)) /\ decided (rs_p rs') (rs_q rs') = false \/
     ret <> 0 /\ gave_up rs' l).
Proof.
  intros Hwr. destruct (loop_total encode_body
    (fun s => exists bs, shifts (rs_p rs) (rs_q rs) bs (rs_p s) (rs_q s) /\ writing s (l ++ bs))
    (fun s => 16 - (ofs (pp s) - zlen l))
    (fun r => r.1 = 0 /\ (exists bs, shifts (rs_p rs) (rs_q rs) bs (rs_p r.2) (rs_q r.2) /\ writing r.2 (l ++ bs)) /\ decided (rs_p r.2) (rs_q r.2) = false \/
       r.1 <> 0 /\ gave_up r.2 l))
    with (bound := 18) (s := rs) as ([ret rs'] & Hl & H).
  - intros s (bs & Hs & Hi & [(Hb & Ho & Hz) (Hlen & Hres & Hlim) Hm]). pose proof (shifts_short _ _ _ _ _ Hs ltac:(apply Hwr)). unfold body_ok. split; [rewrite Ho, zlen_app; lia|].
    unfold encode_body. destruct (decided (rs_p s) (rs_q s)) eqn:Hd; [|left; split; [done|]; split; [exists bs; split; [done|split; [done|by split]]|done]].
    rewrite upper_bit by (destruct Hi; lia). destruct (decide (zlen (l ++ bs) < 8 * cap - 32)) as [Hlt|Hge].
    + destruct (pushbit_ok (pp s) (if 32768 <=? rs_q s then 1 else 0) 0 (l ++ bs) Hb Ho) as (b & -> & Hb' & Hz'); [rewrite Hlen, Hres; change (if truth 0 then 0 else 32) with 32; rewrite u32_small by lia; lia|lia|].
      rewrite bind_Some. rewrite truth_0, shift1_u32, double_u32 by (destruct Hi; lia). cbn [pp ofs rs_p rs_q]. rewrite Ho. split; [|lia]. exists (bs ++ [32768 <=? rs_q s]).
      split; [by apply shifts_snoc|]. split; [by apply wf_shift|]. rewrite (assoc_L app). rewrite zlen_app in Hlt.
      replace (truth (if 32768 <=? rs_q s then 1 else 0)) with (32768 <=? rs_q s) in Hb' by (by destruct (32768 <=? rs_q s)).
      split; cbn; [|rewrite !zlen_app in *; change (zlen [32768 <=? rs_q s]) with 1; lia|done]. rewrite !zlen_app in *. change (zlen [32768 <=? rs_q s]) with 1. split_and!; [done|lia..].
    + unfold pushbit. rewrite Hlen, Hres, Ho, (proj2 (Z.leb_le _ _)) by (change (if truth 0 then 0 else 32) with 32; rewrite u32_small; lia). rewrite bind_Some. right. split; [done|]. by exists bs.
  - exists []. split; [constructor|]. by rewrite app_nil_r.
  - destruct Hwr as [_ [(_ & -> & _) _ _]]. lia.
  - eauto.
Qed.

Lemma encode_ok rs l A B symbol : writing rs l -> wf_weight (A, B, truth symbol) ->
  exists ret rs', encode rs A B symbol = Some (ret, rs') /\
    (ret = 0 /\ (exists bs, coded (rs_p rs) (rs_q rs) [(A, B, truth symbol)] bs (rs_p rs') (rs_q rs') /\ writing rs' (l ++ bs)) \/ ret <> 0 /\ gave_up rs' l).
Proof.
  intros Hwr (HA & HB & HAB). cbn in HA, HB, HAB. unfold encode. destruct (encode_loop_ok rs l Hwr) as (ret & s & -> & [(-> & (bs & Hs & Hws) & Hd)|[Hret Hg]]); rewrite bind_Some.
  - rewrite truth_0, (proj2 (Z.eqb_neq (A + B) 0)) by lia. eexists 0, _. split; [done|]. left. split; [done|]. exists bs. cbn [rs_p rs_q].
    destruct Hws as [Hi [Hb Hl Hm]]. pose proof (undecided _ _ Hi Hd). destruct (first_part_ok A B (rs_p s)) as [-> Hpart]; [done..|destruct Hi; lia|].
    assert (E : u32 (if symbol =? 0 then part A B (rs_p s) else s32 (rs_p s - part A B (rs_p s))) = narrow_p A B (truth symbol) (rs_p s) /\
                (if symbol =? 0 then rs_q s else u32 (rs_q s + part A B (rs_p s))) = narrow_q A B (truth symbol) (rs_p s) (rs_q s)).
    { unfold narrow_p, narrow_q, truth. destruct Hi. destruct (symbol =? 0); cbn [negb]; rewrite ?s32_small, ?u32_small by lia; done. }
    destruct E as [-> ->]. split; [|split; [by apply narrow_wf|by split]]. rewrite <- (app_nil_r bs). econstructor; [done..|constructor].
  - rewrite truth_nz by done. eexists _, _. split; [done|]. by right.
Qed.

(** The symbols of a byte, the lowest bit first, and of the data. *)
Definition bit_symbol (x : Z) (j : nat) : weighted := (div - nth j w 0, nth j w 0, Z.testbit x (Z.of_nat j)).
Definition byte_symbols (x : Z) : list weighted := bit_symbol x <$> seq 0 8.
Definition symbols (data : list Z) : list weighted := data ≫= byte_symbols.

Lemma weights_nth j : 0 <= j < 8 -> w.[j] = Some (nth (Z.to_nat j) w 0) /\ 0 <= nth (Z.to_nat j) w 0 <= div.
Proof.
  intros Hj. destruct (arr_get_is_Some w j) as [b Hb]; [lia|]. apply arr_get_Some in Hb as [_ Hb]. rewrite (nth_lookup_Some _ _ _ _ Hb), arr_get_nat by lia. split; [done|].
  by apply (Forall_lookup_1 _ _ _ _ Hweights Hb).
Qed.

Lemma bit_symbol_wf x j : (j < 8)%nat -> wf_weight (bit_symbol x j).
Proof. intros Hj. destruct (weights_nth (Z.of_nat j)) as [_ H]; [lia|]. rewrite Nat2Z.id in H. unfold wf_weight, bit_symbol. cbn [fst snd]. lia. Qed.

Lemma symbols_wf data : Forall wf_weight (symbols data).
Proof.
  apply list.Forall_forall. intros s (x & Hs & _)%list_elem_of_bind. apply list_elem_of_fmap in Hs as (j & -> & Hj). apply elem_of_seq in Hj. apply bit_symbol_wf. lia.
Qed.

Lemma out_byte_ok rs l x : writing rs l ->
  exists ret rs', out_byte rs x = Some (ret, rs') /\
    (ret = 0 /\ (exists bs, coded (rs_p rs) (rs_q rs) (byte_symbols x) bs (rs_p rs') (rs_q rs') /\ writing rs' (l ++ bs)) \/
     ret <> 0 /\ writing rs' l /\ rs_p rs' = rs_p rs /\ rs_q rs' = rs_q rs).
Proof.
  intros Hwr. destruct (loop_total (out_byte_body rs)
    (fun '(i, byte, s) => 0 <= i <= 8 /\ byte = Z.shiftr x i /\
       exists bs, coded (rs_p rs) (rs_q rs) (bit_symbol x <$> seq 0 (Z.to_nat i)) bs (rs_p s) (rs_q s) /\ writing s (l ++ bs))
    (fun '(i, _, _) => 8 - i)
    (fun r => r.1 = 0 /\ (exists bs, coded (rs_p rs) (rs_q rs) (byte_symbols x) bs (rs_p r.2) (rs_q r.2) /\ writing r.2 (l ++ bs)) \/
       r.1 <> 0 /\ writing r.2 l /\ rs_p r.2 = rs_p rs /\ rs_q r.2 = rs_q rs))
    with (bound := 9) (s := (0, x, rs)) as ([ret rs'] & Hl & H).
  - intros [[i byte] s] (Hi & -> & bs & Hc & Hs). unfold body_ok. split; [lia|]. unfold out_byte_body. destruct (Z.ltb_spec i 8) as [Hlt|].
    2: { replace i with 8 in Hc by lia. left. eauto. }
    pose proof Hs as [_ [_ _ [-> ->]]]. destruct (weights_nth i) as [-> Hnth]; [lia|]. rewrite bind_Some.
    assert (Et : truth (Z.land (Z.shiftr x i) 1) = Z.testbit x i) by (change 1 with (2 ^ 0); rewrite truth_testbit, Z.shiftr_spec by lia; f_equal; lia).
    destruct (encode_ok s (l ++ bs) (div - nth (Z.to_nat i) w 0) (nth (Z.to_nat i) w 0) (Z.land (Z.shiftr x i) 1) Hs) as (ret & s' & -> & [(-> & bs' & Hc' & Hs')|[Hret (bs' & Hb & Hz)]]);
      [unfold wf_weight; cbn [fst snd]; lia|rewrite bind_Some..].
    + rewrite truth_0. split; [|lia]. split; [lia|]. split; [by rewrite Z.shiftr_shiftr by lia|]. exists (bs ++ bs'). rewrite (assoc_L app). split; [|done].
      replace (Z.to_nat (i + 1)) with (S (Z.to_nat i)) by lia. rewrite seq_S, fmap_app. eapply coded_app; [done|]. cbn. unfold bit_symbol. rewrite Z2Nat.id, <- Et by lia. done.
    + rewrite truth_nz by done. right. destruct Hwr as [Hint [(Hb0 & Ho & Hz0) Hl Hm]]. split; [done|]. split; [|done]. split; [done|]. split; cbn; [|done..]. split_and!; [|done..].
      rewrite <- (assoc_L app) in Hb. by apply written_app in Hb.
  - split; [lia|]. split; [by rewrite Z.shiftr_0_r|]. exists []. rewrite app_nil_r. split; [constructor|done].
  - lia.
  - eauto.
Qed.

Lemma compress_loop_ok rs data n : 0 <= n <= zlen data -> n < 2 ^ 31 -> writing rs [] -> 
  exists pos rs' l, loop (compress_loop data n) (n + 1) (0, rs) = Some (pos, rs') /\ 0 <= pos <= n /\
    coded (rs_p rs) (rs_q rs) (symbols (take (Z.to_nat pos) data)) l (rs_p rs') (rs_q rs') /\ writing rs' l.
Proof.
  intros Hn Hn31 Hwr. destruct (loop_total (compress_loop data n)
    (fun '(pos, s) => 0 <= pos <= n /\ exists l, coded (rs_p rs) (rs_q rs) (symbols (take (Z.to_nat pos) data)) l (rs_p s) (rs_q s) /\ writing s l)
    (fun '(pos, _) => n - pos)
    (fun '(pos, s) => 0 <= pos <= n /\ exists l, coded (rs_p rs) (rs_q rs) (symbols (take (Z.to_nat pos) data)) l (rs_p s) (rs_q s) /\ writing s l))
    with (bound := n + 1) (s := (0, rs)) as ([pos rs'] & Hl & Hpos & l & H).
  - intros [pos s] (Hpos & l & Hc & Hs). unfold body_ok. split; [lia|]. unfold compress_loop. rewrite u32_small by lia. destruct (Z.ltb_spec pos n); [|eauto].
    destruct (arr_get_is_Some data pos) as [x Hx]; [lia|]. rewrite Hx, bind_Some. destruct (out_byte_ok s l x Hs) as (ret & s' & -> & [(-> & bs & Hc' & Hs')|(Hret & Hs' & Ep & Eq)]); rewrite bind_Some; cbn [fst snd].
    + rewrite truth_0. split; [|lia]. split; [lia|]. exists (l ++ bs). split; [|done]. apply arr_get_Some in Hx as [_ Hx]. replace (Z.to_nat (pos + 1)) with (S (Z.to_nat pos)) by lia.
      rewrite (take_S_r _ _ _ Hx). unfold symbols. rewrite bind_app. eapply coded_app; [done|]. cbn [mbind list_bind]. by rewrite app_nil_r.
    + rewrite truth_nz by done. split; [done|]. exists l. by rewrite Ep, Eq.
  - split; [lia|]. exists []. split; [constructor|done].
  - lia.
  - eauto 10.
Qed.

Lemma end_rubin_ok rs l : writing rs l -> exists rs', end_rubin rs = Some rs' /\ writes (8 * cap - 16) rs' (l ++ upper_bits 16 (rs_q rs)).
Proof.
  intros [Hi Hwr]. destruct (loop_total end_body
    (fun '(i, s) => 0 <= i <= 16 /\ 0 <= rs_q s < 65536 /\
       exists bs, upper_bits 16 (rs_q rs) = bs ++ upper_bits (Z.to_nat (16 - i)) (rs_q s) /\ zlen bs = i /\ writes (8 * cap - 32 + i) s (l ++ bs))
    (fun '(i, _) => 16 - i)
    (fun s => writes (8 * cap - 16) s (l ++ upper_bits 16 (rs_q rs))))
    with (bound := 17) (s := (0, rs)) as (rs' & Hl & H).
  - intros [i s] (Hi' & Hq & bs & E & Hbs & Hs). unfold body_ok. split; [lia|]. unfold end_body, RUBIN_REG_SIZE. destruct (Z.ltb_spec i 16).
    2: { replace (Z.to_nat (16 - i)) with 0%nat in E by lia. rewrite E. cbn [upper_bits]. rewrite app_nil_r. by replace (8 * cap - 16) with (8 * cap - 32 + i) by lia. }
    rewrite (Z.land_comm UPPER_BIT_RUBIN), upper_bit by lia. destruct Hs as [(Hb & Ho & Hz) (Hlen & Hres & Hlim) Hm].
    destruct (pushbit_ok (pp s) (if 32768 <=? rs_q s then 1 else 0) 1 (l ++ bs) Hb Ho) as (b & -> & Hb' & Hz');
      [rewrite Hlen; change (if truth 1 then 0 else reserve (pp s)) with 0; rewrite u32_small; lia|lia|].
    rewrite bind_Some, shift1_u32. cbn [rs_q pp snd]. split; [|lia]. split; [lia|]. split; [unfold shift1; zlia|]. exists (bs ++ [32768 <=? rs_q s]).
    replace (truth (if 32768 <=? rs_q s then 1 else 0)) with (32768 <=? rs_q s) in Hb' by (by destruct (32768 <=? rs_q s)).
    rewrite (assoc_L app), zlen_app. change (zlen [32768 <=? rs_q s]) with 1. split; [|split; [lia|]].
    + rewrite E. replace (Z.to_nat (16 - i)) with (S (Z.to_nat (16 - (i + 1)))) by lia. cbn [upper_bits]. by rewrite <- (assoc_L app).
    + split; cbn; rewrite ?(zlen_app (l ++ bs)); change (zlen [32768 <=? rs_q s]) with 1; [split_and!; [done|lia..]|lia|done].
  - split; [lia|]. split; [destruct Hi; lia|]. exists []. split; [done|]. split; [done|]. by rewrite app_nil_r, Z.add_0_r.
  - lia.
  - eauto.
Qed.

(** The bits that stand for the first [pos] bytes of the data. *)
Definition stream_of (data : list Z) (pos : Z) (L : list bool) : Prop :=
  exists l p q, coded 65536 0 (symbols (take (Z.to_nat pos) data)) l p q /\ wf_interval p q /\ L = l ++ upper_bits 16 q.

Lemma copy_weights_ok l : 8 <= zlen l -> copy_bits l = Some (take 8 l).
Proof. intros H. do 8 (destruct l as [|? l]; [unfold zlen in H; cbn [length] in H; lia|]). reflexivity. Qed.

Lemma rubin_do_compress_ok data out n : zlen out = room -> 0 <= n <= zlen data -> n < 2 ^ 31 ->
  exists e out' n' m, rubin_do_compress div w data out n cap = Some (e, out', n', m) /\ zlen out' = room /\
    (e = -1 \/ e = 0 /\ m < n' <= n /\ 0 <= m <= cap /\ exists L, written out' L /\ stream_of data n' L /\ zlen L <= 8 * m).
Proof.
  intros Hout Hn Hn31. unfold rubin_do_compress, init_rubin. rewrite copy_weights_ok, bind_Some by lia. rewrite take_ge by (unfold zlen in Hw8; lia). rewrite bind_Some.
  set (rs0 := Build_rubin_state _ _ _ _ _ _ _). assert (H0 : writing rs0 []).
  { split; [done|]. split; cbn; [|rewrite u32_small by lia; change (zlen (@nil bool)) with 0; lia|done]. split_and!; [|done..]. intros i v Hi. apply arr_get_range in Hi. change (zlen (@nil bool)) with 0 in Hi. lia. }
  destruct (compress_loop_ok rs0 data n Hn Hn31 H0) as (pos & rs1 & l & -> & Hpos & Hc & H1). rewrite bind_Some. destruct (end_rubin_ok rs1 l H1) as (rs2 & -> & [(Hb & Ho & Hz) (_ & _ & Hlim) _]).
  rewrite bind_Some, (proj2 (Z.ltb_ge pos 0)) by lia. unfold pushedbits. set (L := l ++ upper_bits 16 (rs_q rs1)) in *. pose proof (zlen_nonneg L). rewrite Ho, s32_small, Z.quot_div_nonneg by lia.
  destruct (Z.leb_spec pos ((zlen L + 7) / 8)); eexists _, _, _, _; (split; [done|]; split; [done|]); [by left|right]. rewrite !u32_small by zlia.
  split; [done|]. split; [lia|]. split; [zlia|]. exists L. split; [done|]. split; [|zlia]. exists l, (rs_p rs1), (rs_q rs1). split; [done|]. split; [apply H1|done].
Qed.
End Compress.

(** ** Proofs: decompressing *)

Section Decompress.
Context (div : Z) (w b : list Z) (L : list bool).
Hypothesis Hw8 : zlen w = 8.
Hypothesis Hdiv : 0 < div < 65536.
Hypothesis Hweights : Forall (fun b => 0 <= b <= div) w.
Hypothesis Hwritten : written b L.
Hypothesis HL : zlen L < 2 ^ 32.

(** The next bit is the 16th of those behind the register. *)
Lemma pull_next pre v rest x : L = pre ++ v :: rest -> 16 <= zlen rest -> buf x = b -> ofs x = zlen pre + 16 ->
  exists c, pullbit x = Some (c, {| buf := b; buflen := buflen x; ofs := zlen (pre ++ [v]) + 16; reserve := reserve x |}) /\
    u32 (u32 (Z.shiftl (Z.land (reg (v :: rest)) LOWER_BITS_RUBIN) 1) + c) = reg rest.
Proof.
  intros E Hr Hb Ho. exists (b2z (nth 15 rest false)). split.
  - destruct (arr_get_is_Some rest 15) as [u Hu]; [lia|]. rewrite (pullbit_ok x L u), Hb; [|by rewrite Hb| |done].
    + apply arr_get_Some in Hu as [_ Hu]. rewrite (nth_lookup_Some rest 15 false u Hu). rewrite Ho, zlen_app. change (zlen [v]) with 1. by replace (zlen pre + 16 + 1) with (zlen pre + 1 + 16) by lia.
    + pose proof (zlen_nonneg pre). rewrite E, arr_get_app_r, arr_get_cons, <- Hu by lia. f_equal. lia.
  - rewrite shift1_u32. pose proof (reg_range rest). destruct (reg_cons v rest) as (m & Hm & -> & Er). rewrite Er in *. rewrite u32_small; unfold shift1, b2z in *; destruct v, (nth 15 rest false); zlia.
Qed.

Lemma get_bits_steps rest bs : 16 <= zlen rest -> forall pre v x, L = pre ++ v :: bs ++ rest -> buf x = b -> ofs x = zlen pre + 16 ->
  exists t, steps get_bits_body (length bs) (x, reg (v :: bs ++ rest), zlen bs + 1) = Some t /\
    get_bits_body t = Some (Done ({| buf := b; buflen := buflen x; ofs := zlen (pre ++ v :: bs) + 16; reserve := reserve x |}, reg rest)).
Proof.
  intros Hr. induction bs as [|u bs IH]; intros pre v x E Hb Ho.
  - eexists. split; [done|]. unfold get_bits_body. destruct (pull_next pre v rest x E Hr Hb Ho) as (c & -> & Ec). rewrite bind_Some. cbn [fst snd app]. by rewrite Ec.
  - assert (Hr' : 16 <= zlen ((u :: bs) ++ rest)) by (rewrite zlen_app; pose proof (zlen_nonneg (u :: bs)); lia).
    destruct (pull_next pre v ((u :: bs) ++ rest) x E Hr' Hb Ho) as (c & Hp & Ec). set (x' := Build_pushpull b _ _ _) in Hp.
    assert (Hg : get_bits_body (x, reg (v :: (u :: bs) ++ rest), zlen (u :: bs) + 1) = Some (Next (x', reg (u :: bs ++ rest), zlen bs + 1))).
    { unfold get_bits_body. rewrite Hp, bind_Some. cbn [fst snd]. rewrite Ec, Z.add_simpl_r, zlen_cons, truth_nz by (pose proof (zlen_nonneg bs); lia). done. }
    destruct (IH (pre ++ [v]) u x') as (t & Ht & Hd); [by rewrite E, <- (assoc_L app)|done..|]. exists t. cbn [length steps]. rewrite Hg. split; [done|]. by rewrite Hd, <- (assoc_L app).
Qed.

Lemma count_bits_steps p q bs p' q' : shifts p q bs p' q' -> wf_interval p q -> decided p' q' = false -> bs <> [] ->
  forall n, exists t, steps count_bits_body (length bs - 1) (n, p, q) = Some t /\ count_bits_body t = Some (Done (n + zlen bs, p', q')).
Proof.
  induction 1 as [|p q bs p' q' Hd Hs IH]; [done|]. intros Hw Hd' _ n.
  assert (Hb : count_bits_body (n, p, q) = Some (if decided (2 * p) (shift1 q) then Next (n + 1, 2 * p, shift1 q) else Done (n + 1, 2 * p, shift1 q))).
  { unfold count_bits_body. cbv zeta. rewrite shift1_u32, double_u32 by (destruct Hw; lia). by destruct (decided (2 * p) (shift1 q)). }
  pose proof (wf_shift _ _ Hw Hd) as Hw'. destruct bs as [|u bs].
  - inversion Hs; subst. exists (n, p, q). split; [done|]. by rewrite Hb, Hd'.
  - destruct (IH Hw' Hd' ltac:(done) (n + 1)) as (t & Ht & Hdone). exists t. cbn [length] in *. replace (S (S (length bs)) - 1)%nat with (S (S (length bs) - 1)) by lia. cbn [steps]. rewrite Hb.
    inversion Hs as [|? ? ? ? ? Hdec]; subst. rewrite Hdec. split; [done|]. rewrite Hdone, (zlen_cons (32768 <=? q)). match goal with |- context [n + 1 + ?z] => by replace (n + 1 + z) with (n + (z + 1)) by lia end.
Qed.

(** The register of the decompressor stands over the stream before the bits [rest]. *)
Definition reads (rs : rubin_state) (rest : list bool) : Prop :=
  exists pre, L = pre ++ rest /\ buf (pp rs) = b /\ ofs (pp rs) = zlen pre + 16 /\ rec_q rs = reg rest /\ bit_divider rs = div /\ bits rs = w.

Lemma do_decode_ok rs bs rest p' q' : shifts (rs_p rs) (rs_q rs) bs p' q' -> wf_interval (rs_p rs) (rs_q rs) -> decided p' q' = false ->
  reads rs (bs ++ rest) -> 16 <= zlen rest ->
  exists rs', (if decided (rs_p rs) (rs_q rs) then __do_decode rs (rs_p rs) (rs_q rs) else Some rs) = Some rs' /\ rs_p rs' = p' /\ rs_q rs' = q' /\ reads rs' rest.
Proof.
  intros Hs Hw Hd (pre & E & Hb & Ho & Hq & Hm) Hr. pose proof (shifts_short _ _ _ _ _ Hs Hw) as Hshort. destruct bs as [|v bs].
  - inversion Hs; subst. rewrite Hd. exists rs. split; [done|]. split; [done|]. split; [done|]. by exists pre.
  - assert (Hd0 : decided (rs_p rs) (rs_q rs) = true) by (by inversion Hs). rewrite Hd0. unfold __do_decode.
    destruct (count_bits_steps _ _ _ _ _ Hs Hw Hd ltac:(done) 0) as (t & Ht & Hdone). rewrite (loop_steps _ _ _ _ _ _ Ht Hdone) by (unfold zlen in Hshort; lia). rewrite bind_Some.
    cbn [app] in E, Hq. destruct (get_bits_steps rest bs Hr pre v (pp rs) E Hb Ho) as (t' & Ht' & Hdone'). rewrite Hq, Z.add_0_l, zlen_cons.
    rewrite (loop_steps _ _ _ _ _ _ Ht' Hdone') by (unfold zlen in Hshort; cbn [length] in Hshort; lia). rewrite bind_Some. eexists. split; [done|]. split; [done|]. split; [done|].
    exists (pre ++ v :: bs). cbn. split; [by rewrite E, <- (assoc_L app)|done].
Qed.

(** The bits that are read from here on stand for the symbols [l]. *)
Definition decoding (rs : rubin_state) (l : list weighted) : Prop :=
  exists bs p q rest, reads rs (bs ++ rest) /\ wf_interval (rs_p rs) (rs_q rs) /\ coded (rs_p rs) (rs_q rs) l bs p q /\ within p q (reg rest) /\ 16 <= zlen rest /\ Forall wf_weight l.

Lemma decoding_model rs l : decoding rs l -> bit_divider rs = div /\ bits rs = w.
Proof. by intros (bs & p & q & rest & (pre & _ & _ & _ & _ & Hm) & _). Qed.

Lemma rubin_decode_ok rs A B s l : decoding rs ((A, B, s) :: l) -> exists rs', decode rs A B = Some (b2z s, rs') /\ decoding rs' l.
Proof.
  intros (bs & p & q & rest & Hrd & Hw & Hc & Hin & Hr & Hl). inversion_clear Hl as [|? ? (HA & HB & HAB) Hl']. cbn in HA, HB, HAB.
  inversion Hc as [|? ? ? ? ? ? bs1 p1 q1 bs2 ? ? Hs Hd Hc']; subst. rewrite <- (assoc_L app) in Hrd.
  assert (Hr' : 16 <= zlen (bs2 ++ rest)) by (rewrite zlen_app; pose proof (zlen_nonneg bs2); lia).
  destruct (do_decode_ok rs bs1 (bs2 ++ rest) p1 q1 Hs Hw Hd Hrd Hr') as (rs1 & Hdo & <- & <- & pre & E & Hb & Ho & Hq & Hm). unfold decode. rewrite Hdo, bind_Some, (proj2 (Z.eqb_neq (A + B) 0)) by lia.
  pose proof (shifts_wf _ _ _ _ _ Hs Hw) as Hw1. pose proof (undecided _ _ Hw1 Hd). destruct (first_part_ok A B (rs_p rs1)) as [-> Hpart]; [done..|destruct Hw1; lia|].
  pose proof (narrow_wf A B s _ _ Hpart Hw1) as Hw2. pose proof (coded_back _ _ _ _ _ _ _ Hc' Hl' Hw2 Hin) as Hback. destruct (narrow_back _ _ _ _ _ _ Hpart Hback) as [_ Es].
  assert (Hthr : u32 (s32 (rs_q rs1 + part A B (rs_p rs1))) = rs_q rs1 + part A B (rs_p rs1)) by (destruct Hw1; rewrite s32_small, u32_small; lia). rewrite Hthr, Hq, <- Es.
  eexists. split; [done|]. exists bs2, p, q, rest. cbn [rs_p rs_q].
  assert (Ep : u32 (if s then s32 (rs_p rs1 - part A B (rs_p rs1)) else part A B (rs_p rs1)) = narrow_p A B s (rs_p rs1)) by (destruct Hw1, s; unfold narrow_p; rewrite ?s32_small, u32_small; lia).
  assert (Eq : (if s then u32 (rs_q rs1 + part A B (rs_p rs1)) else rs_q rs1) = narrow_q A B s (rs_p rs1) (rs_q rs1)) by (destruct Hw1, s; unfold narrow_q; rewrite ?u32_small; lia).
  rewrite Ep, Eq. split; [by exists pre|]. done.
Qed.

Lemma in_byte_ok rs x l : 0 <= x < 256 -> decoding rs (byte_symbols div w x ++ l) -> exists rs', in_byte rs = Some (x, rs') /\ decoding rs' l.
Proof.
  intros Hx H. destruct (loop_total in_byte_body
    (fun '(i, result, s) => 0 <= i <= 8 /\ result = x mod 2 ^ i /\ decoding s ((bit_symbol div w x <$> seq (Z.to_nat i) (Z.to_nat (8 - i))) ++ l))
    (fun '(i, _, _) => 8 - i) (fun r => r.1 = x /\ decoding r.2 l))
    with (bound := 9) (s := (0, 0, rs)) as ([x' rs'] & Hl & Ex & Hd).
  - intros [[i result] s] (Hi & -> & Hs). unfold body_ok. split; [lia|]. unfold in_byte_body. destruct (Z.ltb_spec i 8).
    2: { replace i with 8 in * by lia. split; [apply Z.mod_small; lia|done]. }
    destruct (decoding_model _ _ Hs) as [-> ->]. destruct (weights_nth div w Hw8 Hweights i) as [-> _]; [lia|]. rewrite bind_Some.
    replace (Z.to_nat (8 - i)) with (S (Z.to_nat (8 - (i + 1)))) in Hs by lia. cbn [seq fmap list_fmap app] in Hs. unfold bit_symbol at 1 in Hs.
    destruct (rubin_decode_ok _ _ _ _ _ Hs) as (s' & -> & Hs'). rewrite bind_Some. cbn [fst snd]. rewrite Z2Nat.id by lia. split; [|lia]. split; [lia|]. split.
    + apply Z.bits_inj'. intros j Hj. rewrite Z.lor_spec, Z.shiftl_spec, !testbit_mod_pow2 by lia. unfold b2z.
      destruct (Z.ltb_spec j i), (Z.ltb_spec j (i + 1)); cbn [andb]; try lia.
      * rewrite (Z.testbit_neg_r _ (j - i)) by lia. apply orb_false_r.
      * replace j with i by lia. rewrite Z.sub_diag. by destruct (Z.testbit x i).
      * destruct (Z.testbit x i); [|by rewrite Z.testbit_0_l]. change 1 with (2 ^ 0). apply Z.pow2_bits_false. lia.
    + replace (Z.to_nat (i + 1)) with (S (Z.to_nat i)) by lia. done.
  - split; [lia|]. split; [by rewrite Z.mod_1_r|done].
  - lia.
  - cbn in Ex, Hd. subst. eauto.
Qed.

Lemma decompress_loop_ok rs data n out : Forall (fun x => 0 <= x < 256) data -> 0 <= n <= zlen data -> n <= zlen out -> n < 2 ^ 31 ->
  decoding rs (symbols div w (take (Z.to_nat n) data)) ->
  exists out', loop (decompress_loop n) (n + 1) (0, out, rs) = Some out' /\ same_upto out' data n /\ zlen out' = zlen out.
Proof.
  intros Hbytes Hn Ho Hn31 H. destruct (loop_total (decompress_loop n)
    (fun '(pos, o, s) => 0 <= pos <= n /\ same_upto o data pos /\ zlen o = zlen out /\ decoding s (symbols div w (drop (Z.to_nat pos) (take (Z.to_nat n) data))))
    (fun '(pos, _, _) => n - pos) (fun o => same_upto o data n /\ zlen o = zlen out))
    with (bound := n + 1) (s := (0, out, rs)) as (o & Hl & Hq).
  - intros [[pos o] s] (Hpos & Hs & Hz & Hd). unfold body_ok. split; [lia|]. unfold decompress_loop. rewrite u32_small by lia. destruct (Z.ltb_spec pos n).
    2: { by replace n with pos by lia. }
    destruct (arr_get_is_Some data pos) as [x Hx]; [lia|]. pose proof Hx as [_ Hx']%arr_get_Some. rewrite (drop_S _ x) in Hd by (rewrite lookup_take_lt; [done|lia]).
    pose proof (Forall_lookup_1 _ _ _ _ Hbytes Hx') as Hx256. cbn beta in Hx256. destruct (in_byte_ok s x _ Hx256 Hd) as (s' & -> & Hd'). rewrite bind_Some. cbn [fst snd].
    destruct (arr_set_range o pos (u8 x)) as (o' & -> & Hz' & Hnew & Hold); [lia|]. rewrite bind_Some. split; [|lia]. split; [lia|]. split; [|split; [lia|]].
    + intros j Hj. destruct (decide (j = pos)) as [->|Hne]; [rewrite Hnew, u8_small by lia; done|]. rewrite Hold by done. apply Hs. lia.
    + by replace (Z.to_nat (pos + 1)) with (S (Z.to_nat pos)) by lia.
  - split; [lia|]. split; [intros j Hj; lia|]. split; [done|]. by rewrite drop_0.
  - lia.
  - eauto.
Qed.

Lemma init_decode_ok x : 16 <= zlen L -> buf x = b -> ofs x = 0 ->
  exists rs, init_decode (on_stack x) div w = Some rs /\ rs_p rs = 65536 /\ rs_q rs = 0 /\ reads rs L.
Proof.
  intros H16 Hb Ho. unfold init_decode, init_rubin. rewrite copy_weights_ok, bind_Some by lia. rewrite take_ge by (unfold zlen in Hw8; lia). rewrite bind_Some.
  cbn [rs_p rs_q pp bit_divider bits on_stack]. destruct (loop_total init_decode_body
    (fun s => 0 <= bit_number s <= 16 /\ rs_p s = 65536 /\ rs_q s = 0 /\ buf (pp s) = b /\ ofs (pp s) = bit_number s /\ rec_q s = value (Z.to_nat (bit_number s)) L /\
       bit_divider s = div /\ bits s = w)
    (fun s => 16 - bit_number s) (fun s => rs_p s = 65536 /\ rs_q s = 0 /\ reads s L))
    with (bound := 17) (s := {| rs_p := 2 * UPPER_BIT_RUBIN; rs_q := 0; rec_q := 0; bit_number := 0; pp := x; bit_divider := div; bits := w |}) as (rs & Hl & H).
  - intros s (Hn & Hp & Hq & Hb' & Ho' & Hr & Hm). unfold body_ok. split; [lia|]. unfold init_decode_body, RUBIN_REG_SIZE. destruct (Z.ltb_spec (bit_number s) 16).
    + destruct (arr_get_is_Some L (bit_number s)) as [v Hv]; [lia|]. rewrite (pullbit_ok _ L v), bind_Some by (rewrite ?Hb', ?Ho'; done). cbn.
      pose proof (value_snoc (Z.to_nat (bit_number s)) L) as Hs. apply arr_get_Some in Hv as [_ Hv]. rewrite (nth_lookup_Some L _ false _ Hv) in Hs.
      pose proof (value_range (S (Z.to_nat (bit_number s))) L) as Hrange. replace (S (Z.to_nat (bit_number s))) with (Z.to_nat (bit_number s + 1)) in * by lia.
      assert (2 ^ Z.of_nat (Z.to_nat (bit_number s + 1)) <= 2 ^ 16) by (apply Z.pow_le_mono_r; lia). rewrite Hr, u32_small, Hs by lia. split; [|lia]. split_and!; (lia || done || tauto).
    + split; [done|]. split; [done|]. exists []. cbn. replace (bit_number s) with 16 in * by lia. by rewrite Ho'.
  - cbn. split; [lia|]. by split_and!.
  - cbn. lia.
  - eauto.
Qed.

Lemma rubin_do_decompress_ok data n srclen out : Forall (fun x => 0 <= x < 256) data -> 0 <= n <= zlen data -> n <= zlen out -> n < 2 ^ 31 -> stream_of div w data n L ->
  exists out', rubin_do_decompress div w b out srclen n = Some out' /\ same_upto out' data n /\ zlen out' = zlen out.
Proof.
  intros Hbytes Hn Ho Hn31 (l & p & q & Hc & Hwf & E). unfold rubin_do_decompress.
  assert (H16 : zlen (upper_bits 16 q) = 16) by (apply (zlen_upper_bits 16)). pose proof (zlen_nonneg l).
  destruct (init_decode_ok (init_pushpull b srclen 0 0)) as (rs & -> & Hp & Hq & Hr); [rewrite E, zlen_app; lia|done..|]. rewrite bind_Some.
  apply decompress_loop_ok; [done..|]. exists l, p, q, (upper_bits 16 q). rewrite Hp, Hq. rewrite E in Hr. split; [done|]. split; [done|]. split; [done|].
  split; [|split; [lia|by apply symbols_wf]]. rewrite <- (app_nil_r (upper_bits 16 q)), reg_upper_bits; destruct Hwf; unfold within; lia.
Qed.
End Decompress.

(** ** Proofs: the weights *)

Definition all_upto (m : Z) (l : list Z) : Prop := Forall (fun x => 0 <= x <= m) l.

Lemma all_upto_set m l i x l' : all_upto m l -> 0 <= x <= m -> l.[i <- x] = Some l' -> all_upto m l' /\ zlen l' = zlen l.
Proof. intros Hl Hx [_ ->]%arr_set_inv. split; [by apply Forall_insert|apply zlen_insert]. Qed.

Lemma all_upto_get m l i x : all_upto m l -> l.[i] = Some x -> 0 <= x <= m.
Proof. intros Hl [_ Hx]%arr_get_Some. apply (Forall_lookup_1 _ _ _ _ Hl Hx). Qed.

Lemma all_upto_mono m n l : m <= n -> all_upto m l -> all_upto n l.
Proof. intros Hle H. eapply list.Forall_impl; [exact H|]. cbn. lia. Qed.

Lemma all_upto_repeat m n : 0 <= m -> all_upto m (repeat 0 n).
Proof. intros. induction n; cbn; constructor; (lia || done). Qed.

Lemma histo_ok data n : all_upto 255 data -> 0 <= n <= zlen data -> n < 2 ^ 31 ->
  exists h, loop (histo_body data n) (n + 1) (0, repeat 0 256) = Some h /\ zlen h = 256 /\ all_upto 255 h.
Proof.
  intros Hd Hn Hn31. destruct (loop_total (histo_body data n) (fun '(i, h) => 0 <= i <= n /\ zlen h = 256 /\ all_upto 255 h) (fun '(i, _) => n - i)
    (fun h => zlen h = 256 /\ all_upto 255 h)) with (bound := n + 1) (s := (0, repeat 0 256)) as (h & Hl & H).
  - intros [i h] (Hi & Hz & Hh). unfold body_ok. split; [lia|]. unfold histo_body. rewrite u32_small by lia. destruct (Z.ltb_spec i n); [|done].
    destruct (arr_get_is_Some data i) as [x Hx]; [lia|]. pose proof (all_upto_get _ _ _ _ Hd Hx). rewrite Hx, bind_Some. destruct (arr_get_is_Some h x) as [c Hc]; [lia|]. rewrite Hc, bind_Some.
    destruct (arr_set_range h x (u8 (c + 1))) as (h' & E & _); [lia|]. rewrite E, bind_Some. pose proof (u8_range (c + 1)). destruct (all_upto_set 255 h x (u8 (c + 1)) h' Hh ltac:(lia) E). split; [|lia]. split_and!; (lia || done).
  - split; [lia|]. split; [done|]. by apply all_upto_repeat.
  - lia.
  - eauto.
Qed.

Lemma count_bit_ok i h k l m : zlen l = 8 -> 0 <= k < 8 -> 0 <= h <= 255 -> 0 <= m < 2 ^ 30 -> all_upto m l ->
  exists l', count_bit i h k l = Some l' /\ zlen l' = 8 /\ all_upto (m + 255) l'.
Proof.
  intros Hz Hk Hh Hm Hl. pose proof (all_upto_mono m (m + 255) l ltac:(lia) Hl) as Hl'. unfold count_bit. destruct (truth _); [|eauto].
  destruct (arr_get_is_Some l k) as [x Hx]; [lia|]. pose proof (all_upto_get _ _ _ _ Hl Hx). rewrite Hx, bind_Some, s32_small by lia.
  destruct (arr_set_range l k (x + h)) as (l' & E & _); [lia|]. destruct (all_upto_set (m + 255) l k (x + h) l' Hl' ltac:(lia) E). exists l'. split_and!; (lia || done).
Qed.

Lemma count_bits_ok i h ks : 0 <= h <= 255 -> Forall (fun k => 0 <= k < 8) ks -> forall l m, zlen l = 8 -> 0 <= m < 2 ^ 30 - 255 * zlen ks -> all_upto m l ->
  exists l', count_bits i h ks l = Some l' /\ zlen l' = 8 /\ all_upto (m + 255 * zlen ks) l'.
Proof.
  intros Hh. induction 1 as [|k ks Hk _ IH]; intros l m Hz Hm Hl; cbn [count_bits].
  - exists l. split; [done|]. split; [done|]. eapply all_upto_mono; [|exact Hl]. change (zlen (@nil Z)) with 0. lia.
  - rewrite zlen_cons in *. pose proof (zlen_nonneg ks). destruct (count_bit_ok i h k l m) as (l1 & -> & Hz1 & Hl1); [done || lia..|]. rewrite bind_Some.
    destruct (IH l1 (m + 255)) as (l2 & -> & Hz2 & Hl2); [done || lia..|]. exists l2. split; [done|]. split; [done|]. eapply all_upto_mono; [|exact Hl2]. lia.
Qed.

Lemma count_histo_ok h : zlen h = 256 -> all_upto 255 h -> exists l, loop (count_histo_body h) 257 (0, repeat 0 8) = Some l /\ zlen l = 8 /\ all_upto (2040 * 256) l.
Proof.
  intros Hz Hh. destruct (loop_total (count_histo_body h) (fun '(i, l) => 0 <= i <= 256 /\ zlen l = 8 /\ all_upto (2040 * i) l) (fun '(i, _) => 256 - i)
    (fun l => zlen l = 8 /\ all_upto (2040 * 256) l)) with (bound := 257) (s := (0, repeat 0 8)) as (l & Hl & H).
  - intros [i l0] (Hi & Hz0 & Hl0). unfold body_ok. split; [lia|]. unfold count_histo_body. destruct (Z.ltb_spec i 256); [|split; [done|]; by replace i with 256 in Hl0 by lia].
    destruct (arr_get_is_Some h i) as [c Hc]; [lia|]. pose proof (all_upto_get _ _ _ _ Hh Hc). rewrite Hc, bind_Some.
    destruct (count_bits_ok i c [7; 6; 5; 4; 3; 2; 1; 0] ltac:(lia)) with (l := l0) (m := 2040 * i) as (l1 & -> & Hz1 & Hl1); [by repeat (apply Forall_cons; [lia|])|done|change (zlen _) with 8; lia|done|].
    rewrite bind_Some. split; [|lia]. split; [lia|]. split; [done|]. eapply all_upto_mono; [|exact Hl1]. change (zlen [7; 6; 5; 4; 3; 2; 1; 0]) with 8. lia.
  - split; [lia|]. split; [done|]. by apply all_upto_repeat.
  - lia.
  - eauto.
Qed.

Lemma scale_ok n l out : zlen l = 8 -> all_upto (2040 * 256) l -> 0 < n < 2 ^ 31 -> 8 <= zlen out ->
  exists l' out', loop (scale_body n) 9 (0, l, out) = Some (l', out') /\ zlen l' = 8 /\ (forall i x, l'.[i] = Some x -> 1 <= x <= 255) /\ zlen out' = zlen out /\ same_upto out' l' 8.
Proof.
  intros Hz Hl Hn Ho. destruct (loop_total (scale_body n)
    (fun '(i, l, o) => 0 <= i <= 8 /\ zlen l = 8 /\ all_upto (2040 * 256) l /\ (forall j x, j < i -> l.[j] = Some x -> 1 <= x <= 255) /\ zlen o = zlen out /\ same_upto o l i)
    (fun '(i, _, _) => 8 - i) (fun '(l', out') => zlen l' = 8 /\ (forall i x, l'.[i] = Some x -> 1 <= x <= 255) /\ zlen out' = zlen out /\ same_upto out' l' 8))
    with (bound := 9) (s := (0, l, out)) as ([l' out'] & Hlp & H).
  - intros [[i k] o] (Hi & Hzk & Hk & Hsc & Hzo & Hs). unfold body_ok. split; [lia|]. unfold scale_body. destruct (Z.ltb_spec i 8).
    2: { replace i with 8 in * by lia. split; [done|]. split; [|done]. intros j x Hx. pose proof (arr_get_range _ _ _ Hx). apply (Hsc j); [lia|done]. }
    rewrite (proj2 (Z.eqb_neq n 0)) by lia. destruct (arr_get_is_Some k i) as [x Hx]; [lia|]. pose proof (all_upto_get _ _ _ _ Hk Hx). rewrite Hx, bind_Some.
    assert (Hq : 0 <= x * 256 / n <= x * 256) by (split; [apply Z.div_pos|apply Z.div_le_upper_bound]; nia).
    rewrite (s32_small (x * 256)), u32_small, s32_small by lia. set (y := if 255 <? _ then _ else _). assert (Hy : 1 <= y <= 255) by (unfold y, truth; destruct (Z.eqb_spec (x * 256 / n) 0); cbn [negb]; destruct (Z.ltb_spec 255 (x * 256 / n)); cbn; lia).
    destruct (arr_set_range k i y) as (k' & E & Hz' & Hnew & Hold); [lia|]. destruct (all_upto_set (2040 * 256) k i y k' Hk ltac:(lia) E) as [Hk' _]. rewrite E, bind_Some.
    destruct (arr_set_range o i (u8 y)) as (o' & -> & Hzo' & Hnewo & Holdo); [lia|]. rewrite bind_Some. split; [|lia]. split; [lia|]. split; [lia|]. split; [done|]. split; [|split; [lia|]].
    + intros j z Hj Hz0. destruct (decide (j = i)) as [->|Hne]; [congruence|]. rewrite Hold in Hz0 by done. apply (Hsc j); [lia|done].
    + intros j Hj. destruct (decide (j = i)) as [->|Hne]; [by rewrite Hnew, Hnewo, u8_small by lia|]. rewrite Hold, Holdo by done. apply Hs. lia.
  - split; [lia|]. split; [done|]. split; [done|]. split; [intros j x Hj Hx%arr_get_range; lia|]. split; [done|]. intros j Hj. lia.
  - lia.
  - eauto.
Qed.

(** ** The property *)

(** The header with the weights, and the stream behind it, are found by the decompressor. *)
Lemma dynrubin_header l out b input m : zlen l = 8 -> 8 <= zlen out -> same_upto out l 8 -> 0 <= m -> same_upto input (take 8 out ++ b) (m + 8) -> 
  copy_bits input = Some l /\ same_upto (drop 8 input) b m.
Proof.
  intros Hz Ho Hs Hm Hin. assert (H8 : zlen (take 8 out) = 8) by (apply (zlen_take out 8); lia).
  assert (Hhead : forall i, 0 <= i < 8 -> input.[i] = l.[i]) by (intros i Hi; rewrite Hin, arr_get_app_l, (arr_get_take out 8) by lia; by apply Hs).
  assert (Hlen : 8 <= zlen input) by (destruct (arr_get_is_Some l 7) as [x Hx]; [lia|]; rewrite <- Hhead in Hx by lia; apply arr_get_range in Hx; lia). split.
  - rewrite copy_weights_ok by done. f_equal. change 8%nat with (Z.to_nat 8). apply arr_ext; [rewrite (zlen_take input 8); lia|]. intros i Hi. rewrite (zlen_take input 8) in Hi by lia. rewrite (arr_get_take input 8) by lia. by apply Hhead.
  - intros i Hi. rewrite (arr_get_drop input 8), Hin, arr_get_app_r by lia. f_equal. lia.
Qed.

(** C24: compressing a page never reads or writes outside of the buffers and never divides by zero, and either fails with -1 - the result would not
    be smaller - or writes fewer bytes than it has read and at most as many as there is room for; decompressing those bytes then
    gives back exactly the bytes that were read, whatever the buffers held before. *)
Theorem dynrubin_round_trip data out dst n dstlen : Forall (fun x => 0 <= x < 256) data -> 0 < n <= zlen data -> n < 2 ^ 31 -> dstlen <= zlen out -> 0 <= dstlen < 2 ^ 28 ->
  exists e out' n' m, jffs2_dynrubin_compress data out n dstlen = Some (e, out', n', m) /\ zlen out' = zlen out /\
    (e = -1 \/ e = 0 /\ m < n' <= n /\ m <= dstlen /\
       (n' <= zlen dst -> forall input, same_upto input out' m -> exists dst', jffs2_dynrubin_decompress input dst m n' = Some (0, dst') /\ same_upto dst' data n' /\ zlen dst' = zlen dst)).
Proof.
  intros Hbytes Hn Hn31 Hd Hd28. unfold jffs2_dynrubin_compress. destruct (Z.leb_spec dstlen 12); [eexists _, _, _, _; split; [done|]; split; [done|by left]|].
  destruct (histo_ok data n) as (h & -> & Hh & Hh'); [eapply list.Forall_impl; [exact Hbytes|]; cbn; lia|lia..|]. rewrite bind_Some.
  destruct (count_histo_ok h Hh Hh') as (l0 & -> & Hl0 & Hl0'). rewrite bind_Some. destruct (scale_ok n l0 out Hl0 Hl0' ltac:(lia) ltac:(lia)) as (l & out1 & -> & Hl & Hl' & Ho1 & Hsame). rewrite !bind_Some.
  assert (Hweights : Forall (fun b => 0 <= b <= 256) l).
  { apply list.Forall_forall. intros x [i Hi]%list_elem_of_lookup. specialize (Hl' (Z.of_nat i) x). rewrite arr_get_nat, Nat2Z.id in Hl' by lia. specialize (Hl' Hi). lia. }
  assert (Hdrop : zlen (drop 8 out1) = zlen out - 8) by (rewrite <- Ho1; apply (zlen_drop out1 8); lia). assert (Htake : zlen (take 8 out1) = 8) by (apply (zlen_take out1 8); lia).
  rewrite (u32_small (dstlen - 8)) by lia. destruct (rubin_do_compress_ok (dstlen - 8) (zlen out - 8) 256 l ltac:(lia) ltac:(lia) Hl ltac:(lia) Hweights data (drop 8 out1) n Hdrop ltac:(lia) Hn31)
    as (e & b & n' & m & -> & Hb & [->|(-> & Hm & Hmc & L & HL & Hstream & HLm)]); rewrite bind_Some.
  { eexists _, _, _, _. split; [done|]. split; [rewrite zlen_app; lia|by left]. }
  rewrite truth_0, u32_small by lia. destruct (Z.leb_spec n' (m + 8)); eexists _, _, _, _; (split; [done|]; split; [rewrite zlen_app; lia|]); [by left|right].
  split; [done|]. split; [lia|]. split; [lia|]. intros Hdst input Hin. unfold jffs2_dynrubin_decompress. destruct (dynrubin_header l out1 b input m Hl ltac:(lia) Hsame ltac:(lia) Hin) as [-> Hin'].
  rewrite bind_Some. destruct (rubin_do_decompress_ok 256 l (drop 8 input) L Hl ltac:(lia) Hweights (written_same _ _ _ _ HL HLm Hin') ltac:(lia) data n' (u32 (m + 8 - 8)) dst Hbytes ltac:(lia) Hdst ltac:(lia) Hstream)
    as (dst' & -> & Hres). rewrite bind_Some. by exists dst'.
Qed.

Lemma dynrubin_round_trip_witness : exists e out' n' m, jffs2_dynrubin_compress (repeat 0 40 ++ [1; 128; 3]) (repeat 7 64) 43 64 = Some (e, out', n', m) /\ zlen out' = 64 /\
    (e = -1 \/ e = 0 /\ m < n' <= 43 /\ m <= 64 /\
       (n' <= 50 -> forall input, same_upto input out' m -> exists dst', jffs2_dynrubin_decompress input (repeat 9 50) m n' = Some (0, dst') /\
          same_upto dst' (repeat 0 40 ++ [1; 128; 3]) n' /\ zlen dst' = 50)).
Proof. apply (dynrubin_round_trip (repeat 0 40 ++ [1; 128; 3]) (repeat 7 64) (repeat 9 50) 43 64); [repeat constructor; (lia || done)|done..]. Defined.

Example dynrubin_compresses : jffs2_dynrubin_compress (repeat 0 40 ++ [1; 128; 3]) (repeat 7 16) 43 16 = Some (0, [11; 5; 1; 1; 1; 1; 1; 5; 4; 33; 87; 213; 0; 7; 7; 7], 43, 14).
Proof. vm_compute. reflexivity. Qed.

(** An empty page is divided by its length. *)
Example dynrubin_divides_by_zero : jffs2_dynrubin_compress [] (repeat 0 16) 0 16 = None.
Proof. vm_compute. reflexivity. Qed.

(** The decompressor trusts its input: pullbit() does not look at the length of the buffer. *)
Example rubin_decompress_overreads : jffs2_rubinmips_decompress [170; 85; 170] (repeat 0 8) 3 8 = None.
Proof. vm_compute. reflexivity. Qed.
