(* ===== verification/Cipher.v ===== *)
(** * Ciphers: crypto/tea.c (TEA, XTEA and XETA) and crypto/arc4.c

    A block or key is a list of bytes that is read and written in 32-bit
    little-endian words, as on the target.  Each while loop is a loop over
    its state with the body named after it.

    The theorems show that each cipher's decryption inverts its encryption
    and the other way round, on every block and key, and that the state of the stream cipher stays
    a permutation. *)

From S2P Require Import Prelude CString.

(** ** Words in memory *)

(** le32_to_cpu(p[i]) and p[i] = cpu_to_le32(x) for a pointer to 32-bit words. *)
Definition get_le32 (p : list Z) (i : Z) : option Z :=
  b0 ← p.[4 * i]; b1 ← p.[4 * i + 1]; b2 ← p.[4 * i + 2]; b3 ← p.[4 * i + 3];
  Some (b0 + 2 ^ 8 * (b1 + 2 ^ 8 * (b2 + 2 ^ 8 * b3))).

Definition put_le32 (p : list Z) (i x : Z) : option (list Z) :=
  p ← p.[4 * i <- u8 x];
  p ← p.[4 * i + 1 <- u8 (Z.shiftr x 8)];
  p ← p.[4 * i + 2 <- u8 (Z.shiftr x 16)];
  p.[4 * i + 3 <- u8 (Z.shiftr x 24)].

(** ** TEA and its variants *)

Definition TEA_ROUNDS : Z := 32.
Definition TEA_DELTA : Z := 0x9e3779b9.
Definition XTEA_ROUNDS : Z := 32.
Definition XTEA_DELTA : Z := 0x9e3779b9.

(** struct tea_ctx and struct xtea_ctx: the four key words. *)
Definition tea_ctx : Type := list Z.

Definition tea_setkey (in_key : list Z) : option tea_ctx :=
  k0 ← get_le32 in_key 0; k1 ← get_le32 in_key 1; k2 ← get_le32 in_key 2; k3 ← get_le32 in_key 3;
  Some [k0; k1; k2; k3].
Definition xtea_setkey (in_key : list Z) : option tea_ctx := tea_setkey in_key.

(** The state of a cipher: [sum], [y] and [z]. *)
Definition round_state : Type := Z * Z * Z.

Definition shl32 (x k : Z) : Z := u32 (Z.shiftl x k).

(** ((x << 4) + ka) ^ (x + sum) ^ ((x >> 5) + kb) *)
Definition tea_mix (ka kb sum x : Z) : Z :=
  Z.lxor (Z.lxor (u32 (shl32 x 4 + ka)) (u32 (x + sum))) (u32 (Z.shiftr x 5 + kb)).

Definition tea_encrypt_round (k0 k1 k2 k3 : Z) : round_state -> round_state := fun '(sum, y, z) =>
  let sum := u32 (sum + TEA_DELTA) in
  let y := u32 (y + tea_mix k0 k1 sum z) in
  let z := u32 (z + tea_mix k2 k3 sum y) in
  (sum, y, z).

Definition tea_decrypt_round (k0 k1 k2 k3 : Z) : round_state -> round_state := fun '(sum, y, z) =>
  let z := u32 (z - tea_mix k2 k3 sum y) in
  let y := u32 (y - tea_mix k0 k1 sum z) in
  let sum := u32 (sum - TEA_DELTA) in
  (sum, y, z).

(** while (n-- > 0) *)
Definition tea_body (round : round_state -> round_state) : Z * round_state -> option (step (Z * round_state) round_state) :=
  fun '(n, s) => if 0 <? n then Some (Next (n - 1, round s)) else Some (Done s).

Definition tea_encrypt (ctx : tea_ctx) (dst src : list Z) : option (list Z) :=
  y ← get_le32 src 0; z ← get_le32 src 1;
  k0 ← ctx.[0]; k1 ← ctx.[1]; k2 ← ctx.[2]; k3 ← ctx.[3];
  '(_, y, z) ← loop (tea_body (tea_encrypt_round k0 k1 k2 k3)) (TEA_ROUNDS + 1) (TEA_ROUNDS, (0, y, z));
  dst ← put_le32 dst 0 y; put_le32 dst 1 z.

Definition tea_decrypt (ctx : tea_ctx) (dst src : list Z) : option (list Z) :=
  y ← get_le32 src 0; z ← get_le32 src 1;
  k0 ← ctx.[0]; k1 ← ctx.[1]; k2 ← ctx.[2]; k3 ← ctx.[3];
  '(_, y, z) ← loop (tea_body (tea_decrypt_round k0 k1 k2 k3)) (TEA_ROUNDS + 1) (TEA_ROUNDS, (shl32 TEA_DELTA 5, y, z));
  dst ← put_le32 dst 0 y; put_le32 dst 1 z.

(** x << 4 ^ x >> 5 *)
Definition xtea_fold (x : Z) : Z := Z.lxor (shl32 x 4) (Z.shiftr x 5).

(** What is added to a half: ((x << 4 ^ x >> 5) + x) ^ (sum + key) in XTEA and
    (x << 4 ^ x >> 5) + (x ^ sum) + key in XETA. *)
Definition xtea_mix (sum key x : Z) : Z := Z.lxor (u32 (xtea_fold x + x)) (u32 (sum + key)).
Definition xeta_mix (sum key x : Z) : Z := u32 (u32 (xtea_fold x + Z.lxor x sum) + key).

Section Xtea.
Variable mix : Z -> Z -> Z -> Z.

Definition xtea_encrypt_round (ctx : tea_ctx) : round_state -> option round_state := fun '(sum, y, z) =>
  k ← ctx.[Z.land sum 3];
  let y := u32 (y + mix sum k z) in
  let sum := u32 (sum + XTEA_DELTA) in
  k ← ctx.[Z.land (Z.shiftr sum 11) 3];
  let z := u32 (z + mix sum k y) in
  Some (sum, y, z).

Definition xtea_decrypt_round (ctx : tea_ctx) : round_state -> option round_state := fun '(sum, y, z) =>
  k ← ctx.[Z.land (Z.shiftr sum 11) 3];
  let z := u32 (z - mix sum k y) in
  let sum := u32 (sum - XTEA_DELTA) in
  k ← ctx.[Z.land sum 3];
  let y := u32 (y - mix sum k z) in
  Some (sum, y, z).

(** while (sum != limit) and, with a limit of 0, while (sum) *)
Definition xtea_body (round : round_state -> option round_state) (limit : Z) :
    round_state -> option (step round_state round_state) := fun s =>
  if negb (s.1.1 =? limit) then s ← round s; Some (Next s) else Some (Done s).

Definition xtea_encrypt_with (ctx : tea_ctx) (dst src : list Z) : option (list Z) :=
  let limit := u32 (XTEA_DELTA * XTEA_ROUNDS) in
  y ← get_le32 src 0; z ← get_le32 src 1;
  '(_, y, z) ← loop (xtea_body (xtea_encrypt_round ctx) limit) (XTEA_ROUNDS + 1) (0, y, z);
  dst ← put_le32 dst 0 y; put_le32 dst 1 z.

Definition xtea_decrypt_with (ctx : tea_ctx) (dst src : list Z) : option (list Z) :=
  y ← get_le32 src 0; z ← get_le32 src 1;
  '(_, y, z) ← loop (xtea_body (xtea_decrypt_round ctx) 0) (XTEA_ROUNDS + 1) (u32 (XTEA_DELTA * XTEA_ROUNDS), y, z);
  dst ← put_le32 dst 0 y; put_le32 dst 1 z.
End Xtea.

Definition xtea_encrypt := xtea_encrypt_with xtea_mix.
Definition xtea_decrypt := xtea_decrypt_with xtea_mix.
Definition xeta_encrypt := xtea_encrypt_with xeta_mix.
Definition xeta_decrypt := xtea_decrypt_with xeta_mix.

(** ** ARC4 *)

Record arc4_ctx := { S_ : list Z; x_ : Z; y_ : Z }.

Definition arc4_init_body : Z * list Z -> option (step (Z * list Z) (list Z)) := fun '(i, S') =>
  if i <? 256 then S' ← S'.[i <- u8 i]; Some (Next (i + 1, S')) else Some (Done S').

(** The key schedule: [i], [j], [k] and the table. *)
Definition arc4_key_body (in_key : list Z) (key_len : Z) :
    Z * Z * Z * list Z -> option (step (Z * Z * Z * list Z) (list Z)) := fun '(i, j, k, S') =>
  if i <? 256 then
    a ← S'.[i];
    c ← in_key.[k];
    let j := Z.land (j + c + a) 0xff in
    b ← S'.[j];
    S' ← S'.[i <- b];
    S' ← S'.[j <- a];
    let k := k + 1 in
    Some (Next (i + 1, j, if key_len <=? k then 0 else k, S'))
  else Some (Done S').

(** [S'] is the memory of the context before the call. *)
Definition arc4_set_key (S' in_key : list Z) (key_len : Z) : option arc4_ctx :=
  S' ← loop arc4_init_body 257 (0, S');
  S' ← loop (arc4_key_body in_key key_len) 257 (0, 0, 0, S');
  Some {| S_ := S'; x_ := 1; y_ := 0 |}.

(** One byte: the context and the byte written. *)
Definition arc4_crypt (ctx : arc4_ctx) (in_ : Z) : option (arc4_ctx * Z) :=
  let S' := S_ ctx in
  let x := x_ ctx in
  let y := y_ ctx in
  a ← S'.[x];
  let y := Z.land (y + a) 0xff in
  b ← S'.[y];
  S' ← S'.[x <- b];
  S' ← S'.[y <- a];
  let x := Z.land (x + 1) 0xff in
  k ← S'.[Z.land (a + b) 0xff];
  Some ({| S_ := S'; x_ := x; y_ := y |}, Z.lxor in_ k).

(** A message, byte by byte. *)
Fixpoint arc4_stream (ctx : arc4_ctx) (msg : list Z) : option (arc4_ctx * list Z) :=
  match msg with
  | [] => Some (ctx, [])
  | c :: msg' =>
      '(ctx, c') ← arc4_crypt ctx c;
      '(ctx, r) ← arc4_stream ctx msg';
      Some (ctx, c' :: r)
  end.

(** ** Proofs: words in memory *)

Definition byte (b : Z) : Prop := 0 <= b < 2 ^ 8.
Definition word (x : Z) : Prop := 0 <= x < 2 ^ 32.

Lemma byte_split b r : byte b -> u8 (b + 2 ^ 8 * r) = b /\ Z.shiftr (b + 2 ^ 8 * r) 8 = r.
Proof.
  intros Hb. unfold byte in Hb. rewrite Z.shiftr_div_pow2 by lia. unfold u8. split.
  - symmetry. apply (Z.mod_unique _ _ r); lia.
  - symmetry. apply (Z.div_unique _ _ _ b); lia.
Qed.

(** The bytes of a word that was assembled from bytes. *)
Lemma word_bytes b0 b1 b2 b3 : byte b0 -> byte b1 -> byte b2 -> byte b3 ->
  let x := b0 + 2 ^ 8 * (b1 + 2 ^ 8 * (b2 + 2 ^ 8 * b3)) in
  word x /\ u8 x = b0 /\ u8 (Z.shiftr x 8) = b1 /\ u8 (Z.shiftr x 16) = b2 /\ u8 (Z.shiftr x 24) = b3.
Proof.
  intros H0 H1 H2 H3 x. unfold byte, word in *. split; [unfold x; lia|].
  destruct (byte_split b0 (b1 + 2 ^ 8 * (b2 + 2 ^ 8 * b3)) H0) as [F0 E1].
  destruct (byte_split b1 (b2 + 2 ^ 8 * b3) H1) as [F1 E2]. destruct (byte_split b2 b3 H2) as [F2 E3].
  change 16 with (8 + 8). change 24 with (8 + 8 + 8). rewrite <-!Z.shiftr_shiftr by lia. fold x in E1, F0. rewrite F0, E1, E2, E3, F1, F2.
  split_and!; try done. apply u8_small. done.
Qed.

(** Assembling the bytes of a word. *)
Lemma bytes_word x : word x ->
  u8 x + 2 ^ 8 * (u8 (Z.shiftr x 8) + 2 ^ 8 * (u8 (Z.shiftr x 16) + 2 ^ 8 * u8 (Z.shiftr x 24))) = x.
Proof. intros Hx. unfold word in Hx. rewrite !Z.shiftr_div_pow2 by lia. unfold u8. zlia. Qed.

(** A block of two words. *)
Definition block (y z : Z) : list Z :=
  [u8 y; u8 (Z.shiftr y 8); u8 (Z.shiftr y 16); u8 (Z.shiftr y 24);
   u8 z; u8 (Z.shiftr z 8); u8 (Z.shiftr z 16); u8 (Z.shiftr z 24)].

Lemma get_block y z rest : word y -> word z ->
  get_le32 (block y z ++ rest) 0 = Some y /\ get_le32 (block y z ++ rest) 1 = Some z.
Proof.
  intros Hy Hz. split.
  - rewrite <-(bytes_word y Hy) at 2. reflexivity.
  - rewrite <-(bytes_word z Hz) at 2. reflexivity.
Qed.

Lemma put_block d y z rest : zlen d = 8 -> (p ← put_le32 (d ++ rest) 0 y; put_le32 p 1 z) = Some (block y z ++ rest).
Proof.
  intros Hd. pose proof (zlen_nonneg rest). assert (Hl : zlen (d ++ rest) = 8 + zlen rest) by (rewrite zlen_app; lia).
  unfold put_le32. do 8 (rewrite arr_set_Some by (rewrite ?zlen_insert; lia); cbn [mbind option_bind]).
  do 8 (destruct d as [|? d]; [unfold zlen in Hd; cbn in Hd; lia|]).
  replace d with (@nil Z) by (symmetry; apply zlen_nil_inv; rewrite !zlen_cons in Hd; lia).
  reflexivity.
Qed.

(** Eight bytes are a block. *)
Lemma block_of_bytes s : Forall byte s -> zlen s = 8 -> exists y z, word y /\ word z /\ s = block y z.
Proof.
  intros Hb Hs. do 8 (destruct s as [|? s]; [unfold zlen in Hs; cbn in Hs; lia|]).
  replace s with (@nil Z) in * by (symmetry; apply zlen_nil_inv; rewrite !zlen_cons in Hs; lia).
  decompose_Forall_hyps.
  destruct (word_bytes z z0 z1 z2) as (Hy & E0 & E1 & E2 & E3); [done..|].
  destruct (word_bytes z3 z4 z5 z6) as (Hz & E4 & E5 & E6 & E7); [done..|].
  do 2 eexists. split; [exact Hy|]. split; [exact Hz|]. unfold block. by rewrite E0, E1, E2, E3, E4, E5, E6, E7.
Qed.

(** ** Proofs: rounds *)

(** [n] rounds of a cipher, in full. *)
Fixpoint rounds (f : round_state -> option round_state) (n : nat) (s : round_state) : option round_state :=
  match n with
  | O => Some s
  | S n' => s' ← f s; rounds f n' s'
  end.

Lemma rounds_end f n s : rounds f (S n) s = (s' ← rounds f n s; f s').
Proof.
  revert s. induction n as [|n IH]; intros s; [cbn; by destruct (f s)|].
  change (rounds f (S (S n)) s) with (s' ← f s; rounds f (S n) s'). cbn [rounds].
  destruct (f s) as [s1|]; cbn [mbind option_bind]; [apply IH|done].
Qed.

Definition words (s : round_state) : Prop := word s.1.1 /\ word s.1.2 /\ word s.2.

(** Rounds [f] that the rounds [g] undo; [d] is what a round adds to the sum. *)
Definition undone (d : Z) (f g : round_state -> option round_state) : Prop :=
  forall s, words s -> exists s', f s = Some s' /\ words s' /\ g s' = Some s /\ s'.1.1 = u32 (s.1.1 + d).

Lemma u32_add_idemp a b c : u32 (u32 (a + b) + c) = u32 (a + (b + c)).
Proof. unfold u32. rewrite Zplus_mod_idemp_l. f_equal. lia. Qed.

Lemma rounds_undone d f g n s : undone d f g -> words s ->
  exists s', rounds f n s = Some s' /\ words s' /\ rounds g n s' = Some s /\ s'.1.1 = u32 (s.1.1 + Z.of_nat n * d).
Proof.
  intros Hu. revert s. induction n as [|n IH]; intros s Hs.
  - exists s. split_and!; try done; try apply Hs. rewrite Z.add_0_r. symmetry. apply u32_small, Hs.
  - destruct (Hu s Hs) as (s1 & E1 & Hw1 & Hg1 & Hsum1). destruct (IH s1 Hw1) as (s2 & E2 & Hw2 & Hg2 & Hsum2).
    exists s2. split; [cbn [rounds]; by rewrite E1|]. split; [done|]. split.
    + rewrite rounds_end, Hg2. done.
    + rewrite Hsum2, Hsum1, u32_add_idemp. f_equal. lia.
Qed.

Lemma sum_word x : word (u32 x).
Proof. apply u32_range. Qed.

Lemma u32_add_sub a b : word a -> u32 (u32 (a + b) - b) = a.
Proof.
  intros Ha. rewrite <-(u32_small a) at 2 by done. unfold u32. rewrite Zminus_mod_idemp_l. f_equal. lia.
Qed.

Lemma u32_sub_add a b : word a -> u32 (u32 (a - b) + b) = a.
Proof.
  intros Ha. rewrite <-(u32_small a) at 2 by done. unfold u32. rewrite Zplus_mod_idemp_l. f_equal. lia.
Qed.

(** One round of each cipher, forwards and backwards. *)
Lemma tea_round_undone k0 k1 k2 k3 :
  undone TEA_DELTA (fun s => Some (tea_encrypt_round k0 k1 k2 k3 s)) (fun s => Some (tea_decrypt_round k0 k1 k2 k3 s)) /\
  undone (- TEA_DELTA) (fun s => Some (tea_decrypt_round k0 k1 k2 k3 s)) (fun s => Some (tea_encrypt_round k0 k1 k2 k3 s)).
Proof.
  split; intros [[sum y] z] (H1 & H2 & H3); cbn [fst snd] in *; (eexists; split; [done|]);
    unfold tea_encrypt_round, tea_decrypt_round; (split; [split_and!; apply sum_word|]); (split; [|done]).
  - by rewrite !u32_add_sub.
  - by rewrite !u32_sub_add.
Qed.

Lemma key_get ctx i : zlen ctx = 4 -> exists k : Z, ctx.[Z.land i 3] = Some k.
Proof.
  intros H. apply arr_get_is_Some. change 3 with (2 ^ 2 - 1). rewrite land_ones_mod by lia.
  pose proof (Z.mod_pos_bound i (2 ^ 2)). lia.
Qed.

Lemma xtea_round_undone mix ctx : zlen ctx = 4 ->
  undone XTEA_DELTA (xtea_encrypt_round mix ctx) (xtea_decrypt_round mix ctx) /\
  undone (- XTEA_DELTA) (xtea_decrypt_round mix ctx) (xtea_encrypt_round mix ctx).
Proof.
  intros Hctx. split; intros [[sum y] z] (H1 & H2 & H3); cbn [fst snd] in *; unfold xtea_encrypt_round, xtea_decrypt_round.
  - destruct (key_get ctx sum Hctx) as [k Ek]. rewrite Ek. cbn [mbind option_bind].
    destruct (key_get ctx (Z.shiftr (u32 (sum + XTEA_DELTA)) 11) Hctx) as [k' Ek']. rewrite Ek'. cbn [mbind option_bind].
    eexists. split; [done|]. split; [split_and!; apply sum_word|]. split; [|done]. cbn beta iota. rewrite Ek'. cbn [mbind option_bind].
    rewrite !u32_add_sub by done. rewrite Ek. cbn [mbind option_bind]. by rewrite u32_add_sub.
  - destruct (key_get ctx (Z.shiftr sum 11) Hctx) as [k Ek]. rewrite Ek. cbn [mbind option_bind].
    destruct (key_get ctx (u32 (sum - XTEA_DELTA)) Hctx) as [k' Ek']. rewrite Ek'. cbn [mbind option_bind].
    eexists. split; [done|]. split; [split_and!; apply sum_word|]. split; [|done]. cbn beta iota. rewrite Ek'. cbn [mbind option_bind].
    rewrite !u32_sub_add by done. rewrite Ek. cbn [mbind option_bind]. by rewrite u32_sub_add.
Qed.

(** The loop of TEA makes its 32 rounds. *)
Lemma tea_loop_ok f s : loop (tea_body f) (TEA_ROUNDS + 1) (TEA_ROUNDS, s) = rounds (fun s => Some (f s)) 32 s.
Proof. destruct s as [[sum y] z]. reflexivity. Qed.

(** The loops of XTEA and XETA leave after exactly 32 rounds, since no earlier
    sum is the limit. *)
Lemma xtea_loop_ok f g d s limit : undone d f g -> words s ->
  forallb (fun k => negb (u32 (s.1.1 + Z.of_nat k * d) =? limit)) (seq 0 32) = true -> u32 (s.1.1 + 32 * d) = limit ->
  loop (xtea_body f limit) (XTEA_ROUNDS + 1) s = rounds f 32 s.
Proof.
  intros Hu Hs Hno Hlim.
  assert (H : forall n, (n <= 32)%nat -> exists t, steps (xtea_body f limit) n s = Some t /\ rounds f n s = Some t /\ words t /\
    t.1.1 = u32 (s.1.1 + Z.of_nat n * d)).
  { induction n as [|n IH]; intros Hn.
    { exists s. split_and!; try done; try apply Hs. rewrite Z.add_0_r. symmetry. apply u32_small, Hs. }
    destruct IH as (t & E & Er & Hw & Hsum); [lia|]. destruct (Hu t Hw) as (t' & Ef & Hw' & _ & Hsum').
    rewrite forallb_forall in Hno. specialize (Hno n). rewrite <-Hsum in Hno.
    exists t'. split; [|split; [|split; [done|]]].
    - replace (S n) with (n + 1)%nat by lia. rewrite steps_add, E. cbn [mbind option_bind steps]. unfold xtea_body.
      rewrite Hno by (apply in_seq; lia). by rewrite Ef.
    - by rewrite rounds_end, Er.
    - rewrite Hsum', Hsum, u32_add_idemp. f_equal. lia. }
  destruct (H 32%nat) as (t & E & Er & Hw & Hsum); [lia|]. rewrite Er.
  apply (loop_steps _ 32 _ s t); [done| |done]. unfold xtea_body. rewrite Hsum, (Hlim : u32 (_ + Z.of_nat 32 * d) = limit).
  by rewrite Z.eqb_refl.
Qed.

Lemma get_block' y z : word y -> word z -> get_le32 (block y z) 0 = Some y /\ get_le32 (block y z) 1 = Some z.
Proof. intros Hy Hz. destruct (get_block y z [] Hy Hz) as [H0 H1]. by rewrite app_nil_r in H0, H1. Qed.

Lemma put_block' d y z : zlen d = 8 -> (p ← put_le32 d 0 y; put_le32 p 1 z) = Some (block y z).
Proof. intros Hd. pose proof (put_block d y z [] Hd) as H. by rewrite !app_nil_r in H. Qed.

(** [E] encrypts a block of words by 32 rounds [f] from the sum [from]. *)
Definition by_rounds (E : list Z -> list Z -> option (list Z)) (f : round_state -> option round_state) (from : Z) : Prop :=
  forall d y z sum y' z', zlen d = 8 -> word y -> word z -> rounds f 32 (from, y, z) = Some (sum, y', z') ->
    E d (block y z) = Some (block y' z').

Definition block_bytes (s : list Z) : Prop := Forall byte s /\ zlen s = 8.

(** What [E] does to a block, [D] undoes. *)
Definition inverts (E D : list Z -> list Z -> option (list Z)) : Prop :=
  forall d d' s, block_bytes s -> zlen d = 8 -> zlen d' = 8 ->
    exists c, E d s = Some c /\ block_bytes c /\ D d' c = Some s.

Lemma block_is_bytes y z : block_bytes (block y z).
Proof. split; [|done]. repeat constructor; apply u8_range. Qed.

Lemma inverts_by_rounds E D f g d from to : undone d f g -> by_rounds E f from -> by_rounds D g to ->
  word from -> u32 (from + 32 * d) = to -> inverts E D.
Proof.
  intros Hu HE HD Hfrom Hto dst dst' s [Hb Hs] Hd Hd'. destruct (block_of_bytes s Hb Hs) as (y & z & Hy & Hz & ->).
  destruct (rounds_undone d f g 32 (from, y, z) Hu) as ([[sum y'] z'] & Hf & (_ & Hy' & Hz') & Hg & Hsum); [done|].
  cbn [fst snd] in *. exists (block y' z'). split; [by eapply HE|]. split; [apply block_is_bytes|].
  eapply HD; [done..|]. rewrite <-Hto. change 32 with (Z.of_nat 32). rewrite <-Hsum. exact Hg.
Qed.

Lemma ctx_get (k0 k1 k2 k3 : Z) : let ctx := [k0; k1; k2; k3] in
  ctx.[0] = Some k0 /\ ctx.[1] = Some k1 /\ ctx.[2] = Some k2 /\ ctx.[3] = Some k3.
Proof. done. Qed.

Lemma tea_by_rounds k0 k1 k2 k3 :
  by_rounds (tea_encrypt [k0; k1; k2; k3]) (fun s => Some (tea_encrypt_round k0 k1 k2 k3 s)) 0 /\
  by_rounds (tea_decrypt [k0; k1; k2; k3]) (fun s => Some (tea_decrypt_round k0 k1 k2 k3 s)) (shl32 TEA_DELTA 5).
Proof.
  destruct (ctx_get k0 k1 k2 k3) as (K0 & K1 & K2 & K3).
  split; intros d y z sum y' z' Hd Hy Hz Hr; destruct (get_block' y z Hy Hz) as [E0 E1]; unfold tea_encrypt, tea_decrypt;
    rewrite E0, bind_Some, E1, bind_Some, K0, bind_Some, K1, bind_Some, K2, bind_Some, K3, bind_Some, tea_loop_ok, Hr, bind_Some;
    by apply put_block'.
Qed.

Lemma xtea_by_rounds mix ctx : zlen ctx = 4 ->
  by_rounds (xtea_encrypt_with mix ctx) (xtea_encrypt_round mix ctx) 0 /\
  by_rounds (xtea_decrypt_with mix ctx) (xtea_decrypt_round mix ctx) (u32 (XTEA_DELTA * XTEA_ROUNDS)).
Proof.
  intros Hctx. destruct (xtea_round_undone mix ctx Hctx) as [Hf Hg].
  split; intros d y z sum y' z' Hd Hy Hz Hr; destruct (get_block' y z Hy Hz) as [E0 E1];
    unfold xtea_encrypt_with, xtea_decrypt_with; cbv zeta; rewrite E0, bind_Some, E1, bind_Some.
  - rewrite (xtea_loop_ok _ _ _ _ _ Hf) by (done || reflexivity). rewrite Hr, bind_Some. by apply put_block'.
  - rewrite (xtea_loop_ok _ _ _ _ _ Hg) by (done || reflexivity). rewrite Hr, bind_Some. by apply put_block'.
Qed.

Lemma setkey_ok key : 16 <= zlen key -> exists k0 k1 k2 k3, tea_setkey key = Some [k0; k1; k2; k3].
Proof.
  intros Hk. assert (H : forall i, 0 <= i < 4 -> exists k, get_le32 key i = Some k).
  { intros i Hi. unfold get_le32.
    destruct (arr_get_is_Some key (4 * i)) as [b0 ->]; [lia|]. destruct (arr_get_is_Some key (4 * i + 1)) as [b1 ->]; [lia|].
    destruct (arr_get_is_Some key (4 * i + 2)) as [b2 ->]; [lia|]. destruct (arr_get_is_Some key (4 * i + 3)) as [b3 ->]; [lia|].
    by eexists. }
  destruct (H 0) as [k0 E0]; [lia|]. destruct (H 1) as [k1 E1]; [lia|]. destruct (H 2) as [k2 E2]; [lia|].
  destruct (H 3) as [k3 E3]; [lia|]. exists k0, k1, k2, k3. unfold tea_setkey. by rewrite E0, E1, E2, E3.
Qed.

(** C36: for every key of 16 bytes and every block of 8 bytes, decryption inverts
    encryption and encryption inverts decryption, for TEA, XTEA and XETA;
    the loops that compare [sum] with a limit end after 32 rounds. *)
Theorem tea_round_trips key : 16 <= zlen key -> exists ctx, tea_setkey key = Some ctx /\ xtea_setkey key = Some ctx /\
  inverts (tea_encrypt ctx) (tea_decrypt ctx) /\ inverts (tea_decrypt ctx) (tea_encrypt ctx) /\
  inverts (xtea_encrypt ctx) (xtea_decrypt ctx) /\ inverts (xtea_decrypt ctx) (xtea_encrypt ctx) /\
  inverts (xeta_encrypt ctx) (xeta_decrypt ctx) /\ inverts (xeta_decrypt ctx) (xeta_encrypt ctx).
Proof.
  intros Hk. destruct (setkey_ok key Hk) as (k0 & k1 & k2 & k3 & E). exists [k0; k1; k2; k3]. split; [done|]. split; [done|].
  destruct (tea_round_undone k0 k1 k2 k3) as [Hf Hg]. destruct (tea_by_rounds k0 k1 k2 k3) as [HE HD].
  assert (Hx : forall mix, inverts (xtea_encrypt_with mix [k0; k1; k2; k3]) (xtea_decrypt_with mix [k0; k1; k2; k3]) /\
    inverts (xtea_decrypt_with mix [k0; k1; k2; k3]) (xtea_encrypt_with mix [k0; k1; k2; k3])).
  { intros mix. destruct (xtea_round_undone mix [k0; k1; k2; k3] eq_refl) as [Xf Xg].
    destruct (xtea_by_rounds mix [k0; k1; k2; k3] eq_refl) as [XE XD].
    split; [eapply (inverts_by_rounds _ _ _ _ _ _ _ Xf XE XD)|eapply (inverts_by_rounds _ _ _ _ _ _ _ Xg XD XE)];
      first [reflexivity|apply sum_word|unfold word; lia]. }
  destruct (Hx xtea_mix) as [A1 A2]. destruct (Hx xeta_mix) as [B1 B2].
  split; [|split; [|split; [exact A1|split; [exact A2|split; [exact B1|exact B2]]]]].
  - eapply (inverts_by_rounds _ _ _ _ _ _ _ Hf HE HD); first [reflexivity|unfold word; lia].
  - eapply (inverts_by_rounds _ _ _ _ _ _ _ Hg HD HE); first [reflexivity|apply sum_word].
Qed.

Lemma tea_round_trips_witness : exists ctx, tea_setkey (replicate 16 7) = Some ctx /\ inverts (tea_encrypt ctx) (tea_decrypt ctx).
Proof.
  destruct (tea_round_trips (replicate 16 7)) as (ctx & H & _ & Hi & _); [vm_compute; discriminate|].
  exists ctx. split; [exact H|exact Hi].
Defined.

(** ** Proofs: ARC4 *)

(** A table that holds every byte once. *)
Definition arc4_table (S : list Z) : Prop := S ≡ₚ Z.of_nat <$> seq 0 256.

Definition arc4_wf (ctx : arc4_ctx) : Prop := arc4_table (S_ ctx) /\ byte (x_ ctx) /\ byte (y_ ctx).

Lemma land_byte x : byte (Z.land x 0xff).
Proof. change 0xff with (2 ^ 8 - 1). rewrite land_ones_mod by lia. by apply Z.mod_pos_bound. Qed.

Lemma table_len S : arc4_table S -> zlen S = 256.
Proof. intros H. unfold zlen. by rewrite (Permutation_length H). Qed.

Lemma table_byte S i a : arc4_table S -> S.[i] = Some a -> byte a.
Proof.
  unfold arc4_table. intros H [_ Ha]%arr_get_Some. apply list_elem_of_lookup_2 in Ha. rewrite H in Ha.
  apply list_elem_of_fmap in Ha as (k & -> & Hk). apply elem_of_seq in Hk. unfold byte. lia.
Qed.

(** Exchanging two entries, which may be the same. *)
Lemma table_swap S i j a b : arc4_table S -> S.[i] = Some a -> S.[j] = Some b ->
  exists S', (S1 ← S.[i <- b]; S1.[j <- a]) = Some S' /\ arc4_table S'.
Proof.
  intros HS Hi Hj. pose proof (arr_get_range _ _ _ Hi). pose proof (arr_get_range _ _ _ Hj).
  rewrite arr_set_Some by done. rewrite bind_Some. rewrite arr_set_Some by (rewrite zlen_insert; done).
  eexists. split; [done|]. unfold arc4_table in *. rewrite <-HS. apply arr_get_Some in Hi as [_ Hi], Hj as [_ Hj].
  destruct (decide (Z.to_nat i = Z.to_nat j)) as [E|E].
  - rewrite E in *. rewrite list_insert_insert_eq, list_insert_id by done. done.
  - apply (Permutation_cons_inv (a := b)).
    etrans; [apply insert_cons_Permutation; by rewrite list_lookup_insert_ne|]. by apply insert_cons_Permutation.
Qed.

Lemma arc4_init_ok S : zlen S = 256 -> loop arc4_init_body 257 (0, S) = Some (Z.of_nat <$> seq 0 256).
Proof.
  intros HS. destruct (loop_total arc4_init_body
    (fun '(i, T) => 0 <= i <= 256 /\ zlen T = 256 /\ forall k, 0 <= k < i -> T.[k] = Some k)
    (fun '(i, T) => 256 - i) (fun T => zlen T = 256 /\ forall k, 0 <= k < 256 -> T.[k] = Some k))
    with (bound := 257) (s := (0, S)) as (T & -> & HT & Hk).
  - intros [i T] (Hi & HT & Hk). split; [lia|]. unfold arc4_init_body. bcase.
    + rewrite arr_set_Some by lia. rewrite bind_Some, u8_small by lia. split; [|lia]. split; [lia|].
      split; [by rewrite zlen_insert|]. intros k Hk'. rewrite arr_get_insert by lia. case_decide; [by subst|]. apply Hk. lia.
    + split; [done|]. intros k Hk'. apply Hk. lia.
  - split; [lia|]. split; [done|]. intros k Hk. lia.
  - lia.
  - f_equal. apply arr_ext; [done|]. intros k Hk'. rewrite Hk by lia.
    rewrite arr_get_nat, list_lookup_fmap, lookup_seq_lt by lia. cbn. f_equal. lia.
Qed.

Lemma arc4_key_ok in_key key_len S : arc4_table S -> 1 <= key_len <= zlen in_key ->
  exists T, loop (arc4_key_body in_key key_len) 257 (0, 0, 0, S) = Some T /\ arc4_table T.
Proof.
  intros HS Hl. apply (loop_total (arc4_key_body in_key key_len)
    (fun '(i, j, k, T) => 0 <= i <= 256 /\ 0 <= k < key_len /\ arc4_table T) (fun '(i, j, k, T) => 256 - i)).
  - intros [[[i j] k] T] (Hi & Hk & HT). split; [lia|]. unfold arc4_key_body. bcase; [|done].
    pose proof (table_len T HT) as HTl. destruct (arr_get_is_Some T i) as [a Ha]; [lia|]. rewrite Ha, bind_Some.
    destruct (arr_get_is_Some in_key k) as [c ->]; [lia|]. rewrite bind_Some.
    pose proof (land_byte (j + c + a)) as Hj. unfold byte in Hj. destruct (arr_get_is_Some T (Z.land (j + c + a) 0xff)) as [b Hb]; [lia|].
    rewrite Hb, bind_Some. destruct (table_swap T i _ a b HT Ha Hb) as (T' & E & HT').
    destruct (T.[i <- b]) as [T1|]; [|done]. cbn [mbind option_bind] in E |- *. rewrite E, bind_Some.
    split; [|lia]. split; [lia|]. split; [bcase; lia|done].
  - split; [lia|]. split; [lia|done].
  - lia.
Qed.

Lemma arc4_crypt_ok ctx : arc4_wf ctx -> exists ctx' k, arc4_wf ctx' /\ byte k /\
  forall c, arc4_crypt ctx c = Some (ctx', Z.lxor c k).
Proof.
  destruct ctx as [S x y]. intros (HS & Hx & Hy). cbn [S_ x_ y_] in *. unfold byte in Hx, Hy. pose proof (table_len S HS) as HSl.
  destruct (arr_get_is_Some S x) as [a Ha]; [lia|]. pose proof (land_byte (y + a)) as Hy'. unfold byte in Hy'.
  destruct (arr_get_is_Some S (Z.land (y + a) 0xff)) as [b Hb]; [lia|].
  destruct (table_swap S x _ a b HS Ha Hb) as (S' & E & HS'). pose proof (land_byte (a + b)) as Hab. unfold byte in Hab.
  pose proof (table_len S' HS'). destruct (arr_get_is_Some S' (Z.land (a + b) 0xff)) as [k Hk]; [lia|].
  exists {| S_ := S'; x_ := Z.land (x + 1) 0xff; y_ := Z.land (y + a) 0xff |}, k.
  split; [split; [done|split; apply land_byte]|]. split; [by eapply table_byte|]. intros c. unfold arc4_crypt. cbn [S_ x_ y_].
  rewrite Ha, bind_Some, Hb, bind_Some. destruct (S.[x <- b]) as [S1|]; [|done]. cbn [mbind option_bind] in E |- *.
  rewrite E, bind_Some, Hk. done.
Qed.

Lemma arc4_stream_ok msg : forall ctx, arc4_wf ctx ->
  exists ctx' r, arc4_stream ctx msg = Some (ctx', r) /\ arc4_wf ctx' /\ arc4_stream ctx r = Some (ctx', msg).
Proof.
  induction msg as [|c msg IH]; intros ctx Hctx; [by exists ctx, []|].
  destruct (arc4_crypt_ok ctx Hctx) as (ctx1 & k & H1 & _ & Hc). destruct (IH ctx1 H1) as (ctx2 & r & E & H2 & E').
  exists ctx2, (Z.lxor c k :: r). cbn [arc4_stream]. rewrite !Hc, !bind_Some, E, E', !bind_Some.
  by rewrite Z.lxor_assoc, Z.lxor_nilpotent, Z.lxor_0_r.
Qed.

(** the key schedule of ARC4 makes the table a permutation of the 256
    bytes, for every key and whatever was in the context's memory; every byte that is enciphered keeps it one and keeps
    the indices in the table; and the same key deciphers what it enciphered. *)
Theorem arc4_invariant_round_trip mem key key_len msg : zlen mem = 256 -> 1 <= key_len <= zlen key ->
  exists ctx ctx' r, arc4_set_key mem key key_len = Some ctx /\ arc4_wf ctx /\
    arc4_stream ctx msg = Some (ctx', r) /\ arc4_wf ctx' /\ arc4_stream ctx r = Some (ctx', msg).
Proof.
  intros Hm Hk. unfold arc4_set_key. rewrite arc4_init_ok, bind_Some by done.
  destruct (arc4_key_ok key key_len (Z.of_nat <$> seq 0 256)) as (T & -> & HT); [apply Permutation_refl|done|]. rewrite bind_Some.
  assert (Hw : arc4_wf {| S_ := T; x_ := 1; y_ := 0 |}) by (split; [done|]; unfold byte; cbn [x_ y_]; lia).
  destruct (arc4_stream_ok msg _ Hw) as (ctx' & r & H). by exists {| S_ := T; x_ := 1; y_ := 0 |}, ctx', r.
Qed.

Lemma arc4_invariant_round_trip_witness : exists ctx ctx' r,
  arc4_set_key (replicate 256 0) [1; 2; 3] 3 = Some ctx /\
  arc4_stream ctx [104; 105] = Some (ctx', r) /\ arc4_stream ctx r = Some (ctx', [104; 105]).
Proof.
  destruct (arc4_invariant_round_trip (replicate 256 0) [1; 2; 3] 3 [104; 105]) as (ctx & ctx' & r & H1 & _ & H2 & _ & H3);
    [reflexivity|change (1 <= 3 <= 3); lia|].
  exists ctx, ctx', r. split; [exact H1|]. split; [exact H2|exact H3].
Defined.
