(* ===== verification/Semaphore.v ===== *)
(** * Counting semaphores: kernel/semaphore.c

    A semaphore is its count and the list of the tasks that wait for it, in
    the order in which they came.  Every function runs with the semaphore's
    spinlock held except while a task sleeps in schedule_timeout(), so the atomic steps
    are: a call up to its return or its sleep, and a sleeper from its wake-up
    to its return or its next sleep.  These are the functions of the first part;
    the step relation of the second part interleaves them, for any number of tasks.

    The theorems are invariants of every reachable state, by induction on the steps,
    and a bound on how long a task can wait. *)

From S2P Require Import Prelude.
From stdpp Require Import list.
#[local] Open Scope Z_scope.

(** ** The functions *)

Definition TASK_INTERRUPTIBLE : Z := 1.
Definition TASK_UNINTERRUPTIBLE : Z := 2.
Definition TASK_WAKEKILL : Z := 128.
Definition TASK_KILLABLE : Z := Z.lor TASK_WAKEKILL TASK_UNINTERRUPTIBLE.
Definition MAX_SCHEDULE_TIMEOUT : Z := 2 ^ 31 - 1.

(** The signals of a task: whether one is pending, and a fatal one. *)
Record signals := { signal_pending : bool; fatal_signal_pending : bool }.

Definition signal_pending_state (state : Z) (p : signals) : bool :=
  if negb (truth (Z.land state (Z.lor TASK_INTERRUPTIBLE TASK_WAKEKILL))) then false
  else if negb (signal_pending p) then false
  else truth (Z.land state TASK_INTERRUPTIBLE) || fatal_signal_pending p.

(** Tasks are numbered; a waiter is on the stack of its task, so that the
    list holds the tasks. *)
Record semaphore := { count : Z; wait_list : list Z }.

Definition sema_init (val : Z) : semaphore := {| count := u32 val; wait_list := [] |}.

Definition list_add_tail (sem : semaphore) (task : Z) : semaphore :=
  {| count := count sem; wait_list := wait_list sem ++ [task] |}.
Definition list_del (sem : semaphore) (task : Z) : semaphore :=
  {| count := count sem; wait_list := filter (fun t => t <> task) (wait_list sem) |}.

(** How an atomic step of a down function ends: with a return value, or asleep
    with the sleep's state and timeout. *)
Inductive outcome :=
| Returned (result : Z)
| Asleep (state timeout : Z).

(** The head of the loop of __down_common(), up to the sleep. *)
Definition down_wait (sem : semaphore) (task : Z) (sig : signals) (state timeout : Z) : semaphore * outcome :=
  if signal_pending_state state sig then (list_del sem task, Returned (- EINTR))
  else if timeout <=? 0 then (list_del sem task, Returned (- ETIME))
  else (sem, Asleep state timeout).

Definition __down_common (sem : semaphore) (task : Z) (sig : signals) (state timeout : Z) : semaphore * outcome :=
  down_wait (list_add_tail sem task) task sig state timeout.

(** The rest of the loop: the sleep has returned the time left. *)
Definition down_resume (sem : semaphore) (task : Z) (sig : signals) (state timeout : Z) (up : bool) : semaphore * outcome :=
  if up then (sem, Returned 0) else down_wait sem task sig state timeout.

Definition __down sem task sig := __down_common sem task sig TASK_UNINTERRUPTIBLE MAX_SCHEDULE_TIMEOUT.
Definition __down_interruptible sem task sig := __down_common sem task sig TASK_INTERRUPTIBLE MAX_SCHEDULE_TIMEOUT.
Definition __down_killable sem task sig := __down_common sem task sig TASK_KILLABLE MAX_SCHEDULE_TIMEOUT.
Definition __down_timeout sem task sig jiffies := __down_common sem task sig TASK_UNINTERRUPTIBLE jiffies.

Definition dec_count (sem : semaphore) : semaphore := {| count := u32 (count sem - 1); wait_list := wait_list sem |}.

Definition down (sem : semaphore) (task : Z) (sig : signals) : semaphore * outcome :=
  if 0 <? count sem then (dec_count sem, Returned 0) else __down sem task sig.
Definition down_interruptible (sem : semaphore) (task : Z) (sig : signals) : semaphore * outcome :=
  if 0 <? count sem then (dec_count sem, Returned 0) else __down_interruptible sem task sig.
Definition down_killable (sem : semaphore) (task : Z) (sig : signals) : semaphore * outcome :=
  if 0 <? count sem then (dec_count sem, Returned 0) else __down_killable sem task sig.
Definition down_timeout (sem : semaphore) (task : Z) (sig : signals) (jiffies : Z) : semaphore * outcome :=
  if 0 <? count sem then (dec_count sem, Returned 0) else __down_timeout sem task sig jiffies.

Definition down_trylock (sem : semaphore) : semaphore * Z :=
  let c := s32 (count sem - 1) in
  (if 0 <=? c then {| count := u32 c; wait_list := wait_list sem |} else sem, b2z (c <? 0)).

(** The waiter that is woken: its [up] is set. *)
Definition __up (sem : semaphore) : semaphore * option Z :=
  match wait_list sem with
  | task :: l => ({| count := count sem; wait_list := l |}, Some task)
  | [] => (sem, None)
  end.

Definition up (sem : semaphore) : semaphore * option Z :=
  match wait_list sem with
  | [] => ({| count := u32 (count sem + 1); wait_list := [] |}, None)
  | _ => __up sem
  end.

(** ** Interleaving *)

(** A task runs, or sleeps in __down_common(), where [woken] is its waiter's [up]. *)
Inductive task_state :=
| Running
| Sleeping (state timeout : Z) (woken : bool).

(** The system, and two counters that only the statements use: how often up()
    was called, and how often a down function has returned 0. *)
Record system := { sem : semaphore; tasks : Z -> task_state; ups : Z; acquired : Z }.

Definition set_task (f : Z -> task_state) (t : Z) (s : task_state) : Z -> task_state :=
  fun u => if u =? t then s else f u.

Definition initial (val : Z) : system :=
  {| sem := sema_init val; tasks := fun _ => Running; ups := 0; acquired := 0 |}.

(** The calls that may sleep. *)
Inductive down_call :=
| Down | DownInterruptible | DownKillable | DownTimeout (jiffies : Z).

Definition call_down (c : down_call) : semaphore -> Z -> signals -> semaphore * outcome :=
  match c with
  | Down => down
  | DownInterruptible => down_interruptible
  | DownKillable => down_killable
  | DownTimeout jiffies => fun s t sig => down_timeout s t sig jiffies
  end.

(** The system after a task's atomic step. *)
Definition finish (s : system) (t : Z) (r : semaphore * outcome) : system :=
  match r with
  | (sem', Returned res) =>
      {| sem := sem'; tasks := set_task (tasks s) t Running; ups := ups s;
         acquired := acquired s + b2z (res =? 0) |}
  | (sem', Asleep state timeout) =>
      {| sem := sem'; tasks := set_task (tasks s) t (Sleeping state timeout false); ups := ups s; acquired := acquired s |}
  end.

(** wake_up_process() of the waiter that up() chose. *)
Definition wake (f : Z -> task_state) (w : option Z) : Z -> task_state :=
  match w with
  | Some t => match f t with Sleeping state timeout _ => set_task f t (Sleeping state timeout true) | Running => f end
  | None => f
  end.

(** What schedule_timeout() may return: the whole time is left of an unlimited
    sleep, and part of it of any other. *)
Definition time_left (timeout r : Z) : Prop :=
  if timeout =? MAX_SCHEDULE_TIMEOUT then r = timeout else 0 <= r <= timeout.

Inductive label :=
| LDown (t : Z) | LTry (t : Z) | LUp | LWake (t : Z).

#[export] Instance label_eq_dec : EqDecision label.
Proof. solve_decision. Defined.

(** Signals and the time that sleeps take are arbitrary; up() may be called by
    any task and by interrupt handlers. *)
Inductive sem_step : system -> label -> system -> Prop :=
| Step_down s t c sig : tasks s t = Running ->
    sem_step s (LDown t) (finish s t (call_down c (sem s) t sig))
| Step_trylock s t : tasks s t = Running ->
    sem_step s (LTry t)
      {| sem := (down_trylock (sem s)).1; tasks := tasks s; ups := ups s;
         acquired := acquired s + b2z ((down_trylock (sem s)).2 =? 0) |}
| Step_up s :
    sem_step s LUp
      {| sem := (up (sem s)).1; tasks := wake (tasks s) (up (sem s)).2; ups := ups s + 1; acquired := acquired s |}
| Step_resume s t state timeout woken r sig : tasks s t = Sleeping state timeout woken -> time_left timeout r ->
    sem_step s (LWake t) (finish s t (down_resume (sem s) t sig state r woken)).

Inductive reachable (val : Z) : system -> Prop :=
| Reach_init : reachable val (initial val)
| Reach_step s l s' : reachable val s -> sem_step s l s' -> reachable val s'.

(** ** The invariant *)

Definition asleep (f : Z -> task_state) (t : Z) (woken : bool) : Prop :=
  exists state timeout, f t = Sleeping state timeout woken.

(** The tasks [H] have been handed the semaphore by up() and have not yet
    returned from their sleep. *)
Definition handed (f : Z -> task_state) (H : list Z) : Prop := NoDup H /\ forall t, t ∈ H <-> asleep f t true.

Record inv (val : Z) (s : system) : Prop := {
  inv_count : 0 <= count (sem s);
  inv_acquired : 0 <= acquired s;
  (** nobody waits while the semaphore is free *)
  inv_busy : wait_list (sem s) <> [] -> count (sem s) = 0;
  (** exactly the sleepers that have not been woken are on the list, once *)
  inv_nodup : NoDup (wait_list (sem s));
  inv_waiting t : t ∈ wait_list (sem s) <-> asleep (tasks s) t false;
  (** every count given, by the initial value or by up(), is free, acquired or
      handed over *)
  inv_conserved : exists H, handed (tasks s) H /\ val + ups s = count (sem s) + acquired s + zlen H
}.

(** ** Proofs *)

Lemma set_task_eq f t s : set_task f t s t = s.
Proof. unfold set_task. by rewrite Z.eqb_refl. Qed.

Lemma set_task_ne f t s u : u <> t -> set_task f t s u = f u.
Proof. intros. unfold set_task. by rewrite (proj2 (Z.eqb_neq _ _)). Qed.

(** Whether a task is asleep after another, or itself, changed its state. *)
Lemma asleep_set f t x u w :
  asleep (set_task f t x) u w <-> if u =? t then exists st to, x = Sleeping st to w else asleep f u w.
Proof. unfold asleep, set_task. by destruct (u =? t). Qed.

Lemma filter_ne_id (l : list Z) t : t ∉ l -> filter (fun u => u <> t) l = l.
Proof.
  induction l as [|x l IH]; intros Ht; [done|]. rewrite not_elem_of_cons in Ht. destruct Ht as [Hx Hl].
  rewrite filter_cons_True by done. by rewrite IH.
Qed.

Lemma list_del_add sem t : t ∉ wait_list sem -> list_del (list_add_tail sem t) t = sem.
Proof.
  destruct sem as [c l]. unfold list_del, list_add_tail. cbn [count wait_list]. intros Ht.
  rewrite filter_app, filter_ne_id, filter_cons_False, filter_nil, app_nil_r by (done || tauto). done.
Qed.

(** How a call that cannot take the semaphore at once ends. *)
Lemma down_wait_cases sem t sig st to : exists sem' o, down_wait sem t sig st to = (sem', o) /\
  ((sem' = list_del sem t /\ exists r, o = Returned r /\ r <> 0) \/ (sem' = sem /\ o = Asleep st to /\ 0 < to)).
Proof.
  unfold down_wait. destruct (signal_pending_state st sig); [do 2 eexists; split; [done|]; left; eauto|].
  bcase; (do 2 eexists; split; [done|]); [left; eauto|right; done].
Qed.

(** A call: it takes the semaphore, gives up without it, or sleeps on it. *)
Lemma call_down_cases c s t sig : exists sem' o, call_down c s t sig = (sem', o) /\
  ((0 < count s /\ sem' = dec_count s /\ o = Returned 0) \/
   (count s <= 0 /\ sem' = list_del (list_add_tail s t) t /\ exists r, o = Returned r /\ r <> 0) \/
   (count s <= 0 /\ sem' = list_add_tail s t /\ exists st to, o = Asleep st to)).
Proof.
  assert (H : exists st to, call_down c s t sig =
    if 0 <? count s then (dec_count s, Returned 0) else __down_common s t sig st to).
  { destruct c; do 2 eexists; reflexivity. }
  destruct H as (st & to & ->). bcase; [do 2 eexists; split; [done|]; by left|].
  unfold __down_common. destruct (down_wait_cases (list_add_tail s t) t sig st to) as (sem' & o & -> & Hc).
  exists sem', o. split; [done|]. right. destruct Hc as [(-> & r & -> & ?)|(-> & -> & ?)]; [left|right]; eauto 10.
Qed.

Lemma handed_set f t H st : handed f H -> ~ asleep f t true -> (forall a b, st <> Sleeping a b true) ->
  handed (set_task f t st) H.
Proof.
  intros [Hnd Hin] Hrun Hst. split; [done|]. intros u. rewrite Hin, asleep_set.
  destruct (Z.eqb_spec u t) as [->|]; [|done]. split; [done|]. intros (a & b & ?). by destruct (Hst a b).
Qed.

Section Steps.
Context (val : Z) (s : system).
Hypothesis Hinv : inv val s.
Hypothesis Hbound : val + ups s < 2 ^ 31.

Lemma running_not_waiting t : tasks s t = Running -> t ∉ wait_list (sem s).
Proof using Hinv. intros Hr Hin. apply (inv_waiting _ _ Hinv) in Hin as (? & ? & E). congruence. Qed.

Lemma count_bound : 0 <= count (sem s) < 2 ^ 31.
Proof using Hinv Hbound.
  destruct (inv_conserved _ _ Hinv) as (H & _ & E). pose proof (inv_count _ _ Hinv). pose proof (inv_acquired _ _ Hinv).
  pose proof (zlen_nonneg H). lia.
Qed.

(** A running task takes a free count. *)
Lemma inv_take s' : 0 < count (sem s) -> sem s' = {| count := count (sem s) - 1; wait_list := wait_list (sem s) |} ->
  (forall t, tasks s' t = tasks s t) -> ups s' = ups s -> acquired s' = acquired s + 1 -> inv val s'.
Proof using Hinv.
  intros Hc Es Et Eu Ea. assert (Hs : forall t w, asleep (tasks s') t w <-> asleep (tasks s) t w) by (intros; unfold asleep; by rewrite Et).
  assert (Hw : wait_list (sem s) = []).
  { destruct (wait_list (sem s)) eqn:E; [done|]. rewrite (inv_busy _ _ Hinv) in Hc by by rewrite E. lia. }
  destruct Hinv as [H1 H2 H3 H4 H5 (H & [Hnd Hin] & E)]. split; rewrite ?Es, ?Eu, ?Ea; cbn [count wait_list].
  - lia.
  - lia.
  - by rewrite Hw.
  - done.
  - intros t. by rewrite Hs.
  - exists H. split; [|lia]. split; [done|]. intros t. by rewrite Hs.
Qed.

Lemma inv_same s' : sem s' = sem s -> (forall t, tasks s' t = tasks s t) -> ups s' = ups s -> acquired s' = acquired s ->
  inv val s'.
Proof using Hinv.
  intros Es Et Eu Ea. assert (Hs : forall t w, asleep (tasks s') t w <-> asleep (tasks s) t w) by (intros; unfold asleep; by rewrite Et).
  destruct Hinv as [H1 H2 H3 H4 H5 (H & [Hnd Hin] & E)]. split; rewrite ?Es, ?Eu, ?Ea; try done.
  - intros t. by rewrite Hs.
  - exists H. split; [|done]. split; [done|]. intros t. by rewrite Hs.
Qed.

Lemma set_running t : tasks s t = Running -> forall u, set_task (tasks s) t Running u = tasks s u.
Proof using. intros E u. unfold set_task. by destruct (Z.eqb_spec u t) as [->|]. Qed.

Lemma inv_down t c sig : tasks s t = Running -> inv val (finish s t (call_down c (sem s) t sig)).
Proof using Hinv Hbound.
  intros Hr. destruct (call_down_cases c (sem s) t sig) as (sem' & o & -> & Hc). pose proof count_bound as Hcb.
  destruct Hc as [(Hpos & -> & ->)|[(Hz & -> & r & -> & Hne)|(Hz & -> & st & to & ->)]]; cbn [finish].
  - apply inv_take; cbn [sem tasks ups acquired]; try done; [|by apply set_running].
    unfold dec_count. by rewrite u32_small by lia.
  - rewrite list_del_add by by apply running_not_waiting. rewrite (proj2 (Z.eqb_neq _ _)) by done.
    apply inv_same; cbn [sem tasks ups acquired b2z]; try done; [by apply set_running|lia].
  - pose proof (running_not_waiting t Hr) as Hni. destruct Hinv as [H1 H2 H3 H4 H5 (H & Hh & E)].
    split; cbn [sem tasks ups acquired count wait_list list_add_tail]; try done.
    + intros _. lia.
    + apply NoDup_app. split; [done|]. split; [|apply NoDup_singleton]. intros u Hu ->%list_elem_of_singleton. done.
    + intros u. rewrite elem_of_app, list_elem_of_singleton, H5, asleep_set.
      destruct (Z.eqb_spec u t) as [->|Hut]; [naive_solver|]. tauto.
    + exists H. split; [|done]. apply handed_set; [done| |done]. intros (? & ? & ?). congruence.
Qed.

Lemma inv_trylock : inv val {| sem := (down_trylock (sem s)).1; tasks := tasks s; ups := ups s;
         acquired := acquired s + b2z ((down_trylock (sem s)).2 =? 0) |}.
Proof using Hinv Hbound.
  pose proof count_bound. unfold down_trylock. rewrite s32_small by lia. destruct (Z.leb_spec 0 (count (sem s) - 1)).
  - rewrite (proj2 (Z.ltb_ge _ _)) by lia. apply inv_take; cbn [sem tasks ups acquired fst snd]; try done; [lia|].
    by rewrite u32_small by lia.
  - rewrite (proj2 (Z.ltb_lt _ _)) by lia. apply inv_same; cbn [sem tasks ups acquired fst snd b2z Z.eqb]; try done. lia.
Qed.

Lemma inv_up : inv val
  {| sem := (up (sem s)).1; tasks := wake (tasks s) (up (sem s)).2; ups := ups s + 1; acquired := acquired s |}.
Proof using Hinv Hbound.
  pose proof count_bound as Hcb. destruct Hinv as [H1 H2 H3 H4 H5 (H & [Hnd Hin] & E)]. unfold up, __up.
  destruct (wait_list (sem s)) as [|t l] eqn:El; cbn [fst snd wake].
  - split; cbn [sem tasks ups acquired count wait_list]; rewrite ?u32_small by lia; try done; [lia|].
    exists H. split; [done|]. lia.
  - assert (Ht : asleep (tasks s) t false) by (apply H5; left). destruct Ht as (st & to & Ht). rewrite Ht.
    apply NoDup_cons in H4 as [Htl Hl].
    split; cbn [sem tasks ups acquired count wait_list]; try done.
    + intros _. by apply H3.
    + intros u. rewrite asleep_set. destruct (Z.eqb_spec u t) as [->|Hut]; [naive_solver|].
      rewrite <-H5, elem_of_cons. naive_solver.
    + exists (t :: H). split; [|rewrite zlen_cons; lia]. split.
      * apply NoDup_cons. split; [|done]. rewrite Hin. intros (? & ? & ?). congruence.
      * intros u. rewrite elem_of_cons, asleep_set, Hin. destruct (Z.eqb_spec u t) as [->|Hut]; [naive_solver|]. tauto.
Qed.

(** A sleeper that leaves the list with an error. *)
Lemma inv_give_up t s' : asleep (tasks s) t false -> sem s' = list_del (sem s) t -> tasks s' = set_task (tasks s) t Running ->
  ups s' = ups s -> acquired s' = acquired s -> inv val s'.
Proof using Hinv.
  intros Ht Es Et Eu Ea. destruct Hinv as [H1 H2 H3 H4 H5 (H & Hh & E)].
  split; rewrite ?Es, ?Et, ?Eu, ?Ea; cbn [count wait_list list_del]; try done.
  - intros Hne. apply H3. intros E'. rewrite E' in Hne. done.
  - by apply NoDup_filter.
  - intros u. rewrite list_elem_of_filter, H5, asleep_set. destruct (Z.eqb_spec u t) as [->|]; [naive_solver|tauto].
  - exists H. split; [|done]. apply handed_set; [done| |done]. intros (? & ? & ?). destruct Ht as (? & ? & ?). congruence.
Qed.

(** A sleeper that was woken returns. *)
Lemma inv_return t s' : asleep (tasks s) t true -> sem s' = sem s -> tasks s' = set_task (tasks s) t Running ->
  ups s' = ups s -> acquired s' = acquired s + 1 -> inv val s'.
Proof using Hinv.
  intros Ht Es Et Eu Ea. destruct Hinv as [H1 H2 H3 H4 H5 (H & [Hnd Hin] & E)].
  split; rewrite ?Es, ?Et, ?Eu, ?Ea; try done; [lia| |].
  - intros u. rewrite H5, asleep_set. destruct (Z.eqb_spec u t) as [->|]; [|done].
    destruct Ht as (? & ? & Ht). unfold asleep. rewrite Ht. naive_solver.
  - apply Hin in Ht. apply list_elem_of_split in Ht as (l1 & l2 & ->). exists (l1 ++ l2).
    rewrite zlen_app, zlen_cons in E. split; [|rewrite zlen_app; lia].
    rewrite NoDup_app, NoDup_cons in Hnd. destruct Hnd as (Hn1 & Hn2 & Hn3 & Hn4). split.
    + apply NoDup_app. split; [done|]. split; [|done]. intros x Hx Hx2. apply (Hn2 x Hx). by right.
    + intros u. rewrite asleep_set, elem_of_app. destruct (Z.eqb_spec u t) as [->|]; [|rewrite <-Hin, elem_of_app, elem_of_cons; tauto].
      split; [|naive_solver]. intros [Hu|Hu]; [|done]. destruct (Hn2 t Hu). left.
Qed.

Lemma inv_sleep_on t st to st' to' s' : tasks s t = Sleeping st to false -> sem s' = sem s ->
  tasks s' = set_task (tasks s) t (Sleeping st' to' false) -> ups s' = ups s -> acquired s' = acquired s -> inv val s'.
Proof using Hinv.
  intros Ht Es Et Eu Ea. destruct Hinv as [H1 H2 H3 H4 H5 (H & Hh & E)]. split; rewrite ?Es, ?Et, ?Eu, ?Ea; try done.
  - intros u. rewrite H5, asleep_set. destruct (Z.eqb_spec u t) as [->|]; [|done]. unfold asleep. rewrite Ht. naive_solver.
  - exists H. split; [|done]. apply handed_set; [done| |done]. intros (? & ? & ?). congruence.
Qed.

Lemma inv_resume t st to w r sig : tasks s t = Sleeping st to w ->
  inv val (finish s t (down_resume (sem s) t sig st r w)).
Proof using Hinv.
  intros Ht. unfold down_resume. destruct w.
  - cbn [finish]. apply (inv_return t); try done. by exists st, to.
  - destruct (down_wait_cases (sem s) t sig st r) as (sem' & o & -> & [(-> & x & -> & Hx)|(-> & -> & Hr)]); cbn [finish].
    + apply (inv_give_up t); try done; [by exists st, to|]. cbn [acquired]. rewrite (proj2 (Z.eqb_neq _ _)) by done. cbn [b2z]. lia.
    + by eapply inv_sleep_on.
Qed.
End Steps.

Lemma inv_initial val : 0 <= val < 2 ^ 31 -> inv val (initial val).
Proof.
  intros Hv. split; cbn [initial sem sema_init tasks ups acquired count wait_list]; rewrite ?u32_small by lia; try done; try lia.
  - constructor.
  - intros t. unfold asleep. split; [by intros ?%not_elem_of_nil|naive_solver].
  - exists []. split; [|unfold zlen; cbn [length]; lia]. split; [constructor|]. intros t. unfold asleep.
    split; [by intros ?%not_elem_of_nil|naive_solver].
Qed.

Lemma ups_mono s l s' : sem_step s l s' -> ups s <= ups s'.
Proof.
  destruct 1; cbn [ups]; try lia; unfold finish; by destruct (_ : semaphore * outcome) as [? []].
Qed.

Lemma inv_step val s l s' : inv val s -> val + ups s < 2 ^ 31 -> sem_step s l s' -> inv val s'.
Proof.
  intros Hi Hb. destruct 1.
  - by apply inv_down.
  - by apply inv_trylock.
  - by apply inv_up.
  - by eapply inv_resume.
Qed.

Lemma reachable_inv val s : 0 <= val -> reachable val s -> val + ups s < 2 ^ 31 -> inv val s.
Proof.
  intros Hv. induction 1 as [|s l s' Hr IH Hs]; intros Hb.
  - apply inv_initial. cbn [ups initial] in Hb. lia.
  - pose proof (ups_mono _ _ _ Hs). eapply inv_step; [apply IH; lia|lia|done].
Qed.

(** ** Waiting *)

Inductive exec : system -> list label -> system -> Prop :=
| Exec_nil s : exec s [] s
| Exec_cons s l s' ls s'' : sem_step s l s' -> exec s' ls s'' -> exec s (l :: ls) s''.

(** The number of calls of up(). *)
Definition count_ups (ls : list label) : nat := length (filter (fun l => l = LUp) ls).

Lemma filter_ne_lookup (l : list Z) u t p : l !! p = Some t -> t <> u ->
  exists q, (q <= p)%nat /\ filter (fun x => x <> u) l !! q = Some t.
Proof.
  revert p. induction l as [|x l IH]; intros p Hp Ht; [done|]. destruct p as [|p]; cbn in Hp.
  - injection Hp as ->. exists 0%nat. rewrite filter_cons_True by done. split; [lia|done].
  - destruct (IH p Hp Ht) as (q & Hq & E). destruct (decide (x = u)) as [->|].
    + exists q. rewrite filter_cons_False by tauto. split; [lia|done].
    + exists (S q). rewrite filter_cons_True by done. split; [lia|done].
Qed.

(** Another task's call leaves a waiter's place, or moves it forward. *)
Lemma call_keeps_place c s u sig t p : wait_list s !! p = Some t -> u <> t ->
  exists q, (q <= p)%nat /\ wait_list (call_down c s u sig).1 !! q = Some t.
Proof.
  intros Hp Hu. destruct (call_down_cases c s u sig) as (sem' & o & -> & Hc). cbn [fst].
  destruct Hc as [(_ & -> & _)|[(_ & -> & _)|(_ & -> & _)]]; cbn [wait_list dec_count list_del list_add_tail].
  - by exists p.
  - apply filter_ne_lookup; [|done]. by apply lookup_app_l_Some.
  - exists p. split; [done|]. by apply lookup_app_l_Some.
Qed.

Lemma resume_keeps_place s u sig st r w t p : wait_list s !! p = Some t -> u <> t ->
  exists q, (q <= p)%nat /\ wait_list (down_resume s u sig st r w).1 !! q = Some t.
Proof.
  intros Hp Hu. unfold down_resume. destruct w; [by exists p|].
  destruct (down_wait_cases s u sig st r) as (sem' & o & -> & [(-> & _)|(-> & _)]); cbn [fst]; [|by exists p].
  by apply filter_ne_lookup.
Qed.

Lemma finish_sem s u r : sem (finish s u r) = r.1.
Proof. by destruct r as [? []]. Qed.

Lemma finish_other s u r t : t <> u -> tasks (finish s u r) t = tasks s t.
Proof. intros. destruct r as [? []]; cbn [finish tasks]; by apply set_task_ne. Qed.

(** One step of anything but the waiter itself: a call of up() moves it one place
    forward, or wakes it when it is first; nothing moves it back. *)
Lemma wait_step val s l s' t p : inv val s -> sem_step s l s' -> l <> LWake t -> wait_list (sem s) !! p = Some t ->
  match l, p with
  | LUp, O => asleep (tasks s') t true
  | LUp, S q => wait_list (sem s') !! q = Some t
  | _, _ => exists q, (q <= p)%nat /\ wait_list (sem s') !! q = Some t
  end.
Proof.
  intros Hi Hs Hl Hp. assert (Ht : asleep (tasks s) t false) by (apply (inv_waiting _ _ Hi); by eapply list_elem_of_lookup_2).
  destruct Ht as (st & to & Ht). destruct Hs as [s u c sig Hu|s u Hu|s|s u st' to' w r sig Hu Hr].
  - rewrite finish_sem. apply call_keeps_place; [done|]. intros ->. congruence.
  - cbn [sem]. exists p. split; [done|]. unfold down_trylock. by destruct (0 <=? _).
  - cbn [sem tasks]. unfold up, __up. destruct (wait_list (sem s)) as [|x l]; [done|]. cbn [fst snd wait_list].
    destruct p as [|p]; cbn in Hp; [|done]. injection Hp as ->. cbn [wake]. rewrite Ht. exists st, to. by rewrite set_task_eq.
  - rewrite finish_sem. apply resume_keeps_place; [done|]. intros ->. done.
Qed.

Lemma woken_step val s l s' t : inv val s -> sem_step s l s' -> l <> LWake t -> asleep (tasks s) t true -> asleep (tasks s') t true.
Proof.
  intros Hi Hs Hl (st & to & Ht). destruct Hs as [s u c sig Hu|s u Hu|s|s u st' to' w r sig Hu Hr].
  - exists st, to. rewrite finish_other; [done|]. intros ->. congruence.
  - by exists st, to.
  - cbn [tasks]. destruct ((up (sem s)).2) as [x|]; cbn [wake]; [|by exists st, to].
    destruct (tasks s x) as [|a b c] eqn:Ex; [by exists st, to|]. destruct (decide (t = x)) as [->|].
    + exists a, b. by rewrite set_task_eq.
    + exists st, to. by rewrite set_task_ne.
  - exists st, to. rewrite finish_other; [done|]. by intros ->.
Qed.

Lemma exec_reachable val s ls s' : reachable val s -> exec s ls s' -> reachable val s'.
Proof. intros Hr He. induction He; [done|]. apply IHHe. by eapply Reach_step. Qed.

Lemma ups_exec s ls s' : exec s ls s' -> ups s <= ups s'.
Proof. induction 1 as [|s l s' ls s'' Hs _ IH]; [lia|]. pose proof (ups_mono _ _ _ Hs). lia. Qed.

Lemma woken_exec val s ls s' t : 0 <= val -> reachable val s -> exec s ls s' -> val + ups s' < 2 ^ 31 ->
  Forall (fun l => l <> LWake t) ls -> asleep (tasks s) t true -> asleep (tasks s') t true.
Proof.
  intros Hv Hr He Hb. induction He as [|s l s' ls s'' Hs He IH]; [done|]. intros [Hl Hls]%Forall_cons Ha.
  pose proof (ups_exec _ _ _ He). pose proof (ups_mono _ _ _ Hs).
  apply IH; [by eapply Reach_step|done|done|]. eapply woken_step; [apply reachable_inv; [done|exact Hr|lia]|done..].
Qed.

(** up() hands the semaphore to the waiter [t]. *)
Definition hands (s1 : system) (l : label) (s2 : system) (t : Z) : Prop := l = LUp /\ asleep (tasks s1) t false /\ asleep (tasks s2) t true.

(** The waiter [t] returns without it: it runs, and a signal is pending or its time is over. *)
Definition gives_up (s1 : system) (l : label) (s2 : system) (t : Z) : Prop :=
  exists state timeout r sig, l = LWake t /\ tasks s1 t = Sleeping state timeout false /\ s2 = finish s1 t (down_resume (sem s1) t sig state r false) /\
    (signal_pending_state state sig = true \/ r <= 0) /\ tasks s2 t = Running /\ acquired s2 = acquired s1.

(** A sleep that neither a signal nor the time ends. *)
Definition unlimited : task_state := Sleeping TASK_UNINTERRUPTIBLE MAX_SCHEDULE_TIMEOUT false.

(** The waiter itself runs without having been handed the semaphore: it gives up, or goes on waiting at its place. *)
Lemma own_step val s s' t p : inv val s -> sem_step s (LWake t) s' -> wait_list (sem s) !! p = Some t ->
  gives_up s (LWake t) s' t /\ tasks s t <> unlimited \/ wait_list (sem s') !! p = Some t /\ (tasks s t = unlimited -> tasks s' t = unlimited).
Proof.
  intros Hi Hs Hp. assert (Ht : asleep (tasks s) t false) by (apply (inv_waiting _ _ Hi); by eapply list_elem_of_lookup_2).
  destruct Ht as (st & to & Ht). inversion Hs as [| | |? ? st' to' w r sig Hu Hr]; subst. rewrite Ht in Hu. injection Hu as <- <- <-.
  cbn [down_resume]. unfold down_wait. destruct (signal_pending_state st sig) eqn:Esig; [|destruct (Z.leb_spec r 0)].
  - left. split.
    + exists st, to, r, sig. unfold down_resume, down_wait. rewrite Esig. cbn [finish tasks acquired]. rewrite set_task_eq. do 3 (split; [done|]). split; [by left|]. split; [done|]. apply Z.add_0_r.
    + rewrite Ht. unfold unlimited. intros [= -> _]. done.
  - left. split.
    + exists st, to, r, sig. unfold down_resume, down_wait. rewrite Esig, (proj2 (Z.leb_le r 0)) by lia. cbn [finish tasks acquired]. rewrite set_task_eq. do 3 (split; [done|]).
      split; [by right|]. split; [done|]. apply Z.add_0_r.
    + rewrite Ht. unfold unlimited. intros [= _ ->]. unfold time_left in Hr. rewrite Z.eqb_refl in Hr. unfold MAX_SCHEDULE_TIMEOUT in Hr. lia.
  - right. cbn [finish sem tasks]. split; [done|]. rewrite Ht, set_task_eq. unfold unlimited. intros [= -> ->]. unfold time_left in Hr. rewrite Z.eqb_refl in Hr. by rewrite Hr.
Qed.

(** The steps of others do not change a sleep, other than by handing over the semaphore. *)
Lemma other_step s l s' t : sem_step s l s' -> l <> LWake t -> asleep (tasks s) t false -> asleep (tasks s') t true \/ tasks s' t = tasks s t.
Proof.
  intros Hs Hl (st & to & Ht). destruct Hs as [s u c sig Hu|s u Hu|s|s u st' to' w r sig Hu Hr].
  - right. apply finish_other. intros ->. congruence.
  - by right.
  - cbn [tasks]. destruct ((up (sem s)).2) as [x|]; cbn [wake]; [|by right].
    destruct (tasks s x) as [|a b c] eqn:Ex; [by right|]. destruct (decide (t = x)) as [->|]; [left; exists a, b; by rewrite set_task_eq|right; by apply set_task_ne].
  - right. apply finish_other. by intros ->.
Qed.

Lemma wait_exec val s ls s' t p : 0 <= val -> reachable val s -> exec s ls s' -> val + ups s' < 2 ^ 31 ->
  wait_list (sem s) !! p = Some t -> (p < count_ups ls)%nat ->
  exists ls1 l ls2 s1 s2, ls = ls1 ++ l :: ls2 /\ exec s ls1 s1 /\ sem_step s1 l s2 /\ exec s2 ls2 s' /\ (count_ups ls1 <= p)%nat /\
    (hands s1 l s2 t \/ gives_up s1 l s2 t /\ tasks s t <> unlimited).
Proof.
  intros Hv Hr He Hb. revert p. induction He as [s|s l s' ls s'' Hs He IH]; intros p Hp Hc; [cbn in Hc; lia|].
  pose proof (ups_exec _ _ _ He). pose proof (ups_mono _ _ _ Hs).
  assert (Hi : inv val s) by (apply reachable_inv; [done|done|lia]). assert (Hr' : reachable val s') by by eapply Reach_step.
  assert (Ht : asleep (tasks s) t false) by (apply (inv_waiting _ _ Hi); by eapply list_elem_of_lookup_2).
  assert (Hnow : hands s l s' t \/ gives_up s l s' t /\ tasks s t <> unlimited -> exists ls1 l' ls2 s1 s2, l :: ls = ls1 ++ l' :: ls2 /\ exec s ls1 s1 /\ sem_step s1 l' s2 /\ exec s2 ls2 s'' /\
    (count_ups ls1 <= p)%nat /\ (hands s1 l' s2 t \/ gives_up s1 l' s2 t /\ tasks s t <> unlimited)).
  { intros H1. exists [], l, ls, s, s'. split; [done|]. split; [constructor|]. do 2 (split; [done|]). split; [cbn; lia|done]. }
  assert (Hlater : forall q k, wait_list (sem s') !! q = Some t -> (tasks s t = unlimited -> tasks s' t = unlimited) -> (q + k <= p)%nat -> k = count_ups [l] -> exists ls1 l' ls2 s1 s2, l :: ls = ls1 ++ l' :: ls2 /\ exec s ls1 s1 /\ sem_step s1 l' s2 /\
    exec s2 ls2 s'' /\ (count_ups ls1 <= p)%nat /\ (hands s1 l' s2 t \/ gives_up s1 l' s2 t /\ tasks s t <> unlimited)).
  { intros q k Hq Hun Hk ->. assert (Hsplit : forall k, count_ups (l :: k) = (count_ups [l] + count_ups k)%nat) by (intros k; unfold count_ups; by rewrite <- length_app, <- list.filter_app).
    rewrite Hsplit in Hc. destruct (IH Hr' Hb q Hq ltac:(lia)) as (ls1 & l' & ls2 & s1 & s2 & -> & He1 & Hs1 & He2 & Hc1 & Hr1).
    exists (l :: ls1), l', ls2, s1, s2. split; [done|]. split; [by eapply Exec_cons|]. do 2 (split; [done|]). split; [rewrite Hsplit; lia|]. destruct Hr1 as [|[H1 H2]]; [by left|right; split; [done|]]. tauto. }
  destruct (decide (l = LWake t)) as [->|Hl].
  - destruct (own_step val s s' t p Hi Hs Hp) as [H1|[Hp' Hun]]; [apply Hnow; by right|]. by apply (Hlater p 0%nat); [done|done|lia|].
  - pose proof (wait_step val s l s' t p Hi Hs Hl Hp) as Hw. pose proof (other_step s l s' t Hs Hl Ht) as Ho. destruct (decide (l = LUp)) as [->|Hup].
    + destruct p as [|p]; [apply Hnow; left; done|]. apply (Hlater p 1%nat); [done| |lia|done]. destruct Ho as [(a & b & Ha)|Ho]; [|by rewrite Ho].
      assert (Hf : asleep (tasks s') t false) by (apply (inv_waiting val s'); [apply reachable_inv; [done|done|lia]|by eapply list_elem_of_lookup_2]). destruct Hf as (? & ? & ?). congruence.
    + assert (Hq : exists q, (q <= p)%nat /\ wait_list (sem s') !! q = Some t) by by destruct l. destruct Hq as (q & Hq & Hw'). apply (Hlater q 0%nat); [done| |lia|by destruct l].
      destruct Ho as [(a & b & Ha)|Ho]; [|by rewrite Ho].
      assert (Hf : asleep (tasks s') t false) by (apply (inv_waiting val s'); [apply reachable_inv; [done|done|lia]|by eapply list_elem_of_lookup_2]). destruct Hf as (? & ? & ?). congruence.
Qed.

(** ** Properties *)

(** C12: in every state the system can reach, with any number of tasks, signals and timeouts: the counts
    given, by the initial value and by up(), are exactly those that are free,
    that were acquired and that are on their way to a woken task, so the semaphore is never acquired more often than it was
    given; no task waits while the semaphore is free; and the list holds
    exactly the sleepers that have not been woken, each once. *)
Theorem semaphore_invariant val s : 0 <= val -> reachable val s -> val + ups s < 2 ^ 31 ->
  inv val s /\ acquired s <= val + ups s /\
  (wait_list (sem s) <> [] -> exists H, handed (tasks s) H /\ val + ups s = acquired s + zlen H).
Proof.
  intros Hv Hr Hb. pose proof (reachable_inv val s Hv Hr Hb) as Hi. split; [done|].
  destruct Hi as [H1 H2 H3 H4 H5 (H & Hh & E)]. pose proof (zlen_nonneg H). split; [lia|].
  intros Hne. exists H. split; [done|]. rewrite (H3 Hne) in E. lia.
Qed.

Definition no_signals : signals := {| signal_pending := false; fatal_signal_pending := false |}.

(** Task 1 takes a semaphore of 1, task 2 waits for it. *)
Definition contended : system :=
  finish (finish (initial 1) 1 (call_down Down (sem (initial 1)) 1 no_signals)) 2
    (call_down Down (sem (finish (initial 1) 1 (call_down Down (sem (initial 1)) 1 no_signals))) 2 no_signals).

Lemma contended_reachable : reachable 1 contended.
Proof.
  eapply Reach_step; [eapply Reach_step; [apply Reach_init|]|].
  - by apply Step_down.
  - by apply Step_down.
Qed.

Lemma semaphore_invariant_witness : inv 1 contended /\ wait_list (sem contended) = [2] /\ acquired contended = 1.
Proof.
  split; [apply (semaphore_invariant 1 contended); [lia|exact contended_reachable|reflexivity]|].
  split; reflexivity.
Defined.

(** C37: waiting is bounded, and in the order of the list: take any execution in which up() is called more than [p] times, and a task at place [p] of the list, which may run
    any number of times in between.  Before the [p + 2]nd call of up() it is handed the semaphore, or it gives up because a signal is pending or its time is over, which a task in down()
    never does.  Once it has been handed the semaphore it keeps it whatever the others do, and its down function returns 0 as soon as it runs. *)
Theorem semaphore_fifo val s ls s' t p : 0 <= val -> reachable val s -> exec s ls s' -> val + ups s' < 2 ^ 31 ->
  wait_list (sem s) !! p = Some t -> (p < count_ups ls)%nat ->
  exists ls1 l ls2 s1 s2, ls = ls1 ++ l :: ls2 /\ exec s ls1 s1 /\ sem_step s1 l s2 /\ exec s2 ls2 s' /\ (count_ups ls1 <= p)%nat /\
    (hands s1 l s2 t /\ (forall ls3 s3, exec s2 ls3 s3 -> val + ups s3 < 2 ^ 31 -> Forall (fun l => l <> LWake t) ls3 ->
       exists state timeout, tasks s3 t = Sleeping state timeout true /\
         forall r sig, tasks (finish s3 t (down_resume (sem s3) t sig state r true)) t = Running /\
                       acquired (finish s3 t (down_resume (sem s3) t sig state r true)) = acquired s3 + 1) \/
     gives_up s1 l s2 t /\ tasks s t <> unlimited).
Proof.
  intros Hv Hr He Hb Hp Hc. destruct (wait_exec val s ls s' t p Hv Hr He Hb Hp Hc) as (ls1 & l & ls2 & s1 & s2 & E & He1 & Hs1 & He2 & Hc1 & H).
  exists ls1, l, ls2, s1, s2. do 5 (split; [done|]). destruct H as [H|H]; [left|by right]. split; [done|]. intros ls3 s3 He3 Hb3 Hls.
  assert (Hr2 : reachable val s2) by (eapply Reach_step; [by eapply exec_reachable|done]). destruct H as (_ & _ & Ha).
  destruct (woken_exec val s2 ls3 s3 t Hv Hr2 He3 Hb3 Hls Ha) as (st & to & E3). exists st, to. split; [done|]. intros r sig. cbn [down_resume finish tasks acquired]. by rewrite set_task_eq.
Qed.

(** Task 2 runs without having been handed the semaphore, and waits on; then up() is called. *)
Definition spurious : system := finish contended 2 (down_resume (sem contended) 2 no_signals TASK_UNINTERRUPTIBLE MAX_SCHEDULE_TIMEOUT false).
Definition released : system :=
  {| sem := (up (sem spurious)).1; tasks := wake (tasks spurious) (up (sem spurious)).2;
     ups := ups spurious + 1; acquired := acquired spurious |}.

Lemma semaphore_fifo_witness : exists ls1 l ls2 s1 s2, [LWake 2; LUp] = ls1 ++ l :: ls2 /\ exec contended ls1 s1 /\ sem_step s1 l s2 /\ exec s2 ls2 released /\ (count_ups ls1 <= 0)%nat /\
  (hands s1 l s2 2 /\ (forall ls3 s3, exec s2 ls3 s3 -> 1 + ups s3 < 2 ^ 31 -> Forall (fun l => l <> LWake 2) ls3 ->
     exists state timeout, tasks s3 2 = Sleeping state timeout true /\
       forall r sig, tasks (finish s3 2 (down_resume (sem s3) 2 sig state r true)) 2 = Running /\
                     acquired (finish s3 2 (down_resume (sem s3) 2 sig state r true)) = acquired s3 + 1) \/
   gives_up s1 l s2 2 /\ tasks contended 2 <> unlimited).
Proof.
  apply (semaphore_fifo 1 contended [LWake 2; LUp] released 2 0); [lia|exact contended_reachable| |reflexivity|reflexivity|change (0 < 1)%nat; lia].
  eapply Exec_cons; [apply (Step_resume contended 2 TASK_UNINTERRUPTIBLE MAX_SCHEDULE_TIMEOUT false MAX_SCHEDULE_TIMEOUT no_signals); reflexivity|].
  eapply Exec_cons; [apply Step_up|apply Exec_nil].
Defined.
