(* ===== verification/Rwsem.v ===== *)
(** * Readers and writers: lib/rwsem-spinlock.c

    The read/write semaphore of the configurations without atomic counters,
    which the ARM kernel uses.  Its state is the activity count (the number of
    readers, or -1 for a writer) and the queue of waiters.  Each function runs with
    the wait lock held up to its return or its sleep; a sleeper returns once the
    [task] field of its waiter has been cleared, which is when the lock was granted to it.

    The theorem is the invariant of every reachable state, for any number of tasks: readers
    exclude writers, a writer excludes everybody, and nobody waits for a lock
    that nobody holds. *)

From S2P Require Import Prelude.
From stdpp Require Import list list_numbers.
#[local] Open Scope Z_scope.

(** ** The functions *)

Definition RWSEM_WAITING_FOR_READ : Z := 1.
Definition RWSEM_WAITING_FOR_WRITE : Z := 2.

(** A waiter: its task and its flags. *)
Definition rwsem_waiter : Type := Z * Z.
Record rw_semaphore := { activity : Z; wait_list : list rwsem_waiter }.

Definition __init_rwsem : rw_semaphore := {| activity := 0; wait_list := [] |}.

(** [free] tells whether spin_trylock_irqsave() got the wait lock. *)
Definition rwsem_is_locked (free : bool) (sem : rw_semaphore) : Z :=
  if free then b2z (negb (activity sem =? 0)) else 1.

(** The loop that grants read locks to the front of the queue: the tasks woken
    and the waiters left. *)
Fixpoint wake_readers (waiters : list rwsem_waiter) : list Z * list rwsem_waiter :=
  match waiters with
  | (tsk, flags) :: rest =>
      if truth (Z.land flags RWSEM_WAITING_FOR_READ) then
        let '(woken, remaining) := wake_readers rest in (tsk :: woken, remaining)
      else ([], waiters)
  | [] => ([], [])
  end.

(** The semaphore and the tasks woken; the list must not be empty. *)
Definition __rwsem_do_wake (sem : rw_semaphore) (wakewrite : bool) : option (rw_semaphore * list Z) :=
  match wait_list sem with
  | [] => None
  | (tsk, flags) :: rest =>
      let read :=
        let '(woken, remaining) := wake_readers (wait_list sem) in
        Some ({| activity := s32 (activity sem + zlen woken); wait_list := remaining |}, woken) in
      if negb wakewrite then
        if truth (Z.land flags RWSEM_WAITING_FOR_WRITE) then Some (sem, []) else read
      else if truth (Z.land flags RWSEM_WAITING_FOR_WRITE) then
        Some ({| activity := -1; wait_list := rest |}, [tsk])
      else read
  end.

Definition __rwsem_wake_one_writer (sem : rw_semaphore) : option (rw_semaphore * list Z) :=
  match wait_list sem with
  | [] => None
  | (tsk, _) :: rest => Some ({| activity := -1; wait_list := rest |}, [tsk])
  end.

Definition list_empty (sem : rw_semaphore) : bool := match wait_list sem with [] => true | _ => false end.

Definition set_activity (sem : rw_semaphore) (a : Z) : rw_semaphore := {| activity := a; wait_list := wait_list sem |}.
Definition rw_add_tail (sem : rw_semaphore) (w : rwsem_waiter) : rw_semaphore :=
  {| activity := activity sem; wait_list := wait_list sem ++ [w] |}.

(** The semaphore and whether the lock was granted; otherwise the task sleeps
    on the queue. *)
Definition __down_read (sem : rw_semaphore) (tsk : Z) : rw_semaphore * bool :=
  if (0 <=? activity sem) && list_empty sem then (set_activity sem (s32 (activity sem + 1)), true)
  else (rw_add_tail sem (tsk, RWSEM_WAITING_FOR_READ), false).

Definition __down_read_trylock (sem : rw_semaphore) : rw_semaphore * Z :=
  if (0 <=? activity sem) && list_empty sem then (set_activity sem (s32 (activity sem + 1)), 1) else (sem, 0).

Definition __down_write_nested (sem : rw_semaphore) (tsk : Z) : rw_semaphore * bool :=
  if (activity sem =? 0) && list_empty sem then (set_activity sem (-1), true)
  else (rw_add_tail sem (tsk, RWSEM_WAITING_FOR_WRITE), false).

Definition __down_write (sem : rw_semaphore) (tsk : Z) : rw_semaphore * bool := __down_write_nested sem tsk.

Definition __down_write_trylock (sem : rw_semaphore) : rw_semaphore * Z :=
  if (activity sem =? 0) && list_empty sem then (set_activity sem (-1), 1) else (sem, 0).

Definition __up_read (sem : rw_semaphore) : option (rw_semaphore * list Z) :=
  let sem := set_activity sem (s32 (activity sem - 1)) in
  if (activity sem =? 0) && negb (list_empty sem) then __rwsem_wake_one_writer sem else Some (sem, []).

Definition __up_write (sem : rw_semaphore) : option (rw_semaphore * list Z) :=
  let sem := set_activity sem 0 in
  if negb (list_empty sem) then __rwsem_do_wake sem true else Some (sem, []).

Definition __downgrade_write (sem : rw_semaphore) : option (rw_semaphore * list Z) :=
  let sem := set_activity sem 1 in
  if negb (list_empty sem) then __rwsem_do_wake sem false else Some (sem, []).

(** ** Interleaving *)

(** What a task does with the semaphore; it reads or writes from the moment the
    lock is granted. *)
Inductive rw_task := Idle | Waiting (flags : Z) | Reading | Writing.

Record rw_system := { sem : rw_semaphore; tasks : Z -> rw_task }.

Definition rw_initial : rw_system := {| sem := __init_rwsem; tasks := fun _ => Idle |}.

Definition set_task (f : Z -> rw_task) (t : Z) (x : rw_task) : Z -> rw_task := fun u => if u =? t then x else f u.

(** The woken tasks get the lock they waited for. *)
Definition granted (x : rw_task) : rw_task :=
  match x with
  | Waiting flags => if truth (Z.land flags RWSEM_WAITING_FOR_READ) then Reading else Writing
  | _ => x
  end.
Definition wake (f : Z -> rw_task) (woken : list Z) : Z -> rw_task :=
  fun u => if bool_decide (u ∈ woken) then granted (f u) else f u.

(** The steps of [N] tasks, each of which releases only what it holds. *)
Inductive rw_step (N : Z) : rw_system -> rw_system -> Prop :=
| Step_down_read s t sem' : 0 <= t < N -> tasks s t = Idle -> __down_read (sem s) t = (sem', true) ->
    rw_step N s {| sem := sem'; tasks := set_task (tasks s) t Reading |}
| Step_wait_read s t sem' : 0 <= t < N -> tasks s t = Idle -> __down_read (sem s) t = (sem', false) ->
    rw_step N s {| sem := sem'; tasks := set_task (tasks s) t (Waiting RWSEM_WAITING_FOR_READ) |}
| Step_read_trylock s t sem' r : 0 <= t < N -> tasks s t = Idle -> __down_read_trylock (sem s) = (sem', r) ->
    rw_step N s {| sem := sem'; tasks := if truth r then set_task (tasks s) t Reading else tasks s |}
| Step_down_write s t sem' : 0 <= t < N -> tasks s t = Idle -> __down_write (sem s) t = (sem', true) ->
    rw_step N s {| sem := sem'; tasks := set_task (tasks s) t Writing |}
| Step_wait_write s t sem' : 0 <= t < N -> tasks s t = Idle -> __down_write (sem s) t = (sem', false) ->
    rw_step N s {| sem := sem'; tasks := set_task (tasks s) t (Waiting RWSEM_WAITING_FOR_WRITE) |}
| Step_write_trylock s t sem' r : 0 <= t < N -> tasks s t = Idle -> __down_write_trylock (sem s) = (sem', r) ->
    rw_step N s {| sem := sem'; tasks := if truth r then set_task (tasks s) t Writing else tasks s |}
| Step_up_read s t sem' woken : tasks s t = Reading -> __up_read (sem s) = Some (sem', woken) ->
    rw_step N s {| sem := sem'; tasks := wake (set_task (tasks s) t Idle) woken |}
| Step_up_write s t sem' woken : tasks s t = Writing -> __up_write (sem s) = Some (sem', woken) ->
    rw_step N s {| sem := sem'; tasks := wake (set_task (tasks s) t Idle) woken |}
| Step_downgrade s t sem' woken : tasks s t = Writing -> __downgrade_write (sem s) = Some (sem', woken) ->
    rw_step N s {| sem := sem'; tasks := wake (set_task (tasks s) t Reading) woken |}.

Inductive rw_reachable (N : Z) : rw_system -> Prop :=
| Rw_init : rw_reachable N rw_initial
| Rw_step s s' : rw_reachable N s -> rw_step N s s' -> rw_reachable N s'.

(** ** The invariant *)

Definition waits_write (w : rwsem_waiter) : Prop := w.2 = RWSEM_WAITING_FOR_WRITE.

(** The queue [q] holds exactly the tasks that wait, each once and with the
    flags it waits for. *)
Record queue_ok (q : list rwsem_waiter) (f : Z -> rw_task) : Prop := {
  q_distinct : NoDup q.*1;
  q_waiting : forall t flags, f t = Waiting flags <-> (t, flags) ∈ q;
  q_flags : Forall (fun w => w.2 = RWSEM_WAITING_FOR_READ \/ w.2 = RWSEM_WAITING_FOR_WRITE) q;
}.

(** The readers are the tasks of [R]. *)
Record readers_ok (N : Z) (R : list Z) (f : Z -> rw_task) : Prop := {
  r_distinct : NoDup R;
  r_range : forall t, f t <> Idle -> 0 <= t < N;
  r_reading : forall t, f t = Reading <-> t ∈ R;
}.

(** Either readers only, their number the activity count, with a writer first in
    the queue if there is one; or one writer only. *)
Definition mode_ok (s : rw_semaphore) (R : list Z) (f : Z -> rw_task) : Prop :=
  (activity s = zlen R /\ (forall t, f t <> Writing) /\ (R = [] -> wait_list s = []) /\
   (forall w q, wait_list s = w :: q -> waits_write w)) \/
  (activity s = -1 /\ R = [] /\ exists w, forall t, f t = Writing <-> t = w).

Definition rw_inv (N : Z) (s : rw_system) : Prop :=
  exists R, queue_ok (wait_list (sem s)) (tasks s) /\ readers_ok N R (tasks s) /\ mode_ok (sem s) R (tasks s).

Lemma readers_bound N R f : readers_ok N R f -> zlen R <= Z.max 0 N.
Proof.
  intros [Hd Hr Hf].
  assert (R ⊆+ seqZ 0 N) as Hsub.
  { apply NoDup_submseteq; [done|]. intros x Hx. apply elem_of_seqZ.
    assert (f x <> Idle) as Hx' by (rewrite (proj2 (Hf x) Hx); done). specialize (Hr x Hx'). lia. }
  apply submseteq_length in Hsub. rewrite length_seqZ in Hsub. unfold zlen. lia.
Qed.

Lemma wake_readers_split q woken rest : wake_readers q = (woken, rest) ->
  Forall (fun w => w.2 = RWSEM_WAITING_FOR_READ \/ w.2 = RWSEM_WAITING_FOR_WRITE) q ->
  q = ((fun t => (t, RWSEM_WAITING_FOR_READ)) <$> woken) ++ rest /\
  (forall w q', rest = w :: q' -> waits_write w).
Proof.
  revert woken rest. induction q as [|[t fl] q IH]; intros woken rest H Hf.
  - injection H as <- <-. done.
  - cbn [wake_readers] in H. apply Forall_cons in Hf as [Hfl Hf]. cbn in Hfl.
    destruct Hfl as [-> | ->].
    + change (truth _) with true in H. cbn iota in H. destruct (wake_readers q) as [w' r'] eqn:E.
      injection H as <- <-. destruct (IH w' r' eq_refl Hf) as [-> ?]. done.
    + change (truth _) with false in H. cbn iota in H. injection H as <- <-.
      split; [done|]. intros w q' [= <- <-]. done.
Qed.

(** *** Task updates *)

Lemma rw_set_task_eq f t x : set_task f t x t = x.
Proof. unfold set_task. now rewrite Z.eqb_refl. Qed.
Lemma rw_set_task_ne f t x u : u <> t -> set_task f t x u = f u.
Proof. intros H. unfold set_task. now rewrite (proj2 (Z.eqb_neq u t) H). Qed.

Ltac rw_task_cases t u := destruct (decide (u = t)) as [-> | ?];
  [rewrite ?rw_set_task_eq in * | rewrite ?(rw_set_task_ne _ t _ u) in * by done].

(** Waking a prefix of the queue. *)
Lemma queue_wake q1 q2 f : queue_ok (q1 ++ q2) f -> queue_ok q2 (wake f q1.*1).
Proof.
  intros [Hd Hw Hf]. rewrite fmap_app in Hd. apply NoDup_app in Hd as (Hd1 & Hd12 & Hd2).
  apply Forall_app in Hf as [Hf1 Hf2]. constructor; [done| |done].
  intros t fl. unfold wake. case_bool_decide as Ht.
  - split; intros H.
    + exfalso. destruct (f t) as [|fl'| |] eqn:E; cbn in H; try discriminate.
      destruct (truth _); discriminate.
    + exfalso. apply (Hd12 t Ht). apply list_elem_of_fmap. exists (t, fl). done.
  - rewrite Hw, elem_of_app. split; [|tauto]. intros [H|H]; [|done].
    exfalso. apply Ht. apply list_elem_of_fmap. exists (t, fl). done.
Qed.

(** A task that does not wait changes its state to another that is not waiting. *)
Lemma queue_set q f t x : queue_ok q f -> (forall fl, f t <> Waiting fl) -> (forall fl, x <> Waiting fl) ->
  queue_ok q (set_task f t x).
Proof.
  intros [Hd Hw Hf] Ht Hx. constructor; [done| |done].
  intros u fl. rw_task_cases t u; [|apply Hw]. split; intros H; [now apply Hx in H|].
  apply Hw in H. now apply Ht in H.
Qed.

Lemma queue_add q f t fl : queue_ok q f -> f t = Idle ->
  fl = RWSEM_WAITING_FOR_READ \/ fl = RWSEM_WAITING_FOR_WRITE ->
  queue_ok (q ++ [(t, fl)]) (set_task f t (Waiting fl)).
Proof.
  intros [Hd Hw Hf] Ht Hfl. constructor.
  - rewrite fmap_app. apply NoDup_app. split; [done|]. split; [|apply NoDup_singleton].
    intros u Hu [= ->]%list_elem_of_singleton. apply list_elem_of_fmap in Hu as [[t' fl'] [[= ->] Hu]].
    apply Hw in Hu. congruence.
  - intros u fl'. rewrite elem_of_app, list_elem_of_singleton. rw_task_cases t u.
    + split; [intros [= ->]; auto|]. intros [H|[= ->]]; [|done]. apply Hw in H. congruence.
    + rewrite Hw. split; [auto|]. intros [H|[= ]]; done.
  - apply Forall_app. split; [done|]. apply Forall_singleton. done.
Qed.

Lemma readers_add N R f t : readers_ok N R f -> f t <> Reading -> 0 <= t < N ->
  readers_ok N (t :: R) (set_task f t Reading).
Proof.
  intros [Hd Hr Hf] Ht Hb. constructor.
  - apply NoDup_cons. split; [|done]. intros H. apply Hf in H. done.
  - intros u. rw_task_cases t u; [done|apply Hr].
  - intros u. rewrite elem_of_cons. rw_task_cases t u; [tauto|]. rewrite Hf. naive_solver.
Qed.

Lemma readers_set N R f t x : readers_ok N R f -> f t <> Reading -> x <> Reading -> (x = Idle \/ 0 <= t < N) ->
  readers_ok N R (set_task f t x).
Proof.
  intros [Hd Hr Hf] Ht Hx Hb. constructor; [done| |].
  - intros u. rw_task_cases t u; [naive_solver|apply Hr].
  - intros u. rw_task_cases t u; [|apply Hf]. rewrite <- Hf. tauto.
Qed.

Lemma readers_remove N R f t : readers_ok N R f -> f t = Reading ->
  exists R', zlen R = zlen R' + 1 /\ readers_ok N R' (set_task f t Idle).
Proof.
  intros [Hd Hr Hf] Ht. pose proof (proj1 (Hf t) Ht) as Hin.
  apply elem_of_Permutation in Hin as [R' HR]. exists R'. split.
  { unfold zlen. rewrite HR. cbn. lia. }
  rewrite HR in Hd. apply NoDup_cons in Hd as [Hn Hd]. constructor; [done| |].
  - intros u. rw_task_cases t u; [done|apply Hr].
  - intros u. rw_task_cases t u; [split; [discriminate|tauto]|]. rewrite Hf, HR, elem_of_cons. naive_solver.
Qed.

Lemma wake_nil f t : wake f [] t = f t.
Proof. unfold wake. rewrite bool_decide_false; [done|]. apply not_elem_of_nil. Qed.

(** The woken readers read, nobody else changes. *)
Lemma wake_reading q woken f : queue_ok (((fun t => (t, RWSEM_WAITING_FOR_READ)) <$> woken) ++ q) f ->
  forall t, wake f woken t = if bool_decide (t ∈ woken) then Reading else f t.
Proof.
  intros [_ Hw _] t. unfold wake. case_bool_decide as Ht; [|done].
  assert (f t = Waiting RWSEM_WAITING_FOR_READ) as ->; [|done].
  apply Hw, elem_of_app. left. apply list_elem_of_fmap. eauto.
Qed.

Lemma readers_wake N R q woken f : queue_ok (((fun t => (t, RWSEM_WAITING_FOR_READ)) <$> woken) ++ q) f ->
  readers_ok N R f -> readers_ok N (woken ++ R) (wake f woken).
Proof.
  intros Hq [Hd Hr Hf]. pose proof (wake_reading q woken f Hq) as Hwk. destruct Hq as [Hqd Hqw _].
  assert (forall t, t ∈ woken -> f t = Waiting RWSEM_WAITING_FOR_READ) as Hin.
  { intros t Ht. apply Hqw, elem_of_app. left. apply list_elem_of_fmap. eauto. }
  constructor.
  - apply NoDup_app. split; [|split; [|done]].
    + rewrite fmap_app, <- list_fmap_compose in Hqd. apply NoDup_app in Hqd as [Hqd _].
      erewrite list_fmap_id in Hqd. done.
    + intros t Ht HtR. apply Hin in Ht. apply Hf in HtR. congruence.
  - intros t. rewrite Hwk. case_bool_decide as Ht; [|apply Hr].
    intros _. apply Hr. rewrite (Hin t Ht). done.
  - intros t. rewrite Hwk, elem_of_app. case_bool_decide as Ht; [tauto|]. rewrite Hf. tauto.
Qed.

(** The woken writer writes. *)
Lemma wake_writing q t f : queue_ok ((t, RWSEM_WAITING_FOR_WRITE) :: q) f ->
  forall u, wake f [t] u = set_task f t Writing u.
Proof.
  intros [_ Hw _] u. unfold wake. destruct (decide (u = t)) as [-> | Hne].
  - rewrite bool_decide_true by now apply list_elem_of_singleton.
    rewrite (proj2 (Hw t RWSEM_WAITING_FOR_WRITE)) by apply list_elem_of_here. now rewrite rw_set_task_eq.
  - rewrite bool_decide_false by (now rewrite list_elem_of_singleton). now rewrite rw_set_task_ne.
Qed.

(** The invariant depends on the tasks pointwise. *)
Lemma inv_ext N m f g : (forall t, f t = g t) -> rw_inv N {| sem := m; tasks := f |} -> rw_inv N {| sem := m; tasks := g |}.
Proof.
  intros He (R & [Hd Hw Hf] & [Rd Rr Rf] & Hm). exists R. cbn in *. split; [|split].
  - constructor; [done| |done]. intros t fl. rewrite <- He. apply Hw.
  - constructor; [done| |]; intros t; rewrite <- He; auto.
  - destruct Hm as [(Ha & Hn & Hq)|(Ha & HR & w & Hw')]; [left|right].
    + split; [done|]. split; [|done]. intros t. rewrite <- He. apply Hn.
    + split; [done|]. split; [done|]. exists w. intros t. rewrite <- He. apply Hw'.
Qed.

(** *** The operations *)

Section operations.
Context (N : Z) (HN : N < 2 ^ 31) (s : rw_system) (Hinv : rw_inv N s).

Lemma readers_s32 R f : readers_ok N R f -> 0 <= zlen R < 2 ^ 31.
Proof. intros H%readers_bound. pose proof (zlen_nonneg R). lia. Qed.

Lemma not_waiting x : x = Idle \/ x = Reading \/ x = Writing -> forall fl, x <> Waiting fl.
Proof. naive_solver. Qed.

Lemma list_empty_spec m : list_empty m = true <-> wait_list m = [].
Proof. unfold list_empty. destruct (wait_list m); naive_solver. Qed.

Lemma granted_read t : 0 <= t < N -> tasks s t = Idle -> 0 <= activity (sem s) -> wait_list (sem s) = [] ->
  rw_inv N {| sem := set_activity (sem s) (s32 (activity (sem s) + 1)); tasks := set_task (tasks s) t Reading |}.
Proof.
  intros Hb Ht Ha Hq. destruct Hinv as (R & Q & RO & M).
  assert (readers_ok N (t :: R) (set_task (tasks s) t Reading)) as RO'
    by (apply readers_add; [done|congruence|done]).
  exists (t :: R). cbn [sem tasks set_activity wait_list]. split; [|split; [done|]].
  - apply queue_set; [done| |]; apply not_waiting; auto.
  - left. destruct M as [(E & Hw & _)|(E & _)]; [|lia].
    apply readers_s32 in RO'. rewrite zlen_cons in *. cbn [activity wait_list]. rewrite E, s32_small by lia.
    split; [done|]. split; [|split; [done|cbn; now rewrite Hq]]. intros u. rw_task_cases t u; [done|apply Hw].
Qed.

Lemma granted_write t : 0 <= t < N -> tasks s t = Idle -> activity (sem s) = 0 -> wait_list (sem s) = [] ->
  rw_inv N {| sem := set_activity (sem s) (-1); tasks := set_task (tasks s) t Writing |}.
Proof.
  intros Hb Ht Ha Hq. destruct Hinv as (R & Q & RO & M).
  destruct M as [(E & Hw & _)|(E & _)]; [|lia].
  assert (R = []) as -> by (destruct R; [done|]; rewrite zlen_cons in E; pose proof (zlen_nonneg R); lia).
  exists []. cbn [sem tasks set_activity wait_list]. split; [|split].
  - apply queue_set; [done| |]; apply not_waiting; auto.
  - apply readers_set; [done|congruence|done|auto].
  - right. cbn [activity]. split; [done|]. split; [done|]. exists t. intros u. rw_task_cases t u; [tauto|].
    specialize (Hw u). tauto.
Qed.

(** A task queues: it waits for a read lock only behind another or a writer. *)
Lemma queued t fl : 0 <= t < N -> tasks s t = Idle ->
  fl = RWSEM_WAITING_FOR_READ /\ (activity (sem s) < 0 \/ wait_list (sem s) <> []) \/
  fl = RWSEM_WAITING_FOR_WRITE /\ (activity (sem s) <> 0 \/ wait_list (sem s) <> []) ->
  rw_inv N {| sem := rw_add_tail (sem s) (t, fl); tasks := set_task (tasks s) t (Waiting fl) |}.
Proof.
  intros Hb Ht Hc. destruct Hinv as (R & Q & RO & M). exists R.
  cbn [sem tasks rw_add_tail wait_list]. split; [|split].
  - apply queue_add; [done|done|tauto].
  - apply readers_set; [done|congruence|done|auto].
  - destruct M as [(E & Hw & H0 & Hh)|(E & HR & w & Hw)].
    + left. cbn [activity wait_list rw_add_tail]. split; [done|]. split; [|split].
      * intros u. rw_task_cases t u; [done|apply Hw].
      * intros ->. specialize (H0 eq_refl). rewrite H0 in Hc. change (zlen []) with 0 in E. naive_solver lia.
      * intros w q Hwq. destruct (wait_list (sem s)) as [|w' q'] eqn:Eq.
        -- injection Hwq as <- <-. pose proof (zlen_nonneg R). unfold waits_write. naive_solver lia.
        -- injection Hwq as <- <-. exact (Hh _ _ eq_refl).
    + right. cbn [activity]. split; [done|]. split; [done|]. exists w. intros u. rw_task_cases t u; [|apply Hw].
      split; [done|]. intros ->. rewrite (proj2 (Hw w) eq_refl) in Ht. done.
Qed.

Lemma writer_granted f u q : queue_ok ((u, RWSEM_WAITING_FOR_WRITE) :: q) f -> readers_ok N [] f ->
  (forall t, f t <> Writing) ->
  rw_inv N {| sem := {| activity := -1; wait_list := q |}; tasks := wake f [u] |}.
Proof.
  intros Q RO Hw. pose proof (queue_wake [(u, RWSEM_WAITING_FOR_WRITE)] q f Q) as Q'. cbn in Q'.
  assert (f u = Waiting RWSEM_WAITING_FOR_WRITE) as Hu by (apply (q_waiting _ _ Q), list_elem_of_here).
  pose proof (wake_writing q u f Q) as He.
  assert (0 <= u < N) as Hb by (apply (r_range _ _ _ RO); congruence).
  exists []. cbn [sem tasks wait_list]. split; [done|]. split.
  - assert (readers_ok N [] (set_task f u Writing)) as [Rd Rr Rf]
      by (apply readers_set; [done|congruence|done|auto]).
    constructor; [done| |]; intros t; rewrite He; auto.
  - right. split; [done|]. split; [done|]. exists u. intros t. rewrite He.
    rw_task_cases u t; [tauto|]. specialize (Hw t). tauto.
Qed.

Lemma readers_granted f R q woken rest : queue_ok q f -> readers_ok N R f -> (forall t, f t <> Writing) ->
  wake_readers q = (woken, rest) -> (R = [] -> woken <> []) ->
  rw_inv N {| sem := {| activity := s32 (zlen R + zlen woken); wait_list := rest |}; tasks := wake f woken |}.
Proof.
  intros Q RO Hw Hwk Hne. destruct (wake_readers_split q woken rest Hwk (q_flags _ _ Q)) as [-> Hh].
  pose proof (queue_wake _ rest f Q) as Q'.
  rewrite <- list_fmap_compose in Q'. rewrite (list_fmap_id (A := Z)) in Q'.
  pose proof (readers_wake N R rest woken f Q RO) as RO'. pose proof (readers_s32 _ _ RO') as Hb.
  rewrite zlen_app in Hb. exists (woken ++ R). cbn [sem tasks wait_list]. split; [done|]. split; [done|].
  left. cbn [activity wait_list]. rewrite zlen_app, s32_small by lia. split; [lia|]. split; [|split; [|done]].
  - intros t. rewrite (wake_reading rest woken f Q). case_bool_decide; [done|apply Hw].
  - intros [E1 E2]%app_eq_nil. now destruct (Hne E2).
Qed.

Lemma not_granted f m : rw_inv N {| sem := m; tasks := f |} -> rw_inv N {| sem := m; tasks := wake f [] |}.
Proof. apply inv_ext. intros t. now rewrite wake_nil. Qed.

(** A reader releases; the queue has a writer first. *)
Lemma up_read_ok t : tasks s t = Reading -> exists m woken, __up_read (sem s) = Some (m, woken) /\
  rw_inv N {| sem := m; tasks := wake (set_task (tasks s) t Idle) woken |}.
Proof.
  intros Ht. destruct Hinv as (R & Q & RO & M).
  destruct (readers_remove N R _ t RO Ht) as (R' & HR & RO').
  assert (queue_ok (wait_list (sem s)) (set_task (tasks s) t Idle)) as Q'
    by (apply queue_set; [done| |]; apply not_waiting; auto).
  pose proof (readers_s32 _ _ RO) as Hb. pose proof (readers_s32 _ _ RO').
  destruct M as [(E & Hw & H0 & Hh)|(E & -> & _)]; [|change (zlen []) with 0 in HR; lia].
  assert (forall u, set_task (tasks s) t Idle u <> Writing) as Hw'
    by (intros u; rw_task_cases t u; [done|apply Hw]).
  unfold __up_read. cbn [set_activity activity]. rewrite E, s32_small by lia.
  replace (zlen R - 1) with (zlen R') by lia. unfold list_empty. cbn [wait_list set_activity].
  destruct (wait_list (sem s)) as [|[u fl] q] eqn:Eq.
  - rewrite andb_false_r. eexists _, _. split; [done|]. apply not_granted. exists R'. cbn [sem tasks wait_list set_activity].
    rewrite Eq. split; [done|]. split; [done|]. left. cbn [activity wait_list set_activity]. rewrite Eq. done.
  - rewrite andb_true_r. destruct (Z.eqb_spec (zlen R') 0) as [E0|E0].
    + unfold __rwsem_wake_one_writer. cbn [set_activity wait_list]. rewrite Eq. eexists _, _. split; [done|].
      assert (fl = RWSEM_WAITING_FOR_WRITE) as -> by exact (Hh _ _ eq_refl).
      apply writer_granted; [done| |done]. destruct R'; [done|]. rewrite zlen_cons in E0. pose proof (zlen_nonneg R'). lia.
    + eexists _, _. split; [done|]. apply not_granted. exists R'. cbn [sem tasks wait_list set_activity].
      rewrite Eq. split; [done|]. split; [done|]. left. cbn [activity wait_list set_activity]. rewrite Eq.
      do 3 (split; [done || (intros ->; done)|]). done.
Qed.

Lemma head_flags q u fl f : queue_ok ((u, fl) :: q) f ->
  fl = RWSEM_WAITING_FOR_READ \/ fl = RWSEM_WAITING_FOR_WRITE.
Proof. intros [_ _ Hf]. now apply Forall_cons in Hf as [Hf _]. Qed.

Lemma writer_only t : tasks s t = Writing ->
  queue_ok (wait_list (sem s)) (tasks s) /\ readers_ok N [] (tasks s) /\ (forall u, tasks s u = Writing -> u = t).
Proof.
  intros Ht. destruct Hinv as (R & Q & RO & [(_ & Hw & _)|(_ & -> & w & Hw)]); [now apply Hw in Ht|].
  split; [done|]. split; [done|]. intros u Hu. apply Hw in Hu, Ht. congruence.
Qed.

Lemma up_write_ok t : tasks s t = Writing -> exists m woken, __up_write (sem s) = Some (m, woken) /\
  rw_inv N {| sem := m; tasks := wake (set_task (tasks s) t Idle) woken |}.
Proof.
  intros Ht. destruct (writer_only t Ht) as (Q & RO & Hw).
  assert (queue_ok (wait_list (sem s)) (set_task (tasks s) t Idle)) as Q'
    by (apply queue_set; [done| |]; apply not_waiting; auto).
  assert (readers_ok N [] (set_task (tasks s) t Idle)) as RO'
    by (apply readers_set; [done|congruence|done|auto]).
  assert (forall u, set_task (tasks s) t Idle u <> Writing) as Hw'
    by (intros u; rw_task_cases t u; [done|]; intros H%Hw; done).
  unfold __up_write, __rwsem_do_wake, list_empty. cbn [set_activity wait_list activity].
  destruct (wait_list (sem s)) as [|[u fl] q] eqn:Eq; cbn [negb].
  - eexists _, _. split; [done|]. apply not_granted. exists []. cbn. rewrite Eq.
    split; [done|]. split; [done|]. left. cbn. rewrite Eq. done.
  - destruct (head_flags _ _ _ _ Q') as [-> | ->].
    + change (truth (Z.land RWSEM_WAITING_FOR_READ RWSEM_WAITING_FOR_WRITE)) with false. cbn iota.
      destruct (wake_readers _) as [woken rest] eqn:Ew. eexists _, _. split; [done|].
      apply (readers_granted _ [] ((u, RWSEM_WAITING_FOR_READ) :: q)); [done..|]. intros _ ->.
      cbn [wake_readers] in Ew. change (truth _) with true in Ew. destruct (wake_readers q). discriminate.
    + change (truth _) with true. cbn iota. eexists _, _. split; [done|]. now apply writer_granted.
Qed.

Lemma downgrade_ok t : tasks s t = Writing -> exists m woken, __downgrade_write (sem s) = Some (m, woken) /\
  rw_inv N {| sem := m; tasks := wake (set_task (tasks s) t Reading) woken |}.
Proof.
  intros Ht. destruct (writer_only t Ht) as (Q & RO & Hw).
  assert (queue_ok (wait_list (sem s)) (set_task (tasks s) t Reading)) as Q'
    by (apply queue_set; [done| |]; apply not_waiting; auto).
  assert (readers_ok N [t] (set_task (tasks s) t Reading)) as RO'
    by (apply readers_add; [done|congruence|apply (r_range _ _ _ RO); congruence]).
  assert (forall u, set_task (tasks s) t Reading u <> Writing) as Hw'
    by (intros u; rw_task_cases t u; [done|]; intros H%Hw; done).
  assert (forall q, wait_list (sem s) = q -> (forall w q', q = w :: q' -> waits_write w) ->
    rw_inv N {| sem := set_activity (sem s) 1; tasks := wake (set_task (tasks s) t Reading) [] |}) as Hstay.
  { intros q <- Hq. apply not_granted. exists [t]. split; [done|]. split; [done|]. left. done. }
  unfold __downgrade_write, __rwsem_do_wake, list_empty. cbn [set_activity wait_list activity].
  destruct (wait_list (sem s)) as [|[u fl] q] eqn:Eq; cbn [negb].
  - eexists _, _. split; [done|]. now eapply Hstay.
  - destruct (head_flags _ _ _ _ Q') as [-> | ->].
    + change (truth (Z.land RWSEM_WAITING_FOR_READ RWSEM_WAITING_FOR_WRITE)) with false. cbn iota.
      destruct (wake_readers _) as [woken rest] eqn:Ew. eexists _, _. split; [done|].
      now apply (readers_granted _ [t] ((u, RWSEM_WAITING_FOR_READ) :: q)).
    + change (truth _) with true. cbn iota. eexists _, _. split; [done|].
      unfold set_activity in *. rewrite Eq in *. apply (Hstay _ eq_refl). intros w q' Hc. injection Hc as <- <-. done.
Qed.

End operations.

Lemma rw_step_inv N s s' : N < 2 ^ 31 -> rw_inv N s -> rw_step N s s' -> rw_inv N s'.
Proof.
  intros HN Hi Hs. pose proof Hi as Hi'. destruct s' as [m' f']. inversion Hs; subst; clear Hs.
  - unfold __down_read in *. destruct (Z.leb_spec 0 (activity (sem s))), (list_empty (sem s)) eqn:El; simplify_eq/=.
    apply list_empty_spec in El. now apply granted_read.
  - unfold __down_read in *. destruct (Z.leb_spec 0 (activity (sem s))), (list_empty (sem s)) eqn:El; simplify_eq/=;
      (apply queued; [done..|]; left; split; [done|]); auto; right; intros Hemp%list_empty_spec; congruence.
  - unfold __down_read_trylock in *.
    destruct (Z.leb_spec 0 (activity (sem s))), (list_empty (sem s)) eqn:El; simplify_eq/=; try (now destruct s).
    apply list_empty_spec in El. now apply granted_read.
  - unfold __down_write, __down_write_nested in *.
    destruct (Z.eqb_spec (activity (sem s)) 0), (list_empty (sem s)) eqn:El; simplify_eq/=.
    apply list_empty_spec in El. now apply granted_write.
  - unfold __down_write, __down_write_nested in *.
    destruct (Z.eqb_spec (activity (sem s)) 0), (list_empty (sem s)) eqn:El; simplify_eq/=;
      (apply queued; [done..|]; right; split; [done|]); auto; right; intros Hemp%list_empty_spec; congruence.
  - unfold __down_write_trylock in *.
    destruct (Z.eqb_spec (activity (sem s)) 0), (list_empty (sem s)) eqn:El; simplify_eq/=; try (now destruct s).
    apply list_empty_spec in El. now apply granted_write.
  - edestruct (up_read_ok N HN s Hi) as (m & w & E & ?); [done|]. simplify_eq. done.
  - edestruct (up_write_ok N HN s Hi) as (m & w & E & ?); [done|]. simplify_eq. done.
  - edestruct (downgrade_ok N HN s Hi) as (m & w & E & ?); [done|]. simplify_eq. done.
Qed.

Lemma rw_initial_inv N : rw_inv N rw_initial.
Proof.
  exists []. split; [|split].
  - constructor; [constructor| |constructor]. intros t fl. split; [discriminate|]. intros []%not_elem_of_nil.
  - constructor; [constructor|naive_solver|]. intros t. split; [discriminate|]. intros []%not_elem_of_nil.
  - left. done.
Qed.

Lemma rw_reachable_inv N s : N < 2 ^ 31 -> rw_reachable N s -> rw_inv N s.
Proof.
  intros HN. induction 1 as [|s s' _ IH Hs]; [apply rw_initial_inv|]. now apply (rw_step_inv N s).
Qed.

(** ** The property *)

(** C8: in every state that fewer than 2^31 tasks reach with any sequence of
    acquisitions, releases and downgrades, a writer excludes every other holder;
    rwsem_is_locked() tells whether the lock is held; no task waits for a lock that nobody holds, and the queue
    holds exactly the waiting tasks; and a release by a holder never finds
    an empty queue where it expects a waiter: it returns the tasks it wakes. *)
Theorem rwsem_exclusive N s : N < 2 ^ 31 -> rw_reachable N s ->
  (forall t u, tasks s t = Writing -> tasks s u = Reading \/ tasks s u = Writing -> u = t) /\
  (rwsem_is_locked true (sem s) = 1 <-> exists t, tasks s t = Reading \/ tasks s t = Writing) /\
  (forall t flags, tasks s t = Waiting flags ->
     (t, flags) ∈ wait_list (sem s) /\ exists u, tasks s u = Reading \/ tasks s u = Writing) /\
  (forall t, tasks s t = Reading -> exists m woken, __up_read (sem s) = Some (m, woken)) /\
  (forall t, tasks s t = Writing -> exists m woken m' woken',
     __up_write (sem s) = Some (m, woken) /\ __downgrade_write (sem s) = Some (m', woken')).
Proof.
  intros HN Hr. pose proof (rw_reachable_inv N s HN Hr) as Hi. pose proof Hi as (R & Q & RO & M).
  assert (activity (sem s) <> 0 <-> exists t, tasks s t = Reading \/ tasks s t = Writing) as Hlock.
  { destruct RO as [_ _ Rf]. destruct M as [(E & Hw & _)|(E & -> & w & Hw)].
    - rewrite E. destruct R as [|r R].
      + split; [done|]. intros (t & [H|H]); [|now apply Hw in H]. apply Rf in H. now apply not_elem_of_nil in H.
      + rewrite zlen_cons. pose proof (zlen_nonneg R). split; [|lia]. intros _. exists r. left. apply Rf, list_elem_of_here.
    - split; [|lia]. intros _. exists w. right. now apply Hw. }
  split; [|split; [|split; [|split]]].
  - intros t u Ht Hu. destruct (writer_only N s Hi t Ht) as (_ & [_ _ Rf] & Hw).
    destruct Hu as [Hu|Hu]; [|auto]. apply Rf in Hu. now apply not_elem_of_nil in Hu.
  - unfold rwsem_is_locked. rewrite <- Hlock. destruct (Z.eqb_spec (activity (sem s)) 0); cbn; split; lia || congruence.
  - intros t fl Ht. apply (q_waiting _ _ Q) in Ht. split; [done|]. apply Hlock.
    destruct M as [(E & _ & H0 & _)|(E & _)]; [|lia]. rewrite E. destruct R; [|rewrite zlen_cons; pose proof (zlen_nonneg R); lia].
    rewrite (H0 eq_refl) in Ht. now apply not_elem_of_nil in Ht.
  - intros t Ht. destruct (up_read_ok N HN s Hi t Ht) as (m & w & E & _). eauto.
  - intros t Ht. destruct (up_write_ok N HN s Hi t Ht) as (m & w & E & _).
    destruct (downgrade_ok N HN s Hi t Ht) as (m' & w' & E' & _). exists m, w, m', w'. auto.
Qed.

(** Task 0 writes, task 1 waits to read. *)
Definition rw_contended : rw_system :=
  {| sem := {| activity := -1; wait_list := [(1, RWSEM_WAITING_FOR_READ)] |};
     tasks := set_task (set_task (fun _ => Idle) 0 Writing) 1 (Waiting RWSEM_WAITING_FOR_READ) |}.

Lemma rw_contended_reachable : rw_reachable 2 rw_contended.
Proof.
  eapply Rw_step; [eapply Rw_step; [apply Rw_init|]|].
  - apply (Step_down_write 2 rw_initial 0 {| activity := -1; wait_list := [] |}); [lia|reflexivity|reflexivity].
  - apply (Step_wait_read 2 {| sem := {| activity := -1; wait_list := [] |};
      tasks := set_task (fun _ => Idle) 0 Writing |} 1); [lia|reflexivity|reflexivity].
Qed.

Lemma rwsem_exclusive_witness :
  (exists u, tasks rw_contended u = Reading \/ tasks rw_contended u = Writing) /\
  __up_write (sem rw_contended) = Some ({| activity := 1; wait_list := [] |}, [1]).
Proof.
  split; [|reflexivity].
  destruct (rwsem_exclusive 2 rw_contended) as (_ & _ & H & _); [lia|exact rw_contended_reachable|].
  exact (proj2 (H 1 RWSEM_WAITING_FOR_READ eq_refl)).
Defined.
