(* ===== verification/NandEcc.v ===== *)
(** * NAND error correction: drivers/mtd/nand/nand_ecc.c

    The Hamming code over blocks of 256 or 512 bytes.  The encoder folds the block in
    32-bit words, sixteen per iteration, into parity words from which it picks
    the 22 or 24 parity bits of the code; the decoder compares the stored with the computed code and
    repairs the block.  A block is the list of its bytes, and a pointer that
    runs over it the list of those still ahead.  [smc] is
    CONFIG_MTD_NAND_ECC_SMC, the order of the first two code bytes.

    The theorems show that the optimised encoder computes the parities of the
    block over every half of its address space, and that the decoder repairs every
    single bit error and recognises every double one. *)

From S2P Require Import Prelude.

(** ** Tables *)

Definition invparity : list Z := [
  1; 0; 0; 1; 0; 1; 1; 0; 0; 1; 1; 0; 1; 0; 0; 1;
  0; 1; 1; 0; 1; 0; 0; 1; 1; 0; 0; 1; 0; 1; 1; 0;
  0; 1; 1; 0; 1; 0; 0; 1; 1; 0; 0; 1; 0; 1; 1; 0;
  1; 0; 0; 1; 0; 1; 1; 0; 0; 1; 1; 0; 1; 0; 0; 1;
  0; 1; 1; 0; 1; 0; 0; 1; 1; 0; 0; 1; 0; 1; 1; 0;
  1; 0; 0; 1; 0; 1; 1; 0; 0; 1; 1; 0; 1; 0; 0; 1;
  1; 0; 0; 1; 0; 1; 1; 0; 0; 1; 1; 0; 1; 0; 0; 1;
  0; 1; 1; 0; 1; 0; 0; 1; 1; 0; 0; 1; 0; 1; 1; 0;
  0; 1; 1; 0; 1; 0; 0; 1; 1; 0; 0; 1; 0; 1; 1; 0;
  1; 0; 0; 1; 0; 1; 1; 0; 0; 1; 1; 0; 1; 0; 0; 1;
  1; 0; 0; 1; 0; 1; 1; 0; 0; 1; 1; 0; 1; 0; 0; 1;
  0; 1; 1; 0; 1; 0; 0; 1; 1; 0; 0; 1; 0; 1; 1; 0;
  1; 0; 0; 1; 0; 1; 1; 0; 0; 1; 1; 0; 1; 0; 0; 1;
  0; 1; 1; 0; 1; 0; 0; 1; 1; 0; 0; 1; 0; 1; 1; 0;
  0; 1; 1; 0; 1; 0; 0; 1; 1; 0; 0; 1; 0; 1; 1; 0;
  1; 0; 0; 1; 0; 1; 1; 0; 0; 1; 1; 0; 1; 0; 0; 1].

Definition bitsperbyte : list Z := [
  0; 1; 1; 2; 1; 2; 2; 3; 1; 2; 2; 3; 2; 3; 3; 4;
  1; 2; 2; 3; 2; 3; 3; 4; 2; 3; 3; 4; 3; 4; 4; 5;
  1; 2; 2; 3; 2; 3; 3; 4; 2; 3; 3; 4; 3; 4; 4; 5;
  2; 3; 3; 4; 3; 4; 4; 5; 3; 4; 4; 5; 4; 5; 5; 6;
  1; 2; 2; 3; 2; 3; 3; 4; 2; 3; 3; 4; 3; 4; 4; 5;
  2; 3; 3; 4; 3; 4; 4; 5; 3; 4; 4; 5; 4; 5; 5; 6;
  2; 3; 3; 4; 3; 4; 4; 5; 3; 4; 4; 5; 4; 5; 5; 6;
  3; 4; 4; 5; 4; 5; 5; 6; 4; 5; 5; 6; 5; 6; 6; 7;
  1; 2; 2; 3; 2; 3; 3; 4; 2; 3; 3; 4; 3; 4; 4; 5;
  2; 3; 3; 4; 3; 4; 4; 5; 3; 4; 4; 5; 4; 5; 5; 6;
  2; 3; 3; 4; 3; 4; 4; 5; 3; 4; 4; 5; 4; 5; 5; 6;
  3; 4; 4; 5; 4; 5; 5; 6; 4; 5; 5; 6; 5; 6; 6; 7;
  2; 3; 3; 4; 3; 4; 4; 5; 3; 4; 4; 5; 4; 5; 5; 6;
  3; 4; 4; 5; 4; 5; 5; 6; 4; 5; 5; 6; 5; 6; 6; 7;
  3; 4; 4; 5; 4; 5; 5; 6; 4; 5; 5; 6; 5; 6; 6; 7;
  4; 5; 5; 6; 5; 6; 6; 7; 5; 6; 6; 7; 6; 7; 7; 8].

Definition addressbits : list Z := [
  0x00; 0x00; 0x01; 0x01; 0x00; 0x00; 0x01; 0x01;
  0x02; 0x02; 0x03; 0x03; 0x02; 0x02; 0x03; 0x03;
  0x00; 0x00; 0x01; 0x01; 0x00; 0x00; 0x01; 0x01;
  0x02; 0x02; 0x03; 0x03; 0x02; 0x02; 0x03; 0x03;
  0x04; 0x04; 0x05; 0x05; 0x04; 0x04; 0x05; 0x05;
  0x06; 0x06; 0x07; 0x07; 0x06; 0x06; 0x07; 0x07;
  0x04; 0x04; 0x05; 0x05; 0x04; 0x04; 0x05; 0x05;
  0x06; 0x06; 0x07; 0x07; 0x06; 0x06; 0x07; 0x07;
  0x00; 0x00; 0x01; 0x01; 0x00; 0x00; 0x01; 0x01;
  0x02; 0x02; 0x03; 0x03; 0x02; 0x02; 0x03; 0x03;
  0x00; 0x00; 0x01; 0x01; 0x00; 0x00; 0x01; 0x01;
  0x02; 0x02; 0x03; 0x03; 0x02; 0x02; 0x03; 0x03;
  0x04; 0x04; 0x05; 0x05; 0x04; 0x04; 0x05; 0x05;
  0x06; 0x06; 0x07; 0x07; 0x06; 0x06; 0x07; 0x07;
  0x04; 0x04; 0x05; 0x05; 0x04; 0x04; 0x05; 0x05;
  0x06; 0x06; 0x07; 0x07; 0x06; 0x06; 0x07; 0x07;
  0x08; 0x08; 0x09; 0x09; 0x08; 0x08; 0x09; 0x09;
  0x0a; 0x0a; 0x0b; 0x0b; 0x0a; 0x0a; 0x0b; 0x0b;
  0x08; 0x08; 0x09; 0x09; 0x08; 0x08; 0x09; 0x09;
  0x0a; 0x0a; 0x0b; 0x0b; 0x0a; 0x0a; 0x0b; 0x0b;
  0x0c; 0x0c; 0x0d; 0x0d; 0x0c; 0x0c; 0x0d; 0x0d;
  0x0e; 0x0e; 0x0f; 0x0f; 0x0e; 0x0e; 0x0f; 0x0f;
  0x0c; 0x0c; 0x0d; 0x0d; 0x0c; 0x0c; 0x0d; 0x0d;
  0x0e; 0x0e; 0x0f; 0x0f; 0x0e; 0x0e; 0x0f; 0x0f;
  0x08; 0x08; 0x09; 0x09; 0x08; 0x08; 0x09; 0x09;
  0x0a; 0x0a; 0x0b; 0x0b; 0x0a; 0x0a; 0x0b; 0x0b;
  0x08; 0x08; 0x09; 0x09; 0x08; 0x08; 0x09; 0x09;
  0x0a; 0x0a; 0x0b; 0x0b; 0x0a; 0x0a; 0x0b; 0x0b;
  0x0c; 0x0c; 0x0d; 0x0d; 0x0c; 0x0c; 0x0d; 0x0d;
  0x0e; 0x0e; 0x0f; 0x0f; 0x0e; 0x0e; 0x0f; 0x0f;
  0x0c; 0x0c; 0x0d; 0x0d; 0x0c; 0x0c; 0x0d; 0x0d;
  0x0e; 0x0e; 0x0f; 0x0f; 0x0e; 0x0e; 0x0f; 0x0f].

(** ** __nand_calculate_ecc() *)

(** [*bp++] for a pointer to 32-bit words. *)
Definition next_word (bp : list Z) : option (Z * list Z) :=
  match bp with
  | b0 :: b1 :: b2 :: b3 :: bp => Some (b0 + 2 ^ 8 * (b1 + 2 ^ 8 * (b2 + 2 ^ 8 * b3)), bp)
  | _ => None
  end.

(** The parities that are accumulated over the block. *)
Record parities := mk_parities {
  par : Z; rp4 : Z; rp6 : Z; rp8 : Z; rp10 : Z; rp12 : Z; rp14 : Z; rp16 : Z
}.

(** The sixteen words of one iteration: the pointer behind them, [tmppar], [rp4],
    [rp6], [rp8] and [rp10]. *)
Definition ecc_words (bp : list Z) (rp4 rp6 rp8 rp10 : Z) : option (list Z * Z * Z * Z * Z * Z) :=
  '(cur, bp) ← next_word bp;
  let tmppar := cur in
  let rp4 := Z.lxor rp4 cur in
  '(cur, bp) ← next_word bp;
  let tmppar := Z.lxor tmppar cur in
  let rp6 := Z.lxor rp6 tmppar in
  '(cur, bp) ← next_word bp;
  let tmppar := Z.lxor tmppar cur in
  let rp4 := Z.lxor rp4 cur in
  '(cur, bp) ← next_word bp;
  let tmppar := Z.lxor tmppar cur in
  let rp8 := Z.lxor rp8 tmppar in
  '(cur, bp) ← next_word bp;
  let tmppar := Z.lxor tmppar cur in
  let rp4 := Z.lxor rp4 cur in
  let rp6 := Z.lxor rp6 cur in
  '(cur, bp) ← next_word bp;
  let tmppar := Z.lxor tmppar cur in
  let rp6 := Z.lxor rp6 cur in
  '(cur, bp) ← next_word bp;
  let tmppar := Z.lxor tmppar cur in
  let rp4 := Z.lxor rp4 cur in
  '(cur, bp) ← next_word bp;
  let tmppar := Z.lxor tmppar cur in
  let rp10 := Z.lxor rp10 tmppar in
  '(cur, bp) ← next_word bp;
  let tmppar := Z.lxor tmppar cur in
  let rp4 := Z.lxor rp4 cur in
  let rp6 := Z.lxor rp6 cur in
  let rp8 := Z.lxor rp8 cur in
  '(cur, bp) ← next_word bp;
  let tmppar := Z.lxor tmppar cur in
  let rp6 := Z.lxor rp6 cur in
  let rp8 := Z.lxor rp8 cur in
  '(cur, bp) ← next_word bp;
  let tmppar := Z.lxor tmppar cur in
  let rp4 := Z.lxor rp4 cur in
  let rp8 := Z.lxor rp8 cur in
  '(cur, bp) ← next_word bp;
  let tmppar := Z.lxor tmppar cur in
  let rp8 := Z.lxor rp8 cur in
  '(cur, bp) ← next_word bp;
  let tmppar := Z.lxor tmppar cur in
  let rp4 := Z.lxor rp4 cur in
  let rp6 := Z.lxor rp6 cur in
  '(cur, bp) ← next_word bp;
  let tmppar := Z.lxor tmppar cur in
  let rp6 := Z.lxor rp6 cur in
  '(cur, bp) ← next_word bp;
  let tmppar := Z.lxor tmppar cur in
  let rp4 := Z.lxor rp4 cur in
  '(cur, bp) ← next_word bp;
  let tmppar := Z.lxor tmppar cur in
  Some (bp, tmppar, rp4, rp6, rp8, rp10).

Definition ecc_body (eccsize_mult : Z) :
    Z * list Z * parities -> option (step (Z * list Z * parities) parities) := fun '(i, bp, p) =>
  if i <? Z.shiftl eccsize_mult 2 then
    '(bp, tmppar, rp4, rp6, rp8, rp10) ← ecc_words bp (rp4 p) (rp6 p) (rp8 p) (rp10 p);
    Some (Next (i + 1, bp, {|
      par := Z.lxor (par p) tmppar;
      rp4 := rp4; rp6 := rp6; rp8 := rp8; rp10 := rp10;
      rp12 := if Z.land i 1 =? 0 then Z.lxor (rp12 p) tmppar else rp12 p;
      rp14 := if Z.land i 2 =? 0 then Z.lxor (rp14 p) tmppar else rp14 p;
      rp16 := if (eccsize_mult =? 2) && (Z.land i 4 =? 0) then Z.lxor (rp16 p) tmppar else rp16 p |}))
  else Some (Done p).

(** rp ^= rp >> 16; rp ^= rp >> 8; rp &= 0xff *)
Definition fold_word (rp : Z) : Z :=
  let rp := Z.lxor rp (Z.shiftr rp 16) in
  let rp := Z.lxor rp (Z.shiftr rp 8) in
  Z.land rp 0xff.

(** rp ^= rp >> 8; rp &= 0xff *)
Definition fold_half (rp : Z) : Z :=
  let rp := Z.lxor rp (Z.shiftr rp 8) in
  Z.land rp 0xff.

(** A byte from eight bits. *)
Definition bits8 (i7 i6 i5 i4 i3 i2 i1 i0 : Z) : Z :=
  Z.lor (Z.lor (Z.lor (Z.lor (Z.lor (Z.lor (Z.lor (Z.shiftl i7 7) (Z.shiftl i6 6)) (Z.shiftl i5 5))
    (Z.shiftl i4 4)) (Z.shiftl i3 3)) (Z.shiftl i2 2)) (Z.shiftl i1 1)) i0.

(** A code byte: the inverted parities of eight parity bytes. *)
Definition code_byte (r7 r6 r5 r4 r3 r2 r1 r0 : Z) : option Z :=
  i7 ← invparity.[r7]; i6 ← invparity.[r6]; i5 ← invparity.[r5]; i4 ← invparity.[r4];
  i3 ← invparity.[r3]; i2 ← invparity.[r2]; i1 ← invparity.[r1]; i0 ← invparity.[r0];
  Some (bits8 i7 i6 i5 i4 i3 i2 i1 i0).

(** The last code byte of a 256-byte block, whose two low bits are set. *)
Definition code_byte6 (r7 r6 r5 r4 r3 r2 : Z) : option Z :=
  i7 ← invparity.[r7]; i6 ← invparity.[r6]; i5 ← invparity.[r5];
  i4 ← invparity.[r4]; i3 ← invparity.[r3]; i2 ← invparity.[r2];
  Some (Z.lor (Z.lor (Z.lor (Z.lor (Z.lor (Z.lor (Z.shiftl i7 7) (Z.shiftl i6 6)) (Z.shiftl i5 5))
    (Z.shiftl i4 4)) (Z.shiftl i3 3)) (Z.shiftl i2 2)) 3).

(** From the accumulated parities to the code; [rp17] is set only for 512 bytes. *)
Definition ecc_code (smc : bool) (eccsize_mult : Z) (p : parities) (code : list Z) : option (list Z) :=
  let rp4 := fold_word (rp4 p) in
  let rp6 := fold_word (rp6 p) in
  let rp8 := fold_word (rp8 p) in
  let rp10 := fold_word (rp10 p) in
  let rp12 := fold_word (rp12 p) in
  let rp14 := fold_word (rp14 p) in
  let rp16 := if eccsize_mult =? 2 then fold_word (rp16 p) else rp16 p in
  let par := par p in
  let rp3 := fold_half (Z.shiftr par 16) in
  let rp2 := fold_half (Z.land par 0xffff) in
  let par := Z.lxor par (Z.shiftr par 16) in
  let rp1 := Z.land (Z.shiftr par 8) 0xff in
  let rp0 := Z.land par 0xff in
  let par := fold_half par in
  let rp5 := Z.land (Z.lxor par rp4) 0xff in
  let rp7 := Z.land (Z.lxor par rp6) 0xff in
  let rp9 := Z.land (Z.lxor par rp8) 0xff in
  let rp11 := Z.land (Z.lxor par rp10) 0xff in
  let rp13 := Z.land (Z.lxor par rp12) 0xff in
  let rp15 := Z.land (Z.lxor par rp14) 0xff in
  let rp17 := if eccsize_mult =? 2 then Some (Z.land (Z.lxor par rp16) 0xff) else None in
  low ← code_byte rp7 rp6 rp5 rp4 rp3 rp2 rp1 rp0;
  high ← code_byte rp15 rp14 rp13 rp12 rp11 rp10 rp9 rp8;
  code ← code.[(if smc then 0 else 1) <- low];
  code ← code.[(if smc then 1 else 0) <- high];
  last ← (if eccsize_mult =? 1 then
    code_byte6 (Z.land par 0xf0) (Z.land par 0x0f) (Z.land par 0xcc) (Z.land par 0x33)
      (Z.land par 0xaa) (Z.land par 0x55)
  else
    rp17 ← rp17;
    code_byte (Z.land par 0xf0) (Z.land par 0x0f) (Z.land par 0xcc) (Z.land par 0x33)
      (Z.land par 0xaa) (Z.land par 0x55) rp17 rp16);
  code.[2 <- last].

Definition __nand_calculate_ecc (smc : bool) (buf : list Z) (eccsize : Z) (code : list Z) : option (list Z) :=
  let eccsize_mult := Z.shiftr eccsize 8 in
  p ← loop (ecc_body eccsize_mult) (4 * eccsize_mult + 1) (0, buf, mk_parities 0 0 0 0 0 0 0 0);
  ecc_code smc eccsize_mult p code.

(** [ecc_size] is the size of an ECC step in the chip's description. *)
Definition nand_calculate_ecc (smc : bool) (ecc_size : Z) (buf code : list Z) : option (list Z * Z) :=
  code ← __nand_calculate_ecc smc buf ecc_size code;
  Some (code, 0).

(** ** __nand_correct_data() *)

(** The repair, given the differences between the codes: the return value and
    the block. *)
Definition nand_repair (eccsize_mult b0 b1 b2 : Z) (buf : list Z) : option (Z * list Z) :=
  if Z.lor (Z.lor b0 b1) b2 =? 0 then Some (0, buf)
  else if (Z.land (Z.lxor b0 (Z.shiftr b0 1)) 0x55 =? 0x55) &&
          (Z.land (Z.lxor b1 (Z.shiftr b1 1)) 0x55 =? 0x55) &&
          ((eccsize_mult =? 1) && (Z.land (Z.lxor b2 (Z.shiftr b2 1)) 0x54 =? 0x54) ||
           (eccsize_mult =? 2) && (Z.land (Z.lxor b2 (Z.shiftr b2 1)) 0x55 =? 0x55)) then
    a0 ← addressbits.[b0]; a1 ← addressbits.[b1];
    byte_addr ← (if eccsize_mult =? 1 then Some (Z.shiftl a1 4 + a0)
      else a2 ← addressbits.[Z.land b2 0x3]; Some (Z.shiftl a2 8 + Z.shiftl a1 4 + a0));
    bit_addr ← addressbits.[Z.shiftr b2 2];
    x ← buf.[byte_addr];
    buf ← buf.[byte_addr <- u8 (Z.lxor x (Z.shiftl 1 bit_addr))];
    Some (1, buf)
  else
    n0 ← bitsperbyte.[b0]; n1 ← bitsperbyte.[b1]; n2 ← bitsperbyte.[b2];
    if n0 + n1 + n2 =? 1 then Some (1, buf) else Some (-1, buf).

Definition __nand_correct_data (smc : bool) (buf read_ecc calc_ecc : list Z) (eccsize : Z) : option (Z * list Z) :=
  let eccsize_mult := Z.shiftr eccsize 8 in
  r0 ← read_ecc.[0]; r1 ← read_ecc.[1]; r2 ← read_ecc.[2];
  c0 ← calc_ecc.[0]; c1 ← calc_ecc.[1]; c2 ← calc_ecc.[2];
  let b0 := if smc then Z.lxor r0 c0 else Z.lxor r1 c1 in
  let b1 := if smc then Z.lxor r1 c1 else Z.lxor r0 c0 in
  let b2 := Z.lxor r2 c2 in
  nand_repair eccsize_mult b0 b1 b2 buf.

Definition nand_correct_data (smc : bool) (ecc_size : Z) (buf read_ecc calc_ecc : list Z) : option (Z * list Z) :=
  __nand_correct_data smc buf read_ecc calc_ecc ecc_size.

(** ** Parity *)

(** The exclusive or of [f 0] to [f (n - 1)]. *)
Fixpoint parity (f : Z -> bool) (n : nat) : bool :=
  match n with O => false | S n => xorb (parity f n) (f (Z.of_nat n)) end.

Lemma parity_ext f g n : (forall i, 0 <= i < Z.of_nat n -> f i = g i) -> parity f n = parity g n.
Proof.
  intros H. induction n as [|n IH]; [done|]. cbn [parity]. rewrite IH, H by (intros; try apply H; lia). done.
Qed.

Lemma parity_xor f g n : parity (fun i => xorb (f i) (g i)) n = xorb (parity f n) (parity g n).
Proof. induction n as [|n IH]; [done|]. cbn [parity]. rewrite IH. btauto. Qed.

Lemma parity_false n : parity (fun _ => false) n = false.
Proof. induction n as [|n IH]; [done|]. cbn [parity]. by rewrite IH. Qed.

Lemma parity_guard b f n : parity (fun i => b && f i) n = b && parity f n.
Proof. destruct b; [done|]. apply parity_false. Qed.

(** Grouping the terms by four. *)
Lemma parity_four f n : parity f (4 * n) =
  parity (fun j => xorb (xorb (xorb (f (4 * j)) (f (4 * j + 1))) (f (4 * j + 2))) (f (4 * j + 3))) n.
Proof.
  induction n as [|n IH]; [done|]. replace (4 * S n)%nat with (S (S (S (S (4 * n))))) by lia.
  cbn [parity]. rewrite IH. rewrite !Nat2Z.inj_succ, Nat2Z.inj_mul.
  replace (Z.succ (Z.succ (Z.succ (Z.of_nat 4 * Z.of_nat n)))) with (4 * Z.of_nat n + 3) by lia.
  replace (Z.succ (Z.succ (Z.of_nat 4 * Z.of_nat n))) with (4 * Z.of_nat n + 2) by lia.
  replace (Z.succ (Z.of_nat 4 * Z.of_nat n)) with (4 * Z.of_nat n + 1) by lia.
  replace (Z.of_nat 4 * Z.of_nat n) with (4 * Z.of_nat n) by lia. btauto.
Qed.

(** One term changes. *)
Lemma parity_flip f g n k : 0 <= k < Z.of_nat n -> (forall i, i <> k -> g i = f i) ->
  parity g n = xorb (parity f n) (xorb (f k) (g k)).
Proof.
  intros Hk H. induction n as [|n IH]; [lia|]. cbn [parity]. destruct (decide (k = Z.of_nat n)) as [-> | Hne].
  - rewrite (parity_ext g f n) by (intros; apply H; lia). btauto.
  - rewrite IH, (H (Z.of_nat n)) by lia. btauto.
Qed.

(** The parity of the bits of [x] that the mask [m] selects. *)
Definition word_parity (m x : Z) : bool := parity (fun i => Z.testbit m i && Z.testbit x i) 32.

Lemma word_parity_lxor m x y : word_parity m (Z.lxor x y) = xorb (word_parity m x) (word_parity m y).
Proof.
  unfold word_parity. rewrite <- parity_xor. apply parity_ext. intros i _. rewrite Z.lxor_spec. btauto.
Qed.

Lemma word_parity_0 m : word_parity m 0 = false.
Proof.
  unfold word_parity. rewrite <- (parity_false 32). apply parity_ext. intros i _. rewrite Z.bits_0. btauto.
Qed.

(** ** The code that is meant

    Every code bit is the inverted parity of the bits of the block at the
    positions that [sel] selects by the byte's address and the bit's number. *)
Definition block_parity (buf : list Z) (sel : Z -> Z -> bool) : bool :=
  parity (fun p => parity (fun c => sel p c && Z.testbit (default 0 buf.[p]) c) 8) (length buf).

(** The positions whose address, or bit number, has bit [k] set or clear. *)
Definition row (k : Z) (v : bool) (p c : Z) : bool := eqb (Z.testbit p k) v.
Definition column (k : Z) (v : bool) (p c : Z) : bool := eqb (Z.testbit c k) v.

Definition inverted (buf : list Z) (sel : Z -> Z -> bool) : Z := b2z (negb (block_parity buf sel)).

Definition row_byte (buf : list Z) (k : Z) : Z :=
  bits8 (inverted buf (row (k + 3) true)) (inverted buf (row (k + 3) false))
    (inverted buf (row (k + 2) true)) (inverted buf (row (k + 2) false))
    (inverted buf (row (k + 1) true)) (inverted buf (row (k + 1) false))
    (inverted buf (row k true)) (inverted buf (row k false)).

Definition column_byte (eccsize : Z) (buf : list Z) : Z :=
  bits8 (inverted buf (column 2 true)) (inverted buf (column 2 false))
    (inverted buf (column 1 true)) (inverted buf (column 1 false))
    (inverted buf (column 0 true)) (inverted buf (column 0 false))
    (if eccsize =? 512 then inverted buf (row 8 true) else 1)
    (if eccsize =? 512 then inverted buf (row 8 false) else 1).

Definition hamming (smc : bool) (eccsize : Z) (buf : list Z) : list Z :=
  if smc then [row_byte buf 0; row_byte buf 4; column_byte eccsize buf]
  else [row_byte buf 4; row_byte buf 0; column_byte eccsize buf].

(** ** The encoder *)

Definition byte (b : Z) : Prop := 0 <= b < 2 ^ 8.

(** The bits of an index that is composed of a block number and an offset. *)
Lemma testbit_split n i c k : 0 <= n -> 0 <= c < 2 ^ n -> 0 <= k ->
  Z.testbit (2 ^ n * i + c) k = if k <? n then Z.testbit c k else Z.testbit i (k - n).
Proof.
  intros Hn Hc Hk. destruct (Z.ltb_spec k n).
  - rewrite <- (Z.mod_pow2_bits_low _ n k) by lia. f_equal. rewrite Z.add_comm, Z.mul_comm, Z.mod_add by lia.
    by apply Z.mod_small.
  - replace k with (k - n + n) at 1 by lia. rewrite <- Z.div_pow2_bits by lia. f_equal.
    rewrite Z.add_comm, Z.mul_comm, Z.div_add by lia. rewrite Z.div_small by lia. lia.
Qed.

Definition word_at (buf : list Z) (j : Z) : Z :=
  default 0 buf.[4 * j] + 2 ^ 8 * (default 0 buf.[4 * j + 1] +
    2 ^ 8 * (default 0 buf.[4 * j + 2] + 2 ^ 8 * default 0 buf.[4 * j + 3])).

(** The exclusive or of words [0] to [n - 1]. *)
Fixpoint xsum (f : Z -> Z) (n : nat) : Z :=
  match n with O => 0 | S n => Z.lxor (xsum f n) (f (Z.of_nat n)) end.

Lemma xsum_ext f g n : (forall i, 0 <= i < Z.of_nat n -> f i = g i) -> xsum f n = xsum g n.
Proof.
  intros H. induction n as [|n IH]; [done|]. cbn [xsum]. rewrite IH, H by (intros; try apply H; lia). done.
Qed.

Lemma xsum_app f n m : xsum f (n + m) = Z.lxor (xsum f n) (xsum (fun i => f (Z.of_nat n + i)) m).
Proof.
  induction m as [|m IH]; [by rewrite Nat.add_0_r, Z.lxor_0_r|].
  rewrite Nat.add_succ_r. cbn [xsum]. rewrite IH, Z.lxor_assoc. do 3 f_equal. lia.
Qed.

Lemma word_parity_xsum m f n : word_parity m (xsum f n) = parity (fun j => word_parity m (f j)) n.
Proof.
  induction n as [|n IH]; cbn [xsum parity]; [apply word_parity_0|]. by rewrite word_parity_lxor, IH.
Qed.

(** The words whose number has bit [k] clear. *)
Definition clear_words (buf : list Z) (k j : Z) : Z := if Z.testbit j k then 0 else word_at buf j.

(** Reads one of the words of an iteration. *)
Ltac word Hn c := rewrite (Hn c) by lia; let c' := eval compute in (c + 1) in change (c + 1) with c';
  rewrite bind_Some; cbv beta iota.

Section Encoder.
Context (buf : list Z).

Lemma next_word_at j : 0 <= j -> 4 * j + 4 <= zlen buf ->
  next_word (drop (Z.to_nat (4 * j)) buf) = Some (word_at buf j, drop (Z.to_nat (4 * (j + 1))) buf).
Proof.
  intros Hj Hl.
  assert (forall c, 0 <= c < 4 -> drop (Z.to_nat (4 * j + c)) buf =
    default 0 buf.[4 * j + c] :: drop (Z.to_nat (4 * j + c + 1)) buf) as Hd.
  { intros c Hc. destruct (arr_get_is_Some buf (4 * j + c)) as [x Hx]; [lia|]. rewrite Hx. cbn [default from_option].
    apply arr_get_Some in Hx as [_ Hx]. rewrite (drop_S _ x) by done. f_equal. f_equal. lia. }
  pose proof (Hd 0 ltac:(lia)) as H0. rewrite !Z.add_0_r in H0. rewrite H0, (Hd 1) by lia.
  replace (4 * j + 1 + 1) with (4 * j + 2) by lia. rewrite (Hd 2) by lia.
  replace (4 * j + 2 + 1) with (4 * j + 3) by lia. rewrite (Hd 3) by lia. cbn [next_word].
  unfold word_at. do 2 f_equal. f_equal. lia.
Qed.

Lemma ecc_words_ok i r4 r6 r8 r10 : 0 <= i -> 64 * (i + 1) <= zlen buf ->
  let W k c := clear_words buf k (16 * i + c) in
  ecc_words (drop (Z.to_nat (64 * i)) buf) r4 r6 r8 r10 =
  Some (drop (Z.to_nat (64 * (i + 1))) buf, xsum (fun c => word_at buf (16 * i + c)) 16,
    Z.lxor r4 (xsum (W 0) 16), Z.lxor r6 (xsum (W 1) 16), Z.lxor r8 (xsum (W 2) 16), Z.lxor r10 (xsum (W 3) 16)).
Proof.
  intros Hi Hl W.
  assert (forall k, 0 <= k < 4 -> xsum (W k) 16 =
    xsum (fun c => if Z.testbit c k then 0 else word_at buf (16 * i + c)) 16) as WW.
  { intros k Hk. apply xsum_ext. intros c Hc. unfold W, clear_words. change 16 with (2 ^ 4).
    rewrite testbit_split by lia. by rewrite (proj2 (Z.ltb_lt k 4)) by lia. }
  assert (forall c, 0 <= c < 16 -> next_word (drop (Z.to_nat (4 * (16 * i + c))) buf) =
    Some (word_at buf (16 * i + c), drop (Z.to_nat (4 * (16 * i + (c + 1)))) buf)) as Hn.
  { intros c Hc. rewrite next_word_at by lia. do 2 f_equal. f_equal. lia. }
  replace (64 * i) with (4 * (16 * i + 0)) by lia. replace (64 * (i + 1)) with (4 * (16 * i + 16)) by lia.
  unfold ecc_words.
  word Hn 0. word Hn 1. word Hn 2. word Hn 3. word Hn 4. word Hn 5. word Hn 6. word Hn 7.
  word Hn 8. word Hn 9. word Hn 10. word Hn 11. word Hn 12. word Hn 13. word Hn 14. word Hn 15.
  rewrite !WW by lia. set (w c := word_at buf (16 * i + c)).
  cbv beta iota zeta delta [xsum Z.of_nat Pos.of_succ_nat Pos.succ Z.testbit Pos.testbit N.testbit Pos.pred_N Pos.pred_double].
  fold (w 0) (w 1) (w 2) (w 3) (w 4) (w 5) (w 6) (w 7) (w 8) (w 9) (w 10) (w 11) (w 12) (w 13) (w 14) (w 15).
  rewrite !Z.lxor_0_r, !Z.lxor_0_l, !Z.lxor_assoc. reflexivity.
Qed.

Lemma land_pow2_zero i k : 0 <= k -> (Z.land i (2 ^ k) =? 0) = negb (Z.testbit i k).
Proof.
  intros Hk. destruct (Z.testbit i k) eqn:E; cbn [negb].
  - apply Z.eqb_neq. intros H. assert (Z.testbit (Z.land i (2 ^ k)) k = false) as Hf by (rewrite H; apply Z.bits_0).
    rewrite Z.land_spec, Z.pow2_bits_true, E in Hf by lia. done.
  - apply Z.eqb_eq. apply Z.bits_inj_0. intros j. rewrite Z.land_spec, Z.pow2_bits_eqb by lia.
    destruct (Z.eqb_spec k j) as [<- | ?]; [by rewrite E|btauto].
Qed.

(** The parities over the first [16 * i] words. *)
Definition accumulated (eccsize_mult : Z) (i : Z) : parities :=
  let n := Z.to_nat (16 * i) in
  {| par := xsum (word_at buf) n;
     rp4 := xsum (clear_words buf 0) n; rp6 := xsum (clear_words buf 1) n;
     rp8 := xsum (clear_words buf 2) n; rp10 := xsum (clear_words buf 3) n;
     rp12 := xsum (clear_words buf 4) n; rp14 := xsum (clear_words buf 5) n;
     rp16 := if eccsize_mult =? 2 then xsum (clear_words buf 6) n else 0 |}.

Lemma xsum_next f i : 0 <= i ->
  xsum f (Z.to_nat (16 * (i + 1))) = Z.lxor (xsum f (Z.to_nat (16 * i))) (xsum (fun c => f (16 * i + c)) 16).
Proof.
  intros Hi. replace (Z.to_nat (16 * (i + 1))) with (Z.to_nat (16 * i) + 16)%nat by lia. rewrite xsum_app.
  f_equal. apply xsum_ext. intros c _. f_equal. lia.
Qed.

(** A row parity whose address bit is that of the iteration. *)
Lemma xsum_block k i : 0 <= i -> 4 <= k ->
  xsum (clear_words buf k) (Z.to_nat (16 * (i + 1))) =
  if negb (Z.testbit i (k - 4)) then Z.lxor (xsum (clear_words buf k) (Z.to_nat (16 * i))) (xsum (fun c => word_at buf (16 * i + c)) 16)
  else xsum (clear_words buf k) (Z.to_nat (16 * i)).
Proof.
  intros Hi Hk. rewrite xsum_next by done.
  rewrite (xsum_ext (fun c => clear_words buf k (16 * i + c))
    (fun c => if Z.testbit i (k - 4) then 0 else word_at buf (16 * i + c))).
  - destruct (Z.testbit i (k - 4)); cbn [negb]; [|done].
    cbv [xsum]. by rewrite !Z.lxor_0_r.
  - intros c Hc. unfold clear_words. change 16 with (2 ^ 4). rewrite testbit_split by lia.
    by rewrite (proj2 (Z.ltb_ge k 4)) by lia.
Qed.

Lemma ecc_loop_ok m : m = 1 \/ m = 2 -> zlen buf = 256 * m ->
  loop (ecc_body m) (4 * m + 1) (0, buf, mk_parities 0 0 0 0 0 0 0 0) = Some (accumulated m (4 * m)).
Proof.
  intros Hm Hl.
  destruct (loop_total (ecc_body m)
    (fun s => 0 <= s.1.1 <= 4 * m /\ s.1.2 = drop (Z.to_nat (64 * s.1.1)) buf /\ s.2 = accumulated m s.1.1)
    (fun s => 4 * m - s.1.1) (fun p => p = accumulated m (4 * m))) with
    (bound := 4 * m + 1) (s := (0, buf, mk_parities 0 0 0 0 0 0 0 0)) as (r & -> & ->); [| |cbn; lia|done].
  - intros [[i bp] p] (Hi & Hbp & Hp). cbn [fst snd] in *. subst bp p. split; cbn [fst snd]; [lia|].
    unfold ecc_body. rewrite Z.shiftl_mul_pow2 by lia. change (2 ^ 2) with 4.
    destruct (Z.ltb_spec i (m * 4)); [|f_equal; lia].
    rewrite ecc_words_ok, bind_Some by lia. cbn [fst snd]. split; [|lia]. split; [lia|]. split; [done|].
    unfold accumulated.
    rewrite (xsum_block 4), (xsum_block 5), (xsum_block 6) by lia. rewrite !xsum_next by lia. cbn [par rp4 rp6 rp8 rp10 rp12 rp14 rp16].
    change (Z.land i 1) with (Z.land i (2 ^ 0)). change (Z.land i 2) with (Z.land i (2 ^ 1)).
    change (Z.land i 4) with (Z.land i (2 ^ 2)). rewrite !land_pow2_zero by lia.
    destruct (m =? 2); done.
  - cbn [fst snd]. split; [lia|]. split; [done|]. unfold accumulated. by destruct (m =? 2).
Qed.
End Encoder.

(** *** From parity words to code bits *)

Definition byte_parity (v : Z) : bool := parity (Z.testbit v) 8.

Lemma invparity_table : invparity = (fun v => b2z (negb (byte_parity v))) <$> range256.
Proof. vm_compute. reflexivity. Qed.

Lemma invparity_ok v : byte v -> invparity.[v] = Some (b2z (negb (byte_parity v))).
Proof. intros Hv. rewrite invparity_table. by apply range256_get. Qed.

Lemma land_255 x : byte (Z.land x 0xff).
Proof. change 0xff with (2 ^ 8 - 1). rewrite land_ones_mod by lia. by apply Z.mod_pos_bound. Qed.

(** Parities of folded words, by their bits. *)
Ltac parity_bits := unfold byte_parity, word_parity, fold_word, fold_half; cbn [parity]; testbits;
  repeat match goal with
  | |- context [Z.testbit (Zpos ?p) ?i] =>
      let b := eval vm_compute in (Z.testbit (Zpos p) i) in change (Z.testbit (Zpos p) i) with b
  | |- context [Z.of_nat ?n + ?c] => let k := eval vm_compute in (Z.of_nat n + c) in change (Z.of_nat n + c) with k
  | |- context [Z.of_nat ?n] => let k := eval vm_compute in (Z.of_nat n) in change (Z.of_nat n) with k
  | |- context [Zpos ?p + ?c] => let k := eval vm_compute in (Zpos p + c) in change (Zpos p + c) with k
  end;
  repeat match goal with |- context [Z.testbit ?x ?i] => generalize (Z.testbit x i); intro end; btauto.

Lemma parity_fold x : byte_parity (fold_word x) = word_parity 0xffffffff x.
Proof. parity_bits. Qed.
Lemma parity_rp3 x : byte_parity (fold_half (Z.shiftr x 16)) = word_parity 0xffff0000 x.
Proof. parity_bits. Qed.
Lemma parity_rp2 x : byte_parity (fold_half (Z.land x 0xffff)) = word_parity 0x0000ffff x.
Proof. parity_bits. Qed.
Lemma parity_rp1 x : byte_parity (Z.land (Z.shiftr (Z.lxor x (Z.shiftr x 16)) 8) 0xff) = word_parity 0xff00ff00 x.
Proof. parity_bits. Qed.
Lemma parity_rp0 x : byte_parity (Z.land (Z.lxor x (Z.shiftr x 16)) 0xff) = word_parity 0x00ff00ff x.
Proof. parity_bits. Qed.
Lemma parity_f0 x : byte_parity (Z.land (fold_word x) 0xf0) = word_parity 0xf0f0f0f0 x.
Proof. parity_bits. Qed.
Lemma parity_0f x : byte_parity (Z.land (fold_word x) 0x0f) = word_parity 0x0f0f0f0f x.
Proof. parity_bits. Qed.
Lemma parity_cc x : byte_parity (Z.land (fold_word x) 0xcc) = word_parity 0xcccccccc x.
Proof. parity_bits. Qed.
Lemma parity_33 x : byte_parity (Z.land (fold_word x) 0x33) = word_parity 0x33333333 x.
Proof. parity_bits. Qed.
Lemma parity_aa x : byte_parity (Z.land (fold_word x) 0xaa) = word_parity 0xaaaaaaaa x.
Proof. parity_bits. Qed.
Lemma parity_55 x : byte_parity (Z.land (fold_word x) 0x55) = word_parity 0x55555555 x.
Proof. parity_bits. Qed.

Lemma parity_odd x y : byte_parity (Z.land (Z.lxor (fold_word x) (fold_word y)) 0xff) =
  word_parity 0xffffffff (Z.lxor x y).
Proof.
  rewrite word_parity_lxor, <- !parity_fold. unfold byte_parity. rewrite <- parity_xor.
  apply parity_ext. intros i Hi. testbits. change 0xff with (2 ^ 8 - 1). rewrite testbit_ones by lia.
  rewrite (proj2 (Z.leb_le 0 i)), (proj2 (Z.ltb_lt i 8)) by lia. btauto.
Qed.

Lemma byte_land x m : 0 <= x -> 0 <= m < 2 ^ 8 -> byte (Z.land x m).
Proof.
  intros Hx Hm. split; [apply Z.land_nonneg; lia|]. apply bits_bound; [lia|apply Z.land_nonneg; lia|].
  intros i Hi. rewrite Z.land_spec, (testbit_above 8 m) by lia. btauto.
Qed.

Lemma fold_byte x : byte (fold_word x).
Proof. apply land_255. Qed.
Lemma fold_half_byte x : byte (fold_half x).
Proof. apply land_255. Qed.

(** *** Words and bytes *)

Lemma parity_app f n m : parity f (n + m) = xorb (parity f n) (parity (fun i => f (Z.of_nat n + i)) m).
Proof.
  induction m as [|m IH]; [rewrite Nat.add_0_r; cbn; btauto|]. rewrite Nat.add_succ_r. cbn [parity].
  rewrite IH, Nat2Z.inj_add. btauto.
Qed.

(** The bits of the four bytes of a word. *)
Lemma word_parity_bytes m b0 b1 b2 b3 : byte b0 -> byte b1 -> byte b2 ->
  let lane l b := parity (fun c => Z.testbit m (8 * l + c) && Z.testbit b c) 8 in
  word_parity m (b0 + 2 ^ 8 * (b1 + 2 ^ 8 * (b2 + 2 ^ 8 * b3))) =
  xorb (xorb (xorb (lane 0 b0) (lane 1 b1)) (lane 2 b2)) (lane 3 b3).
Proof.
  intros H0 H1 H2 lane. unfold word_parity. change 32%nat with (8 + 8 + 8 + 8)%nat. rewrite !parity_app.
  rewrite !(Z.add_comm _ (2 ^ 8 * _)).
  unfold byte in *. f_equal; [f_equal; [f_equal|]|]; apply parity_ext; intros c Hc; f_equal;
    repeat (rewrite testbit_split by lia; match goal with |- context [if ?i <? 8 then _ else _] =>
      destruct (Z.ltb_spec i 8); [|try lia]; try lia end); f_equal; lia.
Qed.

Lemma block_byte buf i : Forall byte buf -> byte (default 0 buf.[i]).
Proof.
  intros Hb. destruct (buf.[i]) as [x|] eqn:E; cbn; [|split; lia]. apply arr_get_Some in E as [_ E].
  by eapply Forall_lookup_1 in E.
Qed.

Definition parity_bit (v : Z) : Z := b2z (negb (byte_parity v)).

Section Code.
Context (buf : list Z) (n : nat) (Hb : Forall byte buf) (Hlen : length buf = (4 * n)%nat).

(** A parity over the block from the parities of its words. *)
Lemma block_words m g sel :
  (forall j l c, 0 <= j -> 0 <= l < 4 -> 0 <= c < 8 -> sel (4 * j + l) c = g j && Z.testbit m (8 * l + c)) ->
  block_parity buf sel = parity (fun j => g j && word_parity m (word_at buf j)) n.
Proof.
  intros Hs. unfold block_parity. rewrite Hlen, parity_four. apply parity_ext. intros j Hj.
  unfold word_at. rewrite word_parity_bytes by by apply block_byte.
  assert (forall l, 0 <= l < 4 -> forall b, parity (fun c => sel (4 * j + l) c && Z.testbit b c) 8 =
    g j && parity (fun c => Z.testbit m (8 * l + c) && Z.testbit b c) 8) as H.
  { intros l Hl b. rewrite <- parity_guard. apply parity_ext. intros c Hc. rewrite Hs by lia. btauto. }
  pose proof (H 0 ltac:(lia)) as H0. rewrite Z.add_0_r in H0.
  rewrite H0, (H 1), (H 2), (H 3) by lia. btauto.
Qed.

Lemma code_mask m sel :
  (forall j l c, 0 <= j -> 0 <= l < 4 -> 0 <= c < 8 -> sel (4 * j + l) c = Z.testbit m (8 * l + c)) ->
  word_parity m (xsum (word_at buf) n) = block_parity buf sel.
Proof. intros Hs. rewrite word_parity_xsum, (block_words m (fun _ => true) sel); [done|]. exact Hs. Qed.

Lemma row_word k v j l c : 0 <= k -> 0 <= l < 4 -> row (k + 2) v (4 * j + l) c = eqb (Z.testbit j k) v.
Proof.
  intros Hk Hl. unfold row. change 4 with (2 ^ 2). rewrite testbit_split by lia.
  rewrite (proj2 (Z.ltb_ge _ _)) by lia. do 2 f_equal. lia.
Qed.

Lemma all_ones i : 0 <= i < 32 -> Z.testbit 0xffffffff i = true.
Proof.
  intros Hi. change 0xffffffff with (2 ^ 32 - 1). rewrite testbit_ones by lia.
  by rewrite (proj2 (Z.leb_le 0 i)), (proj2 (Z.ltb_lt i 32)) by lia.
Qed.

Lemma clear_words_parity m k j :
  word_parity m (clear_words buf k j) = negb (Z.testbit j k) && word_parity m (word_at buf j).
Proof. unfold clear_words. destruct (Z.testbit j k); [apply word_parity_0|done]. Qed.

Lemma code_even k : 0 <= k ->
  word_parity 0xffffffff (xsum (clear_words buf k) n) = block_parity buf (row (k + 2) false).
Proof.
  intros Hk. rewrite word_parity_xsum, (block_words 0xffffffff (fun j => negb (Z.testbit j k))).
  - apply parity_ext. intros j _. apply clear_words_parity.
  - intros j l c Hj Hl Hc. rewrite row_word, all_ones by lia. by destruct (Z.testbit j k).
Qed.

Lemma code_odd k : 0 <= k ->
  word_parity 0xffffffff (Z.lxor (xsum (word_at buf) n) (xsum (clear_words buf k) n)) =
  block_parity buf (row (k + 2) true).
Proof.
  intros Hk. rewrite word_parity_lxor, !word_parity_xsum, <- parity_xor, (block_words 0xffffffff (fun j => Z.testbit j k)).
  - apply parity_ext. intros j _. rewrite clear_words_parity. btauto.
  - intros j l c Hj Hl Hc. rewrite row_word, all_ones by lia. by destruct (Z.testbit j k).
Qed.

(** The lanes and bits a mask selects, checked one by one. *)
Lemma lane_check (P : Z -> Z -> bool) :
  forallb (fun l => forallb (fun c => P (Z.of_nat l) (Z.of_nat c)) (seq 0 8)) (seq 0 4) = true ->
  forall l c, 0 <= l < 4 -> 0 <= c < 8 -> P l c = true.
Proof.
  intros H l c Hl Hc. rewrite forallb_forall in H.
  specialize (H (Z.to_nat l) ltac:(apply in_seq; lia)). rewrite forallb_forall in H.
  specialize (H (Z.to_nat c) ltac:(apply in_seq; lia)). by rewrite !Z2Nat.id in H by lia.
Qed.

Lemma code_low k v m : 0 <= k < 2 ->
  forallb (fun l => forallb (fun c => eqb (eqb (Z.testbit (Z.of_nat l) k) v)
    (Z.testbit m (8 * Z.of_nat l + Z.of_nat c))) (seq 0 8)) (seq 0 4) = true ->
  word_parity m (xsum (word_at buf) n) = block_parity buf (row k v).
Proof.
  intros Hk H. apply code_mask. intros j l c Hj Hl Hc. unfold row. change 4 with (2 ^ 2).
  rewrite testbit_split by lia. rewrite (proj2 (Z.ltb_lt k 2)) by lia.
  apply eqb_prop. exact (lane_check (fun l c => eqb (eqb (Z.testbit l k) v) (Z.testbit m (8 * l + c))) H l c Hl Hc).
Qed.

Lemma code_column k v m :
  forallb (fun l => forallb (fun c => eqb (eqb (Z.testbit (Z.of_nat c) k) v)
    (Z.testbit m (8 * Z.of_nat l + Z.of_nat c))) (seq 0 8)) (seq 0 4) = true ->
  word_parity m (xsum (word_at buf) n) = block_parity buf (column k v).
Proof.
  intros H. apply code_mask. intros j l c Hj Hl Hc. unfold column.
  apply eqb_prop. exact (lane_check (fun l c => eqb (eqb (Z.testbit c k) v) (Z.testbit m (8 * l + c))) H l c Hl Hc).
Qed.

(** The code bits, by the folded bytes they are the parity of. *)
Lemma bit_odd k : 0 <= k ->
  parity_bit (Z.land (Z.lxor (fold_word (xsum (word_at buf) n)) (fold_word (xsum (clear_words buf k) n))) 0xff) =
  inverted buf (row (k + 2) true).
Proof. intros Hk. unfold parity_bit. by rewrite parity_odd, code_odd. Qed.

Lemma bit_even k : 0 <= k ->
  parity_bit (fold_word (xsum (clear_words buf k) n)) = inverted buf (row (k + 2) false).
Proof. intros Hk. unfold parity_bit. by rewrite parity_fold, code_even. Qed.

Lemma low_bits : let P := xsum (word_at buf) n in
  parity_bit (fold_half (Z.shiftr P 16)) = inverted buf (row 1 true) /\
  parity_bit (fold_half (Z.land P 0xffff)) = inverted buf (row 1 false) /\
  parity_bit (Z.land (Z.shiftr (Z.lxor P (Z.shiftr P 16)) 8) 0xff) = inverted buf (row 0 true) /\
  parity_bit (Z.land (Z.lxor P (Z.shiftr P 16)) 0xff) = inverted buf (row 0 false).
Proof.
  intros P. unfold parity_bit. rewrite parity_rp3, parity_rp2, parity_rp1, parity_rp0. unfold inverted, P.
  do 3 (split; [do 2 f_equal; apply code_low; [lia|reflexivity]|]). do 2 f_equal. apply code_low; [lia|reflexivity].
Qed.

Lemma column_bits : let P := xsum (word_at buf) n in
  parity_bit (Z.land (fold_word P) 0xf0) = inverted buf (column 2 true) /\
  parity_bit (Z.land (fold_word P) 0x0f) = inverted buf (column 2 false) /\
  parity_bit (Z.land (fold_word P) 0xcc) = inverted buf (column 1 true) /\
  parity_bit (Z.land (fold_word P) 0x33) = inverted buf (column 1 false) /\
  parity_bit (Z.land (fold_word P) 0xaa) = inverted buf (column 0 true) /\
  parity_bit (Z.land (fold_word P) 0x55) = inverted buf (column 0 false).
Proof.
  intros P. unfold parity_bit. rewrite parity_f0, parity_0f, parity_cc, parity_33, parity_aa, parity_55.
  unfold inverted, P. do 5 (split; [do 2 f_equal; apply code_column; reflexivity|]).
  do 2 f_equal. apply code_column. reflexivity.
Qed.
End Code.

Lemma code_byte_ok r7 r6 r5 r4 r3 r2 r1 r0 :
  byte r7 -> byte r6 -> byte r5 -> byte r4 -> byte r3 -> byte r2 -> byte r1 -> byte r0 ->
  code_byte r7 r6 r5 r4 r3 r2 r1 r0 = Some (bits8 (parity_bit r7) (parity_bit r6) (parity_bit r5) (parity_bit r4)
    (parity_bit r3) (parity_bit r2) (parity_bit r1) (parity_bit r0)).
Proof. intros. unfold code_byte. by rewrite !invparity_ok by done. Qed.

Lemma code_byte6_ok r7 r6 r5 r4 r3 r2 : byte r7 -> byte r6 -> byte r5 -> byte r4 -> byte r3 -> byte r2 ->
  code_byte6 r7 r6 r5 r4 r3 r2 = Some (bits8 (parity_bit r7) (parity_bit r6) (parity_bit r5) (parity_bit r4)
    (parity_bit r3) (parity_bit r2) 1 1).
Proof.
  intros. unfold code_byte6. rewrite !invparity_ok by done. cbn [mbind option_bind]. unfold bits8. f_equal.
  by rewrite <- !Z.lor_assoc.
Qed.

Lemma calculate_ok smc buf m c0 c1 c2 : m = 1 \/ m = 2 -> Forall byte buf -> zlen buf = 256 * m ->
  __nand_calculate_ecc smc buf (256 * m) [c0; c1; c2] = Some (hamming smc (256 * m) buf).
Proof.
  intros Hm Hb Hl. unfold __nand_calculate_ecc. rewrite Z.shiftr_div_pow2 by lia. change (2 ^ 8) with 256.
  rewrite (Z.mul_comm 256 m), Z.div_mul by lia. rewrite ecc_loop_ok by (done || lia). rewrite bind_Some.
  assert (length buf = (4 * Z.to_nat (16 * (4 * m)))%nat) as Hlen by (unfold zlen in Hl; lia).
  unfold ecc_code, accumulated. cbn [par rp4 rp6 rp8 rp10 rp12 rp14 rp16].
  set (n := Z.to_nat (16 * (4 * m))) in *. set (P := xsum (word_at buf) n).
  change (fold_half (Z.lxor P (Z.shiftr P 16))) with (fold_word P).
  pose proof (bit_odd buf n Hb Hlen) as Bo. pose proof (bit_even buf n Hb Hlen) as Be.
  destruct (low_bits buf n Hb Hlen) as (L1 & L2 & L3 & L4).
  destruct (column_bits buf n Hb Hlen) as (C1 & C2 & C3 & C4 & C5 & C6).
  assert (forall x m, 0 <= m < 2 ^ 8 -> byte (Z.land (fold_word x) m)) as Hbyte
    by (intros; apply byte_land; [apply fold_byte|done]).
  rewrite !code_byte_ok, bind_Some, bind_Some by (apply land_255 || apply fold_byte).
  destruct Hm as [-> | ->]; cbn [Z.eqb Pos.eqb].
  - rewrite code_byte6_ok by (apply Hbyte; lia).
    fold P in Bo, L1, L2, L3, L4, C1, C2, C3, C4, C5, C6.
    rewrite !Bo, !Be, L1, L2, L3, L4, C1, C2, C3, C4, C5, C6 by lia. destruct smc; reflexivity.
  - rewrite !bind_Some, code_byte_ok by (apply land_255 || apply fold_byte || (apply Hbyte; lia)).
    fold P in Bo, L1, L2, L3, L4, C1, C2, C3, C4, C5, C6.
    rewrite !Bo, !Be, L1, L2, L3, L4, C1, C2, C3, C4, C5, C6 by lia. destruct smc; reflexivity.
Qed.

(** ** The decoder *)

(** Bit [c] of byte [p] is inverted. *)
Definition flip (buf : list Z) (p c : Z) : list Z := <[Z.to_nat p := Z.lxor (default 0 buf.[p]) (2 ^ c)]> buf.

Lemma flip_get buf p c i : 0 <= p < zlen buf ->
  default 0 (flip buf p c).[i] = if i =? p then Z.lxor (default 0 buf.[p]) (2 ^ c) else default 0 buf.[i].
Proof.
  intros Hp. unfold flip. rewrite arr_get_insert by done. destruct (Z.eqb_spec i p); case_decide; by (subst || congruence).
Qed.

Lemma flip_bytes buf p c : Forall byte buf -> 0 <= c < 8 -> Forall byte (flip buf p c).
Proof.
  intros Hb Hc. apply Forall_insert; [done|]. pose proof (block_byte buf p Hb) as H.
  assert (0 <= 2 ^ c) by (apply Z.pow_nonneg; lia).
  assert (0 <= Z.lxor (default 0 buf.[p]) (2 ^ c)) by (apply Z.lxor_nonneg; unfold byte in H; lia).
  split; [done|]. apply bits_bound; [lia|done|]. intros i Hi.
  rewrite Z.lxor_spec, (testbit_above 8) by done. by rewrite Z.pow2_bits_false by lia.
Qed.

Lemma zlen_flip buf p c : zlen (flip buf p c) = zlen buf.
Proof. unfold zlen, flip. by rewrite length_insert. Qed.

Lemma block_parity_flip buf p c sel : 0 <= p < zlen buf -> 0 <= c < 8 ->
  block_parity (flip buf p c) sel = xorb (block_parity buf sel) (sel p c).
Proof.
  intros Hp Hc. unfold block_parity. replace (length (flip buf p c)) with (length buf) by (symmetry; apply length_insert).
  rewrite (parity_flip (fun p => parity (fun c => sel p c && Z.testbit (default 0 buf.[p]) c) 8) _ (length buf) p).
  - rewrite flip_get, Z.eqb_refl by done. f_equal.
    rewrite (parity_flip (fun c => sel p c && Z.testbit (default 0 buf.[p]) c)
      (fun i => sel p i && Z.testbit (Z.lxor (default 0 buf.[p]) (2 ^ c)) i) 8 c) by
      (try lia; intros i Hi; rewrite Z.lxor_spec, Z.pow2_bits_false by lia; f_equal; btauto).
    rewrite Z.lxor_spec, Z.pow2_bits_true by lia. generalize (parity (fun c => sel p c && Z.testbit (default 0 buf.[p]) c) 8).
    generalize (Z.testbit (default 0 buf.[p]) c), (sel p c). intros a b d. btauto.
  - unfold zlen in Hp. lia.
  - intros i Hi. rewrite flip_get by done. by rewrite (proj2 (Z.eqb_neq i p) Hi).
Qed.

(** A byte from eight truth values. *)
Definition byte_of (a7 a6 a5 a4 a3 a2 a1 a0 : bool) : Z :=
  bits8 (b2z a7) (b2z a6) (b2z a5) (b2z a4) (b2z a3) (b2z a2) (b2z a1) (b2z a0).

Lemma testbit_b2z a j : Z.testbit (b2z a) j = a && (j =? 0).
Proof.
  destruct a; cbn [b2z andb]; [|apply Z.bits_0]. destruct (Z.eqb_spec j 0) as [-> | H]; [done|].
  destruct (Z.ltb_spec j 0); [by apply Z.testbit_neg_r|]. by apply (testbit_above 1); lia.
Qed.

Lemma byte_of_lxor a7 a6 a5 a4 a3 a2 a1 a0 b7 b6 b5 b4 b3 b2 b1 b0 :
  Z.lxor (byte_of a7 a6 a5 a4 a3 a2 a1 a0) (byte_of b7 b6 b5 b4 b3 b2 b1 b0) =
  byte_of (xorb a7 b7) (xorb a6 b6) (xorb a5 b5) (xorb a4 b4) (xorb a3 b3) (xorb a2 b2) (xorb a1 b1) (xorb a0 b0).
Proof.
  apply Z.bits_inj'. intros i Hi. unfold byte_of, bits8. testbits. rewrite !testbit_b2z.
  assert (i = 0 \/ i = 1 \/ i = 2 \/ i = 3 \/ i = 4 \/ i = 5 \/ i = 6 \/ i = 7 \/ 8 <= i) as Hc by lia.
  destruct Hc as [-> |[-> |[-> |[-> |[-> |[-> |[-> |[-> |Hc]]]]]]]]; 
    rewrite ?(proj2 (Z.eqb_neq _ 0)), ?Z.eqb_refl by lia;
    rewrite ?andb_false_r, ?andb_true_r, ?orb_false_r, ?orb_false_l; reflexivity.
Qed.

(** What an error at an address leaves of four and of three code bit pairs. *)
Definition address_byte (p k : Z) : Z :=
  byte_of (Z.testbit p (k + 3)) (negb (Z.testbit p (k + 3))) (Z.testbit p (k + 2)) (negb (Z.testbit p (k + 2)))
    (Z.testbit p (k + 1)) (negb (Z.testbit p (k + 1))) (Z.testbit p k) (negb (Z.testbit p k)).
Definition bit_byte (m p c : Z) : Z :=
  byte_of (Z.testbit c 2) (negb (Z.testbit c 2)) (Z.testbit c 1) (negb (Z.testbit c 1))
    (Z.testbit c 0) (negb (Z.testbit c 0)) ((m =? 2) && Z.testbit p 8) ((m =? 2) && negb (Z.testbit p 8)).

Lemma row_byte_of buf k : row_byte buf k =
  byte_of (negb (block_parity buf (row (k + 3) true))) (negb (block_parity buf (row (k + 3) false)))
    (negb (block_parity buf (row (k + 2) true))) (negb (block_parity buf (row (k + 2) false)))
    (negb (block_parity buf (row (k + 1) true))) (negb (block_parity buf (row (k + 1) false)))
    (negb (block_parity buf (row k true))) (negb (block_parity buf (row k false))).
Proof. done. Qed.

Lemma column_byte_of m buf : m = 1 \/ m = 2 -> column_byte (256 * m) buf =
  byte_of (negb (block_parity buf (column 2 true))) (negb (block_parity buf (column 2 false)))
    (negb (block_parity buf (column 1 true))) (negb (block_parity buf (column 1 false)))
    (negb (block_parity buf (column 0 true))) (negb (block_parity buf (column 0 false)))
    (negb ((m =? 2) && block_parity buf (row 8 true))) (negb ((m =? 2) && block_parity buf (row 8 false))).
Proof. by intros [-> | ->]. Qed.

Lemma eqb_true a : eqb a true = a.
Proof. by destruct a. Qed.
Lemma eqb_false a : eqb a false = negb a.
Proof. by destruct a. Qed.

Lemma xorb_flip a s : xorb (negb a) (negb (xorb a s)) = s.
Proof. btauto. Qed.

Lemma row_syndrome buf p c k : 0 <= p < zlen buf -> 0 <= c < 8 ->
  Z.lxor (row_byte buf k) (row_byte (flip buf p c) k) = address_byte p k.
Proof.
  intros Hp Hc. rewrite !row_byte_of, !block_parity_flip, byte_of_lxor, !xorb_flip by done.
  unfold row, address_byte. by rewrite !eqb_true, !eqb_false.
Qed.

Lemma column_syndrome m buf p c : m = 1 \/ m = 2 -> 0 <= p < zlen buf -> 0 <= c < 8 ->
  Z.lxor (column_byte (256 * m) buf) (column_byte (256 * m) (flip buf p c)) = bit_byte m p c.
Proof.
  intros Hm Hp Hc. rewrite !column_byte_of, !block_parity_flip, byte_of_lxor, !xorb_flip by done.
  unfold row, column, bit_byte. rewrite !eqb_true, !eqb_false.
  destruct (m =? 2); cbn [andb]; [by rewrite !xorb_flip|]. by rewrite !xorb_nilpotent.
Qed.

(** The parts of an address. *)
Definition nibble (p k : Z) : Z :=
  8 * b2z (Z.testbit p (k + 3)) + 4 * b2z (Z.testbit p (k + 2)) + 2 * b2z (Z.testbit p (k + 1)) + b2z (Z.testbit p k).

Lemma b2z_testbit p k : 0 <= k -> b2z (Z.testbit p k) = (p / 2 ^ k) mod 2.
Proof. intros Hk. exact (Z.testbit_spec' p k Hk). Qed.

Lemma address_parts p : 0 <= p < 512 -> p = Z.shiftl (b2z (Z.testbit p 8)) 8 + Z.shiftl (nibble p 4) 4 + nibble p 0.
Proof.
  intros Hp. rewrite !Z.shiftl_mul_pow2 by lia. unfold nibble. rewrite !b2z_testbit by lia.
  change (4 + 3) with 7. change (4 + 2) with 6. change (4 + 1) with 5.
  change (0 + 3) with 3. change (0 + 2) with 2. change (0 + 1) with 1.
  change (2 ^ 8) with 256. change (2 ^ 7) with 128. change (2 ^ 6) with 64. change (2 ^ 5) with 32.
  change (2 ^ 4) with 16. change (2 ^ 3) with 8. change (2 ^ 2) with 4. change (2 ^ 1) with 2. change (2 ^ 0) with 1. zlia.
Qed.

Lemma bit_parts c : 0 <= c < 8 ->
  c = 4 * b2z (Z.testbit c 2) + 2 * b2z (Z.testbit c 1) + b2z (Z.testbit c 0).
Proof.
  intros Hc. rewrite !b2z_testbit by lia. change (2 ^ 2) with 4. change (2 ^ 1) with 2. change (2 ^ 0) with 1. zlia.
Qed.

(** The decoder sees the differences of the code bytes. *)
Lemma correct_hamming smc m d buf buf' : m = 1 \/ m = 2 ->
  __nand_correct_data smc d (hamming smc (256 * m) buf) (hamming smc (256 * m) buf') (256 * m) =
  nand_repair m (Z.lxor (row_byte buf 0) (row_byte buf' 0)) (Z.lxor (row_byte buf 4) (row_byte buf' 4))
    (Z.lxor (column_byte (256 * m) buf) (column_byte (256 * m) buf')) d.
Proof. intros Hm. destruct Hm as [-> | ->], smc; reflexivity. Qed.

Lemma address_byte_single p k : let b := address_byte p k in
  b <> 0 /\ Z.land (Z.lxor b (Z.shiftr b 1)) 0x55 = 0x55 /\ addressbits.[b] = Some (nibble p k).
Proof.
  unfold address_byte, nibble.
  by destruct (Z.testbit p (k + 3)), (Z.testbit p (k + 2)), (Z.testbit p (k + 1)), (Z.testbit p k).
Qed.

Lemma bit_byte_single m p c : m = 1 \/ m = 2 -> 0 <= c < 8 -> let b := bit_byte m p c in
  (m =? 1) && (Z.land (Z.lxor b (Z.shiftr b 1)) 0x54 =? 0x54) ||
    (m =? 2) && (Z.land (Z.lxor b (Z.shiftr b 1)) 0x55 =? 0x55) = true /\
  addressbits.[Z.land b 0x3] = Some (b2z ((m =? 2) && Z.testbit p 8)) /\
  addressbits.[Z.shiftr b 2] = Some c.
Proof.
  intros Hm Hc b. rewrite (bit_parts c Hc). unfold b, bit_byte.
  destruct Hm as [-> | ->], (Z.testbit p 8), (Z.testbit c 2), (Z.testbit c 1), (Z.testbit c 0); done.
Qed.

Lemma flip_back buf p c : Forall byte buf -> 0 <= p < zlen buf -> 0 <= c < 8 ->
  exists y, (flip buf p c).[p] = Some y /\ (flip buf p c).[p <- u8 (Z.lxor y (Z.shiftl 1 c))] = Some buf.
Proof.
  intros Hb Hp Hc. destruct (arr_get_is_Some buf p Hp) as [x Hx]. exists (Z.lxor x (2 ^ c)).
  pose proof (block_byte buf p Hb) as Hbx. rewrite Hx in Hbx. cbn in Hbx. unfold flip. rewrite Hx. cbn [default from_option].
  rewrite arr_get_insert, decide_True by done. split; [done|].
  rewrite arr_set_Some by (rewrite zlen_insert; done). f_equal. rewrite Z.shiftl_mul_pow2, Z.mul_1_l by lia.
  rewrite Z.lxor_assoc, Z.lxor_nilpotent, Z.lxor_0_r, u8_small by (unfold byte in Hbx; lia).
  rewrite list_insert_insert_eq. apply list_insert_id. by apply arr_get_Some in Hx as [_ Hx].
Qed.

(** A single error is repaired. *)
Lemma repair_single m buf p c : m = 1 \/ m = 2 -> Forall byte buf -> zlen buf = 256 * m -> 0 <= p < zlen buf -> 0 <= c < 8 ->
  nand_repair m (address_byte p 0) (address_byte p 4) (bit_byte m p c) (flip buf p c) = Some (1, buf).
Proof.
  intros Hm Hb Hl Hp Hc.
  destruct (address_byte_single p 0) as (N0 & T0 & A0). destruct (address_byte_single p 4) as (_ & T1 & A1).
  destruct (bit_byte_single m p c Hm Hc) as (T2 & A2 & A3). unfold nand_repair.
  rewrite (proj2 (Z.eqb_neq _ 0)) by (rewrite !Z.lor_eq_0_iff; tauto).
  rewrite T0, T1, T2, A0, A1, A2, A3. cbn [Z.eqb Pos.eqb andb mbind option_bind].
  assert ((if m =? 1 then Some (Z.shiftl (nibble p 4) 4 + nibble p 0)
    else Some (Z.shiftl (b2z ((m =? 2) && Z.testbit p 8)) 8 + Z.shiftl (nibble p 4) 4 + nibble p 0)) = Some p) as ->.
  { pose proof (address_parts p). destruct Hm as [-> | ->]; cbn [Z.eqb Pos.eqb andb]; f_equal; [|lia].
    rewrite (testbit_above 8 p) in H by lia. change (Z.shiftl (b2z false) 8) with 0 in H. lia. }
  rewrite bind_Some. destruct (flip_back buf p c Hb Hp Hc) as (y & -> & Hy). by rewrite bind_Some, Hy.
Qed.

(** The same bits of two addresses. *)
Definition pair_byte (e3 e2 e1 e0 : bool) : Z := byte_of e3 e3 e2 e2 e1 e1 e0 e0.

Lemma pair_byte_ok e3 e2 e1 e0 : let b := pair_byte e3 e2 e1 e0 in
  (Z.land (Z.lxor b (Z.shiftr b 1)) 0x55 =? 0x55) = false /\
  (exists n, bitsperbyte.[b] = Some (2 * n)) /\
  (b = 0 -> e3 = false /\ e2 = false /\ e1 = false /\ e0 = false).
Proof.
  unfold pair_byte. split; [|split].
  - by destruct e3, e2, e1, e0.
  - exists (b2z e3 + b2z e2 + b2z e1 + b2z e0). by destruct e3, e2, e1, e0.
  - by destruct e3, e2, e1, e0.
Qed.

Lemma xorb_negb a b : xorb (negb a) (negb b) = xorb a b.
Proof. btauto. Qed.

Lemma address_pair p q k : Z.lxor (address_byte p k) (address_byte q k) =
  pair_byte (xorb (Z.testbit p (k + 3)) (Z.testbit q (k + 3))) (xorb (Z.testbit p (k + 2)) (Z.testbit q (k + 2)))
    (xorb (Z.testbit p (k + 1)) (Z.testbit q (k + 1))) (xorb (Z.testbit p k) (Z.testbit q k)).
Proof. unfold address_byte. by rewrite byte_of_lxor, !xorb_negb. Qed.

Lemma bit_pair m p q c d : Z.lxor (bit_byte m p c) (bit_byte m q d) =
  pair_byte (xorb (Z.testbit c 2) (Z.testbit d 2)) (xorb (Z.testbit c 1) (Z.testbit d 1))
    (xorb (Z.testbit c 0) (Z.testbit d 0)) ((m =? 2) && xorb (Z.testbit p 8) (Z.testbit q 8)).
Proof. unfold bit_byte. rewrite byte_of_lxor, !xorb_negb. unfold pair_byte. f_equal; btauto. Qed.

(** Two positions without a difference are the same. *)
Lemma same_position m p c q e : m = 1 \/ m = 2 -> 0 <= p < 256 * m -> 0 <= q < 256 * m -> 0 <= c < 8 -> 0 <= e < 8 ->
  Z.lxor (address_byte p 0) (address_byte q 0) = 0 -> Z.lxor (address_byte p 4) (address_byte q 4) = 0 ->
  Z.lxor (bit_byte m p c) (bit_byte m q e) = 0 -> (p, c) = (q, e).
Proof.
  intros Hm Hp Hq Hc He. rewrite !address_pair, bit_pair. intros H0 H1 H2.
  apply pair_byte_ok in H0 as (E3%xorb_eq & E2%xorb_eq & E1%xorb_eq & E0%xorb_eq).
  apply pair_byte_ok in H1 as (E7%xorb_eq & E6%xorb_eq & E5%xorb_eq & E4%xorb_eq).
  apply pair_byte_ok in H2 as (C2%xorb_eq & C1%xorb_eq & C0%xorb_eq & E8).
  assert (Z.testbit p 8 = Z.testbit q 8) as E8'.
  { destruct Hm as [-> | ->]; [by rewrite !(testbit_above 8) by lia|]. by apply xorb_eq. }
  f_equal.
  - rewrite (address_parts p), (address_parts q) by lia. unfold nibble. congruence.
  - rewrite (bit_parts c), (bit_parts e) by lia. congruence.
Qed.

(** A double error is recognised. *)
Lemma repair_double m buf p c q e : m = 1 \/ m = 2 -> 0 <= p < 256 * m -> 0 <= q < 256 * m -> 0 <= c < 8 -> 0 <= e < 8 ->
  (p, c) <> (q, e) ->
  nand_repair m (Z.lxor (address_byte p 0) (address_byte q 0)) (Z.lxor (address_byte p 4) (address_byte q 4))
    (Z.lxor (bit_byte m p c) (bit_byte m q e)) buf = Some (-1, buf).
Proof.
  intros Hm Hp Hq Hc He Hne. unfold nand_repair. rewrite (proj2 (Z.eqb_neq _ 0)).
  2: { rewrite !Z.lor_eq_0_iff. intros [[H0 H1] H2]. by apply Hne, (same_position m). }
  rewrite !address_pair, bit_pair. match goal with |- context [Z.land (Z.lxor (pair_byte ?a ?b ?c ?d) _) 0x55] =>
    destruct (pair_byte_ok a b c d) as (-> & (n0 & ->) & _) end.
  match goal with |- context [bitsperbyte.[pair_byte ?a ?b ?c ?d]] => destruct (pair_byte_ok a b c d) as (_ & (n1 & ->) & _) end.
  match goal with |- context [bitsperbyte.[pair_byte ?a ?b ?c ?d]] => destruct (pair_byte_ok a b c d) as (_ & (n2 & ->) & _) end.
  cbn [andb mbind option_bind]. by rewrite (proj2 (Z.eqb_neq _ 1)) by lia.
Qed.

(** An error in the stored code is recognised, and the data is left. *)
Lemma repair_code m buf b : m = 1 \/ m = 2 -> 0 <= b < 8 ->
  nand_repair m (2 ^ b) 0 0 buf = Some (1, buf) /\ nand_repair m 0 (2 ^ b) 0 buf = Some (1, buf) /\
  nand_repair m 0 0 (2 ^ b) buf = Some (1, buf).
Proof.
  intros Hm Hb. assert (b = 0 \/ b = 1 \/ b = 2 \/ b = 3 \/ b = 4 \/ b = 5 \/ b = 6 \/ b = 7) as Hc by lia.
  destruct Hm as [-> | ->], Hc as [-> |[-> |[-> |[-> |[-> |[-> |[-> | ->]]]]]]]; repeat split; reflexivity.
Qed.

Lemma eccsize_mult eccsize : eccsize = 256 \/ eccsize = 512 -> exists m, (m = 1 \/ m = 2) /\ eccsize = 256 * m.
Proof. intros [-> | ->]; [exists 1|exists 2]; split; auto. Qed.

Lemma decode_single smc m buf p c : m = 1 \/ m = 2 -> Forall byte buf -> zlen buf = 256 * m ->
  0 <= p < zlen buf -> 0 <= c < 8 ->
  __nand_correct_data smc (flip buf p c) (hamming smc (256 * m) buf) (hamming smc (256 * m) (flip buf p c)) (256 * m) =
  Some (1, buf).
Proof.
  intros. rewrite correct_hamming, !row_syndrome, column_syndrome by done. by apply repair_single.
Qed.

Lemma decode_double smc m buf p c q e : m = 1 \/ m = 2 -> zlen buf = 256 * m ->
  0 <= p < zlen buf -> 0 <= q < zlen buf -> 0 <= c < 8 -> 0 <= e < 8 -> (p, c) <> (q, e) ->
  let buf' := flip (flip buf p c) q e in
  __nand_correct_data smc buf' (hamming smc (256 * m) buf) (hamming smc (256 * m) buf') (256 * m) = Some (-1, buf').
Proof.
  intros Hm Hl Hp Hq Hc He Hne buf'. rewrite correct_hamming by done.
  assert (forall a b c, Z.lxor a c = Z.lxor (Z.lxor a b) (Z.lxor b c)) as Hx.
  { intros a b c'. rewrite Z.lxor_assoc, <- (Z.lxor_assoc b b), Z.lxor_nilpotent, Z.lxor_0_l. done. }
  rewrite (Hx (row_byte buf 0) (row_byte (flip buf p c) 0)), (Hx (row_byte buf 4) (row_byte (flip buf p c) 4)),
    (Hx (column_byte (256 * m) buf) (column_byte (256 * m) (flip buf p c))). unfold buf'.
  rewrite !row_syndrome, !column_syndrome by (rewrite ?zlen_flip; done).
  apply repair_double; (done || lia).
Qed.

Lemma decode_code smc m buf i b : m = 1 \/ m = 2 -> 0 <= i < 3 -> 0 <= b < 8 ->
  __nand_correct_data smc buf (flip (hamming smc (256 * m) buf) i b) (hamming smc (256 * m) buf) (256 * m) = Some (1, buf).
Proof.
  intros Hm Hi Hb. destruct (repair_code m buf b Hm Hb) as (H0 & H1 & H2).
  assert (forall x, Z.lxor (Z.lxor x (2 ^ b)) x = 2 ^ b) as Hx.
  { intros x. by rewrite (Z.lxor_comm x), Z.lxor_assoc, Z.lxor_nilpotent, Z.lxor_0_r. }
  assert (Z.shiftr (256 * m) 8 = m) as Em by (destruct Hm as [-> | ->]; done).
  assert (i = 0 \/ i = 1 \/ i = 2) as Hc by lia.
  unfold __nand_correct_data, hamming, flip. rewrite Em.
  destruct smc, Hc as [-> |[-> | ->]]; cbn -[Z.pow nand_repair row_byte column_byte];
    change (Z.to_nat 0) with 0%nat; change (Z.to_nat 1) with 1%nat; change (Z.to_nat 2) with 2%nat;
    cbn -[Z.pow nand_repair row_byte column_byte]; rewrite ?Z.lxor_nilpotent, ?Hx; done.
Qed.

(** ** The properties *)

(** C31: the encoder, which reads words and folds them, terminates and its code
    bits are the inverted parities of the block over the bytes whose address
    has bit [k] set or clear, for each [k], and over the bits whose number has bit [k] set or clear. *)
Theorem nand_ecc_parities smc eccsize buf c0 c1 c2 : eccsize = 256 \/ eccsize = 512 ->
  Forall byte buf -> zlen buf = eccsize ->
  nand_calculate_ecc smc eccsize buf [c0; c1; c2] = Some (hamming smc eccsize buf, 0).
Proof.
  intros (m & Hm & ->)%eccsize_mult Hb Hl. unfold nand_calculate_ecc. by rewrite calculate_ok.
Qed.

Lemma nand_ecc_parities_witness :
  nand_calculate_ecc false 256 (replicate 256 255) [0; 0; 0] = Some ([255; 255; 255], 0).
Proof.
  rewrite (nand_ecc_parities false 256 (replicate 256 255) 0 0 0); [vm_compute; reflexivity|by left| |reflexivity].
  apply Forall_replicate. split; lia.
Defined.

(** C9: what is stored with a block repairs it: data read back as it was written is accepted;
    one inverted bit of the data is found and put right;
    one inverted bit of the stored code is recognised and the data left alone; and
    two inverted bits of the data are reported as uncorrectable, never miscorrected. *)
Theorem nand_ecc_corrects smc eccsize buf c0 c1 c2 : eccsize = 256 \/ eccsize = 512 ->
  Forall byte buf -> zlen buf = eccsize ->
  exists ecc, nand_calculate_ecc smc eccsize buf [c0; c1; c2] = Some (ecc, 0) /\
    nand_correct_data smc eccsize buf ecc ecc = Some (0, buf) /\
    (forall p c, 0 <= p < eccsize -> 0 <= c < 8 ->
       exists ecc', nand_calculate_ecc smc eccsize (flip buf p c) [c0; c1; c2] = Some (ecc', 0) /\
         nand_correct_data smc eccsize (flip buf p c) ecc ecc' = Some (1, buf)) /\
    (forall i b, 0 <= i < 3 -> 0 <= b < 8 ->
       nand_correct_data smc eccsize buf (flip ecc i b) ecc = Some (1, buf)) /\
    (forall p c q e, 0 <= p < eccsize -> 0 <= q < eccsize -> 0 <= c < 8 -> 0 <= e < 8 -> (p, c) <> (q, e) ->
       let buf' := flip (flip buf p c) q e in
       exists ecc', nand_calculate_ecc smc eccsize buf' [c0; c1; c2] = Some (ecc', 0) /\
         nand_correct_data smc eccsize buf' ecc ecc' = Some (-1, buf')).
Proof.
  intros (m & Hm & ->)%eccsize_mult Hb Hl. exists (hamming smc (256 * m) buf).
  unfold nand_calculate_ecc, nand_correct_data. rewrite calculate_ok by done. split; [done|]. split; [|split; [|split]].
  - rewrite correct_hamming by done. by rewrite !Z.lxor_nilpotent.
  - intros p c Hp Hc. rewrite calculate_ok by (rewrite ?zlen_flip; auto using flip_bytes). eexists. split; [done|].
    rewrite <- Hl in Hp. by apply decode_single.
  - intros i b Hi Hb'. by apply decode_code.
  - intros p c q e Hp Hq Hc He Hne. cbv zeta.
    rewrite calculate_ok by (rewrite ?zlen_flip; auto using flip_bytes). eexists. split; [done|].
    rewrite <- Hl in Hp, Hq. by apply decode_double.
Qed.

Lemma nand_ecc_corrects_witness : exists ecc,
  nand_correct_data false 512 (flip (replicate 512 165) 300 3) ecc
    (hamming false 512 (flip (replicate 512 165) 300 3)) = Some (1, replicate 512 165).
Proof.
  destruct (nand_ecc_corrects false 512 (replicate 512 165) 0 0 0) as (ecc & _ & _ & H & _);
    [by right|apply Forall_replicate; split; lia|reflexivity|].
  exists ecc. destruct (H 300 3 ltac:(lia) ltac:(lia)) as (ecc' & E & H').
  replace (hamming false 512 (flip (replicate 512 165) 300 3)) with ecc'; [exact H'|].
  unfold nand_calculate_ecc in E. rewrite (calculate_ok false _ 2) in E.
  - rewrite bind_Some in E. by injection E as <-.
  - by right.
  - apply flip_bytes; [apply Forall_replicate; split; lia|lia].
  - reflexivity.
Defined.
