(* ===== verification/Calendar.v ===== *)
(** * Dates and times: drivers/rtc/rtc-lib.c, kernel/time/timeconv.c, kernel/time.c

    Conversions between seconds since 1970 and broken-down dates: mktime(),
    the real-time clock library, and time_to_tm(), which also takes times before
    1970 and an offset; and the conversions between nanoseconds and seconds
    with nanoseconds.  [long] and [time_t] are 32 bits wide.

    What a date means is its day number, the days since 1970-01-01 ([day_number]), by
    the rules of the Gregorian calendar.  The theorems show that the
    conversions invert each other and agree with the calendar for
    every time that a word can hold. *)

From S2P Require Import Prelude Div64.

(** ** include/linux/rtc.h, drivers/rtc/rtc-lib.c *)

(** struct tm.  struct rtc_time has these fields and [tm_isdst]. *)
Record tm := mk_tm {
  tm_sec : Z; tm_min : Z; tm_hour : Z; tm_mday : Z; tm_mon : Z; tm_year : Z; tm_wday : Z; tm_yday : Z
}.
Record rtc_time := mk_rtc_time { rtc_tm :> tm; tm_isdst : Z }.

Definition is_leap_year (year : Z) : bool :=
  (negb (truth (year mod 4)) && truth (year mod 100)) || negb (truth (year mod 400)).

Definition rtc_days_in_month : list Z := [31; 28; 31; 30; 31; 30; 31; 31; 30; 31; 30; 31].

Definition rtc_ydays : list (list Z) := [
  [0; 31; 59; 90; 120; 151; 181; 212; 243; 273; 304; 334; 365];
  [0; 31; 60; 91; 121; 152; 182; 213; 244; 274; 305; 335; 366]].

Definition LEAPS_THRU_END_OF (y : Z) : Z := u32 (y / 4 - y / 100 + y / 400).

Definition rtc_month_days (month year : Z) : option Z :=
  d ← rtc_days_in_month.[month];
  Some (d + b2z (is_leap_year year && (month =? 1))).

Definition rtc_year_days (day month year : Z) : option Z :=
  ydays ← rtc_ydays.[b2z (is_leap_year year)];
  x ← ydays.[month];
  Some (s32 (x + day - 1)).

(** The loop over the months: [month] and [days]. *)
Definition month_body (year : Z) : Z * Z -> option (step (Z * Z) (Z * Z)) := fun '(month, days) =>
  if month <? 11 then
    d ← rtc_month_days month year;
    let newdays := s32 (days - d) in
    if newdays <? 0 then Some (Done (month, days)) else Some (Next (u32 (month + 1), newdays))
  else Some (Done (month, days)).

Definition rtc_time_to_tm (time : Z) : option rtc_time :=
  let days := s32 (time / 86400) in
  let time := ulong (time - u32 (u32 days * 86400)) in
  let wday := Z.rem (s32 (days + 4)) 7 in
  let year := u32 (1970 + Z.quot days 365) in
  let days := s32 (days - u32 (u32 (year - 1970) * 365 + LEAPS_THRU_END_OF (u32 (year - 1)) - LEAPS_THRU_END_OF (1970 - 1))) in
  let '(year, days) :=
    if days <? 0 then let year := u32 (year - 1) in (year, s32 (days + (365 + b2z (is_leap_year year)))) else (year, days) in
  let yday := s32 (days + 1) in
  '(month, days) ← loop (month_body year) 12 (0, days);
  let hour := s32 (time / 3600) in
  let time := ulong (time - s32 (hour * 3600)) in
  let min := s32 (time / 60) in
  let sec := s32 (ulong (time - s32 (min * 60))) in
  Some (mk_rtc_time (mk_tm sec min hour (s32 (days + 1)) (s32 month) (s32 (year - 1900)) wday yday) 0).

Definition rtc_valid_tm (t : rtc_time) : option Z :=
  if (tm_year t <? 70) || (12 <=? u32 (tm_mon t)) || (tm_mday t <? 1) then Some (- EINVAL)
  else
    d ← rtc_month_days (u32 (tm_mon t)) (u32 (tm_year t + 1900));
    if (d <? tm_mday t) || (24 <=? u32 (tm_hour t)) || (60 <=? u32 (tm_min t)) || (60 <=? u32 (tm_sec t))
    then Some (- EINVAL) else Some 0.

(** ** kernel/time.c *)

Definition mktime (year0 mon0 day hour min sec : Z) : Z :=
  let mon := u32 (mon0 - 2) in
  let '(mon, year) := if s32 mon <=? 0 then (u32 (mon + 12), u32 (year0 - 1)) else (mon, year0) in
  ulong (ulong (ulong ((u32 (year / 4 - year / 100 + year / 400 + u32 (367 * mon) / 12 + day) +
    u32 (year * 365) - 719499) * 24 + hour) * 60 + min) * 60 + sec).

(** The result and [*time]. *)
Definition rtc_tm_to_time (t : rtc_time) : Z * Z :=
  (0, mktime (u32 (tm_year t + 1900)) (u32 (tm_mon t + 1)) (u32 (tm_mday t)) (u32 (tm_hour t)) (u32 (tm_min t)) (u32 (tm_sec t))).

Definition NSEC_PER_SEC : Z := 1000000000.
Record timespec := mk_timespec { tv_sec : Z; tv_nsec : Z }.

(** The two loops of set_normalized_timespec(): [sec] and [nsec]. *)
Definition carry_body : Z * Z -> option (step (Z * Z) (Z * Z)) := fun '(sec, nsec) =>
  if NSEC_PER_SEC <=? nsec then Some (Next (s32 (sec + 1), s64 (nsec - NSEC_PER_SEC))) else Some (Done (sec, nsec)).
Definition borrow_body : Z * Z -> option (step (Z * Z) (Z * Z)) := fun '(sec, nsec) =>
  if nsec <? 0 then Some (Next (s32 (sec - 1), s64 (nsec + NSEC_PER_SEC))) else Some (Done (sec, nsec)).

Definition set_normalized_timespec (sec nsec : Z) : option timespec :=
  '(sec, nsec) ← loop carry_body (2 ^ 34) (sec, nsec);
  '(sec, nsec) ← loop borrow_body (2 ^ 34) (sec, nsec);
  Some (mk_timespec sec (s32 nsec)).

Definition ns_to_timespec (nsec : Z) : option timespec :=
  if nsec =? 0 then Some (mk_timespec 0 0) else
  '(q, rem) ← div_s64_rem nsec NSEC_PER_SEC;
  let tv_sec := s32 q in
  let '(tv_sec, rem) := if rem <? 0 then (s32 (tv_sec - 1), s32 (rem + NSEC_PER_SEC)) else (tv_sec, rem) in
  Some (mk_timespec tv_sec rem).

(** include/linux/time.h *)
Definition timespec_to_ns (ts : timespec) : Z := s64 (s64 (tv_sec ts * NSEC_PER_SEC) + tv_nsec ts).

Definition timespec_sub (lhs rhs : timespec) : option timespec :=
  set_normalized_timespec (s32 (tv_sec lhs - tv_sec rhs)) (s32 (tv_nsec lhs - tv_nsec rhs)).

Definition TIME_T_MAX : Z := 2 ^ 31 - 1.

Definition timespec_add_safe (lhs rhs : timespec) : option timespec :=
  res ← set_normalized_timespec (s32 (tv_sec lhs + tv_sec rhs)) (s32 (tv_nsec lhs + tv_nsec rhs));
  if (tv_sec res <? tv_sec lhs) || (tv_sec res <? tv_sec rhs) then Some (mk_timespec TIME_T_MAX (tv_nsec res)) else Some res.

(** include/linux/ktime.h, with ktime_t a number of nanoseconds. *)
Definition ktime_set (secs nsecs : Z) : Z := s64 (s64 (secs * NSEC_PER_SEC) + nsecs).
Definition ktime_to_timespec (kt : Z) : option timespec := ns_to_timespec kt.

(** drivers/rtc/rtc-lib.c *)
Definition rtc_tm_to_ktime (t : rtc_time) : Z := ktime_set (s32 (rtc_tm_to_time t).2) 0.

Definition rtc_ktime_to_tm (kt : Z) : option rtc_time :=
  ts ← ktime_to_timespec kt;
  let tv_sec := if truth (tv_nsec ts) then s32 (tv_sec ts + 1) else tv_sec ts in
  rtc_time_to_tm (ulong tv_sec).

(** ** kernel/time/timeconv.c *)

Definition __isleap (year : Z) : bool :=
  (Z.rem year 4 =? 0) && (negb (Z.rem year 100 =? 0) || (Z.rem year 400 =? 0)).

Definition math_div (a b : Z) : Z := s32 (Z.quot a b - b2z (Z.rem a b <? 0)).

Definition leaps_between (y1 y2 : Z) : Z :=
  let leaps1 := s32 (s32 (math_div (s32 (y1 - 1)) 4 - math_div (s32 (y1 - 1)) 100) + math_div (s32 (y1 - 1)) 400) in
  let leaps2 := s32 (s32 (math_div (s32 (y2 - 1)) 4 - math_div (s32 (y2 - 1)) 100) + math_div (s32 (y2 - 1)) 400) in
  s32 (leaps2 - leaps1).

Definition __mon_yday : list (list Z) := [
  [0; 31; 59; 90; 120; 151; 181; 212; 243; 273; 304; 334; 365];
  [0; 31; 60; 91; 121; 152; 182; 213; 244; 274; 305; 335; 366]].

Definition SECS_PER_HOUR : Z := 60 * 60.
Definition SECS_PER_DAY : Z := SECS_PER_HOUR * 24.

(** The loops that bring [rem] into a day: [rem] and [days]. *)
Definition day_up_body : Z * Z -> option (step (Z * Z) (Z * Z)) := fun '(rem, days) =>
  if rem <? 0 then Some (Next (s32 (rem + SECS_PER_DAY), s32 (days - 1))) else Some (Done (rem, days)).
Definition day_down_body : Z * Z -> option (step (Z * Z) (Z * Z)) := fun '(rem, days) =>
  if SECS_PER_DAY <=? rem then Some (Next (s32 (rem - SECS_PER_DAY), s32 (days + 1))) else Some (Done (rem, days)).

(** The loop that guesses the year: [days] and [y]. *)
Definition year_body : Z * Z -> option (step (Z * Z) (Z * Z)) := fun '(days, y) =>
  if (days <? 0) || ((if __isleap y then 366 else 365) <=? days) then
    let yg := s32 (y + math_div days 365) in
    let days := s32 (days - s32 (s32 (s32 (yg - y) * 365) + leaps_between y yg)) in
    Some (Next (days, yg))
  else Some (Done (days, y)).

(** The loop that finds the month, from December down. *)
Definition mon_body (ip : list Z) (days : Z) : Z -> option (step Z Z) := fun y =>
  x ← ip.[y];
  if days <? x then Some (Next (s32 (y - 1))) else Some (Done y).

Definition time_to_tm (totalsecs offset : Z) : option tm :=
  let days := Z.quot totalsecs SECS_PER_DAY in
  let rem := s32 (Z.rem totalsecs SECS_PER_DAY + offset) in
  '(rem, days) ← loop day_up_body (2 ^ 16) (rem, days);
  '(rem, days) ← loop day_down_body (2 ^ 16) (rem, days);
  let hour := Z.quot rem SECS_PER_HOUR in
  let rem := Z.rem rem SECS_PER_HOUR in
  let min := Z.quot rem 60 in
  let sec := Z.rem rem 60 in
  let wday := Z.rem (s32 (4 + days)) 7 in
  let wday := if wday <? 0 then wday + 7 else wday in
  '(days, y) ← loop year_body 4 (days, 1970);
  ip ← __mon_yday.[b2z (__isleap y)];
  mon ← loop (mon_body ip days) 13 11;
  x ← ip.[mon];
  Some (mk_tm sec min hour (s32 (s32 (days - x) + 1)) mon (s32 (y - 1900)) wday days).

(** ** The calendar *)

Definition leaps (y : Z) : Z := y / 4 - y / 100 + y / 400.

(** The number of the first of January, and the length of the year. *)
Definition jan1 (y : Z) : Z := 365 * (y - 1970) + leaps (y - 1) - 477.
Definition year_len (y : Z) : Z := 365 + b2z (is_leap_year y).

(** The days of the year before a month, and the length of the month. *)
Definition month_start (leap : bool) (m : Z) : Z :=
  default 0 (if leap then [0; 31; 60; 91; 121; 152; 182; 213; 244; 274; 305; 335; 366]
             else [0; 31; 59; 90; 120; 151; 181; 212; 243; 273; 304; 334; 365]).[m].
Definition month_len (leap : bool) (m : Z) : Z := month_start leap (m + 1) - month_start leap m.

Definition date_ok (y m d : Z) : Prop := 0 <= m < 12 /\ 1 <= d <= month_len (is_leap_year y) m.
Definition day_number (y m d : Z) : Z := jan1 y + month_start (is_leap_year y) m + d - 1.

Lemma leap_cases y : is_leap_year y = true /\ y mod 4 = 0 /\ (y mod 100 <> 0 \/ y mod 400 = 0) \/
  is_leap_year y = false /\ (y mod 4 <> 0 \/ (y mod 100 = 0 /\ y mod 400 <> 0)).
Proof.
  unfold is_leap_year, truth.
  destruct (Z.eqb_spec (y mod 4) 0), (Z.eqb_spec (y mod 100) 0), (Z.eqb_spec (y mod 400) 0); cbn; try tauto; exfalso; zlia.
Qed.

Lemma leaps_next y : leaps y = leaps (y - 1) + b2z (is_leap_year y).
Proof. unfold leaps. destruct (leap_cases y) as [(-> & H)|(-> & H)]; cbn [b2z]; zlia. Qed.

Lemma jan1_next y : jan1 (y + 1) = jan1 y + year_len y.
Proof. unfold jan1, year_len. replace (y + 1 - 1) with y by lia. rewrite (leaps_next y). lia. Qed.

Lemma jan1_mono y n : jan1 y + 365 * Z.of_nat n <= jan1 (y + Z.of_nat n).
Proof.
  induction n as [|n IH]; [change (Z.of_nat 0) with 0; rewrite !Z.add_0_r; lia|].
  replace (y + Z.of_nat (S n)) with (y + Z.of_nat n + 1) by lia. rewrite jan1_next. unfold year_len.
  destruct (is_leap_year _); cbn [b2z]; lia.
Qed.

(** Twelve cases. *)
Lemma twelve m : 0 <= m < 12 -> m = 0 \/ m = 1 \/ m = 2 \/ m = 3 \/ m = 4 \/ m = 5 \/
  m = 6 \/ m = 7 \/ m = 8 \/ m = 9 \/ m = 10 \/ m = 11.
Proof. lia. Qed.
Ltac months m Hm := destruct (twelve m Hm) as [-> |[-> |[-> |[-> |[-> |[-> |[-> |[-> |[-> |[-> |[-> | ->]]]]]]]]]]].

Lemma month_start_range leap m : 0 <= m < 12 ->
  0 <= month_start leap m /\ 28 <= month_len leap m <= 31 /\ month_start leap (m + 1) <= 365 + b2z leap.
Proof. intros Hm. destruct leap; months m Hm; vm_compute; intuition discriminate. Qed.

Lemma month_start_mono leap m m' : 0 <= m -> m < m' -> m' < 12 -> month_start leap (m + 1) <= month_start leap m'.
Proof.
  intros H0 Hlt H1. destruct leap; months m (conj H0 (Z.lt_trans _ _ _ Hlt H1)); months m' (conj (Z.le_trans _ _ _ H0 (Z.lt_le_incl _ _ Hlt)) H1);
    try lia; vm_compute; discriminate.
Qed.

(** The day of the year of a date. *)
Lemma date_yday y m d : date_ok y m d -> jan1 y <= day_number y m d < jan1 (y + 1).
Proof.
  intros [Hm Hd]. rewrite jan1_next. unfold day_number, year_len.
  destruct (month_start_range (is_leap_year y) m Hm) as (H1 & H2 & H3). unfold month_len in Hd. lia.
Qed.

Lemma day_number_inj y m d y' m' d' : date_ok y m d -> date_ok y' m' d' -> day_number y m d = day_number y' m' d' ->
  y = y' /\ m = m' /\ d = d'.
Proof.
  intros H H' E. pose proof (date_yday y m d H). pose proof (date_yday y' m' d' H').
  assert (y = y') as <-.
  { destruct (Z.lt_trichotomy y y') as [Hlt|[?|Hlt]]; [exfalso|done|exfalso].
    - pose proof (jan1_mono (y + 1) (Z.to_nat (y' - y - 1))) as Hj.
      replace (y + 1 + Z.of_nat (Z.to_nat (y' - y - 1))) with y' in Hj by lia. lia.
    - pose proof (jan1_mono (y' + 1) (Z.to_nat (y - y' - 1))) as Hj.
      replace (y' + 1 + Z.of_nat (Z.to_nat (y - y' - 1))) with y in Hj by lia. lia. }
  destruct H as [Hm Hd], H' as [Hm' Hd']. unfold day_number, month_len in *.
  destruct (Z.lt_trichotomy m m') as [Hlt|[<- |Hlt]].
  - pose proof (month_start_mono (is_leap_year y) m m'). lia.
  - lia.
  - pose proof (month_start_mono (is_leap_year y) m' m). lia.
Qed.

(** ** mktime() *)

Lemma ulong_scale a k c : ulong (ulong a * k + c) = ulong (a * k + c).
Proof. unfold ulong. change (2 ^ BITS_PER_LONG) with (2 ^ 32). rewrite <- Z.add_mod_idemp_l, Z.mul_mod_idemp_l, Z.add_mod_idemp_l by lia. done. Qed.

(** The formula with the year that begins in March. *)
Lemma gauss y m d : 0 <= m < 12 ->
  let mon := if m <? 2 then m + 11 else m - 1 in
  let year := if m <? 2 then y - 1 else y in
  leaps year + 367 * mon / 12 + d + year * 365 - 719499 = day_number y m d.
Proof.
  intros Hm. unfold day_number, jan1. pose proof (leaps_next y) as Hl.
  months m Hm; cbv zeta beta; cbn [Z.ltb Z.compare Pos.compare Pos.compare_cont].
  all: match goal with |- context [month_start _ ?m] =>
         let v := eval vm_compute in (month_start true m) in let w := eval vm_compute in (month_start false m) in
         assert (month_start (is_leap_year y) m = if is_leap_year y then v else w) as -> by (destruct (is_leap_year y); reflexivity)
       end.
  all: match goal with |- context [367 * ?e / 12] => let v := eval vm_compute in (367 * e / 12) in change (367 * e / 12) with v end.
  all: destruct (is_leap_year y); cbn [b2z] in Hl; lia.
Qed.

Lemma mktime_ok y m d h mi s : date_ok y m d -> 1900 <= y < 2 ^ 20 -> 0 <= h < 24 -> 0 <= mi < 60 -> 0 <= s < 60 ->
  mktime y (m + 1) d h mi s = ulong (((day_number y m d * 24 + h) * 60 + mi) * 60 + s).
Proof.
  intros [Hm Hd] Hy Hh Hmi Hs. rewrite <- (gauss y m d Hm). unfold mktime.
  pose proof (month_start_range (is_leap_year y) m Hm) as (_ & Hlen & _).
  assert ((if s32 (u32 (m + 1 - 2)) <=? 0 then (u32 (u32 (m + 1 - 2) + 12), u32 (y - 1)) else (u32 (m + 1 - 2), y)) =
    (if m <? 2 then m + 11 else m - 1, if m <? 2 then y - 1 else y)) as ->.
  { rewrite (u32_small (y - 1)) by lia. months m Hm; reflexivity. }
  cbv zeta beta iota. set (mon := if m <? 2 then m + 11 else m - 1). set (year := if m <? 2 then y - 1 else y).
  assert (1 <= mon <= 12) by (unfold mon; destruct (Z.ltb_spec m 2); lia).
  assert (1899 <= year < 2 ^ 20) by (unfold year; destruct (m <? 2); lia).
  rewrite (ulong_scale (_ * 24 + h)), ulong_scale. unfold leaps.
  rewrite (u32_small (367 * mon)), (u32_small (year * 365)), (u32_small (year / 4 - year / 100 + year / 400 + 367 * mon / 12 + d)) by zlia.
  done.
Qed.

(** ** The real-time clock library *)

Lemma rtc_month_days_ok m y : 0 <= m < 12 -> rtc_month_days m y = Some (month_len (is_leap_year y) m).
Proof. intros Hm. unfold rtc_month_days. destruct (is_leap_year y); months m Hm; reflexivity. Qed.

Lemma year_end leap : month_start leap 12 = 365 + b2z leap.
Proof. by destruct leap. Qed.

Lemma month_loop_ok y yday : 0 <= yday < year_len y ->
  exists m, loop (month_body y) 12 (0, yday) = Some (m, yday - month_start (is_leap_year y) m) /\
    0 <= m < 12 /\ 0 <= yday - month_start (is_leap_year y) m < month_len (is_leap_year y) m.
Proof.
  intros Hy. set (l := is_leap_year y).
  destruct (loop_total (month_body y)
    (fun s => 0 <= s.1 < 12 /\ s.2 = yday - month_start l s.1 /\ 0 <= s.2)
    (fun s => 11 - s.1)
    (fun s => 0 <= s.1 < 12 /\ s.2 = yday - month_start l s.1 /\ 0 <= s.2 < month_len l s.1)) with
    (bound := 12) (s := (0, yday)) as ([m r] & E & Hm & Hr & Hl); [| |cbn; lia|].
  - intros [m r] (Hm & Hr & Hp). cbn [fst snd] in *. split; cbn [fst snd]; [lia|].
    pose proof (month_start_range l m Hm) as (H1 & H2 & H3).
    unfold month_body. destruct (Z.ltb_spec m 11).
    + rewrite rtc_month_days_ok, bind_Some by done. fold l. unfold month_len in *. unfold year_len in Hy.
      assert (b2z (is_leap_year y) <= 1) by (destruct (is_leap_year y); cbn; lia).
      rewrite s32_small, u32_small by lia. destruct (Z.ltb_spec (r - (month_start l (m + 1) - month_start l m)) 0); cbn [fst snd]; [lia|].
      split; [|lia]. split; [lia|]. split; lia.
    + cbn [fst snd]. assert (m = 11) as -> by lia. unfold month_len in *. change (11 + 1) with 12 in *.
      unfold l in *. rewrite year_end in *. unfold year_len in Hy. lia.
  - cbn [fst snd]. assert (month_start l 0 = 0) as -> by (by destruct l). lia.
  - cbn [fst snd] in *. exists m. rewrite E, Hr. split; [done|]. split; [done|]. lia.
Qed.

(** The year by a guess and a correction. *)
Lemma year_guess days : 0 <= days < 49711 ->
  let g := 1970 + days / 365 in
  let r := days - jan1 g in
  (0 <= r < year_len g \/ (r < 0 /\ 0 <= r + year_len (g - 1) < year_len (g - 1))) /\ 1970 <= g <= 2106.
Proof.
  intros Hd g r. pose proof (jan1_next (g - 1)) as Hj. replace (g - 1 + 1) with g in Hj by lia.
  assert (1970 <= g <= 2106) as Hg by (unfold g; zlia). split; [|done].
  assert (r = days mod 365 - (leaps (g - 1) - 477)) as Hr.
  { unfold r, jan1, g. zlia. }
  assert (0 <= leaps (g - 1) - 477 <= 34) by (unfold leaps; zlia).
  assert (0 <= b2z (is_leap_year g) <= 1) by (destruct (is_leap_year g); cbn; lia).
  assert (0 <= b2z (is_leap_year (g - 1)) <= 1) by (destruct (is_leap_year (g - 1)); cbn; lia).
  pose proof (Z.mod_pos_bound days 365 ltac:(lia)). unfold year_len. lia.
Qed.

Lemma rtc_year_ok days : 0 <= days < 49711 -> let g := 1970 + days / 365 in
  exists y, (if days - jan1 g <? 0
    then (g - 1, s32 (days - jan1 g + (365 + b2z (is_leap_year (g - 1))))) else (g, days - jan1 g)) =
    (y, days - jan1 y) /\ 1970 <= y <= 2106 /\ 0 <= days - jan1 y < year_len y.
Proof.
  intros Hd g. destruct (year_guess days Hd) as [Hr Hg]. fold g in Hr, Hg.
  pose proof (jan1_next (g - 1)) as Hj. replace (g - 1 + 1) with g in Hj by lia.
  destruct (Z.ltb_spec (days - jan1 g) 0).
  - exists (g - 1). destruct Hr as [?|[_ Hr]]; [lia|]. unfold year_len in *.
    assert (b2z (is_leap_year (g - 1)) <= 1) by (destruct (is_leap_year (g - 1)); cbn; lia).
    rewrite s32_small by lia. split; [f_equal; lia|]. split; [|lia].
    destruct (Z.eq_dec g 1970) as [E|]; [|lia]. exfalso. rewrite E in *. change (jan1 1970) with 0 in *. lia.
  - exists g. split; [done|]. split; [done|]. destruct Hr as [Hr|[Hr _]]; [done|lia].
Qed.

(** What a time in seconds means as a date. *)
Record is_date (t : Z) (r : tm) : Prop := {
  d_date : date_ok (tm_year r + 1900) (tm_mon r) (tm_mday r);
  d_days : day_number (tm_year r + 1900) (tm_mon r) (tm_mday r) = t / 86400;
  d_hour : tm_hour r = t / 3600 mod 24;
  d_min : tm_min r = t / 60 mod 60;
  d_sec : tm_sec r = t mod 60;
  d_wday : tm_wday r = (t / 86400 + 4) mod 7;
}.

(** The fields for the hour, the minute and the second. *)
Lemma clock_parts time : 0 <= time < 86400 ->
  s32 (time / 3600) = time / 3600 /\
  ulong (time - s32 (s32 (time / 3600) * 3600)) = time mod 3600 /\
  s32 (time mod 3600 / 60) = time mod 3600 / 60 /\
  s32 (ulong (time mod 3600 - s32 (s32 (time mod 3600 / 60) * 60))) = time mod 60.
Proof.
  intros Ht. assert (0 <= time / 3600 < 24) by zlia. assert (0 <= time mod 3600 / 60 < 60) by zlia.
  rewrite (s32_small (time / 3600)), (s32_small (time / 3600 * 3600)) by lia.
  rewrite (s32_small (time mod 3600 / 60)), (s32_small (time mod 3600 / 60 * 60)) by lia.
  rewrite (ulong_small (time - time / 3600 * 3600)), (ulong_small (time mod 3600 - time mod 3600 / 60 * 60)) by zlia.
  split; [done|]. split; [zlia|]. split; [done|]. rewrite s32_small by zlia. zlia.
Qed.

Lemma rtc_time_to_tm_ok t : 0 <= t < 2 ^ 32 ->
  exists r, rtc_time_to_tm t = Some r /\ is_date t r /\ 70 <= tm_year r <= 206 /\ tm_isdst r = 0 /\
    tm_yday r = month_start (is_leap_year (tm_year r + 1900)) (tm_mon r) + tm_mday r.
Proof.
  intros Ht. assert (0 <= t / 86400 < 49711) as Hd by zlia. set (days := t / 86400) in *.
  destruct (year_guess days Hd) as [_ Hg]. set (g := 1970 + days / 365) in *.
  unfold rtc_time_to_tm. fold days.
  rewrite (s32_small days), (u32_small days), (u32_small (days * 86400)), (s32_small (days + 4)) by lia.
  rewrite Z.quot_div_nonneg, Z.rem_mod_nonneg by lia. fold g. rewrite (u32_small g), (u32_small (g - 1970)), (u32_small (g - 1)) by lia.
  assert (ulong (t - days * 86400) = t mod 86400) as -> by (rewrite ulong_small by (unfold days; zlia); unfold days; zlia).
  assert (s32 (days - u32 ((g - 1970) * 365 + LEAPS_THRU_END_OF (g - 1) - LEAPS_THRU_END_OF (1970 - 1))) = days - jan1 g) as ->.
  { change (LEAPS_THRU_END_OF (1970 - 1)) with 477. unfold LEAPS_THRU_END_OF, jan1, leaps.
    rewrite (u32_small ((g - 1) / 4 - (g - 1) / 100 + (g - 1) / 400)) by zlia. rewrite u32_small by zlia. rewrite s32_small by zlia. lia. }
  destruct (rtc_year_ok days Hd) as (y & Ey & Hy & Hyd).
  fold g in Ey. rewrite Ey. cbv beta iota zeta. destruct (month_loop_ok y _ Hyd) as (m & -> & Hm & Hml). rewrite bind_Some. cbv beta iota.
  destruct (clock_parts (t mod 86400)) as (C1 & C2 & C3 & C4); [apply Z.mod_pos_bound; lia|].
  rewrite C2, C4, C3, C1. pose proof (month_start_range (is_leap_year y) m Hm) as (M1 & M2 & M3).
  unfold year_len in Hyd. assert (b2z (is_leap_year y) <= 1) by (destruct (is_leap_year y); cbn; lia).
  rewrite (s32_small (y - 1900)), (s32_small m), (s32_small (days - jan1 y + 1)),
    (s32_small (days - jan1 y - month_start (is_leap_year y) m + 1)) by lia.
  eexists. split; [done|]. split; [|cbn; replace (y - 1900 + 1900) with y by lia; lia].
  constructor; cbn; replace (y - 1900 + 1900) with y by lia; unfold date_ok, day_number; fold days;
    try lia; unfold days; zlia.
Qed.

(** ** time_to_tm() *)

Lemma rem_eqb_mod y k : 0 < k -> (Z.rem y k =? 0) = (y mod k =? 0).
Proof.
  intros Hk. destruct (Z.eqb_spec (Z.rem y k) 0) as [E|E], (Z.eqb_spec (y mod k) 0) as [F|F]; try done; exfalso.
  - apply F. apply Z.mod_divide; [lia|]. by apply Z.rem_divide in E; [|lia].
  - apply E. apply Z.rem_divide; [lia|]. by apply Z.mod_divide in F; [|lia].
Qed.

Lemma isleap_ok y : __isleap y = is_leap_year y.
Proof.
  unfold __isleap. rewrite !rem_eqb_mod by lia. unfold is_leap_year, truth.
  destruct (Z.eqb_spec (y mod 4) 0), (Z.eqb_spec (y mod 100) 0), (Z.eqb_spec (y mod 400) 0); cbn; try done; exfalso; zlia.
Qed.

Lemma math_div_ok a b : - 2 ^ 30 <= a <= 2 ^ 30 -> 0 < b -> math_div a b = a / b.
Proof.
  intros Ha Hb. unfold math_div.
  assert (Z.quot a b - b2z (Z.rem a b <? 0) = a / b) as ->.
  { destruct (Z.ltb_spec (Z.rem a b) 0); cbn [b2z]; Z.to_euclidean_division_equations; nia. }
  apply s32_small. znia.
Qed.

Lemma leaps_between_ok y1 y2 : -10000 <= y1 <= 10000 -> -10000 <= y2 <= 10000 ->
  leaps_between y1 y2 = leaps (y2 - 1) - leaps (y1 - 1).
Proof.
  intros H1 H2. unfold leaps_between. rewrite (s32_small (y1 - 1)), (s32_small (y2 - 1)), !math_div_ok by lia.
  unfold leaps. rewrite (s32_small ((y1 - 1) / 4 - _)), (s32_small ((y2 - 1) / 4 - _)) by zlia.
  rewrite (s32_small (_ + (y1 - 1) / 400)), (s32_small (_ + (y2 - 1) / 400)) by zlia. rewrite s32_small by zlia. lia.
Qed.

(** The loops that bring the seconds into a day. *)
Lemma day_up_ok rem days : - 2 ^ 31 + 86400 <= rem < 2 ^ 31 - 86400 -> - 2 ^ 20 <= days <= 2 ^ 20 ->
  exists k, loop day_up_body (2 ^ 16) (rem, days) = Some (rem + 86400 * k, days - k) /\ 0 <= k <= 24856 /\
    0 <= rem + 86400 * k /\ (rem + 86400 * k < 86400 \/ k = 0).
Proof.
  intros Hr Hd.
  destruct (loop_total day_up_body
    (fun s => exists k, s = (rem + 86400 * k, days - k) /\ 0 <= k <= 24856 /\ (rem + 86400 * k < 86400 \/ k = 0))
    (fun s => Z.max 0 (- s.1 / 86400 + 1))
    (fun s => exists k, s = (rem + 86400 * k, days - k) /\ 0 <= k <= 24856 /\ 0 <= rem + 86400 * k /\
      (rem + 86400 * k < 86400 \/ k = 0))) with (bound := 2 ^ 16) (s := (rem, days)) as (r & E & k & -> & H); [| |cbn; zlia|by exists k].
  - intros s (k & -> & Hk & Hle). cbn [fst]. split; cbn [fst]; [lia|]. unfold day_up_body, SECS_PER_DAY, SECS_PER_HOUR.
    destruct (Z.ltb_spec (rem + 86400 * k) 0); [|by exists k].
    change (60 * 60 * 24) with 86400. rewrite !s32_small by lia. cbn [fst]. split; [|zlia].
    exists (k + 1). split; [f_equal; lia|]. lia.
  - exists 0. split; [f_equal; lia|]. lia.
Qed.

Lemma day_down_ok rem days : 0 <= rem < 2 ^ 31 - 86400 -> - 2 ^ 20 <= days <= 2 ^ 20 ->
  loop day_down_body (2 ^ 16) (rem, days) = Some (rem mod 86400, days + rem / 86400).
Proof.
  intros Hr Hd.
  destruct (loop_total day_down_body
    (fun s => exists k, s = (rem - 86400 * k, days + k) /\ 0 <= k <= 24856 /\ 0 <= rem - 86400 * k)
    (fun s => s.1 / 86400)
    (fun s => s = (rem mod 86400, days + rem / 86400))) with (bound := 2 ^ 16) (s := (rem, days)) as (r & E & ->); [| |cbn; zlia|done].
  - intros s (k & -> & Hk & Hle). cbn [fst]. split; cbn [fst]; [zlia|]. unfold day_down_body, SECS_PER_DAY, SECS_PER_HOUR.
    change (60 * 60 * 24) with 86400. destruct (Z.leb_spec 86400 (rem - 86400 * k)); [|f_equal; zlia].
    rewrite !s32_small by lia. cbn [fst]. split; [|zlia]. exists (k + 1). split; [f_equal; lia|]. lia.
  - exists 0. split; [f_equal; lia|]. lia.
Qed.

(** The guess of the year is right after at most two corrections. *)
Definition guess_left (days y : Z) : Z :=
  if (days <? 0) || (year_len y <=? days) then (if (-35 <=? days) && (days <? 400) then 1 else 2) else 0.

Lemma year_len_range y : 365 <= year_len y <= 366.
Proof. unfold year_len. destruct (is_leap_year y); cbn; lia. Qed.

Lemma year_step D y : -49800 <= D <= 49800 -> 1800 <= y <= 2140 ->
  let e := D - jan1 y in let yg := y + e / 365 in let e' := D - jan1 yg in
  y = 1970 \/ -35 <= e < 400 -> e < 0 \/ year_len y <= e ->
  -35 <= e' < 400 /\ guess_left e' yg < guess_left e y /\ 1800 <= yg <= 2140 /\ e - ((yg - y) * 365 + (leaps (yg - 1) - leaps (y - 1))) = e'.
Proof.
  intros HD Hy e yg e' Hc Hout. pose proof (Z.div_mod e 365 ltac:(lia)) as Hdiv.
  pose proof (Z.mod_pos_bound e 365 ltac:(lia)).
  assert (yg = y + e / 365) as Eyg by done. assert (e = D - jan1 y) as Ee by done. assert (e' = D - jan1 yg) as Ee' by done.
  clearbody e' yg e.
  assert (-35 <= e' < 400 -> 1800 <= yg <= 2140) as Hyg by (intros; unfold jan1, leaps in Ee'; zlia).
  pose proof (jan1_next y) as Hn. pose proof (jan1_next (y - 1)) as Hp. replace (y - 1 + 1) with y in Hp by lia.
  pose proof (year_len_range y). pose proof (year_len_range (y - 1)). pose proof (year_len_range (y + 1)).
  assert (e - ((yg - y) * 365 + (leaps (yg - 1) - leaps (y - 1))) = e') as Heq by (rewrite Ee', Ee; unfold jan1; lia).
  destruct (Z_lt_le_dec e (-35)) as [Hlo|Hlo]; [|destruct (Z_lt_le_dec e 400) as [Hhi|Hhi]].
  - destruct Hc as [-> | ?]; [|lia]. change (jan1 1970) with 0 in *. change (leaps (1970 - 1)) with 477 in *.
    assert (-35 <= leaps (yg - 1) - 477 <= 0) by (unfold leaps; zlia).
    split; [lia|]. split; [|split; [apply Hyg; lia|done]].
    unfold guess_left. destruct (Z.ltb_spec e' 0); [lia|]. destruct (Z.ltb_spec e 0); [|lia].
    cbn [orb]. rewrite (proj2 (Z.leb_gt (-35) e)) by lia. cbn [andb].
    destruct (_ <=? e'); [|lia]. rewrite (proj2 (Z.leb_le (-35) e')), (proj2 (Z.ltb_lt e' 400)) by lia. cbn. lia.
  - assert (yg = y - 1 /\ e < 0 \/ yg = y + 1 /\ year_len y <= e) as [[-> He]|[-> He]] by lia.
    + split; [lia|]. split; [|split; [apply Hyg; lia|done]].
      unfold guess_left. destruct (Z.ltb_spec e' 0); [lia|]. destruct (Z.leb_spec (year_len (y - 1)) e'); [lia|].
      destruct (Z.ltb_spec e 0); [|lia]. cbn [orb]. destruct (_ && _); lia.
    + split; [lia|]. split; [|split; [apply Hyg; lia|done]].
      unfold guess_left. destruct (Z.ltb_spec e' 0); [lia|]. destruct (Z.leb_spec (year_len (y + 1)) e'); [lia|].
      rewrite (proj2 (Z.leb_le (year_len y) e)), orb_true_r by lia. cbn [orb]. destruct (_ && _); lia.
  - destruct Hc as [-> | ?]; [|lia]. change (jan1 1970) with 0 in *. change (leaps (1970 - 1)) with 477 in *.
    assert (0 <= leaps (yg - 1) - 477 <= 35) by (unfold leaps; zlia).
    split; [lia|]. split; [|split; [apply Hyg; lia|done]].
    unfold guess_left. rewrite (proj2 (Z.leb_le (year_len 1970) e)), orb_true_r by lia.
    rewrite (proj2 (Z.ltb_ge e 400)), andb_false_r by lia.
    destruct (_ || _); [|lia]. rewrite (proj2 (Z.leb_le (-35) e')), (proj2 (Z.ltb_lt e' 400)) by lia. cbn. lia.
Qed.

Lemma guess_left_range days y : 0 <= guess_left days y <= 2.
Proof. unfold guess_left. destruct (_ || _); [destruct (_ && _)|]; lia. Qed.

Lemma year_loop_ok D : -49800 <= D <= 49800 ->
  exists y, loop year_body 4 (D, 1970) = Some (D - jan1 y, y) /\ 0 <= D - jan1 y < year_len y /\ 1800 <= y <= 2140.
Proof.
  intros HD.
  destruct (loop_total year_body
    (fun s => s.1 = D - jan1 s.2 /\ 1800 <= s.2 <= 2140 /\ (s.2 = 1970 \/ -35 <= s.1 < 400))
    (fun s => guess_left s.1 s.2)
    (fun s => s.1 = D - jan1 s.2 /\ 0 <= s.1 < year_len s.2 /\ 1800 <= s.2 <= 2140)) with
    (bound := 4) (s := (D, 1970)) as ([e y] & E & H1 & H2 & H3); [| |cbn [fst snd]; pose proof (guess_left_range D 1970); lia|].
  - intros [e y] (He & Hy & Hc). cbn [fst snd] in *. subst e. split; cbn [fst snd]; [apply guess_left_range|].
    unfold year_body. rewrite isleap_ok.
    replace (if is_leap_year y then 366 else 365) with (year_len y) by (unfold year_len; destruct (is_leap_year y); done).
    destruct (Z.ltb_spec (D - jan1 y) 0) as [Hn|Hn]; cbn [orb]; [|destruct (Z.leb_spec (year_len y) (D - jan1 y)) as [Hn'|Hn']; [|cbn; lia]].
    all: assert (- 2 ^ 30 <= D - jan1 y <= 2 ^ 30) as Hb by (unfold jan1, leaps; zlia).
    all: destruct (year_step D y HD Hy Hc) as (S1 & S2 & S3 & S4); [lia|].
    all: rewrite math_div_ok by lia; rewrite (s32_small (y + (D - jan1 y) / 365)) by lia.
    all: set (yg := y + (D - jan1 y) / 365) in *; rewrite (s32_small (yg - y)), leaps_between_ok by lia.
    all: rewrite (s32_small ((yg - y) * 365)) by lia.
    all: assert (- 2 ^ 30 <= leaps (yg - 1) - leaps (y - 1) <= 2 ^ 30) by (unfold leaps; zlia).
    all: rewrite (s32_small (_ + (leaps (yg - 1) - leaps (y - 1)))) by lia; rewrite S4, s32_small by lia; cbn [fst snd]; lia.
  - cbn [fst snd]. change (jan1 1970) with 0. lia.
  - cbn [fst snd] in *. subst e. exists y. done.
Qed.

Lemma mon_yday_row y : exists ip, __mon_yday.[b2z (is_leap_year y)] = Some ip /\
  forall m, 0 <= m <= 12 -> ip.[m] = Some (month_start (is_leap_year y) m).
Proof.
  destruct (is_leap_year y); (eexists; split; [reflexivity|]; intros m Hm;
    destruct (Z.eq_dec m 12) as [-> |]; [reflexivity|]; assert (0 <= m < 12) as Hm' by lia; months m Hm'; reflexivity).
Qed.

Lemma mon_loop_ok leap ip yday : (forall m, 0 <= m <= 12 -> ip.[m] = Some (month_start leap m)) ->
  0 <= yday < 365 + b2z leap ->
  exists m, loop (mon_body ip yday) 13 11 = Some m /\ 0 <= m < 12 /\ month_start leap m <= yday < month_start leap (m + 1).
Proof.
  intros Hip Hy.
  destruct (loop_total (mon_body ip yday) (fun m => 0 <= m < 12 /\ yday < month_start leap (m + 1)) (fun m => m)
    (fun m => 0 <= m < 12 /\ month_start leap m <= yday < month_start leap (m + 1))) with (bound := 13) (s := 11) as (m & E & H);
    [| |lia|by exists m].
  - intros m [Hm Hlt]. split; [lia|]. unfold mon_body. rewrite Hip, bind_Some by lia.
    destruct (Z.ltb_spec yday (month_start leap m)); [|lia]. rewrite s32_small by lia.
    destruct (Z.eq_dec m 0) as [-> |]; [assert (month_start leap 0 = 0) by (by destruct leap); lia|].
    replace (m - 1 + 1) with m by lia. lia.
  - change (11 + 1) with 12. rewrite year_end. lia.
Qed.

Lemma weekday_ok D : (if Z.rem (4 + D) 7 <? 0 then Z.rem (4 + D) 7 + 7 else Z.rem (4 + D) 7) = (D + 4) mod 7.
Proof.
  rewrite Z.add_comm. destruct (Z.ltb_spec (Z.rem (D + 4) 7) 0); Z.to_euclidean_division_equations; lia.
Qed.

Lemma time_to_tm_ok t offset : - 2 ^ 31 <= t < 2 ^ 31 -> - 2 ^ 31 + 2 ^ 18 <= offset <= 2 ^ 31 - 2 ^ 18 ->
  exists r, time_to_tm t offset = Some r /\ is_date (t + offset) r /\
    tm_yday r = month_start (is_leap_year (tm_year r + 1900)) (tm_mon r) + tm_mday r - 1.
Proof.
  intros Ht Ho. unfold time_to_tm. change SECS_PER_DAY with 86400. change SECS_PER_HOUR with 3600.
  pose proof (Z.quot_rem' t 86400) as Hqr.
  assert (- 86400 < Z.rem t 86400 < 86400 /\ -24856 <= Z.quot t 86400 <= 24856) as [Hrem Hq]
    by (Z.to_euclidean_division_equations; lia).
  set (q := Z.quot t 86400) in *. set (rm := Z.rem t 86400) in *. clearbody q rm.
  rewrite s32_small by lia.
  destruct (day_up_ok (rm + offset) q) as (k & -> & Hk & Hp & Hs); [lia..|]. rewrite bind_Some. cbv beta iota.
  rewrite day_down_ok, bind_Some by lia. cbv beta iota.
  assert (rm + offset + 86400 * k + 86400 * (q - k) = t + offset) as Hsum by lia.
  set (rem := rm + offset + 86400 * k) in *.
  assert (rem mod 86400 = (t + offset) mod 86400 /\ q - k + rem / 86400 = (t + offset) / 86400) as [-> ->] by zlia.
  set (T := t + offset) in *. set (D := T / 86400).
  assert (-49800 <= D <= 49800) as HD by (unfold D; zlia).
  rewrite (s32_small (4 + D)) by lia.
  destruct (year_loop_ok D HD) as (y & -> & Hyd & Hy). rewrite bind_Some. cbv beta iota.
  rewrite isleap_ok. destruct (mon_yday_row y) as (ip & -> & Hip). rewrite bind_Some.
  destruct (mon_loop_ok (is_leap_year y) ip (D - jan1 y) Hip Hyd) as (m & -> & Hm & Hms).
  rewrite bind_Some, Hip, bind_Some by lia.
  assert (b2z (is_leap_year y) <= 1) by (destruct (is_leap_year y); cbn; lia). unfold year_len in Hyd.
  pose proof (month_start_range (is_leap_year y) m Hm) as (M1 & _ & _).
  rewrite (s32_small (D - jan1 y - _)), s32_small, (s32_small (y - 1900)) by lia.
  rewrite weekday_ok. rewrite (Z.rem_mod_nonneg (T mod 86400)), !Z.quot_div_nonneg, !Z.rem_mod_nonneg by zlia.
  eexists. split; [done|]. split; [|cbn; replace (y - 1900 + 1900) with y by lia; lia].
  constructor; cbn; replace (y - 1900 + 1900) with y by lia; unfold date_ok, day_number, month_len; fold D;
    try lia; unfold D; zlia.
Qed.

(** ** Seconds and nanoseconds *)

(** Division with remainder by repeated subtraction and addition. *)
Lemma s32_add x c : s32 (s32 x + c) = s32 (x + c).
Proof.
  unfold s32. f_equal. replace ((x + 2 ^ 31) mod 2 ^ 32 - 2 ^ 31 + c + 2 ^ 31) with ((x + 2 ^ 31) mod 2 ^ 32 + c) by lia.
  rewrite Z.add_mod_idemp_l by lia. f_equal. lia.
Qed.

Lemma carry_ok sec nsec : - 2 ^ 63 <= nsec < 2 ^ 63 ->
  exists k, loop carry_body (2 ^ 34) (s32 sec, nsec) = Some (s32 (sec + k), nsec - NSEC_PER_SEC * k) /\ 0 <= k /\
    nsec - NSEC_PER_SEC * k < NSEC_PER_SEC /\ (0 <= nsec - NSEC_PER_SEC * k \/ k = 0).
Proof.
  unfold NSEC_PER_SEC. intros Hn.
  destruct (loop_total carry_body
    (fun s => exists k, s = (s32 (sec + k), nsec - 1000000000 * k) /\ 0 <= k /\ (0 <= nsec - 1000000000 * k \/ k = 0))
    (fun s => Z.max 0 (s.2 / 1000000000))
    (fun s => exists k, s = (s32 (sec + k), nsec - 1000000000 * k) /\ 0 <= k /\ nsec - 1000000000 * k < 1000000000 /\
      (0 <= nsec - 1000000000 * k \/ k = 0))) with (bound := 2 ^ 34) (s := (s32 sec, nsec)) as (r & E & k & -> & H);
    [| |cbn [snd]; zlia|by exists k].
  - intros s (k & -> & Hk & Hp). cbn [snd]. split; cbn [snd]; [lia|]. unfold carry_body, NSEC_PER_SEC.
    destruct (Z.leb_spec 1000000000 (nsec - 1000000000 * k)); [|exists k; split; [done|lia]].
    rewrite s32_add, s64_small by zlia. cbn [snd]. split; [|zlia]. exists (k + 1). split; [f_equal; [f_equal|]; lia|]. lia.
  - exists 0. split; [f_equal; [f_equal|]; lia|]. lia.
Qed.

Lemma borrow_ok sec nsec : - 2 ^ 63 <= nsec < 1000000000 ->
  loop borrow_body (2 ^ 34) (s32 sec, nsec) = Some (s32 (sec + nsec / NSEC_PER_SEC), nsec mod NSEC_PER_SEC).
Proof.
  unfold NSEC_PER_SEC. intros Hn.
  destruct (loop_total borrow_body
    (fun s => exists k, s = (s32 (sec - k), nsec + 1000000000 * k) /\ 0 <= k /\ nsec + 1000000000 * k < 1000000000)
    (fun s => Z.max 0 (- (s.2 / 1000000000)))
    (fun s => s = (s32 (sec + nsec / 1000000000), nsec mod 1000000000))) with (bound := 2 ^ 34) (s := (s32 sec, nsec)) as (r & E & ->);
    [| |cbn [snd]; zlia|done].
  - intros s (k & -> & Hk & Hp). cbn [snd]. split; cbn [snd]; [lia|]. unfold borrow_body, NSEC_PER_SEC.
    destruct (Z.ltb_spec (nsec + 1000000000 * k) 0); [|f_equal; [f_equal|]; zlia].
    rewrite <- Z.add_opp_r, s32_add, s64_small by zlia. cbn [snd]. split; [|zlia].
    exists (k + 1). split; [f_equal; [f_equal|]; lia|]. lia.
  - exists 0. split; [f_equal; [f_equal|]; lia|]. lia.
Qed.

Lemma set_normalized_ok sec nsec : - 2 ^ 63 <= nsec < 2 ^ 63 ->
  set_normalized_timespec (s32 sec) nsec = Some (mk_timespec (s32 (sec + nsec / NSEC_PER_SEC)) (nsec mod NSEC_PER_SEC)).
Proof.
  intros Hn. unfold set_normalized_timespec.
  destruct (carry_ok sec nsec Hn) as (k & -> & Hk & Hlt & Hp). rewrite bind_Some. cbv beta iota.
  assert ((nsec - NSEC_PER_SEC * k) / NSEC_PER_SEC = nsec / NSEC_PER_SEC - k /\
    (nsec - NSEC_PER_SEC * k) mod NSEC_PER_SEC = nsec mod NSEC_PER_SEC) as [E1 E2] by (unfold NSEC_PER_SEC in *; zlia).
  rewrite borrow_ok by (unfold NSEC_PER_SEC in *; zlia). rewrite bind_Some, E1, E2. cbv beta iota.
  rewrite (s32_small (nsec mod NSEC_PER_SEC)) by (unfold NSEC_PER_SEC; zlia). do 3 f_equal. lia.
Qed.

Lemma ns_to_timespec_ok n : - 2 ^ 63 <= n < 2 ^ 63 -> - 2 ^ 31 <= n / NSEC_PER_SEC < 2 ^ 31 ->
  ns_to_timespec n = Some (mk_timespec (n / NSEC_PER_SEC) (n mod NSEC_PER_SEC)).
Proof.
  unfold NSEC_PER_SEC. intros Hn Hs. unfold ns_to_timespec. destruct (Z.eqb_spec n 0) as [-> | H0]; [done|].
  unfold NSEC_PER_SEC. rewrite div_s64_rem_ok, bind_Some by lia. cbv beta iota.
  assert (Z.quot n 1000000000 = n / 1000000000 /\ Z.rem n 1000000000 = n mod 1000000000 /\ 0 <= Z.rem n 1000000000 \/
    Z.quot n 1000000000 = n / 1000000000 + 1 /\ Z.rem n 1000000000 = n mod 1000000000 - 1000000000 /\ n < 0)
    as [(-> & -> & H)|(-> & -> & H)] by (Z.to_euclidean_division_equations; lia).
  - rewrite (s64_small (n / 1000000000)), (s32_small (n / 1000000000)) by zlia.
    destruct (Z.ltb_spec (n mod 1000000000) 0); [zlia|]. done.
  - rewrite (s64_small (n / 1000000000 + 1)), (s32_small (n / 1000000000 + 1)) by zlia.
    destruct (Z.ltb_spec (n mod 1000000000 - 1000000000) 0); [|zlia].
    rewrite !s32_small by zlia. do 2 f_equal; lia.
Qed.

Lemma timespec_to_ns_ok ts : - 2 ^ 31 <= tv_sec ts < 2 ^ 31 -> 0 <= tv_nsec ts < NSEC_PER_SEC ->
  timespec_to_ns ts = tv_sec ts * NSEC_PER_SEC + tv_nsec ts.
Proof. unfold NSEC_PER_SEC. intros Hs Hn. unfold timespec_to_ns, NSEC_PER_SEC. by rewrite !s64_small by (rewrite ?s64_small; lia). Qed.

(** A normalised, nonnegative time. *)
Definition timespec_ok (ts : timespec) : Prop := 0 <= tv_sec ts < 2 ^ 31 /\ 0 <= tv_nsec ts < NSEC_PER_SEC.

Lemma add_safe_ok a b : timespec_ok a -> timespec_ok b ->
  let carry := (tv_nsec a + tv_nsec b) / NSEC_PER_SEC in
  timespec_add_safe a b = Some (mk_timespec (Z.min TIME_T_MAX (tv_sec a + tv_sec b + carry)) ((tv_nsec a + tv_nsec b) mod NSEC_PER_SEC)).
Proof.
  intros [Ha1 Ha2] [Hb1 Hb2] carry. unfold timespec_add_safe.
  assert (0 <= carry <= 1) as Hc by (unfold carry, NSEC_PER_SEC in *; zlia).
  rewrite (s32_small (tv_nsec a + tv_nsec b)) by (unfold NSEC_PER_SEC in *; lia).
  rewrite set_normalized_ok, bind_Some by (unfold NSEC_PER_SEC in *; lia). fold carry. cbn [tv_sec tv_nsec].
  unfold TIME_T_MAX. set (x := tv_sec a + tv_sec b + carry).
  destruct (Z_lt_le_dec x (2 ^ 31)) as [Hx|Hx].
  - rewrite s32_small by lia. rewrite (proj2 (Z.ltb_ge x (tv_sec a))), (proj2 (Z.ltb_ge x (tv_sec b))) by lia.
    cbn [orb]. do 2 f_equal. lia.
  - assert (s32 x = x - 2 ^ 32) as -> by (unfold s32; zlia).
    rewrite (proj2 (Z.ltb_lt _ (tv_sec a))) by lia. cbn [orb]. do 2 f_equal. lia.
Qed.

(** ** Dates and seconds *)

(** The seconds of a date. *)
Definition seconds (r : tm) : Z :=
  ((day_number (tm_year r + 1900) (tm_mon r) (tm_mday r) * 24 + tm_hour r) * 60 + tm_min r) * 60 + tm_sec r.

Record fields_ok (r : tm) : Prop := {
  f_date : date_ok (tm_year r + 1900) (tm_mon r) (tm_mday r);
  f_hour : 0 <= tm_hour r < 24; f_min : 0 <= tm_min r < 60; f_sec : 0 <= tm_sec r < 60;
}.

Lemma date_fields t r : is_date t r -> fields_ok r /\ seconds r = t.
Proof.
  intros [D1 D2 D3 D4 D5 D6]. split; [constructor; [done|zlia..]|]. unfold seconds. rewrite D2, D3, D4, D5. zlia.
Qed.

Lemma rtc_tm_to_time_ok r : fields_ok (rtc_tm r) -> 0 <= tm_year r < 2 ^ 19 -> rtc_tm_to_time r = (0, ulong (seconds r)).
Proof.
  intros [[Hm Hd] Hh Hmi Hs] Hy. unfold rtc_tm_to_time.
  pose proof (month_start_range (is_leap_year (tm_year r + 1900)) (tm_mon r) Hm) as (_ & Hl & _).
  rewrite (u32_small (tm_year r + 1900)), (u32_small (tm_mon r + 1)), (u32_small (tm_mday r)), (u32_small (tm_hour r)),
    (u32_small (tm_min r)), (u32_small (tm_sec r)) by lia.
  rewrite mktime_ok; [done|split; done|lia..].
Qed.

(** The fields as C has them. *)
Definition ints (r : tm) : Prop :=
  Forall (fun x => - 2 ^ 31 <= x < 2 ^ 31) [tm_sec r; tm_min r; tm_hour r; tm_mday r; tm_mon r; tm_year r].

Lemma u32_cases x : - 2 ^ 31 <= x < 2 ^ 31 -> 0 <= x /\ u32 x = x \/ x < 0 /\ 2 ^ 31 <= u32 x.
Proof. intros Hx. unfold u32. zlia. Qed.

Lemma rtc_valid_tm_ok (r : rtc_time) : ints r -> tm_year r < 2 ^ 30 -> rtc_valid_tm r = Some 0 <-> fields_ok r /\ 70 <= tm_year r.
Proof.
  unfold ints. rewrite !Forall_cons_iff. intros (I1 & I2 & I3 & I4 & I5 & I6 & _) Hy. unfold rtc_valid_tm.
  destruct (Z.ltb_spec (tm_year r) 70) as [H1|H1]; cbn [orb]; [split; [discriminate|lia]|].
  destruct (Z.leb_spec 12 (u32 (tm_mon r))) as [H2|H2]; cbn [orb].
  { split; [discriminate|]. intros [[[Hm _] _ _ _] _]. rewrite u32_small in H2; lia. }
  destruct (u32_cases _ I5) as [[Hm0 Em]|]; [|lia]. rewrite Em in *.
  destruct (Z.ltb_spec (tm_mday r) 1) as [H3|H3]; cbn [orb].
  { split; [discriminate|]. intros [[[_ Hd] _ _ _] _]. lia. }
  rewrite rtc_month_days_ok, bind_Some, (u32_small (tm_year r + 1900)) by lia.
  split.
  - destruct (Z.ltb_spec (month_len (is_leap_year (tm_year r + 1900)) (tm_mon r)) (tm_mday r)) as [H4|H4]; cbn [orb]; [discriminate|].
    destruct (Z.leb_spec 24 (u32 (tm_hour r))), (Z.leb_spec 60 (u32 (tm_min r))), (Z.leb_spec 60 (u32 (tm_sec r)));
      cbn [orb]; try discriminate. intros _.
    pose proof (u32_cases _ I1). pose proof (u32_cases _ I2). pose proof (u32_cases _ I3).
    split; [|done]. constructor; [split; [lia|lia]|lia..].
  - intros [[[Hm Hd] Hh Hmi Hs] _]. rewrite (u32_small (tm_hour r)), (u32_small (tm_min r)), (u32_small (tm_sec r)) by lia.
    rewrite (proj2 (Z.ltb_ge _ _)), !(proj2 (Z.leb_gt _ _)) by lia. done.
Qed.

(** Two dates with the same seconds are the same. *)
Lemma seconds_inj r r' : fields_ok r -> fields_ok r' -> seconds r = seconds r' ->
  tm_year r = tm_year r' /\ tm_mon r = tm_mon r' /\ tm_mday r = tm_mday r' /\
  tm_hour r = tm_hour r' /\ tm_min r = tm_min r' /\ tm_sec r = tm_sec r'.
Proof.
  intros [D1 H1 M1 S1] [D2 H2 M2 S2] E. unfold seconds in E.
  destruct (day_number_inj _ _ _ _ _ _ D1 D2) as (Ey & Em & Ed); [lia|].
  rewrite <- Ey, <- Em, <- Ed in E. lia.
Qed.

Lemma seconds_range r : fields_ok r -> 70 <= tm_year r < 206 -> 0 <= seconds r < 2 ^ 32.
Proof.
  intros [D H M S] Hy. pose proof (date_yday _ _ _ D) as Hd. unfold seconds.
  assert (0 <= jan1 (tm_year r + 1900) /\ jan1 (tm_year r + 1900 + 1) <= 49673) as [H1 H2] by (unfold jan1, leaps; zlia). lia.
Qed.

Lemma time_trip t : 0 <= t < 2 ^ 32 -> exists r, rtc_time_to_tm t = Some r /\ rtc_valid_tm r = Some 0 /\ is_date t r /\
  rtc_tm_to_time r = (0, t).
Proof.
  intros Ht. destruct (rtc_time_to_tm_ok t Ht) as (r & E & Hd & Hy & _). exists r.
  destruct (date_fields t r Hd) as [Hf Hs]. pose proof Hf as [[Hm Hmd] Hh Hmi Hsec].
  pose proof (month_start_range (is_leap_year (tm_year r + 1900)) (tm_mon r) Hm) as (_ & Hl & _).
  split; [done|]. split; [|split; [done|]].
  - apply rtc_valid_tm_ok; [|lia|by split; [|lia]]. repeat constructor; lia.
  - rewrite rtc_tm_to_time_ok by (done || lia). by rewrite Hs, ulong_small by lia.
Qed.

Lemma ktime_trip t r : 0 <= t < 2 ^ 31 -> rtc_tm_to_time r = (0, t) -> rtc_ktime_to_tm (rtc_tm_to_ktime r) = rtc_time_to_tm t.
Proof.
  intros Ht E. unfold rtc_tm_to_ktime, rtc_ktime_to_tm, ktime_to_timespec, ktime_set, NSEC_PER_SEC. rewrite E. cbn [snd].
  rewrite (s32_small t), (s64_small (t * 1000000000)), Z.add_0_r, s64_small by lia.
  rewrite ns_to_timespec_ok by (unfold NSEC_PER_SEC; zlia). unfold NSEC_PER_SEC.
  rewrite Z.div_mul, Z.mod_mul by lia. cbn [mbind option_bind tv_sec tv_nsec]. rewrite truth_0, ulong_small by lia. done.
Qed.

(** ** The properties *)

(** C11: for every time that an unsigned word holds, rtc_time_to_tm() gives a
    valid date of the Gregorian calendar, which rtc_tm_to_time() turns back into that time, as the ktime_t conversions do before
    2038; and every date that rtc_valid_tm() accepts, before 2106, is turned into a time
    and back into itself. *)
Theorem rtc_round_trip :
  (forall t, 0 <= t < 2 ^ 32 -> exists r, rtc_time_to_tm t = Some r /\ rtc_valid_tm r = Some 0 /\ is_date t r /\
     rtc_tm_to_time r = (0, t) /\ (t < 2 ^ 31 -> rtc_ktime_to_tm (rtc_tm_to_ktime r) = Some r)) /\
  (forall r : rtc_time, ints r -> rtc_valid_tm r = Some 0 -> tm_year r < 206 ->
     exists r', rtc_time_to_tm (rtc_tm_to_time r).2 = Some r' /\
       tm_year r' = tm_year r /\ tm_mon r' = tm_mon r /\ tm_mday r' = tm_mday r /\
       tm_hour r' = tm_hour r /\ tm_min r' = tm_min r /\ tm_sec r' = tm_sec r).
Proof.
  split.
  - intros t Ht. destruct (time_trip t Ht) as (r & E & Hv & Hd & Hb). exists r. do 4 (split; [done|]).
    intros Ht2. rewrite (ktime_trip t r); (done || lia).
  - intros r Hi Hv Hy. apply rtc_valid_tm_ok in Hv as [Hf Hy']; [|done|lia].
    pose proof (seconds_range r Hf ltac:(lia)) as Hs. rewrite rtc_tm_to_time_ok by (done || lia). cbn [snd]. rewrite ulong_small by lia.
    destruct (rtc_time_to_tm_ok (seconds r) Hs) as (r' & E & Hd & _). exists r'. split; [done|].
    destruct (date_fields _ r' Hd) as [Hf' Hs']. by apply seconds_inj.
Qed.

Lemma rtc_round_trip_witness : exists r, rtc_time_to_tm 1330473600 = Some r /\ rtc_tm_to_time r = (0, 1330473600) /\
  rtc_tm r = mk_tm 0 0 0 29 1 112 3 60.
Proof.
  destruct (proj1 rtc_round_trip 1330473600) as (r & E & _ & _ & Hb & _); [lia|].
  exists r. split; [exact E|]. split; [exact Hb|]. vm_compute in E. by injection E as <-.
Defined.

(** C29: for every signed 32-bit time, also before 1970, and every offset, time_to_tm()
    ends all its loops and gives the date of their sum in the Gregorian
    calendar, with its time of day, day of the week and day of the year. *)
Theorem time_to_tm_civil t offset : - 2 ^ 31 <= t < 2 ^ 31 -> - 2 ^ 31 + 2 ^ 18 <= offset <= 2 ^ 31 - 2 ^ 18 ->
  exists r, time_to_tm t offset = Some r /\ is_date (t + offset) r /\
    tm_yday r = month_start (is_leap_year (tm_year r + 1900)) (tm_mon r) + tm_mday r - 1.
Proof. apply time_to_tm_ok. Qed.

Lemma time_to_tm_civil_witness : exists r, time_to_tm (- 86400) (- 3600) = Some r /\ is_date (- 90000) r /\
  r = mk_tm 0 0 23 30 11 69 2 363.
Proof.
  destruct (time_to_tm_civil (- 86400) (- 3600)) as (r & E & Hd & _); [lia|lia|].
  exists r. split; [exact E|]. split; [exact Hd|]. vm_compute in E. by injection E as <-.
Defined.

(** set_normalized_timespec() keeps the sum of seconds and nanoseconds and
    leaves nanoseconds below a second, for every number of nanoseconds, the seconds
    wrapping around; ns_to_timespec() gives the same and timespec_to_ns() inverts it; and
    timespec_add_safe() adds exactly or saturates. *)
Theorem timespec_normal :
  (forall sec nsec, - 2 ^ 63 <= nsec < 2 ^ 63 ->
     set_normalized_timespec (s32 sec) nsec = Some (mk_timespec (s32 (sec + nsec / NSEC_PER_SEC)) (nsec mod NSEC_PER_SEC))) /\
  (forall n, - 2 ^ 63 <= n < 2 ^ 63 -> - 2 ^ 31 <= n / NSEC_PER_SEC < 2 ^ 31 ->
     ns_to_timespec n = set_normalized_timespec 0 n /\ timespec_to_ns <$> ns_to_timespec n = Some n) /\
  (forall a b, timespec_ok a -> timespec_ok b ->
     timespec_add_safe a b = Some (mk_timespec
       (Z.min TIME_T_MAX (tv_sec a + tv_sec b + (tv_nsec a + tv_nsec b) / NSEC_PER_SEC))
       ((tv_nsec a + tv_nsec b) mod NSEC_PER_SEC))).
Proof.
  split; [apply set_normalized_ok|]. split; [|intros a b Ha Hb; by apply add_safe_ok].
  intros n Hn Hs. rewrite ns_to_timespec_ok by done. change 0 with (s32 0) at 1.
  rewrite set_normalized_ok, Z.add_0_l, (s32_small (n / NSEC_PER_SEC)) by done. split; [done|].
  cbn [fmap option_fmap option_map]. rewrite timespec_to_ns_ok; cbn [tv_sec tv_nsec]; [|done|unfold NSEC_PER_SEC; zlia].
  f_equal. unfold NSEC_PER_SEC. zlia.
Qed.

Lemma timespec_normal_witness :
  set_normalized_timespec (s32 7) (-1) = Some (mk_timespec 6 999999999) /\
  timespec_add_safe (mk_timespec (2 ^ 31 - 1) 600000000) (mk_timespec 0 600000000) = Some (mk_timespec (2 ^ 31 - 1) 200000000).
Proof.
  split.
  - rewrite (proj1 timespec_normal 7 (-1)); [reflexivity|lia].
  - rewrite (proj2 (proj2 timespec_normal)); [reflexivity| |]; split; vm_compute; intuition discriminate.
Defined.
