(* ===== verification/UbootDate.v ===== *)
(** * Dates in the boot loader: U-Boot's drivers/rtc/date.c

    The boot loader converts a time to a date by counting down the years and
    the months, with a table of month lengths that it changes for leap years and puts
    back.  Its dates count months from 1 and years from 0.

    The theorem shows that the boot loader and the kernel (Calendar.v) give the same
    date for every time, and the same time for every date. *)

From S2P Require Import Prelude Div64 Calendar.

Definition FEBRUARY : Z := 2.
Definition STARTOFTIME : Z := 1970.
Definition SECDAY : Z := 86400.

Definition leapyear (year : Z) : bool := Z.rem year 4 =? 0.
Definition days_in_year (a : Z) : Z := if leapyear a then 366 else 365.

(** The initial value of the table. *)
Definition month_days : list Z := [31; 28; 31; 30; 31; 30; 31; 31; 30; 31; 30; 31].

Definition set_wday (t : rtc_time) (wday : Z) : rtc_time :=
  mk_rtc_time (mk_tm (tm_sec t) (tm_min t) (tm_hour t) (tm_mday t) (tm_mon t) (tm_year t) wday (tm_yday t)) (tm_isdst t).

Definition MonthOffset : list Z := [0; 31; 59; 90; 120; 151; 181; 212; 243; 273; 304; 334].

Definition GregorianDay (t : rtc_time) : option rtc_time :=
  let lastYear := s32 (tm_year t - 1) in
  let leapsToDate := s32 (s32 (Z.quot lastYear 4 - Z.quot lastYear 100) + Z.quot lastYear 400) in
  let day := if (Z.rem (tm_year t) 4 =? 0) &&
                (negb (Z.rem (tm_year t) 100 =? 0) || (Z.rem (tm_year t) 400 =? 0)) &&
                (2 <? tm_mon t) then 1 else 0 in
  offset ← MonthOffset.[s32 (tm_mon t - 1)];
  let day := s32 (day + (s32 (lastYear * 365) + leapsToDate + offset + tm_mday t)) in
  Some (set_wday t (Z.rem day 7)).

(** Counting down the years: [i] and [day]. *)
Definition years_body : Z * Z -> option (step (Z * Z) (Z * Z)) := fun '(i, day) =>
  if days_in_year i <=? day then Some (Next (s32 (i + 1), s32 (day - days_in_year i))) else Some (Done (i, day)).

(** Counting down the months. *)
Definition months_body (md : list Z) : Z * Z -> option (step (Z * Z) (Z * Z)) := fun '(i, day) =>
  d ← md.[i - 1];
  if d <=? day then Some (Next (s32 (i + 1), s32 (day - d))) else Some (Done (i, day)).

(** The date, written over [t], and the table. *)
Definition to_tm (tim : Z) (t : rtc_time) (md : list Z) : option (rtc_time * list Z) :=
  let day := Z.quot tim SECDAY in
  let hms := Z.rem tim SECDAY in
  let hour := Z.quot hms 3600 in
  let min := Z.quot (Z.rem hms 3600) 60 in
  let sec := Z.rem (Z.rem hms 3600) 60 in
  '(year, day) ← loop years_body (2 ^ 16) (STARTOFTIME, day);
  md ← (if leapyear year then md.[FEBRUARY - 1 <- 29] else Some md);
  '(mon, day) ← loop (months_body md) 13 (1, day);
  md ← md.[FEBRUARY - 1 <- 28];
  t ← GregorianDay (mk_rtc_time (mk_tm sec min hour (s32 (day + 1)) mon year (tm_wday t) (tm_yday t)) (tm_isdst t));
  Some (t, md).

Definition mktime (year mon day hour min sec : Z) : Z :=
  let mon := u32 (mon - 2) in
  let '(mon, year) := if s32 mon <=? 0 then (u32 (mon + 12), u32 (year - 1)) else (mon, year) in
  ulong (ulong (ulong ((u32 (year / 4 - year / 100 + year / 400 + u32 (367 * mon) / 12 + day) +
    u32 (year * 365) - 719499) * 24 + hour) * 60 + min) * 60 + sec).

(** ** Proofs *)

Lemma leapyear_ok y : 1970 <= y < 2100 -> leapyear y = is_leap_year y.
Proof.
  intros Hy. unfold leapyear. rewrite rem_eqb_mod by lia. unfold is_leap_year, truth.
  destruct (Z.eqb_spec (y mod 4) 0), (Z.eqb_spec (y mod 100) 0), (Z.eqb_spec (y mod 400) 0); cbn; try done; exfalso; zlia.
Qed.

Lemma days_in_year_ok y : 1970 <= y < 2100 -> days_in_year y = year_len y.
Proof. intros Hy. unfold days_in_year, year_len. rewrite leapyear_ok by done. by destruct (is_leap_year y). Qed.

Lemma years_ok D : 0 <= D < 24900 ->
  exists y, loop years_body (2 ^ 16) (1970, D) = Some (y, D - jan1 y) /\ 1970 <= y < 2099 /\ 0 <= D - jan1 y < year_len y.
Proof.
  intros HD.
  destruct (loop_total years_body (fun s => 1970 <= s.1 < 2099 /\ s.2 = D - jan1 s.1 /\ 0 <= s.2)
    (fun s => s.2) (fun s => 1970 <= s.1 < 2099 /\ s.2 = D - jan1 s.1 /\ 0 <= s.2 < year_len s.1)) with
    (bound := 2 ^ 16) (s := (1970, D)) as ([y r] & E & H); [| |cbn; lia|].
  - intros [y r] (Hy & Hr & Hp). cbn [fst snd] in *. split; cbn [fst snd]; [lia|]. unfold years_body.
    rewrite days_in_year_ok by lia. pose proof (year_len_range y). pose proof (jan1_next y) as Hn.
    destruct (Z.leb_spec (year_len y) r); [|cbn; lia].
    assert (0 <= jan1 y) by (unfold jan1, leaps; zlia). rewrite !s32_small by lia. cbn [fst snd]. split; [|lia].
    split; [|lia]. split; [lia|]. assert (jan1 (y + 1) <= D) as Hj by lia. unfold jan1, leaps in Hj. zlia.
  - cbn [fst snd]. change (jan1 1970) with 0. lia.
  - cbn [fst snd] in H. destruct H as (Hy & -> & Hl). exists y. done.
Qed.

(** The table with the length of February in the year. *)
Definition february (leap : bool) : list Z := [31; if leap then 29 else 28; 31; 30; 31; 30; 31; 31; 30; 31; 30; 31].

Lemma february_get leap m : 0 <= m < 12 -> (february leap).[m] = Some (month_len leap m).
Proof. intros Hm. destruct leap; months m Hm; reflexivity. Qed.

Lemma months_ok leap yday : 0 <= yday < 365 + b2z leap ->
  exists m, loop (months_body (february leap)) 13 (1, yday) = Some (m + 1, yday - month_start leap m) /\
    0 <= m < 12 /\ 0 <= yday - month_start leap m < month_len leap m.
Proof.
  intros Hy. assert (b2z leap <= 1) by (destruct leap; cbn; lia).
  destruct (loop_total (months_body (february leap))
    (fun s => 1 <= s.1 <= 12 /\ s.2 = yday - month_start leap (s.1 - 1) /\ 0 <= s.2) (fun s => 12 - s.1)
    (fun s => 1 <= s.1 <= 12 /\ s.2 = yday - month_start leap (s.1 - 1) /\ 0 <= s.2 < month_len leap (s.1 - 1))) with
    (bound := 13) (s := (1, yday)) as ([i r] & E & H1 & H2 & H3); [| |cbn; lia|].
  - intros [i r] (Hi & Hr & Hp). cbn [fst snd] in *. split; cbn [fst snd]; [lia|]. unfold months_body.
    rewrite february_get, bind_Some by lia. pose proof (month_start_range leap (i - 1) ltac:(lia)) as (M1 & M2 & M3).
    destruct (Z.leb_spec (month_len leap (i - 1)) r); [|cbn; lia]. unfold month_len in *.
    replace (i - 1 + 1) with i in * by lia.
    destruct (Z.eq_dec i 12) as [-> |]; [rewrite year_end in *; lia|].
    rewrite !s32_small by lia. cbn [fst snd]. split; [|lia]. replace (i + 1 - 1) with i by lia. lia.
  - cbn [fst snd]. assert (month_start leap (1 - 1) = 0) as -> by (by destruct leap). lia.
  - cbn [fst snd] in *. exists (i - 1). replace (i - 1 + 1) with i by lia. rewrite E, H2. split; [done|]. lia.
Qed.

Lemma gregorian_wday (t : rtc_time) : date_ok (tm_year t) (tm_mon t - 1) (tm_mday t) -> 1970 <= tm_year t < 2 ^ 20 ->
  GregorianDay t = Some (set_wday t ((day_number (tm_year t) (tm_mon t - 1) (tm_mday t) + 4) mod 7)).
Proof.
  intros [Hm Hd] Hy. unfold GregorianDay. pose proof (isleap_ok (tm_year t)) as Hl. unfold __isleap in Hl. rewrite Hl.
  set (y := tm_year t) in *. set (m := tm_mon t - 1) in *. replace (tm_mon t) with (m + 1) in * by lia.
  rewrite (s32_small (y - 1)), (s32_small m) by lia. rewrite !Z.quot_div_nonneg by lia.
  pose proof (month_start_range (is_leap_year y) m Hm) as (M1 & M2 & M3).
  assert (b2z (is_leap_year y) <= 1) by (destruct (is_leap_year y); cbn; lia).
  rewrite (s32_small ((y - 1) / 4 - (y - 1) / 100)) by zlia. rewrite (s32_small (_ + (y - 1) / 400)) by zlia.
  rewrite (s32_small ((y - 1) * 365)) by lia.
  assert (exists o, MonthOffset.[m] = Some o /\
    (if is_leap_year y && (2 <? m + 1) then 1 else 0) + o = month_start (is_leap_year y) m /\ 0 <= o <= 366) as (o & -> & Ho & Hob).
  { destruct (is_leap_year y); months m Hm; (eexists; split; [reflexivity|]; split; [reflexivity|lia]). }
  rewrite bind_Some. f_equal. unfold set_wday. f_equal. f_equal. fold y m.
  assert (0 <= leaps (y - 1) < 2 ^ 20) as Hlr by (unfold leaps; zlia). unfold leaps in Hlr.
  match goal with |- Z.rem (s32 ?e) 7 = _ => replace e with (day_number y m (tm_mday t) + 719163) end.
  - assert (0 <= day_number y m (tm_mday t) < 2 ^ 30) by (unfold month_len in *; unfold day_number, jan1, leaps; zlia).
    rewrite s32_small, Z.rem_mod_nonneg by lia. zlia.
  - unfold day_number, jan1, leaps. rewrite <- Ho. lia.
Qed.

Lemma to_tm_ok tim t : 0 <= tim < 2 ^ 31 ->
  exists r, to_tm tim t month_days = Some (r, month_days) /\
    is_date tim (mk_tm (tm_sec r) (tm_min r) (tm_hour r) (tm_mday r) (tm_mon r - 1) (tm_year r - 1900) (tm_wday r) (tm_yday r)) /\
    tm_year r < 2099.
Proof.
  intros Ht. unfold to_tm, SECDAY, STARTOFTIME.
  rewrite (Z.quot_div_nonneg tim), (Z.rem_mod_nonneg tim) by lia.
  set (D := tim / 86400). assert (0 <= D < 24900) as HD by (unfold D; zlia).
  rewrite !Z.rem_mod_nonneg, !Z.quot_div_nonneg by (try rewrite !Z.rem_mod_nonneg; zlia).
  destruct (years_ok D HD) as (y & -> & Hy & Hyd). rewrite bind_Some. cbv beta iota. rewrite leapyear_ok by lia.
  replace (if is_leap_year y then month_days.[FEBRUARY - 1 <- 29] else Some month_days) with (Some (february (is_leap_year y)))
    by (by destruct (is_leap_year y)).
  rewrite bind_Some. destruct (months_ok (is_leap_year y) (D - jan1 y) Hyd) as (m & -> & Hm & Hml). rewrite bind_Some. cbv beta iota.
  replace ((february (is_leap_year y)).[FEBRUARY - 1 <- 28]) with (Some month_days) by (by destruct (is_leap_year y)).
  rewrite bind_Some. pose proof (month_start_range (is_leap_year y) m Hm) as (M1 & M2 & M3).
  rewrite s32_small by lia. rewrite gregorian_wday; cbn [tm_year tm_mon tm_mday rtc_tm]; [|unfold date_ok; replace (m + 1 - 1) with m by lia; lia|lia].
  rewrite bind_Some. eexists. split; [reflexivity|]. split; [|cbn; lia].
  constructor; cbn; replace (y - 1900 + 1900) with y by lia; replace (m + 1 - 1) with m by lia; fold D; unfold date_ok, day_number;
    try lia; [..|f_equal; unfold D; lia]; unfold D; zlia.
Qed.

(** ** The property *)

(** C23: for every time that a signed word holds, the boot loader's to_tm() ends and gives
    the date that the kernel's rtc_time_to_tm() and time_to_tm() give, in its own counting of years and
    months, and leaves its table of month lengths as it was; and mktime() of the two agree on
    all arguments, so that the boot loader's turns that date back into the time. *)
Theorem uboot_dates_agree tim t : 0 <= tim < 2 ^ 31 ->
  (exists r k k', to_tm tim t month_days = Some (r, month_days) /\ rtc_time_to_tm tim = Some k /\ time_to_tm tim 0 = Some k' /\
     tm_year r = tm_year k + 1900 /\ tm_mon r = tm_mon k + 1 /\ tm_mday r = tm_mday k /\
     tm_hour r = tm_hour k /\ tm_min r = tm_min k /\ tm_sec r = tm_sec k /\ tm_wday r = tm_wday k /\
     tm_year k' = tm_year k /\ tm_mon k' = tm_mon k /\ tm_mday k' = tm_mday k /\ tm_wday k' = tm_wday k /\
     mktime (tm_year r) (tm_mon r) (tm_mday r) (tm_hour r) (tm_min r) (tm_sec r) = tim) /\
  (forall year mon day hour min sec, mktime year mon day hour min sec = Calendar.mktime year mon day hour min sec).
Proof.
  intros Ht. split; [|done]. destruct (to_tm_ok tim t Ht) as (r & E & Hd & Hy).
  destruct (rtc_time_to_tm_ok tim) as (k & Ek & Hk & Hyk & _); [lia|].
  destruct (time_to_tm_ok tim 0) as (k' & Ek' & Hk' & _); [lia..|]. rewrite Z.add_0_r in Hk'.
  exists r, k, k'. do 3 (split; [done|]).
  destruct (date_fields _ _ Hd) as [Fr Sr], (date_fields _ _ Hk) as [Fk Sk], (date_fields _ _ Hk') as [Fk' Sk'].
  destruct (seconds_inj _ _ Fr Fk) as (E1 & E2 & E3 & E4 & E5 & E6); [congruence|].
  destruct (seconds_inj _ _ Fk' Fk) as (G1 & G2 & G3 & G4 & G5 & G6); [congruence|].
  cbn in E1, E2, E3, E4, E5, E6.
  pose proof (d_wday _ _ Hd) as W. pose proof (d_wday _ _ Hk) as Wk. pose proof (d_wday _ _ Hk') as Wk'. cbn in W.
  assert (tm_year r = tm_year k + 1900) as E1' by lia. assert (tm_mon r = tm_mon k + 1) as E2' by lia.
  do 11 (split; [done || congruence|]).
  change (Calendar.mktime (tm_year r) (tm_mon r) (tm_mday r) (tm_hour r) (tm_min r) (tm_sec r) = tim).
  destruct Fk as [Fd Fh Fm Fs]. rewrite E1', E2', E3, E4, E5, E6, mktime_ok by (done || lia).
  unfold seconds in Sk. rewrite Sk. apply ulong_small. lia.
Qed.

Definition blank : rtc_time := mk_rtc_time (mk_tm 0 0 0 0 0 0 0 0) 0.

Lemma uboot_dates_agree_witness : exists r, to_tm 1330473600 blank month_days = Some (r, month_days) /\
  rtc_tm r = mk_tm 0 0 0 29 2 2012 3 0 /\ mktime 2012 2 29 0 0 0 = 1330473600.
Proof.
  destruct (proj1 (uboot_dates_agree 1330473600 blank ltac:(lia))) as (r & k & k' & E & _).
  exists r. split; [exact E|]. split; [|reflexivity]. vm_compute in E. by injection E as <-.
Defined.

(** A time before 1970, or after January 2038, which is negative: the day of the month is 0. *)
Example to_tm_negative : exists r, to_tm (- 86401) blank month_days = Some (r, month_days) /\ tm_mday r = 0 /\ tm_hour r = 0.
Proof. eexists. split; [vm_compute; reflexivity|]. split; reflexivity. Qed.
